(* ===== verification/_CoqProject ===== *)
-Q . S2P
Prelude.v
F64.v
F64Bounds.v
Text.v
Numeral.v
RetryTimer.v
Seq.v
Path.v
Mtu.v
NatTraversal.v
TurnRelay.v
Ice.v
TcpFallback.v
Pacer.v
Connection.v
Fec.v
Congestion.v
Grants.v
Clipboard.v
PanicKey.v
Chat.v
Wire.v
Dataplane.v
Consent.v
AuditLog.v
Persist.v
ChunkCache.v
Resume.v
Scheduler.v
Tier.v
Gears.v
Thermal.v
Governor.v
Crypto.v
NoiseIk.v
KeyExchange.v
RelayGuard.v
SecureChannel.v
TemporalSvc.v
JitterBuffer.v
Palette.v
Tiles.v
Damage.v
Picture.v
Screen.v
Adpcm.v
Dtx.v
Voice.v
FileTransfer.v
Inbound.v
Signaling.v
Rooms.v
Stun.v
Input.v
Senders.v
Records.v
KnownPeers.v
SigClient.v
Establish.v
Mesh.v
TileDiff.v
Quality.v
Telemetry.v
CpuCeiling.v
Guardrail.v
Compress.v
Repair.v
WarmPool.v
Motion.v
Ipc.v
Scroll.v
AuditExport.v
Ledger.v
MicCapture.v
ScreenCapture.v
AudioChain.v
Denoise.v
Injection.v
Head.v
Probes.v
