(* ===== verification/Prelude.v ===== *)
(** * LowBand: a verification library for the Rust workspace under src/

    LowBand is a peer-to-peer call and remote-desktop program for lines of a few
    kilobits per second.  The workspace [src/core] has the crates
    - [lbtp]: the datagram transport (sequence numbers, pacing, congestion
      control, FEC sizing, NAT traversal, TCP fallback);
    - [crypto]: the Noise-IK handshake, the key exchange of a relayed call, the
      sealed datagrams, pinned peers and the short authentication string;
    - [messaging]: chat, clipboard, capability grants, the panic key, the audit
      log, session records;
    - [xfer]: chunk deduplication, resumable transfers, the bulk scheduler;
    - [platform]: the governor (tiers, budgets, gears), the screen codec, the
      talking head, the capture back ends, the audio chain, input events, the
      socket of the shells;
    - [signaling]: the rendezvous service and its client;
    - [nn], [obs]: inference and telemetry;
    - [lowbandd]: the daemon that puts them together.

    ** How the parts interact

    A call starts at the signaling service: the host opens a session or a room,
    both ends publish candidates, the host meets the address it finds and the two
    run Noise-IK over UDP ([Signaling], [Rooms], [SigClient], [Stun],
    [Establish], [Mesh], [NoiseIk], [SecureChannel]).  One sealed session then
    carries control messages, files, screen and voice; the receiver classifies a
    datagram by its first byte and hands it to the plane it belongs to
    ([Inbound] over [Dataplane], [FileTransfer], [Screen], [Voice]).  What a
    message may do depends on the grants of the session, which the user, the
    clock, or the panic key of either end withdraw ([Grants], [Clipboard],
    [PanicKey]; [Consent] composes them).  Below the session, [lbtp] paces the
    frames of nine channels through a token bucket ([Pacer], [Connection]) whose
    rate follows the congestion estimators ([Congestion], [Fec]).  Ten times a
    second the governor turns the rate and the loss into a tier, the tier and the
    machine's constraints into a budget and gears ([Tier], [Gears], [Governor]),
    which the schedulers and codecs obey.

    What is sent starts at a device: the screen and the cursor ([ScreenCapture]),
    the microphone ([MicCapture]) with its processing ([AudioChain]), the camera
    with its pre-filter ([Denoise]).  At the survival tier a camera frame becomes
    keypoints, these a motion stream, and the receiver draws a head from them and
    one reference picture ([Head], [Motion], [Senders]).  Remote input arrives as
    events ([Input]) and leaves through the platform's calls ([Injection]).  The
    shells are told of all of it over a local socket ([Ipc]).

    ** Files and sources

    Each file models the source files its first comment names; a definition has
    the name of the function or type it models wherever Rocq allows it (a method
    [new] of [T] is [t_new] or [new] in a module [T]).

    Shared: [Prelude] (machine integers, checked list access, lemmas on them),
    [F64] and [F64Bounds] (binary64 arithmetic on the Standard Library's
    [SpecFloat], executable, with monotonicity, bounds and the relative error of
    one operation; binary32), [Text] (Unicode strings and UTF-8),
    [Numeral] (formatting and parsing of numbers), [RetryTimer] (the interface of
    the probe timers), [Persist] (append-only record files), [Crypto] (the
    interface of the cryptographic primitives), [Ledger] (traces of objects
    obtained from the operating system and released).

    - [core/lbtp/src]: [Seq] seq.rs; [Path] path.rs; [Mtu] mtu.rs;
      [NatTraversal] hole_punch.rs and nat_keepalive.rs; [TurnRelay]
      turn_relay.rs; [Ice] ice_candidate.rs; [TcpFallback] tcp_fallback.rs;
      [Pacer] pacer.rs; [Connection] connection.rs, with platform's
      input_latency_budget.rs; [Fec] fec.rs; [Congestion] congestion.rs, delay.rs
      and cellular.rs.
    - [core/crypto/src]: [NoiseIk] noise_ik.rs; [KeyExchange] key_exchange.rs and
      short_auth_string.rs; [RelayGuard] relay_guard.rs; [SecureChannel]
      udp_session.rs; [KnownPeers] known_peers.rs.
    - [core/messaging/src]: [Grants] grants.rs; [Clipboard] clipboard.rs;
      [PanicKey] panic_key.rs; [Chat] chat.rs; [Wire] wire.rs; [AuditLog] and
      [AuditExport] audit.rs; [Records] session_records.rs and qos_observer.rs;
      [Compress] channel.rs; [Consent] has no source of its own.
    - [core/xfer/src]: [ChunkCache] cache.rs and persistent_cache.rs; [Resume]
      resume.rs; [Scheduler] scheduler.rs; [Compress] compress.rs; [Repair]
      fec.rs.
    - [core/platform/src]: [Tier] tier*.rs; [Gears] gear_policy.rs and the files
      that apply a gear; [Thermal] thermal.rs; [Governor] control_loop.rs and governor_summary.rs;
      [TemporalSvc] temporal_svc.rs and stream_drop_policy.rs; [JitterBuffer] jitter_buffer.rs; [Dtx]
      dtx.rs and plc_chain.rs; [Palette], [Tiles], [TileDiff], [Damage] and
      [Scroll] screen_encoder.rs; [CpuCeiling] cpu_ceiling.rs and
      cpu_telemetry.rs; [Guardrail] fallback_detector.rs; [Head]
      keypoint_extractor.rs and synthesis_network.rs; [Motion]
      motion_encoder.rs; [ScreenCapture] screen_capture.rs; [MicCapture]
      mic_capture.rs; [AudioChain] echo_canceller.rs, noise_suppressor.rs, agc.rs
      and collapse_audio.rs; [Denoise] denoise_prefilter.rs; [Input]
      input_channel_sender.rs and the gate of input_injection.rs; [Injection] its
      back ends and elevation.rs; [Ipc] ipc.rs; [Senders] the small senders.
    - [core/lowbandd/src]: [Dataplane] dataplane.rs; [Inbound] inbound.rs;
      [FileTransfer] file_transfer.rs; [Picture] picture.rs; [Screen]
      screen_transfer.rs; [Adpcm] adpcm.rs; [Voice] voice.rs, audio_io.rs
      and voice_loop.rs; [Stun] stun.rs;
      [Establish] session.rs; [Mesh] mesh.rs.
    - [core/nn/src]: [WarmPool] the registry and the readiness of the models.
    - [core/obs/src]: [Quality] quality_indicator.rs, quality_bar_lag.rs and
      metrics_trace.rs; [Telemetry] telemetry.rs and sender.rs; [Probes]
      ocr_probe.rs and vmaf_sample.rs.
    - [core/signaling/src]: [Signaling] lib.rs; [Rooms] room.rs; [SigClient]
      client.rs.

    ** Conventions

    A struct is a Record of the same fields, an enum an Inductive with the same
    constructors.  A method on [&mut self] takes the record and answers the new
    one, with its result in a pair.  [Result] is a sum with the error type of the
    source; an [option] in a result position is a panic ([None]) unless the
    source says [Option].  An unsigned integer is an [N], a signed one a [Z];
    the arithmetic is that of a release build, so every operation that can wrap
    has its [wrap].  Bytes are [list byte].  [f64] is binary64 and [f32] binary32,
    rounding included ([f32] transforms that are not modelled are parameters).
    [Instant::now()] and random values are arguments.  State shared through an
    [Arc] is a heap indexed by location ([Grants]).  A call of the operating
    system is its answer, an argument, and the objects it gives are a trace
    ([Ledger]), so that a theorem can say which of them are released.

    Code outside src/ is a parameter, of a class or a Section: the primitives of
    [Crypto], the store of the signaling service ([Signaling.Tree]), BLAKE3
    ([FileTransfer]), zstd and RaptorQ ([Compress], [Repair]), the picture
    transforms ([Picture]), sine and cosine ([Scroll], [Head]), the logarithm
    ([AudioChain]), the builder of FlatBuffers ([Ipc]), the signatures of exports
    ([AuditExport]), the hasher of cursor shapes ([ScreenCapture]), the flags of
    Windows ([Injection]).  So is the allocator where a peer chooses a size
    ([FileTransfer]) and the network between the sockets of a call
    ([Establish.call]).  Each that has laws has an instance, so that the
    theorems that assume them are applied to it.

    The recursions are structural on the queue, the text or the list consumed.
    Where the source loops on a state, the model counts the rounds with a fuel
    that cannot run out, because each round consumes some of it: a round of the
    pacer's drain takes a frame off a queue ([Pacer.drain_fuel] is one more than
    the frames queued), a pass of the damage merge ends within twice the
    rectangles and the passes within their number ([Damage]), a round of the
    stream reassembler, the chunked body or a JSON array consumes a byte
    ([TcpFallback], [SigClient]), a STUN attribute its header ([Stun]), a varint
    or a number a digit ([Input], [Numeral]).  The theorems of those components
    state that a result is returned.  A wait that polls until its deadline is a
    number of polls, an argument ([Establish.wait_for]).

    ** What is proved

    - Transport: the sequence numbers the sender used come back ([Seq]); the
      drain sends exactly what a greedy priority order within the balance sends,
      no balance exceeds the burst, and no frame is lost, duplicated or reordered
      within its channel ([Pacer], [Connection]); the reassembler answers the
      same whatever the chunks ([TcpFallback]); the relay follows its phases and
      the probe timers end ([TurnRelay], [RetryTimer]).
    - Security: the handshake agrees and its transcript certifies the keys
      ([NoiseIk]); a session delivers what was sent, whatever the order, loss
      and repetition of datagrams ([SecureChannel]); no nonce repeats
      ([RelayGuard]); a consent once withdrawn stays withdrawn, whatever is done
      after ([Consent]); a datagram has no effect its grants do not allow
      ([Dataplane]); a signature binds the log below it ([AuditLog]), and an
      export checks exactly when it was signed by the expected signer
      ([AuditExport]).
    - Round trips: message frames ([Wire]), screen tiles ([Palette], [Screen]),
      input events ([Input]), JSON fields and chunked bodies ([SigClient]),
      voice state on both sides, and what the microphone captured, from its
      device to the queue of the speaker's ([Voice], [Adpcm]); the motion stream loses
      nothing past its quantiser ([Motion]).
    - Transfers: a file arrives under loss, repetition, corruption and a process
      that dies, a record of the state file torn in its middle apart
      ([FileTransfer], [Resume]); the planes of a session do not disturb each
      other, and only an announcement that no buffer can hold stops the router
      ([Inbound]).
    - Control: the allocator is a priority allocation ([Gears]), the tier is a
      hysteresis ([Tier]), two ends that
      exchange their summaries converge ([Governor]; the exchange is assumed, no
      loop of the sources does it); a thread that
      sleeps as told keeps the processor ceiling ([CpuCeiling]); the guardrail's
      deadline runs from the first frame of the present unsafe run
      ([Guardrail]).
    - Establishment: the signaling service is a set of mailboxes and rosters
      ([Signaling], [Rooms]); in every interleaving a host that meets somebody
      meets the joiner ([Establish]), and a join code leads to a session where the
      network carries datagrams to the addresses found and to an error where it
      does not; the members of a room meet in pairs ([Mesh]).
    - Devices: every handle obtained is released, or the theorem says which are
      not ([MicCapture], [ScreenCapture], [Injection]); the microphone's frames
      are its samples in order; a cursor shape is sent once; an event is injected
      as the call that means it ([Injection]); the shells see a subsequence of
      what the daemon sent, in order ([Ipc]).
    - Signal: the echo canceller is a delay line in front of its filter
      ([AudioChain]); the pre-filter is a box filter ([Denoise]);
      every camera frame is extracted, crosses the wire and is drawn, within the
      pictures it reads ([Head]); the probes' scores are in range ([Probes]).
    - Damage: merged rectangles cover what they replace ([Damage]); the tile
      detector reports what changed, and the mirror follows ([TileDiff]); a
      reported scroll is completed by its strip ([Scroll]).
    - Libraries behind an interface: messages and chunks survive compression
      ([Compress]), the repair symbols of an object have no gap ([Repair]).
    - Observation: the indicator is in sync exactly when it shows what holds
      ([Quality]), the telemetry tells the sums and nothing else ([Telemetry]).

    Where the code falls short of what it means to do, a theorem states what it
    does: a frame longer than the burst blocks its channel for good
    ([Pacer.oversized_frame_blocks_channel]), a state file that outlives its
    file blocks the transfer ([FileTransfer.lost_file_blocks_transfer]), two
    datagrams end the receiver ([FileTransfer.empty_offer_ends_process]), sums of sizes
    wrap ([Clipboard], [Screen]), a restart revives old mailboxes ([Signaling]).

    ** What is not modelled, and why

    Third-party code (zstd, FastCDC, BLAKE3, RaptorQ, Opus, AV1, ONNX Runtime,
    sled, axum, the elliptic curve and the AEAD); the operating system below its
    calls (sockets and their timeouts, the audio devices, the prompts of
    elevation, load sensors, I/O errors but those a theorem names, the mapping of
    memory); threads, where the code has one
    loop per thread that owns its state (the handshakes of a group call, the
    daemon's loops in main.rs); neural models and their training; the DCT and the
    metrics that compare pictures; Unicode lowercasing; generated protocol code; benchmarks, shells, mobile, packaging
    and the web site. *)

From Stdlib Require Export ZArith NArith Lia.
From Stdlib Require Import Strings.Byte.
From stdpp Require Export base tactics list gmap.


#[local] Open Scope N_scope.

(** ** Machine integers

    An unsigned Rust integer of width [w] is an [N]; the operations below are
    the ones the sources call.  [wrap] is the release-build behaviour of plain
    [+], [*] and [<<]; [sat_add] and [N.sub] are [saturating_add] and
    [saturating_sub]. *)
Definition wrap (w n : N) : N := n mod 2 ^ w.

Definition wrapping_add (w a b : N) : N := wrap w (a + b).

Definition wrapping_sub (w a b : N) : N := wrap w (a + 2 ^ w - b mod 2 ^ w).

Definition u_max (w : N) : N := 2 ^ w - 1.

Definition sat_add (w a b : N) : N := N.min (a + b) (u_max w).

(** Reinterpretation of a [w]-bit pattern as a two's complement integer
    ([as i16], [as i64]). *)
Definition as_signed (w n : N) : Z :=
  let m := wrap w n in
  if m <? 2 ^ (w - 1) then Z.of_N m else (Z.of_N m - Z.of_N (2 ^ w))%Z.

(** [i32] arithmetic of a release build and the cast to [u32]. *)
Definition i32 (z : Z) : Z := ((z + 2 ^ 31) mod 2 ^ 32 - 2 ^ 31)%Z.
Definition in_i32 (z : Z) : Prop := (- 2 ^ 31 <= z < 2 ^ 31)%Z.
Definition as_u32 (z : Z) : N := Z.to_N (z mod 2 ^ 32).

(** [Ord::clamp] on unsigned and on signed integers. *)
Definition clampN (x lo hi : N) : N :=
  if x <? lo then lo else if hi <? x then hi else x.

Definition clampZ (x lo hi : Z) : Z :=
  if (x <? lo)%Z then lo else if (hi <? x)%Z then hi else x.

(** [usize] lengths of slices and vectors. *)
Definition lenN {A} (l : list A) : N := N.of_nat (length l).

(** [iter().map(g).sum()]. *)
Definition sum_of {A} (g : A -> N) (l : list A) : N := foldr (fun x s => g x + s) 0 l.

(** [slice.split_at_checked(n)]: [None] when the slice is shorter than [n]. *)
Definition split_at_checked {A} (n : N) (l : list A) : option (list A * list A) :=
  if n <=? lenN l
  then Some (take (N.to_nat n) l, drop (N.to_nat n) l)
  else None.

(** ** Results

    [Result<A, E>]; the [?] operator is stdpp's monadic bind. *)
Inductive result (E A : Type) :=
| Ok (a : A)
| Err (e : E).
Arguments Ok {E A} a.
Arguments Err {E A} e.

#[export] Instance result_ret E : MRet (result E) := fun A a => Ok a.
#[export] Instance result_bind E : MBind (result E) :=
  fun A B f r => match r with Ok a => f a | Err e => Err e end.
#[export] Instance result_fmap E : FMap (result E) :=
  fun A B f r => match r with Ok a => Ok (f a) | Err e => Err e end.

Definition is_ok {E A} (r : result E A) : bool := match r with Ok _ => true | Err _ => false end.

(** [Option::ok_or]. *)
Definition ok_or {E A} (e : E) (o : option A) : result E A :=
  match o with Some a => Ok a | None => Err e end.

(** ** Bytes *)
Abbreviation byte := Byte.byte (only parsing).

(** [n as u8]. *)
Definition byte_of (n : N) : byte :=
  match Byte.of_N (n mod 256) with Some b => b | None => Byte.x00 end.

(** [to_le_bytes] for a [k]-byte integer, and [from_le_bytes]. *)
Fixpoint le_bytes (k : nat) (n : N) : list byte :=
  match k with
  | O => []
  | S k => byte_of n :: le_bytes k (n / 256)
  end.

Fixpoint le_value (l : list byte) : N :=
  match l with
  | [] => 0
  | b :: l => Byte.to_N b + 256 * le_value l
  end.

Definition be_bytes (k : nat) (n : N) : list byte := reverse (le_bytes k n).
Definition be_value (l : list byte) : N := le_value (reverse l).

(** [i16::to_le_bytes] and [i16::from_le_bytes]. *)
Definition i16_ok (z : Z) : Prop := (- 2 ^ 15 <= z < 2 ^ 15)%Z.
Definition i16_bytes (z : Z) : list byte := le_bytes 2 (Z.to_N (z mod 2 ^ 16)).
Definition i16_value (l : list byte) : Z := as_signed 16 (le_value l).

#[export] Instance byte_eq_dec : EqDecision byte := Byte.byte_eq_dec.

#[export] Program Instance byte_countable : Countable byte :=
  inj_countable Byte.to_N Byte.of_N _.
Next Obligation. intros b. apply Byte.of_to_N. Qed.

(** ** Tactics and hint database of the development *)
Create HintDb lowband discriminated.
Create Rewrite HintDb lowband_len.

(** Boolean comparisons in the hypotheses and the goal become propositions. *)
Ltac reflectN :=
  repeat match goal with
  | H : (_ <? _) = true |- _ => apply N.ltb_lt in H
  | H : (_ <? _) = false |- _ => apply N.ltb_ge in H
  | H : (_ <=? _) = true |- _ => apply N.leb_le in H
  | H : (_ <=? _) = false |- _ => apply N.leb_gt in H
  | H : (_ =? _) = true |- _ => apply N.eqb_eq in H
  | H : (_ =? _) = false |- _ => apply N.eqb_neq in H
  | H : (_ && _)%bool = true |- _ => apply andb_true_iff in H as [? ?]
  | H : (_ || _)%bool = false |- _ => apply orb_false_iff in H as [? ?]
  | H : negb _ = true |- _ => apply negb_true_iff in H
  | H : negb _ = false |- _ => apply negb_false_iff in H
  end.

(** Case analysis on every [if] over a comparison in the goal. *)
Ltac case_ifs :=
  repeat match goal with
  | |- context [if ?b then _ else _] =>
      lazymatch type of b with bool => destruct b eqn:? end
  end; reflectN.

Ltac case_ifs_in H :=
  repeat match type of H with
  | context [if ?b then _ else _] =>
      lazymatch type of b with bool => destruct b eqn:? end
  end; reflectN.

(** ** Shared lemmas *)
Section machine_integers.
Lemma pow2_pos w : 0 < 2 ^ w.
Proof. apply N.neq_0_lt_0, N.pow_nonzero. lia. Qed.

Lemma wrap_lt w n : wrap w n < 2 ^ w.
Proof. apply N.mod_lt. pose proof (pow2_pos w). lia. Qed.

Lemma wrap_small w n : n < 2 ^ w -> wrap w n = n.
Proof. apply N.mod_small. Qed.

Lemma i32_small z : (- 2 ^ 31 <= z < 2 ^ 31)%Z -> i32 z = z.
Proof. unfold i32. intros Hz. rewrite Z.mod_small; lia. Qed.

Lemma i32_in z : in_i32 (i32 z).
Proof. unfold in_i32, i32. pose proof (Z.mod_pos_bound (z + 2 ^ 31) (2 ^ 32)). lia. Qed.

Lemma i32_shift z k : i32 (z + k * 2 ^ 32) = i32 z.
Proof. unfold i32. f_equal. rewrite <- (Z_mod_plus_full (z + 2 ^ 31) k). f_equal. lia. Qed.

Lemma clampN_bounds x lo hi : lo <= hi -> lo <= clampN x lo hi <= hi.
Proof. intros ?. unfold clampN. case_ifs; lia. Qed.

Lemma clampN_id x lo hi : lo <= x <= hi -> clampN x lo hi = x.
Proof. intros ?. unfold clampN. case_ifs; lia. Qed.

Lemma sat_add_bounds w a b : sat_add w a b <= u_max w.
Proof. unfold sat_add. lia. Qed.
End machine_integers.

Section lengths.
Context {A : Type}.
Implicit Types l : list A.

Lemma lenN_app l1 l2 : lenN (l1 ++ l2) = lenN l1 + lenN l2.
Proof. unfold lenN. rewrite length_app. lia. Qed.

Lemma lenN_cons x l : lenN (x :: l) = 1 + lenN l.
Proof. unfold lenN. simpl length. lia. Qed.

Lemma lenN_nil : lenN (@nil A) = 0.
Proof. reflexivity. Qed.

Lemma lenN_0 l : lenN l = 0 -> l = [].
Proof. unfold lenN. destruct l; simpl; [done | lia]. Qed.

Lemma to_nat_lenN l : N.to_nat (lenN l) = length l.
Proof. unfold lenN. apply Nat2N.id. Qed.

Lemma split_at_checked_app l1 l2 n :
  n = lenN l1 -> split_at_checked n (l1 ++ l2) = Some (l1, l2).
Proof.
  intros ->. unfold split_at_checked. rewrite lenN_app.
  rewrite (proj2 (N.leb_le _ _)) by lia.
  unfold lenN. rewrite Nat2N.id, take_app_length, drop_app_length. done.
Qed.

Lemma split_at_checked_Some n l h t :
  split_at_checked n l = Some (h, t) -> l = h ++ t /\ lenN h = n.
Proof.
  unfold split_at_checked. case_ifs; intros [= <- <-].
  rewrite take_drop. split; [done|]. unfold lenN in *.
  rewrite length_take. lia.
Qed.

Lemma split_at_checked_None n l :
  split_at_checked n l = None -> lenN l < n.
Proof. unfold split_at_checked. case_ifs; [done|]. intros _. lia. Qed.
End lengths.

Section sums.
Context {A : Type} (g : A -> N).
Implicit Types l : list A.

Lemma sum_of_nil : sum_of g [] = 0.
Proof. reflexivity. Qed.

Lemma sum_of_cons x l : sum_of g (x :: l) = g x + sum_of g l.
Proof. reflexivity. Qed.

Lemma sum_of_app l1 l2 : sum_of g (l1 ++ l2) = sum_of g l1 + sum_of g l2.
Proof. induction l1 as [|x l1 IH]; [done|]. cbn [app]. rewrite !sum_of_cons. lia. Qed.

Lemma sum_of_insert l i x y :
  l !! i = Some x -> sum_of g (<[i := y]> l) + g x = sum_of g l + g y.
Proof.
  revert i. induction l as [|a l IH]; intros [|i]; try done.
  - intros [= <-]. change (<[0%nat := y]> (a :: l)) with (y :: l). rewrite !sum_of_cons. lia.
  - intros Hl. change (<[S i := y]> (a :: l)) with (a :: <[i := y]> l).
    rewrite !sum_of_cons. specialize (IH i Hl). lia.
Qed.
End sums.

Section bytes.
Lemma byte_to_N_lt (b : byte) : Byte.to_N b < 256.
Proof. pose proof (Byte.to_N_bounded b). lia. Qed.

Lemma to_N_byte_of n : Byte.to_N (byte_of n) = n mod 256.
Proof.
  unfold byte_of. destruct (Byte.of_N (n mod 256)) eqn:E.
  - by apply Byte.to_of_N in E.
  - apply Byte.of_N_None_iff in E. pose proof (N.mod_lt n 256). lia.
Qed.

Lemma byte_of_to_N b : byte_of (Byte.to_N b) = b.
Proof.
  unfold byte_of. rewrite N.mod_small by apply byte_to_N_lt.
  by rewrite Byte.of_to_N.
Qed.

Lemma le_bytes_length k n : length (le_bytes k n) = k.
Proof. revert n; induction k; simpl; auto. Qed.

Lemma le_value_bytes k n : le_value (le_bytes k n) = n mod 256 ^ N.of_nat k.
Proof.
  revert n; induction k as [|k IH]; intros n.
  - simpl. by rewrite N.mod_1_r.
  - cbn [le_bytes le_value]. rewrite to_N_byte_of, IH.
    rewrite Nat2N.inj_succ, N.pow_succ_r'.
    rewrite N.Div0.mod_mul_r. lia.
Qed.

Lemma le_value_bytes_small k n :
  n < 256 ^ N.of_nat k -> le_value (le_bytes k n) = n.
Proof. intros. rewrite le_value_bytes. by apply N.mod_small. Qed.

Lemma le_bytes_value l : le_bytes (length l) (le_value l) = l.
Proof.
  induction l as [|b l IH]; [done|]. cbn [length le_bytes le_value].
  pose proof (byte_to_N_lt b). f_equal.
  - rewrite <- (byte_of_to_N b) at 2. unfold byte_of.
    rewrite (N.mul_comm 256), N.Div0.mod_add. done.
  - rewrite (N.mul_comm 256), N.div_add by lia.
    rewrite N.div_small by lia. by rewrite N.add_0_l, IH.
Qed.

Lemma i16_bytes_length z : length (i16_bytes z) = 2%nat.
Proof. apply le_bytes_length. Qed.

Lemma as_signed_16 n :
  n < 2 ^ 16 -> as_signed 16 n = if n <? 2 ^ 15 then Z.of_N n else (Z.of_N n - 2 ^ 16)%Z.
Proof. intros Hn. unfold as_signed. rewrite wrap_small by done. done. Qed.

Lemma i16_round z : i16_ok z -> as_signed 16 (Z.to_N (z mod 2 ^ 16)) = z.
Proof.
  unfold i16_ok. intros Hz. pose proof (Z.mod_pos_bound z (2 ^ 16) ltac:(lia)). rewrite as_signed_16 by lia.
  destruct (Z_lt_le_dec z 0) as [Hneg|Hpos].
  - assert (E : (z mod 2 ^ 16 = z + 2 ^ 16)%Z) by (rewrite <- (Z_mod_plus_full z 1), Z.mod_small by lia; lia).
    rewrite E. rewrite (proj2 (N.ltb_ge _ _)) by lia. lia.
  - rewrite Z.mod_small by lia. rewrite (proj2 (N.ltb_lt _ _)) by lia. lia.
Qed.

Lemma i16_roundtrip z : i16_ok z -> i16_value (i16_bytes z) = z.
Proof.
  intros Hz. unfold i16_value, i16_bytes. pose proof (Z.mod_pos_bound z (2 ^ 16) ltac:(lia)).
  rewrite le_value_bytes_small by (change (256 ^ N.of_nat 2) with (2 ^ 16); lia). by apply i16_round.
Qed.

Lemma be_bytes_length k n : length (be_bytes k n) = k.
Proof. unfold be_bytes. by rewrite length_reverse, le_bytes_length. Qed.

Lemma lenN_le_bytes k n : lenN (le_bytes k n) = N.of_nat k.
Proof. unfold lenN. by rewrite le_bytes_length. Qed.

Lemma lenN_be_bytes k n : lenN (be_bytes k n) = N.of_nat k.
Proof. unfold lenN. by rewrite be_bytes_length. Qed.

Lemma be_value_bytes_small k n :
  n < 256 ^ N.of_nat k -> be_value (be_bytes k n) = n.
Proof.
  intros. unfold be_value, be_bytes. rewrite reverse_involutive.
  by apply le_value_bytes_small.
Qed.

Lemma le_value_lt l : le_value l < 256 ^ N.of_nat (length l).
Proof.
  induction l as [|b l IH]; [done|]. cbn [length le_value].
  rewrite Nat2N.inj_succ, N.pow_succ_r'. pose proof (byte_to_N_lt b). nia.
Qed.

Lemma be_value_lt l : be_value l < 256 ^ N.of_nat (length l).
Proof. unfold be_value. rewrite <- length_reverse. apply le_value_lt. Qed.
End bytes.

#[export] Hint Resolve wrap_lt clampN_bounds byte_to_N_lt : lowband.
#[export] Hint Rewrite @lenN_app @lenN_cons @lenN_nil lenN_le_bytes lenN_be_bytes : lowband_len.
