(* ===== verification/F64.v ===== *)
(** [f64]: the IEEE binary64 operations the sources call, executable on the
    Standard Library's [SpecFloat], with the order facts the components share.

    [fz] is the exact value of a valid float in units of [2^-1074]; comparison
    of floats is comparison of [fz], and every rounded operation is bounded by
    every float that bounds its exact result ([round_above], [round_below]).
    The binary32 operations ([f32]) follow at the end. *)
From S2P Require Import Prelude.
From Stdlib Require Export Floats.SpecFloat.
#[local] Open Scope Z_scope.

Abbreviation f64 := spec_float.

Declare Scope f64_scope.
Delimit Scope f64_scope with f64.

Definition f_add : f64 -> f64 -> f64 := SFadd 53 1024.
Definition f_sub : f64 -> f64 -> f64 := SFsub 53 1024.
Definition f_mul : f64 -> f64 -> f64 := SFmul 53 1024.
Definition f_div : f64 -> f64 -> f64 := SFdiv 53 1024.

Notation "x + y" := (f_add x y) : f64_scope.
Notation "x - y" := (f_sub x y) : f64_scope.
Notation "x * y" := (f_mul x y) : f64_scope.
Notation "x / y" := (f_div x y) : f64_scope.
Notation "- x" := (SFopp x) : f64_scope.
Notation "x <? y" := (SFltb x y) : f64_scope.
Notation "x <=? y" := (SFleb x y) : f64_scope.
Notation "x =? y" := (SFeqb x y) : f64_scope.
Notation "x >? y" := (SFltb y x) (only parsing) : f64_scope.
Notation "x >=? y" := (SFleb y x) (only parsing) : f64_scope.

(** [as f64] of an integer, and a decimal literal [num / 10^k] (correctly
    rounded when [num] and [10^k] are exact, as they are for every literal of
    the sources). *)
Definition f_of_Z (z : Z) : f64 := binary_normalize 53 1024 z 0 false.
Definition f_of_N (n : N) : f64 := f_of_Z (Z.of_N n).
Definition f_lit (num den : Z) : f64 := f_div (f_of_Z num) (f_of_Z den).

Definition f_zero : f64 := S754_zero false.
Definition f_one : f64 := f_of_Z 1.

Definition is_nan (x : f64) : bool := match x with S754_nan => true | _ => false end.

Definition is_finite (x : f64) : bool :=
  match x with S754_zero _ | S754_finite _ _ _ => true | _ => false end.

(** [f64::min], [f64::max] (a NaN operand is ignored) and [f64::clamp]. *)
Definition f_min (x y : f64) : f64 :=
  if is_nan x then y else if is_nan y then x else if SFltb y x then y else x.
Definition f_max (x y : f64) : f64 :=
  if is_nan x then y else if is_nan y then x else if SFltb x y then y else x.
Definition f_clamp (x lo hi : f64) : f64 :=
  if SFltb x lo then lo else if SFltb hi x then hi else x.

(** Integer parts of a finite float: truncation, floor, ceiling and [round]
    (half away from zero). *)
Definition f_trunc_Z (x : f64) : Z :=
  match x with
  | S754_finite s m e =>
      let a := if 0 <=? e then Zpos m * 2 ^ e else Zpos m / 2 ^ (- e) in
      if s then - a else a
  | _ => 0
  end.
Definition f_floor_Z (x : f64) : Z :=
  match x with
  | S754_finite s m e =>
      let z := if s then Zneg m else Zpos m in
      if 0 <=? e then z * 2 ^ e else z / 2 ^ (- e)
  | _ => 0
  end.
Definition f_ceil_Z (x : f64) : Z := - f_floor_Z (SFopp x).
Definition f_round_Z (x : f64) : Z :=
  match x with
  | S754_finite s m e =>
      let a := if 0 <=? e then Zpos m * 2 ^ e
               else (2 * Zpos m + 2 ^ (- e)) / 2 ^ (- e + 1) in
      if s then - a else a
  | _ => 0
  end.

(** [.floor()], [.ceil()], [.round()] and [.trunc()] as floats. *)
Definition f_integral (g : f64 -> Z) (x : f64) : f64 :=
  match x with S754_finite _ _ _ => f_of_Z (g x) | _ => x end.
Definition f_floor := f_integral f_floor_Z.
Definition f_ceil := f_integral f_ceil_Z.
Definition f_round := f_integral f_round_Z.

(** [iter().sum::<f64>()]: additions from the left. *)
Definition f_sum (l : list f64) : f64 := fold_left f_add l f_zero.

(** Saturating casts to an unsigned integer of width [w]: NaN gives 0. *)
Definition f_to_uN (w : N) (x : f64) : N :=
  match x with
  | S754_nan | S754_zero _ => 0
  | S754_infinity s => if s then 0 else u_max w
  | S754_finite _ _ _ => N.min (Z.to_N (f_trunc_Z x)) (u_max w)
  end.

(** [x.round() as i32], for a float of any width. *)
Definition round_i32 (x : f64) : Z :=
  match x with
  | S754_infinity s => if s then - 2 ^ 31 else 2 ^ 31 - 1
  | _ => clampZ (f_round_Z x) (- 2 ^ 31) (2 ^ 31 - 1)
  end.

(** ** Values *)

(** 1.0 and infinity in units of [2^-1074]; opaque to arithmetic tactics. *)
Definition scale : Z := 2 ^ 1074.
Definition top : Z := 2 ^ 2098.

Lemma scale_pos : 0 < scale.
Proof. apply Z.pow_pos_nonneg; lia. Qed.

Lemma scale_lt_top : scale < top.
Proof. apply Z.pow_lt_mono_r; lia. Qed.

Lemma scale_split a b : 0 <= a -> 0 <= b -> a + b = 1074 -> scale = 2 ^ a * 2 ^ b.
Proof. intros. rewrite <- Z.pow_add_r by done. unfold scale. congruence. Qed.

Lemma top_split a b : 0 <= a -> 0 <= b -> a + b = 2098 -> top = 2 ^ a * 2 ^ b.
Proof. intros. rewrite <- Z.pow_add_r by done. unfold top. congruence. Qed.

(** [2^(n + 1074)] as a multiple of the unit. *)
Lemma pow_scale n : 0 <= n -> 2 ^ (n + 1074) = 2 ^ n * scale.
Proof. intros. rewrite Z.pow_add_r by lia. done. Qed.

Lemma small_lt_top : 2 ^ 64 * scale < top.
Proof. rewrite <- pow_scale by lia. apply Z.pow_lt_mono_r; lia. Qed.

Ltac scale_lia := pose proof scale_pos; pose proof scale_lt_top; pose proof small_lt_top; lia.

Definition valid (x : f64) : bool := valid_binary 53 1024 x.

Definition fz (x : f64) : Z :=
  match x with
  | S754_finite s m e => cond_Zopp s (Zpos m * 2 ^ (e + 1074))
  | S754_infinity s => cond_Zopp s (top)
  | _ => 0
  end.

(** ** Rounding *)
Definition exact (r : shr_record) : bool := negb (shr_r r) && negb (shr_s r).

Lemma digits2_spec p : 2 ^ (Zpos (digits2_pos p) - 1) <= Zpos p < 2 ^ Zpos (digits2_pos p).
Proof.
  induction p as [p IH|p IH|]; cbn [digits2_pos]; rewrite ?Pos2Z.inj_succ, ?Z.pow_succ_r by lia;
    try (replace (Z.succ (Zpos (digits2_pos p)) - 1) with (Z.succ (Zpos (digits2_pos p) - 1)) by lia;
         rewrite Z.pow_succ_r by lia); lia.
Qed.

Lemma digits2_unique p d : 0 < d -> 2 ^ (d - 1) <= Zpos p < 2 ^ d -> Zpos (digits2_pos p) = d.
Proof.
  intros Hd [H1 H2]. pose proof (digits2_spec p) as [H3 H4].
  assert (~ Zpos (digits2_pos p) < d).
  { intros ?. assert (2 ^ Zpos (digits2_pos p) <= 2 ^ (d - 1)) by (apply Z.pow_le_mono_r; lia). lia. }
  assert (~ d < Zpos (digits2_pos p)).
  { intros ?. assert (2 ^ d <= 2 ^ (Zpos (digits2_pos p) - 1)) by (apply Z.pow_le_mono_r; lia). lia. }
  lia.
Qed.

Lemma iter_pos_nat {A} (f : A -> A) n x : iter_pos f n x = Nat.iter (Pos.to_nat n) f x.
Proof.
  revert x. induction n as [n IH|n IH|]; intros x; cbn [iter_pos]; [..|done].
  - rewrite !IH, Pos2Nat.inj_xI. change (S ?k) with (1 + k)%nat.
    replace (1 + 2 * Pos.to_nat n)%nat with (Pos.to_nat n + (Pos.to_nat n + 1))%nat by lia.
    by rewrite !Nat.iter_add.
  - rewrite !IH, Pos2Nat.inj_xO. replace (2 * Pos.to_nat n)%nat with (Pos.to_nat n + Pos.to_nat n)%nat by lia.
    by rewrite Nat.iter_add.
Qed.

Lemma shr_1_spec r :
  0 <= shr_m r -> shr_m (shr_1 r) = shr_m r / 2 /\
  exact (shr_1 r) = exact r && Z.even (shr_m r).
Proof.
  destruct r as [m b s]; cbn [shr_m]. intros Hm. rewrite <- Z.div2_div.
  destruct m as [|[p|p|]|]; try lia; by destruct b, s.
Qed.

Lemma shr_iter_spec n r :
  0 <= shr_m r ->
  shr_m (Nat.iter n shr_1 r) = shr_m r / 2 ^ Z.of_nat n /\
  (exact (Nat.iter n shr_1 r) = true <->
    exact r = true /\ (2 ^ Z.of_nat n | shr_m r)).
Proof.
  intros Hm. induction n as [|n [IH1 IH2]].
  - change (Nat.iter 0 shr_1 r) with r. rewrite Z.pow_0_r, Z.div_1_r.
    intuition auto with zarith.
  - change (Nat.iter (S n) shr_1 r) with (shr_1 (Nat.iter n shr_1 r)).
    set (q := Nat.iter n shr_1 r) in *.
    assert (Hq : 0 <= shr_m q) by (rewrite IH1; apply Z.div_pos; lia).
    destruct (shr_1_spec q Hq) as [H1 H2]. rewrite H1, H2, Nat2Z.inj_succ, Z.pow_succ_r by lia.
    pose proof (Z.pow_pos_nonneg 2 (Z.of_nat n) ltac:(lia) ltac:(lia)) as Hp.
    split; [rewrite IH1, Z.div_div by lia; f_equal; lia|].
    rewrite andb_true_iff, IH2, Z.even_spec. split.
    + intros [[He [k Hk]] [j Hj]]. split; [done|]. exists j.
      rewrite IH1, Hk, Z.div_mul in Hj by lia. nia.
    + intros [He [k Hk]]. split; [split; [done|exists (2 * k); lia]|].
      exists k. rewrite IH1, Hk. replace (k * (2 * 2 ^ Z.of_nat n)) with (2 * k * 2 ^ Z.of_nat n) by lia.
      apply Z.div_mul. lia.
Qed.

(** [shr] by a non-negative amount: a floor division that records whether it
    was exact. *)
Lemma shr_spec r e n :
  0 <= shr_m r -> 0 <= n ->
  snd (shr r e n) = e + n /\
  shr_m (fst (shr r e n)) = shr_m r / 2 ^ n /\
  (exact (fst (shr r e n)) = true <-> exact r = true /\ (2 ^ n | shr_m r)).
Proof.
  intros Hm Hn. destruct n as [|p|p]; [..|lia]; cbn [shr fst snd].
  - rewrite Z.pow_0_r, Z.div_1_r. intuition auto with zarith.
  - rewrite iter_pos_nat. destruct (shr_iter_spec (Pos.to_nat p) r Hm) as [H1 H2].
    rewrite positive_nat_Z in *. auto.
Qed.

Lemma shr_record_of_loc_spec m l :
  shr_m (shr_record_of_loc m l) = m /\
  exact (shr_record_of_loc m l) = match l with loc_Exact => true | _ => false end.
Proof. by destruct l as [|[]]. Qed.

Lemma round_nearest_even_spec r :
  shr_m r <= round_nearest_even (shr_m r) (loc_of_shr_record r) <= shr_m r + 1 /\
  (exact r = true -> round_nearest_even (shr_m r) (loc_of_shr_record r) = shr_m r).
Proof.
  destruct r as [m [] []]; cbn; try (destruct (Z.even m)); split; intros; try done; lia.
Qed.

(** One more than the truncated mantissa when bits were lost. *)
Definition inexact (l : location) : Z := match l with loc_Exact => 0 | _ => 1 end.

(** The rounded integer significand lies between the floor and the ceiling of
    the exact one at the target exponent [e']. *)
Lemma round_step mx ex lx e' :
  0 <= mx -> ex <= e' ->
  let '(mrs, e1) := shr (shr_record_of_loc mx lx) ex (e' - ex) in
  let q := round_nearest_even (shr_m mrs) (loc_of_shr_record mrs) in
  e1 = e' /\ mx / 2 ^ (e' - ex) <= q <= mx / 2 ^ (e' - ex) + 1 /\
  forall y, mx + inexact lx <= y * 2 ^ (e' - ex) -> q <= y.
Proof.
  intros Hm He. destruct (shr_record_of_loc_spec mx lx) as [Hr Hx].
  destruct (shr_spec (shr_record_of_loc mx lx) ex (e' - ex)) as (H1 & H2 & H3); [lia..|].
  destruct (shr _ _ _) as [mrs e1]. cbn [fst snd] in *. rewrite Hr in *. cbn zeta.
  destruct (round_nearest_even_spec mrs) as [Hb He1]. rewrite <- H2. split; [lia|]. split; [lia|].
  intros y Hy. pose proof (Z.pow_pos_nonneg 2 (e' - ex) ltac:(lia) ltac:(lia)) as Hp.
  assert (Hle : shr_m mrs <= y).
  { rewrite H2. apply Z.div_le_upper_bound; [lia|]. destruct lx; cbn [inexact] in Hy; lia. }
  destruct (exact mrs) eqn:E; [rewrite He1 by done; lia|].
  (* bits were lost, so the exact value is strictly above the floor *)
  enough (shr_m mrs <> y) by lia. intros Hxy. rewrite Hx in H3.
  assert (mx = y * 2 ^ (e' - ex) /\ lx = loc_Exact) as [Hmx ->].
  { pose proof (Z.mul_div_le mx (2 ^ (e' - ex)) ltac:(lia)). rewrite <- H2, Hxy in *.
    destruct lx; cbn [inexact] in Hy; [split; [lia|done]|lia]. }
  enough (false = true) by done. apply H3. split; [done|]. exists y. lia.
Qed.

(** A result that is not negative: what rounding a positive value gives. *)
Definition nonneg (x : f64) : bool :=
  match x with S754_zero _ | S754_infinity false | S754_finite false _ _ => true | _ => false end.

Lemma fexp_eq d : fexp 53 1024 d = Z.max (d - 53) (-1074).
Proof. reflexivity. Qed.

Lemma Zdigits2_pos p : Zdigits2 (Zpos p) = Zpos (digits2_pos p).
Proof. reflexivity. Qed.

(** The second pass of the rounding: a significand of at most [2^53] is
    normalised without loss. *)
Lemma renormalise q e' :
  0 <= q <= 2 ^ 53 -> -1074 <= e' -> (e' = -1074 \/ 2 ^ 52 <= q) ->
  let '(mrs, e2) := shr_fexp 53 1024 q e' loc_Exact in
  let r := match shr_m mrs with
           | Z0 => S754_zero false
           | Zpos m => if e2 <=? 1024 - 53 then S754_finite false m e2 else S754_infinity false
           | _ => S754_nan
           end in
  valid r = true /\ nonneg r = true /\
  (fz r = q * 2 ^ (e' + 1074) \/
   (r = S754_infinity false /\ top <= q * 2 ^ (e' + 1074))).
Proof.
  intros Hq He Hn. unfold shr_fexp. rewrite fexp_eq.
  destruct q as [|p|p]; [..|lia].
  - assert (e' = -1074) as -> by lia. split_and!; [done|done|by left].
  - rewrite Zdigits2_pos. pose proof (digits2_spec p) as Hd.
    destruct (Z.eq_dec (Zpos p) (2 ^ 53)) as [H53|H53].
    + assert (Hdp : Zpos (digits2_pos p) = 54) by (apply digits2_unique; lia).
      rewrite Hdp. rewrite Z.max_l by lia. replace (54 + e' - 53 - e') with 1 by lia.
      assert (p = 2 ^ 53)%positive as -> by lia.
      change (shr (shr_record_of_loc (Z.pos (2 ^ 53)) loc_Exact) e' 1) with
        (Build_shr_record (2 ^ 52) false false, e' + 1). cbn [shr_m].
      change (2 ^ 52) with (Zpos (2 ^ 52)). cbn zeta iota.
      destruct (Z.leb_spec (e' + 1) (1024 - 53)).
      * split_and!; [|done|left].
        -- unfold valid, valid_binary, bounded, canonical_mantissa. rewrite fexp_eq.
           change (Z.pos (digits2_pos (2 ^ 52))) with 53.
           rewrite Z.max_l by lia. apply andb_true_iff. split; [apply Z.eqb_eq|apply Z.leb_le]; lia.
        -- cbn [fz cond_Zopp]. replace (e' + 1 + 1074) with (Z.succ (e' + 1074)) by lia.
           rewrite Z.pow_succ_r by lia. lia.
      * split_and!; [done|done|right]. split; [done|].
        rewrite (top_split 53 2045) by lia.
        apply Z.mul_le_mono_nonneg_l; [lia|]. apply Z.pow_le_mono_r; lia.
    + assert (Hdp : Zpos (digits2_pos p) <= 53).
      { destruct (Z_le_gt_dec (Zpos (digits2_pos p)) 53); [done|].
        assert (2 ^ 53 <= 2 ^ (Zpos (digits2_pos p) - 1)) by (apply Z.pow_le_mono_r; lia). lia. }
      assert (Hf : Z.max (Z.pos (digits2_pos p) + e' - 53) (-1074) = e').
      { destruct Hn as [->|Hn]; [lia|]. enough (Zpos (digits2_pos p) = 53) by lia.
        apply digits2_unique; lia. }
      rewrite Hf, Z.sub_diag. cbn [shr shr_record_of_loc shr_m].
      destruct (Z.leb_spec e' (1024 - 53)).
      * split_and!; [|done|by left].
        unfold valid, valid_binary, bounded, canonical_mantissa. rewrite fexp_eq, Hf.
        apply andb_true_iff. split; [apply Z.eqb_eq|apply Z.leb_le]; lia.
      * split_and!; [done|done|right]. split; [done|]. destruct Hn as [->|Hn]; [lia|].
        rewrite (top_split 52 2046) by lia.
        apply Z.mul_le_mono_nonneg; try lia. apply Z.pow_le_mono_r; lia.
Qed.

(** A valid non-negative float as a significand of 53 bits and an exponent. *)
Lemma nonneg_rep y :
  valid y = true -> nonneg y = true ->
  exists m e, 0 <= m < 2 ^ 53 /\ -1074 <= e /\ fz y = m * 2 ^ (e + 1074) /\ fz y <= top.
Proof.
  destruct y as [s|[]| |[] m e]; try done; intros Hv _.
  - exists 0, (-1074). cbn [fz]. scale_lia.
  - exists (2 ^ 52), 972. cbn [fz cond_Zopp]. rewrite (top_split 52 2046) by lia. split_and!; lia || done.
  - unfold valid, valid_binary, bounded, canonical_mantissa in Hv. rewrite fexp_eq in Hv.
    apply andb_true_iff in Hv as [Hc%Z.eqb_eq Hb%Z.leb_le].
    pose proof (digits2_spec m) as [_ Hm]. exists (Zpos m), e. cbn [fz cond_Zopp].
    assert (2 ^ Z.pos (digits2_pos m) <= 2 ^ 53) by (apply Z.pow_le_mono_r; lia).
    split_and!; try lia. rewrite (top_split 53 2045) by lia.
    apply Z.mul_le_mono_nonneg; try lia. apply Z.pow_le_mono_r; lia.
Qed.

(** Rounding an exact value that is not negative, of significand [mx] (plus a
    fraction when [lx] is inexact) and exponent [ex]. *)
Definition fits (mx ex : Z) : Prop := 0 <= mx /\ ex <= fexp 53 1024 (Zdigits2 mx + ex).

Lemma Zdigits2_spec m :
  0 <= m -> m < 2 ^ Zdigits2 m /\ (0 < m -> 2 ^ (Zdigits2 m - 1) <= m) /\ 0 <= Zdigits2 m.
Proof.
  destruct m as [|p|p]; intros; [cbn; lia| |lia]. rewrite Zdigits2_pos.
  pose proof (digits2_spec p). lia.
Qed.

Lemma round_pos mx ex lx :
  fits mx ex ->
  let r := binary_round_aux 53 1024 false (mx) ex lx in
  valid r = true /\ nonneg r = true /\
  (forall m e k, 0 <= m < 2 ^ 53 -> -1074 <= e -> 0 <= ex + k -> 0 <= e + k ->
    (if ex <=? e then mx + inexact lx else mx) * 2 ^ (ex + k) <= m * 2 ^ (e + k) -> fz r <= m * 2 ^ (e + 1074)) /\
  (forall m e k, 0 <= m < 2 ^ 53 -> -1074 <= e -> 0 <= ex + k -> 0 <= e + k ->
    m * 2 ^ (e + 1074) <= top ->
    (ex <= e -> m * 2 ^ (e + k) <= mx * 2 ^ (ex + k)) -> m * 2 ^ (e + 1074) <= fz r).
Proof.
  unfold fits. intros [Hmx0 Hf]. set (r := binary_round_aux _ _ _ _ _ _). set (F := fexp 53 1024 (Zdigits2 mx + ex)) in *.
  pose proof (round_step (mx) ex lx F ltac:(lia) Hf) as Hs.
  assert (Er : r = binary_round_aux 53 1024 false (mx) ex lx) by done. clearbody r.
  unfold binary_round_aux, shr_fexp at 1 in Er. fold F in Er.
  destruct (shr _ _ _) as [mrs e1]. destruct Hs as (-> & Hb & Hup).
  set (q := round_nearest_even _ _) in *.
  destruct (Zdigits2_spec mx Hmx0) as (Hd1 & Hd2 & Hd0). set (d := Zdigits2 mx) in *.
  assert (HF : F = Z.max (d + ex - 53) (-1074)) by apply fexp_eq.
  pose proof (Z.pow_pos_nonneg 2 (F - ex) ltac:(lia) ltac:(lia)) as Hp.
  assert (Hq53 : q <= 2 ^ 53).
  { enough (mx / 2 ^ (F - ex) < 2 ^ 53) by lia. apply Z.div_lt_upper_bound; [lia|].
    rewrite <- Z.pow_add_r by lia. apply Z.lt_le_trans with (2 ^ d); [lia|].
    apply Z.pow_le_mono_r; lia. }
  assert (Hq0 : 0 <= mx / 2 ^ (F - ex)) by (apply Z.div_pos; lia).
  assert (Hn : F = -1074 \/ (2 ^ 52 <= q /\ F = d + ex - 53 /\ 2 ^ (d - 1) <= mx)).
  { destruct (Z.eq_dec F (-1074)); [by left|right].
    assert (0 < mx) by (destruct (Z.eq_dec mx 0) as [->|]; [cbn in d|]; lia).
    specialize (Hd2 ltac:(lia)). split; [|lia].
    enough (2 ^ 52 <= mx / 2 ^ (F - ex)) by lia. apply Z.div_le_lower_bound; [lia|].
    rewrite <- Z.pow_add_r by lia. apply Z.le_trans with (2 ^ (d - 1)); [|lia].
    apply Z.pow_le_mono_r; lia. }
  pose proof (renormalise q F ltac:(lia) ltac:(lia) ltac:(lia)) as Hr.
  destruct (shr_fexp 53 1024 q F loc_Exact) as [mrs2 e2]. cbn zeta in Hr. rewrite <- Er in Hr.
  destruct Hr as (Hv & Hnn & Hfz). split; [done|]. split; [done|].
  (* a bound finer than the target exponent lies below the exact value *)
  assert (Hfine : forall m e k, 0 <= m < 2 ^ 53 -> -1074 <= e -> 0 <= ex + k -> 0 <= e + k -> e < F ->
    m * 2 ^ (e + k) < mx * 2 ^ (ex + k) /\ m * 2 ^ (e + 1074) <= q * 2 ^ (F + 1074)).
  { intros m e k Hm He Hk1 Hk2 Hlt. destruct Hn as [Hn|(Hq & Hn & Hd)]; [lia|]. split.
    - apply Z.lt_le_trans with (2 ^ 53 * 2 ^ (e + k)); [apply Z.mul_lt_mono_pos_r; lia|].
      apply Z.le_trans with (2 ^ (d - 1) * 2 ^ (ex + k)); [|apply Z.mul_le_mono_nonneg_r; lia].
      rewrite <- !Z.pow_add_r by lia. apply Z.pow_le_mono_r; lia.
    - apply Z.le_trans with (2 ^ 53 * 2 ^ (e + 1074)); [apply Z.mul_le_mono_nonneg_r; lia|].
      apply Z.le_trans with (2 ^ 52 * 2 ^ (F + 1074)); [|apply Z.mul_le_mono_nonneg_r; lia].
      rewrite <- !Z.pow_add_r by lia. apply Z.pow_le_mono_r; lia. }
  split.
  - intros m e k Hm He Hk1 Hk2 Hle.
    enough (q * 2 ^ (F + 1074) <= m * 2 ^ (e + 1074)) by (destruct Hfz as [->|[-> ?]]; cbn [fz cond_Zopp]; lia).
    assert (0 <= inexact lx) by (destruct lx; cbn; lia).
    destruct (Z_lt_ge_dec e F) as [Hlt|Hge].
    + destruct (Hfine m e k) as [H1 _]; [lia..|].
      assert (0 < 2 ^ (ex + k)) by (apply Z.pow_pos_nonneg; lia). destruct (ex <=? e); nia.
    + replace (e + 1074) with (e - F + (F + 1074)) by lia.
      rewrite (Z.pow_add_r 2 (e - F)), Z.mul_assoc by lia. apply Z.mul_le_mono_nonneg_r; [lia|]. apply Hup.
      rewrite <- Z.mul_assoc, <- Z.pow_add_r by lia.
      rewrite (proj2 (Z.leb_le ex e)) in Hle by lia.
      apply Z.mul_le_mono_pos_r with (2 ^ (ex + k)); [lia|].
      rewrite <- (Z.mul_assoc m), <- Z.pow_add_r by lia.
      by replace (e - F + (F - ex) + (ex + k)) with (e + k) by lia.
  - intros m e k Hm He Hk1 Hk2 Hmax Hle.
    enough (m * 2 ^ (e + 1074) <= q * 2 ^ (F + 1074)) by (destruct Hfz as [->|[-> ?]]; cbn [fz cond_Zopp]; lia).
    destruct (Z_lt_ge_dec e F) as [Hlt|Hge]; [by apply (Hfine m e k)|]. specialize (Hle ltac:(lia)).
    replace (e + 1074) with (e - F + (F + 1074)) by lia.
    rewrite (Z.pow_add_r 2 (e - F)), Z.mul_assoc by lia. apply Z.mul_le_mono_nonneg_r; [lia|].
    apply Z.le_trans with (mx / 2 ^ (F - ex)); [|lia]. apply Z.div_le_lower_bound; [lia|].
    apply Z.mul_le_mono_pos_r with (2 ^ (ex + k)); [lia|].
    replace (2 ^ (F - ex) * (m * 2 ^ (e - F)) * 2 ^ (ex + k)) with (m * (2 ^ (e - F) * 2 ^ (F - ex) * 2 ^ (ex + k))) by ring.
    rewrite <- !Z.pow_add_r by lia. by replace (e - F + (F - ex) + (ex + k)) with (e + k) by lia.
Qed.

(** ** Comparison is comparison of values *)
Lemma valid_finite s m e :
  valid (S754_finite s m e) = true ->
  Zpos m < 2 ^ 53 /\ -1074 <= e <= 971 /\ (e = -1074 \/ 2 ^ 52 <= Zpos m) /\
  Z.max (Zpos (digits2_pos m) + e - 53) (-1074) = e.
Proof.
  unfold valid, valid_binary, bounded, canonical_mantissa. rewrite fexp_eq.
  intros [Hc%Z.eqb_eq Hb%Z.leb_le]%andb_true_iff.
  pose proof (digits2_spec m) as [Hl Hm].
  assert (2 ^ Z.pos (digits2_pos m) <= 2 ^ 53) by (apply Z.pow_le_mono_r; lia).
  split_and!; try lia. destruct (Z.eq_dec e (-1074)); [by left|right].
  assert (2 ^ 52 <= 2 ^ (Z.pos (digits2_pos m) - 1)) by (apply Z.pow_le_mono_r; lia). lia.
Qed.

Lemma compare_pos_finite s1 s2 m1 e1 m2 e2 :
  valid (S754_finite s1 m1 e1) = true -> valid (S754_finite s2 m2 e2) = true ->
  match e1 ?= e2 with Lt => Lt | Gt => Gt | Eq => Pos.compare_cont Eq m1 m2 end =
  (Zpos m1 * 2 ^ (e1 + 1074) ?= Zpos m2 * 2 ^ (e2 + 1074)).
Proof.
  intros (Hm1 & He1 & Hn1 & _)%valid_finite (Hm2 & He2 & Hn2 & _)%valid_finite.
  assert (Hlt : forall m e m' e', Zpos m < 2 ^ 53 -> -1074 <= e -> e < e' -> 2 ^ 52 <= Zpos m' ->
    Zpos m * 2 ^ (e + 1074) < Zpos m' * 2 ^ (e' + 1074)).
  { intros m e m' e' Hm He Hlt Hm'.
    apply Z.lt_le_trans with (2 ^ 53 * 2 ^ (e + 1074)); [apply Z.mul_lt_mono_pos_r; lia|].
    apply Z.le_trans with (2 ^ 52 * 2 ^ (e' + 1074)); [|apply Z.mul_le_mono_nonneg_r; lia].
    rewrite <- !Z.pow_add_r by lia. apply Z.pow_le_mono_r; lia. }
  symmetry. destruct (Z.compare_spec e1 e2) as [->|H|H].
  - rewrite <- Zmult_compare_compat_r by lia. reflexivity.
  - apply Z.compare_lt_iff, Hlt; lia.
  - apply Z.compare_gt_iff, Hlt; lia.
Qed.

Lemma fz_finite_lt s m e :
  valid (S754_finite s m e) = true -> 0 < Zpos m * 2 ^ (e + 1074) < top.
Proof.
  intros (Hm & He & _)%valid_finite.
  assert (0 < 2 ^ (e + 1074)) by (apply Z.pow_pos_nonneg; lia). split; [lia|].
  apply Z.lt_le_trans with (2 ^ 53 * 2 ^ (e + 1074)); [apply Z.mul_lt_mono_pos_r; lia|].
  rewrite <- Z.pow_add_r by lia. apply Z.pow_le_mono_r; lia.
Qed.

Lemma SFcompare_fz x y :
  valid x = true -> valid y = true -> is_nan x = false -> is_nan y = false ->
  SFcompare x y = Some (fz x ?= fz y).
Proof.
  intros Hx Hy Hnx Hny. symmetry.
  destruct x as [sx|sx| |sx mx ex]; try done; destruct y as [sy|sy| |sy my ey]; try done;
    cbn [SFcompare fz]; try (pose proof (fz_finite_lt _ _ _ Hx)); try (pose proof (fz_finite_lt _ _ _ Hy));
    f_equal; try (destruct sx; try destruct sy); try (destruct sy); cbn [cond_Zopp]; try reflexivity;
    try (apply Z.compare_lt_iff; lia); try (apply Z.compare_gt_iff; lia).
  - rewrite Z.compare_opp, <- (compare_pos_finite true true _ _ _ _ Hy Hx).
    rewrite (Z.compare_antisym ex ey). destruct (ex ?= ey); try done.
    apply (Pos.compare_antisym mx my).
  - rewrite <- (compare_pos_finite false false _ _ _ _ Hx Hy). done.
Qed.

Lemma f_ltb_fz x y :
  valid x = true -> valid y = true -> is_nan x = false -> is_nan y = false ->
  SFltb x y = (fz x <? fz y).
Proof. intros. unfold SFltb, Z.ltb. rewrite SFcompare_fz by done. by destruct (_ ?= _). Qed.

Lemma f_leb_fz x y :
  valid x = true -> valid y = true -> is_nan x = false -> is_nan y = false ->
  SFleb x y = (fz x <=? fz y).
Proof. intros. unfold SFleb, Z.leb. rewrite SFcompare_fz by done. by destruct (_ ?= _). Qed.

Lemma nonneg_not_nan x : nonneg x = true -> is_nan x = false.
Proof. by destruct x. Qed.

Lemma nonneg_fz x : valid x = true -> nonneg x = true -> 0 <= fz x.
Proof. intros Hv Hn. destruct (nonneg_rep x Hv Hn) as (m & e & ? & ? & -> & _). lia. Qed.

(** [good x]: a valid float that is not negative (and so not NaN). *)
Definition good (x : f64) : Prop := valid x = true /\ nonneg x = true.

(** ** Bounds of the operations on non-negative floats *)
Section bounds.
Implicit Types x y z : f64.

(** [r] rounds the exact value [n / s]: every float above it is above [r], every
    float below it below [r]. *)
Definition rounds (r : f64) (n s : Z) : Prop :=
  good r /\
  (forall z, good z -> n <= fz z * s -> fz r <= fz z) /\
  (forall z, good z -> fz z * s <= n -> fz z <= fz r).

Lemma round_rounds p e k :
  fits p e -> 0 <= k -> 0 <= e + 1074 + k ->
  rounds (binary_round_aux 53 1024 false p e loc_Exact) (p * 2 ^ (e + 1074 + k)) (2 ^ k).
Proof.
  intros Hf Hk1 Hk2. destruct (round_pos p e loc_Exact Hf) as (Hv & Hn & Hup & Hdn).
  split; [by split|]. split; intros z [Hvz Hnz] Hz;
    destruct (nonneg_rep z Hvz Hnz) as (m & ez & Hm & He & Hfz & Hmax);
    rewrite Hfz in Hz, Hmax |- *; rewrite <- Z.mul_assoc, <- Z.pow_add_r in Hz by lia.
  - apply Hup with (1074 + k); [done|done|lia|lia|]. cbn [inexact].
    rewrite Z.add_0_r, !Z.add_assoc. by destruct (e <=? ez).
  - apply Hdn with (1074 + k); [done|done|lia|lia|done|]. intros _. by rewrite !Z.add_assoc.
Qed.

Lemma rounds_eq r n s z :
  rounds r n s -> good z -> n = fz z * s -> fz r = fz z.
Proof.
  intros (_ & Hup & Hdn) Hz ->. apply Z.le_antisymm; [apply Hup|apply Hdn]; done || lia.
Qed.

Lemma shl_align_spec p e e' :
  let '(m, e1) := shl_align p e e' in
  e1 = Z.min e e' /\ Zpos m = Zpos p * 2 ^ (e - e1) /\
  Zpos (digits2_pos m) + e1 = Zpos (digits2_pos p) + e.
Proof.
  unfold shl_align. destruct (e' - e) as [|d|d] eqn:E.
  - split_and!; [lia| |lia]. rewrite Z.sub_diag, Z.pow_0_r. lia.
  - split_and!; [lia| |lia]. rewrite Z.sub_diag, Z.pow_0_r. lia.
  - assert (Hi : Zpos (Pos.iter xO p d) = Zpos p * 2 ^ Zpos d /\
      Zpos (digits2_pos (Pos.iter xO p d)) = Zpos (digits2_pos p) + Zpos d).
    { clear E. induction d as [|d IH] using Pos.peano_ind; [cbn; lia|].
      rewrite Pos.iter_succ, Pos2Z.inj_succ, Z.pow_succ_r by lia.
      cbn [digits2_pos]. rewrite Pos2Z.inj_succ, (Pos2Z.inj_xO (Pos.iter _ _ _)). lia. }
    destruct Hi as [Hi1 Hi2]. split_and!; [lia| |lia].
    replace (e - e') with (Zpos d) by lia. done.
Qed.

Lemma binary_round_rounds p e :
  -1074 <= e -> rounds (binary_round 53 1024 false p e) (Zpos p * 2 ^ (e + 1074)) 1.
Proof.
  intros He. unfold binary_round.
  pose proof (shl_align_spec p e (fexp 53 1024 (Zpos (digits2_pos p) + e))) as Hs.
  destruct (shl_align _ _ _) as [m e1]. destruct Hs as (He1 & Hm & Hd).
  rewrite fexp_eq in He1.
  replace (Zpos p * 2 ^ (e + 1074)) with (Zpos m * 2 ^ (e1 + 1074 + 0)).
  - apply round_rounds; [|lia|lia]. unfold fits. rewrite fexp_eq, Zdigits2_pos. lia.
  - rewrite Hm, <- Z.mul_assoc, <- Z.pow_add_r by lia. do 2 f_equal. lia.
Qed.

Lemma binary_normalize_rounds n e :
  0 <= n -> -1074 <= e -> rounds (binary_normalize 53 1024 n e false) (n * 2 ^ (e + 1074)) 1.
Proof.
  intros Hn He. destruct n as [|p|p]; [|by apply binary_round_rounds|lia].
  cbn [binary_normalize]. split; [done|]. split; intros z [Hv Hnn] Hz; cbn [fz];
    pose proof (nonneg_fz z Hv Hnn); lia.
Qed.

Lemma good_finite_fz s m e :
  good (S754_finite s m e) -> s = false /\ -1074 <= e /\ valid (S754_finite s m e) = true.
Proof.
  intros [Hv Hn]. destruct s; [done|]. pose proof (valid_finite _ _ _ Hv). split_and!; [done|lia|done].
Qed.

Lemma align_fz m e e' :
  -1074 <= e' <= e ->
  Zpos (fst (shl_align m e e')) * 2 ^ (e' + 1074) = Zpos m * 2 ^ (e + 1074).
Proof.
  intros He. pose proof (shl_align_spec m e e') as Hs. destruct (shl_align m e e') as [p e1].
  destruct Hs as (-> & Hp & _). cbn [fst]. rewrite Hp, Z.min_r by lia.
  rewrite <- Z.mul_assoc, <- Z.pow_add_r by lia. do 2 f_equal. lia.
Qed.

Lemma rounds_self x : good x -> rounds x (fz x) 1.
Proof. intros Hx. split; [done|]. split; intros; lia. Qed.

(** Subtraction of floats in order. *)
Lemma f_sub_rounds x y :
  good x -> good y -> is_finite y = true -> fz y <= fz x ->
  rounds (f_sub x y) (if is_finite x then fz x - fz y else fz x) 1.
Proof.
  intros Hx Hy Hfy Hle.
  destruct x as [sx|[]| |sx mx ex]; try (by destruct Hx); destruct y as [sy|sy| |sy my ey]; try done;
    try (apply good_finite_fz in Hx as (-> & Hex & Hvx));
    try (apply good_finite_fz in Hy as (-> & Hey & Hvy));
    cbn [f_sub SFsub is_finite fz cond_Zopp] in *.
  - destruct sx, sy; apply (rounds_self (S754_zero _)); done.
  - pose proof (fz_finite_lt _ _ _ Hvy). lia.
  - apply (rounds_self (S754_infinity false)). done.
  - apply (rounds_self (S754_infinity false)). done.
  - rewrite Z.sub_0_r. apply (rounds_self (S754_finite false mx ex)). by split.
  - rewrite <- (align_fz mx ex (Z.min ex ey)), <- (align_fz my ey (Z.min ex ey)) in * by lia.
    rewrite <- Z.mul_sub_distr_r in *. apply binary_normalize_rounds; [|lia].
    assert (0 < 2 ^ (Z.min ex ey + 1074)) by (apply Z.pow_pos_nonneg; lia). nia.
Qed.

Lemma f_add_rounds x y :
  good x -> good y -> is_finite x = true -> is_finite y = true ->
  rounds (f_add x y) (fz x + fz y) 1.
Proof.
  intros Hx Hy Hfx Hfy.
  destruct x as [sx|[]| |sx mx ex]; try done; destruct y as [sy|sy| |sy my ey]; try done;
    try (apply good_finite_fz in Hx as (-> & Hex & Hvx));
    try (apply good_finite_fz in Hy as (-> & Hey & Hvy));
    cbn [f_add SFadd is_finite fz cond_Zopp] in *.
  - destruct sx, sy; apply (rounds_self (S754_zero _)); done.
  - apply (rounds_self (S754_finite false my ey)). by split.
  - rewrite Z.add_0_r. apply (rounds_self (S754_finite false mx ex)). by split.
  - rewrite <- (align_fz mx ex (Z.min ex ey)), <- (align_fz my ey (Z.min ex ey)) by lia.
    rewrite <- Z.mul_add_distr_r. apply binary_normalize_rounds; lia.
Qed.

Lemma fits_mul mx ex my ey :
  valid (S754_finite false mx ex) = true -> valid (S754_finite false my ey) = true ->
  fits (Zpos (mx * my)) (ex + ey).
Proof.
  intros (Hmx & Hex & Hnx & _)%valid_finite (Hmy & Hey & Hny & _)%valid_finite.
  unfold fits. rewrite fexp_eq, Zdigits2_pos. split; [lia|].
  assert (Hd : 2 ^ 52 <= Zpos (mx * my) -> 53 <= Zpos (digits2_pos (mx * my))).
  { intros Hp. pose proof (digits2_spec (mx * my)) as [_ Hlt].
    destruct (Z_lt_ge_dec (Zpos (digits2_pos (mx * my))) 53); [|lia].
    assert (2 ^ Zpos (digits2_pos (mx * my)) <= 2 ^ 52) by (apply Z.pow_le_mono_r; lia). lia. }
  rewrite Pos2Z.inj_mul in *. destruct Hnx, Hny; try lia; enough (53 <= Zpos (digits2_pos (mx * my))) by lia;
    apply Hd; nia.
Qed.

Lemma f_mul_rounds x y :
  good x -> good y -> is_finite x = true -> is_finite y = true ->
  rounds (f_mul x y) (fz x * fz y) scale.
Proof.
  intros Hx Hy Hfx Hfy.
  assert (Hz : forall s, good (S754_zero s)) by done.
  assert (Hzr : forall s, rounds (S754_zero s) 0 scale).
  { intros s. split; [done|]. split; intros z [Hv Hn] Hz'; cbn [fz]; pose proof (nonneg_fz z Hv Hn); pose proof scale_pos; nia. }
  destruct x as [sx|[]| |sx mx ex]; try done; destruct y as [sy|sy| |sy my ey]; try done;
    cbn [f_mul SFmul fz]; rewrite ?Z.mul_0_r, ?Z.mul_0_l; try apply Hzr.
  apply good_finite_fz in Hx as (-> & Hex & Hvx). apply good_finite_fz in Hy as (-> & Hey & Hvy).
  cbn [cond_Zopp xorb]. replace (Zpos mx * 2 ^ (ex + 1074) * (Zpos my * 2 ^ (ey + 1074))) with
    (Zpos (mx * my) * 2 ^ (ex + ey + 1074 + 1074)).
  - apply round_rounds; [by apply fits_mul|lia|lia].
  - replace (ex + ey + 1074 + 1074) with (ex + 1074 + (ey + 1074)) by lia.
    rewrite Z.pow_add_r, Pos2Z.inj_mul by lia. ring.
Qed.

Lemma new_location_exact n k :
  inexact (new_location n k) = if k =? 0 then 0 else 1.
Proof.
  unfold new_location, new_location_even, new_location_odd.
  by destruct (Z.even n), (k =? 0).
Qed.

(** The integer quotient of a division, at its exponent. *)
Lemma div_core_spec mx ex my ey :
  valid (S754_finite false mx ex) = true -> valid (S754_finite false my ey) = true ->
  let '(q, e1, l) := SFdiv_core_binary 53 1024 (Zpos mx) ex (Zpos my) ey in
  fits q e1 /\ 0 <= e1 + ey + 2148 /\ e1 <= ex - ey /\
  q = Zpos mx * 2 ^ (ex - ey - e1) / Zpos my /\
  inexact l = (if Zpos mx * 2 ^ (ex - ey - e1) mod Zpos my =? 0 then 0 else 1).
Proof.
  intros (Hmx & Hex & Hnx & _)%valid_finite (Hmy & Hey & Hny & _)%valid_finite.
  unfold SFdiv_core_binary. rewrite fexp_eq, !Zdigits2_pos.
  set (d1 := Zpos (digits2_pos mx)). set (d2 := Zpos (digits2_pos my)).
  set (e1 := Z.min _ _). set (s := ex - ey - e1).
  assert (Hs : 0 <= s) by lia.
  replace (match s with Z0 => _ | Zpos p => _ | Zneg _ => _ end) with (Zpos mx * 2 ^ s)
    by (destruct s; [lia|by rewrite Z.shiftl_mul_pow2|lia]).
  set (m' := Zpos mx * 2 ^ s). destruct (Z.div_eucl m' (Zpos my)) as [q r] eqn:E.
  assert (Hq : q = m' / Zpos my) by (unfold Z.div; by rewrite E).
  assert (Hr : r = m' mod Zpos my) by (unfold Z.modulo; by rewrite E).
  fold s m'. rewrite <- Hr.
  assert (Hq0 : 0 <= q) by (rewrite Hq; apply Z.div_pos; lia).
  rewrite new_location_exact. split_and!; [|lia|lia|done|done].
  split; [done|]. rewrite fexp_eq.
  enough (d1 + s - d2 <= Zdigits2 q) by lia.
  destruct (Zdigits2_spec q Hq0) as (Hlt & _ & H0).
  destruct (Z_le_gt_dec (d1 + s - d2) 0); [lia|].
  pose proof (digits2_spec mx) as [Hx _]. pose proof (digits2_spec my) as [_ Hy].
  fold d1 in Hx. fold d2 in Hy.
  assert (2 ^ (d1 + s - d2 - 1) <= q).
  { rewrite Hq. apply Z.div_le_lower_bound; [lia|].
    apply Z.le_trans with (2 ^ d2 * 2 ^ (d1 + s - d2 - 1)); [apply Z.mul_le_mono_nonneg_r; lia|].
    rewrite <- Z.pow_add_r by lia. unfold m'.
    apply Z.le_trans with (2 ^ (d1 - 1) * 2 ^ s); [|apply Z.mul_le_mono_nonneg_r; lia].
    rewrite <- Z.pow_add_r by lia. apply Z.pow_le_mono_r; lia. }
  destruct (Z_lt_ge_dec (Zdigits2 q) (d1 + s - d2)); [|lia].
  assert (2 ^ Zdigits2 q <= 2 ^ (d1 + s - d2 - 1)) by (apply Z.pow_le_mono_r; lia). lia.
Qed.

(** Division by a positive float: bounds by cross multiplication. *)
Lemma f_div_rounds x y :
  good x -> good y -> is_finite x = true -> is_finite y = true -> 0 < fz y ->
  good (f_div x y) /\
  (forall z, good z -> fz x * scale <= fz z * fz y -> fz (f_div x y) <= fz z) /\
  (forall z, good z -> fz z * fz y <= fz x * scale -> fz z <= fz (f_div x y)).
Proof.
  intros Hx Hy Hfx Hfy Hpos.
  destruct y as [sy|sy| |sy my ey]; try done.
  apply good_finite_fz in Hy as (-> & Hey & Hvy).
  destruct x as [sx|[]| |sx mx ex]; try done; cbn [f_div SFdiv].
  { split; [done|]. cbn [fz cond_Zopp] in *. split; intros z [Hv Hn] Hz; pose proof (nonneg_fz z Hv Hn); nia. }
  apply good_finite_fz in Hx as (-> & Hex & Hvx).
  pose proof (div_core_spec mx ex my ey Hvx Hvy) as Hc.
  destruct (SFdiv_core_binary _ _ _ _ _ _) as [[q e1] l]. destruct Hc as (Hf & HC & Hle & Hq & Hl).
  cbn [xorb]. destruct (round_pos q e1 l Hf) as (Hv & Hn & Hup & Hdn).
  set (r := binary_round_aux _ _ _ _ _ _) in *. split; [by split|].
  set (m' := Zpos mx * 2 ^ (ex - ey - e1)) in *.
  pose proof (Z.div_mod m' (Zpos my) ltac:(lia)) as Hdm. rewrite <- Hq in Hdm.
  pose proof (Z.mod_pos_bound m' (Zpos my) ltac:(lia)) as Hrb.
  assert (HxC : fz (S754_finite false mx ex) * scale = m' * 2 ^ (e1 + ey + 2148)).
  { cbn [fz cond_Zopp]. unfold m', scale. rewrite <- !Z.mul_assoc, <- !Z.pow_add_r by lia.
    do 2 f_equal. lia. }
  assert (HzC : forall m e, -1074 <= e ->
    m * 2 ^ (e + 1074) * fz (S754_finite false my ey) = m * Zpos my * 2 ^ (e + (ey + 2148))).
  { intros m e He. cbn [fz cond_Zopp]. replace (e + (ey + 2148)) with (e + 1074 + (ey + 1074)) by lia.
    rewrite (Z.pow_add_r 2 (e + 1074)) by lia. ring. }
  assert (Hp : 0 < 2 ^ (e1 + ey + 2148)) by (apply Z.pow_pos_nonneg; lia).
  assert (Hsplit : forall e, e1 <= e -> 2 ^ (e + (ey + 2148)) = 2 ^ (e - e1) * 2 ^ (e1 + ey + 2148)).
  { intros e He. rewrite <- Z.pow_add_r by lia. f_equal. lia. }
  split; intros z [Hvz Hnz] Hz;
    destruct (nonneg_rep z Hvz Hnz) as (m & e & Hm & He & Hfz & Hmax);
    rewrite Hfz, HxC, HzC in Hz by lia; rewrite Hfz in Hmax |- *.
  - apply Hup with (ey + 2148); [lia..|]. rewrite (Z.add_assoc e1).
    destruct (Z.leb_spec e1 e) as [Hge|Hlt].
    + rewrite (Hsplit e Hge), Z.mul_assoc in Hz |- *. apply Z.mul_le_mono_nonneg_r; [lia|].
      apply Z.mul_le_mono_pos_r in Hz; [|lia]. rewrite Hl.
      destruct (Z.eqb_spec (m' mod Zpos my) 0); nia.
    + apply Z.mul_le_mono_pos_r with (Zpos my); [lia|].
      apply Z.le_trans with (m' * 2 ^ (e1 + ey + 2148)); [|lia].
      replace (q * 2 ^ (e1 + ey + 2148) * Zpos my) with (Zpos my * q * 2 ^ (e1 + ey + 2148)) by ring.
      apply Z.mul_le_mono_nonneg_r; lia.
  - apply Hdn with (ey + 2148); [lia|lia|lia|lia|done|]. intros Hge. rewrite (Z.add_assoc e1).
    rewrite (Hsplit e Hge), Z.mul_assoc in Hz |- *. apply Z.mul_le_mono_nonneg_r; [lia|].
    apply Z.mul_le_mono_pos_r in Hz; [|lia]. rewrite Hq. apply Z.div_le_lower_bound; lia.
Qed.

Lemma good_finite x : good x -> is_finite x = (fz x <? top).
Proof.
  intros [Hv Hn]. destruct x as [s|[]| |[] m e]; try done.
  symmetry. apply Z.ltb_lt. pose proof (fz_finite_lt _ _ _ Hv). cbn [fz cond_Zopp]. lia.
Qed.

(** A value with a 53-bit significand is represented exactly. *)
Lemma normalize_exact n e :
  0 <= n < 2 ^ 53 -> -1074 <= e <= 971 ->
  let r := binary_normalize 53 1024 n e false in
  good r /\ fz r = n * 2 ^ (e + 1074) /\ is_finite r = true.
Proof.
  intros Hn He. destruct n as [|p|p]; [done| |lia]. cbn [binary_normalize].
  unfold binary_round.
  pose proof (shl_align_spec p e (fexp 53 1024 (Zpos (digits2_pos p) + e))) as Hs.
  destruct (shl_align _ _ _) as [m e1]. destruct Hs as (He1 & Hm & Hd). rewrite fexp_eq in He1.
  assert (Hf : fits (Zpos m) e1) by (unfold fits; rewrite fexp_eq, Zdigits2_pos; lia).
  destruct (round_pos (Zpos m) e1 loc_Exact Hf) as (Hv & Hnn & Hup & Hdn).
  set (r := binary_round_aux _ _ _ _ _ _) in *. cbn zeta.
  assert (Hval : Zpos m * 2 ^ (e1 + 1074) = Zpos p * 2 ^ (e + 1074)).
  { rewrite Hm, <- Z.mul_assoc, <- Z.pow_add_r by lia. do 2 f_equal. lia. }
  assert (Hmax : Zpos p * 2 ^ (e + 1074) < top).
  { apply Z.lt_le_trans with (2 ^ 53 * 2 ^ (e + 1074)); [apply Z.mul_lt_mono_pos_r; lia|].
    rewrite <- Z.pow_add_r by lia. apply Z.pow_le_mono_r; lia. }
  assert (Hr : fz r = Zpos p * 2 ^ (e + 1074)).
  { apply Z.le_antisymm.
    - apply Hup with 1074; try lia. cbn [inexact]. rewrite Z.add_0_r. destruct (e1 <=? e); lia.
    - apply Hdn with 1074; lia. }
  split; [by split|]. split; [exact Hr|]. rewrite good_finite by (by split).
  apply Z.ltb_lt. lia.
Qed.

(** Integers below [2^53] are exact. *)
Lemma f_of_Z_spec n :
  0 <= n < 2 ^ 53 -> good (f_of_Z n) /\ fz (f_of_Z n) = n * scale /\ is_finite (f_of_Z n) = true.
Proof. intros Hn. exact (normalize_exact n 0 Hn ltac:(lia)). Qed.

Lemma f_of_N_spec n :
  (n < 2 ^ 53)%N ->
  good (f_of_N n) /\ fz (f_of_N n) = Z.of_N n * scale /\ is_finite (f_of_N n) = true.
Proof. intros. apply f_of_Z_spec. lia. Qed.

(** What a rounded result inherits from a float bound. *)
Lemma rounds_le r n s z : rounds r n s -> good z -> n <= fz z * s -> fz r <= fz z.
Proof. intros (_ & H & _). auto. Qed.
Lemma rounds_ge r n s z : rounds r n s -> good z -> fz z * s <= n -> fz z <= fz r.
Proof. intros (_ & _ & H). auto. Qed.

(** Order of the operations. *)
Lemma f_sub_le x y :
  good x -> good y -> is_finite y = true -> fz y <= fz x ->
  good (f_sub x y) /\ fz (f_sub x y) <= fz x.
Proof.
  intros Hx Hy Hf Hle. pose proof (f_sub_rounds x y Hx Hy Hf Hle) as Hr.
  split; [apply Hr|]. eapply rounds_le; [exact Hr|done|].
  destruct Hy as [Hvy Hny]. pose proof (nonneg_fz y Hvy Hny). destruct (is_finite x); lia.
Qed.

(** Taking an integer off a float below [2^53] loses nothing. *)
Lemma f_sub_exact x n :
  good x -> fz x < 2 ^ 53 * scale -> Z.of_N n * scale <= fz x ->
  good (f_sub x (f_of_N n)) /\ fz (f_sub x (f_of_N n)) = fz x - Z.of_N n * scale.
Proof.
  intros Hx Hlt Hle.
  assert (Hn : (n < 2 ^ 53)%N).
  { enough (Z.of_N n < 2 ^ 53) by lia. apply Z.mul_lt_mono_pos_r with scale; scale_lia. }
  destruct (f_of_N_spec n Hn) as (Hgn & Hfn & Hin).
  pose proof (f_sub_rounds x (f_of_N n) Hx Hgn Hin ltac:(lia)) as Hr. rewrite Hfn in Hr.
  assert (Hfx : is_finite x = true) by (rewrite good_finite by done; apply Z.ltb_lt; scale_lia).
  rewrite Hfx in Hr.
  split; [apply Hr|].
  assert (Hz : exists z, good z /\ fz z = fz x - Z.of_N n * scale).
  { destruct x as [s|s| |s m e].
    - exists f_zero. split; [done|]. cbn [fz] in *. change (fz f_zero) with 0. lia.
    - exfalso. destruct s; [by destruct Hx|]. cbn [fz cond_Zopp] in Hlt. scale_lia.
    - by destruct Hx.
    - apply good_finite_fz in Hx as (-> & He & Hv). apply valid_finite in Hv as (Hm & He' & Hne & _).
      cbn [fz cond_Zopp] in *. destruct (Z_lt_ge_dec 0 e) as [Hpos|Hneg].
      + exfalso. assert (Hbig : 2 ^ 52 * 2 ^ (1 + 1074) <= Zpos m * 2 ^ (e + 1074)).
        { apply Z.mul_le_mono_nonneg; try lia. apply Z.pow_le_mono_r; lia. }
        rewrite pow_scale in Hbig by lia. lia.
      + assert (Hsp : scale = 2 ^ (- e) * 2 ^ (e + 1074)) by (apply scale_split; lia).
        assert (Hp : 0 < 2 ^ (e + 1074)) by (apply Z.pow_pos_nonneg; lia).
        exists (binary_normalize 53 1024 (Zpos m - Z.of_N n * 2 ^ (- e)) e false).
        rewrite Hsp, Z.mul_assoc in Hle |- *. rewrite <- Z.mul_sub_distr_r.
        apply Z.mul_le_mono_pos_r in Hle; [|done].
        assert (0 <= Z.of_N n * 2 ^ (- e)) by lia.
        destruct (normalize_exact (Zpos m - Z.of_N n * 2 ^ (- e)) e) as (Hg & Hf & _); [lia..|].
        by split. }
  destruct Hz as (z & Hgz & Hz). rewrite <- Hz.
  apply (rounds_eq _ _ 1 z Hr Hgz). lia.
Qed.

Lemma f_mul_le_l x c :
  good x -> good c -> is_finite x = true -> fz c <= scale ->
  good (f_mul x c) /\ fz (f_mul x c) <= fz x.
Proof.
  intros Hx Hc Hf Hle.
  assert (Hfc : is_finite c = true).
  { rewrite good_finite by done. apply Z.ltb_lt.
    scale_lia. }
  pose proof (f_mul_rounds x c Hx Hc Hf Hfc) as Hr. split; [apply Hr|].
  eapply rounds_le; [exact Hr|done|]. destruct Hx as [Hvx Hnx]. pose proof (nonneg_fz x Hvx Hnx). nia.
Qed.

Lemma f_add_ge x y :
  good x -> good y -> is_finite x = true -> is_finite y = true ->
  good (f_add x y) /\ fz x <= fz (f_add x y) /\ fz y <= fz (f_add x y).
Proof.
  intros Hx Hy Hfx Hfy. pose proof (f_add_rounds x y Hx Hy Hfx Hfy) as Hr.
  destruct (Hx) as [Hvx Hnx]. destruct (Hy) as [Hvy Hny].
  pose proof (nonneg_fz x Hvx Hnx). pose proof (nonneg_fz y Hvy Hny).
  split; [apply Hr|]. split; (eapply rounds_ge; [exact Hr|done|lia]).
Qed.

Lemma f_min_spec x y :
  good x -> good y ->
  good (f_min x y) /\ fz (f_min x y) = Z.min (fz x) (fz y).
Proof.
  intros [Hvx Hnx] [Hvy Hny]. unfold f_min. rewrite !nonneg_not_nan by done.
  rewrite f_ltb_fz by auto using nonneg_not_nan.
  destruct (Z.ltb_spec (fz y) (fz x)); split; try (by split); lia.
Qed.

Lemma f_max_spec x y :
  good x -> good y ->
  good (f_max x y) /\ fz (f_max x y) = Z.max (fz x) (fz y).
Proof.
  intros [Hvx Hnx] [Hvy Hny]. unfold f_max. rewrite !nonneg_not_nan by done.
  rewrite f_ltb_fz by auto using nonneg_not_nan.
  destruct (Z.ltb_spec (fz x) (fz y)); split; try (by split); lia.
Qed.

Lemma f_clamp_spec x lo hi :
  good x -> good lo -> good hi -> fz lo <= fz hi ->
  good (f_clamp x lo hi) /\ fz (f_clamp x lo hi) = Z.max (fz lo) (Z.min (fz x) (fz hi)).
Proof.
  intros [Hvx Hnx] [Hvl Hnl] [Hvh Hnh] Hle. unfold f_clamp.
  rewrite !f_ltb_fz by auto using nonneg_not_nan.
  destruct (Z.ltb_spec (fz x) (fz lo)); [split; [by split|lia]|].
  destruct (Z.ltb_spec (fz hi) (fz x)); split; try (by split); lia.
Qed.

Lemma f_leb_good x y : good x -> good y -> SFleb x y = (fz x <=? fz y).
Proof. intros [] []. apply f_leb_fz; auto using nonneg_not_nan. Qed.

Lemma f_ltb_good x y : good x -> good y -> SFltb x y = (fz x <? fz y).
Proof. intros [] []. apply f_ltb_fz; auto using nonneg_not_nan. Qed.
End bounds.

(** ** [f32]: binary32, the same way *)

Definition f32 : Type := spec_float.

Declare Scope f32_scope.
Delimit Scope f32_scope with f32.

Definition s_add : f32 -> f32 -> f32 := SFadd 24 128.
Definition s_sub : f32 -> f32 -> f32 := SFsub 24 128.
Definition s_mul : f32 -> f32 -> f32 := SFmul 24 128.
Definition s_div : f32 -> f32 -> f32 := SFdiv 24 128.

Notation "x + y" := (s_add x y) : f32_scope.
Notation "x - y" := (s_sub x y) : f32_scope.
Notation "x * y" := (s_mul x y) : f32_scope.
Notation "x / y" := (s_div x y) : f32_scope.
Notation "x <? y" := (SFltb x y) : f32_scope.
Notation "x <=? y" := (SFleb x y) : f32_scope.
Notation "x >? y" := (SFltb y x) (only parsing) : f32_scope.

(** [as f32] of an integer, and a decimal literal [num / den]. *)
Definition s_of_Z (z : Z) : f32 := binary_normalize 24 128 z 0 false.
Definition s_lit (num den : Z) : f32 := s_div (s_of_Z num) (s_of_Z den).
Definition s_zero : f32 := S754_zero false.

(** [iter().sum::<f32>()]: additions from the left. *)
Definition s_sum (l : list f32) : f32 := fold_left s_add l s_zero.

(** [f32::min]: a NaN operand is ignored. *)
Definition s_is_nan (x : f32) : bool := match x with S754_nan => true | _ => false end.
Definition s_min (x y : f32) : f32 :=
  if s_is_nan x then y else if s_is_nan y then x else if SFltb y x then y else x.

(** [f32::max], [f32::clamp] with a number for bounds, [f32::sqrt], and the cast
    of an [f64], which rounds. *)
Definition s_max (x y : f32) : f32 :=
  if s_is_nan x then y else if s_is_nan y then x else if SFltb x y then y else x.
Definition s_clamp (x lo hi : f32) : f32 :=
  if SFltb x lo then lo else if SFltb hi x then hi else x.
Definition s_sqrt : f32 -> f32 := SFsqrt 24 128.
Definition s_of_f64 (x : spec_float) : f32 :=
  match x with S754_finite s m e => binary_round 24 128 s m e | _ => x end.

(** [f32::floor] and [f32::round]. *)
Definition s_floor (x : f32) : f32 :=
  match x with S754_finite _ _ _ => s_of_Z (f_floor_Z x) | _ => x end.
Definition s_round (x : f32) : f32 :=
  match x with S754_finite _ _ _ => s_of_Z (f_round_Z x) | _ => x end.

(** [as i16]: truncates, saturates, and a NaN gives 0. *)
Definition s_to_i16 (x : f32) : Z :=
  match x with
  | S754_nan | S754_zero _ => 0
  | S754_infinity s => if s then - 2 ^ 15 else 2 ^ 15 - 1
  | S754_finite s m e =>
      let a := if 0 <=? e then Zpos m * 2 ^ e else Zpos m / 2 ^ (- e) in
      clampZ (if s then - a else a) (- 2 ^ 15) (2 ^ 15 - 1)
  end.

Lemma s_to_i16_range x : i16_ok (s_to_i16 x).
Proof.
  assert (Hc : forall z, i16_ok (clampZ z (- 2 ^ 15) (2 ^ 15 - 1))).
  { intros z. unfold i16_ok, clampZ. destruct (Z.ltb_spec z (- 2 ^ 15)); [lia|].
    destruct (Z.ltb_spec (2 ^ 15 - 1) z); lia. }
  unfold i16_ok, s_to_i16. destruct x as [|[]| |s m e]; try lia. apply Hc.
Qed.

(** The maximum with a number is one of the two, and a number. *)
Lemma s_max_number x y : s_is_nan y = false ->
  s_is_nan (s_max x y) = false /\ (s_max x y = y \/ s_max x y = x /\ SFltb x y = false).
Proof.
  intros Hy. unfold s_max. destruct (s_is_nan x) eqn:Hx; [by split; [|left]|]. rewrite Hy.
  destruct (SFltb x y) eqn:Hl; [by split; [|left]|]. split; [done|by right].
Qed.

(** A NaN stays one through a sum. *)
Lemma s_add_nan x : s_add S754_nan x = S754_nan.
Proof. by destruct x. Qed.

Lemma s_add_nan_r x : s_add x S754_nan = S754_nan.
Proof. by destruct x. Qed.

Lemma s_sum_nan l : S754_nan ∈ l -> s_sum l = S754_nan.
Proof.
  assert (Hstay : forall l, fold_left s_add l S754_nan = S754_nan).
  { induction l0 as [|x l0 IH]; [done|]. cbn [fold_left]. by rewrite s_add_nan. }
  unfold s_sum. generalize s_zero. induction l as [|x l IH]; intros a Hin; [by apply not_elem_of_nil in Hin|].
  cbn [fold_left]. apply elem_of_cons in Hin as [<-|Hin]; [by rewrite s_add_nan_r, Hstay|by apply IH].
Qed.
