(* ===== verification/F64Bounds.v ===== *)
(** Bounds of composed [f64] expressions: products, quotients and weighted sums
    of non-negative floats stay within the floats that bound them exactly; and the
    relative error of a rounded operation. *)
From S2P Require Import Prelude F64.
#[local] Open Scope N_scope.

(** Facts about constants are computed. *)
Ltac f_const := first [reflexivity | split; vm_compute; reflexivity |
  apply Z.leb_le; vm_compute; reflexivity | apply Z.ltb_lt; vm_compute; reflexivity |
  vm_compute; reflexivity].

Section bounds.
Implicit Types x y z c d : f64.

Lemma good_nonneg x : good x -> (0 <= fz x)%Z.
Proof. intros [Hv Hn]. by apply nonneg_fz. Qed.

Lemma finite_le x z : good x -> good z -> is_finite z = true -> (fz x <= fz z)%Z -> is_finite x = true.
Proof. intros Hx Hz Hf Hle. rewrite good_finite in * by done. lia. Qed.

(** Multiplying or dividing by a positive constant stays within a float
    bound. *)
Lemma mul_bound x c b :
  good x -> (fz x <= fz b)%Z -> good b -> is_finite b = true -> good c -> is_finite c = true ->
  forall z, good z -> is_finite z = true -> (fz b * fz c <= fz z * scale)%Z ->
  good (x * c)%f64 /\ (fz (x * c)%f64 <= fz z)%Z /\ is_finite (x * c)%f64 = true.
Proof.
  intros Hx Hxb Hb Hfb Hc Hfc z Hz Hfz Hbz.
  assert (Hfx : is_finite x = true).
  { rewrite good_finite in * by done. lia. }
  pose proof (f_mul_rounds x c Hx Hc Hfx Hfc) as Hr.
  destruct Hc as [Hvc Hnc]. pose proof (nonneg_fz c Hvc Hnc).
  assert (Hle : (fz (x * c)%f64 <= fz z)%Z) by (eapply rounds_le; [exact Hr|done|nia]).
  split; [apply Hr|]. split; [done|]. rewrite good_finite in * by (done || apply Hr). lia.
Qed.

Lemma div_bound x c z :
  good x -> is_finite x = true -> good c -> is_finite c = true -> (scale <= fz c)%Z ->
  good z -> is_finite z = true -> (fz x <= fz z)%Z ->
  good (x / c)%f64 /\ (fz (x / c)%f64 <= fz z)%Z /\ is_finite (x / c)%f64 = true.
Proof.
  intros Hx Hfx Hc Hfc Hc1 Hz Hfz Hle.
  destruct (f_div_rounds x c Hx Hc Hfx Hfc ltac:(scale_lia)) as (Hg & Hup & _).
  assert (Hd : (fz (x / c)%f64 <= fz z)%Z).
  { apply Hup; [done|]. pose proof scale_pos. pose proof (good_nonneg x ltac:(done)).
    apply Z.mul_le_mono_nonneg; lia. }
  split; [done|]. split; [done|]. rewrite good_finite in * by done. lia.
Qed.


(** [c * x + d * y], the shape of the exponential moving averages. *)
Lemma wsum_upper c x d y X Y H :
  good c -> good x -> good d -> good y -> good X -> good Y -> good H ->
  is_finite c = true -> is_finite x = true -> is_finite d = true -> is_finite y = true ->
  is_finite H = true ->
  (fz c * fz x <= fz X * scale)%Z -> (fz d * fz y <= fz Y * scale)%Z ->
  (fz X + fz Y <= fz H)%Z ->
  good (c * x + d * y)%f64 /\ (fz (c * x + d * y)%f64 <= fz H)%Z /\
  is_finite (c * x + d * y)%f64 = true /\
  is_finite (c * x)%f64 = true /\ is_finite (d * y)%f64 = true.
Proof.
  intros Hc Hx Hd Hy HX HY HH Fc Fx Fd Fy FH HcX HdY HXY.
  pose proof (f_mul_rounds c x Hc Hx Fc Fx) as Hr1. pose proof (f_mul_rounds d y Hd Hy Fd Fy) as Hr2.
  pose proof (rounds_le _ _ _ _ Hr1 HX HcX) as H1. pose proof (rounds_le _ _ _ _ Hr2 HY HdY) as H2.
  pose proof (good_nonneg X HX). pose proof (good_nonneg Y HY).
  assert (G1 : good (c * x)%f64) by apply Hr1. assert (G2 : good (d * y)%f64) by apply Hr2.
  assert (F1 : is_finite (c * x)%f64 = true) by (apply (finite_le _ H G1 HH FH); lia).
  assert (F2 : is_finite (d * y)%f64 = true) by (apply (finite_le _ H G2 HH FH); lia).
  pose proof (f_add_rounds _ _ G1 G2 F1 F2) as Hr.
  assert (Hle : (fz (c * x + d * y)%f64 <= fz H)%Z) by (eapply rounds_le; [exact Hr|done|lia]).
  assert (G : good (c * x + d * y)%f64) by apply Hr.
  split_and!; try done. by apply (finite_le _ H).
Qed.

Lemma wsum_lower c x d y X Y H :
  good c -> good x -> good d -> good y -> good X -> good Y -> good H ->
  is_finite c = true -> is_finite x = true -> is_finite d = true -> is_finite y = true ->
  is_finite (c * x)%f64 = true -> is_finite (d * y)%f64 = true ->
  (fz X * scale <= fz c * fz x)%Z -> (fz Y * scale <= fz d * fz y)%Z ->
  (fz H <= fz X + fz Y)%Z ->
  (fz H <= fz (c * x + d * y)%f64)%Z.
Proof.
  intros Hc Hx Hd Hy HX HY HH Fc Fx Fd Fy F1 F2 HcX HdY HXY.
  pose proof (f_mul_rounds c x Hc Hx Fc Fx) as Hr1. pose proof (f_mul_rounds d y Hd Hy Fd Fy) as Hr2.
  pose proof (rounds_ge _ _ _ _ Hr1 HX HcX) as H1. pose proof (rounds_ge _ _ _ _ Hr2 HY HdY) as H2.
  pose proof (f_add_rounds _ _ (proj1 Hr1) (proj1 Hr2) F1 F2) as Hr.
  eapply rounds_ge; [exact Hr|done|lia].
Qed.

(** [u64] (and narrower) integers as floats. *)
Lemma f_of_N_u64 n :
  n < 2 ^ 64 -> good (f_of_N n) /\ is_finite (f_of_N n) = true /\
    (n <> 0 -> (scale <= fz (f_of_N n))%Z).
Proof.
  intros Hn. pose proof (binary_normalize_rounds (Z.of_N n) 0 ltac:(lia) ltac:(lia)) as Hr.
  change (binary_normalize 53 1024 (Z.of_N n) 0 false) with (f_of_N n) in Hr.
  destruct (normalize_exact 1 64) as (Hz1 & Hz2 & Hz3); [done|done|].
  set (z := binary_normalize 53 1024 1 64 false) in *.
  assert (Hg : good (f_of_N n)) by apply Hr. split; [done|]. split.
  - apply (finite_le _ z Hg Hz1 Hz3). eapply rounds_le; [exact Hr|done|]. rewrite Hz2.
    rewrite (pow_scale 0), (pow_scale 64), Z.mul_1_l, Z.mul_1_r, Z.mul_1_l by lia.
    apply Z.mul_le_mono_nonneg_r; scale_lia.
  - intros H0. destruct (f_of_Z_spec 1) as (H1 & H2 & _); [done|].
    replace scale with (fz (f_of_Z 1)) by (rewrite H2; lia).
    eapply rounds_ge; [exact Hr|done|]. rewrite H2, (pow_scale 0), !Z.mul_1_r by lia.
    pose proof scale_pos. nia.
Qed.
End bounds.

(** ** The relative error of an operation

    Half an ulp is not needed by the components, so the bound is one part in
    [2^52], with an absolute term that covers the subnormal results. *)
#[local] Close Scope N_scope.
#[local] Open Scope Z_scope.

Definition EPS0 : Z := 2 ^ 52.
Definition EPS1 : Z := 2 ^ 52 + 1.
(** The least normal value, [2^-1022], is [2^52] units of [2^-1074]. *)
Definition TINY : Z := 2 ^ 52.

(** The floats around an integer number of units. *)
Lemma float_below v :
  2 ^ 52 <= v < top ->
  exists m k, 0 <= k <= 2045 /\ 2 ^ 52 <= m < 2 ^ 53 /\ m * 2 ^ k <= v < (m + 1) * 2 ^ k.
Proof.
  intros [Hv Hvt]. set (k := Z.log2 v - 52). exists (v / 2 ^ k), k.
  assert (Hl : 52 <= Z.log2 v < 2098).
  { split; [change 52 with (Z.log2 (2 ^ 52)); by apply Z.log2_le_mono|].
    apply Z.log2_lt_pow2; [lia|]. exact Hvt. }
  assert (Hp : 0 < 2 ^ k) by (apply Z.pow_pos_nonneg; lia).
  pose proof (Z.log2_spec v ltac:(lia)) as [H1 H2].
  pose proof (Z.div_mod v (2 ^ k) ltac:(lia)) as Hd. pose proof (Z.mod_pos_bound v (2 ^ k) Hp) as Hm.
  assert (E1 : 2 ^ Z.log2 v = 2 ^ 52 * 2 ^ k) by (rewrite <- Z.pow_add_r by lia; f_equal; lia).
  assert (E2 : 2 ^ Z.succ (Z.log2 v) = 2 ^ 53 * 2 ^ k) by (rewrite <- Z.pow_add_r by lia; f_equal; lia).
  split; [lia|]. split; [|lia]. split.
  - apply Z.div_le_lower_bound; lia.
  - apply Z.div_lt_upper_bound; lia.
Qed.

(** [m * 2^k] units is a float, for 53 significant bits. *)
Lemma float_units m k :
  0 <= m <= 2 ^ 53 -> 0 <= k <= 2045 -> m * 2 ^ k < top ->
  exists z, good z /\ fz z = m * 2 ^ k.
Proof.
  intros Hm Hk Ht. destruct (decide (m = 2 ^ 53)) as [->|Hne].
  - assert (Hk' : k < 2045).
    { destruct (decide (k = 2045)) as [->|]; [|lia].
      rewrite <- (top_split 53 2045) in Ht by done. by apply Z.lt_irrefl in Ht. }
    destruct (normalize_exact (2 ^ 52) (k - 1073)) as (Hg & Hf & _); [lia..|].
    eexists; split; [exact Hg|]. rewrite Hf, <- !Z.pow_add_r by lia. f_equal. lia.
  - destruct (normalize_exact m (k - 1074)) as (Hg & Hf & _); [lia..|].
    eexists; split; [exact Hg|]. rewrite Hf. do 2 f_equal. lia.
Qed.

Lemma good_le_top r : good r -> fz r <= top.
Proof.
  intros Hg. pose proof (good_finite r Hg) as Hf. destruct (Z.ltb_spec (fz r) top); [lia|].
  destruct r as [s|[]| |s m e]; try done; by destruct Hg.
Qed.

(** A normal result. *)
Lemma rounds_normal r n s :
  rounds r n s -> 0 < s -> TINY * s <= n < top * s ->
  n * EPS0 <= fz r * s * EPS1 /\ fz r * s * EPS0 <= n * EPS1.
Proof.
  intros (Hg & Hup & Hdn) Hs Hn. unfold EPS0, EPS1, TINY in *.
  pose proof (Z.div_mod n s ltac:(lia)) as Hd. pose proof (Z.mod_pos_bound n s Hs) as Hm.
  assert (Hv0 : 2 ^ 52 <= n / s) by (apply Z.div_le_lower_bound; lia).
  assert (Hvt : n / s < top) by (apply Z.div_lt_upper_bound; lia).
  set (v := n / s) in *. destruct (float_below v) as (m & k & Hk & Hmk & Hlo & Hhi); [lia|].
  assert (Hp : 0 < 2 ^ k) by (apply Z.pow_pos_nonneg; lia). set (u := 2 ^ k) in *.
  destruct (float_units m k) as (z & Hz & Hfz); [lia..|]. fold u in Hfz. pose proof (Hdn z Hz ltac:(nia)) as H1.
  assert (Hs1 : n <= (m + 1) * u * s) by nia.
  assert (Hs2 : 2 ^ 52 * ((m + 1) * u * s) <= (2 ^ 52 + 1) * (m * u * s)).
  { replace (2 ^ 52 * ((m + 1) * u * s)) with ((2 ^ 52 * m + 2 ^ 52) * (u * s)) by ring.
    replace ((2 ^ 52 + 1) * (m * u * s)) with ((2 ^ 52 * m + m) * (u * s)) by ring.
    apply Z.mul_le_mono_nonneg_r; lia. }
  assert (Hs3 : m * u * s <= fz r * s) by (apply Z.mul_le_mono_nonneg_r; lia).
  split; [lia|].
  assert (H2 : fz r <= (m + 1) * u).
  { destruct (Z_lt_le_dec ((m + 1) * u) top) as [Htop|Htop]; [|pose proof (good_le_top r Hg); lia].
    destruct (float_units (m + 1) k) as (z' & Hz' & Hfz'); [lia..|]. fold u in Hfz'.
    rewrite <- Hfz'. apply Hup; [done|]. rewrite Hfz'. done. }
  assert (Hs4 : m * u * s <= n) by nia.
  assert (fz r * s <= (m + 1) * u * s) by (apply Z.mul_le_mono_nonneg_r; lia). lia.
Qed.

Lemma rounds_rel r n s :
  rounds r n s -> 0 < s -> 0 <= n < top * s ->
  n * EPS0 <= fz r * s * EPS1 + TINY * EPS0 * s /\
  fz r * s * EPS0 <= n * EPS1 + TINY * EPS0 * s.
Proof.
  intros Hr Hs Hn. destruct (Z_lt_le_dec n (TINY * s)) as [Hlt|Hge].
  - destruct Hr as (Hg & Hup & _). pose proof (good_nonneg r Hg) as H0. unfold EPS0, EPS1, TINY in *.
    destruct (float_units (2 ^ 52) 0) as (z & Hz & Hfz); [lia..| |].
    { unfold top. rewrite Z.pow_0_r, Z.mul_1_r. apply Z.pow_lt_mono_r; lia. }
    rewrite Z.pow_0_r, Z.mul_1_r in Hfz. pose proof (Hup z Hz ltac:(lia)) as H1. rewrite Hfz in H1.
    assert (0 <= fz r * s) by (apply Z.mul_nonneg_nonneg; lia).
    assert (fz r * s <= 2 ^ 52 * s) by (apply Z.mul_le_mono_nonneg_r; lia). lia.
  - destruct (rounds_normal r n s Hr Hs ltac:(lia)) as [H1 H2].
    assert (0 <= TINY * EPS0 * s) by (apply Z.mul_nonneg_nonneg; unfold TINY, EPS0; lia). lia.
Qed.

(** ** Quotients, products, truncation *)
Lemma div_normal x y :
  good x -> good y -> is_finite x = true -> is_finite y = true -> 0 < fz y ->
  TINY * fz y <= fz x * scale < top * fz y ->
  good (f_div x y) /\
  fz x * scale * EPS0 <= fz (f_div x y) * fz y * EPS1 /\
  fz (f_div x y) * fz y * EPS0 <= fz x * scale * EPS1.
Proof.
  intros Hx Hy Fx Fy Hpos Hn. pose proof (f_div_rounds x y Hx Hy Fx Fy Hpos) as Hr.
  split; [apply Hr|]. by apply rounds_normal.
Qed.

Lemma mul_rel x y :
  good x -> good y -> is_finite x = true -> is_finite y = true -> fz x * fz y < top * scale ->
  good (f_mul x y) /\
  fz x * fz y * EPS0 <= fz (f_mul x y) * scale * EPS1 + TINY * EPS0 * scale /\
  fz (f_mul x y) * scale * EPS0 <= fz x * fz y * EPS1 + TINY * EPS0 * scale.
Proof.
  intros Hx Hy Fx Fy Hn. pose proof (f_mul_rounds x y Hx Hy Fx Fy) as Hr.
  split; [apply Hr|]. apply rounds_rel; [done|exact scale_pos|].
  pose proof (good_nonneg x Hx). pose proof (good_nonneg y Hy). split; [by apply Z.mul_nonneg_nonneg|done].
Qed.

Lemma trunc_spec x :
  good x -> is_finite x = true ->
  0 <= f_trunc_Z x /\ f_trunc_Z x * scale <= fz x < (f_trunc_Z x + 1) * scale.
Proof.
  intros Hx Hf. pose proof scale_pos. destruct x as [s|s| |s m e]; try done; cbn [f_trunc_Z fz].
  apply good_finite_fz in Hx as (-> & He & Hv). cbn [cond_Zopp]. destruct (Z.leb_spec 0 e) as [Hle|Hlt].
  - rewrite pow_scale by lia. assert (0 < 2 ^ e) by (apply Z.pow_pos_nonneg; lia).
    assert (0 < Zpos m * 2 ^ e) by lia. rewrite Z.mul_assoc. split; [lia|]. split; [lia|].
    apply Z.mul_lt_mono_pos_r; lia.
  - assert (Hp : 0 < 2 ^ (- e)) by (apply Z.pow_pos_nonneg; lia).
    assert (Hp2 : 0 < 2 ^ (e + 1074)) by (apply Z.pow_pos_nonneg; lia).
    rewrite (scale_split (- e) (e + 1074)) by lia. rewrite !Z.mul_assoc.
    pose proof (Z.div_mod (Zpos m) (2 ^ (- e)) ltac:(lia)) as Hd.
    pose proof (Z.mod_pos_bound (Zpos m) (2 ^ (- e)) Hp) as Hm.
    split; [apply Z.div_pos; lia|]. split.
    + apply Z.mul_le_mono_nonneg_r; lia.
    + apply Z.mul_lt_mono_pos_r; lia.
Qed.

Lemma to_u64_spec x :
  good x ->
  Z.of_N (f_to_uN 64 x) * scale <= fz x /\
  (fz x < (Z.of_N (f_to_uN 64 x) + 1) * scale \/ f_to_uN 64 x = u_max 64).
Proof.
  intros Hx. pose proof scale_pos. destruct (is_finite x) eqn:Hf.
  - destruct (trunc_spec x Hx Hf) as (H0 & H1 & H2).
    assert (E : f_to_uN 64 x = N.min (Z.to_N (f_trunc_Z x)) (u_max 64)) by (by destruct x).
    rewrite E. destruct (N.min_spec (Z.to_N (f_trunc_Z x)) (u_max 64)) as [[Hl ->]|[Hl ->]].
    + rewrite Z2N.id by done. lia.
    + split; [|by right]. apply Z.le_trans with (f_trunc_Z x * scale); [|done].
      apply Z.mul_le_mono_nonneg_r; lia.
  - assert (Ht : top <= fz x) by (rewrite good_finite in Hf by done; lia).
    assert (E : f_to_uN 64 x = u_max 64) by (destruct x as [s|[]| |s m e]; try done; by destruct Hx).
    rewrite E. split; [|by right].
    assert (Hu : Z.of_N (u_max 64) <= 2 ^ 64) by (by vm_compute).
    pose proof small_lt_top. generalize dependent (Z.of_N (u_max 64)). intros u Hu.
    assert (u * scale <= 2 ^ 64 * scale) by (apply Z.mul_le_mono_nonneg_r; lia). lia.
Qed.
