(* ===== verification/Text.v ===== *)
(** Rust strings: Unicode scalar values and their UTF-8 encoding, as
    [String], [str::as_bytes], [str::from_utf8] and [char]'s classification in
    the standard library have them.  A [str] is the list of its scalar values;
    its length in the sources is the length of its encoding. *)
From S2P Require Import Prelude.
#[local] Open Scope N_scope.

Abbreviation str := (list N) (only parsing).

(** A Unicode scalar value: a code point that is not a surrogate. *)
Definition is_scalar (c : N) : bool :=
  (c <? 0xD800) || ((0xE000 <=? c) && (c <=? 0x10FFFF)).

Definition str_ok (s : str) : Prop := Forall (fun c => is_scalar c = true) s.

(** [char::encode_utf8]. *)
Definition enc_char (c : N) : list byte :=
  if c <? 0x80 then [byte_of c]
  else if c <? 0x800 then [byte_of (0xC0 + c / 64); byte_of (0x80 + c mod 64)]
  else if c <? 0x10000 then
    [byte_of (0xE0 + c / 4096); byte_of (0x80 + c / 64 mod 64); byte_of (0x80 + c mod 64)]
  else
    [byte_of (0xF0 + c / 262144); byte_of (0x80 + c / 4096 mod 64);
     byte_of (0x80 + c / 64 mod 64); byte_of (0x80 + c mod 64)].

(** [str::as_bytes] and [str::len]. *)
Definition as_bytes (s : str) : list byte := concat (map enc_char s).
Definition str_len (s : str) : N := lenN (as_bytes s).

Definition in_range (lo hi x : N) : bool := (lo <=? x) && (x <=? hi).

(** Continuation bytes, and the second bytes that three and four byte
    sequences may have (no overlong form, no surrogate, nothing above
    [0x10FFFF]). *)
Definition cont (y : N) : bool := in_range 0x80 0xBF y.

Definition second3 (x y : N) : bool :=
  if x =? 0xE0 then in_range 0xA0 0xBF y
  else if x =? 0xED then in_range 0x80 0x9F y
  else in_range 0xE1 0xEF x && cont y.

Definition second4 (x y : N) : bool :=
  if x =? 0xF0 then in_range 0x90 0xBF y
  else if x =? 0xF4 then in_range 0x80 0x8F y
  else in_range 0xF1 0xF3 x && cont y.

(** [str::from_utf8], decoding as it validates. *)
Fixpoint from_utf8 (l : list byte) : option str :=
  match l with
  | [] => Some []
  | b0 :: l0 =>
      let x := Byte.to_N b0 in
      if x <? 0x80 then cons x <$> from_utf8 l0 else
      match l0 with
      | [] => None
      | b1 :: l1 =>
          let y := Byte.to_N b1 in
          if in_range 0xC2 0xDF x then
            if cont y then cons ((x - 0xC0) * 64 + (y - 0x80)) <$> from_utf8 l1 else None
          else
          match l1 with
          | [] => None
          | b2 :: l2 =>
              let z := Byte.to_N b2 in
              if second3 x y then
                if cont z
                then cons ((x - 0xE0) * 4096 + (y - 0x80) * 64 + (z - 0x80)) <$> from_utf8 l2
                else None
              else
              match l2 with
              | [] => None
              | b3 :: l3 =>
                  let w := Byte.to_N b3 in
                  if second4 x y && cont z && cont w
                  then cons ((x - 0xF0) * 262144 + (y - 0x80) * 4096 + (z - 0x80) * 64 + (w - 0x80))
                         <$> from_utf8 l3
                  else None
              end
          end
      end
  end.

(** [char::is_whitespace] (the [White_Space] property) and [char::is_control]
    (the [Cc] category). *)
Definition is_whitespace (c : N) : bool :=
  in_range 0x09 0x0D c || (c =? 0x20) || (c =? 0x85) || (c =? 0xA0) || (c =? 0x1680) ||
  in_range 0x2000 0x200A c || (c =? 0x2028) || (c =? 0x2029) || (c =? 0x202F) ||
  (c =? 0x205F) || (c =? 0x3000).

Definition is_control (c : N) : bool := (c <=? 0x1F) || in_range 0x7F 0x9F c.

(** [str::trim], and [str::contains] for a character and for a string. *)
Fixpoint trim_start (s : str) : str :=
  match s with
  | c :: s' => if is_whitespace c then trim_start s' else s
  | [] => []
  end.

Definition trim (s : str) : str := reverse (trim_start (reverse (trim_start s))).

Definition contains_char (c : N) (s : str) : bool := existsb (N.eqb c) s.

Definition starts_with (p s : str) : bool := bool_decide (take (length p) s = p).

Fixpoint contains (p s : str) : bool :=
  starts_with p s || match s with [] => false | _ :: s' => contains p s' end.

(** ** Encoding and decoding are inverse *)

Ltac bytes_lia := rewrite ?to_N_byte_of; zify; Z.to_euclidean_division_equations; lia.

Section utf8.
Implicit Types (s : str) (c : N).

Lemma scalar_range c :
  is_scalar c = true <-> c < 0xD800 \/ (0xE000 <= c /\ c <= 0x10FFFF).
Proof.
  unfold is_scalar. rewrite orb_true_iff, andb_true_iff, N.ltb_lt, !N.leb_le. done.
Qed.

Lemma in_range_true lo hi x : in_range lo hi x = true <-> lo <= x <= hi.
Proof. unfold in_range. by rewrite andb_true_iff, !N.leb_le. Qed.

Lemma in_range_false lo hi x : in_range lo hi x = false <-> x < lo \/ hi < x.
Proof.
  rewrite <- not_true_iff_false, in_range_true. lia.
Qed.

Lemma cont_true y : cont y = true <-> 0x80 <= y <= 0xBF.
Proof. apply in_range_true. Qed.

Lemma second3_true x y :
  second3 x y = true <->
  (0xE0 <= x <= 0xEF /\ 0x80 <= y <= 0xBF /\ (x = 0xE0 -> 0xA0 <= y) /\ (x = 0xED -> y <= 0x9F)).
Proof.
  unfold second3, cont. destruct (N.eqb_spec x 0xE0) as [->|]; [rewrite in_range_true; lia|].
  destruct (N.eqb_spec x 0xED) as [->|]; [rewrite in_range_true; lia|].
  rewrite andb_true_iff, !in_range_true. lia.
Qed.

Lemma second4_true x y :
  second4 x y = true <->
  (0xF0 <= x <= 0xF4 /\ 0x80 <= y <= 0xBF /\ (x = 0xF0 -> 0x90 <= y) /\ (x = 0xF4 -> y <= 0x8F)).
Proof.
  unfold second4, cont. destruct (N.eqb_spec x 0xF0) as [->|]; [rewrite in_range_true; lia|].
  destruct (N.eqb_spec x 0xF4) as [->|]; [rewrite in_range_true; lia|].
  rewrite andb_true_iff, !in_range_true. lia.
Qed.

Lemma enc_digit x : Byte.to_N (byte_of (0x80 + x mod 64)) - 0x80 = x mod 64.
Proof. bytes_lia. Qed.

Lemma digits c :
  c = c / 262144 * 262144 + c / 4096 mod 64 * 4096 + c / 64 mod 64 * 64 + c mod 64.
Proof.
  replace (c / 262144) with (c / 64 / 64 / 64) by (rewrite !N.Div0.div_div; done).
  replace (c / 4096) with (c / 64 / 64) by (rewrite !N.Div0.div_div; done).
  pose proof (N.Div0.div_mod c 64). pose proof (N.Div0.div_mod (c / 64) 64).
  pose proof (N.Div0.div_mod (c / 64 / 64) 64). lia.
Qed.

Lemma from_utf8_enc_char c l :
  is_scalar c = true -> from_utf8 (enc_char c ++ l) = cons c <$> from_utf8 l.
Proof.
  intros Hc%scalar_range. unfold enc_char.
  destruct (N.ltb_spec c 0x80); [|destruct (N.ltb_spec c 0x800); [|destruct (N.ltb_spec c 0x10000)]];
    cbn [app from_utf8].
  - rewrite to_N_byte_of, N.mod_small by lia. by rewrite (proj2 (N.ltb_lt _ _)) by lia.
  - rewrite (proj2 (N.ltb_ge _ _)) by bytes_lia.
    rewrite (proj2 (in_range_true _ _ _)) by bytes_lia.
    rewrite (proj2 (cont_true _)) by bytes_lia. repeat f_equal. bytes_lia.
  - rewrite (proj2 (N.ltb_ge _ _)) by bytes_lia.
    rewrite (proj2 (in_range_false _ _ _)) by bytes_lia.
    rewrite (proj2 (second3_true _ _)) by bytes_lia.
    rewrite (proj2 (cont_true _)) by bytes_lia. repeat f_equal. bytes_lia.
  - rewrite (proj2 (N.ltb_ge _ _)) by bytes_lia.
    rewrite (proj2 (in_range_false _ _ _)) by bytes_lia.
    assert (Hs : forall x y, 0xF0 <= x -> second3 x y = false).
    { intros x y Hx. apply not_true_iff_false. rewrite second3_true. lia. }
    rewrite Hs by bytes_lia.
    rewrite (proj2 (second4_true _ _)) by bytes_lia.
    rewrite !(proj2 (cont_true _)) by bytes_lia. cbn [andb]. rewrite !enc_digit. do 2 f_equal.
    replace (Byte.to_N (byte_of (0xF0 + c / 262144)) - 0xF0) with (c / 262144) by bytes_lia.
    pose proof (digits c). lia.
Qed.

Lemma from_utf8_as_bytes s : str_ok s -> from_utf8 (as_bytes s) = Some s.
Proof.
  induction 1 as [|c s Hc _ IH]; [done|]. unfold as_bytes in *. cbn [map concat].
  rewrite from_utf8_enc_char by done. by rewrite IH.
Qed.

Lemma as_bytes_cons c s : as_bytes (c :: s) = enc_char c ++ as_bytes s.
Proof. reflexivity. Qed.

Lemma byte_of_eq n b : n = Byte.to_N b -> byte_of n = b.
Proof. intros ->. apply byte_of_to_N. Qed.

(** One decoded character, put back in front of the rest. *)
Lemma decoded_cons c e l l' s :
  (forall s', from_utf8 l = Some s' -> as_bytes s' = l /\ str_ok s') ->
  cons c <$> from_utf8 l = Some s -> is_scalar c = true -> enc_char c = e -> l' = e ++ l ->
  as_bytes s = l' /\ str_ok s.
Proof.
  intros IH H Hc He ->. destruct (from_utf8 l) as [s'|]; [|done]. injection H as <-.
  destruct (IH s' eq_refl) as [E Hok]. split; [by rewrite as_bytes_cons, E, He|by constructor].
Qed.

Lemma as_bytes_from_utf8 l : forall s, from_utf8 l = Some s -> as_bytes s = l /\ str_ok s.
Proof.
  induction l as [l IH] using (induction_ltof1 _ (@length byte)); unfold ltof in IH.
  intros s. destruct l as [|b0 l0]; [intros [= <-]; split; [done|by constructor]|].
  cbn [from_utf8]. pose proof (byte_to_N_lt b0).
  destruct (N.ltb_spec (Byte.to_N b0) 0x80).
  { intros Hd. refine (decoded_cons _ [b0] l0 _ _ (IH l0 ltac:(cbn; lia)) Hd _ _ eq_refl).
    - apply scalar_range. lia.
    - unfold enc_char. rewrite (proj2 (N.ltb_lt _ _)) by lia. f_equal. by apply byte_of_eq. }
  destruct l0 as [|b1 l1]; [done|]. pose proof (byte_to_N_lt b1).
  destruct (in_range 0xC2 0xDF (Byte.to_N b0)) eqn:E2.
  { apply in_range_true in E2. destruct (cont (Byte.to_N b1)) eqn:Ey; [|done].
    apply cont_true in Ey. intros Hd.
    refine (decoded_cons _ [b0; b1] l1 _ _ (IH l1 ltac:(cbn; lia)) Hd _ _ eq_refl).
    - apply scalar_range. lia.
    - unfold enc_char. rewrite (proj2 (N.ltb_ge _ _)), (proj2 (N.ltb_lt _ _)) by lia.
      repeat f_equal; apply byte_of_eq; bytes_lia. }
  destruct l1 as [|b2 l2]; [done|]. pose proof (byte_to_N_lt b2).
  destruct (second3 (Byte.to_N b0) (Byte.to_N b1)) eqn:E3.
  { apply second3_true in E3. destruct (cont (Byte.to_N b2)) eqn:Ez; [|done].
    apply cont_true in Ez. intros Hd.
    refine (decoded_cons _ [b0; b1; b2] l2 _ _ (IH l2 ltac:(cbn; lia)) Hd _ _ eq_refl).
    - apply scalar_range. lia.
    - unfold enc_char. rewrite !(proj2 (N.ltb_ge _ _)), (proj2 (N.ltb_lt _ _)) by lia.
      repeat f_equal; apply byte_of_eq; bytes_lia. }
  destruct l2 as [|b3 l3]; [done|]. pose proof (byte_to_N_lt b3).
  destruct (second4 _ _ && cont _ && cont _)%bool eqn:E4; [|done].
  apply andb_true_iff in E4 as [E4 Ew]. apply andb_true_iff in E4 as [E4 Ez].
  apply second4_true in E4. apply cont_true in Ez, Ew. intros Hd.
  refine (decoded_cons _ [b0; b1; b2; b3] l3 _ _ (IH l3 ltac:(cbn; lia)) Hd _ _ eq_refl).
  - apply scalar_range. lia.
  - unfold enc_char. rewrite !(proj2 (N.ltb_ge _ _)) by lia.
    repeat f_equal; apply byte_of_eq; bytes_lia.
Qed.

Lemma as_bytes_inj s1 s2 : str_ok s1 -> str_ok s2 -> as_bytes s1 = as_bytes s2 -> s1 = s2.
Proof.
  intros H1%from_utf8_as_bytes H2%from_utf8_as_bytes E. rewrite E in H1. congruence.
Qed.
End utf8.

#[export] Hint Resolve from_utf8_as_bytes : lowband.
