(* ===== verification/Numeral.v ===== *)
(** The text of numbers: the standard library's formatting of unsigned integers
    ([{}], [{:09}], [{:02x}]) and its parsing ([char::to_digit],
    [from_str_radix]), with string literals and [strip_prefix].  No file of the
    repository is modelled here. *)
From Stdlib Require Import Strings.Ascii Strings.String.
From S2P Require Import Prelude Text.
#[local] Open Scope N_scope.

(** A string literal of the source. *)
Definition lit (s : string) : str := map N_of_ascii (list_ascii_of_string s).
#[global] Arguments lit _%_string_scope.

(** [str::strip_prefix]. *)
Definition strip_prefix (p s : str) : option str :=
  if bool_decide (take (length p) s = p) then Some (drop (length p) s) else None.

(** ** Formatting *)
Definition digit_char (d : N) : N := if d <? 10 then 0x30 + d else 0x57 + d.

(** Exactly [k] digits, the most significant first. *)
Fixpoint digits (base : N) (k : nat) (n : N) : str :=
  match k with
  | O => []
  | S k => digits base k (n / base) ++ [digit_char (n mod base)]
  end.

(** Bytes in lowercase hexadecimal, [{b:02x}] of each. *)
Definition hex (k : list byte) : str := concat (map (fun b => digits 16 2 (Byte.to_N b)) k).

(** As many digits as needed: [{}] and [{:x}].  Each turn takes a digit off, so
    the number itself bounds the turns. *)
Fixpoint format_loop (fuel : nat) (base n : N) : str :=
  match fuel with
  | O => []
  | S fuel => (if n <? base then [] else format_loop fuel base (n / base)) ++ [digit_char (n mod base)]
  end.

Definition format_radix (base n : N) : str := format_loop (S (N.to_nat (N.log2 n))) base n.
Definition decimal (n : N) : str := format_radix 10 n.

(** ** Parsing *)

(** [char::to_digit]. *)
Definition to_digit (base c : N) : option N :=
  let d :=
    if in_range 0x30 0x39 c then Some (c - 0x30)
    else if in_range 0x61 0x7A c then Some (c - 0x57)
    else if in_range 0x41 0x5A c then Some (c - 0x37)
    else None in
  match d with Some d => if d <? base then Some d else None | None => None end.

(** [from_str_radix] and [str::parse] of a [w]-bit unsigned integer: a sign [+]
    is accepted, an overflow is an error. *)
Fixpoint parse_loop (w base acc : N) (s : str) : option N :=
  match s with
  | [] => Some acc
  | c :: s =>
      d ← to_digit base c;
      let acc := acc * base + d in
      if acc <? 2 ^ w then parse_loop w base acc s else None
  end.

Definition from_str_radix (w base : N) (s : str) : option N :=
  match s with
  | [] => None
  | c :: s' =>
      if (c =? 0x2B) && negb (bool_decide (s' = [])) then parse_loop w base 0 s'
      else parse_loop w base 0 s
  end.

(** ** Lemmas *)
Section strings.
Implicit Types (p s t : str).

Lemma as_bytes_app s t : as_bytes (s ++ t) = as_bytes s ++ as_bytes t.
Proof. unfold as_bytes. by rewrite map_app, concat_app. Qed.

Lemma strip_prefix_app p s : strip_prefix p (p ++ s) = Some s.
Proof. unfold strip_prefix. by rewrite take_app_length, drop_app_length, bool_decide_true. Qed.

Lemma strip_prefix_Some p s t : strip_prefix p s = Some t <-> s = p ++ t.
Proof.
  unfold strip_prefix. split.
  - case_bool_decide as He; [|done]. intros [= <-]. rewrite <- He at 1. by rewrite take_drop.
  - intros ->. by rewrite take_app_length, drop_app_length, bool_decide_true.
Qed.

(** Strings that end at different first separators differ. *)
Lemma break_unique (P : N -> Prop) s1 c1 t1 s2 c2 t2 :
  Forall P s1 -> Forall P s2 -> ~ P c1 -> ~ P c2 ->
  s1 ++ c1 :: t1 = s2 ++ c2 :: t2 -> s1 = s2 /\ c1 = c2 /\ t1 = t2.
Proof.
  intros H1. revert s2. induction H1 as [|x s1 Hx _ IH]; intros s2 H2 Hc1 Hc2 He.
  - destruct H2 as [|y s2 Hy _]; cbn in He; injection He; [by intros -> ->|]. by intros _ ->.
  - destruct H2 as [|y s2 Hy H2]; cbn in He; injection He; [by intros _ ->|].
    intros He' ->. by destruct (IH s2 H2 Hc1 Hc2 He') as (-> & -> & ->).
Qed.
End strings.

Section digits.
Implicit Types (n d base : N) (s : str).

Lemma digit_small d : d < 16 -> digit_char d < 0x80.
Proof. intros. unfold digit_char. case_ifs; lia. Qed.

Lemma digit_byte d : d < 16 -> as_bytes [digit_char d] = [byte_of (digit_char d)].
Proof.
  intros Hd. unfold as_bytes. cbn [map concat]. rewrite app_nil_r. unfold enc_char.
  by rewrite (proj2 (N.ltb_lt _ _)) by (by apply digit_small).
Qed.

Lemma to_digit_char base d : base <= 16 -> d < base -> to_digit base (digit_char d) = Some d.
Proof.
  intros Hb Hd. unfold to_digit, digit_char.
  destruct (N.ltb_spec d 10).
  - rewrite (proj2 (in_range_true _ _ _)) by lia. replace (0x30 + d - 0x30) with d by lia.
    by rewrite (proj2 (N.ltb_lt _ _)).
  - rewrite (proj2 (in_range_false 0x30 _ _)), (proj2 (in_range_true 0x61 _ _)) by lia.
    replace (0x57 + d - 0x57) with d by lia. by rewrite (proj2 (N.ltb_lt _ _)).
Qed.

Lemma digits_length base k n :
  0 < base <= 16 -> length (as_bytes (digits base k n)) = k.
Proof.
  intros Hb. revert n. induction k as [|k IH]; intros n; [done|]. cbn [digits].
  rewrite as_bytes_app, length_app, IH, digit_byte; [cbn; lia|].
  pose proof (N.mod_lt n base). lia.
Qed.

(** The characters of a number. *)
Definition is_digit base (c : N) : Prop := exists d, d < base /\ c = digit_char d.

Lemma digits_are_digits base k n : 0 < base -> Forall (is_digit base) (digits base k n).
Proof.
  intros Hb. revert n. induction k as [|k IH]; intros n; [constructor|]. cbn [digits].
  apply Forall_app. split; [apply IH|]. constructor; [|constructor].
  exists (n mod base). split; [apply N.mod_lt; lia|done].
Qed.

Lemma format_are_digits base fuel n : 0 < base -> Forall (is_digit base) (format_loop fuel base n).
Proof.
  intros Hb. revert n. induction fuel as [|k IH]; intros n; [constructor|]. cbn [format_loop].
  apply Forall_app. split; [destruct (n <? base); [constructor|apply IH]|]. constructor; [|constructor].
  exists (n mod base). split; [apply N.mod_lt; lia|done].
Qed.

Lemma is_digit_ok base s : base <= 16 -> Forall (is_digit base) s -> str_ok s.
Proof.
  intros Hb Hs. apply (Forall_impl _ _ _ Hs). intros c (d & Hd & ->).
  pose proof (digit_small d ltac:(lia)). unfold is_scalar. apply orb_true_iff. left. apply N.ltb_lt. lia.
Qed.

Lemma digits_ok base k n : 0 < base <= 16 -> str_ok (digits base k n).
Proof. intros Hb. eapply is_digit_ok, digits_are_digits; lia. Qed.

Lemma decimal_ok n : str_ok (decimal n).
Proof. apply (is_digit_ok 10); [lia|]. by apply format_are_digits. Qed.

Lemma decimal_digits n : Forall (is_digit 10) (decimal n).
Proof. by apply format_are_digits. Qed.

Lemma format_nonempty base n : format_radix base n <> [].
Proof. unfold format_radix. cbn [format_loop]. destruct (n <? base); [done|]. by intros [_ ?]%app_nil. Qed.

Lemma parse_app w base acc s t :
  parse_loop w base acc (s ++ t) = (v ← parse_loop w base acc s; parse_loop w base v t).
Proof.
  revert acc. induction s as [|c s IH]; intros acc; [done|]. cbn [parse_loop app].
  destruct (to_digit base c) as [d|]; [|done]. cbn [mbind option_bind].
  destruct (_ <? _); [apply IH|done].
Qed.

Lemma parse_digit w base v d :
  base <= 16 -> d < base -> v * base + d < 2 ^ w ->
  parse_loop w base v [digit_char d] = Some (v * base + d).
Proof.
  intros Hb Hd Hv. cbn [parse_loop]. rewrite to_digit_char by done. cbn [mbind option_bind].
  by rewrite (proj2 (N.ltb_lt _ _)).
Qed.

Lemma parse_format_loop w base fuel n :
  2 <= base <= 16 -> n < 2 ^ w -> n < 2 ^ N.of_nat fuel -> (0 < fuel)%nat ->
  parse_loop w base 0 (format_loop fuel base n) = Some n.
Proof.
  intros Hb Hw. revert n Hw. induction fuel as [|fuel IH]; intros n Hw Hf Hp; [lia|].
  cbn [format_loop]. pose proof (N.Div0.div_mod n base) as En. pose proof (N.mod_lt n base ltac:(lia)) as Ln.
  destruct (N.ltb_spec n base) as [Hs|Hs].
  - cbn [app]. rewrite (N.mod_small n) by done. apply (parse_digit w base 0); [lia|done|lia].
  - assert (Hq : n / base <= n / 2) by (apply N.div_le_compat_l; lia).
    assert (H2 : n / 2 < 2 ^ N.of_nat fuel).
    { apply N.Div0.div_lt_upper_bound. rewrite Nat2N.inj_succ, N.pow_succ_r' in Hf. lia. }
    assert (Hle : n / base <= n) by (apply N.Div0.div_le_upper_bound; nia).
    assert (Hpos : 1 <= n / base).
    { rewrite <- (N.div_same base) by lia. by apply N.Div0.div_le_mono. }
    rewrite parse_app, IH; [|lia|lia|].
    2: { destruct fuel; [cbn in H2; lia|lia]. }
    cbn [mbind option_bind]. rewrite parse_digit by (lia || (rewrite N.mul_comm, <- En; done)).
    f_equal. lia.
Qed.

Lemma parse_format_digits w base n :
  2 <= base <= 16 -> n < 2 ^ w -> parse_loop w base 0 (format_radix base n) = Some n.
Proof.
  intros Hb Hw. apply parse_format_loop; [done|done| |lia]. rewrite Nat2N.inj_succ, N2Nat.id.
  destruct (N.eq_dec n 0) as [->|]; [cbn; lia|]. apply N.log2_spec. lia.
Qed.

Lemma parse_format w base n :
  2 <= base <= 16 -> n < 2 ^ w -> from_str_radix w base (format_radix base n) = Some n.
Proof.
  intros Hb Hw. pose proof (parse_format_digits w base n Hb Hw) as Hp.
  pose proof (format_nonempty base n) as Hne.
  assert (Hd : Forall (is_digit base) (format_radix base n)) by (apply format_are_digits; lia).
  destruct (format_radix base n) as [|c s]; [done|]. cbn [from_str_radix].
  apply List.Forall_inv in Hd as (d & Hd & ->).
  rewrite (proj2 (N.eqb_neq _ _)); [done|]. unfold digit_char. destruct (N.ltb_spec d 10); lia.
Qed.

Lemma format_inj base m n : 2 <= base <= 16 -> format_radix base m = format_radix base n -> m = n.
Proof.
  intros Hb He. set (w := N.max (N.size m) (N.size n)).
  assert (Hs : forall k, N.size k <= w -> k < 2 ^ w).
  { intros k Hk. eapply N.lt_le_trans; [apply N.size_gt|]. apply N.pow_le_mono_r; lia. }
  pose proof (parse_format w base m Hb (Hs m ltac:(lia))) as H1.
  pose proof (parse_format w base n Hb (Hs n ltac:(lia))) as H2. congruence.
Qed.

Lemma decimal_inj m n : decimal m = decimal n -> m = n.
Proof. apply format_inj. lia. Qed.

Lemma decimal_parse w n : n < 2 ^ w -> from_str_radix w 10 (decimal n) = Some n.
Proof. apply parse_format. lia. Qed.

Lemma hex_parse w n : n < 2 ^ w -> from_str_radix w 16 (format_radix 16 n) = Some n.
Proof. apply parse_format. lia. Qed.

Lemma decimal_no_char n c : (c < 0x30 \/ 0x39 < c) -> c ∉ decimal n.
Proof.
  intros Hc Hin. pose proof (decimal_digits n) as Hd. rewrite List.Forall_forall in Hd.
  apply list_elem_of_In in Hin. destruct (Hd c Hin) as (d & Hd' & ->). unfold digit_char in Hc.
  destruct (N.ltb_spec d 10); lia.
Qed.
Lemma digits_count base k n : length (digits base k n) = k.
Proof. revert n. induction k as [|k IH]; intros n; [done|]. cbn [digits]. rewrite length_app, IH. cbn. lia. Qed.

Lemma digits_value base k n w : 
  2 <= base <= 16 -> n < base ^ N.of_nat k -> n < 2 ^ w ->
  parse_loop w base 0 (digits base k n) = Some n.
Proof.
  intros Hb. revert n. induction k as [|k IH]; intros n Hn Hw; [cbn in *; f_equal; lia|].
  rewrite Nat2N.inj_succ, N.pow_succ_r' in Hn. cbn [digits]. rewrite parse_app.
  pose proof (N.Div0.div_mod n base) as En. pose proof (N.mod_lt n base ltac:(lia)) as Ln.
  rewrite IH; [|by apply N.Div0.div_lt_upper_bound|].
  2: { eapply N.le_lt_trans; [|exact Hw]. apply N.Div0.div_le_upper_bound. nia. }
  cbn [mbind option_bind]. rewrite parse_digit; [f_equal; lia|lia|done|]. rewrite N.mul_comm, <- En. done.
Qed.

Lemma hex_byte_inj (a b : byte) t1 t2 :
  digits 16 2 (Byte.to_N a) ++ t1 = digits 16 2 (Byte.to_N b) ++ t2 -> a = b /\ t1 = t2.
Proof.
  intros He. apply app_inj_1 in He as [He ->]; [|by rewrite !digits_count].
  split; [|done].
  pose proof (byte_to_N_lt a) as Ha. pose proof (byte_to_N_lt b) as Hb.
  pose proof (digits_value 16 2 (Byte.to_N a) 8 ltac:(lia) ltac:(cbn; lia) ltac:(cbn; lia)) as H1.
  pose proof (digits_value 16 2 (Byte.to_N b) 8 ltac:(lia) ltac:(cbn; lia) ltac:(cbn; lia)) as H2.
  rewrite He, H2 in H1. injection H1 as E. rewrite <- (byte_of_to_N a), <- (byte_of_to_N b). by rewrite E.
Qed.

Lemma hex_inj (a b : list byte) t1 t2 :
  length a = length b -> hex a ++ t1 = hex b ++ t2 -> a = b /\ t1 = t2.
Proof.
  revert b. induction a as [|x a IH]; intros [|y b] Hl He; try done.
  unfold hex in He. cbn [map concat] in He. rewrite <- !app_assoc in He.
  apply hex_byte_inj in He as [-> He]. apply IH in He as [-> ->]; [done|]. by injection Hl.
Qed.

End digits.
