(* ===== verification/RetryTimer.v ===== *)
(** The retry-timer interface shared by the probe controllers of
    [core/lbtp]: a probe in flight has a number of retries left and a tick
    countdown; a tick counts down, and at zero either re-sends and re-arms or
    gives up.  [RetryTimerLaws] is what a controller promises; the theorems on
    the number and the times of the retransmissions are proved once, against
    the laws, and hold for every instance. *)
From S2P Require Import Prelude.
#[local] Open Scope N_scope.

(** [rt_view s] is [Some (retries_left, ticks_remaining)] while a probe is in
    flight; [rt_retransmit s e] says that [e] re-sends the probe in flight in
    [s]. *)
Class RetryTimer (S E : Type) := {
  rt_view : S -> option (N * N);
  rt_tick : S -> S * option E;
  rt_timeout : N;
  rt_retransmit : S -> E -> Prop;
  rt_give_up : S -> E -> Prop;
}.

Class RetryTimerLaws (S E : Type) {RT : RetryTimer S E} : Prop := {
  rt_count_down s r t :
    rt_view s = Some (r, t) -> 0 < t ->
    snd (rt_tick s) = None /\ rt_view (fst (rt_tick s)) = Some (r, t - 1);
  rt_expire s r :
    rt_view s = Some (r, 0) -> 0 < r ->
    exists e, snd (rt_tick s) = Some e /\ rt_retransmit s e /\
      rt_view (fst (rt_tick s)) = Some (r - 1, rt_timeout);
  rt_exhaust s :
    rt_view s = Some (0, 0) ->
    exists e, snd (rt_tick s) = Some e /\ rt_give_up s e /\
      rt_view (fst (rt_tick s)) = None;
  rt_same_probe s e :
    is_Some (rt_view s) ->
    (rt_retransmit (fst (rt_tick s)) e -> rt_retransmit s e) /\
    (rt_give_up (fst (rt_tick s)) e -> rt_give_up s e);
}.

(** [n] consecutive ticks, with the events they emit in order. *)
Definition emit {E} (o : option E) (es : list E) : list E :=
  match o with Some e => e :: es | None => es end.

Fixpoint run_ticks {S E} (tick : S -> S * option E) (n : nat) (s : S) : S * list E :=
  match n with
  | O => (s, [])
  | Datatypes.S n =>
      let '(s1, o) := tick s in
      let '(s2, es) := run_ticks tick n s1 in
      (s2, emit o es)
  end.

(** Ticks a probe survives: the running countdown, then every retry waits
    [timeout + 1] ticks. *)
Definition tick_budget (timeout r t : N) : N := t + r * (timeout + 1).

Lemma run_ticks_S {S E} (tick : S -> S * option E) n s :
  run_ticks tick (Datatypes.S n) s =
    (fst (run_ticks tick n (fst (tick s))),
     emit (snd (tick s)) (snd (run_ticks tick n (fst (tick s))))).
Proof. simpl. destruct (tick s) as [s1 o]. simpl. by destruct (run_ticks tick n s1). Qed.

Lemma run_ticks_add {S E} (tick : S -> S * option E) n m s :
  run_ticks tick (n + m) s =
    (fst (run_ticks tick m (fst (run_ticks tick n s))),
     snd (run_ticks tick n s) ++ snd (run_ticks tick m (fst (run_ticks tick n s)))).
Proof.
  revert s. induction n as [|n IH]; intros s.
  - simpl. by destruct (run_ticks tick m s).
  - rewrite Nat.add_succ_l, !run_ticks_S, IH. simpl.
    destruct (snd (tick s)); done.
Qed.

Section retry_timer.
Context {S E : Type} {RT : RetryTimer S E} {L : RetryTimerLaws S E}.
Implicit Types s : S.

Lemma rt_budget_pred s r t :
  rt_view s = Some (r, t) -> 0 < tick_budget rt_timeout r t ->
  exists r' t', rt_view (fst (rt_tick s)) = Some (r', t') /\
    tick_budget rt_timeout r' t' = tick_budget rt_timeout r t - 1 /\
    match snd (rt_tick s) with
    | None => r' = r
    | Some e => r = r' + 1 /\ rt_retransmit s e
    end.
Proof.
  intros Hv Hb. unfold tick_budget in *.
  destruct (N.lt_ge_cases 0 t) as [Ht|Ht].
  - destruct (rt_count_down s r t Hv Ht) as [He Hv'].
    exists r, (t - 1). rewrite He. split; [done|]. split; [lia|done].
  - assert (t = 0) as -> by lia.
    destruct (N.eq_0_gt_0_cases r) as [->|Hr]; [lia|].
    destruct (rt_expire s r Hv Hr) as (e & He & Hre & Hv').
    exists (r - 1), rt_timeout. rewrite He. split_and!; auto; [|lia].
    replace r with (r - 1 + 1) at 2 by lia. lia.
Qed.

(** Within its budget a probe stays in flight and only re-sends. *)
Lemma rt_within_budget n s r t :
  rt_view s = Some (r, t) -> N.of_nat n <= tick_budget rt_timeout r t ->
  exists r' t', rt_view (fst (run_ticks rt_tick n s)) = Some (r', t') /\
    tick_budget rt_timeout r' t' = tick_budget rt_timeout r t - N.of_nat n /\
    r = r' + lenN (snd (run_ticks rt_tick n s)) /\
    Forall (rt_retransmit s) (snd (run_ticks rt_tick n s)) /\
    (forall e, rt_give_up (fst (run_ticks rt_tick n s)) e -> rt_give_up s e).
Proof.
  revert s r t. induction n as [|n IH]; intros s r t Hv Hn.
  - exists r, t. simpl. split_and!; auto; try (rewrite ?lenN_nil; lia).
  - destruct (rt_budget_pred s r t Hv) as (r1 & t1 & Hv1 & Hb1 & He); [lia|].
    destruct (IH _ _ _ Hv1) as (r2 & t2 & Hv2 & Hb2 & Hr2 & Hf2 & Hg2); [lia|].
    exists r2, t2. rewrite run_ticks_S. simpl fst; simpl snd.
    assert (Hf : Forall (rt_retransmit s)
      (snd (run_ticks rt_tick n (fst (rt_tick s))))).
    { eapply Forall_impl; [exact Hf2|]. intros e. apply rt_same_probe; eauto. }
    destruct (snd (rt_tick s)) as [e|]; simpl; rewrite ?lenN_cons;
      destruct_and?; split_and!; auto; try lia;
      intros e' He'; apply (rt_same_probe s e' ltac:(eauto)); auto.
Qed.

(** An unanswered probe is re-sent once per retry left and then given up, at
    a tick fixed by the countdown and the number of retries. *)
Lemma rt_gives_up s r t :
  rt_view s = Some (r, t) ->
  exists s' es e,
    run_ticks rt_tick (N.to_nat (tick_budget rt_timeout r t + 1)) s = (s', es ++ [e]) /\
    lenN es = r /\ Forall (rt_retransmit s) es /\ rt_give_up s e /\ rt_view s' = None.
Proof.
  intros Hv. set (n := N.to_nat (tick_budget rt_timeout r t)).
  destruct (rt_within_budget n s r t Hv) as (r' & t' & Hv' & Hb & Hr & Hf & Hg).
  { unfold n. lia. }
  unfold n in Hb. rewrite N2Nat.id in Hb. fold n in Hb.
  assert (r' = 0 /\ t' = 0) as [-> ->] by (unfold tick_budget in *; nia).
  destruct (rt_exhaust _ Hv') as (e & He & Hge & Hv'').
  exists (fst (rt_tick (fst (run_ticks rt_tick n s)))), (snd (run_ticks rt_tick n s)), e.
  split_and!; auto.
  replace (N.to_nat _) with (n + 1)%nat by (unfold n; lia).
  rewrite run_ticks_add, run_ticks_S. simpl. by rewrite He.
Qed.
End retry_timer.
