(* ===== verification/Seq.v ===== *)
(** Wire-sequence expansion: [core/lbtp/src/seq.rs].

    The datagram header carries the low 16 bits of a 47-bit packet number; the
    receiver's [SeqExpander] rebuilds the full number from the highest one seen
    so far.  The model keeps the source's casts: the wire value and the low
    half are [u16], their difference is reinterpreted as [i16], the sum is
    taken in [i64] and clamped. *)
From S2P Require Import Prelude.
#[local] Open Scope N_scope.

Definition WIRE_SEQ_BITS : N := 16.
Definition SEQ_BITS : N := 47.
Definition SEQ_MAX : N := N.shiftl 1 SEQ_BITS - 1.
Definition WIRE_MASK : N := N.shiftl 1 WIRE_SEQ_BITS - 1.

Record SeqExpander := mkSeqExpander { next_expected : N }.

Definition new : SeqExpander := {| next_expected := 0 |}.

(** The signed 16-bit distance from the expected packet to the wire value. *)
Definition wire_delta (st : SeqExpander) (wire_seq : N) : Z :=
  let low := wrap 16 (N.land (next_expected st) WIRE_MASK) in
  as_signed 16 (wrapping_sub 16 wire_seq low).

Definition expand (st : SeqExpander) (wire_seq : N) : SeqExpander * N :=
  let delta := wire_delta st wire_seq in
  let full :=
    Z.to_N (clampZ (as_signed 64 (next_expected st) + delta) 0 (Z.of_N SEQ_MAX)) in
  if next_expected st <=? full
  then ({| next_expected := wrap 64 (full + 1) |}, full)
  else (st, full).

(** A receiver fed a sequence of wire values, in arrival order. *)
Fixpoint expand_all (st : SeqExpander) (ws : list N) : SeqExpander * list N :=
  match ws with
  | [] => (st, [])
  | w :: ws =>
      let '(st1, full) := expand st w in
      let '(st2, fulls) := expand_all st1 ws in
      (st2, full :: fulls)
  end.

(** What the sender puts on the wire for packet [full]. *)
Definition to_wire (full : N) : N := full mod 2 ^ WIRE_SEQ_BITS.

(** ** Specification

    [in_window next s]: packet [s] is at most 32 768 behind and 32 767 ahead
    of the packet the receiver expects.  [window_stream next ss]: every packet
    of the arrival order [ss] is in the window at the time it arrives. *)
Definition in_window (next s : N) : bool :=
  (next <=? s + 32768) && (s <=? next + 32767) && (s <=? SEQ_MAX).

Fixpoint window_stream (next : N) (ss : list N) : bool :=
  match ss with
  | [] => true
  | s :: ss => in_window next s && window_stream (N.max next (s + 1)) ss
  end.

(** The invariant of every receiver: the expected packet is at most one past
    the last representable one. *)
Definition expander_ok (st : SeqExpander) : Prop := next_expected st <= 2 ^ 47.

(** ** Lemmas *)
Lemma SEQ_MAX_eq : SEQ_MAX = 2 ^ 47 - 1.
Proof. reflexivity. Qed.

Lemma new_ok : expander_ok new.
Proof. unfold expander_ok. simpl. lia. Qed.

Lemma wire_delta_low st : wrap 16 (N.land (next_expected st) WIRE_MASK) =
  next_expected st mod 65536.
Proof.
  unfold WIRE_MASK, WIRE_SEQ_BITS, wrap.
  change (N.shiftl 1 16 - 1) with (N.ones 16). rewrite N.land_ones.
  rewrite N.Div0.mod_mod. reflexivity.
Qed.

(** The delta is the unique value of the window congruent to the wire value. *)
Lemma wire_delta_spec st w :
  w < 65536 ->
  (exists k : Z, (Z.of_N (next_expected st) + wire_delta st w = Z.of_N w + 65536 * k)%Z) /\
  (-32768 <= wire_delta st w <= 32767)%Z.
Proof.
  intros Hw. unfold wire_delta. rewrite wire_delta_low.
  unfold as_signed, wrapping_sub, wrap.
  change (2 ^ 16) with 65536. change (2 ^ (16 - 1)) with 32768.
  set (n := next_expected st).
  pose proof (N.div_mod n 65536 ltac:(lia)) as Hn.
  pose proof (N.mod_lt n 65536 ltac:(lia)) as Hr.
  set (r := n mod 65536) in *. set (q := n / 65536) in *.
  rewrite (N.mod_small r) by lia. rewrite N.Div0.mod_mod.
  destruct (N.le_gt_cases r w) as [Hle|Hgt].
  - replace (w + 65536 - r) with (w - r + 1 * 65536) by lia.
    rewrite N.Div0.mod_add, N.mod_small by lia.
    case_ifs; split; try lia; [exists (Z.of_N q) | exists (Z.of_N q - 1)%Z]; lia.
  - rewrite N.mod_small by lia.
    case_ifs; split; try lia; [exists (Z.of_N q + 1)%Z | exists (Z.of_N q)]; lia.
Qed.

Lemma as_signed_64_small n : n < 2 ^ 63 -> as_signed 64 n = Z.of_N n.
Proof.
  intros H. unfold as_signed. rewrite wrap_small by lia.
  change (2 ^ (64 - 1)) with (2 ^ 63). case_ifs; lia.
Qed.

(** The step in terms of the unclamped value. *)
Lemma expand_eq st w :
  expander_ok st ->
  let v := (Z.of_N (next_expected st) + wire_delta st w)%Z in
  expand st w =
    ({| next_expected := N.max (next_expected st) (Z.to_N (clampZ v 0 (Z.of_N SEQ_MAX)) + 1) |},
     Z.to_N (clampZ v 0 (Z.of_N SEQ_MAX))).
Proof.
  intros Hok v. unfold expander_ok in Hok. unfold expand.
  rewrite as_signed_64_small by lia. fold v.
  assert (Hb : Z.to_N (clampZ v 0 (Z.of_N SEQ_MAX)) <= SEQ_MAX).
  { unfold clampZ. case_ifs; lia. }
  pose proof SEQ_MAX_eq as HM. set (f := Z.to_N _) in *. rewrite HM in Hb.
  destruct (next_expected st <=? f) eqn:E; reflectN.
  - rewrite wrap_small by lia. rewrite N.max_r by lia. reflexivity.
  - destruct st as [n]; simpl in *. rewrite N.max_l by lia. reflexivity.
Qed.

Lemma expand_ok st w : expander_ok st -> expander_ok (fst (expand st w)).
Proof.
  intros Hok. rewrite expand_eq by done. unfold expander_ok in *.
  cbn [fst next_expected]. pose proof SEQ_MAX_eq. unfold clampZ. case_ifs; lia.
Qed.

Lemma expand_in_window st s :
  expander_ok st -> in_window (next_expected st) s = true ->
  expand st (to_wire s) =
    ({| next_expected := N.max (next_expected st) (s + 1) |}, s).
Proof.
  intros Hok Hw. unfold in_window in Hw. reflectN.
  assert (Hlt : to_wire s < 65536) by (apply N.mod_lt; done).
  destruct (wire_delta_spec st (to_wire s) Hlt) as [[k Hk] Hd].
  assert (Hv : (Z.of_N (next_expected st) + wire_delta st (to_wire s))%Z = Z.of_N s).
  { unfold to_wire in *. change (2 ^ WIRE_SEQ_BITS) with 65536 in *.
    pose proof (N.div_mod s 65536 ltac:(lia)). lia. }
  rewrite expand_eq by done. cbv zeta. rewrite Hv.
  unfold clampZ. case_ifs; rewrite ?N2Z.id; try lia; reflexivity.
Qed.

Lemma expand_all_window st ss :
  expander_ok st -> window_stream (next_expected st) ss = true ->
  snd (expand_all st (map to_wire ss)) = ss.
Proof.
  revert st. induction ss as [|s ss IH]; intros st Hok Hw; [done|].
  cbn [window_stream] in Hw. apply andb_true_iff in Hw as [Hs Hss].
  cbn [map expand_all]. rewrite expand_in_window by done.
  assert (Hok' : expander_ok (mkSeqExpander (N.max (next_expected st) (s + 1)))).
  { pose proof (expand_ok st (to_wire s) Hok) as H.
    by rewrite expand_in_window in H. }
  specialize (IH _ Hok' Hss).
  destruct (expand_all _ _) as [st2 fs]; simpl in *. by rewrite IH.
Qed.

(** ** Properties *)

(** C14: a receiver whose packets arrive in any order, with losses and
    duplicates, recovers every full sequence number from its 16-bit wire field
    as long as each packet is within the window of 32 768 behind and 32 767
    ahead of the expected one when it arrives. *)
Theorem expand_recovers_stream (ss : list N) :
  window_stream 0 ss = true ->
  snd (expand_all new (map to_wire ss)) = ss.
Proof. apply (expand_all_window new), new_ok. Qed.

Lemma expand_recovers_stream_witness :
  window_stream 0 [1; 0; 3; 3; 32000; 2; 64767; 65540] = true /\
  snd (expand_all new (map to_wire [1; 0; 3; 3; 32000; 2; 64767; 65540])) =
    [1; 0; 3; 3; 32000; 2; 64767; 65540].
Proof.
  split; [vm_compute; reflexivity|].
  apply (expand_recovers_stream [1; 0; 3; 3; 32000; 2; 64767; 65540]).
  vm_compute; reflexivity.
Defined.

(** from any state a session reaches, an arbitrary 16-bit field leaves the
    expected number at the maximum of its old value and one past the returned
    number (it never goes back), the returned number is a 47-bit one, and
    unless the value was clamped at an end of the 47-bit space it carries the
    wire bits and lies within the window. *)
Theorem expand_step_spec (st : SeqExpander) (w : N) :
  expander_ok st -> w < 2 ^ 16 ->
  let r := expand st w in
  next_expected (fst r) = N.max (next_expected st) (snd r + 1) /\
  snd r <= SEQ_MAX /\ expander_ok (fst r) /\
  (32768 <= next_expected st -> next_expected st + 32767 <= SEQ_MAX ->
   to_wire (snd r) = w /\ in_window (next_expected st) (snd r) = true).
Proof.
  intros Hok Hw r. pose proof (expand_ok st w Hok) as Hok'. subst r.
  rewrite expand_eq in * by done. cbn [fst snd next_expected] in *.
  split; [done|]. split; [unfold clampZ; case_ifs; lia|]. split; [done|].
  intros Hlo Hhi.
  destruct (wire_delta_spec st w Hw) as [[k Hk] Hd].
  set (v := (_ + _)%Z) in *.
  assert (Hv : clampZ v 0 (Z.of_N SEQ_MAX) = v) by (unfold clampZ; case_ifs; lia).
  rewrite Hv. split.
  - unfold to_wire. change (2 ^ WIRE_SEQ_BITS) with 65536.
    apply N2Z.inj. rewrite N2Z.inj_mod, Z2N.id, Hk by lia.
    change (Z.of_N 65536) with 65536%Z.
    rewrite Z.mul_comm, Z_mod_plus_full, Z.mod_small; lia.
  - unfold in_window. rewrite !andb_true_iff, !N.leb_le. lia.
Qed.

Lemma expand_step_spec_witness :
  let st := {| next_expected := 70000 |} in
  let r := expand st 65000 in
  next_expected (fst r) = N.max 70000 (snd r + 1) /\
  snd r <= SEQ_MAX /\ expander_ok (fst r) /\
  (32768 <= 70000 -> 70000 + 32767 <= SEQ_MAX ->
   to_wire (snd r) = 65000 /\ in_window 70000 (snd r) = true).
Proof.
  apply (expand_step_spec {| next_expected := 70000 |} 65000);
    [vm_compute; discriminate | vm_compute; reflexivity].
Defined.

(** near the start of a session the lower clamp breaks the promise of the
    doc comment on [expand]: a wire value of the upper half expands to 0, whose
    low bits are not the wire value, and it collides with packet 0 itself. *)
Theorem expand_clamps_to_zero (w : N) :
  32768 < w < 65536 ->
  expand new w = ({| next_expected := 1 |}, 0) /\
  to_wire (snd (expand new w)) <> w /\
  expand new w = expand new 0.
Proof.
  intros Hw.
  assert (H : expand new w = ({| next_expected := 1 |}, 0)).
  { rewrite expand_eq by apply new_ok. cbv zeta.
    destruct (wire_delta_spec new w ltac:(lia)) as [[k Hk] Hd].
    set (v := (_ + _)%Z) in *. simpl next_expected in *.
    unfold clampZ. case_ifs; [done|exfalso; lia|exfalso; lia]. }
  rewrite H. split; [done|]. split; [|vm_compute; reflexivity].
  simpl. change (to_wire 0) with 0. lia.
Qed.

Lemma expand_clamps_to_zero_witness :
  expand new 65535 = ({| next_expected := 1 |}, 0) /\
  to_wire (snd (expand new 65535)) <> 65535 /\
  expand new 65535 = expand new 0.
Proof. apply (expand_clamps_to_zero 65535). lia. Defined.
