(* ===== verification/Path.v ===== *)
(** Path-challenge / path-response migration: [core/lbtp/src/path.rs]. *)
From stdpp Require Import vector.
From S2P Require Import Prelude RetryTimer.
#[local] Open Scope N_scope.

(** [[u8; 8]]. *)
Abbreviation ChallengeToken := (vec Byte.byte 8).

Definition CHALLENGE_TIMEOUT_TICKS : N := 10.
Definition MAX_CHALLENGE_RETRIES : N := 3.

Record PathChallengeFrame := mkChallenge { challenge_token : ChallengeToken }.
Record PathResponseFrame := mkResponse { response_token : ChallengeToken }.

Inductive MigrationEvent :=
| Retransmit (frame : PathChallengeFrame)
| Migrated_event
| Failed_event.

Inductive MigrationState :=
| Idle
| Probing (token : ChallengeToken) (retries_left ticks_remaining : N)
| Migrated
| Failed.

Record PathMigrationController := mkController { state : MigrationState }.

Definition new : PathMigrationController := {| state := Idle |}.

Definition start (c : PathMigrationController) (token : ChallengeToken) :
    PathMigrationController * PathChallengeFrame :=
  ({| state := Probing token MAX_CHALLENGE_RETRIES CHALLENGE_TIMEOUT_TICKS |},
   {| challenge_token := token |}).

Definition tick (c : PathMigrationController) :
    PathMigrationController * option MigrationEvent :=
  match state c with
  | Probing token retries_left ticks_remaining =>
      if 0 <? ticks_remaining
      then ({| state := Probing token retries_left (ticks_remaining - 1) |}, None)
      else if retries_left =? 0
      then ({| state := Failed |}, Some Failed_event)
      else ({| state := Probing token (retries_left - 1) CHALLENGE_TIMEOUT_TICKS |},
            Some (Retransmit {| challenge_token := token |}))
  | _ => (c, None)
  end.

Definition on_response (c : PathMigrationController) (response : PathResponseFrame) :
    PathMigrationController * option MigrationEvent :=
  match state c with
  | Probing token _ _ =>
      if decide (response_token response = token)
      then ({| state := Migrated |}, Some Migrated_event)
      else (c, None)
  | _ => (c, None)
  end.

Definition is_migrated (c : PathMigrationController) : bool :=
  match state c with Migrated => true | _ => false end.

Definition is_failed (c : PathMigrationController) : bool :=
  match state c with Failed => true | _ => false end.

Definition is_probing (c : PathMigrationController) : bool :=
  match state c with Probing _ _ _ => true | _ => false end.

(** The calls a transport makes on one controller. *)
Inductive Call :=
| CStart (token : ChallengeToken)
| CTick
| CResponse (token : ChallengeToken).

Definition call (c : PathMigrationController) (k : Call) : PathMigrationController :=
  match k with
  | CStart token => fst (start c token)
  | CTick => fst (tick c)
  | CResponse token => fst (on_response c {| response_token := token |})
  end.

Definition calls (ks : list Call) : PathMigrationController := fold_left call ks new.

Definition is_start (k : Call) : bool :=
  match k with CStart _ => true | _ => false end.

(** ** The retry-timer interface *)
#[export] Instance path_timer : RetryTimer PathMigrationController MigrationEvent := {
  rt_view c := match state c with Probing _ r t => Some (r, t) | _ => None end;
  rt_tick := tick;
  rt_timeout := CHALLENGE_TIMEOUT_TICKS;
  rt_retransmit c e :=
    match state c with
    | Probing token _ _ => e = Retransmit {| challenge_token := token |}
    | _ => False
    end;
  rt_give_up _ e := e = Failed_event;
}.

#[export] Instance path_timer_laws : RetryTimerLaws PathMigrationController MigrationEvent.
Proof.
  split; intros [[|token r' t'| |]]; simpl; try done;
    try (by intros e []); unfold tick; simpl.
  - intros r t [= -> ->] Ht. rewrite (proj2 (N.ltb_lt _ _)) by done. done.
  - intros r [= -> ->] Hr. simpl. rewrite (proj2 (N.eqb_neq _ _)) by lia. eauto.
  - intros [= -> ->]. simpl. eauto.
  - intros e _. case_ifs; simpl; auto; by split; intros.
Qed.

(** ** Lemmas *)
Lemma tick_state c :
  match state (fst (tick c)) with
  | Idle => state c = Idle
  | Probing token _ _ => exists r t, state c = Probing token r t
  | Migrated => state c = Migrated
  | Failed => is_probing c = true \/ state c = Failed
  end.
Proof.
  destruct c as [[|token r t| |]]; simpl; auto. unfold tick; simpl.
  case_ifs; simpl; eauto.
Qed.

Lemma on_response_state c p :
  match state (fst (on_response c p)) with
  | Migrated => state c = Migrated \/ exists r t, state c = Probing (response_token p) r t
  | s => state c = s
  end.
Proof.
  destruct c as [[|token r t| |]]; simpl; auto. unfold on_response; simpl.
  destruct (decide _) as [<-|]; simpl; eauto.
Qed.

Lemma failed_is_final n :
  fst (run_ticks tick n {| state := Failed |}) = {| state := Failed |}.
Proof. induction n as [|n IH]; [done|]. by rewrite run_ticks_S. Qed.

(** What the calls made so far say about the state. *)
Definition explained (ks : list Call) (s : MigrationState) : Prop :=
  match s with
  | Probing token _ _ =>
      exists pre mid, ks = pre ++ CStart token :: mid /\ forallb (negb ∘ is_start) mid = true
  | Migrated =>
      exists pre mid post token,
        ks = pre ++ CStart token :: mid ++ CResponse token :: post /\
        forallb (negb ∘ is_start) (mid ++ post) = true
  | _ => True
  end.

Lemma explained_snoc ks s k :
  is_start k = false -> explained ks s -> explained (ks ++ [k]) s.
Proof.
  intros Hk. destruct s as [|token r t| |]; simpl; auto.
  - intros (pre & mid & -> & Hm). exists pre, (mid ++ [k]).
    rewrite <- app_assoc. split; [done|]. rewrite forallb_app, Hm. simpl. by rewrite Hk.
  - intros (pre & mid & post & token & -> & Hm). exists pre, mid, (post ++ [k]), token.
    split; [by rewrite <- !app_assoc; simpl; rewrite <- app_assoc|].
    rewrite app_assoc, forallb_app, Hm. simpl. by rewrite Hk.
Qed.

Lemma calls_explained ks : explained ks (state (calls ks)).
Proof.
  unfold calls. induction ks as [|k ks IH] using rev_ind; [done|].
  rewrite fold_left_app. set (c := fold_left call ks new) in *.
  destruct k as [token| |token]; cbn [fold_left call].
  - simpl. exists ks, []. done.
  - pose proof (tick_state c) as Ht. cbn [is_start] in *.
    destruct (state (fst (tick c))) as [|tk r t| |] eqn:E; try done.
    + destruct Ht as (r' & t' & Hc). rewrite Hc in IH.
      by apply (explained_snoc ks (Probing tk r' t') CTick).
    + rewrite Ht in IH. by apply explained_snoc.
  - pose proof (on_response_state c {| response_token := token |}) as Ht.
    destruct (state (fst (on_response c _))) as [|tk r t| |] eqn:E; try done.
    + rewrite Ht in IH. by apply (explained_snoc ks _ (CResponse token)).
    + destruct Ht as [Hc|(r & t & Hc)]; rewrite Hc in IH.
      * by apply explained_snoc.
      * destruct IH as (pre & mid & -> & Hm).
        exists pre, mid, [], token. simpl. rewrite app_nil_r, <- app_assoc. done.
Qed.

(** ** Properties *)

(** a session migrates only on proof of the path: whenever the controller
    reports [is_migrated], the peer has echoed the token of the most recent
    [start], and that response came after that start. *)
Theorem migrated_needs_echo (ks : list Call) :
  is_migrated (calls ks) = true ->
  exists pre mid post token,
    ks = pre ++ CStart token :: mid ++ CResponse token :: post /\
    forallb (negb ∘ is_start) (mid ++ post) = true.
Proof.
  intros H. pose proof (calls_explained ks) as He. unfold is_migrated in H.
  by destruct (state (calls ks)).
Qed.

Lemma migrated_needs_echo_witness :
  let t1 : ChallengeToken := vreplicate 8 Byte.x01 in
  let t2 : ChallengeToken := vreplicate 8 Byte.x02 in
  let ks := [CStart t1; CTick; CStart t2; CResponse t1; CTick; CResponse t2; CTick] in
  is_migrated (calls ks) = true /\
  exists pre mid post token,
    ks = pre ++ CStart token :: mid ++ CResponse token :: post /\
    forallb (negb ∘ is_start) (mid ++ post) = true.
Proof.
  split; [vm_compute; reflexivity|].
  apply migrated_needs_echo. vm_compute; reflexivity.
Defined.

(** an unanswered challenge is re-sent, with the same token, exactly
    [MAX_CHALLENGE_RETRIES] times, and the controller fails at tick
    (MAX_CHALLENGE_RETRIES + 1) * (CHALLENGE_TIMEOUT_TICKS + 1) = 44 and not
    before: it is probing after [n] ticks just when [n < 44]. *)
Theorem unanswered_challenge_fails (c : PathMigrationController) (token : ChallengeToken) :
  let c0 := fst (start c token) in
  (exists s',
     run_ticks tick 44 c0 =
       (s', replicate 3 (Retransmit {| challenge_token := token |}) ++ [Failed_event]) /\
     is_failed s' = true) /\
  (forall n, is_probing (fst (run_ticks tick n c0)) = bool_decide (n < 44)%nat).
Proof.
  intros c0.
  assert (H44 : fst (run_ticks tick 44 c0) = {| state := Failed |}) by reflexivity.
  split; [eexists; split; reflexivity|].
  intros n. destruct (decide (n < 44)%nat) as [Hn|Hn].
  - rewrite bool_decide_true by done.
    destruct (rt_within_budget n c0 MAX_CHALLENGE_RETRIES CHALLENGE_TIMEOUT_TICKS)
      as (r & t & Hv & _); [done| |].
    + change (tick_budget _ _ _) with 43. lia.
    + simpl in Hv. unfold is_probing. by destruct (state _).
  - rewrite bool_decide_false by done.
    replace n with (44 + (n - 44))%nat by lia.
    rewrite run_ticks_add, H44. cbn [fst]. by rewrite failed_is_final.
Qed.
