(* ===== verification/Mtu.v ===== *)
(** Path MTU discovery: [core/lbtp/src/mtu.rs]. *)
From S2P Require Import Prelude RetryTimer.
#[local] Open Scope N_scope.

Definition MTU_BASE_BYTES : N := 1200.
Definition MTU_PROBE_STEPS : list N := [1400; 1452; 1500].
Definition MTU_PROBE_TIMEOUT_TICKS : N := 10.
Definition MTU_PROBE_MAX_RETRIES : N := 3.
Definition LBTP_OVERHEAD : N := 19.

Record MtuProbeFrame := mkProbeFrame { target_mtu : N; payload_bytes : N }.

Inductive MtuEvent :=
| Retransmit (frame : MtuProbeFrame)
| MtuRaised (new_mtu : N)
| ProbeFailed (target_mtu : N).

Inductive MtuState :=
| Idle (next_step_idx : nat)
| Probing (target_mtu : N) (step_idx : nat) (retries_left ticks_remaining : N)
| Complete.

Record PathMtuController := mkController { path_mtu : N; state : MtuState }.

Definition new : PathMtuController :=
  {| path_mtu := MTU_BASE_BYTES; state := Idle 0 |}.

(** [N] subtraction stops at 0, as [saturating_sub] does. *)
Definition make_probe (target_mtu : N) : MtuProbeFrame :=
  {| target_mtu := target_mtu; payload_bytes := target_mtu - LBTP_OVERHEAD |}.

Definition is_complete (c : PathMtuController) : bool :=
  match state c with Complete => true | _ => false end.

Definition is_probing (c : PathMtuController) : bool :=
  match state c with Probing _ _ _ _ => true | _ => false end.

Definition start_probe (c : PathMtuController) : PathMtuController * option MtuProbeFrame :=
  let probe_from next_step_idx :=
    match MTU_PROBE_STEPS !! next_step_idx with
    | None => ({| path_mtu := path_mtu c; state := Complete |}, None)
    | Some target_mtu =>
        ({| path_mtu := path_mtu c;
            state := Probing target_mtu next_step_idx
                       MTU_PROBE_MAX_RETRIES MTU_PROBE_TIMEOUT_TICKS |},
         Some (make_probe target_mtu))
    end in
  match state c with
  | Idle next_step_idx => probe_from next_step_idx
  | Probing _ step_idx _ _ => probe_from step_idx
  | Complete => (c, None)
  end.

Definition tick (c : PathMtuController) : PathMtuController * option MtuEvent :=
  match state c with
  | Probing target_mtu step_idx retries_left ticks_remaining =>
      let set s := {| path_mtu := path_mtu c; state := s |} in
      if 0 <? ticks_remaining
      then (set (Probing target_mtu step_idx retries_left (ticks_remaining - 1)), None)
      else if retries_left =? 0
      then (set (Idle step_idx), Some (ProbeFailed target_mtu))
      else (set (Probing target_mtu step_idx (retries_left - 1) MTU_PROBE_TIMEOUT_TICKS),
            Some (Retransmit (make_probe target_mtu)))
  | _ => (c, None)
  end.

Definition on_probe_acked (c : PathMtuController) (acked_mtu : N) :
    PathMtuController * option MtuEvent :=
  match state c with
  | Probing target_mtu step_idx _ _ =>
      if negb (acked_mtu =? target_mtu) then (c, None)
      else
        let next_idx := S step_idx in
        ({| path_mtu := target_mtu;
            state := if (length MTU_PROBE_STEPS <=? next_idx)%nat
                     then Complete else Idle next_idx |},
         Some (MtuRaised target_mtu))
  | _ => (c, None)
  end.

(** ** The controller as a transition system

    One transition per public call, labelled with the acknowledged size when
    the call raises the MTU. *)
Inductive step : PathMtuController -> option N -> PathMtuController -> Prop :=
| step_start c : step c None (fst (start_probe c))
| step_tick c : step c None (fst (tick c))
| step_ack c acked :
    step c (match snd (on_probe_acked c acked) with Some (MtuRaised m) => Some m | _ => None end)
      (fst (on_probe_acked c acked)).

(** States reachable from [new], with the sizes confirmed on the way. *)
Inductive reach : list N -> PathMtuController -> Prop :=
| reach_new : reach [] new
| reach_step sizes c l c' :
    reach sizes c -> step c l c' ->
    reach (sizes ++ match l with Some m => [m] | None => [] end) c'.

(** The abstract contract: after [k] confirmed rungs the MTU is the [k]-th size
    of the ladder and the controller works on rung [k]. *)
Definition ladder : list N := MTU_BASE_BYTES :: MTU_PROBE_STEPS.

Definition on_rung (k : nat) (c : PathMtuController) : Prop :=
  ladder !! k = Some (path_mtu c) /\
  match state c with
  | Idle i => i = k /\ (k < 3)%nat
  | Probing target i r t =>
      i = k /\ MTU_PROBE_STEPS !! k = Some target /\
      r <= MTU_PROBE_MAX_RETRIES /\ t <= MTU_PROBE_TIMEOUT_TICKS
  | Complete => k = 3%nat
  end.

(** ** The retry-timer interface *)
#[export] Instance mtu_timer : RetryTimer PathMtuController MtuEvent := {
  rt_view c := match state c with Probing _ _ r t => Some (r, t) | _ => None end;
  rt_tick := tick;
  rt_timeout := MTU_PROBE_TIMEOUT_TICKS;
  rt_retransmit c e :=
    match state c with
    | Probing target _ _ _ => e = Retransmit (make_probe target)
    | _ => False
    end;
  rt_give_up c e :=
    match state c with
    | Probing target _ _ _ => e = ProbeFailed target
    | _ => False
    end;
}.

#[export] Instance mtu_timer_laws : RetryTimerLaws PathMtuController MtuEvent.
Proof.
  split; intros [m [i|target i r' t'|]]; simpl; try done;
    try (by intros e []); unfold tick; simpl.
  - intros r t [= -> ->] Ht. rewrite (proj2 (N.ltb_lt _ _)) by done. done.
  - intros r [= -> ->] Hr. simpl. rewrite (proj2 (N.eqb_neq _ _)) by lia. eauto.
  - intros [= -> ->]. simpl. eauto.
  - intros e _. case_ifs; simpl; auto; by split; intros.
Qed.

(** ** Lemmas *)
Lemma steps_lt k target : MTU_PROBE_STEPS !! k = Some target -> (k < 3)%nat.
Proof. intros H. by apply lookup_lt_Some in H. Qed.

Lemma ladder_S k target : MTU_PROBE_STEPS !! k = Some target -> ladder !! S k = Some target.
Proof. done. Qed.

Lemma start_rung k c : on_rung k c -> on_rung k (fst (start_probe c)).
Proof.
  destruct c as [m [i|target i r t|]]; unfold start_probe; simpl; intros [Hm Hs].
  - destruct Hs as [-> Hk]. destruct (MTU_PROBE_STEPS !! k) as [x|] eqn:E.
    + unfold on_rung; simpl. rewrite E. by split_and!.
    + apply lookup_ge_None in E. simpl in E. lia.
  - destruct Hs as (-> & E & _). rewrite E. unfold on_rung; simpl. by split_and!.
  - done.
Qed.

Lemma tick_rung k c : on_rung k c -> on_rung k (fst (tick c)).
Proof.
  destruct c as [m [i|target i r t|]]; unfold tick; simpl; intros [Hm Hs]; try done.
  destruct Hs as (-> & E & Hr & Ht). apply steps_lt in E as Hk.
  case_ifs; unfold on_rung; simpl; split_and!; auto; lia.
Qed.

Lemma ack_rung k c acked :
  on_rung k c ->
  match snd (on_probe_acked c acked) with
  | Some e => e = MtuRaised acked /\ ladder !! S k = Some acked /\
              on_rung (S k) (fst (on_probe_acked c acked))
  | None => fst (on_probe_acked c acked) = c
  end.
Proof.
  destruct c as [m [i|target i r t|]]; unfold on_probe_acked; simpl; intros [Hm Hs]; try done.
  destruct Hs as (-> & E & _). apply steps_lt in E as Hk.
  destruct (N.eqb_spec acked target) as [->|]; [|done]. simpl.
  destruct (decide (k = 2)%nat) as [->|Hne].
  - simpl. by split_and!.
  - destruct k as [|[|]]; try lia; simpl; split_and!; auto;
      unfold on_rung; simpl; split_and!; auto; lia.
Qed.

Lemma reach_rung sizes c :
  reach sizes c -> sizes = take (length sizes) MTU_PROBE_STEPS /\ on_rung (length sizes) c.
Proof.
  induction 1 as [|sizes c l c' _ [IHs IHr] Hstep].
  - split; [done|]. unfold on_rung; simpl. split_and!; auto; lia.
  - destruct Hstep as [c|c|c acked].
    + rewrite app_nil_r. auto using start_rung.
    + rewrite app_nil_r. auto using tick_rung.
    + pose proof (ack_rung _ _ acked IHr) as Ha.
      destruct (snd (on_probe_acked c acked)) as [e|].
      * destruct Ha as (-> & Hl & Hr'). rewrite length_app, Nat.add_1_r.
        split; [|done]. rewrite (take_S_r _ _ acked) by done. by rewrite <- IHs.
      * rewrite app_nil_r, Ha. done.
Qed.

(** ** Properties *)

(** in every reachable state the sizes confirmed by the peer are a prefix
    of the probe ladder, in its order, and [path_mtu] is the last of them (or
    the 1200-byte base): no call raises the MTU without an acknowledgement of
    exactly the size in flight, and no call lowers it. *)
Theorem mtu_is_last_confirmed (sizes : list N) (c : PathMtuController) :
  reach sizes c ->
  sizes `prefix_of` MTU_PROBE_STEPS /\ path_mtu c = default MTU_BASE_BYTES (last sizes) /\
  (is_complete c = true <-> sizes = MTU_PROBE_STEPS).
Proof.
  intros H. apply reach_rung in H as [Hs [Hl Hst]].
  assert (Hlen : (length sizes <= 3)%nat).
  { rewrite Hs, length_take. simpl. lia. }
  split_and!.
  - rewrite Hs. apply prefix_take.
  - destruct (length sizes) as [|[|[|[|]]]] eqn:E; try lia;
      rewrite Hs; simpl in Hl; simplify_eq; done.
  - unfold is_complete. destruct (state c) as [i|target i r t|]; split; intros Hc; try done.
    + rewrite Hc in Hst. simpl in Hst. lia.
    + rewrite Hc in Hst. by destruct Hst as (_ & ? & _).
    + rewrite Hs, Hst. done.
Qed.

Lemma mtu_is_last_confirmed_witness :
  exists c, reach [1400] c /\
    [1400] `prefix_of` MTU_PROBE_STEPS /\ path_mtu c = default MTU_BASE_BYTES (last [1400]) /\
    (is_complete c = true <-> [1400] = MTU_PROBE_STEPS).
Proof.
  set (c1 := fst (start_probe new)). set (c2 := fst (on_probe_acked c1 1400)).
  assert (H : reach [1400] c2).
  { apply (reach_step [] c1 (Some 1400) c2).
    - apply (reach_step [] new None c1); [apply reach_new | apply step_start].
    - exact (step_ack c1 1400). }
  exists c2. split; [exact H|]. exact (mtu_is_last_confirmed [1400] c2 H).
Defined.

(** a probe of any step that nobody acknowledges is re-sent three times and
    fails at tick 44, with [path_mtu] unchanged; the controller then offers the
    same size again, on the last step too (the doc comment of [start_probe]
    promises [None] there). *)
Theorem unacked_probe_fails_and_restarts (c : PathMtuController) (frame : MtuProbeFrame) :
  snd (start_probe c) = Some frame ->
  let c0 := fst (start_probe c) in
  let r := run_ticks tick 44 c0 in
  snd r = replicate 3 (Retransmit frame) ++ [ProbeFailed (target_mtu frame)] /\
  path_mtu (fst r) = path_mtu c /\ is_probing (fst r) = false /\
  snd (start_probe (fst r)) = Some frame /\
  payload_bytes frame = target_mtu frame - 19.
Proof.
  assert (Haux : forall m idx x, MTU_PROBE_STEPS !! idx = Some x ->
    let c0 := {| path_mtu := m; state := Probing x idx
                   MTU_PROBE_MAX_RETRIES MTU_PROBE_TIMEOUT_TICKS |} in
    run_ticks tick 44 c0 =
      ({| path_mtu := m; state := Idle idx |},
       replicate 3 (Retransmit (make_probe x)) ++ [ProbeFailed x])).
  { reflexivity. }
  destruct c as [m st]. unfold start_probe. cbn [state path_mtu].
  destruct st as [i|target i rl t|]; [| |done];
    (destruct (MTU_PROBE_STEPS !! i) as [x|] eqn:E; [|done]);
    cbn [snd fst]; intros [= <-]; cbv zeta;
    rewrite (Haux m i x E); cbn [fst snd path_mtu state is_probing]; by rewrite E.
Qed.

Lemma unacked_probe_fails_and_restarts_witness :
  let c := {| path_mtu := 1452; state := Idle 2 |} in
  let frame := {| target_mtu := 1500; payload_bytes := 1481 |} in
  let c0 := fst (start_probe c) in
  let r := run_ticks tick 44 c0 in
  snd r = replicate 3 (Retransmit frame) ++ [ProbeFailed (target_mtu frame)] /\
  path_mtu (fst r) = path_mtu c /\ is_probing (fst r) = false /\
  snd (start_probe (fst r)) = Some frame /\
  payload_bytes frame = target_mtu frame - 19.
Proof.
  apply (unacked_probe_fails_and_restarts {| path_mtu := 1452; state := Idle 2 |}
    {| target_mtu := 1500; payload_bytes := 1481 |}).
  vm_compute; reflexivity.
Defined.
