(* ===== verification/NatTraversal.v ===== *)
(** What keeps a NAT binding open and makes one: [core/lbtp/src/nat_keepalive.rs] in
    Module [NatKeepalive], [core/lbtp/src/hole_punch.rs] in Module [HolePunch]. *)
From S2P Require Import Prelude RetryTimer.
#[local] Open Scope N_scope.

(** NAT keepalive timer: [core/lbtp/src/nat_keepalive.rs]. *)
Module NatKeepalive.
Definition NAT_KEEPALIVE_MIN_TICKS : N := 150.
Definition NAT_KEEPALIVE_MAX_TICKS : N := 250.

Inductive KeepaliveEvent := Keepalive.

Record NatKeepaliveController := mkController { ticks_remaining : N }.

Definition new (interval_ticks : N) : NatKeepaliveController :=
  {| ticks_remaining :=
       clampN interval_ticks NAT_KEEPALIVE_MIN_TICKS NAT_KEEPALIVE_MAX_TICKS |}.

Definition tick (c : NatKeepaliveController) :
    NatKeepaliveController * option KeepaliveEvent :=
  if ticks_remaining c =? 0 then (c, None)
  else
    let left := ticks_remaining c - 1 in
    ({| ticks_remaining := left |}, if left =? 0 then Some Keepalive else None).

Definition reset (c : NatKeepaliveController) (interval_ticks : N) :
    NatKeepaliveController :=
  {| ticks_remaining :=
       clampN interval_ticks NAT_KEEPALIVE_MIN_TICKS NAT_KEEPALIVE_MAX_TICKS |}.

(** The event loop of the module documentation: tick once per control
    interval and, on a keepalive, re-arm with the next jittered interval drawn
    by [jitter] (the CSPRNG of the transport). *)
Fixpoint event_loop (jitter : nat -> N) (drawn n : nat) (c : NatKeepaliveController) :
    list (option KeepaliveEvent) :=
  match n with
  | O => []
  | S n =>
      let '(c1, e) := tick c in
      e :: match e with
           | Some Keepalive => event_loop jitter (S drawn) n (reset c1 (jitter drawn))
           | None => event_loop jitter drawn n c1
           end
  end.

Lemma tick_armed k :
  0 < k ->
  tick {| ticks_remaining := k |} =
    ({| ticks_remaining := k - 1 |}, if k - 1 =? 0 then Some Keepalive else None).
Proof. intros Hk. unfold tick; simpl. by rewrite (proj2 (N.eqb_neq k 0)) by lia. Qed.

Lemma tick_run c n :
  N.of_nat n < ticks_remaining c ->
  run_ticks tick n c = ({| ticks_remaining := ticks_remaining c - N.of_nat n |}, []).
Proof.
  revert c. induction n as [|n IH]; intros [k] Hn; cbn [ticks_remaining] in *.
  - simpl. by rewrite N.sub_0_r.
  - rewrite run_ticks_S, tick_armed by lia. cbn [fst snd].
    rewrite (proj2 (N.eqb_neq (k - 1) 0)) by lia.
    rewrite IH by (cbn [ticks_remaining]; lia). cbn. do 2 f_equal. lia.
Qed.

Lemma tick_disarmed n :
  run_ticks tick n {| ticks_remaining := 0 |} = ({| ticks_remaining := 0 |}, []).
Proof. induction n as [|n IH]; [done|]. rewrite run_ticks_S. simpl. by rewrite IH. Qed.

Lemma tick_fires k :
  0 < k ->
  run_ticks tick (N.to_nat k) {| ticks_remaining := k |} =
    ({| ticks_remaining := 0 |}, [Keepalive]).
Proof.
  intros Hk.
  replace (N.to_nat k) with (N.to_nat (k - 1) + 1)%nat by lia.
  rewrite run_ticks_add, (tick_run _ (N.to_nat (k - 1))) by (cbn [ticks_remaining]; lia).
  cbn [fst snd ticks_remaining]. rewrite run_ticks_S, N2Nat.id.
  replace (k - (k - 1)) with 1 by lia. done.
Qed.

(** The gap between keepalives: no [n] consecutive intervals without one. *)
Lemma event_loop_gap jitter n : forall drawn c pre rest,
  0 < ticks_remaining c <= NAT_KEEPALIVE_MAX_TICKS ->
  event_loop jitter drawn n c = pre ++ rest ->
  Forall (eq None) pre -> lenN pre < ticks_remaining c.
Proof.
  induction n as [|n IH]; intros drawn [k] pre rest Hc He Hf; simpl in *.
  - destruct pre; [rewrite lenN_nil; lia|done].
  - unfold tick in He; simpl in He. rewrite (proj2 (N.eqb_neq k 0)) in He by lia.
    destruct pre as [|o pre]; [rewrite lenN_nil; lia|].
    inversion Hf as [|? ? <- Hf']; subst. rewrite lenN_cons.
    destruct (N.eqb_spec (k - 1) 0) as [Hk|Hk]; [done|].
    injection He as He. apply (IH _ {| ticks_remaining := k - 1 |}) in He; simpl in *; auto; lia.
Qed.

Lemma event_loop_windows jitter n : forall drawn c pre mid rest,
  0 < ticks_remaining c <= NAT_KEEPALIVE_MAX_TICKS ->
  event_loop jitter drawn n c = pre ++ mid ++ rest ->
  Forall (eq None) mid -> lenN mid < NAT_KEEPALIVE_MAX_TICKS.
Proof.
  induction n as [|n IH]; intros drawn [k] pre mid rest Hc He Hf; simpl in *.
  - destruct pre, mid; try done.
  - destruct pre as [|o pre].
    + assert (event_loop jitter drawn (S n) {| ticks_remaining := k |} = mid ++ rest) as He' by done.
      apply event_loop_gap in He'; simpl in *; auto; lia.
    + unfold tick in He; simpl in He. rewrite (proj2 (N.eqb_neq k 0)) in He by lia.
      injection He as _ He.
      destruct (N.eqb_spec (k - 1) 0) as [Hk|Hk].
      * apply IH in He; auto. simpl.
        pose proof (clampN_bounds (jitter drawn) NAT_KEEPALIVE_MIN_TICKS
                      NAT_KEEPALIVE_MAX_TICKS ltac:(done)).
        unfold NAT_KEEPALIVE_MIN_TICKS in *. lia.
      * apply IH in He; simpl in *; auto; lia.
Qed.

(** ** Properties *)

(** the timer fires exactly once, on the tick numbered by the interval
    clamped to 150..250, and stays silent until it is reset. *)
Theorem keepalive_fires_once (interval : N) (later : nat) :
  let k := clampN interval NAT_KEEPALIVE_MIN_TICKS NAT_KEEPALIVE_MAX_TICKS in
  150 <= k <= 250 /\
  (forall n, snd (run_ticks tick n (new interval)) =
             if N.of_nat n <? k then [] else [Keepalive]) /\
  run_ticks tick (N.to_nat k + later) (reset {| ticks_remaining := 0 |} interval) =
    ({| ticks_remaining := 0 |}, [Keepalive]).
Proof.
  intros k. pose proof (clampN_bounds interval NAT_KEEPALIVE_MIN_TICKS
    NAT_KEEPALIVE_MAX_TICKS ltac:(done)) as Hk. fold k in Hk.
  unfold NAT_KEEPALIVE_MIN_TICKS, NAT_KEEPALIVE_MAX_TICKS in Hk.
  assert (Hr : forall m, run_ticks tick (N.to_nat k + m) {| ticks_remaining := k |} =
    ({| ticks_remaining := 0 |}, [Keepalive])).
  { intros m. rewrite run_ticks_add. rewrite tick_fires by lia.
    simpl. by rewrite tick_disarmed. }
  split; [done|]. split; [|apply Hr].
  intros n. unfold new. fold k. case_ifs.
  - by rewrite tick_run.
  - replace n with (N.to_nat k + (n - N.to_nat k))%nat by lia. by rewrite Hr.
Qed.

(** in the documented event loop no NAT binding idles for 250 control
    ticks (25 s): whatever the jitter source draws, every window of silent
    ticks is shorter than [NAT_KEEPALIVE_MAX_TICKS]. *)
Theorem keepalive_gap_bounded (jitter : nat -> N) (first : N) (n : nat)
    (pre mid rest : list (option KeepaliveEvent)) :
  event_loop jitter 0 n (new first) = pre ++ mid ++ rest ->
  Forall (eq None) mid -> lenN mid < NAT_KEEPALIVE_MAX_TICKS.
Proof.
  apply event_loop_windows. simpl.
  pose proof (clampN_bounds first NAT_KEEPALIVE_MIN_TICKS NAT_KEEPALIVE_MAX_TICKS ltac:(done)).
  unfold NAT_KEEPALIVE_MIN_TICKS in *. lia.
Qed.

Lemma keepalive_gap_bounded_witness :
  lenN (replicate 149 (@None KeepaliveEvent)) < NAT_KEEPALIVE_MAX_TICKS.
Proof.
  apply (keepalive_gap_bounded (fun _ => 0) 1000 600
    (take 250 (event_loop (fun _ => 0) 0 600 (new 1000)))
    (replicate 149 None)
    (drop 399 (event_loop (fun _ => 0) 0 600 (new 1000)))).
  - vm_compute. reflexivity.
  - apply Forall_replicate. reflexivity.
Defined.
End NatKeepalive.

(** Paced UDP hole punching: [core/lbtp/src/hole_punch.rs]. *)
Module HolePunch.
Definition HOLE_PUNCH_PROBE_INTERVAL_TICKS : N := 5.
Definition HOLE_PUNCH_MAX_PROBES : N := 10.
Definition HOLE_PUNCH_PROBE_PAYLOAD_BYTES : N := 5.

Record HolePunchProbeFrame := mkFrame { payload : list byte }.

Inductive HolePunchEvent :=
| SendProbe (frame : HolePunchProbeFrame)
| Connected_event
| Failed_event.

Inductive HolePunchState :=
| Idle
| Probing (nonce probes_sent ticks_remaining : N)
| Connected
| Failed.

Record HolePunchController := mkController { state : HolePunchState }.

(** [n = nonce.to_le_bytes()], then [[n[0], n[1], n[2], n[3], seq]]. *)
Definition frame_new (nonce seq : N) : HolePunchProbeFrame :=
  {| payload := le_bytes 4 nonce ++ [byte_of seq] |}.

Definition new : HolePunchController := {| state := Idle |}.

Definition start (c : HolePunchController) (nonce : N) :
    HolePunchController * HolePunchProbeFrame :=
  ({| state := Probing nonce 1 HOLE_PUNCH_PROBE_INTERVAL_TICKS |}, frame_new nonce 0).

Definition tick (c : HolePunchController) : HolePunchController * option HolePunchEvent :=
  match state c with
  | Probing nonce probes_sent ticks_remaining =>
      if 0 <? ticks_remaining
      then ({| state := Probing nonce probes_sent (ticks_remaining - 1) |}, None)
      else if HOLE_PUNCH_MAX_PROBES <=? probes_sent
      then ({| state := Failed |}, Some Failed_event)
      else
        let seq := probes_sent in
        ({| state := Probing nonce (wrap 8 (probes_sent + 1)) HOLE_PUNCH_PROBE_INTERVAL_TICKS |},
         Some (SendProbe (frame_new nonce seq)))
  | _ => (c, None)
  end.

Definition on_probe_received (c : HolePunchController) :
    HolePunchController * option HolePunchEvent :=
  match state c with
  | Probing _ _ _ => ({| state := Connected |}, Some Connected_event)
  | _ => (c, None)
  end.

Definition is_connected (c : HolePunchController) : bool :=
  match state c with Connected => true | _ => false end.

Definition is_failed (c : HolePunchController) : bool :=
  match state c with Failed => true | _ => false end.

Definition is_probing (c : HolePunchController) : bool :=
  match state c with Probing _ _ _ => true | _ => false end.

Definition probes_sent_count (c : HolePunchController) : N :=
  match state c with
  | Probing _ probes_sent _ => probes_sent
  | Failed => HOLE_PUNCH_MAX_PROBES
  | _ => 0
  end.

(** ** Specification *)

(** The event of the [k]-th tick (counted from 1) after [start nonce] when no
    datagram arrives. *)
Definition expected_event (nonce k : N) : option HolePunchEvent :=
  if k =? 60 then Some Failed_event
  else if (k mod 6 =? 0) && (k <? 60) then Some (SendProbe (frame_new nonce (k / 6)))
  else None.

(** The calls of a transport on one controller; [received] says whether a
    datagram has arrived since the last [start]. *)
Inductive Call := CStart (nonce : N) | CTick | CReceived.

Definition call (c : HolePunchController) (k : Call) : HolePunchController :=
  match k with
  | CStart nonce => fst (start c nonce)
  | CTick => fst (tick c)
  | CReceived => fst (on_probe_received c)
  end.

Definition calls (ks : list Call) : HolePunchController := fold_left call ks new.

(** The state after [k] silent ticks. *)
Definition silent_state (nonce k : N) : HolePunchState :=
  if 60 <=? k then Failed else Probing nonce (k / 6 + 1) (5 - k mod 6).

(** ** Lemmas *)
Lemma frame_length nonce seq :
  lenN (payload (frame_new nonce seq)) = HOLE_PUNCH_PROBE_PAYLOAD_BYTES.
Proof. unfold lenN. simpl. done. Qed.

(** A receiver can read the nonce and the sequence number back. *)
Lemma frame_fields nonce seq :
  nonce < 2 ^ 32 -> seq < 2 ^ 8 ->
  le_value (take 4 (payload (frame_new nonce seq))) = nonce /\
  le_value (drop 4 (payload (frame_new nonce seq))) = seq.
Proof.
  intros Hn Hs. unfold frame_new; cbn [payload].
  rewrite take_app_length', drop_app_length' by (by rewrite le_bytes_length).
  rewrite le_value_bytes_small by done. split; [done|].
  simpl. rewrite to_N_byte_of, N.mod_small by done. lia.
Qed.

Lemma silent_step nonce k :
  k < 60 ->
  tick {| state := silent_state nonce k |} =
    ({| state := silent_state nonce (k + 1) |}, expected_event nonce (k + 1)).
Proof.
  intros Hk.
  assert (H : forall i : nat, (i < 60)%nat ->
    tick {| state := silent_state nonce (N.of_nat i) |} =
    ({| state := silent_state nonce (N.of_nat i + 1) |}, expected_event nonce (N.of_nat i + 1))).
  { intros i Hi. do 60 (destruct i as [|i]; [reflexivity|]). lia. }
  specialize (H (N.to_nat k) ltac:(lia)). by rewrite N2Nat.id in H.
Qed.

Lemma silent_run nonce c n :
  (n <= 60)%nat ->
  fst (run_ticks tick n (fst (start c nonce))) = {| state := silent_state nonce (N.of_nat n) |}.
Proof.
  intros Hn. induction n as [|n IH]; [done|].
  rewrite <- Nat.add_1_r, run_ticks_add, IH by lia. cbn [fst]. rewrite run_ticks_S.
  rewrite silent_step by lia. simpl. do 2 f_equal. lia.
Qed.

Lemma connected_stays ks c :
  is_connected c = true -> forallb (fun k => match k with CStart _ => false | _ => true end) ks = true ->
  is_connected (fold_left call ks c) = true.
Proof.
  revert c. induction ks as [|k ks IH]; intros c Hc Hks; [done|].
  cbn [forallb] in Hks. apply andb_true_iff in Hks as [Hk Hks].
  apply IH; [|done]. destruct c as [[]]; try done. by destruct k.
Qed.

(** ** Properties *)

(** without an answer, the tick events after [start] are exactly: a probe
    every sixth tick carrying the nonce and the running sequence number, nine of
    them after the initial one, and [Failed] on tick 60; the interval is
    one tick longer than the documented [HOLE_PUNCH_PROBE_INTERVAL_TICKS]
    (5 ticks, 500 ms), so the 5 s budget of the comments is 6 s. *)
Theorem silent_probe_schedule (c : HolePunchController) (nonce : N) (n : nat) :
  (n < 60)%nat ->
  let cn := fst (run_ticks tick n (fst (start c nonce))) in
  is_probing cn = true /\ probes_sent_count cn = N.of_nat n / 6 + 1 /\
  snd (tick cn) = expected_event nonce (N.of_nat n + 1) /\
  is_failed (fst (tick cn)) = bool_decide (n = 59)%nat.
Proof.
  intros Hn cn. subst cn. rewrite silent_run by lia. rewrite silent_step by lia.
  unfold silent_state. cbn [fst snd].
  rewrite (proj2 (N.leb_gt 60 (N.of_nat n))) by lia.
  split_and!; try done.
  unfold is_failed; cbn [state]. case_ifs; [rewrite bool_decide_true by lia|
    rewrite bool_decide_false by lia]; done.
Qed.

Lemma silent_probe_schedule_witness :
  let cn := fst (run_ticks tick 59 (fst (start new 0xDEADBEEF))) in
  is_probing cn = true /\ probes_sent_count cn = 59 / 6 + 1 /\
  snd (tick cn) = expected_event 0xDEADBEEF (59 + 1) /\
  is_failed (fst (tick cn)) = bool_decide (59 = 59)%nat.
Proof. apply (silent_probe_schedule new 0xDEADBEEF 59). lia. Defined.

(** one datagram from the peer while probing connects the path, and the
    path stays connected under any further ticks and datagrams, until the
    caller starts again. *)
Theorem datagram_connects (pre post : list Call) :
  is_probing (calls pre) = true ->
  forallb (fun k => match k with CStart _ => false | _ => true end) post = true ->
  snd (on_probe_received (calls pre)) = Some Connected_event /\
  is_connected (calls (pre ++ CReceived :: post)) = true.
Proof.
  intros Hp Hpost. unfold calls. rewrite fold_left_app. cbn [fold_left call].
  fold (calls pre). unfold is_probing in Hp.
  destruct (calls pre) as [[|nonce p t| |]]; try done.
  split; [done|]. by apply connected_stays.
Qed.

Lemma datagram_connects_witness :
  let pre := CStart 7 :: replicate 13 CTick in
  let post := [CTick; CReceived; CTick] in
  snd (on_probe_received (calls pre)) = Some Connected_event /\
  is_connected (calls (pre ++ CReceived :: post)) = true.
Proof.
  apply (datagram_connects (CStart 7 :: replicate 13 CTick) [CTick; CReceived; CTick]);
    vm_compute; reflexivity.
Defined.
End HolePunch.
