(* ===== verification/TurnRelay.v ===== *)
(** TURN relay fallback and ChannelData framing: [core/lbtp/src/turn_relay.rs]. *)
From S2P Require Import Prelude RetryTimer.
#[local] Open Scope N_scope.

Definition TURN_CHANNEL_HEADER_BYTES : N := 4.
Definition TURN_DEFAULT_CHANNEL_NUMBER : N := 0x4000.
Definition TURN_MIN_CHANNEL_NUMBER : N := 0x4000.
Definition TURN_MAX_CHANNEL_NUMBER : N := 0x7FFF.
Definition TURN_MAX_PAYLOAD_BYTES : N := 1200.
Definition TURN_PROBE_TIMEOUT_TICKS : N := 5.
Definition TURN_PROBE_MAX_RETRIES : N := 4.
Definition TURN_KEEPALIVE_INTERVAL_TICKS : N := 1200.

Inductive RelayEvent := Retransmit | Activated | Keepalive | Failed_event.

Inductive RelayState :=
| Idle
| Probing (retries_left ticks_remaining : N)
| Active (keepalive_ticks : N)
| Failed.

Record TurnRelayController := mkController { state : RelayState }.

Definition new : TurnRelayController := {| state := Idle |}.

Definition on_direct_path_failed (c : TurnRelayController) : TurnRelayController :=
  match state c with
  | Idle => {| state := Probing TURN_PROBE_MAX_RETRIES TURN_PROBE_TIMEOUT_TICKS |}
  | _ => c
  end.

Definition on_relay_activated (c : TurnRelayController) :
    TurnRelayController * option RelayEvent :=
  match state c with
  | Probing _ _ => ({| state := Active TURN_KEEPALIVE_INTERVAL_TICKS |}, Some Activated)
  | _ => (c, None)
  end.

Definition on_relay_ack (c : TurnRelayController) : TurnRelayController :=
  match state c with
  | Active _ => {| state := Active TURN_KEEPALIVE_INTERVAL_TICKS |}
  | _ => c
  end.

Definition on_direct_path_recovered (c : TurnRelayController) : TurnRelayController :=
  match state c with
  | Active _ => {| state := Idle |}
  | _ => c
  end.

Definition tick (c : TurnRelayController) : TurnRelayController * option RelayEvent :=
  match state c with
  | Active keepalive_ticks =>
      if 0 <? keepalive_ticks
      then ({| state := Active (keepalive_ticks - 1) |}, None)
      else ({| state := Active TURN_KEEPALIVE_INTERVAL_TICKS |}, Some Keepalive)
  | Probing retries_left ticks_remaining =>
      if 0 <? ticks_remaining
      then ({| state := Probing retries_left (ticks_remaining - 1) |}, None)
      else if retries_left =? 0
      then ({| state := Failed |}, Some Failed_event)
      else ({| state := Probing (retries_left - 1) TURN_PROBE_TIMEOUT_TICKS |},
            Some Retransmit)
  | _ => (c, None)
  end.

Definition is_idle (c : TurnRelayController) : bool :=
  match state c with Idle => true | _ => false end.
Definition is_probing (c : TurnRelayController) : bool :=
  match state c with Probing _ _ => true | _ => false end.
Definition is_active (c : TurnRelayController) : bool :=
  match state c with Active _ => true | _ => false end.
Definition is_failed (c : TurnRelayController) : bool :=
  match state c with Failed => true | _ => false end.

(** ** ChannelData framing (RFC 5766 11.4) *)
Record TurnChannelDataFramer := mkFramer { channel_number : N }.

Definition framer_new (channel : N) : TurnChannelDataFramer :=
  {| channel_number := channel |}.

(** [None] for an oversized payload; the length is cast to [u16]. *)
Definition encode (f : TurnChannelDataFramer) (ciphertext : list byte) : option (list byte) :=
  if TURN_MAX_PAYLOAD_BYTES <? lenN ciphertext then None
  else Some (be_bytes 2 (channel_number f) ++
             be_bytes 2 (wrap 16 (lenN ciphertext)) ++ ciphertext).

Definition decode (bytes : list byte) : option (N * list byte) :=
  if lenN bytes <? TURN_CHANNEL_HEADER_BYTES then None
  else
    let channel := be_value (take 2 bytes) in
    let data_len := be_value (take 2 (drop 2 bytes)) in
    if negb (lenN bytes =? TURN_CHANNEL_HEADER_BYTES + data_len) then None
    else Some (channel, drop 4 bytes).

(** ** The controller as a transition system *)
Inductive label :=
| LDirectFailed | LActivated | LAck | LRecovered | LTick (e : option RelayEvent).

Inductive step : TurnRelayController -> label -> TurnRelayController -> Prop :=
| step_direct_failed c : step c LDirectFailed (on_direct_path_failed c)
| step_activated c : step c LActivated (fst (on_relay_activated c))
| step_ack c : step c LAck (on_relay_ack c)
| step_recovered c : step c LRecovered (on_direct_path_recovered c)
| step_tick c : step c (LTick (snd (tick c))) (fst (tick c)).

Inductive trace : TurnRelayController -> list label -> TurnRelayController -> Prop :=
| trace_nil c : trace c [] c
| trace_snoc c ls d l e : trace c ls d -> step d l e -> trace c (ls ++ [l]) e.

(** The abstract phases of the relay, of which the countdowns are a
    refinement. *)
Inductive phase := PIdle | PProbing | PActive | PFailed.

Definition phase_of (c : TurnRelayController) : phase :=
  match state c with
  | Idle => PIdle | Probing _ _ => PProbing | Active _ => PActive | Failed => PFailed
  end.

Definition phase_next (p : phase) (l : label) : option phase :=
  match p, l with
  | PIdle, LDirectFailed => Some PProbing
  | PProbing, LActivated => Some PActive
  | PActive, LRecovered => Some PIdle
  | PProbing, LTick (Some Failed_event) => Some PFailed
  | PProbing, LTick (Some Retransmit) => Some PProbing
  | PActive, LTick (Some Keepalive) => Some PActive
  | _, LTick (Some _) => None
  | p, _ => Some p
  end.

Fixpoint phases (p : phase) (ls : list label) : option phase :=
  match ls with
  | [] => Some p
  | l :: ls => match phase_next p l with Some p => phases p ls | None => None end
  end.

(** The countdowns stay inside their [u8]/[u32] initial values. *)
Definition relay_ok (c : TurnRelayController) : Prop :=
  match state c with
  | Probing r t => r <= TURN_PROBE_MAX_RETRIES /\ t <= TURN_PROBE_TIMEOUT_TICKS
  | Active k => k <= TURN_KEEPALIVE_INTERVAL_TICKS
  | _ => True
  end.

(** ** The retry-timer interface *)
#[export] Instance turn_timer : RetryTimer TurnRelayController RelayEvent := {
  rt_view c := match state c with Probing r t => Some (r, t) | _ => None end;
  rt_tick := tick;
  rt_timeout := TURN_PROBE_TIMEOUT_TICKS;
  rt_retransmit _ e := e = Retransmit;
  rt_give_up _ e := e = Failed_event;
}.

#[export] Instance turn_timer_laws : RetryTimerLaws TurnRelayController RelayEvent.
Proof.
  split; intros [[|r' t'|k|]]; simpl; try done; unfold tick; simpl.
  - intros r t [= -> ->] Ht. rewrite (proj2 (N.ltb_lt _ _)) by done. done.
  - intros r [= -> ->] Hr. simpl. rewrite (proj2 (N.eqb_neq _ _)) by lia. eauto.
  - intros [= -> ->]. simpl. eauto.
Qed.

(** ** Lemmas *)
Lemma step_phase c l d : step c l d -> phase_next (phase_of c) l = Some (phase_of d).
Proof.
  destruct 1 as [[[]]|[[]]|[[]]|[[]]|[[]]]; unfold phase_of; simpl; try done;
    unfold tick; simpl; case_ifs; done.
Qed.

Lemma step_relay_ok c l d : step c l d -> relay_ok c -> relay_ok d.
Proof.
  destruct 1 as [[[]]|[[]]|[[]]|[[]]|[[]]]; unfold relay_ok; simpl; try done;
    try (intros; split; done); unfold tick; simpl; case_ifs; simpl; intros; try lia; done.
Qed.

Lemma phases_app p ls ls' :
  phases p (ls ++ ls') = match phases p ls with Some q => phases q ls' | None => None end.
Proof.
  revert p. induction ls as [|l ls IH]; intros p; [done|]. simpl.
  by destruct (phase_next p l).
Qed.

Lemma trace_phases c ls d : trace c ls d -> phases (phase_of c) ls = Some (phase_of d).
Proof.
  induction 1 as [|c ls d l e _ IH Hs]; [done|].
  rewrite phases_app, IH. simpl. by rewrite (step_phase _ _ _ Hs).
Qed.

(** An abstract run that ends in the active phase. *)
Lemma phases_active ls :
  phases PIdle ls = Some PActive ->
  exists pre mid, ls = pre ++ LActivated :: mid /\ Forall (fun l => l <> LRecovered) mid /\
    LDirectFailed ∈ pre.
Proof.
  enough (forall p, phases PIdle ls = Some p ->
    match p with
    | PActive => exists pre mid, ls = pre ++ LActivated :: mid /\
        Forall (fun l => l <> LRecovered) mid /\ LDirectFailed ∈ pre
    | PProbing => LDirectFailed ∈ ls
    | _ => True
    end) by (intros H'; apply (H _ H')).
  induction ls as [|l ls IH] using rev_ind; intros p Hp; [by simplify_eq/=|].
  rewrite phases_app in Hp. destruct (phases PIdle ls) as [q|]; [|done].
  specialize (IH q eq_refl). simpl in Hp.
  assert (Hsnoc : forall pre mid, ls = pre ++ LActivated :: mid ->
    Forall (fun l => l <> LRecovered) mid -> LDirectFailed ∈ pre -> l <> LRecovered ->
    exists pre mid, ls ++ [l] = pre ++ LActivated :: mid /\
        Forall (fun l => l <> LRecovered) mid /\ LDirectFailed ∈ pre).
  { intros pre mid -> Hm Hin Hne. exists pre, (mid ++ [l]). rewrite <- app_assoc.
    split_and!; auto. apply Forall_app; auto. }
  assert (Happ : LDirectFailed ∈ ls -> LDirectFailed ∈ ls ++ [l]).
  { intros. apply elem_of_app. auto. }
  destruct q, l as [| | | |[[]|]]; simpl in Hp; simplify_eq; auto;
    try (destruct IH as (pre & mid & Heq & Hm & Hin); eapply Hsnoc; eauto; done).
  - apply elem_of_app. right. by constructor.
  - exists ls, []. by split_and!.
Qed.

Lemma header_bytes f n payload :
  channel_number f < 2 ^ 16 -> n < 2 ^ 16 ->
  let bytes := be_bytes 2 (channel_number f) ++ be_bytes 2 n ++ payload in
  be_value (take 2 bytes) = channel_number f /\
  be_value (take 2 (drop 2 bytes)) = n /\ drop 4 bytes = payload.
Proof.
  intros Hc Hn bytes. subst bytes.
  rewrite take_app_length' by (by rewrite be_bytes_length).
  rewrite be_value_bytes_small by done. split; [done|].
  change (drop 4 ?l) with (drop (2 + 2) l). rewrite <- drop_drop.
  rewrite !drop_app_length' by (by rewrite be_bytes_length).
  rewrite take_app_length' by (by rewrite be_bytes_length).
  by rewrite be_value_bytes_small.
Qed.

Lemma encode_Some f payload bytes :
  encode f payload = Some bytes ->
  lenN payload <= TURN_MAX_PAYLOAD_BYTES /\
  bytes = be_bytes 2 (channel_number f) ++ be_bytes 2 (lenN payload) ++ payload.
Proof.
  unfold encode, TURN_MAX_PAYLOAD_BYTES. case_ifs; [done|]. intros [= <-].
  rewrite wrap_small by lia. done.
Qed.

Lemma encode_length f payload bytes :
  encode f payload = Some bytes -> lenN bytes = 4 + lenN payload.
Proof.
  intros H. apply encode_Some in H as [_ ->]. rewrite !lenN_app, !lenN_be_bytes. lia.
Qed.

Lemma framer_roundtrip f payload bytes :
  channel_number f < 2 ^ 16 -> encode f payload = Some bytes ->
  decode bytes = Some (channel_number f, payload).
Proof.
  intros Hc He. pose proof (encode_length _ _ _ He) as Hl. apply encode_Some in He as [Hp ->].
  unfold TURN_MAX_PAYLOAD_BYTES in Hp. unfold decode, TURN_CHANNEL_HEADER_BYTES.
  destruct (header_bytes f (lenN payload) payload Hc ltac:(lia)) as (H1 & H2 & H3).
  rewrite Hl, H1, H2, H3, N.eqb_refl. rewrite (proj2 (N.ltb_ge _ _)) by lia. done.
Qed.

(** ** Properties *)

(** C35: the controller refines the documented four-phase machine: along any
    sequence of calls and ticks the phases follow [phase_next] (so [Failed] is
    terminal, keepalives come only from the active phase and give-ups only from
    probing), and the countdowns never leave their initial ranges. *)
Theorem relay_refines_phases (ls : list label) (d : TurnRelayController) :
  trace new ls d ->
  phases PIdle ls = Some (phase_of d) /\ relay_ok d /\
  (is_active d = true ->
   exists pre mid, ls = pre ++ LActivated :: mid /\
     Forall (fun l => l <> LRecovered) mid /\ LDirectFailed ∈ pre).
Proof.
  intros H. pose proof (trace_phases _ _ _ H) as Hp.
  split_and!; [done| |].
  - clear Hp. remember new as c eqn:Hc. induction H; subst; [done|].
    eauto using step_relay_ok.
  - intros Ha. apply phases_active. change PIdle with (phase_of new). rewrite Hp. unfold phase_of. by destruct d as [[]].
Qed.

Lemma relay_refines_phases_witness :
  exists d ls, trace new ls d /\ is_active d = true /\
    phases PIdle ls = Some (phase_of d) /\ relay_ok d /\
    (is_active d = true ->
     exists pre mid, ls = pre ++ LActivated :: mid /\
       Forall (fun l => l <> LRecovered) mid /\ LDirectFailed ∈ pre).
Proof.
  set (c1 := on_direct_path_failed new).
  set (c2 := fst (tick c1)). set (c3 := fst (on_relay_activated c2)).
  assert (H : trace new (([] ++ [LDirectFailed]) ++ [LTick (snd (tick c1))] ++ [LActivated]) c3).
  { rewrite app_assoc. eapply trace_snoc; [eapply trace_snoc; [eapply trace_snoc|]|];
      [apply trace_nil | apply (step_direct_failed new) | apply (step_tick c1)
      | apply (step_activated c2)]. }
  exists c3, (([] ++ [LDirectFailed]) ++ [LTick (snd (tick c1))] ++ [LActivated]).
  split; [exact H|]. split; [reflexivity|]. exact (relay_refines_phases _ c3 H).
Defined.

(** an unanswered relay probe gives up on tick 30 after four
    retransmissions (3 s at 10 Hz; the comment on [TURN_PROBE_MAX_RETRIES]
    computes 2.5 s); an idle active relay emits a keepalive exactly every 1201
    ticks for ever. *)
Theorem relay_timing (c : TurnRelayController) (k : nat) :
  is_idle c = true ->
  run_ticks tick 30 (on_direct_path_failed c) =
    ({| state := Failed |}, replicate 4 Retransmit ++ [Failed_event]) /\
  run_ticks tick 29 (on_direct_path_failed c) =
    ({| state := Probing 0 0 |}, replicate 4 Retransmit) /\
  let active := fst (on_relay_activated (on_direct_path_failed c)) in
  run_ticks tick (k * 1201) active = (active, replicate k Keepalive).
Proof.
  destruct c as [[]]; try done. intros _. split_and!; [reflexivity..|]. cbv zeta.
  change (fst _) with {| state := Active TURN_KEEPALIVE_INTERVAL_TICKS |}.
  assert (H : run_ticks tick 1201 {| state := Active TURN_KEEPALIVE_INTERVAL_TICKS |} =
    ({| state := Active TURN_KEEPALIVE_INTERVAL_TICKS |}, [Keepalive])).
  { vm_compute. reflexivity. }
  induction k as [|k IH]; [done|].
  change (S k * 1201)%nat with (1201 + k * 1201)%nat.
  rewrite run_ticks_add, H. cbn [fst snd]. by rewrite IH.
Qed.

Lemma relay_timing_witness :
  run_ticks tick 30 (on_direct_path_failed new) =
    ({| state := Failed |}, replicate 4 Retransmit ++ [Failed_event]) /\
  run_ticks tick 29 (on_direct_path_failed new) =
    ({| state := Probing 0 0 |}, replicate 4 Retransmit) /\
  let active := fst (on_relay_activated (on_direct_path_failed new)) in
  run_ticks tick (2 * 1201) active = (active, replicate 2 Keepalive).
Proof. apply (relay_timing new 2). reflexivity. Defined.

(** the relay transports opaque bytes: what [encode] accepts (payloads up
    to 1200 bytes, and only those) [decode] returns unchanged with the channel
    number, the message adds exactly the 4-byte header, and no truncated or
    extended copy of a message decodes. *)
Theorem channel_data_roundtrip (channel : N) (payload : list byte) :
  channel < 2 ^ 16 ->
  match encode (framer_new channel) payload with
  | None => 1200 < lenN payload
  | Some bytes =>
      lenN payload <= 1200 /\ lenN bytes = 4 + lenN payload /\
      decode bytes = Some (channel, payload) /\
      (forall extra, extra <> [] -> decode (bytes ++ extra) = None) /\
      (forall n, n < lenN bytes -> decode (take (N.to_nat n) bytes) = None)
  end.
Proof.
  intros Hc. destruct (encode _ payload) as [bytes|] eqn:E.
  2: { unfold encode in E. case_ifs_in E; [|done]. by unfold TURN_MAX_PAYLOAD_BYTES in *. }
  pose proof (encode_length _ _ _ E) as Hl. apply encode_Some in E as [Hp Hb].
  unfold TURN_MAX_PAYLOAD_BYTES in Hp.
  assert (Hdec : forall ext, decode (bytes ++ ext) =
    if lenN ext =? 0 then Some (channel, payload ++ ext) else None).
  { intros ext. unfold decode. rewrite Hb, <- !app_assoc.
    destruct (header_bytes (framer_new channel) (lenN payload) (payload ++ ext))
      as (H1 & H2 & H3); [done|lia|]. cbn [channel_number framer_new] in *.
    rewrite H1, H2, H3. rewrite !lenN_app, !lenN_be_bytes.
    unfold TURN_CHANNEL_HEADER_BYTES. case_ifs; try done; lia. }
  split_and!; auto.
  - specialize (Hdec []). rewrite !app_nil_r in Hdec. done.
  - intros ext Hne. rewrite Hdec. destruct ext; [done|]. rewrite lenN_cons.
    by rewrite (proj2 (N.eqb_neq _ _)) by lia.
  - intros n Hn. unfold decode.
    assert (Hln : lenN (take (N.to_nat n) bytes) = n).
    { unfold lenN in *. rewrite length_take. lia. }
    rewrite Hln. case_ifs; try done. exfalso.
    unfold TURN_CHANNEL_HEADER_BYTES in *.
    destruct (header_bytes (framer_new channel) (lenN payload) payload) as (_ & H2 & _);
      [done|lia|]. rewrite <- Hb in H2.
    rewrite <- (take_drop (N.to_nat n) bytes) in H2.
    rewrite drop_app_le, take_app_le in H2.
    + lia.
    + rewrite length_drop. unfold lenN in *. lia.
    + unfold lenN in *. lia.
Qed.

Lemma channel_data_roundtrip_witness :
  match encode (framer_new 0x4000) (replicate 80 Byte.xab) with
  | None => 1200 < lenN (replicate 80 Byte.xab)
  | Some bytes =>
      lenN (replicate 80 Byte.xab) <= 1200 /\ lenN bytes = 4 + lenN (replicate 80 Byte.xab) /\
      decode bytes = Some (0x4000, replicate 80 Byte.xab) /\
      (forall extra, extra <> [] -> decode (bytes ++ extra) = None) /\
      (forall n, n < lenN bytes -> decode (take (N.to_nat n) bytes) = None)
  end.
Proof. apply (channel_data_roundtrip 0x4000 (replicate 80 Byte.xab)). reflexivity. Defined.
