(* ===== verification/Ice.v ===== *)
(** ICE candidate gathering: [core/lbtp/src/ice_candidate.rs].

    A socket address is only stored and forwarded, so the model is generic in
    its type. *)
From S2P Require Import Prelude RetryTimer.
#[local] Open Scope N_scope.

Definition ICE_STUN_TIMEOUT_TICKS : N := 5.
Definition ICE_STUN_MAX_RETRIES : N := 2.
Definition ICE_TURN_TIMEOUT_TICKS : N := 10.
Definition ICE_TURN_MAX_RETRIES : N := 2.
Definition ICE_HOST_TYPE_PREFERENCE : N := 126.
Definition ICE_SRFLX_TYPE_PREFERENCE : N := 100.
Definition ICE_RELAY_TYPE_PREFERENCE : N := 0.
Definition ICE_LOCAL_PREFERENCE_BASE : N := 65535.
Definition ICE_COMPONENT_ID : N := 1.

(** Shifts of a [u32] drop the bits beyond the width. *)
Definition ice_priority (type_pref local_pref : N) : N :=
  N.lor (N.lor (wrap 32 (N.shiftl type_pref 24)) (wrap 32 (N.shiftl local_pref 8)))
        (256 - ICE_COMPONENT_ID).

Inductive IceCandidateType := Host | ServerReflexive | Relayed.

Inductive GatherState :=
| Idle
| GatheringServerReflexive (retries_left ticks_remaining : N)
| GatheringRelayed (retries_left ticks_remaining : N)
| Complete.

Record IceCandidateGatherer := mkGatherer { state : GatherState; next_foundation : N }.

Definition new : IceCandidateGatherer := {| state := Idle; next_foundation := 1 |}.

Section gatherer.
Context {SocketAddr : Type}.

Record IceCandidate := mkCandidate {
  candidate_type : IceCandidateType;
  addr : SocketAddr;
  priority : N;
  foundation : N;
}.

Definition host (a : SocketAddr) (local_pref fnd : N) : IceCandidate :=
  {| candidate_type := Host; addr := a;
     priority := ice_priority ICE_HOST_TYPE_PREFERENCE local_pref; foundation := fnd |}.

Definition server_reflexive (a : SocketAddr) (fnd : N) : IceCandidate :=
  {| candidate_type := ServerReflexive; addr := a;
     priority := ice_priority ICE_SRFLX_TYPE_PREFERENCE ICE_LOCAL_PREFERENCE_BASE;
     foundation := fnd |}.

Definition relayed (a : SocketAddr) (fnd : N) : IceCandidate :=
  {| candidate_type := Relayed; addr := a;
     priority := ice_priority ICE_RELAY_TYPE_PREFERENCE ICE_LOCAL_PREFERENCE_BASE;
     foundation := fnd |}.

Inductive IceCandidateEvent :=
| CandidateReady (c : IceCandidate)
| SendStunRequest
| RetransmitStun
| SendTurnAllocate
| RetransmitTurn
| GatheringComplete.

(** The loop of [start] over [host_addrs.iter().enumerate()]. *)
Fixpoint host_events (fnd i : N) (host_addrs : list SocketAddr) :
    N * list IceCandidateEvent :=
  match host_addrs with
  | [] => (fnd, [])
  | a :: rest =>
      let local_pref := ICE_LOCAL_PREFERENCE_BASE - wrap 32 i in
      let '(fnd', es) := host_events (wrap 32 (fnd + 1)) (i + 1) rest in
      (fnd', CandidateReady (host a local_pref fnd) :: es)
  end.

Definition start (g : IceCandidateGatherer) (host_addrs : list SocketAddr) :
    IceCandidateGatherer * list IceCandidateEvent :=
  let '(fnd, events) := host_events (next_foundation g) 0 host_addrs in
  ({| state := GatheringServerReflexive ICE_STUN_MAX_RETRIES ICE_STUN_TIMEOUT_TICKS;
      next_foundation := fnd |},
   events ++ [SendStunRequest]).

Definition on_stun_response (g : IceCandidateGatherer) (mapped_addr : SocketAddr) :
    IceCandidateGatherer * option (list IceCandidateEvent) :=
  match state g with
  | GatheringServerReflexive _ _ =>
      let candidate := server_reflexive mapped_addr (next_foundation g) in
      ({| state := GatheringRelayed ICE_TURN_MAX_RETRIES ICE_TURN_TIMEOUT_TICKS;
          next_foundation := wrap 32 (next_foundation g + 1) |},
       Some [CandidateReady candidate; SendTurnAllocate])
  | _ => (g, None)
  end.

Definition on_turn_allocated (g : IceCandidateGatherer) (relay_addr : SocketAddr) :
    IceCandidateGatherer * option (list IceCandidateEvent) :=
  match state g with
  | GatheringRelayed _ _ =>
      let candidate := relayed relay_addr (next_foundation g) in
      ({| state := Complete; next_foundation := wrap 32 (next_foundation g + 1) |},
       Some [CandidateReady candidate; GatheringComplete])
  | _ => (g, None)
  end.

Definition tick (g : IceCandidateGatherer) :
    IceCandidateGatherer * option IceCandidateEvent :=
  let set s := {| state := s; next_foundation := next_foundation g |} in
  match state g with
  | GatheringServerReflexive retries_left ticks_remaining =>
      if 0 <? ticks_remaining
      then (set (GatheringServerReflexive retries_left (ticks_remaining - 1)), None)
      else if retries_left =? 0
      then (set (GatheringRelayed ICE_TURN_MAX_RETRIES ICE_TURN_TIMEOUT_TICKS),
            Some SendTurnAllocate)
      else (set (GatheringServerReflexive (retries_left - 1) ICE_STUN_TIMEOUT_TICKS),
            Some RetransmitStun)
  | GatheringRelayed retries_left ticks_remaining =>
      if 0 <? ticks_remaining
      then (set (GatheringRelayed retries_left (ticks_remaining - 1)), None)
      else if retries_left =? 0
      then (set Complete, Some GatheringComplete)
      else (set (GatheringRelayed (retries_left - 1) ICE_TURN_TIMEOUT_TICKS),
            Some RetransmitTurn)
  | _ => (g, None)
  end.
End gatherer.
Arguments IceCandidate : clear implicits.
Arguments IceCandidateEvent : clear implicits.

Definition is_idle (g : IceCandidateGatherer) : bool :=
  match state g with Idle => true | _ => false end.
Definition is_gathering (g : IceCandidateGatherer) : bool :=
  match state g with
  | GatheringServerReflexive _ _ | GatheringRelayed _ _ => true
  | _ => false
  end.
Definition is_complete (g : IceCandidateGatherer) : bool :=
  match state g with Complete => true | _ => false end.

(** ** A gathering round

    The inputs of a round after [start], and the events it emits. *)
Section rounds.
Context {SocketAddr : Type}.

Inductive Input := ITick | IStun (a : SocketAddr) | ITurn (a : SocketAddr).

Definition handle (g : IceCandidateGatherer) (i : Input) :
    IceCandidateGatherer * list (IceCandidateEvent SocketAddr) :=
  match i with
  | ITick => let '(g', e) := tick g in (g', option_list e)
  | IStun a => let '(g', es) := on_stun_response g a in (g', default [] es)
  | ITurn a => let '(g', es) := on_turn_allocated g a in (g', default [] es)
  end.

Fixpoint round (g : IceCandidateGatherer) (ins : list Input) :
    IceCandidateGatherer * list (IceCandidateEvent SocketAddr) :=
  match ins with
  | [] => (g, [])
  | i :: ins =>
      let '(g1, es1) := handle g i in
      let '(g2, es2) := round g1 ins in
      (g2, es1 ++ es2)
  end.
End rounds.
Arguments Input : clear implicits.

(** The candidates among the events, in order. *)
Definition candidates {A} (es : list (IceCandidateEvent A)) : list (IceCandidate A) :=
  omap (fun e => match e with CandidateReady c => Some c | _ => None end) es.

(** The completion signals among the events, and the ticks among the inputs. *)
Definition completions {A} (es : list (IceCandidateEvent A)) : list unit :=
  omap (fun e => match e with GatheringComplete => Some tt | _ => None end) es.

Definition ticks {A} (ins : list (Input A)) : N :=
  lenN (omap (fun i => match i with ITick => Some tt | _ => None end) ins).

(** Candidates a gatherer can still emit. *)
Definition phases_left (g : IceCandidateGatherer) : N :=
  match state g with
  | GatheringServerReflexive _ _ => 2
  | GatheringRelayed _ _ => 1
  | _ => 0
  end.

(** The foundations of the candidates, in order. *)
Definition foundations {A} (es : list (IceCandidateEvent A)) : list nat :=
  (fun c => N.to_nat (foundation c)) <$> candidates es.

(** Ticks left before the gatherer completes on its own. *)
Definition ticks_to_complete (g : IceCandidateGatherer) : N :=
  match state g with
  | GatheringServerReflexive r t =>
      tick_budget ICE_STUN_TIMEOUT_TICKS r t + 1 +
      tick_budget ICE_TURN_TIMEOUT_TICKS ICE_TURN_MAX_RETRIES ICE_TURN_TIMEOUT_TICKS + 1
  | GatheringRelayed r t => tick_budget ICE_TURN_TIMEOUT_TICKS r t + 1
  | _ => 0
  end.

(** ** The retry-timer interface, one instance per phase *)
Section timers.
Context (SocketAddr : Type).

Definition stun_timer : RetryTimer IceCandidateGatherer (IceCandidateEvent SocketAddr) := {|
  rt_view g := match state g with GatheringServerReflexive r t => Some (r, t) | _ => None end;
  rt_tick := tick;
  rt_timeout := ICE_STUN_TIMEOUT_TICKS;
  rt_retransmit _ e := e = RetransmitStun;
  rt_give_up _ e := e = SendTurnAllocate;
|}.

Definition turn_timer : RetryTimer IceCandidateGatherer (IceCandidateEvent SocketAddr) := {|
  rt_view g := match state g with GatheringRelayed r t => Some (r, t) | _ => None end;
  rt_tick := tick;
  rt_timeout := ICE_TURN_TIMEOUT_TICKS;
  rt_retransmit _ e := e = RetransmitTurn;
  rt_give_up _ e := e = GatheringComplete;
|}.

Lemma stun_timer_laws : RetryTimerLaws _ _ (RT := stun_timer).
Proof.
  split; intros [[|r' t'|r' t'|] f]; simpl; try done; unfold tick; simpl.
  - intros r t [= -> ->] Ht. rewrite (proj2 (N.ltb_lt _ _)) by done. done.
  - intros r [= -> ->] Hr. simpl. rewrite (proj2 (N.eqb_neq _ _)) by lia. eauto.
  - intros [= -> ->]. simpl. eauto.
Qed.

Lemma turn_timer_laws : RetryTimerLaws _ _ (RT := turn_timer).
Proof.
  split; intros [[|r' t'|r' t'|] f]; simpl; try done; unfold tick; simpl.
  - intros r t [= -> ->] Ht. rewrite (proj2 (N.ltb_lt _ _)) by done. done.
  - intros r [= -> ->] Hr. simpl. rewrite (proj2 (N.eqb_neq _ _)) by lia. eauto.
  - intros [= -> ->]. simpl. eauto.
Qed.
End timers.

(** ** Lemmas *)

(** The or of the source is the sum of RFC 8445 5.1.2.1 for in-range
    preferences. *)
Lemma ice_priority_sum tp lp :
  tp < 256 -> lp < 65536 -> ice_priority tp lp = 2 ^ 24 * tp + 2 ^ 8 * lp + 255.
Proof.
  intros Ht Hl. unfold ice_priority, ICE_COMPONENT_ID.
  rewrite !N.shiftl_mul_pow2.
  rewrite !wrap_small by (change (2 ^ 32) with (2 ^ 8 * 2 ^ 24); nia).
  rewrite (N.lor_comm (tp * _)).
  assert (Hand : forall a b n, b < 2 ^ n -> N.lor b (a * 2 ^ n) = a * 2 ^ n + b).
  { intros a b n Hb. rewrite N.add_comm. symmetry. rewrite <- N.lxor_lor, <- N.add_nocarry_lxor; [done| |];
      apply N.bits_inj; intros i; rewrite N.land_spec, N.bits_0;
      (destruct (N.lt_ge_cases i n);
        [rewrite N.mul_pow2_bits_low by done; apply andb_false_r|
         rewrite <- (N.mod_small b (2 ^ n)) by done;
         rewrite N.mod_pow2_bits_high by done; done]). }
  rewrite (Hand tp (lp * 2 ^ 8) 24) by (change (2 ^ 24) with (2 ^ 16 * 2 ^ 8); nia).
  change (256 - 1) with 255. rewrite N.lor_comm.
  replace (tp * 2 ^ 24 + lp * 2 ^ 8) with ((tp * 2 ^ 16 + lp) * 2 ^ 8).
  - rewrite (Hand _ 255 8) by done. lia.
  - change (2 ^ 24) with (2 ^ 16 * 2 ^ 8). lia.
Qed.

Section candidate_lemmas.
Context {A : Type}.

Lemma host_events_candidates (hs : list A) fnd i :
  i + lenN hs <= 65536 -> fnd + lenN hs < 2 ^ 32 ->
  fst (host_events fnd i hs) = fnd + lenN hs /\
  candidates (snd (host_events fnd i hs)) =
    imap (fun j a => host a (65535 - (i + N.of_nat j)) (fnd + N.of_nat j)) hs /\
  lenN (snd (host_events fnd i hs)) = lenN hs.
Proof.
  revert fnd i. induction hs as [|a hs IH]; intros fnd i Hi Hf.
  - simpl. rewrite lenN_nil. split_and!; auto. lia.
  - rewrite lenN_cons in *. cbn [host_events].
    rewrite !wrap_small by lia.
    destruct (IH (fnd + 1) (i + 1)) as (H1 & H2 & H3); [lia..|].
    destruct (host_events (fnd + 1) (i + 1) hs) as [fnd' es]. cbn [fst snd] in *.
    split_and!; [lia| |by rewrite lenN_cons, H3].
    cbn [imap]. change (candidates (_ :: es)) with (host a (ICE_LOCAL_PREFERENCE_BASE - i) fnd :: candidates es).
    rewrite H2. f_equal; [unfold ICE_LOCAL_PREFERENCE_BASE; f_equal; lia|].
    apply imap_ext. intros j x _. cbn. f_equal; lia.
Qed.

Lemma candidates_app (es1 es2 : list (IceCandidateEvent A)) :
  candidates (es1 ++ es2) = candidates es1 ++ candidates es2.
Proof. apply omap_app. Qed.

(** An input shortens the time to completion; a finished gatherer ignores
    every input. *)
Lemma handle_step (g : IceCandidateGatherer) (i : Input A) :
  is_gathering g = true -> next_foundation g + phases_left g < 2 ^ 32 ->
  let '(g', es) := handle g i in
  completions es = (if is_complete g' then [tt] else []) /\
  (is_complete g' = false -> is_gathering g' = true) /\
  ticks_to_complete g' <= ticks_to_complete g - ticks [i] /\
  next_foundation g' + phases_left g' <= next_foundation g + phases_left g /\
  exists n, next_foundation g' = next_foundation g + N.of_nat n /\
    foundations es = seq (N.to_nat (next_foundation g)) n.
Proof.
  destruct g as [[|r t|r t|] f]; try done; intros _; cbn [phases_left state next_foundation];
    intros Hf; destruct i; cbn [handle]; unfold tick, on_stun_response, on_turn_allocated;
    cbn [state next_foundation]; case_ifs;
    cbn [option_list default is_complete is_gathering phases_left ticks_to_complete state
      next_foundation from_option id];
    rewrite ?wrap_small by lia.
  all: change (ticks [ITick]) with 1; change (ticks [IStun a]) with 0 || idtac;
    change (ticks [ITurn a]) with 0 || idtac.
  all: unfold tick_budget, ICE_STUN_TIMEOUT_TICKS, ICE_TURN_TIMEOUT_TICKS, ICE_TURN_MAX_RETRIES;
    split_and!; try done; try nia.
  all: first [exists 1%nat; split; [lia|done] | exists 0%nat; split; [lia|done]].
Qed.

Lemma handle_complete (g : IceCandidateGatherer) (i : Input A) :
  is_complete g = true -> handle g i = (g, []).
Proof. destruct g as [[] f]; try done. by destruct i. Qed.

Lemma round_complete (g : IceCandidateGatherer) (ins : list (Input A)) :
  is_complete g = true -> round g ins = (g, []).
Proof.
  intros Hg. induction ins as [|i ins IH]; [done|]. cbn [round].
  by rewrite handle_complete, IH.
Qed.

Lemma foundations_app (es1 es2 : list (IceCandidateEvent A)) :
  foundations (es1 ++ es2) = foundations es1 ++ foundations es2.
Proof. unfold foundations. by rewrite candidates_app, fmap_app. Qed.

Lemma completions_app (es1 es2 : list (IceCandidateEvent A)) :
  completions (es1 ++ es2) = completions es1 ++ completions es2.
Proof. apply omap_app. Qed.

Lemma ticks_cons i (ins : list (Input A)) : ticks (i :: ins) = ticks [i] + ticks ins.
Proof. unfold ticks. destruct i; cbn [omap list_omap]; rewrite ?lenN_cons; done. Qed.

Lemma ticks_to_complete_pos (g : IceCandidateGatherer) :
  is_gathering g = true -> 0 < ticks_to_complete g.
Proof. destruct g as [[] f]; try done; intros _; unfold ticks_to_complete; cbn [state]; lia. Qed.

Lemma round_progress (g : IceCandidateGatherer) (ins : list (Input A)) :
  is_gathering g = true -> next_foundation g + phases_left g < 2 ^ 32 ->
  let '(g', es) := round g ins in
  (ticks_to_complete g <= ticks ins -> is_complete g' = true) /\
  completions es = (if is_complete g' then [tt] else []) /\
  exists n, foundations es = seq (N.to_nat (next_foundation g)) n.
Proof.
  revert g. induction ins as [|i ins IH]; intros g Hg Hf.
  - pose proof (ticks_to_complete_pos g Hg). cbn [round].
    change (ticks []) with 0. split_and!; [lia| |by exists 0%nat].
    by destruct g as [[] f].
  - cbn [round]. pose proof (handle_step g i Hg Hf) as Hs.
    destruct (handle g i) as [g1 es1]. destruct Hs as (Hc & Hg1 & Ht & Hf1 & n & Hn & Hfs).
    rewrite ticks_cons. destruct (is_complete g1) eqn:Hdone.
    + rewrite round_complete by done. rewrite app_nil_r, Hdone.
      split_and!; eauto.
    + specialize (IH g1 (Hg1 eq_refl) ltac:(lia)). destruct (round g1 ins) as [g2 es2].
      destruct IH as (IH1 & IH2 & m & IH3). split_and!.
      * intros. apply IH1. lia.
      * by rewrite completions_app, Hc, IH2.
      * exists (n + m)%nat. rewrite foundations_app, Hfs, IH3, seq_app. do 2 f_equal. lia.
Qed.

Lemma candidates_cons e (es : list (IceCandidateEvent A)) :
  candidates (e :: es) =
    match e with CandidateReady c => c :: candidates es | _ => candidates es end.
Proof. by destruct e. Qed.

Lemma candidates_le (es : list (IceCandidateEvent A)) : lenN (candidates es) <= lenN es.
Proof.
  induction es as [|e es IH]; [done|]. rewrite candidates_cons, lenN_cons.
  destruct e; rewrite ?lenN_cons; lia.
Qed.

(** Events that are all candidates are determined by their candidates. *)
Lemma ready_candidates (es : list (IceCandidateEvent A)) :
  lenN (candidates es) = lenN es -> es = CandidateReady <$> candidates es.
Proof.
  induction es as [|e es IH]; [done|]. pose proof (candidates_le es).
  rewrite candidates_cons, lenN_cons. destruct e; try lia.
  rewrite lenN_cons. intros. cbn. f_equal. apply IH. lia.
Qed.

Lemma start_shape (g : IceCandidateGatherer) (hs : list A) :
  lenN hs <= 65536 -> next_foundation g + lenN hs < 2 ^ 32 ->
  start g hs =
    ({| state := GatheringServerReflexive 2 5;
        next_foundation := next_foundation g + lenN hs |},
     (CandidateReady <$> imap (fun j a =>
        host a (65535 - N.of_nat j) (next_foundation g + N.of_nat j)) hs) ++ [SendStunRequest]).
Proof.
  intros Hl Hf. unfold start.
  destruct (host_events_candidates hs (next_foundation g) 0) as (H1 & H2 & H3); [lia..|].
  destruct (host_events (next_foundation g) 0 hs) as [f' es]. cbn [fst snd] in *.
  subst f'. do 2 f_equal. rewrite (ready_candidates es).
  - by rewrite H2.
  - rewrite H2, H3. unfold lenN. by rewrite length_imap.
Qed.

Lemma candidates_ready (cs : list (IceCandidate A)) : candidates (CandidateReady <$> cs) = cs.
Proof.
  induction cs as [|c cs IH]; [done|]. rewrite fmap_cons, candidates_cons. by f_equal.
Qed.

Lemma completions_ready (cs : list (IceCandidate A)) : completions (CandidateReady <$> cs) = [].
Proof. by induction cs. Qed.

Lemma foundations_hosts (f : N) (hs : list A) :
  foundations (CandidateReady <$> imap (fun j a =>
    host a (65535 - N.of_nat j) (f + N.of_nat j)) hs) = seq (N.to_nat f) (length hs).
Proof.
  unfold foundations. rewrite candidates_ready.
  apply list_eq. intros i. rewrite list_lookup_fmap, list_lookup_imap.
  destruct (hs !! i) as [a|] eqn:Ha.
  - rewrite lookup_seq_lt by (by eapply lookup_lt_Some). cbn. f_equal. lia.
  - apply lookup_ge_None_1 in Ha. by rewrite lookup_seq_ge.
Qed.

Lemma stun_exhausted (g : IceCandidateGatherer) :
  state g = GatheringServerReflexive 0 0 ->
  tick (SocketAddr := A) g =
    ({| state := GatheringRelayed 2 10; next_foundation := next_foundation g |},
     Some SendTurnAllocate).
Proof. intros Hs. unfold tick. by rewrite Hs. Qed.

Lemma turn_exhausted (g : IceCandidateGatherer) :
  state g = GatheringRelayed 0 0 ->
  tick (SocketAddr := A) g =
    ({| state := Complete; next_foundation := next_foundation g |}, Some GatheringComplete).
Proof. intros Hs. unfold tick. by rewrite Hs. Qed.

Lemma only_retransmits (e : IceCandidateEvent A) (es : list (IceCandidateEvent A)) r :
  r = lenN es -> Forall (fun e' => e' = e) es -> es = replicate (N.to_nat r) e.
Proof.
  intros -> Hf. symmetry. apply replicate_as_elem_of. split; [unfold lenN; lia|].
  intros x Hx. rewrite Forall_forall in Hf. by apply Hf.
Qed.

(** An unanswered STUN request: every retransmission, then the TURN phase
    with its own budget armed. *)
Lemma stun_phase_silent (g : IceCandidateGatherer) r t :
  state g = GatheringServerReflexive r t ->
  exists g', run_ticks (tick (SocketAddr := A)) (N.to_nat (tick_budget 5 r t + 1)) g
    = (g', replicate (N.to_nat r) RetransmitStun ++ [SendTurnAllocate]) /\
    state g' = GatheringRelayed 2 10.
Proof.
  intros Hs. pose proof (stun_timer_laws A) as L.
  destruct (@rt_within_budget _ _ (stun_timer A) L (N.to_nat (tick_budget 5 r t)) g r t)
    as (r' & t' & Hv & Hb & Hr & Hf & _); [cbn; by rewrite Hs|by rewrite N2Nat.id|].
  rewrite N2Nat.id in Hb. cbn [stun_timer rt_timeout rt_tick rt_view] in *.
  rewrite N2Nat.inj_add, run_ticks_add. change (N.to_nat 1) with 1%nat. rewrite run_ticks_S.
  set (gn := fst (run_ticks tick _ g)) in *. cbn [run_ticks fst snd].
  assert (state gn = GatheringServerReflexive 0 0) as Hgn.
  { destruct (state gn) as [|r1 t1|r1 t1|]; try done. injection Hv as -> ->.
    unfold tick_budget, ICE_STUN_TIMEOUT_TICKS in Hb. f_equal; lia. }
  assert (r' = 0) as -> by (unfold tick_budget, ICE_STUN_TIMEOUT_TICKS in Hb; nia).
  rewrite (stun_exhausted gn Hgn).
  exists {| state := GatheringRelayed 2 10; next_foundation := next_foundation gn |}. cbn [fst snd emit]. split; [|reflexivity].
  do 2 f_equal. apply only_retransmits; [lia|exact Hf].
Qed.

(** An unanswered TURN request: every retransmission, then completion. *)
Lemma turn_phase_silent (g : IceCandidateGatherer) r t :
  state g = GatheringRelayed r t ->
  exists g', run_ticks (tick (SocketAddr := A)) (N.to_nat (tick_budget 10 r t + 1)) g
    = (g', replicate (N.to_nat r) RetransmitTurn ++ [GatheringComplete]) /\
    state g' = Complete.
Proof.
  intros Hs. pose proof (turn_timer_laws A) as L.
  destruct (@rt_within_budget _ _ (turn_timer A) L (N.to_nat (tick_budget 10 r t)) g r t)
    as (r' & t' & Hv & Hb & Hr & Hf & _); [cbn; by rewrite Hs|by rewrite N2Nat.id|].
  rewrite N2Nat.id in Hb. cbn [turn_timer rt_timeout rt_tick rt_view] in *.
  rewrite N2Nat.inj_add, run_ticks_add. change (N.to_nat 1) with 1%nat. rewrite run_ticks_S.
  set (gn := fst (run_ticks tick _ g)) in *. cbn [run_ticks fst snd].
  assert (state gn = GatheringRelayed 0 0) as Hgn.
  { destruct (state gn) as [|r1 t1|r1 t1|]; try done. injection Hv as -> ->.
    unfold tick_budget, ICE_TURN_TIMEOUT_TICKS in Hb. f_equal; lia. }
  assert (r' = 0) as -> by (unfold tick_budget, ICE_TURN_TIMEOUT_TICKS in Hb; nia).
  rewrite (turn_exhausted gn Hgn).
  exists {| state := Complete; next_foundation := next_foundation gn |}. cbn [fst snd emit]. split; [|reflexivity].
  do 2 f_equal. apply only_retransmits; [lia|exact Hf].
Qed.
End candidate_lemmas.

(** ** Properties *)

(** [start] reports every host address, in order, with priority
    [126*2^24 + (65535 - index)*2^8 + 255] and consecutive foundations, then asks
    for the STUN request; the host priorities strictly decrease, all of them
    exceed the server-reflexive priority and that exceeds the relay's. *)
Theorem start_ranks_candidates {A} (g : IceCandidateGatherer) (hs : list A) :
  lenN hs <= 65536 -> next_foundation g + lenN hs < 2 ^ 32 ->
  snd (start g hs) = (CandidateReady <$> candidates (snd (start g hs))) ++ [SendStunRequest] /\
  map addr (candidates (snd (start g hs))) = hs /\
  (forall j c, candidates (snd (start g hs)) !! j = Some c ->
    candidate_type c = Host /\
    priority c = 2 ^ 24 * 126 + 2 ^ 8 * (65535 - N.of_nat j) + 255 /\
    foundation c = next_foundation g + N.of_nat j /\
    forall a b k l, priority (server_reflexive (a : A) k) < priority c /\
      priority (relayed (b : A) l) < priority (server_reflexive a k)) /\
  (forall i j ci cj, (i < j)%nat -> candidates (snd (start g hs)) !! i = Some ci ->
    candidates (snd (start g hs)) !! j = Some cj -> priority cj < priority ci).
Proof.
  intros Hl Hf. rewrite start_shape by done. cbn [snd].
  rewrite candidates_app, candidates_ready, app_nil_r.
  assert (Hc : forall j c, imap (fun j a => host a (65535 - N.of_nat j)
      (next_foundation g + N.of_nat j)) hs !! j = Some c ->
    (exists a, hs !! j = Some a /\ c = host a (65535 - N.of_nat j) (next_foundation g + N.of_nat j)) /\
    N.of_nat j < lenN hs /\
    priority c = 2 ^ 24 * 126 + 2 ^ 8 * (65535 - N.of_nat j) + 255).
  { intros j c Hj. rewrite list_lookup_imap in Hj. destruct (hs !! j) as [a|] eqn:Ha; [|done].
    injection Hj as <-. pose proof (lookup_lt_Some _ _ _ Ha).
    split_and!; [by eauto|unfold lenN; lia|]. apply (ice_priority_sum 126); lia. }
  split_and!.
  - done.
  - apply list_eq. intros i. rewrite list_lookup_fmap, list_lookup_imap. by destruct (hs !! i).
  - intros j c Hj. destruct (Hc j c Hj) as ((a & Ha & ->) & Hlt & Hp). split_and!; try done.
    + intros a1 b k l. rewrite Hp. unfold server_reflexive, relayed; cbn [priority].
      change (ice_priority ICE_SRFLX_TYPE_PREFERENCE ICE_LOCAL_PREFERENCE_BASE) with 1694498815.
      change (ice_priority ICE_RELAY_TYPE_PREFERENCE ICE_LOCAL_PREFERENCE_BASE) with 16777215.
      lia.
  - intros i j ci cj Hij Hi Hj. destruct (Hc _ _ Hi) as (_ & ? & ->).
    destruct (Hc _ _ Hj) as (_ & ? & ->). lia.
Qed.

Lemma start_ranks_candidates_witness :
  let hs := [10; 20; 30] in
  snd (start new hs) = (CandidateReady <$> candidates (snd (start new hs))) ++ [SendStunRequest] /\
  map addr (candidates (snd (start new hs))) = hs.
Proof.
  destruct (start_ranks_candidates new [10; 20; 30]) as (H1 & H2 & _);
    [vm_compute; done|vm_compute; done|]. split; [exact H1|exact H2].
Defined.

(** a gathering round always ends.  Whatever responses arrive, and in
    whatever order, the gatherer completes within 51 ticks of [start] (5.1 s at
    10 Hz); [GatheringComplete] is signalled exactly once, and no two candidates
    of the round share a foundation. *)
Theorem gathering_completes {A} (g : IceCandidateGatherer) (hs : list A) (ins : list (Input A)) :
  lenN hs <= 65536 -> next_foundation g + lenN hs + 2 < 2 ^ 32 ->
  let '(g1, es1) := start g hs in
  let '(g2, es2) := round g1 ins in
  (51 <= ticks ins -> is_complete g2 = true) /\
  completions (es1 ++ es2) = (if is_complete g2 then [tt] else []) /\
  NoDup (foundations (es1 ++ es2)).
Proof.
  intros Hl Hf. rewrite start_shape by lia.
  set (g1 := {| state := _; next_foundation := _ |}).
  pose proof (round_progress g1 ins eq_refl) as Hr. cbn [phases_left g1 state next_foundation] in Hr.
  specialize (Hr ltac:(lia)). destruct (round g1 ins) as [g2 es2].
  destruct Hr as (H1 & H2 & n & H3). split_and!.
  - done.
  - rewrite completions_app, H2. destruct (imap _ hs) as [|c cs]; [done|].
    rewrite completions_app, completions_ready. done.
  - rewrite !foundations_app, foundations_hosts, H3.
    change (foundations [SendStunRequest]) with (@nil nat). rewrite app_nil_r.
    replace (N.to_nat (next_foundation g + lenN hs)) with (N.to_nat (next_foundation g) + length hs)%nat
      by (unfold lenN; lia).
    cbn [app]. rewrite <- seq_app. apply NoDup_seq.
Qed.

Lemma gathering_completes_witness :
  let '(g1, es1) := start new [10; 20] in
  let '(g2, es2) := round g1 (replicate 20 ITick ++ IStun 7 :: IStun 8 :: replicate 31 ITick) in
  (51 <= 51 -> is_complete g2 = true) /\
  completions (es1 ++ es2) = (if is_complete g2 then [tt] else []) /\
  NoDup (foundations (es1 ++ es2)).
Proof.
  apply (gathering_completes new [10; 20]
    (replicate 20 ITick ++ IStun 7 :: IStun 8 :: replicate 31 ITick)); vm_compute; done.
Defined.

(** the exact schedule without any answer.  From any point of the STUN
    phase with [r] retries and [t] ticks left, [t + 6 r + 1] ticks re-send the
    request [r] times and start the TURN phase, and 33 more ticks re-send the
    TURN request twice and end the round.  From [start] that is 18 ticks
    (the comments promise 1.5 s, that is 15) and 33 ticks (they promise 3 s). *)
Theorem unanswered_requests {A} (g : IceCandidateGatherer) (r t : N) :
  state g = GatheringServerReflexive r t ->
  exists g', run_ticks (tick (SocketAddr := A)) (N.to_nat (t + 6 * r + 1 + 33)) g =
    (g', replicate (N.to_nat r) RetransmitStun ++
         [SendTurnAllocate; RetransmitTurn; RetransmitTurn; GatheringComplete]) /\
    is_complete g' = true.
Proof.
  intros Hs. destruct (stun_phase_silent (A := A) g r t Hs) as (g1 & H1 & Hs1).
  destruct (turn_phase_silent (A := A) g1 2 10 Hs1) as (g2 & H2 & Hs2).
  exists g2. split; [|unfold is_complete; by rewrite Hs2].
  replace (N.to_nat (t + 6 * r + 1 + 33)) with
    (N.to_nat (tick_budget 5 r t + 1) + N.to_nat (tick_budget 10 2 10 + 1))%nat
    by (unfold tick_budget; lia).
  rewrite run_ticks_add, H1. cbn [fst snd]. rewrite H2. cbn [fst snd].
  by rewrite <- app_assoc.
Qed.

Lemma unanswered_requests_witness :
  exists g', run_ticks (tick (SocketAddr := N)) (N.to_nat (5 + 6 * 2 + 1 + 33))
      (fst (start new [10; 20])) =
    (g', replicate (N.to_nat 2) RetransmitStun ++
         [SendTurnAllocate; RetransmitTurn; RetransmitTurn; GatheringComplete]) /\
    is_complete g' = true.
Proof. apply (unanswered_requests (fst (start new [10; 20])) 2 5). reflexivity. Defined.
