(* ===== verification/TcpFallback.v ===== *)
(** Length-prefixed framing over TCP: [core/lbtp/src/tcp_fallback.rs].

    [push] consumes a chunk of the stream in its loop; [feed] is the reference
    machine that takes one byte at a time.  The latency penalty tracker of the
    same file is in Module [TcpPenalty]. *)
From S2P Require Import Prelude F64 F64Bounds.
#[local] Open Scope N_scope.

Definition TCP_LENGTH_PREFIX_BYTES : N := 2.
Definition TCP_MAX_DATAGRAM_BYTES : N := 1200.

(** [TcpFramer::encode]. *)
Definition encode (datagram : list byte) : option (list byte) :=
  if TCP_MAX_DATAGRAM_BYTES <? lenN datagram then None
  else Some (be_bytes 2 (wrap 16 (lenN datagram)) ++ datagram).

Inductive ReassemblerState :=
| Header (buf : list byte) (filled : N)
| Body (expected : N) (buf : list byte).

Record TcpReassembler := mkReassembler {
  state : ReassemblerState;
  oversized_rejected : N;
}.

Definition fresh_header : ReassemblerState := Header [Byte.x00; Byte.x00] 0.

Definition new : TcpReassembler := {| state := fresh_header; oversized_rejected := 0 |}.

(** [buf[filled..filled + copy].copy_from_slice(src)]. *)
Definition copy_into (buf : list byte) (filled : N) (src : list byte) : list byte :=
  take (N.to_nat filled) buf ++ src ++ drop (N.to_nat filled + length src) buf.

(** One iteration of the loop of [push]; [bytes] is [bytes[pos..]].  The last
    component is the datagram the iteration completes. *)
Definition push_step (r : TcpReassembler) (bytes : list byte) :
    TcpReassembler * list byte * option (list byte) :=
  let with_state s := {| state := s; oversized_rejected := oversized_rejected r |} in
  match state r with
  | Header buf filled =>
      let need := TCP_LENGTH_PREFIX_BYTES - filled in
      let avail := lenN bytes in
      let copy := N.min need avail in
      let buf := copy_into buf filled (take (N.to_nat copy) bytes) in
      let filled := filled + copy in
      let rest := drop (N.to_nat copy) bytes in
      if filled =? TCP_LENGTH_PREFIX_BYTES then
        let len := be_value buf in
        if TCP_MAX_DATAGRAM_BYTES <? len
        then ({| state := fresh_header;
                 oversized_rejected := wrap 32 (oversized_rejected r + 1) |}, rest, None)
        else (with_state (Body len []), rest, None)
      else (with_state (Header buf filled), rest, None)
  | Body expected buf =>
      let need := expected - lenN buf in
      let avail := lenN bytes in
      let copy := N.min need avail in
      let buf := buf ++ take (N.to_nat copy) bytes in
      let rest := drop (N.to_nat copy) bytes in
      if lenN buf =? expected
      then (with_state fresh_header, rest, if 0 <? expected then Some buf else None)
      else (with_state (Body expected buf), rest, None)
  end.

(** The loop [while pos < bytes.len()]: [None] when the fuel runs out. *)
Fixpoint push_loop (fuel : nat) (r : TcpReassembler) (bytes : list byte)
    (completed : list (list byte)) : option (TcpReassembler * list (list byte)) :=
  match bytes, fuel with
  | [], _ => Some (r, completed)
  | _, O => None
  | _, S fuel =>
      let '(r', rest, d) := push_step r bytes in
      push_loop fuel r' rest (completed ++ option_list d)
  end.

(** Every iteration consumes a byte or leaves an empty body. *)
Definition push_fuel (bytes : list byte) : nat := 2 * length bytes.

Definition push (r : TcpReassembler) (bytes : list byte) :
    option (TcpReassembler * list (list byte)) :=
  push_loop (push_fuel bytes) r bytes [].

(** ** The byte-at-a-time reference machine *)

(** [Header] holds 2 bytes of which fewer than 2 are filled, [Body] at most 1200
    bytes of which fewer than [expected] are buffered, or an empty body. *)
Definition state_wf (s : ReassemblerState) : Prop :=
  match s with
  | Header buf filled => length buf = 2%nat /\ filled < 2
  | Body expected buf => expected <= TCP_MAX_DATAGRAM_BYTES /\
      (lenN buf < expected \/ (expected = 0 /\ buf = []))
  end.

(** An empty body gives way to the next header before a byte is read. *)
Definition settle (r : TcpReassembler) : TcpReassembler :=
  match state r with
  | Body 0 _ => {| state := fresh_header; oversized_rejected := oversized_rejected r |}
  | _ => r
  end.

Definition feed (r : TcpReassembler) (b : byte) : TcpReassembler * list (list byte) :=
  let r := settle r in
  let '(r', _, d) := push_step r [b] in
  (r', option_list d).

Fixpoint feed_all (r : TcpReassembler) (bytes : list byte) :
    TcpReassembler * list (list byte) :=
  match bytes with
  | [] => (r, [])
  | b :: bytes =>
      let '(r1, ds1) := feed r b in
      let '(r2, ds2) := feed_all r1 bytes in
      (r2, ds1 ++ ds2)
  end.

(** A sequence of chunks as the socket delivers them. *)
Fixpoint push_all (r : TcpReassembler) (chunks : list (list byte)) :
    option (TcpReassembler * list (list byte)) :=
  match chunks with
  | [] => Some (r, [])
  | c :: cs =>
      '(r1, ds1) ← push r c;
      '(r2, ds2) ← push_all r1 cs;
      Some (r2, ds1 ++ ds2)
  end.

(** ** Lemmas *)
Lemma feed_all_app r b1 b2 :
  feed_all r (b1 ++ b2) =
    (fst (feed_all (fst (feed_all r b1)) b2),
     snd (feed_all r b1) ++ snd (feed_all (fst (feed_all r b1)) b2)).
Proof.
  revert r. induction b1 as [|b b1 IH]; intros r; cbn [app feed_all].
  - cbn. by destruct (feed_all r b2).
  - destruct (feed r b) as [r1 ds1]. rewrite IH.
    destruct (feed_all r1 b1) as [r2 ds2]. cbn [fst snd]. by rewrite app_assoc.
Qed.

Lemma settle_wf r : state_wf (state r) -> state_wf (state (settle r)).
Proof. destruct r as [[buf f|[|e] buf] o]; cbn; done. Qed.

Lemma settle_settle r : settle (settle r) = settle r.
Proof. by destruct r as [[buf f|[|e] buf] o]. Qed.

Lemma feed_settle r b : feed (settle r) b = feed r b.
Proof. unfold feed. by rewrite settle_settle. Qed.

(** The first byte of a header, read alone or together with the second. *)
Lemma header_0_step o b buf :
  length buf = 2%nat ->
  push_step {| state := Header buf 0; oversized_rejected := o |} [b] =
    ({| state := Header [b; nth 1 buf b] 1; oversized_rejected := o |}, [], None) /\
  (forall c bs, push_step {| state := Header buf 0; oversized_rejected := o |} (b :: c :: bs) =
   push_step {| state := Header [b; nth 1 buf b] 1; oversized_rejected := o |} (c :: bs)).
Proof.
  intros Hb. destruct buf as [|b1 [|b2 [|? ?]]]; try done.
  split; [done|]. intros c bs. unfold push_step; cbn [state oversized_rejected].
  unfold TCP_LENGTH_PREFIX_BYTES. rewrite !N.min_l by (rewrite !lenN_cons; lia).
  reflexivity.
Qed.

Lemma header_1_step o b b0 b1 bytes :
  exists r', state_wf (state r') /\
  push_step {| state := Header [b0; b1] 1; oversized_rejected := o |} (b :: bytes) =
    (r', bytes, None) /\
  r' = (let len := be_value [b0; b] in
        if TCP_MAX_DATAGRAM_BYTES <? len
        then {| state := fresh_header; oversized_rejected := wrap 32 (o + 1) |}
        else {| state := Body len []; oversized_rejected := o |}).
Proof.
  unfold push_step; cbn [state oversized_rejected]. unfold TCP_LENGTH_PREFIX_BYTES.
  rewrite !N.min_l by (rewrite !lenN_cons; lia).
  change (N.to_nat (2 - 1)) with 1%nat. change (1 + (2 - 1) =? 2) with true. cbn [take drop]. rewrite take_0, drop_0.
  replace (copy_into [b0; b1] 1 [b]) with [b0; b] by done. cbn zeta.
  destruct (TCP_MAX_DATAGRAM_BYTES <? be_value [b0; b]) eqn:E; eexists; split_and!;
    try reflexivity.
  - cbn. lia.
  - cbn [state state_wf]. reflectN. split; [done|]. rewrite lenN_nil.
    destruct (N.eq_0_gt_0_cases (be_value [b0; b])); auto.
Qed.

Lemma body_step_partial o e buf bytes :
  lenN buf + lenN bytes < e ->
  push_step {| state := Body e buf; oversized_rejected := o |} bytes =
    ({| state := Body e (buf ++ bytes); oversized_rejected := o |}, [], None).
Proof.
  intros Hl. unfold push_step; cbn [state oversized_rejected].
  rewrite N.min_r by lia. rewrite to_nat_lenN, firstn_all, drop_all, lenN_app.
  by rewrite (proj2 (N.eqb_neq _ _)) by lia.
Qed.

Lemma body_step_full o e buf bytes rest :
  lenN buf + lenN bytes = e -> 0 < e ->
  push_step {| state := Body e buf; oversized_rejected := o |} (bytes ++ rest) =
    ({| state := fresh_header; oversized_rejected := o |}, rest, Some (buf ++ bytes)).
Proof.
  intros Hl He. unfold push_step; cbn [state oversized_rejected].
  rewrite (lenN_app bytes rest), N.min_l by lia.
  replace (N.to_nat (e - lenN buf)) with (length bytes) by (unfold lenN in *; lia).
  rewrite take_app_length, drop_app_length, lenN_app, Hl, N.eqb_refl.
  by rewrite (proj2 (N.ltb_lt _ _)).
Qed.

Lemma body_feed_partial o e buf bytes :
  lenN buf + lenN bytes < e ->
  feed_all {| state := Body e buf; oversized_rejected := o |} bytes =
    ({| state := Body e (buf ++ bytes); oversized_rejected := o |}, []).
Proof.
  revert buf. induction bytes as [|b bytes IH]; intros buf Hl.
  - cbn. by rewrite app_nil_r.
  - rewrite lenN_cons in Hl. cbn [feed_all]. unfold feed.
    replace (settle _) with {| state := Body e buf; oversized_rejected := o |}
      by (destruct e; [lia|done]).
    rewrite body_step_partial by (rewrite lenN_cons, lenN_nil; lia). cbn [option_list].
    rewrite IH by (rewrite lenN_app, lenN_cons, lenN_nil; lia). by rewrite <- app_assoc.
Qed.

Lemma body_feed_full o e buf bytes :
  lenN buf + lenN bytes = e -> lenN buf < e ->
  feed_all {| state := Body e buf; oversized_rejected := o |} bytes =
    ({| state := fresh_header; oversized_rejected := o |}, [buf ++ bytes]).
Proof.
  intros Hl Hb. destruct (exists_last (l := bytes)) as (bs & b & ->).
  { intros ->. rewrite lenN_nil in Hl. lia. }
  rewrite lenN_app, lenN_cons, lenN_nil in Hl.
  rewrite feed_all_app, body_feed_partial by lia. cbn [fst snd feed_all]. unfold feed.
  replace (settle _) with {| state := Body e (buf ++ bs); oversized_rejected := o |}
    by (destruct e; [lia|done]).
  pose proof (body_step_full o e (buf ++ bs) [b] []) as Hs. cbn [app] in Hs.
  rewrite Hs by (rewrite ?lenN_app, ?lenN_cons, ?lenN_nil; lia).
  cbn. by rewrite app_assoc.
Qed.

(** Iterations the loop still needs. *)
Definition need (r : TcpReassembler) (bytes : list byte) : nat :=
  match state r with
  | Body 0 _ => 2 * length bytes
  | _ => 2 * length bytes - 1
  end.

Lemma header_1_feed o b b0 b1 bytes r' :
  push_step {| state := Header [b0; b1] 1; oversized_rejected := o |} (b :: bytes) =
    (r', bytes, None) ->
  feed_all {| state := Header [b0; b1] 1; oversized_rejected := o |} (b :: bytes) =
    feed_all r' bytes.
Proof.
  intros Hs. destruct (header_1_step o b b0 b1 bytes) as (r1 & _ & Hs1 & Hr1).
  destruct (header_1_step o b b0 b1 []) as (r2 & _ & Hs2 & Hr2).
  rewrite Hs1 in Hs. injection Hs as <-. cbn [feed_all]. unfold feed.
  change (settle _) with {| state := Header [b0; b1] 1; oversized_rejected := o |}.
  rewrite Hs2, Hr2, <- Hr1. cbn. by destruct (feed_all r1 bytes).
Qed.

Lemma push_step_feed r bytes :
  state_wf (state r) -> bytes <> [] ->
  exists r' rest d,
    push_step r bytes = (r', rest, d) /\ state_wf (state r') /\
    feed_all r bytes = (fst (feed_all r' rest), option_list d ++ snd (feed_all r' rest)) /\
    (rest = [] \/ (need r' rest < need r bytes)%nat).
Proof.
  intros Hw Hne. destruct bytes as [|b bytes]; [done|].
  destruct r as [[buf filled|e buf] o]; cbn [state state_wf] in Hw.
  - destruct Hw as [Hb Hf].
    assert (Hone : forall b1 b0 c bs, exists r', state_wf (state r') /\
      push_step {| state := Header [b0; b1] 1; oversized_rejected := o |} (c :: bs) = (r', bs, None) /\
      feed_all {| state := Header [b0; b1] 1; oversized_rejected := o |} (c :: bs) =
        feed_all r' bs).
    { intros. destruct (header_1_step o c b0 b1 bs) as (r' & Hw' & Hs & _). eauto using header_1_feed. }
    assert (filled = 0 \/ filled = 1) as [-> | ->] by lia.
    + destruct (header_0_step o b buf Hb) as [Hs Hs'].
      assert (Hfd : feed {| state := Header buf 0; oversized_rejected := o |} b =
        ({| state := Header [b; nth 1 buf b] 1; oversized_rejected := o |}, [])).
      { unfold feed. change (settle _) with {| state := Header buf 0; oversized_rejected := o |}.
        by rewrite Hs. }
      destruct bytes as [|c bs].
      * eexists _, _, _. split; [exact Hs|]. split; [by cbn|]. split; [|by left].
        cbn [feed_all]. by rewrite Hfd.
      * rewrite Hs'. destruct (Hone (nth 1 buf b) b c bs) as (r' & Hw' & Hp & Hfa).
        exists r', bs, None. split_and!; auto.
        -- change (b :: c :: bs) with ([b] ++ c :: bs). rewrite feed_all_app. cbn [feed_all].
           rewrite Hfd. cbn [fst snd app]. change (option_list None) with (@nil (list byte)).
           by rewrite <- Hfa.
        -- destruct bs; [by left|right]. unfold need; cbn [state].
           destruct (state r') as [|[] ?]; cbn [length]; lia.
    + destruct buf as [|b0 [|b1 [|? ?]]]; try done.
      destruct (Hone b1 b0 b bytes) as (r' & Hw' & Hp & Hfa). exists r', bytes, None.
      split_and!; auto.
      * rewrite Hfa. by destruct (feed_all r' bytes).
      * destruct bytes; [by left|right]. unfold need; cbn [state].
        destruct (state r') as [|[] ?]; cbn [length]; lia.
  - destruct Hw as [He [Hl|[-> ->]]].
    + destruct (N.lt_ge_cases (lenN buf + lenN (b :: bytes)) e) as [Hlt|Hge].
      * rewrite body_step_partial, body_feed_partial by done.
        eexists _, _, _. split; [done|]. split; [|split; [done|by left]].
        cbn [state state_wf]. split; [done|]. left. by rewrite lenN_app.
      * set (n := N.to_nat (e - lenN buf)).
        rewrite <- (take_drop n (b :: bytes)). set (t := take n (b :: bytes)).
        set (rest := drop n (b :: bytes)).
        assert (Ht : lenN buf + lenN t = e).
        { unfold t, lenN in *. rewrite length_take. unfold n. lia. }
        rewrite (body_step_full o e buf t rest Ht) by lia. eexists _, _, _. split; [done|]. split; [done|]. split.
        -- rewrite feed_all_app, body_feed_full by done. done.
        -- right. unfold need; cbn [state]. rewrite length_app.
           assert (0 < length t)%nat by (unfold lenN in *; lia).
           change (match fresh_header with Body 0 _ => 2 * length rest | _ => 2 * length rest - 1 end)%nat
             with (2 * length rest - 1)%nat. destruct e; lia.
    + exists {| state := fresh_header; oversized_rejected := o |}, (b :: bytes), None.
      split; [done|]. split; [by cbn|]. split; [|right; unfold need; cbn [state fresh_header length]; lia].
      cbn [feed_all]. unfold feed.
      change (settle {| state := Body 0 []; oversized_rejected := o |}) with
        (settle {| state := fresh_header; oversized_rejected := o |}).
      by destruct (push_step _ _) as [[r1 ?] d], (feed_all r1 bytes).
Qed.

Lemma push_loop_feed fuel r bytes acc :
  state_wf (state r) -> (need r bytes <= fuel)%nat ->
  push_loop fuel r bytes acc = Some (fst (feed_all r bytes), acc ++ snd (feed_all r bytes)).
Proof.
  revert r bytes acc. induction fuel as [|fuel IH]; intros r bytes acc Hw Hn;
    (destruct bytes as [|b bytes]; [cbn; by rewrite app_nil_r|]).
  - exfalso. unfold need in Hn. destruct (state r) as [|[] ?]; cbn [length] in Hn; lia.
  - destruct (push_step_feed r (b :: bytes) Hw ltac:(done)) as (r' & rest & d & Hs & Hw' & Hf & Hd).
    cbn [push_loop]. rewrite Hs, Hf. cbn [fst snd]. rewrite app_assoc.
    destruct Hd as [-> |Hd].
    + cbn. rewrite app_nil_r. by destruct fuel.
    + apply IH; [done|lia].
Qed.

Lemma push_feed r bytes :
  state_wf (state r) -> push r bytes = Some (feed_all r bytes).
Proof.
  intros Hw. unfold push. rewrite push_loop_feed; [by destruct (feed_all r bytes)|done|].
  unfold need, push_fuel. destruct (state r) as [|[] ?]; lia.
Qed.

Lemma feed_all_wf r bytes : state_wf (state r) -> state_wf (state (fst (feed_all r bytes))).
Proof.
  revert r. induction bytes as [|b bytes IH]; intros r Hw; [done|].
  assert (Hf : state_wf (state (fst (feed r b)))).
  { unfold feed. destruct (push_step_feed (settle r) [b] (settle_wf _ Hw) ltac:(done))
      as (r' & rest & d & Hs & Hw' & _ & _). by rewrite Hs. }
  cbn [feed_all]. destruct (feed r b) as [r1 ds1]. specialize (IH r1 Hf).
  by destruct (feed_all r1 bytes).
Qed.

Lemma push_all_feed r chunks :
  state_wf (state r) -> push_all r chunks = Some (feed_all r (mjoin chunks)).
Proof.
  revert r. induction chunks as [|c cs IH]; intros r Hw; [done|].
  cbn [push_all]. rewrite push_feed by done. cbn [mbind option_bind].
  destruct (feed_all r c) as [r1 ds1] eqn:E1.
  rewrite IH by (rewrite <- (feed_all_wf r c Hw), E1 || (pose proof (feed_all_wf r c Hw) as H; by rewrite E1 in H)).
  cbn [mbind option_bind]. change (mjoin (c :: cs)) with (c ++ mjoin cs). rewrite feed_all_app, E1. cbn [fst snd].
  by destruct (feed_all r1 (mjoin cs)).
Qed.

Lemma new_wf : state_wf (state new).
Proof. by cbn. Qed.

(** Delivered datagrams have 1 to 1200 bytes. *)
Lemma feed_bounds r b :
  state_wf (state r) -> Forall (fun d => 1 <= lenN d <= TCP_MAX_DATAGRAM_BYTES) (snd (feed r b)).
Proof.
  intros Hw. unfold feed. pose proof (settle_wf r Hw) as Hs. revert Hs.
  generalize (settle r) as q. intros [[buf f|e buf] o]; cbn [state state_wf]; intros Hs.
  - unfold push_step; cbn [state oversized_rejected]. case_ifs; constructor.
  - unfold push_step; cbn [state oversized_rejected]. case_ifs; cbn [snd option_list]; try constructor; try constructor;
      unfold lenN in *; lia.
Qed.

Lemma feed_all_bounds r bytes :
  state_wf (state r) ->
  Forall (fun d => 1 <= lenN d <= TCP_MAX_DATAGRAM_BYTES) (snd (feed_all r bytes)).
Proof.
  revert r. induction bytes as [|b bytes IH]; intros r Hw; [constructor|].
  pose proof (feed_bounds r b Hw) as Hb. pose proof (feed_all_wf r [b] Hw) as Hw'.
  cbn [feed_all] in *. destruct (feed r b) as [r1 ds1]. specialize (IH r1 Hw').
  destruct (feed_all r1 bytes) as [r2 ds2]. by apply Forall_app.
Qed.

Lemma feed_all_settle r bytes :
  bytes <> [] -> feed_all (settle r) bytes = feed_all r bytes.
Proof. destruct bytes; [done|]. intros _. cbn [feed_all]. by rewrite feed_settle. Qed.

(** One whole frame, read from a header boundary. *)
Lemma feed_frame o d frame :
  encode d = Some frame ->
  exists r, feed_all {| state := fresh_header; oversized_rejected := o |} frame =
      (r, if 0 <? lenN d then [d] else []) /\
    settle r = {| state := fresh_header; oversized_rejected := o |}.
Proof.
  unfold encode. destruct (_ <? _) eqn:Hlt; [done|]. reflectN. intros Hf. apply (inj Some) in Hf as <-.
  rewrite wrap_small by (unfold TCP_MAX_DATAGRAM_BYTES in *; lia).
  destruct (be_bytes 2 (lenN d)) as [|hi [|lo [|? ?]]] eqn:Hp; try by apply (f_equal length) in Hp.
  assert (Hv : be_value [hi; lo] = lenN d).
  { rewrite <- Hp. apply be_value_bytes_small.
    unfold TCP_MAX_DATAGRAM_BYTES in *. change (256 ^ N.of_nat 2) with 65536. lia. }
  assert (H0 : feed_all {| state := fresh_header; oversized_rejected := o |} [hi] =
    ({| state := Header [hi; nth 1 [Byte.x00; Byte.x00] hi] 1; oversized_rejected := o |}, [])).
  { cbn [feed_all]. unfold feed.
    change (settle _) with {| state := fresh_header; oversized_rejected := o |}.
    pose proof (proj1 (header_0_step o hi [Byte.x00; Byte.x00] eq_refl)) as Hh.
    unfold fresh_header. by rewrite Hh. }
  change ([hi; lo] ++ d) with ([hi] ++ lo :: d). rewrite feed_all_app, H0. cbn [fst snd app].
  destruct (header_1_step o lo hi (nth 1 [Byte.x00; Byte.x00] hi) d) as (r' & _ & Hs & Hr).
  rewrite (header_1_feed _ _ _ _ _ _ Hs), Hr, Hv.
  cbn zeta. rewrite (proj2 (N.ltb_ge _ _) Hlt).
  destruct (N.eq_0_gt_0_cases (lenN d)) as [Hd|Hd].
  - apply lenN_0 in Hd as ->. eexists. split; [reflexivity|done].
  - rewrite body_feed_full by (rewrite ?lenN_nil; lia). cbn [fst snd app].
    rewrite (proj2 (N.ltb_lt _ _)) by done. eexists. split; [reflexivity|done].
Qed.

Lemma feed_frames o ds frames :
  mapM encode ds = Some frames ->
  exists r, feed_all {| state := fresh_header; oversized_rejected := o |} (mjoin frames) =
      (r, filter (fun d => d <> []) ds) /\
    settle r = {| state := fresh_header; oversized_rejected := o |}.
Proof.
  revert frames. induction ds as [|d ds IH]; intros frames.
  - intros [= <-]. by eexists.
  - cbn [mapM]. destruct (encode d) as [f|] eqn:Hd; [|done]. cbn [mbind option_bind].
    destruct (mapM encode ds) as [fs|] eqn:Hds; [|done]. intros [= <-].
    destruct (feed_frame o d f Hd) as (r1 & Hr1 & Hs1). destruct (IH fs eq_refl) as (r2 & Hr2 & Hs2).
    change (mjoin (f :: fs)) with (f ++ mjoin fs). rewrite feed_all_app, Hr1. cbn [fst snd].
    rewrite filter_cons.
    assert (Hd' : (if 0 <? lenN d then [d] else []) = if decide (d <> []) then [d] else []).
    { destruct d; [done|]. rewrite lenN_cons, (proj2 (N.ltb_lt _ _)) by lia. by rewrite decide_True. }
    rewrite Hd'. destruct (mjoin fs) as [|x xs] eqn:Hj.
    + cbn [feed_all fst snd]. injection Hr2 as <- Hnil. exists r1. split; [|done].
      rewrite <- Hnil. by destruct (decide _).
    + rewrite <- Hs1, feed_all_settle in Hr2 by done. rewrite Hr2. exists r2. split; [|done].
      by destruct (decide _).
Qed.

(** ** Properties *)

(** C19: the reassembler's output does not depend on how the socket cuts the
    stream into chunks: the chunks one by one leave the same state and deliver
    the same datagrams as the whole stream at once (and the loop always ends).
    Every datagram delivered, from any stream, has 1 to 1200 bytes. *)
Theorem reassembly_chunk_independent (pre chunks : list (list byte)) :
  exists r ds1 r' ds2,
    push_all new pre = Some (r, ds1) /\
    push_all r chunks = Some (r', ds2) /\ push r (mjoin chunks) = Some (r', ds2) /\
    push new (mjoin (pre ++ chunks)) = Some (r', ds1 ++ ds2) /\
    Forall (fun d => 1 <= lenN d <= TCP_MAX_DATAGRAM_BYTES) (ds1 ++ ds2).
Proof.
  destruct (feed_all new (mjoin pre)) as [r ds1] eqn:E1.
  pose proof (feed_all_wf new (mjoin pre) new_wf) as Hw. rewrite E1 in Hw. cbn [fst] in Hw.
  destruct (feed_all r (mjoin chunks)) as [r' ds2] eqn:E2.
  pose proof (feed_all_bounds new (mjoin (pre ++ chunks)) new_wf) as Hb.
  assert (Ha : feed_all new (mjoin (pre ++ chunks)) = (r', ds1 ++ ds2)).
  { rewrite join_app, feed_all_app, E1. cbn [fst snd]. by rewrite E2. }
  rewrite Ha in Hb. exists r, ds1, r', ds2.
  rewrite !push_all_feed, !push_feed, Ha by (done || apply new_wf).
  by rewrite E1, E2.
Qed.

(** round trip.  The frames of any sequence of datagrams within the
    limit, sent as one stream and cut into chunks anywhere, come back as exactly
    the non-empty datagrams in order, with nothing rejected; a datagram longer
    than 1200 bytes is refused by [encode] instead of truncated. *)
Theorem tcp_stream_roundtrip (ds frames chunks : list (list byte)) :
  mapM encode ds = Some frames -> mjoin chunks = mjoin frames ->
  exists r, push_all new chunks = Some (r, filter (fun d => d <> []) ds) /\
    oversized_rejected r = 0 /\ settle r = new /\
    forall d, encode d = None <-> TCP_MAX_DATAGRAM_BYTES < lenN d.
Proof.
  intros He Hj. rewrite push_all_feed by apply new_wf. rewrite Hj.
  destruct (feed_frames 0 ds frames He) as (r & Hr & Hs). exists r.
  change new with {| state := fresh_header; oversized_rejected := 0 |}. rewrite Hr.
  split_and!; auto.
  - apply (f_equal oversized_rejected) in Hs. by destruct r as [[|[] ?] ?].
  - intros d. unfold encode. case_ifs; split; intros; try done; lia.
Qed.

Lemma tcp_stream_roundtrip_witness :
  let d1 := replicate 300 Byte.x41 in
  exists r, push_all new ([Byte.x01] :: (Byte.x2c :: d1 ++ [Byte.x00]) :: [Byte.x00; Byte.x00] ::
                          [[Byte.x01; Byte.x42]]) =
      Some (r, filter (fun d => d <> []) [d1; []; [Byte.x42]]) /\
    oversized_rejected r = 0 /\ settle r = new /\
    forall d, encode d = None <-> TCP_MAX_DATAGRAM_BYTES < lenN d.
Proof.
  apply (tcp_stream_roundtrip [replicate 300 Byte.x41; []; [Byte.x42]]
    [Byte.x01 :: Byte.x2c :: replicate 300 Byte.x41; [Byte.x00; Byte.x00];
     [Byte.x00; Byte.x01; Byte.x42]]); vm_compute; reflexivity.
Defined.

(** The latency penalty tracker of [core/lbtp/src/tcp_fallback.rs]. *)
Module TcpPenalty.
Definition TCP_RTT_EWMA_ALPHA : f64 := f_lit 125 1000.
Definition TCP_FALLBACK_PENALTY_FLOOR_MS : N := 30.

Record TcpPenaltyTracker := mkTracker { udp_baseline_ms : N; smoothed_rtt : option f64 }.

Definition new (udp_baseline : N) : TcpPenaltyTracker :=
  {| udp_baseline_ms := udp_baseline; smoothed_rtt := None |}.

Definition observe_rtt_ms (t : TcpPenaltyTracker) (rtt_ms : N) : TcpPenaltyTracker :=
  let sample := f_of_N rtt_ms in
  {| udp_baseline_ms := udp_baseline_ms t;
     smoothed_rtt :=
       Some match smoothed_rtt t with
            | None => sample
            | Some prev =>
                (prev * (f_one - TCP_RTT_EWMA_ALPHA) + sample * TCP_RTT_EWMA_ALPHA)%f64
            end |}.

Definition penalty_ms (t : TcpPenaltyTracker) : N :=
  let raw :=
    match smoothed_rtt t with
    | None => 0
    | Some s =>
        let diff := (s - f_of_N (udp_baseline_ms t))%f64 in
        f_to_uN 32 (f_round (f_max diff f_zero))
    end in
  N.max raw TCP_FALLBACK_PENALTY_FLOOR_MS.

Definition smoothed_rtt_ms (t : TcpPenaltyTracker) : option N :=
  (fun s => f_to_uN 32 (f_round s)) <$> smoothed_rtt t.

Definition set_udp_baseline_ms (t : TcpPenaltyTracker) (baseline_ms : N) : TcpPenaltyTracker :=
  {| udp_baseline_ms := baseline_ms; smoothed_rtt := smoothed_rtt t |}.

(** ** Lemmas *)
Definition between (lo hi : N) (x : f64) : Prop :=
  good x /\ (fz (f_of_N lo) <= fz x <= fz (f_of_N hi))%Z.

Lemma sample_between lo hi n : lo <= n <= hi -> hi < 2 ^ 32 -> between lo hi (f_of_N n).
Proof.
  intros Hn Hh. destruct (f_of_N_spec n) as (G & V & _); [lia|].
  destruct (f_of_N_spec lo) as (_ & Vl & _); [lia|]. destruct (f_of_N_spec hi) as (_ & Vh & _); [lia|].
  split; [done|]. rewrite V, Vl, Vh. pose proof scale_pos. nia.
Qed.

(** An integer below [2^32] times 1/8 or 7/8 is exact. *)
Lemma eighth_exact n k : n < 2 ^ 32 -> k <= 8 ->
  exists z, good z /\ (fz z = Z.of_N k * Z.of_N n * 2 ^ 1071)%Z.
Proof.
  intros Hn Hk. exists (binary_normalize 53 1024 (Z.of_N k * Z.of_N n) (-3) false).
  destruct (normalize_exact (Z.of_N k * Z.of_N n) (-3)) as (G & V & _); [nia|lia|]. by split.
Qed.

(** The weighted mean of two values between integers [lo] and [hi] is between
    them, exactly: the weights are dyadic. *)
Lemma ewma_between lo hi prev sample :
  hi < 2 ^ 32 -> lo <= hi -> between lo hi prev -> between lo hi sample ->
  between lo hi (prev * (f_one - TCP_RTT_EWMA_ALPHA) + sample * TCP_RTT_EWMA_ALPHA)%f64.
Proof.
  intros Hh Hlo [Gp [Hp1 Hp2]] [Gs [Hs1 Hs2]].
  set (c := (f_one - TCP_RTT_EWMA_ALPHA)%f64). set (d := TCP_RTT_EWMA_ALPHA).
  assert (Gc : good c) by f_const. assert (Fc : is_finite c = true) by f_const.
  assert (Gd : good d) by f_const. assert (Fd : is_finite d = true) by f_const.
  assert (Vc : fz c = (7 * 2 ^ 1071)%Z) by (vm_compute; reflexivity).
  assert (Vd : fz d = (2 ^ 1071)%Z) by (vm_compute; reflexivity).
  destruct (f_of_N_spec hi) as (Gh & Vh & Fh); [lia|]. destruct (f_of_N_spec lo) as (Gl & Vl & Fl); [lia|].
  assert (Fp := finite_le prev _ Gp Gh Fh Hp2). assert (Fs := finite_le sample _ Gs Gh Fh Hs2).
  destruct (eighth_exact hi 7) as (X & GX & VX); [done..|]. destruct (eighth_exact hi 1) as (Y & GY & VY); [done..|].
  destruct (eighth_exact lo 7) as (X' & GX' & VX'); [lia..|]. destruct (eighth_exact lo 1) as (Y' & GY' & VY'); [lia..|].
  assert (H74 : (scale = 8 * 2 ^ 1071)%Z) by reflexivity.
  assert (Hpow : (0 < 2 ^ 1071)%Z) by (apply Z.pow_pos_nonneg; lia).
  destruct (wsum_upper prev c sample d X Y (f_of_N hi) Gp Gc Gs Gd GX GY Gh Fp Fc Fs Fd Fh)
    as (G & Hle & _ & F1 & F2).
  - rewrite Vc, VX. rewrite Vh, H74 in Hp2. rewrite H74. generalize dependent (2 ^ 1071)%Z. intros. nia.
  - rewrite Vd, VY. rewrite Vh, H74 in Hs2. rewrite H74. generalize dependent (2 ^ 1071)%Z. intros. nia.
  - rewrite VX, VY, Vh, H74. lia.
  - split; [exact G|]. split; [|exact Hle].
    apply (wsum_lower prev c sample d X' Y' (f_of_N lo) Gp Gc Gs Gd GX' GY' Gl Fp Fc Fs Fd F1 F2).
    + rewrite Vc, VX'. rewrite Vl, H74 in Hp1. rewrite H74. generalize dependent (2 ^ 1071)%Z. intros. nia.
    + rewrite Vd, VY'. rewrite Vl, H74 in Hs1. rewrite H74. generalize dependent (2 ^ 1071)%Z. intros. nia.
    + rewrite VX', VY', Vl, H74. lia.
Qed.

Lemma observe_between lo hi t samples s :
  lo <= hi -> hi < 2 ^ 32 -> Forall (fun n => lo <= n <= hi) samples ->
  smoothed_rtt t = Some s -> between lo hi s ->
  exists s', smoothed_rtt (fold_left observe_rtt_ms samples t) = Some s' /\ between lo hi s'.
Proof.
  intros Hlo Hh Hs. revert t s. induction Hs as [|m samples Hm _ IH]; intros t s Es Hb; [by eauto|].
  cbn [fold_left]. eapply IH; [unfold observe_rtt_ms; by rewrite Es|].
  apply ewma_between; [done..|by apply sample_between].
Qed.

(** ** Properties *)

(** the penalty shown is never below the 30 ms floor and is exactly the
    floor before the first sample; the smoothed RTT never leaves the range of the
    samples observed, rounding included. *)
Theorem penalty_honest (base lo hi : N) (samples : list N) :
  lo <= hi -> hi < 2 ^ 32 -> Forall (fun n => lo <= n <= hi) samples ->
  let t := fold_left observe_rtt_ms samples (new base) in
  TCP_FALLBACK_PENALTY_FLOOR_MS <= penalty_ms t /\
  match smoothed_rtt t with
  | None => samples = [] /\ penalty_ms t = TCP_FALLBACK_PENALTY_FLOOR_MS
  | Some s => between lo hi s
  end.
Proof.
  intros Hlo Hh Hs t. split; [unfold penalty_ms; lia|].
  destruct samples as [|n samples]; [done|].
  apply Forall_cons in Hs as [Hn Hs]. unfold t. cbn [fold_left].
  destruct (observe_between lo hi (observe_rtt_ms (new base) n) samples (f_of_N n) Hlo Hh Hs)
    as (s' & Es & Hb); [done|by apply sample_between|]. by rewrite Es.
Qed.

Lemma penalty_honest_witness :
  let t := fold_left observe_rtt_ms [80; 120; 95] (new 40) in
  TCP_FALLBACK_PENALTY_FLOOR_MS <= penalty_ms t /\ penalty_ms t = 46 /\
  match smoothed_rtt t with
  | None => [80; 120; 95] = [] /\ penalty_ms t = TCP_FALLBACK_PENALTY_FLOOR_MS
  | Some s => between 80 120 s
  end.
Proof.
  destruct (penalty_honest 40 80 120 [80; 120; 95]) as [H1 H2]; [lia|lia|repeat constructor; lia|].
  split; [exact H1|]. split; [vm_compute; reflexivity|exact H2].
Defined.
End TcpPenalty.
