(* ===== verification/Pacer.v ===== *)
(** The channel-priority token-bucket pacer: [core/lbtp/src/pacer.rs].

    Token balances are [f64]; queues are an array of nine FIFO lists.
    Enqueueing on a channel above 8 indexes out of the array, which panics:
    [None]. *)
From S2P Require Import Prelude F64 F64Bounds.
#[local] Open Scope N_scope.

Definition NUM_CHANNELS : N := 9.
Definition BURST_TOLERANCE_MS : f64 := f_of_Z 5.
Definition DATAGRAM_OVERHEAD : N := 19.
Definition FRAME_HEADER_OVERHEAD : N := 2.
Definition MAX_DATAGRAM_PAYLOAD_BYTES : N := 1200 - DATAGRAM_OVERHEAD.
Definition MAX_FRAME_DATA_BYTES : N := MAX_DATAGRAM_PAYLOAD_BYTES - FRAME_HEADER_OVERHEAD.

Definition PRIORITY_ORDER : list N := [0; 3; 2; 1; 4; 5; 6; 7; 8].

Inductive DeliveryClass := Realtime | ReliableUnordered | ReliableOrdered.

#[export] Instance DeliveryClass_eq_dec : EqDecision DeliveryClass.
Proof. solve_decision. Defined.

Definition CHANNEL_DELIVERY_CLASS : list DeliveryClass :=
  [ReliableOrdered; Realtime; ReliableOrdered; ReliableOrdered; Realtime; Realtime;
   ReliableUnordered; ReliableUnordered; Realtime].

(** [None] is the panic of an index out of range. *)
Definition delivery_class (ch : N) : option DeliveryClass :=
  CHANNEL_DELIVERY_CLASS !! N.to_nat ch.

Record PacerFrame := mkFrame { channel : N; data : list byte }.

Definition data_len (f : PacerFrame) : N := lenN (data f).

Record PacerAggregatedDatagram := mkDatagram { frames : list PacerFrame }.

Definition data_bytes (d : PacerAggregatedDatagram) : N := sum_of data_len (frames d).

Record Pacer := mkPacer {
  queues : list (list PacerFrame);
  token_bytes : f64;
  rate_bps : f64;
  burst_cap_bytes : f64;
}.

Definition burst_cap_for_rate (rate : f64) : f64 :=
  (rate * BURST_TOLERANCE_MS / f_of_Z 8000)%f64.

Definition new (initial_rate_bps : f64) : Pacer :=
  {| queues := replicate (N.to_nat NUM_CHANNELS) []; token_bytes := f_zero;
     rate_bps := initial_rate_bps; burst_cap_bytes := burst_cap_for_rate initial_rate_bps |}.

Definition set_rate (p : Pacer) (rate : f64) : Pacer :=
  let cap := burst_cap_for_rate rate in
  {| queues := queues p; token_bytes := f_min (token_bytes p) cap;
     rate_bps := rate; burst_cap_bytes := cap |}.

Definition advance (p : Pacer) (elapsed_ns : N) : Pacer :=
  let added := (rate_bps p * f_of_N elapsed_ns / f_of_Z 8000000000)%f64 in
  {| queues := queues p; token_bytes := f_min (token_bytes p + added)%f64 (burst_cap_bytes p);
     rate_bps := rate_bps p; burst_cap_bytes := burst_cap_bytes p |}.

Definition queue (p : Pacer) (ch : N) : list PacerFrame := default [] (queues p !! N.to_nat ch).

Definition set_queue (p : Pacer) (ch : N) (q : list PacerFrame) (tokens : f64) : Pacer :=
  {| queues := <[N.to_nat ch := q]> (queues p); token_bytes := tokens;
     rate_bps := rate_bps p; burst_cap_bytes := burst_cap_bytes p |}.

Definition enqueue (p : Pacer) (frame : PacerFrame) : option (Pacer * bool) :=
  if MAX_FRAME_DATA_BYTES <? data_len frame then Some (p, false)
  else
    q ← queues p !! N.to_nat (channel frame);
    Some (set_queue p (channel frame) (q ++ [frame]) (token_bytes p), true).

(** The scan of [dequeue] over the channels of [order]. *)
Fixpoint dequeue_scan (p : Pacer) (order : list N) : Pacer * option PacerFrame :=
  match order with
  | [] => (p, None)
  | ch :: order =>
      match queue p ch with
      | frame :: rest =>
          let needed := f_of_N (data_len frame) in
          if (token_bytes p >=? needed)%f64
          then (set_queue p ch rest (token_bytes p - needed)%f64, Some frame)
          else dequeue_scan p order
      | [] => dequeue_scan p order
      end
  end.

Definition dequeue (p : Pacer) : Pacer * option PacerFrame := dequeue_scan p PRIORITY_ORDER.

(** One pass of the inner loop of [drain_tick]: it takes one frame, drops one
    that can never fit, or finds nothing. *)
Inductive PassResult :=
| Took (p : Pacer) (frame : PacerFrame) (slot : N)
| Dropped (p : Pacer)
| Nothing.

Fixpoint drain_pass (p : Pacer) (datagram_used : N) (is_first : bool) (order : list N) :
    PassResult :=
  match order with
  | [] => Nothing
  | ch :: order =>
      match queue p ch with
      | [] => drain_pass p datagram_used is_first order
      | front :: rest =>
          let token_needed := f_of_N (data_len front) in
          if (token_bytes p <? token_needed)%f64 then drain_pass p datagram_used is_first order
          else
            let slot := FRAME_HEADER_OVERHEAD + data_len front in
            if MAX_DATAGRAM_PAYLOAD_BYTES <? slot then Dropped (set_queue p ch rest (token_bytes p))
            else if negb is_first && (MAX_DATAGRAM_PAYLOAD_BYTES <? datagram_used + slot)
            then drain_pass p datagram_used is_first order
            else Took (set_queue p ch rest (token_bytes p - token_needed)%f64) front slot
      end
  end.

(** The loop ['outer]; [None] when the fuel runs out. *)
Fixpoint drain_loop (fuel : nat) (p : Pacer) (taken : list PacerFrame) (datagram_used : N) :
    option (Pacer * list PacerFrame) :=
  match fuel with
  | O => None
  | S fuel =>
      match drain_pass p datagram_used (match taken with [] => true | _ => false end)
              PRIORITY_ORDER with
      | Took p' f slot => drain_loop fuel p' (taken ++ [f]) (datagram_used + slot)
      | Dropped p' => drain_loop fuel p' taken datagram_used
      | Nothing => Some (p, taken)
      end
  end.

(** The queries index the array: [None] is the panic out of range. *)
Definition queued_frames (p : Pacer) (ch : N) : option N := lenN <$> queues p !! N.to_nat ch.

Definition total_queued_frames (p : Pacer) : N := sum_of lenN (queues p).

Definition pending_bytes (p : Pacer) (ch : N) : option N :=
  sum_of data_len <$> queues p !! N.to_nat ch.

(** Every iteration but the last removes a frame from a queue. *)
Definition drain_fuel (p : Pacer) : nat := S (N.to_nat (total_queued_frames p)).

Definition drain_tick (p : Pacer) : option (Pacer * option PacerAggregatedDatagram) :=
  '(p', taken) ← drain_loop (drain_fuel p) p [] 0;
  Some (p', match taken with [] => None | _ => Some {| frames := taken |} end).

(** ** Specification *)

(** The unit of token balances as exact values. *)
Definition units (n : N) : Z := Z.of_N n * scale.

(** Rates up to [2^50] bit/s: balances stay exact. *)
Definition rate_ok (r : f64) : Prop := good r /\ (fz r <= units (2 ^ 50))%Z.

Definition queue_ok (ch : nat) (q : list PacerFrame) : Prop :=
  Forall (fun f => channel f = N.of_nat ch /\ data_len f <= MAX_FRAME_DATA_BYTES) q.

Record inv (p : Pacer) : Prop := {
  inv_length : length (queues p) = N.to_nat NUM_CHANNELS;
  inv_queues : forall ch q, queues p !! ch = Some q -> queue_ok ch q;
  inv_rate : rate_ok (rate_bps p);
  inv_cap : burst_cap_bytes p = burst_cap_for_rate (rate_bps p);
  inv_tokens : good (token_bytes p) /\ (fz (token_bytes p) <= fz (burst_cap_bytes p))%Z;
}.

(** The token balance covers the frame. *)
Definition covers (p : Pacer) (f : PacerFrame) : Prop :=
  (units (data_len f) <= fz (token_bytes p))%Z.

#[export] Instance covers_dec p f : Decision (covers p f).
Proof. unfold covers. apply _. Defined.

(** The front frame of [ch] may join a datagram of which [used] payload bytes are
    taken. *)
Definition eligible (p : Pacer) (used : N) (ch : N) : bool :=
  match queue p ch with
  | [] => false
  | f :: _ => bool_decide (covers p f) &&
              (FRAME_HEADER_OVERHEAD + data_len f + used <=? MAX_DATAGRAM_PAYLOAD_BYTES)
  end.

(** The declarative drain: as long as some front frame is eligible, take the one
    of highest priority. *)
Inductive greedy : Pacer -> N -> list PacerFrame -> Pacer -> Prop :=
| greedy_stop p used :
    find (eligible p used) PRIORITY_ORDER = None -> greedy p used [] p
| greedy_take p used ch f rest fs p' :
    find (eligible p used) PRIORITY_ORDER = Some ch ->
    queue p ch = f :: rest ->
    greedy (set_queue p ch rest (token_bytes p - f_of_N (data_len f))%f64)
      (used + (FRAME_HEADER_OVERHEAD + data_len f)) fs p' ->
    greedy p used (f :: fs) p'.

(** The front frame of [ch] is covered by the token balance. *)
Definition affordable (p : Pacer) (ch : N) : bool :=
  match queue p ch with [] => false | f :: _ => bool_decide (covers p f) end.

(** The calls of the event loop on one pacer. *)
Inductive Op :=
| OAdvance (elapsed_ns : N)
| OSetRate (rate : f64)
| OEnqueue (frame : PacerFrame)
| ODequeue
| ODrain.

Definition op_ok (o : Op) : Prop :=
  match o with
  | OAdvance ns => ns < 2 ^ 64
  | OSetRate r => rate_ok r
  | OEnqueue f => channel f < NUM_CHANNELS
  | _ => True
  end.

Definition run_op (p : Pacer) (o : Op) : option Pacer :=
  match o with
  | OAdvance ns => Some (advance p ns)
  | OSetRate r => Some (set_rate p r)
  | OEnqueue f => fst <$> enqueue p f
  | ODequeue => Some (fst (dequeue p))
  | ODrain => fst <$> drain_tick p
  end.

Fixpoint run_ops (p : Pacer) (os : list Op) : option Pacer :=
  match os with
  | [] => Some p
  | o :: os => p' ← run_op p o; run_ops p' os
  end.

(** The frames a sequence of calls adds to a channel: those offered on it that are
    not too long for a datagram. *)
Definition accepted_on (ch : N) (os : list Op) : list PacerFrame :=
  omap (fun o => match o with
    | OEnqueue g => if bool_decide (channel g = ch) && (data_len g <=? MAX_FRAME_DATA_BYTES) then Some g else None
    | _ => None
    end) os.

(** ** Lemmas *)

(** The size limits as numerals, for arithmetic. *)
Ltac limits :=
  change MAX_FRAME_DATA_BYTES with 1179 in *;
  change MAX_DATAGRAM_PAYLOAD_BYTES with 1181 in *;
  change FRAME_HEADER_OVERHEAD with 2 in *.

Section pacer.
Implicit Types p : Pacer.

Lemma units_mono a b : a <= b -> (units a <= units b)%Z.
Proof. intros. unfold units. apply Z.mul_le_mono_nonneg_r; scale_lia. Qed.

Lemma units_nonneg n : (0 <= units n)%Z.
Proof. unfold units. pose proof scale_pos. nia. Qed.

Lemma f_of_N_units n :
  n < 2 ^ 53 -> good (f_of_N n) /\ fz (f_of_N n) = units n /\ is_finite (f_of_N n) = true.
Proof. apply f_of_N_spec. Qed.

Lemma rate_finite r : rate_ok r -> good r /\ is_finite r = true.
Proof.
  intros [Hg Hle]. split; [done|]. rewrite good_finite by done. apply Z.ltb_lt.
  apply Z.le_lt_trans with (units (2 ^ 50)); [done|]. reflexivity.
Qed.

(** The burst cap of a rate is a good float below [2^53]. *)
Lemma cap_ok r :
  rate_ok r -> good (burst_cap_for_rate r) /\ (fz (burst_cap_for_rate r) <= units (5 * 2 ^ 50))%Z.
Proof.
  intros Hr. destruct (rate_finite r Hr) as [Hg _]. destruct Hr as [_ Hle].
  destruct (f_of_N_units (2 ^ 50)) as (H1 & H2 & H3); [done|].
  destruct (f_of_N_units (5 * 2 ^ 50)) as (K1 & K2 & K3); [done|].
  destruct (mul_bound r (f_of_Z 5) (f_of_N (2 ^ 50)) Hg ltac:(lia) H1 H3 (proj1 (f_of_Z_spec 5 ltac:(lia)))
    (proj2 (proj2 (f_of_Z_spec 5 ltac:(lia)))) (f_of_N (5 * 2 ^ 50)) K1 K3) as (Ha & Hb & Hc).
  { rewrite H2, K2, (proj1 (proj2 (f_of_Z_spec 5 ltac:(lia)))). unfold units. lia. }
  destruct (div_bound (r * f_of_Z 5)%f64 (f_of_Z 8000) (f_of_N (5 * 2 ^ 50)) Ha Hc) as (Hd & He & _);
    try done.
Qed.

Lemma inv_tokens_small p :
  inv p -> good (token_bytes p) /\ (fz (token_bytes p) < 2 ^ 53 * scale)%Z.
Proof.
  intros Hi. destruct (inv_tokens p Hi) as [Hg Hle]. split; [done|].
  rewrite (inv_cap p Hi) in Hle. destruct (cap_ok _ (inv_rate p Hi)) as [_ Hc].
  eapply Z.le_lt_trans; [exact Hle|]. eapply Z.le_lt_trans; [exact Hc|]. reflexivity.
Qed.

Lemma queue_lookup p ch f rest :
  queue p ch = f :: rest -> queues p !! N.to_nat ch = Some (f :: rest).
Proof. unfold queue. destruct (queues p !! N.to_nat ch); [cbn; by intros ->|done]. Qed.

Lemma front_ok p ch f rest :
  inv p -> queue p ch = f :: rest -> channel f = ch /\ data_len f <= MAX_FRAME_DATA_BYTES.
Proof.
  intros Hi Hq%queue_lookup. pose proof (inv_queues p Hi _ _ Hq) as Hok.
  apply Forall_cons in Hok as [[Hc Hl] _]. split; [lia|done].
Qed.

Lemma covers_leb p f :
  inv p -> data_len f <= MAX_FRAME_DATA_BYTES ->
  SFleb (f_of_N (data_len f)) (token_bytes p) = bool_decide (covers p f) /\
  SFltb (token_bytes p) (f_of_N (data_len f)) = negb (bool_decide (covers p f)).
Proof.
  intros Hi Hl. destruct (inv_tokens_small p Hi) as [Hg _].
  destruct (f_of_N_units (data_len f)) as (Hn & Hv & _); [limits; lia|].
  rewrite f_leb_good, f_ltb_good, Hv by done. unfold covers.
  destruct (Z.leb_spec (units (data_len f)) (fz (token_bytes p)));
    destruct (Z.ltb_spec (fz (token_bytes p)) (units (data_len f)));
    rewrite ?bool_decide_true, ?bool_decide_false by lia; try done; lia.
Qed.

(** Taking the front frame of a queue pays exactly its length. *)
Lemma pay_exact p f :
  inv p -> covers p f ->
  good (token_bytes p - f_of_N (data_len f))%f64 /\
  fz (token_bytes p - f_of_N (data_len f))%f64 = (fz (token_bytes p) - units (data_len f))%Z.
Proof. intros Hi Hc. destruct (inv_tokens_small p Hi). by apply f_sub_exact. Qed.

Lemma queue_set_queue p ch q t ch' :
  (N.to_nat ch < length (queues p))%nat ->
  queue (set_queue p ch q t) ch' = if decide (ch' = ch) then q else queue p ch'.
Proof.
  intros Hl. unfold queue, set_queue; cbn [queues]. destruct (decide (ch' = ch)) as [->|Hne].
  - by rewrite list_lookup_insert_eq.
  - by rewrite list_lookup_insert_ne by lia.
Qed.

Lemma inv_set_queue p ch q t :
  inv p -> queue_ok (N.to_nat ch) q -> good t -> (fz t <= fz (token_bytes p))%Z ->
  inv (set_queue p ch q t).
Proof.
  intros [Hl Hq Hr Hc [Hg Hle]] Hok Ht Htle. unfold set_queue. split; cbn; auto.
  - by rewrite length_insert.
  - intros ch' q' Hlk. apply list_lookup_insert_Some in Hlk as [(<- & <- & _)|[_ Hlk]]; eauto.
  - split; [done|lia].
Qed.

Lemma inv_take p ch f rest :
  inv p -> queue p ch = f :: rest -> covers p f ->
  inv (set_queue p ch rest (token_bytes p - f_of_N (data_len f))%f64).
Proof.
  intros Hi Hq Hc. destruct (pay_exact p f Hi Hc) as [Hg Hv].
  apply inv_set_queue; [done| |done|].
  - pose proof (inv_queues p Hi _ _ (queue_lookup _ _ _ _ Hq)) as Hok. by apply Forall_cons in Hok as [_ ?].
  - rewrite Hv. pose proof (units_nonneg (data_len f)). lia.
Qed.

(** The pass finds the first eligible channel. *)
Lemma drain_pass_find p used is_first order :
  inv p -> (is_first = true -> used = 0) ->
  drain_pass p used is_first order =
    match find (eligible p used) order with
    | None => Nothing
    | Some ch =>
        match queue p ch with
        | [] => Nothing
        | f :: rest =>
            Took (set_queue p ch rest (token_bytes p - f_of_N (data_len f))%f64) f
                 (FRAME_HEADER_OVERHEAD + data_len f)
        end
    end.
Proof.
  intros Hi Hfirst. induction order as [|ch order IH]; [done|].
  cbn [drain_pass find]. unfold eligible at 1.
  destruct (queue p ch) as [|f rest] eqn:Hq; [done|].
  destruct (front_ok p ch f rest Hi Hq) as [_ Hl].
  destruct (covers_leb p f Hi Hl) as [_ ->].
  destruct (bool_decide (covers p f)); cbn [negb andb]; [|done].
  rewrite (proj2 (N.ltb_ge MAX_DATAGRAM_PAYLOAD_BYTES _)) by (limits; lia).
  rewrite N.ltb_antisym, (N.add_comm used).
  destruct is_first; cbn [negb andb].
  - rewrite Hfirst by done. rewrite (proj2 (N.leb_le _ _)); [by rewrite Hq|limits; lia].
  - destruct (_ <=? MAX_DATAGRAM_PAYLOAD_BYTES) eqn:E; cbn [negb andb]; [by rewrite Hq|done].
Qed.

Lemma total_set_queue p ch f rest t :
  queue p ch = f :: rest ->
  total_queued_frames (set_queue p ch rest t) + 1 = total_queued_frames p.
Proof.
  intros Hq%queue_lookup. unfold total_queued_frames, set_queue; cbn [queues].
  pose proof (sum_of_insert lenN (queues p) (N.to_nat ch) _ rest Hq) as H.
  rewrite lenN_cons in H. lia.
Qed.

Lemma eligible_front p used ch :
  eligible p used ch = true ->
  exists f rest, queue p ch = f :: rest /\ covers p f /\
    FRAME_HEADER_OVERHEAD + data_len f + used <= MAX_DATAGRAM_PAYLOAD_BYTES.
Proof.
  unfold eligible. destruct (queue p ch) as [|f rest]; [done|].
  intros [Hc%bool_decide_eq_true Hl%N.leb_le]%andb_true_iff. eauto.
Qed.

(** The loop returns, and what it returns is a greedy drain. *)
Lemma drain_loop_greedy fuel p taken used :
  inv p -> (taken = [] -> used = 0) -> total_queued_frames p < N.of_nat fuel ->
  exists p' fs, drain_loop fuel p taken used = Some (p', taken ++ fs) /\ greedy p used fs p'.
Proof.
  revert p taken used. induction fuel as [|fuel IH]; intros p taken used Hi Hu Hf; [lia|].
  cbn [drain_loop]. rewrite drain_pass_find by (done || (intros; apply Hu; by destruct taken)).
  destruct (find (eligible p used) PRIORITY_ORDER) as [ch|] eqn:Hfind.
  - pose proof (find_some _ _ Hfind) as [_ He].
    destruct (eligible_front p used ch He) as (f & rest & Hq & Hc & Hl). rewrite Hq.
    destruct (IH (set_queue p ch rest (token_bytes p - f_of_N (data_len f))%f64)
      (taken ++ [f]) (used + (FRAME_HEADER_OVERHEAD + data_len f))) as (p' & fs & Hd & Hg).
    + by apply inv_take.
    + by destruct taken.
    + pose proof (total_set_queue p ch f rest (token_bytes p - f_of_N (data_len f))%f64 Hq). lia.
    + exists p', (f :: fs). rewrite Hd, <- app_assoc. split; [done|]. by eapply greedy_take.
  - exists p, []. rewrite app_nil_r. split; [done|]. by apply greedy_stop.
Qed.

Definition slot (f : PacerFrame) : N := FRAME_HEADER_OVERHEAD + data_len f.

Lemma greedy_spec p used fs p' :
  greedy p used fs p' -> inv p -> used <= MAX_DATAGRAM_PAYLOAD_BYTES ->
  inv p' /\ rate_bps p' = rate_bps p /\
  (forall ch, queue p ch = filter (fun f => channel f = ch) fs ++ queue p' ch) /\
  used + sum_of slot fs <= MAX_DATAGRAM_PAYLOAD_BYTES /\
  fz (token_bytes p) = (fz (token_bytes p') + units (sum_of data_len fs))%Z /\
  (forall ch, ch < NUM_CHANNELS -> eligible p' (used + sum_of slot fs) ch = false).
Proof.
  induction 1 as [p used Hnone|p used ch f rest fs p' Hfind Hq Hg IH]; intros Hi Hu.
  - split_and!; try done.
    + rewrite sum_of_nil. lia.
    + unfold units. rewrite sum_of_nil. lia.
    + intros ch Hch. pose proof (find_none _ _ Hnone ch) as H.
      rewrite sum_of_nil, N.add_0_r. apply H. unfold PRIORITY_ORDER, NUM_CHANNELS in *. cbn.
      lia.
  - pose proof (find_some _ _ Hfind) as [_ He].
    destruct (eligible_front p used ch He) as (f' & rest' & Hq' & Hc & Hl).
    rewrite Hq in Hq'. injection Hq' as <- <-.
    destruct (IH (inv_take _ _ _ _ Hi Hq Hc)) as (IH1 & IH2 & IH3 & IH4 & IH5 & IH6); [lia|].
    destruct (front_ok p ch f rest Hi Hq) as [Hch _].
    rewrite !sum_of_cons. split_and!; try done.
    + intros ch'. specialize (IH3 ch').
      assert (Hlt : (N.to_nat ch < length (queues p))%nat)
        by (eapply lookup_lt_Some, queue_lookup, Hq).
      rewrite queue_set_queue in IH3 by done. rewrite filter_cons.
      destruct (decide (ch' = ch)) as [->|Hne].
      * rewrite decide_True by done. by rewrite Hq, IH3.
      * rewrite decide_False by congruence. done.
    + unfold slot in *. lia.
    + destruct (pay_exact p f Hi Hc) as [_ Hp]. cbn [set_queue token_bytes] in IH5.
      rewrite Hp in IH5. unfold units in *. lia.
    + intros ch' Hch'. specialize (IH6 ch' Hch'). unfold slot in *. by rewrite N.add_assoc.
Qed.

Lemma drain_tick_greedy p :
  inv p -> exists p' fs, greedy p 0 fs p' /\
    drain_tick p = Some (p', match fs with [] => None | _ => Some {| frames := fs |} end).
Proof.
  intros Hi. destruct (drain_loop_greedy (drain_fuel p) p [] 0 Hi) as (p' & fs & Hd & Hg);
    [done|unfold drain_fuel; lia|].
  exists p', fs. split; [done|]. unfold drain_tick. by rewrite Hd.
Qed.

Lemma dequeue_scan_find p order :
  inv p ->
  dequeue_scan p order =
    match find (affordable p) order with
    | None => (p, None)
    | Some ch =>
        match queue p ch with
        | [] => (p, None)
        | f :: rest => (set_queue p ch rest (token_bytes p - f_of_N (data_len f))%f64, Some f)
        end
    end.
Proof.
  intros Hi. induction order as [|ch order IH]; [done|].
  cbn [dequeue_scan find]. unfold affordable at 1.
  destruct (queue p ch) as [|f rest] eqn:Hq; [done|].
  destruct (front_ok p ch f rest Hi Hq) as [_ Hl].
  destruct (covers_leb p f Hi Hl) as [-> _].
  destruct (bool_decide (covers p f)); [by rewrite Hq|done].
Qed.

Lemma affordable_front p ch :
  affordable p ch = true -> exists f rest, queue p ch = f :: rest /\ covers p f.
Proof.
  unfold affordable. destruct (queue p ch) as [|f rest]; [done|].
  intros Hc%bool_decide_eq_true. eauto.
Qed.

Lemma inv_dequeue p : inv p -> inv (fst (dequeue p)).
Proof.
  intros Hi. unfold dequeue. rewrite dequeue_scan_find by done.
  destruct (find (affordable p) PRIORITY_ORDER) as [ch|] eqn:Hf; [|done].
  pose proof (find_some _ _ Hf) as [_ Ha]. destruct (affordable_front p ch Ha) as (f & rest & Hq & Hc).
  rewrite Hq. by apply inv_take.
Qed.

Lemma inv_enqueue p f :
  inv p -> channel f < NUM_CHANNELS -> exists p' b, enqueue p f = Some (p', b) /\ inv p'.
Proof.
  intros Hi Hch. unfold enqueue. destruct (_ <? _) eqn:E; [by eauto|]. reflectN.
  destruct (lookup_lt_is_Some_2 (queues p) (N.to_nat (channel f))) as [q Hq].
  { rewrite (inv_length p Hi). lia. }
  rewrite Hq. cbn. eexists _, _. split; [done|]. apply inv_set_queue; [done| |apply Hi|lia].
  apply Forall_app. split; [by eapply inv_queues|]. repeat constructor; [lia|done].
Qed.

Lemma added_ok r ns :
  rate_ok r -> ns < 2 ^ 64 ->
  good (r * f_of_N ns / f_of_Z 8000000000)%f64 /\
  is_finite (r * f_of_N ns / f_of_Z 8000000000)%f64 = true.
Proof.
  intros Hr Hn. destruct (rate_finite r Hr) as [Hg Hf]. destruct Hr as [_ Hle].
  destruct (normalize_exact 1 64) as (Hz1 & Hz2 & Hz3); [done|done|].
  destruct (normalize_exact 1 114) as (Hy1 & Hy2 & Hy3); [done|done|].
  destruct (f_of_N_units (2 ^ 50)) as (H1 & H2 & H3); [done|].
  set (z := binary_normalize 53 1024 1 64 false) in *.
  set (y := binary_normalize 53 1024 1 114 false) in *.
  pose proof (binary_normalize_rounds (Z.of_N ns) 0 ltac:(lia) ltac:(lia)) as Hns.
  fold (f_of_Z (Z.of_N ns)) in Hns. change (f_of_Z (Z.of_N ns)) with (f_of_N ns) in Hns.
  assert (Hgn : good (f_of_N ns)) by apply Hns.
  assert (Hnz : (fz (f_of_N ns) <= fz z)%Z).
  { eapply rounds_le; [exact Hns|done|].
    rewrite Hz2, (pow_scale 0), (pow_scale 64), Z.mul_1_l, Z.mul_1_r, Z.mul_1_l by lia.
    apply Z.mul_le_mono_nonneg_r; scale_lia. }
  assert (Hfn : is_finite (f_of_N ns) = true).
  { rewrite good_finite in * by done. lia. }
  destruct (mul_bound r (f_of_N ns) (f_of_N (2 ^ 50)) Hg ltac:(lia) H1 H3 Hgn Hfn y Hy1 Hy3) as (Ha & Hb & Hc).
  { rewrite H2, Hy2, (pow_scale 114) by lia. rewrite Hz2, (pow_scale 64) in Hnz by lia.
    unfold units. pose proof scale_pos. pose proof (good_nonneg _ Hgn). nia. }
  destruct (f_of_Z_spec 8000000000) as (K1 & K2 & K3); [done|].
  destruct (div_bound (r * f_of_N ns)%f64 (f_of_Z 8000000000) y Ha Hc K1 K3) as (Hd & _ & He);
    [rewrite K2; scale_lia|exact Hy1|exact Hy3|exact Hb|]. by split.
Qed.

Lemma token_finite p : inv p -> is_finite (token_bytes p) = true.
Proof.
  intros Hi. destruct (inv_tokens_small p Hi) as [Hg Hlt]. rewrite good_finite by done.
  apply Z.ltb_lt. eapply Z.lt_trans; [exact Hlt|]. reflexivity.
Qed.

Lemma inv_advance p ns : inv p -> ns < 2 ^ 64 -> inv (advance p ns).
Proof.
  intros Hi Hn. destruct (added_ok _ ns (inv_rate p Hi) Hn) as [Ha Hfa].
  destruct (inv_tokens p Hi) as [Hg _].
  destruct (f_add_ge _ _ Hg Ha (token_finite p Hi) Hfa) as [Hs _].
  destruct (cap_ok _ (inv_rate p Hi)) as [Hc _].
  destruct Hi as [Hl Hq Hr Hcap _]. rewrite <- Hcap in Hc.
  destruct (f_min_spec _ _ Hs Hc) as [Hm Hv].
  unfold advance. split; cbn [queues rate_bps burst_cap_bytes token_bytes]; auto.
  split; [exact Hm|]. rewrite Hv. lia.
Qed.

Lemma inv_set_rate p r : inv p -> rate_ok r -> inv (set_rate p r).
Proof.
  intros Hi Hr. destruct (cap_ok r Hr) as [Hc _]. destruct (inv_tokens p Hi) as [Hg _].
  destruct (f_min_spec _ _ Hg Hc) as [Hm Hv]. destruct Hi as [Hl Hq _ _ _].
  unfold set_rate. split; cbn [queues rate_bps burst_cap_bytes token_bytes]; auto.
  split; [exact Hm|]. rewrite Hv. lia.
Qed.

Lemma inv_new r : rate_ok r -> inv (new r).
Proof.
  intros Hr. destruct (cap_ok r Hr) as [[Hv Hn] _]. split; cbn [new queues rate_bps burst_cap_bytes token_bytes].
  - by rewrite length_replicate.
  - intros ch q [-> _]%lookup_replicate. constructor.
  - done.
  - done.
  - split; [done|]. exact (nonneg_fz _ Hv Hn).
Qed.

Lemma inv_run_op p o : inv p -> op_ok o -> exists p', run_op p o = Some p' /\ inv p'.
Proof.
  intros Hi Ho. destruct o as [ns|r|f| |]; cbn [run_op op_ok] in *.
  - eauto using inv_advance.
  - eauto using inv_set_rate.
  - destruct (inv_enqueue p f Hi Ho) as (p' & b & He & Hi'). rewrite He. eauto.
  - eauto using inv_dequeue.
  - destruct (drain_tick_greedy p Hi) as (p' & fs & Hg & Hd). rewrite Hd. cbn.
    destruct (greedy_spec _ _ _ _ Hg Hi) as (Hi' & _); [done|]. eauto.
Qed.

Lemma inv_run_ops p os : inv p -> Forall op_ok os -> exists p', run_ops p os = Some p' /\ inv p'.
Proof.
  intros Hi Hos. revert p Hi. induction Hos as [|o os Ho _ IH]; intros p Hi; [cbn; eauto|].
  destruct (inv_run_op p o Hi Ho) as (p1 & H1 & Hi1). cbn [run_ops]. rewrite H1. cbn. by apply IH.
Qed.

Lemma sum_of_elem {A} (g : A -> N) x l : x ∈ l -> g x <= sum_of g l.
Proof. induction 1; rewrite sum_of_cons; lia. Qed.

Lemma not_covered p ch f rest :
  inv p -> queue p ch = f :: rest -> (fz (burst_cap_bytes p) < units (data_len f))%Z -> ~ covers p f.
Proof. intros Hi Hq Hc Hcov. destruct (inv_tokens p Hi) as [_ Hle]. unfold covers in Hcov. lia. Qed.

Lemma stuck_step p o ch f rest :
  inv p -> op_ok o -> match o with OSetRate _ => False | _ => True end ->
  queue p ch = f :: rest -> (fz (burst_cap_bytes p) < units (data_len f))%Z ->
  exists p', run_op p o = Some p' /\ queue p' ch = f :: rest ++ accepted_on ch [o] /\
    burst_cap_bytes p' = burst_cap_bytes p.
Proof.
  intros Hi Ho Hns Hq Hbig. pose proof (not_covered p ch f rest Hi Hq Hbig) as Hnc.
  unfold accepted_on. destruct o as [ns|r|g| |]; cbn [run_op omap list_omap]; rewrite ?app_nil_r; [|done|..].
  - exists (advance p ns). done.
  - cbn [op_ok] in Ho. unfold enqueue. destruct (N.ltb_spec MAX_FRAME_DATA_BYTES (data_len g)) as [Hgt|Hle].
    { rewrite (proj2 (N.leb_gt _ _)) by done. rewrite andb_false_r, app_nil_r. cbn. eauto. }
    rewrite (proj2 (N.leb_le _ _)), andb_true_r by done.
    destruct (lookup_lt_is_Some_2 (queues p) (N.to_nat (channel g))) as [q Hlk].
    { rewrite (inv_length p Hi). unfold NUM_CHANNELS in *. lia. }
    rewrite Hlk. cbn [mbind option_bind fmap option_fmap option_map fst]. eexists. split; [reflexivity|]. split; [|done].
    rewrite queue_set_queue by (by eapply lookup_lt_Some).
    destruct (decide (ch = channel g)) as [->|Hne]; [rewrite bool_decide_true by done|rewrite bool_decide_false by congruence].
    + unfold queue in Hq. rewrite Hlk in Hq. cbn in Hq. by rewrite Hq.
    + by rewrite app_nil_r.
  - unfold dequeue. rewrite dequeue_scan_find by done.
    destruct (find (affordable p) PRIORITY_ORDER) as [ch'|] eqn:Hf; [|cbn; eauto].
    pose proof (find_some _ _ Hf) as [_ Ha]. destruct (affordable_front p ch' Ha) as (f' & rest' & Hq' & Hc).
    rewrite Hq'. cbn [fst]. eexists. split; [reflexivity|]. split; [|done].
    rewrite queue_set_queue by (eapply lookup_lt_Some, queue_lookup, Hq').
    rewrite decide_False; [done|]. intros ->.
    rewrite Hq in Hq'. by injection Hq' as <- <-.
  - destruct (drain_tick_greedy p Hi) as (p' & fs & Hg & Hd).
    destruct (greedy_spec _ _ _ _ Hg Hi) as (Hi' & Hr & Hcons & _ & Htok & _); [done|].
    rewrite Hd. cbn. specialize (Hcons ch). rewrite Hq in Hcons.
    destruct (filter (fun f => channel f = ch) fs) as [|g gs] eqn:Hfil.
    + cbn in Hcons. exists p'. split; [done|]. split; [done|].
      by rewrite (inv_cap p Hi), (inv_cap p' Hi'), Hr.
    + exfalso. cbn in Hcons. injection Hcons as -> _.
      assert (Hin : g ∈ fs) by (eapply list_elem_of_filter; rewrite Hfil; apply list_elem_of_here).
      pose proof (units_mono _ _ (sum_of_elem data_len g fs Hin)).
      destruct (inv_tokens p' Hi') as [[Hv Hn] _]. pose proof (nonneg_fz _ Hv Hn).
      apply Hnc. unfold covers. lia.
Qed.
End pacer.

(** ** Properties *)

(** C38: in every state the event loop can reach (rates up to [2^50] bit/s,
    channels 0 to 8), no call panics and the pacer is well formed: each queue
    holds frames of its own channel that fit a datagram, and the token balance
    is between zero and the burst cap of the current rate. *)
Theorem pacer_invariant (r : f64) (os : list Op) :
  rate_ok r -> Forall op_ok os ->
  exists p, run_ops (new r) os = Some p /\ length (queues p) = 9%nat /\
    (forall ch q, queues p !! ch = Some q ->
      Forall (fun f => channel f = N.of_nat ch /\ data_len f <= 1179) q) /\
    (0 <= fz (token_bytes p) <= fz (burst_cap_for_rate (rate_bps p)))%Z /\
    is_finite (token_bytes p) = true.
Proof.
  intros Hr Hos. destruct (inv_run_ops (new r) os (inv_new r Hr) Hos) as (p & Hp & Hi).
  exists p. split; [done|]. split; [apply Hi|]. split; [apply Hi|].
  destruct (inv_tokens p Hi) as [[Hv Hn] Hle]. rewrite <- (inv_cap p Hi).
  split; [split; [exact (nonneg_fz _ Hv Hn)|done]|by apply token_finite].
Qed.

Lemma pacer_invariant_witness :
  exists p, run_ops (new (f_of_Z 150000))
      [OEnqueue (mkFrame 3 [Byte.x01]); OAdvance 1000000; ODrain] = Some p /\
    length (queues p) = 9%nat.
Proof.
  destruct (pacer_invariant (f_of_Z 150000)
    [OEnqueue (mkFrame 3 [Byte.x01]); OAdvance 1000000; ODrain]) as (p & H1 & H2 & _).
  - split; [by vm_compute|]. by vm_compute.
  - repeat constructor; vm_compute; done.
  - exists p. split; [exact H1|exact H2].
Defined.

(** C1: [drain_tick] implements the greedy specification: it always returns,
    and the frames it returns are obtained by taking, as long as some queue's
    front frame is covered by the tokens and fits, the front frame of the
    highest-priority such channel. *)
Theorem drain_tick_refines_greedy (p : Pacer) :
  inv p ->
  exists p' fs, greedy p 0 fs p' /\
    drain_tick p = Some (p', match fs with [] => None | _ => Some {| frames := fs |} end).
Proof. apply drain_tick_greedy. Qed.

Lemma drain_tick_refines_greedy_witness :
  exists p' fs, greedy (new (f_of_Z 150000)) 0 fs p' /\
    drain_tick (new (f_of_Z 150000)) =
      Some (p', match fs with [] => None | _ => Some {| frames := fs |} end).
Proof.
  apply (drain_tick_refines_greedy (new (f_of_Z 150000))).
  apply inv_new. split; [by vm_compute|]. by vm_compute.
Defined.

(** what a datagram costs and leaves.  Each channel's queue is the frames
    sent on it, in order, followed by what remains queued; with 19 bytes of
    envelope and 2 per frame the datagram stays within 1200 bytes; the tokens
    spent are exactly the data bytes sent (no rounding), so a datagram never
    exceeds the burst cap; and no channel is left with a front frame that was
    still covered and would have fitted. *)
Theorem drain_tick_accounts (p p' : Pacer) (d : PacerAggregatedDatagram) :
  inv p -> drain_tick p = Some (p', Some d) ->
  frames d <> [] /\
  (forall ch, queue p ch = filter (fun f => channel f = ch) (frames d) ++ queue p' ch) /\
  DATAGRAM_OVERHEAD + sum_of slot (frames d) <= 1200 /\
  fz (token_bytes p) = (fz (token_bytes p') + units (data_bytes d))%Z /\
  (units (data_bytes d) <= fz (burst_cap_bytes p))%Z /\
  (forall ch, ch < NUM_CHANNELS -> eligible p' (sum_of slot (frames d)) ch = false).
Proof.
  intros Hi Hd. destruct (drain_tick_greedy p Hi) as (q & fs & Hg & Hd').
  rewrite Hd in Hd'. destruct fs as [|f fs]; [done|]. injection Hd' as <- ->.
  destruct (greedy_spec _ _ _ _ Hg Hi) as (Hi' & _ & Hcons & Hs & Htok & Hmax); [done|].
  destruct (inv_tokens p Hi) as [_ Hle]. destruct (inv_tokens p' Hi') as [[Hv Hn] _].
  pose proof (nonneg_fz _ Hv Hn). unfold data_bytes. cbn [frames].
  split_and!; try done; [|lia]. unfold DATAGRAM_OVERHEAD. limits. lia.
Qed.

Lemma drain_tick_accounts_witness :
  exists p p' d, inv p /\ drain_tick p = Some (p', Some d) /\
    fz (token_bytes p) = (fz (token_bytes p') + units (data_bytes d))%Z.
Proof.
  set (os := [OEnqueue (mkFrame 3 [Byte.x01]); OAdvance 1000000]).
  assert (Hr : rate_ok (f_of_Z 150000)) by (split; by vm_compute).
  destruct (inv_run_ops (new (f_of_Z 150000)) os (inv_new _ Hr)) as (p & Hp & Hi).
  { repeat constructor. }
  assert (Hd : exists p' d, drain_tick p = Some (p', Some d)).
  { injection Hp as <-. eexists _, _. vm_compute. reflexivity. }
  destruct Hd as (p' & d & Hd). exists p, p', d.
  split; [exact Hi|]. split; [exact Hd|]. apply (drain_tick_accounts p p' d Hi Hd).
Defined.

(** [dequeue] returns the front frame of the first channel in
    [PRIORITY_ORDER] whose front frame the tokens cover, and charges exactly its
    length; it returns nothing only if they cover no front frame.  An
    uncovered frame does not hold back lower channels: input does not "always
    beat media frames regardless of frame size", as the crate documentation
    has it. *)
Theorem dequeue_by_priority (p : Pacer) :
  inv p ->
  match find (affordable p) PRIORITY_ORDER with
  | None => dequeue p = (p, None)
  | Some ch => exists f p', dequeue p = (p', Some f) /\ queue p ch = f :: queue p' ch /\
      (forall ch', ch' <> ch -> queue p' ch' = queue p ch') /\
      fz (token_bytes p') = (fz (token_bytes p) - units (data_len f))%Z
  end.
Proof.
  intros Hi. unfold dequeue. rewrite dequeue_scan_find by done.
  destruct (find (affordable p) PRIORITY_ORDER) as [ch|] eqn:Hf; [|done].
  pose proof (find_some _ _ Hf) as [_ Ha]. destruct (affordable_front p ch Ha) as (f & rest & Hq & Hc).
  rewrite Hq. eexists f, _. split; [done|].
  assert (Hlt : (N.to_nat ch < length (queues p))%nat) by (eapply lookup_lt_Some, queue_lookup, Hq).
  split; [by rewrite queue_set_queue, decide_True by done|].
  split; [intros ch' Hne; by rewrite queue_set_queue, decide_False by done|].
  by apply pay_exact.
Qed.

Lemma dequeue_by_priority_witness :
  (* 40 bytes of input wait while 10 bytes of audio overtake them *)
  let input := mkFrame 3 (replicate 40 Byte.x00) in
  let audio := mkFrame 1 (replicate 10 Byte.x00) in
  exists p, run_ops (new (f_of_Z 150000)) [OEnqueue input; OEnqueue audio; OAdvance 1000000] = Some p /\
    exists p', dequeue p = (p', Some audio) /\ queue p' 3 = [input].
Proof.
  set (input := mkFrame 3 (replicate 40 Byte.x00)). set (audio := mkFrame 1 (replicate 10 Byte.x00)).
  set (os := [OEnqueue input; OEnqueue audio; OAdvance 1000000]).
  assert (Hr : rate_ok (f_of_Z 150000)) by (split; by vm_compute).
  destruct (inv_run_ops (new (f_of_Z 150000)) os (inv_new _ Hr)) as (p & Hp & Hi).
  { repeat constructor. }
  exists p. split; [exact Hp|].
  pose proof (dequeue_by_priority p Hi) as Hd.
  assert (Hf : find (affordable p) PRIORITY_ORDER = Some 1) by (injection Hp as <-; by vm_compute).
  rewrite Hf in Hd. destruct Hd as (f & p' & Hd & Hq & Ho & _).
  assert (H1 : queue p 1 = [audio] /\ queue p 3 = [input])
    by (injection Hp as <-; split; vm_compute; reflexivity).
  destruct H1 as [H1 H3]. rewrite H1 in Hq. injection Hq as <- _.
  exists p'. split; [exact Hd|]. rewrite (Ho 3) by done. exact H3.
Defined.

(** C40: a frame larger than the burst cap is never sent, nor is anything behind it
    on its channel.  While the rate is unchanged, whatever time passes and whatever
    is called, the channel's queue only grows: it is what it was, followed by the
    frames enqueued on it since.  At 150 kbit/s the cap is 93.75 bytes, and
    [enqueue] accepts 1179. *)
Theorem oversized_frame_blocks_channel (p : Pacer) (os : list Op) (ch : N) (f : PacerFrame)
    (rest : list PacerFrame) :
  inv p -> Forall op_ok os ->
  Forall (fun o => match o with OSetRate _ => False | _ => True end) os ->
  queue p ch = f :: rest -> (fz (burst_cap_bytes p) < units (data_len f))%Z ->
  (exists p', run_ops p os = Some p' /\ queue p' ch = f :: rest ++ accepted_on ch os) /\
  burst_cap_for_rate (f_of_Z 150000) = f_lit 9375 100 /\ MAX_FRAME_DATA_BYTES = 1179.
Proof.
  intros Hi Hos Hns Hq Hbig. split; [|by vm_compute]. revert p rest Hi Hq Hbig.
  induction os as [|o os IH]; intros p rest Hi Hq Hbig; [exists p; by rewrite app_nil_r|].
  apply Forall_cons in Hos as [Ho Hos]. apply Forall_cons in Hns as [Hn Hns].
  destruct (stuck_step p o ch f rest Hi Ho Hn Hq Hbig) as (p1 & H1 & Hq1 & Hc1).
  destruct (inv_run_op p o Hi Ho) as (p1' & H1' & Hi1). rewrite H1 in H1'. injection H1' as <-.
  cbn [run_ops]. rewrite H1. cbn [mbind option_bind]. rewrite <- Hc1 in Hbig.
  destruct (IH Hos Hns p1 (rest ++ accepted_on ch [o]) Hi1 Hq1 Hbig) as (p' & Hp' & Hq').
  exists p'. split; [done|]. rewrite Hq', <- app_assoc. unfold accepted_on. by rewrite <- omap_app.
Qed.

Lemma oversized_frame_blocks_channel_witness :
  let f := mkFrame 1 (replicate 94 Byte.x00) in
  exists p, run_ops (new (f_of_Z 150000)) [OEnqueue f] = Some p /\
    exists p', run_ops p [OAdvance 1000000000; ODrain; OEnqueue (mkFrame 1 []); OAdvance 1000000000; ODequeue] = Some p' /\
      queue p' 1 = [f; mkFrame 1 []].
Proof.
  set (f := mkFrame 1 (replicate 94 Byte.x00)).
  assert (Hr : rate_ok (f_of_Z 150000)) by (split; by vm_compute).
  destruct (inv_run_ops (new (f_of_Z 150000)) [OEnqueue f] (inv_new _ Hr)) as (p & Hp & Hi).
  { repeat constructor. }
  exists p. split; [exact Hp|].
  destruct (oversized_frame_blocks_channel p
    [OAdvance 1000000000; ODrain; OEnqueue (mkFrame 1 []); OAdvance 1000000000; ODequeue] 1 f []) as [(p' & Hp' & Hq) _].
  - exact Hi.
  - repeat constructor.
  - repeat constructor.
  - injection Hp as <-. by vm_compute.
  - injection Hp as <-. by vm_compute.
  - exists p'. split; [exact Hp'|exact Hq].
Defined.
