(* ===== verification/Connection.v ===== *)
(** The paced connection: [core/lbtp/src/connection.rs], and the latency budget of
    input against it: [core/platform/src/input_latency_budget.rs] (Module
    [LatencyBudget]).

    [Instant::now()] is an argument: nanoseconds of the monotonic clock.  The
    process-global counter of connection identifiers is a [u64] that wraps. *)
From S2P Require Import Prelude F64 F64Bounds Pacer.
#[local] Open Scope N_scope.

Record Connection := mkConnection { id : N; pacer : Pacer; last_tick : N }.

(** [fetch_add] on the counter, then the constructor. *)
Definition new (next_id : N) (initial_rate_bps : f64) (now : N) : N * Connection :=
  let raw := next_id in
  let cid := if raw =? 0 then 1 else raw in
  (wrapping_add 64 next_id 1,
   {| id := cid; pacer := Pacer.new initial_rate_bps; last_tick := now |}).

Definition set_rate (c : Connection) (rate : f64) : Connection :=
  {| id := id c; pacer := Pacer.set_rate (pacer c) rate; last_tick := last_tick c |}.

Definition enqueue (c : Connection) (frame : PacerFrame) : option (Connection * bool) :=
  '(p, accepted) ← Pacer.enqueue (pacer c) frame;
  Some ({| id := id c; pacer := p; last_tick := last_tick c |}, accepted).

Definition tick_ns (c : Connection) (elapsed_ns : N) :
    option (Connection * option PacerAggregatedDatagram) :=
  '(p, d) ← drain_tick (advance (pacer c) elapsed_ns);
  Some ({| id := id c; pacer := p; last_tick := last_tick c |}, d).

(** [duration_since] is zero for an earlier instant; [as_nanos() as u64]. *)
Definition tick (c : Connection) (now : N) : option (Connection * option PacerAggregatedDatagram) :=
  let elapsed_ns := wrap 64 (now - last_tick c) in
  let c := {| id := id c; pacer := pacer c; last_tick := now |} in
  tick_ns c elapsed_ns.

(** ** A session of the event loop *)
Inductive Call :=
| CSetRate (rate : f64)
| CEnqueue (frame : PacerFrame)
| CTick (now : N).

Definition call_ok (k : Call) : Prop :=
  match k with
  | CSetRate r => rate_ok r
  | CEnqueue f => channel f < NUM_CHANNELS
  | CTick _ => True
  end.

(** The frames accepted and the frames sent by a call. *)
Definition call (c : Connection) (k : Call) : option (Connection * list PacerFrame * list PacerFrame) :=
  match k with
  | CSetRate r => Some (set_rate c r, [], [])
  | CEnqueue f =>
      '(c', ok) ← enqueue c f;
      Some (c', if (ok : bool) then [f] else [], [])
  | CTick now =>
      '(c', d) ← tick c now;
      Some (c', [], match d with Some d => frames d | None => [] end)
  end.

Fixpoint calls (c : Connection) (ks : list Call) : option (Connection * list PacerFrame * list PacerFrame) :=
  match ks with
  | [] => Some (c, [], [])
  | k :: ks =>
      '(c1, in1, out1) ← call c k;
      '(c2, in2, out2) ← calls c1 ks;
      Some (c2, in1 ++ in2, out1 ++ out2)
  end.

(** ** Lemmas *)
Lemma call_spec c k :
  inv (pacer c) -> call_ok k ->
  exists c' i o, call c k = Some (c', i, o) /\ inv (pacer c') /\ id c' = id c /\
    forall ch, filter (fun f => channel f = ch) o ++ queue (pacer c') ch =
      queue (pacer c) ch ++ filter (fun f => channel f = ch) i.
Proof.
  intros Hi Hk. destruct k as [r|f|now]; cbn [call call_ok] in *.
  - eexists _, _, _. split; [reflexivity|]. cbn [pacer set_rate id].
    split; [by apply inv_set_rate|]. split; [done|]. intros ch. by rewrite app_nil_r.
  - unfold enqueue. destruct (inv_enqueue (pacer c) f Hi Hk) as (p' & ok & He & Hi').
    rewrite He. cbn. eexists _, _, _. split; [reflexivity|]. cbn [pacer id].
    split; [done|]. split; [done|]. intros ch. cbn. revert He. unfold Pacer.enqueue.
    destruct (_ <? _); [intros [= <- <-]; by rewrite app_nil_r|].
    destruct (lookup_lt_is_Some_2 (queues (pacer c)) (N.to_nat (channel f))) as [q Hq].
    { rewrite (inv_length _ Hi). unfold NUM_CHANNELS in *. lia. }
    rewrite Hq. cbn. intros [= <- <-]. rewrite queue_set_queue by (by eapply lookup_lt_Some).
    unfold filter. cbn. destruct (decide (ch = channel f)) as [->|Hne].
    + rewrite decide_True by done. unfold queue. by rewrite Hq.
    + rewrite decide_False by congruence. by rewrite app_nil_r.
  - unfold tick, tick_ns. cbn [pacer id last_tick].
    set (p1 := advance (pacer c) (wrap 64 (now - last_tick c))).
    assert (Hi1 : inv p1) by (apply inv_advance; [done|apply wrap_lt]).
    destruct (drain_tick_greedy p1 Hi1) as (p' & fs & Hg & Hd). rewrite Hd. cbn.
    destruct (greedy_spec _ _ _ _ Hg Hi1) as (Hi' & _ & Hc & _); [done|].
    exists {| id := id c; pacer := p'; last_tick := now |}, [], fs.
    split; [by destruct fs|]. split; [done|]. split; [done|].
    intros ch. rewrite app_nil_r, <- Hc. done.
Qed.

Lemma calls_spec c ks :
  inv (pacer c) -> Forall call_ok ks ->
  exists c' i o, calls c ks = Some (c', i, o) /\ inv (pacer c') /\ id c' = id c /\
    forall ch, filter (fun f => channel f = ch) o ++ queue (pacer c') ch =
      queue (pacer c) ch ++ filter (fun f => channel f = ch) i.
Proof.
  intros Hi Hks. revert c Hi. induction Hks as [|k ks Hk _ IH]; intros c Hi.
  - exists c, [], []. split_and!; try done. intros ch. cbn. by rewrite app_nil_r.
  - destruct (call_spec c k Hi Hk) as (c1 & i1 & o1 & H1 & Hi1 & Hid1 & Hq1).
    destruct (IH c1 Hi1) as (c2 & i2 & o2 & H2 & Hi2 & Hid2 & Hq2).
    exists c2, (i1 ++ i2), (o1 ++ o2). cbn [calls]. rewrite H1. cbn. rewrite H2. cbn.
    split; [done|]. split; [done|]. split; [congruence|]. intros ch.
    rewrite !filter_app, <- app_assoc, Hq2, app_assoc, Hq1, app_assoc. done.
Qed.

(** ** Properties *)

(** C7: end to end, a session neither loses nor duplicates nor reorders a frame:
    on every channel, what was sent followed by what is still queued is exactly
    what was accepted, in order, for any interleaving of rate changes, enqueues
    and ticks of a clock that may even step back. *)
Theorem session_preserves_frames (next_id : N) (r : f64) (t0 : N) (ks : list Call) :
  rate_ok r -> Forall call_ok ks ->
  exists c accepted sent, calls (snd (new next_id r t0)) ks = Some (c, accepted, sent) /\
    id c <> 0 /\
    forall ch, filter (fun f => channel f = ch) sent ++ queue (pacer c) ch =
      filter (fun f => channel f = ch) accepted.
Proof.
  intros Hr Hks.
  destruct (calls_spec (snd (new next_id r t0)) ks (inv_new r Hr) Hks) as (c & i & o & H & _ & Hid & Hq).
  exists c, i, o. split; [done|]. split.
  - rewrite Hid. cbn. destruct (N.eqb_spec next_id 0); lia.
  - intros ch. rewrite Hq. cbn [new snd pacer]. unfold queue, Pacer.new; cbn [queues].
    destruct (replicate _ _ !! _) as [q|] eqn:E; [|done].
    apply lookup_replicate in E as [-> _]. done.
Qed.

Lemma session_preserves_frames_witness :
  let f1 := mkFrame 3 [Byte.x01] in let f2 := mkFrame 1 [Byte.x02] in
  exists c accepted sent,
    calls (snd (new 1 (f_of_Z 150000) 0)) [CEnqueue f2; CEnqueue f1; CTick 1000000] =
      Some (c, accepted, sent) /\ id c <> 0 /\
    forall ch, filter (fun f => channel f = ch) sent ++ queue (pacer c) ch =
      filter (fun f => channel f = ch) accepted.
Proof.
  apply (session_preserves_frames 1 (f_of_Z 150000) 0
    [CEnqueue (mkFrame 1 [Byte.x02]); CEnqueue (mkFrame 3 [Byte.x01]); CTick 1000000]).
  - split; [split; vm_compute; reflexivity|]. apply Z.leb_le. vm_compute. reflexivity.
  - repeat constructor.
Defined.

(** ** The latency budget of input *)
Module LatencyBudget.

Definition INPUT_TO_PHOTON_FIXED_OVERHEAD_MS : N := 20.
Definition INPUT_TO_PHOTON_SLA_MS : N := 60.
Definition INPUT_PACER_TICK_MS : N := 5.
Definition MAX_BACKLOG_WITHIN_SLA : N :=
  (INPUT_TO_PHOTON_SLA_MS - INPUT_TO_PHOTON_FIXED_OVERHEAD_MS) / INPUT_PACER_TICK_MS.

(** A [usize] has 64 bits. *)
Definition queuing_delay_ms (backlog_frames : N) : N := wrap 64 (backlog_frames * INPUT_PACER_TICK_MS).

Definition total_overhead_ms (backlog_frames : N) : N :=
  wrapping_add 64 INPUT_TO_PHOTON_FIXED_OVERHEAD_MS (queuing_delay_ms backlog_frames).

Definition within_sla (backlog_frames : N) : bool := total_overhead_ms backlog_frames <=? INPUT_TO_PHOTON_SLA_MS.

(** *** The pacer's ticks the budget counts *)
Definition CH_INPUT : N := 3.
Definition TICK_NS : N := INPUT_PACER_TICK_MS * 1000000.

Fixpoint ticks (n : nat) (p : Pacer) : option (Pacer * list PacerFrame) :=
  match n with
  | O => Some (p, [])
  | S n =>
      '(p1, d) ← drain_tick (advance p TICK_NS);
      '(p2, sent) ← ticks n p1;
      Some (p2, (match d with Some d => frames d | None => [] end) ++ sent)
  end.

(** The input frames of a list, in order. *)
Definition inputs (fs : list PacerFrame) : list PacerFrame := filter (fun f => channel f = CH_INPUT) fs.

(** A tick brings the balance back to the burst cap. *)
Definition refills (r : f64) : bool :=
  (burst_cap_for_rate r <=? r * f_of_N TICK_NS / f_of_Z 8000000000)%f64.

(** The burst cap of the rate covers the frame. *)
Definition small (r : f64) (f : PacerFrame) : Prop := (units (data_len f) <= fz (burst_cap_for_rate r))%Z.

(** A pacer whose control channel, the only one before input, is idle. *)
Record ready (r : f64) (p : Pacer) : Prop := {
  ready_inv : inv p; ready_rate : rate_bps p = r; ready_control : queue p 0 = [] }.

Lemma queue_advance p ns ch : queue (advance p ns) ch = queue p ch.
Proof. done. Qed.

Lemma full_balance r p :
  ready r p -> refills r = true -> (fz (burst_cap_for_rate r) <= fz (token_bytes (advance p TICK_NS)))%Z.
Proof.
  intros [Hi Hr _] Hf. destruct (inv_tokens p Hi) as [Hg _]. pose proof (inv_rate p Hi) as Hok. rewrite Hr in Hok.
  destruct (added_ok r TICK_NS Hok) as [Ha Hfa]; [reflexivity|].
  destruct (f_add_ge _ _ Hg Ha (token_finite p Hi) Hfa) as [Hs [_ Hge]].
  destruct (cap_ok r Hok) as [Hc _].
  unfold refills in Hf. rewrite (f_leb_good _ _ Hc Ha) in Hf. apply Z.leb_le in Hf.
  cbn [advance token_bytes]. rewrite Hr, (inv_cap p Hi), Hr.
  destruct (f_min_spec _ _ Hs Hc) as [_ ->]. lia.
Qed.

Lemma drain_ready r p :
  ready r p -> refills r = true ->
  exists p1 d fs, drain_tick (advance p TICK_NS) = Some (p1, d) /\
    match d with Some d => frames d | None => [] end = fs /\ ready r p1 /\
    queue p CH_INPUT = inputs fs ++ queue p1 CH_INPUT /\
    Forall (small r) fs /\
    match queue p CH_INPUT with f :: _ => small r f -> inputs fs <> [] | [] => True end.
Proof.
  intros Hrd Hf. pose proof (full_balance r p Hrd Hf) as Hfull. destruct Hrd as [Hi Hr H0].
  assert (Hi1 : inv (advance p TICK_NS)) by (by apply inv_advance).
  destruct (drain_tick_greedy _ Hi1) as (p1 & fs & Hg & Hd).
  destruct (greedy_spec _ _ _ _ Hg Hi1) as (Hi' & Hr' & Hq & _ & Htok & _); [done|].
  exists p1, (match fs with [] => None | _ => Some {| frames := fs |} end), fs.
  split; [exact Hd|]. split; [by destruct fs|]. split.
  { split; [done|by rewrite Hr'|]. pose proof (Hq 0) as Hq0. rewrite queue_advance, H0 in Hq0.
    symmetry in Hq0. by apply app_eq_nil in Hq0 as [_ ->]. }
  split; [apply (Hq CH_INPUT)|]. split.
  { apply Forall_forall. intros g Hin. pose proof (units_mono _ _ (sum_of_elem data_len g fs Hin)).
    destruct (inv_tokens p1 Hi') as [[Hv Hn] _]. pose proof (nonneg_fz _ Hv Hn).
    destruct (inv_tokens _ Hi1) as [_ Hle]. rewrite (inv_cap _ Hi1) in Hle. cbn [advance rate_bps] in Hle.
    rewrite Hr in Hle. unfold small. lia. }
  destruct (queue p CH_INPUT) as [|f rest] eqn:Hin; [done|]. intros Hs.
  assert (Hfind : find (eligible (advance p TICK_NS) 0) PRIORITY_ORDER = Some CH_INPUT).
  { cbn [find PRIORITY_ORDER]. unfold eligible at 1. rewrite queue_advance, H0.
    unfold eligible. change 3 with CH_INPUT. rewrite queue_advance, Hin.
    rewrite bool_decide_eq_true_2 by (unfold covers; unfold small in Hs; lia).
    destruct (front_ok _ CH_INPUT f rest Hi1) as [_ Hl]; [by rewrite queue_advance|].
    cbn [andb]. destruct (N.leb_spec (FRAME_HEADER_OVERHEAD + data_len f + 0) MAX_DATAGRAM_PAYLOAD_BYTES) as [|Hgt]; [done|].
    unfold MAX_FRAME_DATA_BYTES in Hl. unfold FRAME_HEADER_OVERHEAD, MAX_DATAGRAM_PAYLOAD_BYTES, DATAGRAM_OVERHEAD in *. lia. }
  pose proof (front_ok _ CH_INPUT f rest Hi1) as Hfr. rewrite queue_advance in Hfr. destruct (Hfr Hin) as [Hch _].
  inversion Hg as [? ? Hn|? ? ch g rest' gs ? Hn Hq' _]; subst; [congruence|].
  rewrite Hfind in Hn. injection Hn as <-. rewrite queue_advance, Hin in Hq'. injection Hq' as <- _.
  unfold inputs, filter. cbn. by rewrite decide_True.
Qed.

Lemma inputs_app l k : inputs (l ++ k) = inputs l ++ inputs k.
Proof. apply filter_app. Qed.

(** Every tick sends at least one of the small frames at the head of the queue. *)
Lemma ticks_progress r n p xs ys :
  ready r p -> refills r = true -> queue p CH_INPUT = xs ++ ys -> Forall (small r) xs ->
  exists p' sent, ticks n p = Some (p', sent) /\ ready r p' /\
    queue p CH_INPUT = inputs sent ++ queue p' CH_INPUT /\
    (Nat.min n (length xs) <= length (inputs sent))%nat.
Proof.
  intros Hrd Hf. revert p xs ys Hrd. induction n as [|n IH]; intros p xs ys Hrd Hxs Hs.
  { exists p, []. cbn. split_and!; done || lia. }
  destruct (drain_ready r p Hrd Hf) as (p1 & d & fs & Hd & Hfs & Hrd1 & Hq & _ & Hpos).
  assert (Hk : exists xs' ys', queue p1 CH_INPUT = xs' ++ ys' /\ Forall (small r) xs' /\
    (length xs <= length (inputs fs) + length xs')%nat).
  { exists (drop (length (inputs fs)) xs), (drop (length (inputs fs) - length xs) ys).
    split; [|split; [by apply Forall_drop|rewrite length_drop; lia]].
    rewrite <- drop_app, <- Hxs, Hq. by rewrite drop_app_length. }
  destruct Hk as (xs' & ys' & Hq1 & Hs' & Hlen).
  destruct (IH p1 xs' ys' Hrd1 Hq1 Hs') as (p2 & sent & Ht & Hrd2 & Hq2 & Hmin).
  exists p2, (fs ++ sent). cbn [ticks]. rewrite Hd. cbn [mbind option_bind]. rewrite Ht. cbn [mbind option_bind].
  rewrite Hfs, inputs_app, length_app. split; [done|]. split; [done|]. split; [by rewrite <- app_assoc, <- Hq2|].
  destruct xs as [|x xs]; [cbn; lia|]. rewrite Hxs in Hpos. cbn [app] in Hpos.
  apply Forall_cons in Hs as [Hx _]. specialize (Hpos Hx). destruct (inputs fs); [done|]. cbn [length] in *. lia.
Qed.

(** A backlog within the budget is at most [MAX_BACKLOG_WITHIN_SLA] frames, but for
    the wrap of the product. *)
Lemma within_sla_spec b : b < 2 ^ 61 -> within_sla b = (b <=? MAX_BACKLOG_WITHIN_SLA).
Proof.
  intros Hb. unfold within_sla, total_overhead_ms, queuing_delay_ms, wrapping_add. change INPUT_PACER_TICK_MS with 5.
  change INPUT_TO_PHOTON_FIXED_OVERHEAD_MS with 20. change INPUT_TO_PHOTON_SLA_MS with 60. change MAX_BACKLOG_WITHIN_SLA with 8.
  rewrite !wrap_small by (rewrite ?wrap_small; lia).
  destruct (N.leb_spec (20 + b * 5) 60), (N.leb_spec b 8); lia.
Qed.

(** *** Properties *)

(** What the budget promises, and what it takes.  At 64 kbit/s, while the control
    channel is idle and each input frame is within the 40 bytes of the burst cap,
    a frame with [b] input frames ahead of it, whatever waits on the other
    channels, has been sent, those ahead of it first, after [b + 1] ticks: within
    [queuing_delay_ms b] and the tick it arrives in, which the delay does not
    count, so that the [MAX_BACKLOG_WITHIN_SLA] frames admitted can take 65 ms in
    all. *)
Theorem input_waits_a_tick_per_frame (p : Pacer) (before after : list PacerFrame) (f : PacerFrame) :
  ready (f_of_N 64000) p ->
  queue p CH_INPUT = before ++ f :: after -> Forall (fun g => data_len g <= 40) (before ++ [f]) ->
  lenN before < 2 ^ 61 ->
  (exists p' sent, ticks (S (length before)) p = Some (p', sent) /\
    before ++ [f] `prefix_of` inputs sent /\
    N.of_nat (S (length before)) * INPUT_PACER_TICK_MS = queuing_delay_ms (lenN before) + INPUT_PACER_TICK_MS) /\
  (within_sla (lenN before) = true <-> lenN before <= MAX_BACKLOG_WITHIN_SLA).
Proof.
  intros Hrd Hq Hs Hb. split; [|by rewrite within_sla_spec, N.leb_le].
  destruct (ticks_progress (f_of_N 64000) (S (length before)) p (before ++ [f]) after)
    as (p' & sent & Ht & _ & Hq' & Hmin); [done|by vm_compute|by rewrite <- app_assoc|..].
  { eapply Forall_impl; [exact Hs|]. intros g Hg. unfold small.
    apply Z.le_trans with (units 40); [by apply units_mono|]. by apply Z.leb_le; vm_compute. }
  exists p', sent. split; [done|]. split.
  - rewrite length_app in Hmin. cbn [length] in Hmin.
    rewrite Hq, cons_middle, app_assoc in Hq'.
    pose proof (f_equal (take (length (before ++ [f]))) Hq') as Hp.
    rewrite take_app_length, take_app_le in Hp by (rewrite length_app; cbn [length]; lia).
    rewrite Hp. exists (drop (length (before ++ [f])) (inputs sent)). by rewrite take_drop.
  - unfold queuing_delay_ms. change INPUT_PACER_TICK_MS with 5. rewrite wrap_small by lia. unfold lenN in *. lia.
Qed.

Definition at_64k (fs : list PacerFrame) : option Pacer := run_ops (Pacer.new (f_of_N 64000)) (map OEnqueue fs).

Lemma at_64k_ready fs :
  Forall (fun f => channel f < NUM_CHANNELS /\ channel f <> 0) fs ->
  exists p, at_64k fs = Some p /\ ready (f_of_N 64000) p.
Proof.
  intros Hfs. assert (Hr : rate_ok (f_of_N 64000)) by (split; [split; by vm_compute|by apply Z.leb_le; vm_compute]).
  unfold at_64k. assert (Hrd : ready (f_of_N 64000) (Pacer.new (f_of_N 64000))) by (split; [by apply inv_new|done|done]).
  revert Hrd. generalize (Pacer.new (f_of_N 64000)). induction Hfs as [|f fs [Hc H0] _ IH]; intros p Hrd; [by exists p|].
  cbn [map run_ops run_op]. destruct Hrd as [Hi Hrt Hq].
  destruct (inv_enqueue p f Hi Hc) as (p1 & b & He & Hi1). rewrite He. cbn [fmap option_fmap option_map mbind option_bind fst].
  apply IH. revert He. unfold Pacer.enqueue. destruct (_ <? _); [by intros [= <- _]|].
  destruct (queues p !! N.to_nat (channel f)) as [q|] eqn:Hlk; [|done]. cbn. intros [= <- _].
  split; [done|done|]. rewrite queue_set_queue by (by eapply lookup_lt_Some). by rewrite decide_False by congruence.
Qed.

Lemma input_waits_a_tick_per_frame_witness :
  let input := mkFrame CH_INPUT (replicate 30 Byte.x00) in
  let media := mkFrame 1 (replicate 40 Byte.x00) in
  exists p p' sent, at_64k [media; input; input] = Some p /\ ticks 2 p = Some (p', sent) /\
    [input; input] `prefix_of` inputs sent.
Proof.
  set (input := mkFrame CH_INPUT (replicate 30 Byte.x00)). set (media := mkFrame 1 (replicate 40 Byte.x00)).
  destruct (at_64k_ready [media; input; input]) as (p & Hp & Hrd).
  { repeat constructor; vm_compute; done. }
  destruct (input_waits_a_tick_per_frame p [input] [] input Hrd) as [(p' & sent & Ht & Hpre & _) _].
  - unfold at_64k in Hp. injection Hp as <-. vm_compute. reflexivity.
  - repeat constructor; vm_compute; discriminate.
  - reflexivity.
  - exists p, p', sent. split; [exact Hp|]. split; [exact Ht|exact Hpre].
Defined.

(** A larger frame is never sent at that rate: nothing moves on the input channel,
    though the budget finds an empty backlog within the limit. *)
Theorem larger_input_never_leaves (p : Pacer) (f : PacerFrame) (rest : list PacerFrame) (n : nat) :
  ready (f_of_N 64000) p -> queue p CH_INPUT = f :: rest -> 40 < data_len f ->
  within_sla 0 = true /\
  exists p' sent, ticks n p = Some (p', sent) /\ inputs sent = [] /\ queue p' CH_INPUT = f :: rest.
Proof.
  intros Hrd Hq Hbig. split; [done|].
  assert (Hns : ~ small (f_of_N 64000) f).
  { unfold small. apply Z.nle_gt, Z.lt_le_trans with (units 41); [by apply Z.ltb_lt; vm_compute|apply units_mono; lia]. }
  revert p Hrd Hq. induction n as [|n IH]; intros p Hrd Hq.
  { exists p, []. split; [done|]. split; [done|]. done. }
  destruct (drain_ready _ p Hrd) as (p1 & d & fs & Hd & Hfs & Hrd1 & Hq1 & Hall & _); [by vm_compute|].
  assert (Hnone : inputs fs = [] /\ queue p1 CH_INPUT = f :: rest).
  { rewrite Hq in Hq1. destruct (inputs fs) as [|g gs] eqn:Hin; [done|]. exfalso. cbn in Hq1. injection Hq1 as <- _.
    apply Hns. eapply Forall_forall; [exact Hall|]. apply (list_elem_of_filter (fun h => channel h = CH_INPUT)).
    fold (inputs fs). rewrite Hin. by left. }
  destruct Hnone as [Hn Hq']. destruct (IH p1 Hrd1 Hq') as (p2 & sent & Ht & Hs & Hq2).
  exists p2, (fs ++ sent). cbn [ticks]. rewrite Hd. cbn [mbind option_bind]. rewrite Ht. cbn [mbind option_bind].
  rewrite Hfs, inputs_app, Hn, Hs. done.
Qed.

Lemma larger_input_never_leaves_witness :
  let paste := mkFrame CH_INPUT (replicate 41 Byte.x00) in
  exists p p' sent, at_64k [paste] = Some p /\ within_sla 0 = true /\
    ticks 1000 p = Some (p', sent) /\ inputs sent = [] /\ queue p' CH_INPUT = [paste].
Proof.
  set (paste := mkFrame CH_INPUT (replicate 41 Byte.x00)).
  destruct (at_64k_ready [paste]) as (p & Hp & Hrd); [by repeat constructor; vm_compute|].
  destruct (larger_input_never_leaves p paste [] 1000 Hrd) as (Hw & p' & sent & Ht & Hn & Hq).
  - unfold at_64k in Hp. injection Hp as <-. vm_compute. reflexivity.
  - reflexivity.
  - exists p, p', sent. split; [exact Hp|]. split; [exact Hw|]. split; [exact Ht|]. split; [exact Hn|exact Hq].
Defined.
End LatencyBudget.
