(* ===== verification/Fec.v ===== *)
(** Gilbert-Elliott loss estimation and FEC sizing: [core/lbtp/src/fec.rs]. *)
From S2P Require Import Prelude F64 F64Bounds.
#[local] Open Scope N_scope.

Definition MIN_FEC_RATIO : f64 := f_lit 5 100.
Definition MAX_FEC_RATIO : f64 := f_lit 50 100.
Definition REF_BLOCK_SYMBOLS : f64 := f_of_Z 32.
Definition MIN_OBS_FOR_ESTIMATE : N := 30.
Definition MIN_RUNS_FOR_ESTIMATE : N := 8.

(** [f64::EPSILON] is [2^-52]. *)
Definition EPSILON : f64 := binary_normalize 53 1024 1 (-52) false.

Record GilbertElliottParams := mkParams { a : f64; b : f64; p : f64; q : f64 }.

Definition mean_loss_rate (g : GilbertElliottParams) : f64 :=
  (if a g + b g <? EPSILON then f_zero
   else
     let pi_b := a g / (a g + b g) in
     let pi_g := f_one - pi_b in
     pi_b * q g + pi_g * p g)%f64.

Definition params_mean_burst_len (g : GilbertElliottParams) : f64 :=
  (if b g >? f_zero then f_one / b g else S754_infinity false)%f64.

Record GilbertElliottEstimator := mkEstimator {
  loss_rate : f64;
  mean_burst_len : f64;
  n_obs : N;
  in_loss_run : bool;
  current_run_len : N;
  alpha_loss : f64;
  alpha_burst : f64;
}.

Definition with_alphas (al ab : f64) : GilbertElliottEstimator :=
  {| loss_rate := f_zero; mean_burst_len := f_one; n_obs := 0; in_loss_run := false;
     current_run_len := 0; alpha_loss := al; alpha_burst := ab |}.

Definition new : GilbertElliottEstimator := with_alphas (f_lit 5 100) (f_lit 25 100).

Definition observe (e : GilbertElliottEstimator) (received : bool) : GilbertElliottEstimator :=
  let loss_indicator := if received then f_zero else f_one in
  let lr := ((f_one - alpha_loss e) * loss_rate e + alpha_loss e * loss_indicator)%f64 in
  let mb :=
    if received then
      if in_loss_run e && (0 <? current_run_len e) then
        let burst := f_of_N (current_run_len e) in
        ((f_one - alpha_burst e) * mean_burst_len e + alpha_burst e * burst)%f64
      else mean_burst_len e
    else mean_burst_len e in
  {| loss_rate := lr; mean_burst_len := mb; n_obs := wrap 64 (n_obs e + 1);
     in_loss_run := negb received;
     current_run_len := if received then 0 else sat_add 32 (current_run_len e) 1;
     alpha_loss := alpha_loss e; alpha_burst := alpha_burst e |}.

Definition params (e : GilbertElliottEstimator) : option GilbertElliottParams :=
  if n_obs e <? MIN_OBS_FOR_ESTIMATE then None
  else
    let l := f_clamp (loss_rate e) f_zero (f_one - EPSILON)%f64 in
    let bb := (f_one / f_max (mean_burst_len e) f_one)%f64 in
    let aa := (l * bb / f_max (f_one - l) EPSILON)%f64 in
    Some {| a := aa; b := bb; p := f_zero; q := f_one |}.

(** The two lower bounds and the clamp, shared by both [fec_ratio]s. *)
Definition ratio_of (loss burst : f64) : f64 :=
  let independent := (loss / (f_one - loss))%f64 in
  let burst_coverage := (f_min burst REF_BLOCK_SYMBOLS / REF_BLOCK_SYMBOLS)%f64 in
  f_clamp (f_max independent burst_coverage) MIN_FEC_RATIO MAX_FEC_RATIO.

Definition fec_ratio (e : GilbertElliottEstimator) : f64 :=
  if n_obs e <? MIN_OBS_FOR_ESTIMATE then MIN_FEC_RATIO
  else
    let loss := f_clamp (loss_rate e) f_zero (f_lit 99 100) in
    let burst := f_max (mean_burst_len e) f_one in
    ratio_of loss burst.

Definition observation_count (e : GilbertElliottEstimator) : N := n_obs e.

(** ** The batch fitter *)
Record BurstStatsFitter := mkFitter {
  good_run_sum : N;
  good_run_count : N;
  bad_run_sum : N;
  bad_run_count : N;
}.

Definition fitter_new : BurstStatsFitter :=
  {| good_run_sum := 0; good_run_count := 0; bad_run_sum := 0; bad_run_count := 0 |}.

Definition observe_good_run (f : BurstStatsFitter) (len : N) : BurstStatsFitter :=
  if 0 <? len then
    {| good_run_sum := wrap 64 (good_run_sum f + len);
       good_run_count := wrap 64 (good_run_count f + 1);
       bad_run_sum := bad_run_sum f; bad_run_count := bad_run_count f |}
  else f.

Definition observe_bad_run (f : BurstStatsFitter) (len : N) : BurstStatsFitter :=
  if 0 <? len then
    {| good_run_sum := good_run_sum f; good_run_count := good_run_count f;
       bad_run_sum := wrap 64 (bad_run_sum f + len);
       bad_run_count := wrap 64 (bad_run_count f + 1) |}
  else f.

(** The loop over the run pairs does what the two single-run methods do. *)
Definition ingest_ack_run_lengths (f : BurstStatsFitter) (runs : list (N * N)) : BurstStatsFitter :=
  fold_left (fun f '(good, bad) => observe_bad_run (observe_good_run f good) bad) runs f.

Definition run_pair_count (f : BurstStatsFitter) : N := N.min (good_run_count f) (bad_run_count f).

Definition fitter_params (f : BurstStatsFitter) : option GilbertElliottParams :=
  if run_pair_count f <? MIN_RUNS_FOR_ESTIMATE then None
  else
    let mean_good := (f_of_N (good_run_sum f) / f_of_N (good_run_count f))%f64 in
    let mean_bad := (f_of_N (bad_run_sum f) / f_of_N (bad_run_count f))%f64 in
    Some {| a := (f_one / f_max mean_good f_one)%f64; b := (f_one / f_max mean_bad f_one)%f64;
            p := f_zero; q := f_one |}.

Definition fitter_fec_ratio (f : BurstStatsFitter) : f64 :=
  match fitter_params f with
  | None => MIN_FEC_RATIO
  | Some g =>
      let loss := f_clamp (mean_loss_rate g) f_zero (f_lit 99 100) in
      let burst := f_max (params_mean_burst_len g) f_one in
      ratio_of loss burst
  end.

(** ** Specification *)

(** Estimator states: loss in [0, 1], mean burst length at least one packet. *)
Record estimator_inv (e : GilbertElliottEstimator) : Prop := {
  inv_loss : good (loss_rate e) /\ (fz (loss_rate e) <= fz f_one)%Z;
  inv_burst : good (mean_burst_len e) /\
    (fz f_one <= fz (mean_burst_len e) <= fz (f_of_N (2 ^ 32)))%Z;
  inv_run : current_run_len e < 2 ^ 32;
  inv_obs : n_obs e < 2 ^ 64;
  inv_al : alpha_loss e = f_lit 5 100;
  inv_ab : alpha_burst e = f_lit 25 100;
}.

(** [x] is a float between 5 % and 50 %. *)
Definition in_ratio_range (x : f64) : Prop :=
  good x /\ (fz MIN_FEC_RATIO <= fz x <= fz MAX_FEC_RATIO)%Z.

Definition observe_all (e : GilbertElliottEstimator) (os : list bool) : GilbertElliottEstimator :=
  fold_left observe os e.

Definition fitter_ok (f : BurstStatsFitter) : Prop :=
  good_run_sum f < 2 ^ 64 /\ good_run_count f < 2 ^ 64 /\
  bad_run_sum f < 2 ^ 64 /\ bad_run_count f < 2 ^ 64.

(** ** Lemmas *)
Lemma one_spec : good f_one /\ fz f_one = (scale)%Z /\ is_finite f_one = true.
Proof. destruct (f_of_Z_spec 1) as (H1 & H2 & H3); [done|]. split_and!; auto. Qed.

Lemma finite_le_one x : good x -> (fz x <= fz f_one)%Z -> is_finite x = true.
Proof. intros. destruct one_spec as (? & _ & ?). by apply (finite_le x f_one). Qed.

(** The sizing formula stays in range for every loss in [0, 0.99] and every burst
    length. *)
Lemma ratio_of_range loss burst :
  good loss -> (fz loss <= fz (f_lit 99 100))%Z -> good burst -> in_ratio_range (ratio_of loss burst).
Proof.
  intros Hl Hle Hb. destruct one_spec as (Ho & Hov & Hof).
  assert (H99 : (fz (f_lit 99 100) <= fz f_one)%Z) by f_const.
  assert (Hlf : is_finite loss = true) by (apply finite_le_one; [done|lia]).
  (* 1 - loss is at least 1 - 0.99, which is exact and positive *)
  pose proof (f_sub_rounds f_one loss Ho Hl Hlf ltac:(lia)) as Hs. rewrite Hof in Hs.
  assert (Hd : (0 < fz (f_one - loss)%f64)%Z).
  { apply Z.lt_le_trans with (fz (f_one - f_lit 99 100)%f64); [f_const|].
    eapply rounds_ge; [exact Hs|f_const|].
    replace (fz (f_one - f_lit 99 100)%f64) with (fz f_one - fz (f_lit 99 100))%Z by (symmetry; f_const).
    lia. }
  assert (Hdf : is_finite (f_one - loss)%f64 = true).
  { apply finite_le_one; [apply Hs|]. eapply rounds_le; [exact Hs|done|].
    pose proof (good_nonneg loss Hl). lia. }
  destruct (f_div_rounds loss (f_one - loss)%f64 Hl (proj1 Hs) Hlf Hdf Hd) as (Hi & _ & _).
  assert (H32 : good REF_BLOCK_SYMBOLS) by f_const.
  destruct (f_min_spec burst REF_BLOCK_SYMBOLS Hb H32) as [Hm Hmv].
  assert (Hmf : is_finite (f_min burst REF_BLOCK_SYMBOLS) = true).
  { apply (finite_le _ REF_BLOCK_SYMBOLS); [done|done|f_const|lia]. }
  destruct (f_div_rounds _ REF_BLOCK_SYMBOLS Hm H32 Hmf) as (Hc & _ & _); [f_const|f_const|].
  destruct (f_max_spec _ _ Hi Hc) as [Hx _].
  destruct (f_clamp_spec _ MIN_FEC_RATIO MAX_FEC_RATIO Hx) as [Hg Hv]; [f_const..|].
  unfold ratio_of. split; [exact Hg|]. rewrite Hv.
  assert ((fz MIN_FEC_RATIO <= fz MAX_FEC_RATIO)%Z) by f_const. lia.
Qed.

Lemma observe_inv e r : estimator_inv e -> estimator_inv (observe e r).
Proof.
  intros [[Hl Hl1] [Hb Hb1] Hr Ho Hal Hab].
  destruct one_spec as (Hog & Hov & Hof).
  assert (Hlf := finite_le_one _ Hl Hl1).
  set (al := f_lit 5 100) in *. set (ab := f_lit 25 100) in *.
  assert (Gal : good al /\ good (f_one - al)%f64) by (split; f_const).
  assert (Fal : is_finite al = true /\ is_finite (f_one - al)%f64 = true) by (split; f_const).
  destruct Gal as [Gal Gcl]. destruct Fal as [Fal Fcl].
  split; cbn [observe loss_rate mean_burst_len current_run_len n_obs alpha_loss alpha_burst];
    rewrite ?Hal, ?Hab; fold al ab; auto.
  - assert (Hind : good (if r then f_zero else f_one) /\ (fz (if r then f_zero else f_one) <= fz f_one)%Z /\
      is_finite (if r then f_zero else f_one) = true) by (destruct r; split_and!; f_const).
    destruct Hind as (Gi & Hi & Fi).
    pose proof (good_nonneg _ Gcl). pose proof (good_nonneg _ Gal).
    destruct (wsum_upper (f_one - al)%f64 (loss_rate e) al (if r then f_zero else f_one)
      (f_one - al)%f64 al f_one Gcl Hl Gal Gi Gcl Gal Hog Fcl Hlf Fal Fi Hof) as (G & Hle & _);
      [nia|nia|f_const|]. split; [exact G|exact Hle].
  - assert (Gab : good ab /\ good (f_one - ab)%f64) by (split; f_const).
    assert (Fab : is_finite ab = true /\ is_finite (f_one - ab)%f64 = true) by (split; f_const).
    destruct Gab as [Gab Gcb]. destruct Fab as [Fab Fcb].
    destruct r; [|exact (conj Hb Hb1)].
    destruct (in_loss_run e && (0 <? current_run_len e))%bool eqn:E; [|exact (conj Hb Hb1)].
    apply andb_true_iff in E as [_ E]. reflectN.
    set (H32 := f_of_N (2 ^ 32)) in *.
    assert (GH : good H32 /\ is_finite H32 = true) by (split; f_const). destruct GH as [GH FH].
    destruct (f_of_N_spec (current_run_len e)) as (Gr & Vr & Fr); [lia|].
    assert (Hrl : (fz f_one <= fz (f_of_N (current_run_len e)) <= fz H32)%Z).
    { destruct (f_of_N_spec (2 ^ 32)) as (_ & V32 & _); [done|]. unfold H32.
      rewrite Vr, V32, Hov. pose proof scale_pos. nia. }
    assert (Fb : is_finite (mean_burst_len e) = true) by (apply (finite_le _ H32); [done|done|done|lia]).
    (* 0.75 and 0.25 of 2^32 are exact *)
    set (X := ((f_one - ab) * H32)%f64). set (Y := (ab * H32)%f64).
    assert (GX : good X /\ good Y) by (split; f_const). destruct GX as [GX GY].
    assert (EX : (fz (f_one - ab)%f64 * fz H32 = fz X * scale)%Z) by f_const.
    assert (EY : (fz ab * fz H32 = fz Y * scale)%Z) by f_const.
    assert (EXY : (fz X + fz Y = fz H32)%Z) by f_const.
    pose proof (good_nonneg _ Gcb). pose proof (good_nonneg _ Gab).
    destruct (wsum_upper (f_one - ab)%f64 (mean_burst_len e) ab (f_of_N (current_run_len e)) X Y H32
      Gcb Hb Gab Gr GX GY GH Fcb Fb Fab Fr FH) as (G & Hle & _ & F1 & F2); [nia|nia|lia|].
    split; [exact G|]. split; [|exact Hle].
    apply (wsum_lower (f_one - ab)%f64 (mean_burst_len e) ab (f_of_N (current_run_len e))
      (f_one - ab)%f64 ab f_one Gcb Hb Gab Gr Gcb Gab Hog Fcb Fb Fab Fr F1 F2); [nia|nia|f_const].
  - destruct r; [done|]. pose proof (sat_add_bounds 32 (current_run_len e) 1). unfold u_max in *. lia.
  - apply wrap_lt.
Qed.

Lemma new_estimator_inv : estimator_inv new.
Proof.
  split; cbn [new with_alphas loss_rate mean_burst_len current_run_len n_obs alpha_loss alpha_burst];
    try reflexivity; repeat split; f_const.
Qed.

Lemma observe_all_inv e os : estimator_inv e -> estimator_inv (observe_all e os).
Proof. revert e. induction os as [|o os IH]; intros e He; [done|]. apply IH, observe_inv, He. Qed.

Lemma estimator_ratio_range e : estimator_inv e -> in_ratio_range (fec_ratio e).
Proof.
  intros [[Hl Hl1] [Hb Hb1] _ _ _ _]. unfold fec_ratio. destruct (_ <? _).
  - split; [f_const|]. split; f_const.
  - destruct (f_clamp_spec (loss_rate e) f_zero (f_lit 99 100) Hl) as [Gc Vc]; [f_const..|].
    destruct (f_max_spec (mean_burst_len e) f_one Hb) as [Gm _]; [f_const|].
    apply ratio_of_range; [done| |done]. rewrite Vc.
    assert ((fz f_zero <= fz (f_lit 99 100))%Z) by f_const. lia.
Qed.

(** A transition probability of the fitter, [1 / max(mean, 1)], lies in [0, 1]. *)
Lemma transition_range sum count :
  sum < 2 ^ 64 -> 0 < count < 2 ^ 64 ->
  let x := (f_one / f_max (f_of_N sum / f_of_N count)%f64 f_one)%f64 in
  good x /\ (fz x <= fz f_one)%Z.
Proof.
  intros Hs Hc. destruct one_spec as (Hog & Hov & Hof).
  destruct (f_of_N_u64 sum Hs) as (Gs & Fs & _).
  destruct (f_of_N_u64 count) as (Gc & Fc & Vc); [lia|].
  destruct (div_bound (f_of_N sum) (f_of_N count) (f_of_N sum) Gs Fs Gc Fc (Vc ltac:(lia)) Gs Fs)
    as (Gm & _ & Fm); [lia|].
  destruct (f_max_spec _ f_one Gm Hog) as [Gx Vx].
  assert (Fx : is_finite (f_max (f_of_N sum / f_of_N count)%f64 f_one) = true).
  { rewrite good_finite in * by done. lia. }
  destruct (div_bound f_one _ f_one Hog Hof Gx Fx ltac:(lia) Hog Hof ltac:(lia)) as (G & Hle & _).
  exact (conj G Hle).
Qed.

Lemma mean_loss_good x y :
  good x -> good y -> (fz x <= fz f_one)%Z -> (fz y <= fz f_one)%Z ->
  good (mean_loss_rate {| a := x; b := y; p := f_zero; q := f_one |}).
Proof.
  intros Gx Gy Hx Hy. destruct one_spec as (Hog & Hov & Hof).
  assert (Fx := finite_le_one x Gx Hx). assert (Fy := finite_le_one y Gy Hy).
  destruct (f_add_ge x y Gx Gy Fx Fy) as (Gs & Hxs & _).
  pose proof (f_add_rounds x y Gx Gy Fx Fy) as Hr.
  assert (Fs : is_finite (x + y)%f64 = true).
  { apply (finite_le _ (f_of_Z 2)); [done|f_const|f_const|]. eapply rounds_le; [exact Hr|f_const|].
    assert (fz (f_of_Z 2) = 2 * fz f_one)%Z by f_const. lia. }
  unfold mean_loss_rate; cbn [a b p q].
  assert (GE : good EPSILON) by f_const.
  rewrite f_ltb_good by done. destruct (Z.ltb_spec (fz (x + y)%f64) (fz EPSILON)); [done|].
  assert (0 < fz EPSILON)%Z by f_const.
  destruct (f_div_rounds x (x + y)%f64 Gx Gs Fx Fs ltac:(lia)) as (Gp & Hp & _).
  assert (Hp1 : (fz (x / (x + y))%f64 <= fz f_one)%Z) by (apply Hp; [done|]; pose proof scale_pos; rewrite Hov; nia).
  assert (Fp := finite_le_one _ Gp Hp1).
  destruct (f_sub_le f_one (x / (x + y))%f64 Hog Gp Fp Hp1) as [Gg Hg].
  assert (Fg := finite_le_one _ Gg Hg).
  assert (Hz : good f_zero /\ (fz f_zero <= scale)%Z) by (split; f_const). destruct Hz as [Gz Hz].
  destruct (f_mul_le_l _ f_one Gp Hog Fp ltac:(lia)) as [G1 H1].
  destruct (f_mul_le_l _ f_zero Gg Gz Fg Hz) as [G2 H2].
  apply (f_add_rounds _ _ G1 G2); (apply finite_le_one; [done|lia]).
Qed.

Lemma fitter_ratio_range f : fitter_ok f -> in_ratio_range (fitter_fec_ratio f).
Proof.
  intros (H1 & H2 & H3 & H4). destruct one_spec as (Hog & Hov & Hof).
  unfold fitter_fec_ratio, fitter_params, run_pair_count.
  destruct (_ <? _) eqn:E; [split; [f_const|split; f_const]|].
  unfold MIN_RUNS_FOR_ESTIMATE in E. reflectN.
  destruct (transition_range (good_run_sum f) (good_run_count f)) as [Ga Ha]; [lia|lia|].
  destruct (transition_range (bad_run_sum f) (bad_run_count f)) as [Gb Hb]; [lia|lia|].
  pose proof (mean_loss_good _ _ Ga Gb Ha Hb) as Gl.
  unfold params_mean_burst_len; cbn [b].
  set (bb := (f_one / f_max (f_of_N (bad_run_sum f) / f_of_N (bad_run_count f))%f64 f_one)%f64) in *.
  destruct (f_clamp_spec _ f_zero (f_lit 99 100) Gl) as [Gc Vc]; [f_const..|].
  assert (H099 : (fz f_zero <= fz (f_lit 99 100))%Z) by f_const.
  apply ratio_of_range; [exact Gc|rewrite Vc; lia|].
  assert (Gburst : good (if (f_zero <? bb)%f64 then (f_one / bb)%f64 else S754_infinity false)).
  { assert (Gz : good f_zero) by f_const. rewrite f_ltb_good by done.
    destruct (Z.ltb_spec (fz f_zero) (fz bb)) as [Hpos|]; [|f_const].
    change (fz f_zero) with 0%Z in Hpos.
    apply (f_div_rounds f_one bb Hog Gb Hof (finite_le_one bb Gb Hb) Hpos). }
  exact (proj1 (f_max_spec _ f_one Gburst Hog)).
Qed.

Lemma fitter_ok_ingest f runs : fitter_ok f -> fitter_ok (ingest_ack_run_lengths f runs).
Proof.
  revert f. induction runs as [|[g b] runs IH]; intros f Hf; [done|]. apply IH.
  unfold observe_bad_run, observe_good_run, fitter_ok in *. case_ifs; cbn in *;
    pose proof (fun n => wrap_lt 64 n); intuition auto.
Qed.

(** ** Properties *)

(** the estimator is total and in range for every packet history: the loss
    rate stays in [0, 1], the mean burst length is at least one packet, and the
    FEC ratio lies between 5 % and 50 % (exactly 5 % before 30 observations),
    with every intermediate operation rounded as the hardware does. *)
Theorem estimator_in_range (os : list bool) :
  let e := observe_all new os in
  (good (loss_rate e) /\ (fz (loss_rate e) <= fz f_one)%Z) /\
  (good (mean_burst_len e) /\ (fz f_one <= fz (mean_burst_len e))%Z) /\
  in_ratio_range (fec_ratio e) /\
  (n_obs e < MIN_OBS_FOR_ESTIMATE -> fec_ratio e = MIN_FEC_RATIO /\ params e = None).
Proof.
  intros e. pose proof (observe_all_inv new os new_estimator_inv) as Hi. fold e in Hi.
  split; [apply Hi|]. split; [destruct (inv_burst e Hi) as [G [H _]]; exact (conj G H)|].
  split; [by apply estimator_ratio_range|].
  intros Hn%N.ltb_lt. unfold fec_ratio, params. by rewrite Hn.
Qed.

(** the fitter's ratio is in the same range for every sequence of ACK run
    lengths, including sums that wrap, and is 5 % until eight complete run
    pairs are recorded. *)
Theorem fitter_in_range (runs : list (list (N * N))) :
  let f := fold_left ingest_ack_run_lengths runs fitter_new in
  in_ratio_range (fitter_fec_ratio f) /\
  (run_pair_count f < MIN_RUNS_FOR_ESTIMATE -> fitter_fec_ratio f = MIN_FEC_RATIO).
Proof.
  intros f. assert (Hok : fitter_ok f).
  { unfold f. assert (H0 : fitter_ok fitter_new) by (repeat split; done). revert H0.
    generalize fitter_new as g. induction runs as [|r runs IH]; intros g Hg; [done|].
    cbn [fold_left]. apply IH, fitter_ok_ingest, Hg. }
  split; [by apply fitter_ratio_range|].
  intros Hn%N.ltb_lt. unfold fitter_fec_ratio, fitter_params. by rewrite Hn.
Qed.
