(* ===== verification/Congestion.v ===== *)
(** Congestion control: [core/lbtp/src/congestion.rs] in Module [Backstop],
    [core/lbtp/src/delay.rs] in Module [Delay], [core/lbtp/src/cellular.rs] in
    Module [Cellular]. *)
From S2P Require Import Prelude F64 F64Bounds Fec.
#[local] Open Scope N_scope.

(** The loss backstop: [core/lbtp/src/congestion.rs]. *)
Module Backstop.
Definition LOSS_BACKSTOP_THRESHOLD : f64 := f_lit 10 100.
Definition LOSS_BACKSTOP_REDUCTION : f64 := f_lit 85 100.
Definition BACKSTOP_MIN_RATE_BPS : f64 := f_of_Z 48000.
Definition BACKSTOP_COOLDOWN_TICKS : N := 50.

Record LossBackstop := mkBackstop { cooldown_remaining : N }.

Definition new : LossBackstop := {| cooldown_remaining := 0 |}.

Definition check (s : LossBackstop) (current_rate_bps : f64) (estimator : GilbertElliottEstimator) :
    LossBackstop * option f64 :=
  if 0 <? cooldown_remaining s
  then ({| cooldown_remaining := cooldown_remaining s - 1 |}, None)
  else if observation_count estimator <? MIN_OBS_FOR_ESTIMATE then (s, None)
  else if (loss_rate estimator <=? LOSS_BACKSTOP_THRESHOLD)%f64 then (s, None)
  else
    let new_rate := f_max (current_rate_bps * LOSS_BACKSTOP_REDUCTION)%f64 BACKSTOP_MIN_RATE_BPS in
    ({| cooldown_remaining := BACKSTOP_COOLDOWN_TICKS |}, Some new_rate).

(** ** Specification *)

(** The three conditions of the documentation. *)
Definition may_fire (s : LossBackstop) (e : GilbertElliottEstimator) : bool :=
  (cooldown_remaining s =? 0) && (MIN_OBS_FOR_ESTIMATE <=? observation_count e) &&
  negb (loss_rate e <=? LOSS_BACKSTOP_THRESHOLD)%f64.

(** A run of control ticks; which of them fired. *)
Fixpoint fired (s : LossBackstop) (ticks : list (f64 * GilbertElliottEstimator)) : list bool :=
  match ticks with
  | [] => []
  | (r, e) :: ticks =>
      let '(s', o) := check s r e in
      bool_decide (is_Some o) :: fired s' ticks
  end.

(** ** Lemmas *)
Lemma check_spec s r e :
  check s r e =
    if may_fire s e
    then ({| cooldown_remaining := 50 |},
          Some (f_max (r * LOSS_BACKSTOP_REDUCTION)%f64 BACKSTOP_MIN_RATE_BPS))
    else ({| cooldown_remaining := cooldown_remaining s - 1 |}, None).
Proof.
  destruct s as [c]. unfold check, may_fire; cbn [cooldown_remaining].
  rewrite (N.leb_antisym (observation_count e)). 
  destruct (N.ltb_spec 0 c).
  - rewrite (proj2 (N.eqb_neq c 0)) by lia. done.
  - assert (c = 0) as -> by lia. cbn [N.eqb andb negb].
    destruct (_ <? _); cbn [negb andb]; [done|]. by destruct (SFleb _ _).
Qed.

Lemma cooldown_silent n s ticks :
  N.of_nat n <= cooldown_remaining s -> fired s (take n ticks) = replicate (length (take n ticks)) false.
Proof.
  revert s ticks. induction n as [|n IH]; intros s ticks Hn; [by rewrite take_0|].
  destruct ticks as [|[r e] ticks]; [done|]. cbn [take firstn fired length replicate].
  rewrite check_spec. unfold may_fire. rewrite (proj2 (N.eqb_neq _ 0)) by lia. cbn [andb].
  rewrite bool_decide_false by (intros [? [=]]). f_equal.
  apply IH. cbn [cooldown_remaining]. lia.
Qed.

(** ** Properties *)

(** the backstop answers [Some rate] exactly when the cooldown has run out,
    30 packets were observed and the loss rate exceeds 10 %; the answer is never
    below 48 kbit/s and, from 48 kbit/s on, never above the current rate; and
    after it fires the next 50 checks are silent whatever the losses. *)
Theorem backstop_fires (s : LossBackstop) (r : f64) (e : GilbertElliottEstimator) :
  good r -> is_finite r = true ->
  match snd (check s r e) with
  | None => may_fire s e = false
  | Some rate => may_fire s e = true /\ good rate /\
      (fz BACKSTOP_MIN_RATE_BPS <= fz rate)%Z /\
      ((fz BACKSTOP_MIN_RATE_BPS <= fz r)%Z -> (fz rate <= fz r)%Z) /\
      ((fz r < fz BACKSTOP_MIN_RATE_BPS)%Z -> rate = BACKSTOP_MIN_RATE_BPS) /\
      (forall ticks, fired (fst (check s r e)) (take 50 ticks) =
         replicate (length (take 50 ticks)) false)
  end.
Proof.
  intros Hg Hf. rewrite check_spec. destruct (may_fire s e); [|done]. cbn [snd fst].
  assert (Gc : good LOSS_BACKSTOP_REDUCTION) by f_const.
  assert (Gm : good BACKSTOP_MIN_RATE_BPS) by f_const.
  destruct (f_mul_le_l r LOSS_BACKSTOP_REDUCTION Hg Gc Hf) as [G Hle]; [f_const|].
  destruct (f_max_spec _ _ G Gm) as [Gx Vx]. split; [done|]. split; [exact Gx|].
  rewrite Vx. split; [lia|]. split; [lia|]. split.
  - intros Hlt. unfold f_max. rewrite !nonneg_not_nan by (apply G || apply Gm).
    rewrite f_ltb_good by done. by rewrite (proj2 (Z.ltb_lt _ _)) by lia.
  - intros ticks. apply cooldown_silent. cbn. lia.
Qed.

Lemma backstop_fires_witness :
  (* 40 losses in a row at 30 kbit/s: the "reduction" raises the rate to 48 kbit/s *)
  let e := observe_all Fec.new (replicate 40 false) in
  snd (check new (f_of_Z 30000) e) = Some BACKSTOP_MIN_RATE_BPS.
Proof.
  set (e := observe_all Fec.new (replicate 40 false)). cbn zeta.
  pose proof (backstop_fires new (f_of_Z 30000) e) as H.
  assert (Hs : exists rate, snd (check new (f_of_Z 30000) e) = Some rate)
    by (eexists; vm_compute; reflexivity).
  destruct Hs as [rate Hs]. rewrite Hs in H |- *.
  destruct H as (_ & _ & _ & _ & H & _); [split; vm_compute; reflexivity|vm_compute; reflexivity|].
  rewrite H; [reflexivity|]. vm_compute. reflexivity.
Defined.
End Backstop.

(** The delay-gradient trendline estimator: [core/lbtp/src/delay.rs]. *)
Module Delay.
Definition TRENDLINE_WINDOW_SIZE : N := 20.
Definition TRENDLINE_SMOOTHING_ALPHA : f64 := f_lit 9 10.
Definition OVERUSE_THRESHOLD_GAMMA_US_PER_MS : f64 := f_lit 125 10.
Definition MIN_WINDOW_FOR_SLOPE : N := 2.

Inductive BandwidthUsage := Underuse | Normal | Overuse.

Record DelayGradientEstimator := mkEstimator {
  window : list (f64 * f64);
  smoothed_delta_us : f64;
  accumulated_owd_us : f64;
  accumulated_send_ms : f64;
  prev_send_us : option N;
  prev_recv_us : option N;
  slope : f64;
  usage : BandwidthUsage;
}.

Definition new : DelayGradientEstimator :=
  {| window := []; smoothed_delta_us := f_zero; accumulated_owd_us := f_zero;
     accumulated_send_ms := f_zero; prev_send_us := None; prev_recv_us := None;
     slope := f_zero; usage := Normal |}.

Definition compute_slope (w : list (f64 * f64)) : f64 :=
  if lenN w <? MIN_WINDOW_FOR_SLOPE then f_zero
  else
    let n_f := f_of_N (lenN w) in
    let x_mean := (f_sum (map fst w) / n_f)%f64 in
    let y_mean := (f_sum (map snd w) / n_f)%f64 in
    let numerator := f_sum (map (fun '(x, y) => ((x - x_mean) * (y - y_mean))%f64) w) in
    let denominator := f_sum (map (fun '(x, _) => ((x - x_mean) * (x - x_mean))%f64) w) in
    if (denominator <? f_lit 1 10000000000)%f64 then f_zero else (numerator / denominator)%f64.

Definition classify (slope gamma : f64) : BandwidthUsage :=
  if (slope >? gamma)%f64 then Overuse
  else if (slope <? - gamma)%f64 then Underuse
  else Normal.

(** [push_back], then [pop_front] beyond the window size. *)
Definition push_window (w : list (f64 * f64)) (s : f64 * f64) : list (f64 * f64) :=
  let w := w ++ [s] in
  if TRENDLINE_WINDOW_SIZE <? lenN w then tail w else w.

Definition observe (e : DelayGradientEstimator) (send_time_us recv_time_us : N)
    (gamma_multiplier : f64) : DelayGradientEstimator * BandwidthUsage :=
  let e' :=
    match prev_send_us e, prev_recv_us e with
    | Some prev_s, Some prev_r =>
        let send_delta_us := f_of_N (send_time_us - prev_s) in
        let recv_delta_us := f_of_N (recv_time_us - prev_r) in
        let owd_delta_us := (recv_delta_us - send_delta_us)%f64 in
        let sm := (TRENDLINE_SMOOTHING_ALPHA * smoothed_delta_us e
                   + (f_one - TRENDLINE_SMOOTHING_ALPHA) * owd_delta_us)%f64 in
        let send_ms := (accumulated_send_ms e + send_delta_us / f_of_Z 1000)%f64 in
        let owd := (accumulated_owd_us e + sm)%f64 in
        let w := push_window (window e) (send_ms, owd) in
        let sl := compute_slope w in
        let gamma := (OVERUSE_THRESHOLD_GAMMA_US_PER_MS * f_max gamma_multiplier f_zero)%f64 in
        {| window := w; smoothed_delta_us := sm; accumulated_owd_us := owd;
           accumulated_send_ms := send_ms; prev_send_us := prev_send_us e;
           prev_recv_us := prev_recv_us e; slope := sl; usage := classify sl gamma |}
    | _, _ => e
    end in
  let e'' :=
    {| window := window e'; smoothed_delta_us := smoothed_delta_us e';
       accumulated_owd_us := accumulated_owd_us e'; accumulated_send_ms := accumulated_send_ms e';
       prev_send_us := Some send_time_us; prev_recv_us := Some recv_time_us;
       slope := slope e'; usage := usage e' |} in
  (e'', usage e'').

Definition window_len (e : DelayGradientEstimator) : N := lenN (window e).

(** ** A stream of acknowledgements *)
Definition Ack : Type := N * N * f64.

Definition observe_all (e : DelayGradientEstimator) (acks : list Ack) : DelayGradientEstimator :=
  fold_left (fun e '(s, r, g) => fst (observe e s r g)) acks e.

(** ** Lemmas *)

(** Zero of either sign, or NaN: what arithmetic on zeros produces. *)
Definition nil (x : f64) : bool :=
  match x with S754_zero _ | S754_nan => true | _ => false end.

Definition is_zero (x : f64) : bool := match x with S754_zero _ => true | _ => false end.

(** Not a negative number. *)
Definition not_neg (x : f64) : bool :=
  match x with S754_finite true _ _ | S754_infinity true => false | _ => true end.

Section signs.
Implicit Types x y : f64.

Lemma zero_add x y : is_zero x = true -> is_zero y = true -> is_zero (x + y)%f64 = true.
Proof. destruct x as [[]| | |], y as [[]| | |]; done. Qed.

Lemma nil_add x y : nil x = true -> nil y = true -> nil (x + y)%f64 = true.
Proof. destruct x as [[]| | |], y as [[]| | |]; done. Qed.

Lemma nil_mul_zero x y : is_zero y = true -> nil (x * y)%f64 = true.
Proof. by destruct x, y. Qed.

Lemma zero_mul_finite x y : is_finite x = true -> is_zero y = true -> is_zero (x * y)%f64 = true.
Proof. by destruct x, y. Qed.

Lemma zero_sub x y : is_zero x = true -> is_zero y = true -> is_zero (x - y)%f64 = true.
Proof. destruct x as [[]| | |], y as [[]| | |]; done. Qed.

Lemma nil_div x y : nil x = true -> nil (x / y)%f64 = true.
Proof. by destruct x, y. Qed.

Lemma zero_div_n x n : is_zero x = true -> 0 < n < 2 ^ 53 -> is_zero (x / f_of_N n)%f64 = true.
Proof.
  intros Hx Hn. destruct (f_of_N_spec n) as (Hg & Hv & Hf); [lia|].
  destruct (f_of_N n) as [s|s| |s m e] eqn:E; try done; [|by destruct x].
  cbn [fz] in Hv. pose proof scale_pos. nia.
Qed.

Lemma f_sum_ind (P : f64 -> Prop) l :
  P f_zero -> (forall x y, P x -> P y -> P (x + y)%f64) -> Forall P l -> P (f_sum l).
Proof.
  intros H0 Ha Hl. unfold f_sum. revert H0. generalize f_zero as z.
  induction Hl as [|x l Hx _ IH]; intros z Hz; cbn; auto.
Qed.

Lemma round_not_neg m e l : not_neg (binary_round_aux 53 1024 false m e l) = true.
Proof.
  unfold binary_round_aux. destruct (shr_fexp _ _ _ _ _) as [mrs e1].
  destruct (shr_fexp _ _ _ _ _) as [mrs' e2]. by destruct (shr_m mrs') as [| |]; [|destruct (_ <=? _)%Z|].
Qed.

Lemma mul_not_neg x y : not_neg x = true -> not_neg y = true -> not_neg (x * y)%f64 = true.
Proof.
  destruct x as [sx|[]| |[] mx ex], y as [sy|[]| |[] my ey]; try done. intros _ _. apply round_not_neg.
Qed.

(** Nothing that is zero or NaN crosses a threshold that is not negative. *)
Lemma classify_nil s g : nil s = true -> not_neg g = true -> classify s g = Normal.
Proof. destruct s as [|[]| |[]], g as [|[]| |[]]; done. Qed.

Lemma f_max_not_neg x : not_neg (f_max x f_zero) = true.
Proof. unfold f_max. destruct x as [s|[]| |[] m e]; done. Qed.

Lemma sub_self_zero n : n < 2 ^ 64 -> is_zero (f_of_N n - f_of_N n)%f64 = true.
Proof.
  intros Hn. destruct (f_of_N n) as [s|s| |s m e] eqn:E.
  - by destruct s.
  - exfalso. pose proof (binary_normalize_rounds (Z.of_N n) 0 ltac:(lia) ltac:(lia)) as Hr.
    change (binary_normalize 53 1024 (Z.of_N n) 0 false) with (f_of_N n) in Hr. rewrite E in Hr.
    destruct (normalize_exact 1 64) as (Hz1 & Hz2 & Hz3); [done|done|].
    assert (Hle : (fz (S754_infinity s) <= fz (binary_normalize 53 1024 1 64 false))%Z).
    { eapply rounds_le; [exact Hr|done|]. 
      rewrite Hz2, (pow_scale 0), (pow_scale 64), Z.mul_1_l, Z.mul_1_r, Z.mul_1_l by lia.
      apply Z.mul_le_mono_nonneg_r; scale_lia. }
    rewrite Hz2 in Hle. destruct s; [by destruct Hr as [[] _]|]. revert Hle. vm_compute. by intros [].
  - exfalso. pose proof (binary_normalize_rounds (Z.of_N n) 0 ltac:(lia) ltac:(lia)) as Hr.
    change (binary_normalize 53 1024 (Z.of_N n) 0 false) with (f_of_N n) in Hr. rewrite E in Hr.
    by destruct Hr as [[] _].
  - cbn [f_sub SFsub]. by rewrite Z.sub_diag.
Qed.
End signs.

Lemma push_window_length w s :
  lenN w <= 20 -> lenN (push_window w s) = N.min 20 (lenN w + 1).
Proof.
  intros Hw. unfold push_window, TRENDLINE_WINDOW_SIZE. rewrite lenN_app, lenN_cons, lenN_nil.
  destruct (N.ltb_spec 20 (lenN w + (1 + 0))).
  - destruct w as [|x w]; [rewrite lenN_nil in *; lia|]. cbn [app tail].
    rewrite lenN_app, !lenN_cons, lenN_nil. rewrite lenN_cons in *. lia.
  - rewrite lenN_app, lenN_cons, lenN_nil. lia.
Qed.

Lemma push_window_Forall (P : f64 * f64 -> Prop) w s :
  Forall P w -> P s -> Forall P (push_window w s).
Proof.
  intros Hw Hs. assert (Forall P (w ++ [s])) as H by (apply Forall_app; auto).
  unfold push_window. destruct (_ <? _); [|done].
  destruct w as [|x w]; [constructor|]. cbn [app tail] in *. by apply Forall_cons in H as [_ ?].
Qed.

(** Zero ordinates give a slope of zero (or NaN). *)
Lemma flat_slope w :
  lenN w <= 20 -> Forall (fun '(_, y) => is_zero y = true) w -> nil (compute_slope w) = true.
Proof.
  intros Hl Hw. unfold compute_slope, MIN_WINDOW_FOR_SLOPE.
  destruct (N.ltb_spec (lenN w) 2); [done|].
  set (ym := (f_sum (map snd w) / f_of_N (lenN w))%f64).
  assert (Hym : is_zero ym = true).
  { apply zero_div_n; [|lia]. apply (f_sum_ind (fun x => is_zero x = true)); [done|by intros; apply zero_add|].
    apply Forall_map. eapply Forall_impl; [exact Hw|]. by intros [x y]. }
  destruct (_ <? _)%f64; [done|]. apply nil_div.
  apply (f_sum_ind (fun x => nil x = true)); [done|by intros; apply nil_add|].
  apply Forall_map. eapply Forall_impl; [exact Hw|]. intros [x y] Hy. cbn.
  by apply nil_mul_zero, zero_sub.
Qed.

(** States reached on a path of constant one-way delay [c]. *)
Definition steady (c : N) (e : DelayGradientEstimator) : Prop :=
  is_zero (smoothed_delta_us e) = true /\ is_zero (accumulated_owd_us e) = true /\
  lenN (window e) <= 20 /\ Forall (fun '(_, y) => is_zero y = true) (window e) /\
  nil (slope e) = true /\ usage e = Normal /\
  match prev_send_us e, prev_recv_us e with
  | Some s, Some r => s < 2 ^ 64 /\ r = s + c
  | None, None => True
  | _, _ => False
  end.

Lemma steady_observe c e s g :
  steady c e -> s < 2 ^ 64 -> steady c (fst (observe e s (s + c) g)).
Proof.
  intros (Hsm & Hacc & Hl & Hw & Hs & Hu & Hp) Hlt. unfold observe.
  destruct (prev_send_us e) as [ps|], (prev_recv_us e) as [pr|]; try done.
  destruct Hp as [Hps ->]. replace (s + c - (ps + c)) with (s - ps) by lia.
  assert (Hd : is_zero (f_of_N (s - ps) - f_of_N (s - ps))%f64 = true) by (apply sub_self_zero; lia).
  set (sm := (TRENDLINE_SMOOTHING_ALPHA * smoothed_delta_us e + _)%f64).
  assert (Hsm' : is_zero sm = true).
  { apply zero_add; apply zero_mul_finite; try done; vm_compute; reflexivity. }
  assert (Hacc' : is_zero (accumulated_owd_us e + sm)%f64 = true) by by apply zero_add.
  cbn [fst]. unfold steady;
    cbn [window smoothed_delta_us accumulated_owd_us slope usage prev_send_us prev_recv_us].
  set (w := push_window _ _).
  assert (Hwl : lenN w <= 20) by (unfold w; rewrite push_window_length by done; lia).
  assert (Hwz : Forall (fun '(_, y) => is_zero y = true) w) by (apply push_window_Forall; done).
  pose proof (flat_slope w Hwl Hwz) as Hfl.
  split_and!; try done. apply classify_nil; [done|]. apply mul_not_neg; [done|apply f_max_not_neg].
Qed.

(** ** Properties *)

(** a path of constant one-way delay is never reported as overused or
    underused, whatever the send times (even out of order), the constant offset
    between the clocks and the threshold multipliers (even NaN); and the
    regression window never exceeds 20 samples. *)
Theorem steady_delay_is_normal (c : N) (sends : list (N * f64)) :
  Forall (fun '(s, _) => s < 2 ^ 64) sends ->
  let e := observe_all new (map (fun '(s, g) => (s, s + c, g)) sends) in
  usage e = Normal /\ nil (slope e) = true /\ window_len e <= TRENDLINE_WINDOW_SIZE.
Proof.
  intros Hs e. assert (He : steady c e).
  { unfold e, observe_all. assert (H0 : steady c new) by (split_and!; done).
    revert H0. generalize new as e0. induction Hs as [|[s g] sends H _ IH]; intros e0 He0; [done|].
    cbn [map fold_left]. apply IH, steady_observe; done. }
  destruct He as (_ & _ & Hl & _ & Hsl & Hu & _). done.
Qed.

Lemma steady_delay_is_normal_witness :
  let e := observe_all new (map (fun '(s, g) => (s, s + 25000, g))
    [(1000, f_one); (21000, f_of_Z 2); (41000, S754_nan); (30000, f_one)]) in
  usage e = Normal /\ nil (slope e) = true /\ window_len e <= TRENDLINE_WINDOW_SIZE.
Proof.
  apply (steady_delay_is_normal 25000
    [(1000, f_one); (21000, f_of_Z 2); (41000, S754_nan); (30000, f_one)]).
  repeat constructor.
Defined.

(** A growing queue is reported: 10 acknowledgements 20 ms apart, each delayed 2 ms
    more than the one before. *)
Example growing_queue_is_overuse :
  usage (observe_all new (map (fun i => (i * 20000, i * 22000, f_one)) [1; 2; 3; 4; 5; 6; 7; 8; 9; 10])) =
    Overuse.
Proof. vm_compute. reflexivity. Qed.
End Delay.

(** The cellular-mode guard: [core/lbtp/src/cellular.rs]. *)
Module Cellular.
Definition OWD_WINDOW_SIZE : N := 30.
Definition SPIKE_THRESHOLD_FACTOR : f64 := f_lit 15 10.
Definition MIN_BIMODAL_FRACTION : f64 := f_lit 10 100.
Definition MAX_BIMODAL_FRACTION : f64 := f_lit 45 100.
Definition MIN_BIMODAL_SPREAD_US : f64 := f_of_Z 15000.
Definition CELLULAR_ENTRY_TICKS : N := 20.
Definition CELLULAR_EXIT_TICKS : N := 50.
Definition CELLULAR_GAMMA_MULTIPLIER : f64 := f_of_Z 2.
Definition CELLULAR_MIN_DECREASE_TICKS : N := 30.
Definition ALPHA_BASELINE : f64 := f_lit 10 100.
Definition ALPHA_SPREAD : f64 := f_lit 20 100.

Record BimodalDetector := mkDetector {
  window : list N;
  baseline_us : f64;
  spread_us : f64;
  bimodal : bool;
}.

Definition detector_new : BimodalDetector :=
  {| window := []; baseline_us := f_zero; spread_us := f_zero; bimodal := false |}.

Definition spikes (threshold : f64) (w : list N) : N :=
  lenN (filter (fun s => (f_of_N s >? threshold)%f64 = true) w).

Definition evaluate (w : list N) (baseline spread : f64) : bool :=
  if lenN w <? OWD_WINDOW_SIZE then false
  else
    let threshold := (baseline * SPIKE_THRESHOLD_FACTOR)%f64 in
    if (threshold <? f_one)%f64 then false
    else
      let spike_fraction := (f_of_N (spikes threshold w) / f_of_N (lenN w))%f64 in
      ((spike_fraction >=? MIN_BIMODAL_FRACTION) && (spike_fraction <=? MAX_BIMODAL_FRACTION) &&
       (spread >=? MIN_BIMODAL_SPREAD_US))%f64%bool.

Definition observe (d : BimodalDetector) (owd_us : N) : BimodalDetector :=
  let owd := f_of_N owd_us in
  match window d with
  | [] => {| window := [owd_us]; baseline_us := owd; spread_us := spread_us d; bimodal := bimodal d |}
  | _ =>
      let w := window d ++ [owd_us] in
      let w := if OWD_WINDOW_SIZE <? lenN w then tail w else w in
      let spike_thresh := (baseline_us d * SPIKE_THRESHOLD_FACTOR)%f64 in
      let baseline :=
        if (owd <=? spike_thresh)%f64
        then ((f_one - ALPHA_BASELINE) * baseline_us d + ALPHA_BASELINE * owd)%f64
        else baseline_us d in
      let deviation := SFabs (owd - baseline)%f64 in
      let spread := ((f_one - ALPHA_SPREAD) * spread_us d + ALPHA_SPREAD * deviation)%f64 in
      {| window := w; baseline_us := baseline; spread_us := spread;
         bimodal := evaluate w baseline spread |}
  end.

Definition is_bimodal (d : BimodalDetector) : bool := bimodal d.

Record CellularModeController := mkController {
  detector : BimodalDetector;
  active : bool;
  entry_counter : N;
  exit_counter : N;
  ticks_since_decrease : N;
}.

Definition new : CellularModeController :=
  {| detector := detector_new; active := false; entry_counter := 0; exit_counter := 0;
     ticks_since_decrease := CELLULAR_MIN_DECREASE_TICKS |}.

Definition observe_owd (c : CellularModeController) (owd_us : N) : CellularModeController :=
  {| detector := observe (detector c) owd_us; active := active c; entry_counter := entry_counter c;
     exit_counter := exit_counter c; ticks_since_decrease := ticks_since_decrease c |}.

Definition tick (c : CellularModeController) : CellularModeController :=
  let since := sat_add 32 (ticks_since_decrease c) 1 in
  let '(entry, exit) :=
    if is_bimodal (detector c)
    then (sat_add 32 (entry_counter c) 1, 0)
    else (0, sat_add 32 (exit_counter c) 1) in
  let '(act, entry) :=
    if negb (active c) && (CELLULAR_ENTRY_TICKS <=? entry) then (true, entry)
    else if active c && (CELLULAR_EXIT_TICKS <=? exit) then (false, 0)
    else (active c, entry) in
  {| detector := detector c; active := act; entry_counter := entry; exit_counter := exit;
     ticks_since_decrease := since |}.

Definition is_active (c : CellularModeController) : bool := active c.

Definition gamma_multiplier (c : CellularModeController) : f64 :=
  if active c then CELLULAR_GAMMA_MULTIPLIER else f_one.

Definition can_decrease (c : CellularModeController) : bool :=
  if negb (active c) then true else CELLULAR_MIN_DECREASE_TICKS <=? ticks_since_decrease c.

Definition can_increase (c : CellularModeController) (owd_trend : f64) : bool :=
  if negb (active c) then true else (owd_trend <=? f_zero)%f64.

Definition record_decrease (c : CellularModeController) : CellularModeController :=
  {| detector := detector c; active := active c; entry_counter := entry_counter c;
     exit_counter := exit_counter c; ticks_since_decrease := 0 |}.

(** ** Specification *)

(** A control interval: the samples fed, then the tick; or a rate cut. *)
Inductive Step := SOwd (owd_us : N) | STick | SDecrease.

Definition step (c : CellularModeController) (s : Step) : CellularModeController :=
  match s with
  | SOwd o => observe_owd c o
  | STick => tick c
  | SDecrease => record_decrease c
  end.

Definition steps (c : CellularModeController) (l : list Step) : CellularModeController :=
  fold_left step l c.

(** The verdicts seen by the ticks of a run, newest first. *)
Fixpoint verdicts (c : CellularModeController) (l : list Step) (acc : list bool) : list bool :=
  match l with
  | [] => acc
  | s :: l =>
      verdicts (step c s) l (match s with STick => is_bimodal (detector c) :: acc | _ => acc end)
  end.

(** Length of the run of [b] at the head. *)
Fixpoint streak (b : bool) (l : list bool) : N :=
  match l with
  | x :: l => if eqb x b then 1 + streak b l else 0
  | [] => 0
  end.

(** Hysteresis, as a function of the verdicts alone (newest first): enter after 20
    bimodal ticks in a row, leave after 50 others in a row. *)
Fixpoint hysteresis (l : list bool) : bool :=
  match l with
  | [] => false
  | b :: older =>
      if hysteresis older then negb (50 <=? streak false (b :: older))
      else 20 <=? streak true (b :: older)
  end.

(** ** Lemmas *)
Lemma streak_cons b l : streak b (b :: l) = 1 + streak b l.
Proof. cbn. by rewrite eqb_reflx. Qed.

Lemma streak_other b l : streak b (negb b :: l) = 0.
Proof. by destruct b. Qed.

Definition cap (n : N) : N := N.min n (2 ^ 32 - 1).

Lemma cap_add n : sat_add 32 (cap n) 1 = cap (1 + n).
Proof. unfold sat_add, cap, u_max. lia. Qed.

(** The counters are the streaks of verdicts, saturated. *)
Definition tracks (c : CellularModeController) (l : list bool) : Prop :=
  active c = hysteresis l /\ entry_counter c = cap (streak true l) /\
  exit_counter c = cap (streak false l).

Lemma leb_cap k n : k <= 50 -> (k <=? cap n) = (k <=? n).
Proof. intros Hk. unfold cap. destruct (N.leb_spec k n); [apply N.leb_le|apply N.leb_gt]; lia. Qed.

Lemma tracks_step c l s :
  tracks c l ->
  tracks (step c s) (match s with STick => is_bimodal (detector c) :: l | _ => l end).
Proof.
  intros (Ha & He & Hx). destruct s as [o| |]; try done.
  unfold tracks, step, tick. rewrite Ha, He, Hx, !cap_add.
  change CELLULAR_ENTRY_TICKS with 20. change CELLULAR_EXIT_TICKS with 50.
  destruct (is_bimodal (detector c)); cbn [hysteresis streak eqb]; rewrite !leb_cap by lia.
  - (* a bimodal tick: the exit streak is zero *)
    destruct (hysteresis l); cbn [negb andb].
    + change (50 <=? 0) with false. cbn. done.
    + destruct (20 <=? 1 + streak true l); done.
  - destruct (hysteresis l); cbn [negb andb].
    + destruct (50 <=? 1 + streak false l); done.
    + change (20 <=? 0) with false. cbn. done.
Qed.

Lemma tracks_steps c l acc :
  tracks c acc -> tracks (steps c l) (verdicts c l acc).
Proof.
  revert c acc. induction l as [|s l IH]; intros c acc Ht; [done|].
  cbn [steps fold_left verdicts]. apply IH, tracks_step, Ht.
Qed.

Definition tick_count (l : list Step) : N :=
  sum_of (fun s => match s with STick => 1 | _ => 0 end) l.

Definition no_decrease (l : list Step) : bool :=
  forallb (fun s => match s with SDecrease => false | _ => true end) l.

Lemma since_step c s n :
  ticks_since_decrease c = cap n -> s <> SDecrease ->
  ticks_since_decrease (step c s) = cap (tick_count [s] + n).
Proof.
  intros Hn Hs. destruct s; [by cbn| |done].
  cbn [step]. unfold tick. rewrite Hn. destruct (if is_bimodal _ then _ else _) as [en ex].
  destruct (if (_ && _)%bool then _ else _) as [ac en2]. cbn [ticks_since_decrease]. by rewrite cap_add.
Qed.

Lemma since_steps c l n :
  no_decrease l = true -> ticks_since_decrease c = cap n ->
  ticks_since_decrease (steps c l) = cap (tick_count l + n).
Proof.
  revert c n. induction l as [|s l IH]; intros c n Hl Hc; [done|].
  cbn [no_decrease forallb] in Hl. apply andb_true_iff in Hl as [Hs Hl].
  cbn [steps fold_left]. change (fold_left step l (step c s)) with (steps (step c s) l).
  rewrite (IH _ (tick_count [s] + n) Hl); [|by apply since_step; [|by destruct s]].
  unfold tick_count. rewrite !sum_of_cons, sum_of_nil. f_equal. lia.
Qed.

Lemma filter_length_le {A} (P : A -> Prop) `{forall x, Decision (P x)} (l : list A) :
  lenN (filter P l) <= lenN l.
Proof. unfold lenN. pose proof (length_filter P l). lia. Qed.

(** Which spike counts of a full window are in the bimodal band: 3 to 13. *)
Lemma fraction_band k :
  k <= 30 ->
  ((MIN_BIMODAL_FRACTION <=? f_of_N k / f_of_N 30) &&
   (f_of_N k / f_of_N 30 <=? MAX_BIMODAL_FRACTION))%f64%bool = ((3 <=? k) && (k <=? 13))%bool.
Proof.
  intros Hk. assert (H : forall i : nat, (i <= 30)%nat ->
    ((MIN_BIMODAL_FRACTION <=? f_of_N (N.of_nat i) / f_of_N 30) &&
     (f_of_N (N.of_nat i) / f_of_N 30 <=? MAX_BIMODAL_FRACTION))%f64%bool =
    ((3 <=? N.of_nat i) && (N.of_nat i <=? 13))%bool).
  { intros i Hi. do 31 (destruct i as [|i]; [vm_compute; reflexivity|]). lia. }
  specialize (H (N.to_nat k) ltac:(lia)). by rewrite N2Nat.id in H.
Qed.

Lemma evaluate_band w b s :
  lenN w <= 30 -> evaluate w b s = true ->
  lenN w = 30 /\ 3 <= spikes (b * SPIKE_THRESHOLD_FACTOR)%f64 w <= 13 /\
  (s >=? MIN_BIMODAL_SPREAD_US)%f64 = true.
Proof.
  intros Hl. unfold evaluate, OWD_WINDOW_SIZE. destruct (N.ltb_spec (lenN w) 30); [done|].
  destruct (_ <? _)%f64; [done|]. assert (Hw : lenN w = 30) by lia. rewrite Hw.
  pose proof (filter_length_le (fun n => SFltb (b * SPIKE_THRESHOLD_FACTOR)%f64 (f_of_N n) = true) w) as Hk.
  change (lenN (filter _ w)) with (spikes (b * SPIKE_THRESHOLD_FACTOR)%f64 w) in Hk.
  rewrite fraction_band by lia. intros [[H1 H2]%andb_true_iff H3]%andb_true_iff. reflectN. done.
Qed.

(** The detector's window never exceeds 30 samples, and its verdict is current. *)
Definition detector_ok (d : BimodalDetector) : Prop :=
  lenN (window d) <= 30 /\
  (bimodal d = true -> evaluate (window d) (baseline_us d) (spread_us d) = true).

Lemma observe_ok d o : detector_ok d -> detector_ok (observe d o).
Proof.
  intros [Hl Hb]. unfold observe. destruct (window d) as [|x w] eqn:Hw.
  - split; cbn [window bimodal]; [done|]. intros Ht. by specialize (Hb Ht).
  - split; cbn [window bimodal baseline_us spread_us]; [|done]. unfold OWD_WINDOW_SIZE.
    rewrite lenN_cons in Hl.
    destruct (N.ltb_spec 30 (lenN ((x :: w) ++ [o]))) as [H|H]; [|lia].
    cbn [app tail]. rewrite lenN_app, lenN_cons, lenN_nil. lia.
Qed.

Lemma steps_detector_ok c l : detector_ok (detector c) -> detector_ok (detector (steps c l)).
Proof.
  revert c. induction l as [|s l IH]; intros c Hc; [done|]. cbn [steps fold_left]. apply IH.
  destruct s; [by apply observe_ok| |done]. cbn [step]. unfold tick.
  destruct (if is_bimodal _ then _ else _) as [en ex]. by destruct (if (_ && _)%bool then _ else _).
Qed.

(** ** Properties *)

(** cellular mode is exactly the documented hysteresis: after any run,
    it is active iff the verdicts of the ticks say so (entered after 20 bimodal
    ticks in a row, left after 50 others in a row); a bimodal verdict means a full
    window of 30 samples of which 3 to 13 exceed the spike threshold, with a
    spread of at least 15 ms. *)
Theorem cellular_hysteresis (l : list Step) :
  let c := steps new l in
  is_active c = hysteresis (verdicts new l []) /\
  (is_bimodal (detector c) = true ->
    lenN (window (detector c)) = 30 /\
    3 <= spikes (baseline_us (detector c) * SPIKE_THRESHOLD_FACTOR)%f64 (window (detector c)) <= 13 /\
    (spread_us (detector c) >=? MIN_BIMODAL_SPREAD_US)%f64 = true).
Proof.
  intros c. split.
  - unfold is_active. apply (tracks_steps new l []). done.
  - intros Hb. destruct (steps_detector_ok new l) as [Hl He]; [done|].
    apply evaluate_band; [done|]. by apply He.
Qed.

(** rate cuts are spaced.  After a recorded decrease, as long as no further one is
    recorded, another is permitted exactly when cellular mode is off or 30 ticks have
    passed; before the first one it is always permitted. *)
Theorem decreases_spaced (before after : list Step) :
  no_decrease after = true ->
  let c := steps new (before ++ SDecrease :: after) in
  can_decrease c = (negb (is_active c) || (CELLULAR_MIN_DECREASE_TICKS <=? tick_count after)) /\
  (no_decrease before = true -> can_decrease (steps new before) = true).
Proof.
  intros Ha c. split.
  - unfold c, steps. rewrite fold_left_app. cbn [fold_left step].
    set (d := record_decrease _). fold (steps d after).
    unfold can_decrease, is_active. rewrite (since_steps d after 0 Ha) by done.
    rewrite N.add_0_r. unfold CELLULAR_MIN_DECREASE_TICKS. rewrite leb_cap by lia.
    by destruct (active _).
  - intros Hb. unfold can_decrease. rewrite (since_steps new before 30 Hb) by done.
    unfold CELLULAR_MIN_DECREASE_TICKS. rewrite leb_cap by lia.
    rewrite (proj2 (N.leb_le _ _)) by lia. by destruct (active _).
Qed.

Lemma decreases_spaced_witness :
  let c := steps new ([STick; SOwd 40000] ++ SDecrease :: [STick; STick]) in
  can_decrease c = (negb (is_active c) || (CELLULAR_MIN_DECREASE_TICKS <=? tick_count [STick; STick])).
Proof. exact (proj1 (decreases_spaced [STick; SOwd 40000] [STick; STick] eq_refl)). Defined.
End Cellular.
