(* ===== verification/Grants.v ===== *)
(** Capability grants and the sessions they gate: [core/messaging/src/grants.rs].

    A [ConsentRevocationHandle] is a shared flag: cloning a handle shares the
    cell, so handles are locations of a heap of flags and every operation that
    looks at one takes the heap.  Time is passed in: [now] is the value
    [Instant::now()] returns, in nanoseconds. *)
From S2P Require Import Prelude.
#[local] Open Scope N_scope.

(** ** Shared revocation flags *)
Abbreviation Heap := (list bool) (only parsing).
Abbreviation Instant := N (only parsing).
Abbreviation Duration := N (only parsing).

Record ConsentRevocationHandle := Handle { location : N }.

#[export] Instance handle_eq_dec : EqDecision ConsentRevocationHandle.
Proof. solve_decision. Defined.

(** [ConsentRevocationHandle::new]: a fresh cell holding [false]. *)
Definition handle_new (h : Heap) : Heap * ConsentRevocationHandle :=
  (h ++ [false], Handle (lenN h)).

Definition withdraw (h : Heap) (r : ConsentRevocationHandle) : Heap :=
  <[N.to_nat (location r) := true]> h.

Definition is_withdrawn (h : Heap) (r : ConsentRevocationHandle) : bool :=
  default false (h !! N.to_nat (location r)).

(** ** Time

    [Instant + Duration] panics ([None]) beyond the last representable
    instant, [2^63] seconds. *)
Definition INSTANT_END : N := 2 ^ 63 * 10 ^ 9.

Definition instant_add (now : Instant) (d : Duration) : option Instant :=
  if now + d <? INSTANT_END then Some (now + d) else None.

Inductive CapabilityError := NoActiveGrant | GrantExpired | ConsentWithdrawn.

(** [self.expires_at.map_or(false, |exp| now >= exp)] and
    [g.revocation.as_ref().map_or(false, |r| r.is_withdrawn())]. *)
Definition expired_at (now : Instant) (expires_at : option Instant) : bool :=
  match expires_at with None => false | Some exp => exp <=? now end.

Definition revoked_in (h : Heap) (revocation : option ConsentRevocationHandle) : bool :=
  match revocation with None => false | Some r => is_withdrawn h r end.

(** ** View *)
Module View.
Record ViewGrant := mkGrant {
  expires_at : option Instant;
  revocation : option ConsentRevocationHandle;
}.

Definition grant_new : ViewGrant := {| expires_at := None; revocation := None |}.

Definition with_duration (now : Instant) (duration : Duration) : option ViewGrant :=
  exp ← instant_add now duration; Some {| expires_at := Some exp; revocation := None |}.

Definition with_consent (handle : ConsentRevocationHandle) : ViewGrant :=
  {| expires_at := None; revocation := Some handle |}.

Definition is_expired (now : Instant) (g : ViewGrant) : bool := expired_at now (expires_at g).

Record ViewSession := mkSession { grant : option ViewGrant }.

Definition new : ViewSession := {| grant := None |}.

Definition set_grant (s : ViewSession) (g : option ViewGrant) : ViewSession := {| grant := g |}.

Definition is_granted (h : Heap) (now : Instant) (s : ViewSession) : bool :=
  match grant s with
  | None => false
  | Some g => negb (revoked_in h (revocation g)) && negb (is_expired now g)
  end.

Definition apply_frame (h : Heap) (now : Instant) (s : ViewSession) : result CapabilityError unit :=
  match grant s with
  | None => Err NoActiveGrant
  | Some g =>
      if revoked_in h (revocation g) then Err ConsentWithdrawn
      else if is_expired now g then Err GrantExpired
      else Ok tt
  end.
End View.

(** ** Control *)
Module Control.
Record ControlGrant := mkGrant {
  expires_at : option Instant;
  revocation : option ConsentRevocationHandle;
}.

Definition grant_new : ControlGrant := {| expires_at := None; revocation := None |}.

Definition with_duration (now : Instant) (duration : Duration) : option ControlGrant :=
  exp ← instant_add now duration; Some {| expires_at := Some exp; revocation := None |}.

Definition with_consent (handle : ConsentRevocationHandle) : ControlGrant :=
  {| expires_at := None; revocation := Some handle |}.

Definition is_expired (now : Instant) (g : ControlGrant) : bool := expired_at now (expires_at g).

Record ControlSession := mkSession { grant : option ControlGrant }.

Definition new : ControlSession := {| grant := None |}.

Definition set_grant (s : ControlSession) (g : option ControlGrant) : ControlSession :=
  {| grant := g |}.

Definition is_granted (h : Heap) (now : Instant) (s : ControlSession) : bool :=
  match grant s with
  | None => false
  | Some g => negb (revoked_in h (revocation g)) && negb (is_expired now g)
  end.

Definition apply_event (h : Heap) (now : Instant) (s : ControlSession) :
    result CapabilityError unit :=
  match grant s with
  | None => Err NoActiveGrant
  | Some g =>
      if revoked_in h (revocation g) then Err ConsentWithdrawn
      else if is_expired now g then Err GrantExpired
      else Ok tt
  end.
End Control.

(** ** Files *)
Module File.
Record FileGrant := mkGrant { revocation : option ConsentRevocationHandle }.

Definition grant_new : FileGrant := {| revocation := None |}.

Definition with_consent (handle : ConsentRevocationHandle) : FileGrant :=
  {| revocation := Some handle |}.

Record FileSession := mkSession { grant : option FileGrant }.

Definition new : FileSession := {| grant := None |}.

Definition set_grant (s : FileSession) (g : option FileGrant) : FileSession := {| grant := g |}.

Definition is_granted (h : Heap) (s : FileSession) : bool :=
  match grant s with None => false | Some g => negb (revoked_in h (revocation g)) end.

Definition apply_chunk (h : Heap) (s : FileSession) (bytes : list byte) :
    result CapabilityError unit :=
  match grant s with
  | None => Err NoActiveGrant
  | Some g => if revoked_in h (revocation g) then Err ConsentWithdrawn else Ok tt
  end.
End File.

(** ** Issuing *)
Record ConsentGrant := mkConsent { duration : option Duration }.

Definition consent_new : ConsentGrant := {| duration := None |}.

Definition consent_with_duration (d : Duration) : ConsentGrant := {| duration := Some d |}.

Definition into_grants (now : Instant) (c : ConsentGrant) :
    option (View.ViewGrant * Control.ControlGrant) :=
  match duration c with
  | None => Some (View.grant_new, Control.grant_new)
  | Some d =>
      exp ← instant_add now d;
      Some ({| View.expires_at := Some exp; View.revocation := None |},
            {| Control.expires_at := Some exp; Control.revocation := None |})
  end.

(** [self.duration.map(|d| Instant::now() + d)]: the outer option is the panic. *)
Definition expiry_of (now : Instant) (c : ConsentGrant) : option (option Instant) :=
  match duration c with None => Some None | Some d => Some <$> instant_add now d end.

Definition issue_all (h : Heap) (now : Instant) (c : ConsentGrant) :
    option (Heap * (View.ViewGrant * Control.ControlGrant * File.FileGrant *
                    ConsentRevocationHandle)) :=
  let '(h', handle) := handle_new h in
  exp ← expiry_of now c;
  Some (h', ({| View.expires_at := exp; View.revocation := Some handle |},
             {| Control.expires_at := exp; Control.revocation := Some handle |},
             {| File.revocation := Some handle |},
             handle)).

(** ** The gate every session implements

    The four sessions of the program (view, control, file, clipboard) promise
    the same thing of their [apply] operation; [TokenSession] states it once
    and the sessions are its instances. *)
Class Token (G : Type) := {
  token_expiry : G -> option Instant;
  token_flag : G -> option ConsentRevocationHandle;
}.

Definition gate `{Token G} (h : Heap) (now : Instant) (g : option G) : result CapabilityError unit :=
  match g with
  | None => Err NoActiveGrant
  | Some g =>
      if revoked_in h (token_flag g) then Err ConsentWithdrawn
      else if expired_at now (token_expiry g) then Err GrantExpired
      else Ok tt
  end.

Class TokenSession (T G : Type) `{Token G} := {
  held : T -> option G;
  install : T -> option G -> T;
  granted : Heap -> Instant -> T -> bool;
  attempt : Heap -> Instant -> T -> result CapabilityError unit;
  held_install : forall s g, held (install s g) = g;
  attempt_gate : forall h now s, attempt h now s = gate h now (held s);
  granted_attempt : forall h now s, granted h now s = is_ok (attempt h now s);
}.

#[export] Instance view_token : Token View.ViewGrant :=
  { token_expiry := View.expires_at; token_flag := View.revocation }.
#[export] Instance control_token : Token Control.ControlGrant :=
  { token_expiry := Control.expires_at; token_flag := Control.revocation }.
#[export] Instance file_token : Token File.FileGrant :=
  { token_expiry _ := None; token_flag := File.revocation }.

#[export] Program Instance view_session : TokenSession View.ViewSession View.ViewGrant :=
  { held := View.grant; install := View.set_grant;
    granted := View.is_granted; attempt := View.apply_frame }.
Next Obligation. done. Qed.
Next Obligation. done. Qed.
Next Obligation.
  intros h now [[g|]]; [|done]. unfold View.is_granted, View.apply_frame, is_ok. cbn. by case_ifs.
Qed.

#[export] Program Instance control_session : TokenSession Control.ControlSession Control.ControlGrant :=
  { held := Control.grant; install := Control.set_grant;
    granted := Control.is_granted; attempt := Control.apply_event }.
Next Obligation. done. Qed.
Next Obligation. done. Qed.
Next Obligation.
  intros h now [[g|]]; [|done]. unfold Control.is_granted, Control.apply_event, is_ok. cbn. by case_ifs.
Qed.

(** A file session has no expiry and ignores the bytes of the chunk. *)
#[export] Program Instance file_session : TokenSession File.FileSession File.FileGrant :=
  { held := File.grant; install := File.set_grant;
    granted h _ s := File.is_granted h s; attempt h _ s := File.apply_chunk h s [] }.
Next Obligation. done. Qed.
Next Obligation. intros h now [[g|]]; [|done]. unfold File.apply_chunk. cbn. by case_ifs. Qed.
Next Obligation.
  intros h now [[g|]]; [|done]. unfold File.is_granted, File.apply_chunk. cbn. by case_ifs.
Qed.

(** ** Lemmas *)

(** Flags only ever go up: an order on heaps that every operation respects. *)
Definition heap_le (h h' : Heap) : Prop :=
  (length h <= length h')%nat /\ forall r, is_withdrawn h r = true -> is_withdrawn h' r = true.

#[export] Instance heap_le_preorder : PreOrder heap_le.
Proof.
  split.
  - intros h. by split.
  - intros h1 h2 h3 [L1 F1] [L2 F2]. split; [lia|auto].
Qed.

Section heaps.
Implicit Types (h : Heap) (r : ConsentRevocationHandle).

Lemma is_withdrawn_lt h r : is_withdrawn h r = true -> location r < lenN h.
Proof.
  unfold is_withdrawn, lenN. intros Hr. destruct (h !! N.to_nat (location r)) eqn:E; [|done].
  apply lookup_lt_Some in E. lia.
Qed.

Lemma withdraw_self h r : location r < lenN h -> is_withdrawn (withdraw h r) r = true.
Proof.
  intros Hl. unfold is_withdrawn, withdraw. rewrite list_lookup_insert_eq; [done|].
  unfold lenN in Hl. lia.
Qed.

Lemma withdraw_other h r r' : r <> r' -> is_withdrawn (withdraw h r) r' = is_withdrawn h r'.
Proof.
  intros Hr. unfold is_withdrawn, withdraw. rewrite list_lookup_insert_ne; [done|].
  destruct r, r'; cbn in *. intros E. apply Hr. f_equal. lia.
Qed.

Lemma heap_le_withdraw h r : heap_le h (withdraw h r).
Proof.
  split; [by unfold withdraw; rewrite length_insert|]. intros r' Hr'.
  destruct (decide (r = r')) as [->|]; [by apply withdraw_self, is_withdrawn_lt|].
  by rewrite withdraw_other.
Qed.

Lemma is_withdrawn_new h r : is_withdrawn (handle_new h).1 r = is_withdrawn h r.
Proof.
  unfold is_withdrawn, handle_new; cbn.
  destruct (decide (N.to_nat (location r) < length h)%nat); [by rewrite lookup_app_l|].
  rewrite lookup_app_r, (lookup_ge_None_2 h) by lia. by destruct (N.to_nat (location r) - length h)%nat.
Qed.

Lemma heap_le_new h : heap_le h (handle_new h).1.
Proof.
  split; [cbn; rewrite length_app; lia|]. intros r. by rewrite is_withdrawn_new.
Qed.

Lemma heap_le_issue h now c h' gs : issue_all h now c = Some (h', gs) -> heap_le h h'.
Proof.
  unfold issue_all, handle_new. destruct (expiry_of now c); cbn; [|done].
  intros [= <- _]. apply (heap_le_new h).
Qed.
End heaps.

Section gates.
Context `{Token G}.


(** Time passing and flags going up never let a rejected token through. *)
Lemma gate_mono h h' now now' (g : option G) :
  heap_le h h' -> now <= now' -> is_ok (gate h now g) = false -> is_ok (gate h' now' g) = false.
Proof.
  intros [_ Hf] Hn. destruct g as [g|]; [|done]. cbn.
  destruct (revoked_in h (token_flag g)) eqn:E.
  - intros _. destruct (token_flag g); [|done]. cbn in *. by rewrite (Hf _ E).
  - destruct (expired_at now (token_expiry g)) eqn:E2; [|done]. intros _.
    destruct (revoked_in h' (token_flag g)); [done|].
    destruct (token_expiry g); [|done]. cbn in *. reflectN.
    by rewrite (proj2 (N.leb_le _ _)) by lia.
Qed.

Lemma gate_ok h now (g : option G) :
  is_ok (gate h now g) = true <->
  exists g', g = Some g' /\ revoked_in h (token_flag g') = false /\
    expired_at now (token_expiry g') = false.
Proof.
  destruct g as [g|]; [|split; [done|by intros (? & ? & _)]]. cbn.
  split.
  - case_ifs; intros; [done|done|by eauto].
  - intros (g' & [= <-] & -> & ->). done.
Qed.

Lemma gate_withdrawn h now (g : G) r :
  token_flag g = Some r -> is_withdrawn h r = true -> gate h now (Some g) = Err ConsentWithdrawn.
Proof. intros E Hr. cbn. rewrite E. cbn. by rewrite Hr. Qed.
End gates.
