(* ===== verification/Clipboard.v ===== *)
(** Capability-gated clipboard: [core/messaging/src/clipboard.rs].

    The abstract specification of file names is [resolve]: what opening a name
    relative to a directory refers to, with both separators, [.] and [..]. *)
From S2P Require Import Prelude Text Grants.
#[local] Open Scope N_scope.

Definition CLIPBOARD_MAX_TEXT_BYTES : N := 4096.
Definition CONSTRAINED_TIER_BPS : N := 150000.
Definition CLIPBOARD_MAX_FILES : N := 64.
Definition CLIPBOARD_MAX_FILE_BYTES : N := 512 * 1024 * 1024.

Record ClipboardGrant := mkGrant { revocation : option ConsentRevocationHandle }.

Definition grant_new : ClipboardGrant := {| revocation := None |}.

Definition with_consent (handle : ConsentRevocationHandle) : ClipboardGrant :=
  {| revocation := Some handle |}.

Inductive ClipboardError :=
| NoActiveGrant
| TextTooLong (len : N)
| ConsentWithdrawn
| TooManyFiles (count : N)
| FilesTooLarge (total : N)
| UnsafeFileName (name : str).

Record ClipboardFileEntry := mkEntry { name : str; size : N }.
Record ClipboardFileOffer := mkOffer { entries : list ClipboardFileEntry }.

(** [iter().map(|e| e.size).sum()] on [u64]: plain additions, which wrap in a
    release build. *)
Definition total_bytes (o : ClipboardFileOffer) : N :=
  fold_left (fun s e => wrapping_add 64 s (size e)) (entries o) 0.

(** The characters the checks name. *)
Definition slash : N := 0x2F.
Definition backslash : N := 0x5C.
Definition dot : N := 0x2E.

Definition safe_file_name (name : str) : bool :=
  negb (str_len name =? 0)
  && (str_len name <=? 255)
  && negb (bool_decide (name = [dot]))
  && negb (bool_decide (name = [dot; dot]))
  && negb (contains_char slash name)
  && negb (contains_char backslash name)
  && negb (contains_char 0 name)
  && negb (contains [dot; dot] name)
  && bool_decide (trim name = name)
  && negb (existsb is_control name).

Record ClipboardSession := mkSession { grant : option ClipboardGrant }.

Definition new : ClipboardSession := {| grant := None |}.

Definition set_grant (s : ClipboardSession) (g : option ClipboardGrant) : ClipboardSession :=
  {| grant := g |}.

Definition is_granted (h : Heap) (s : ClipboardSession) : bool :=
  match grant s with None => false | Some g => negb (revoked_in h (revocation g)) end.

Definition check_grant (h : Heap) (s : ClipboardSession) : result ClipboardError unit :=
  match grant s with
  | None => Err NoActiveGrant
  | Some g => if revoked_in h (revocation g) then Err ConsentWithdrawn else Ok tt
  end.

Definition apply_remote (h : Heap) (s : ClipboardSession) (text : str) :
    result ClipboardError unit :=
  check_grant h s ≫= fun _ =>
  if CLIPBOARD_MAX_TEXT_BYTES <? str_len text then Err (TextTooLong (str_len text)) else Ok tt.

(** The loop over the entries stops at the first unsafe name. *)
Fixpoint check_names (es : list ClipboardFileEntry) : result ClipboardError unit :=
  match es with
  | [] => Ok tt
  | e :: es => if negb (safe_file_name (name e)) then Err (UnsafeFileName (name e)) else check_names es
  end.

Definition apply_remote_files (h : Heap) (s : ClipboardSession) (offer : ClipboardFileOffer) :
    result ClipboardError unit :=
  check_grant h s ≫= fun _ =>
  if CLIPBOARD_MAX_FILES <? lenN (entries offer) then Err (TooManyFiles (lenN (entries offer)))
  else
  let total := total_bytes offer in
  if CLIPBOARD_MAX_FILE_BYTES <? total then Err (FilesTooLarge total)
  else check_names (entries offer).

(** ** What a name refers to *)
Definition is_separator (c : N) : bool := (c =? slash) || (c =? backslash).

Fixpoint components (s : str) : list str :=
  match s with
  | [] => [[]]
  | c :: s =>
      if is_separator c then [] :: components s
      else match components s with [] => [[c]] | w :: ws => (c :: w) :: ws end
  end.

Definition enter (dir : list str) (c : str) : list str :=
  if bool_decide (c = [] \/ c = [dot]) then dir
  else if bool_decide (c = [dot; dot]) then removelast dir
  else dir ++ [c].

(** Opening [p] in [dir]; a leading separator starts at the root. *)
Definition resolve (dir : list str) (p : str) : list str :=
  let start := match p with c :: _ => if is_separator c then [] else dir | [] => dir end in
  fold_left enter (components p) start.

(** ** The clipboard session is a gate like the others *)
#[export] Instance clipboard_token : Token ClipboardGrant :=
  { token_expiry _ := None; token_flag := revocation }.

Definition as_capability (r : result ClipboardError unit) : result CapabilityError unit :=
  match r with
  | Ok _ => Ok tt
  | Err ConsentWithdrawn => Err Grants.ConsentWithdrawn
  | Err _ => Err Grants.NoActiveGrant
  end.

#[export] Program Instance clipboard_session : TokenSession ClipboardSession ClipboardGrant :=
  { held := grant; install := set_grant;
    granted h _ s := is_granted h s; attempt h _ s := as_capability (check_grant h s) }.
Next Obligation. done. Qed.
Next Obligation. intros h now [[g|]]; [|done]. unfold check_grant. cbn. by case_ifs. Qed.
Next Obligation. intros h now [[g|]]; [|done]. unfold is_granted, check_grant. cbn. by case_ifs. Qed.

(** ** Lemmas *)
Section clipboard.
Implicit Types (o : ClipboardFileOffer) (s : ClipboardSession) (h : Heap).

Lemma total_bytes_fold (es : list ClipboardFileEntry) a :
  a < 2 ^ 64 ->
  fold_left (fun t e => wrapping_add 64 t (size e)) es a = wrap 64 (a + sum_of size es).
Proof.
  revert a. induction es as [|e es IH]; intros a Ha; cbn [fold_left].
  - rewrite sum_of_nil, N.add_0_r. symmetry. by apply wrap_small.
  - rewrite IH by apply wrap_lt. rewrite sum_of_cons. unfold wrapping_add, wrap.
    rewrite N.Div0.add_mod_idemp_l. f_equal. lia.
Qed.

Lemma total_bytes_wrap o : total_bytes o = wrap 64 (sum_of size (entries o)).
Proof. unfold total_bytes. by rewrite total_bytes_fold. Qed.

Lemma check_names_ok es : check_names es = Ok tt <-> Forall (fun e => safe_file_name (name e) = true) es.
Proof.
  induction es as [|e es IH]; cbn; [split; [by constructor|done]|].
  rewrite Forall_cons, <- IH. destruct (safe_file_name (name e)); cbn; intuition congruence.
Qed.

Lemma check_grant_ok h s : check_grant h s = Ok tt <-> is_granted h s = true.
Proof.
  unfold check_grant, is_granted. destruct (grant s); [|done]. by destruct (revoked_in _ _).
Qed.

Lemma components_plain p :
  contains_char slash p = false -> contains_char backslash p = false -> components p = [p].
Proof.
  unfold contains_char. induction p as [|c p IH]; cbn [existsb components]; [done|].
  rewrite !orb_false_iff. intros [H1 H2] [H3 H4]. unfold is_separator.
  rewrite N.eqb_sym, H1, N.eqb_sym, H3. cbn. by rewrite IH.
Qed.

(** A safe name is one component that enters the directory and goes nowhere
    else. *)
Lemma safe_resolves p dir : safe_file_name p = true -> resolve dir p = dir ++ [p].
Proof.
  unfold safe_file_name. rewrite !andb_true_iff, !negb_true_iff.
  intros [[[[[[[[[H1 H2] H3] H4] H5] H6] H7] H8] H9] H10].
  unfold resolve. rewrite components_plain by done.
  assert (Hne : p <> []) by (intros ->; done).
  assert (Hs : match p with c :: _ => if is_separator c then [] else dir | [] => dir end = dir).
  { destruct p as [|c p]; [done|]. unfold contains_char in H5, H6. cbn [existsb] in H5, H6.
    apply orb_false_iff in H5 as [H5 _], H6 as [H6 _].
    unfold is_separator. by rewrite N.eqb_sym, H5, N.eqb_sym, H6. }
  rewrite Hs. cbn [fold_left]. unfold enter.
  rewrite bool_decide_eq_false in H3. rewrite bool_decide_eq_false in H4.
  rewrite bool_decide_false by (intros [?|?]; done). by rewrite bool_decide_false.
Qed.

Lemma safe_not_control p : safe_file_name p = true -> Forall (fun c => is_control c = false) p.
Proof.
  unfold safe_file_name. rewrite !andb_true_iff, !negb_true_iff. intros [_ H].
  apply Forall_forall. intros c Hc. apply not_true_iff_false. intros Hcc.
  apply not_true_iff_false in H. apply H, existsb_exists. exists c. by rewrite <- list_elem_of_In.
Qed.

Lemma apply_remote_files_ok h s o :
  apply_remote_files h s o = Ok tt <->
  is_granted h s = true /\ lenN (entries o) <= CLIPBOARD_MAX_FILES /\
  wrap 64 (sum_of size (entries o)) <= CLIPBOARD_MAX_FILE_BYTES /\
  Forall (fun e => safe_file_name (name e) = true) (entries o).
Proof.
  unfold apply_remote_files. rewrite <- check_grant_ok, <- check_names_ok, total_bytes_wrap.
  destruct (check_grant h s) as [[]|e]; cbn; [|intuition congruence].
  destruct (N.ltb_spec CLIPBOARD_MAX_FILES (lenN (entries o)));
    [split; [done|intros (_ & ? & _); lia]|].
  destruct (N.ltb_spec CLIPBOARD_MAX_FILE_BYTES (wrap 64 (sum_of size (entries o))));
    [split; [done|intros (_ & _ & ? & _); lia]|]. intuition.
Qed.
End clipboard.

(** ** Properties *)

(** an accepted clipboard file offer cannot leave the drop directory: the
    grant is live, there are at most 64 files, each name opened in a directory
    is a fresh entry of exactly that directory (no traversal, no absolute path,
    under either separator) without control characters, and, when the sizes do
    not overflow a [u64], they add up to at most 512 MiB. *)
Theorem accepted_files_stay_inside (h : Heap) (s : ClipboardSession) (offer : ClipboardFileOffer)
    (dir : list str) :
  apply_remote_files h s offer = Ok tt ->
  is_granted h s = true /\ lenN (entries offer) <= 64 /\
  Forall (fun e => resolve dir (name e) = dir ++ [name e] /\
                   Forall (fun c => is_control c = false) (name e)) (entries offer) /\
  (sum_of size (entries offer) < 2 ^ 64 -> sum_of size (entries offer) <= 512 * 1024 * 1024).
Proof.
  intros (Hg & Hn & Ht & Hs)%apply_remote_files_ok. split; [done|]. split; [done|]. split.
  - eapply Forall_impl; [exact Hs|]. intros e He. split; [by apply safe_resolves|by apply safe_not_control].
  - intros Hlt. rewrite wrap_small in Ht by done. exact Ht.
Qed.

Lemma accepted_files_stay_inside_witness :
  let offer := mkOffer [mkEntry [0x61; dot; 0x62] 100; mkEntry [0xE9] 7] in
  let s := mkSession (Some (with_consent (Handle 0))) in
  is_granted [false] s = true /\ lenN (entries offer) <= 64 /\
  Forall (fun e => resolve [[0x64]] (name e) = [[0x64]; name e] /\
                   Forall (fun c => is_control c = false) (name e)) (entries offer) /\
  (sum_of size (entries offer) < 2 ^ 64 -> sum_of size (entries offer) <= 512 * 1024 * 1024).
Proof.
  apply (accepted_files_stay_inside [false] _ _ [[0x64]]). vm_compute. reflexivity.
Defined.

(** the aggregate-size cap does not hold: the sizes are summed with
    wrap-around, so an offer whose announced total is 16 EiB and more is accepted
    whenever the total is at most 512 MiB modulo [2^64]. *)
Theorem oversized_offer_accepted (h : Heap) (s : ClipboardSession) (n1 n2 : str) (a b : N) :
  is_granted h s = true -> safe_file_name n1 = true -> safe_file_name n2 = true ->
  2 ^ 64 <= a + b <= 2 ^ 64 + CLIPBOARD_MAX_FILE_BYTES ->
  let offer := mkOffer [mkEntry n1 a; mkEntry n2 b] in
  apply_remote_files h s offer = Ok tt /\ CLIPBOARD_MAX_FILE_BYTES < sum_of size (entries offer).
Proof.
  intros Hg H1 H2 Hab offer.
  assert (Hs : sum_of size (entries offer) = a + b) by (cbn; lia).
  split; [|rewrite Hs; unfold CLIPBOARD_MAX_FILE_BYTES in *; lia].
  apply apply_remote_files_ok. rewrite Hs. split_and!; [done|done| |by repeat constructor].
  unfold wrap, CLIPBOARD_MAX_FILE_BYTES in *.
  replace (a + b) with ((a + b - 2 ^ 64) + 1 * 2 ^ 64) by lia.
  rewrite N.Div0.mod_add, N.mod_small; lia.
Qed.

Lemma oversized_offer_accepted_witness :
  let offer := mkOffer [mkEntry [0x61] (2 ^ 63); mkEntry [0x62] (2 ^ 63)] in
  let s := mkSession (Some grant_new) in
  apply_remote_files [] s offer = Ok tt /\ CLIPBOARD_MAX_FILE_BYTES < sum_of size (entries offer).
Proof.
  apply (oversized_offer_accepted [] (mkSession (Some grant_new)) [0x61] [0x62]);
    [reflexivity..|vm_compute; by split].
Defined.

(** A trailing dot passes the checks, although the comment on [trim] says that
    leading and trailing dots are excluded. *)
Example trailing_dot_accepted : safe_file_name [0x61; dot] = true.
Proof. vm_compute. reflexivity. Qed.
