(* ===== verification/PanicKey.v ===== *)
(** The panic key: [core/messaging/src/panic_key.rs].

    [PanicController] is the side whose user presses the key,
    [PanicNoticeReceiver] the far side; [Link] puts both together with the
    notices in flight. *)
From S2P Require Import Prelude Grants.
#[local] Open Scope N_scope.

Definition PANIC_INJECTION_BLOCK_DEADLINE_MS : N := 50.

Record PanicEffect := mkEffect { injection_revoked : bool; effect_transport_up : bool }.

Record PanicNotice := mkNotice { seq : N }.

Definition PANIC_NOTICE_TAG : N := 0x50.
Definition PANIC_NOTICE_LEN : N := 5.

Definition encode (n : PanicNotice) : list byte := byte_of PANIC_NOTICE_TAG :: le_bytes 4 (seq n).

Definition decode (buf : list byte) : option PanicNotice :=
  match buf with
  | tag :: body =>
      if negb (lenN buf =? PANIC_NOTICE_LEN) || negb (Byte.to_N tag =? PANIC_NOTICE_TAG)
      then None else Some {| seq := le_value body |}
  | [] => None
  end.

Record PanicController := mkController {
  transport_up : bool;
  panic_fired : bool;
  next_seq : N;
}.

Definition controller_new : PanicController :=
  {| transport_up := false; panic_fired := false; next_seq := 1 |}.

Definition set_transport_up (c : PanicController) (up : bool) : PanicController :=
  {| transport_up := up;
     panic_fired := if negb up then false else panic_fired c;
     next_seq := next_seq c |}.

Definition fire_panic (c : PanicController) (control : Control.ControlSession) :
    PanicController * Control.ControlSession * PanicEffect :=
  if negb (transport_up c)
  then (c, control, {| injection_revoked := false; effect_transport_up := false |})
  else ({| transport_up := transport_up c; panic_fired := true; next_seq := next_seq c |},
        Control.set_grant control None,
        {| injection_revoked := true; effect_transport_up := true |}).

Definition fire_panic_with_notice (c : PanicController) (control : Control.ControlSession) :
    PanicController * Control.ControlSession * (PanicEffect * option PanicNotice) :=
  let '(c, control, effect) := fire_panic c control in
  if negb (injection_revoked effect) then (c, control, (effect, None))
  else
    let notice := {| seq := next_seq c |} in
    ({| transport_up := transport_up c; panic_fired := panic_fired c;
        next_seq := wrapping_add 32 (next_seq c) 1 |},
     control, (effect, Some notice)).

Definition clear_panic (c : PanicController) : PanicController :=
  {| transport_up := transport_up c; panic_fired := false; next_seq := next_seq c |}.

Record PanicNoticeReceiver := mkReceiver { last_seq : option N }.

Definition receiver_new : PanicNoticeReceiver := {| last_seq := None |}.

(** [PanicNoticeReceiver::apply], on the session and controller it is handed. *)
Definition apply (r : PanicNoticeReceiver) (notice : PanicNotice)
    (control : Control.ControlSession) (panic : PanicController) :
    PanicNoticeReceiver * Control.ControlSession * PanicController * bool :=
  if match last_seq r with Some last => seq notice <=? last | None => false end
  then (r, control, panic, false)
  else ({| last_seq := Some (seq notice) |},
        Control.set_grant control None,
        {| transport_up := transport_up panic; panic_fired := true; next_seq := next_seq panic |},
        true).

(** ** Both sides and the notices between them *)
Record Link := mkLink {
  sender : PanicController;
  local : Control.ControlSession;
  sent : list PanicNotice;
  receiver : PanicNoticeReceiver;
  remote : Control.ControlSession;
  remote_panic : PanicController;
}.

Definition link_new : Link :=
  {| sender := controller_new; local := Control.new; sent := [];
     receiver := receiver_new; remote := Control.new; remote_panic := controller_new |}.

(** The panic key, with its notice put on the channel. *)
Definition fire (l : Link) : Link :=
  let '(c, ctl, (_, notice)) := fire_panic_with_notice (sender l) (local l) in
  {| sender := c; local := ctl; sent := sent l ++ option_list notice;
     receiver := receiver l; remote := remote l; remote_panic := remote_panic l |}.

(** The arrival of a notice that was sent, in any order and any number of
    times. *)
Definition deliver (l : Link) (n : PanicNotice) : Link :=
  let '(r, ctl, p, _) := apply (receiver l) n (remote l) (remote_panic l) in
  {| sender := sender l; local := local l; sent := sent l;
     receiver := r; remote := ctl; remote_panic := p |}.

Inductive step : Link -> Link -> Prop :=
| step_fire l : next_seq (sender l) < u_max 32 -> step l (fire l)
| step_deliver l n : n ∈ sent l -> step l (deliver l n)
| step_grants l g1 g2 :
    step l {| sender := sender l; local := Control.set_grant (local l) g1; sent := sent l;
              receiver := receiver l; remote := Control.set_grant (remote l) g2;
              remote_panic := remote_panic l |}
| step_transport l up1 up2 :
    step l {| sender := set_transport_up (sender l) up1; local := local l; sent := sent l;
              receiver := receiver l; remote := remote l;
              remote_panic := set_transport_up (remote_panic l) up2 |}
| step_clear l :
    step l {| sender := clear_panic (sender l); local := local l; sent := sent l;
              receiver := receiver l; remote := remote l;
              remote_panic := clear_panic (remote_panic l) |}.

(** Every notice sent is below the next number, and the receiver only knows
    numbers that were sent. *)
Definition link_inv (l : Link) : Prop :=
  next_seq (sender l) < 2 ^ 32 /\
  Forall (fun n => seq n < next_seq (sender l)) (sent l) /\
  match last_seq (receiver l) with
  | Some s => s < next_seq (sender l)
  | None => True
  end.

(** ** Lemmas *)
Section panic.
Implicit Types (c p : PanicController) (l : Link) (n : PanicNotice).

Lemma decode_encode n : seq n < 2 ^ 32 -> decode (encode n) = Some n.
Proof.
  intros Hs. unfold decode, encode. rewrite lenN_cons, lenN_le_bytes, to_N_byte_of. cbn -[le_value le_bytes].
  rewrite le_value_bytes_small by (cbn; lia). by destruct n.
Qed.

Lemma encode_decode buf n : decode buf = Some n -> buf = encode n /\ seq n < 2 ^ 32.
Proof.
  unfold decode, encode. destruct buf as [|tag body]; [done|].
  destruct (_ || _)%bool eqn:E; [done|]. intros [= <-]. reflectN. cbn [seq].
  rewrite lenN_cons in *. unfold lenN, PANIC_NOTICE_LEN, PANIC_NOTICE_TAG in *.
  assert (Hl : length body = 4%nat) by lia. split.
  - rewrite <- Hl, le_bytes_value. f_equal. rewrite <- (byte_of_to_N tag). congruence.
  - pose proof (le_value_lt body) as Hv. by rewrite Hl in Hv.
Qed.

Lemma fire_up l :
  transport_up (sender l) = true ->
  fire l = {| sender := {| transport_up := true; panic_fired := true;
                           next_seq := wrapping_add 32 (next_seq (sender l)) 1 |};
              local := Control.set_grant (local l) None;
              sent := sent l ++ [mkNotice (next_seq (sender l))];
              receiver := receiver l; remote := remote l; remote_panic := remote_panic l |}.
Proof.
  intros Hu. unfold fire, fire_panic_with_notice, fire_panic. by rewrite Hu.
Qed.

Lemma fire_down l : transport_up (sender l) = false -> fire l = l.
Proof.
  intros Hu. unfold fire, fire_panic_with_notice, fire_panic. rewrite Hu. cbn.
  rewrite app_nil_r. by destruct l.
Qed.

Lemma step_inv l l' : link_inv l -> step l l' -> link_inv l'.
Proof.
  intros Hi Hst. revert Hi.
  destruct Hst as [l0 Hw|l0 n Hin|l0 g1 g2|l0 u1 u2|l0]; intros (Hn & Hs & Hr); try (split; done).
  - destruct (transport_up (sender l0)) eqn:Hu; [|rewrite fire_down by done; exact (conj Hn (conj Hs Hr))].
    rewrite fire_up by done. unfold link_inv, wrapping_add, u_max in *. cbn [sender next_seq receiver sent].
    rewrite wrap_small by lia. split; [lia|]. split.
    + apply Forall_app. split; [|repeat constructor; cbn; lia].
      eapply Forall_impl; [exact Hs|]. cbn. lia.
    + destruct (last_seq (receiver l0)); [lia|done].
  - unfold deliver, apply. destruct (match last_seq (receiver l0) with Some _ => _ | None => _ end);
      [split; done|]. split; [done|]. split; [done|]. cbn.
    rewrite Forall_forall in Hs. by apply Hs.
Qed.

Lemma reachable_inv l : rtc step link_new l -> link_inv l.
Proof.
  intros Hr. assert (H0 : link_inv link_new) by (repeat split; constructor).
  revert H0. induction Hr as [|l1 l2 l3 Hstep _ IH]; [done|]. intros H0. eapply IH, step_inv; done.
Qed.
End panic.

(** ** Properties *)

(** whatever was fired, delivered, duplicated, reordered and granted before,
    a panic with the transport up severs both ends: the local control grant is
    gone when the call returns, the notice it puts on the wire decodes to itself
    and is fresh for the receiver, and its arrival removes the remote grant; both
    transports keep the state they had.  (Fewer than [2^32 - 1] panics.) *)
Theorem panic_severs_both_ends (l : Link) (h : Heap) (now : Instant) :
  rtc step link_new l -> transport_up (sender l) = true -> next_seq (sender l) < u_max 32 ->
  let notice := mkNotice (next_seq (sender l)) in
  let l1 := fire l in
  let l2 := deliver l1 notice in
  Control.apply_event h now (local l1) = Err NoActiveGrant /\
  sent l1 = sent l ++ [notice] /\ (notice ∉ sent l) /\ decode (encode notice) = Some notice /\
  Control.apply_event h now (remote l2) = Err NoActiveGrant /\
  transport_up (sender l2) = true /\ panic_fired (sender l2) = true /\
  transport_up (remote_panic l2) = transport_up (remote_panic l) /\
  panic_fired (remote_panic l2) = true.
Proof.
  intros Hr Hu Hw. pose proof (reachable_inv l Hr) as (Hn & Hs & Hl). cbn zeta.
  rewrite fire_up by done.
  assert (Hfresh : match last_seq (receiver l) with
                   | Some last => next_seq (sender l) <=? last | None => false end = false).
  { destruct (last_seq (receiver l)); [|done]. apply N.leb_gt. lia. }
  unfold deliver, apply. cbn [receiver seq]. rewrite Hfresh. cbn. split_and!; try done.
  - intros Hin. rewrite Forall_forall in Hs. specialize (Hs _ Hin). cbn in Hs. lia.
  - by apply (decode_encode (mkNotice _)).
Qed.

Lemma panic_severs_both_ends_witness :
  let l0 := {| sender := set_transport_up controller_new true; local := Control.new; sent := [];
               receiver := receiver_new; remote := Control.new;
               remote_panic := set_transport_up controller_new true |} in
  let l := {| sender := sender l0; local := Control.mkSession (Some Control.grant_new); sent := [];
              receiver := receiver_new; remote := Control.mkSession (Some Control.grant_new);
              remote_panic := remote_panic l0 |} in
  let l2 := deliver (fire l) (mkNotice 1) in
  Control.apply_event [] 0 (remote l) = Ok tt /\
  Control.apply_event [] 0 (remote l2) = Err NoActiveGrant.
Proof.
  cbn zeta. split; [reflexivity|].
  pose proof (panic_severs_both_ends
    {| sender := set_transport_up controller_new true;
       local := Control.mkSession (Some Control.grant_new); sent := [];
       receiver := receiver_new; remote := Control.mkSession (Some Control.grant_new);
       remote_panic := set_transport_up controller_new true |} [] 0) as H.
  refine (proj1 (proj2 (proj2 (proj2 (proj2 (H _ _ _)))))); [|reflexivity|reflexivity].
  eapply rtc_l; [apply (step_transport link_new true true)|].
  eapply rtc_l; [apply (step_grants _ (Some Control.grant_new) (Some Control.grant_new))|]. apply rtc_refl.
Defined.

(** a notice the receiver has already applied, or one older than it, has no
    effect, and neither has the notice of the panic after the [2^32 - 1]st, whose
    number has wrapped to 0: that panic does not sever the far end. *)
Theorem stale_notice_ignored (l : Link) (n : PanicNotice) (last : N) :
  last_seq (receiver l) = Some last ->
  (seq n <= last -> deliver l n = l) /\
  (transport_up (sender l) = true -> next_seq (sender l) = u_max 32 ->
   next_seq (sender (fire l)) = 0 /\ deliver (fire (fire l)) (mkNotice 0) = fire (fire l) /\
   remote (fire (fire l)) = remote l).
Proof.
  intros Hl.
  assert (Hd : forall l' m, last_seq (receiver l') = Some last -> seq m <= last -> deliver l' m = l').
  { intros l' m Hl' Hm. unfold deliver, apply. rewrite Hl', (proj2 (N.leb_le _ _)) by done. by destruct l'. }
  split; [by apply Hd|]. intros Hu Hn. rewrite (fire_up l Hu), Hn.
  split; [reflexivity|]. rewrite fire_up by done. split; [|done]. apply Hd; [done|cbn; lia].
Qed.

Lemma stale_notice_ignored_witness :
  let l := {| sender := mkController true false (u_max 32); local := Control.new; sent := [];
              receiver := mkReceiver (Some 1);
              remote := Control.mkSession (Some Control.grant_new);
              remote_panic := controller_new |} in
  (seq (mkNotice 1) <= 1 -> deliver l (mkNotice 1) = l) /\
  Control.apply_event [] 0 (remote (deliver (fire (fire l)) (mkNotice 0))) = Ok tt.
Proof.
  cbn zeta. set (l := mkLink _ _ _ _ _ _).
  destruct (stale_notice_ignored l (mkNotice 1) 1 eq_refl) as [H1 H2].
  destruct (H2 eq_refl eq_refl) as (_ & H3 & H4). split; [exact H1|]. rewrite H3, H4. reflexivity.
Defined.

(** The table of the type's documentation has no row with the transport down and
    the panic fired; a notice that arrives with the transport down gets there. *)
Example notice_leaves_table :
  let '(_, _, p, _) := apply receiver_new (mkNotice 1) Control.new controller_new in
  transport_up p = false /\ panic_fired p = true.
Proof. split; reflexivity. Qed.
