(* ===== verification/Chat.v ===== *)
(** In-session chat: [core/messaging/src/chat.rs]. *)
From S2P Require Import Prelude Text.
#[local] Open Scope N_scope.

Definition SURVIVAL_TIER_BPS : N := 48000.
Definition CHAT_MAX_TEXT_BYTES : N := 256.

Inductive ChatError := TextTooLong (len : N).

Record ChatMessage := mkMessage { text : str }.

Definition byte_len (m : ChatMessage) : N := str_len (text m).

Record ChatSession := mkSession { outbox : list ChatMessage }.

Definition new : ChatSession := {| outbox := [] |}.

(** [ChatSession::send]; the message it returns is the last of the outbox. *)
Definition send (s : ChatSession) (t : str) : ChatSession * result ChatError ChatMessage :=
  if CHAT_MAX_TEXT_BYTES <? str_len t then (s, Err (TextTooLong (str_len t)))
  else ({| outbox := outbox s ++ [{| text := t |}] |}, Ok {| text := t |}).

Definition drain (s : ChatSession) : ChatSession * list ChatMessage :=
  ({| outbox := [] |}, outbox s).

(** A session's life: texts offered, and drains by the transport; the result is
    everything handed to the transport. *)
Inductive Op := Send (t : str) | Drain.

Fixpoint run (s : ChatSession) (ops : list Op) : ChatSession * list ChatMessage :=
  match ops with
  | [] => (s, [])
  | Send t :: ops => run (fst (send s t)) ops
  | Drain :: ops =>
      let '(s, ms) := drain s in
      let '(s, ms') := run s ops in (s, ms ++ ms')
  end.

(** The texts a run accepts, in order. *)
Fixpoint accepted (ops : list Op) : list ChatMessage :=
  match ops with
  | [] => []
  | Send t :: ops => if str_len t <=? CHAT_MAX_TEXT_BYTES then mkMessage t :: accepted ops else accepted ops
  | Drain :: ops => accepted ops
  end.

(** ** Lemmas *)
Lemma run_accepts s ops :
  snd (run s ops) ++ outbox (fst (run s ops)) = outbox s ++ accepted ops.
Proof.
  revert s. induction ops as [|[t|] ops IH]; intros s; cbn [run accepted].
  - by rewrite app_nil_r.
  - rewrite IH. unfold send. rewrite N.leb_antisym.
    destruct (CHAT_MAX_TEXT_BYTES <? str_len t); cbn [fst outbox negb]; [done|]. by rewrite <- app_assoc.
  - cbn. specialize (IH {| outbox := [] |}). destruct (run {| outbox := [] |} ops) as [s' ms'].
    cbn in *. by rewrite <- app_assoc, IH.
Qed.

Lemma accepted_short ops : Forall (fun m => byte_len m <= CHAT_MAX_TEXT_BYTES) (accepted ops).
Proof.
  induction ops as [|[t|] ops IH]; cbn [accepted]; [constructor| |done].
  case_ifs; [by constructor|done].
Qed.
