(* ===== verification/Wire.v ===== *)
(** Application message framing: [core/messaging/src/wire.rs]. *)
From S2P Require Import Prelude Text Grants Clipboard PanicKey Chat.
#[local] Open Scope N_scope.

Definition KIND_CHAT : N := 0x01.
Definition KIND_CLIPBOARD_TEXT : N := 0x02.
Definition KIND_CLIPBOARD_FILES : N := 0x03.
Definition KIND_PANIC : N := 0x04.

Inductive MessageFrame :=
| Chat (text : str)
| ClipboardText (text : str)
| ClipboardFiles (offer : ClipboardFileOffer)
| Panic (notice : PanicNotice).

Inductive FrameError := Truncated | UnknownKind (k : N) | TooLong | BadUtf8.

Definition put_str (s : str) : list byte := le_bytes 2 (wrap 16 (str_len s)) ++ as_bytes s.

Definition put_entry (e : ClipboardFileEntry) : list byte := put_str (name e) ++ le_bytes 8 (size e).

Definition encode (m : MessageFrame) : list byte :=
  match m with
  | Chat text => byte_of KIND_CHAT :: put_str text
  | ClipboardText text => byte_of KIND_CLIPBOARD_TEXT :: put_str text
  | ClipboardFiles offer =>
      byte_of KIND_CLIPBOARD_FILES :: le_bytes 2 (wrap 16 (lenN (entries offer)))
        ++ concat (map put_entry (entries offer))
  | Panic notice => byte_of KIND_PANIC :: le_bytes 4 (seq notice)
  end.

(** The helpers advance the slice: they return what they read and the rest. *)
Definition take_u16 (rest : list byte) : result FrameError (N * list byte) :=
  '(head, tail) ← ok_or Truncated (split_at_checked 2 rest); Ok (le_value head, tail).

Definition take_u32 (rest : list byte) : result FrameError (N * list byte) :=
  '(head, tail) ← ok_or Truncated (split_at_checked 4 rest); Ok (le_value head, tail).

Definition take_u64 (rest : list byte) : result FrameError (N * list byte) :=
  '(head, tail) ← ok_or Truncated (split_at_checked 8 rest); Ok (le_value head, tail).

Definition take_str (rest : list byte) (cap : N) : result FrameError (str * list byte) :=
  '(len, rest) ← take_u16 rest;
  if cap <? len then Err TooLong else
  '(head, tail) ← ok_or Truncated (split_at_checked len rest);
  s ← ok_or BadUtf8 (from_utf8 head);
  Ok (s, tail).

(** [for _ in 0..count]. *)
Fixpoint take_entries (count : nat) (rest : list byte) :
    result FrameError (list ClipboardFileEntry * list byte) :=
  match count with
  | O => Ok ([], rest)
  | S count =>
      '(n, rest) ← take_str rest CLIPBOARD_MAX_TEXT_BYTES;
      '(sz, rest) ← take_u64 rest;
      '(es, rest) ← take_entries count rest;
      Ok ({| name := n; size := sz |} :: es, rest)
  end.

Definition decode (buf : list byte) : result FrameError MessageFrame :=
  match buf with
  | [] => Err Truncated
  | kind :: rest =>
      let kind := Byte.to_N kind in
      if kind =? KIND_CHAT then
        '(text, _) ← take_str rest CHAT_MAX_TEXT_BYTES; Ok (Chat text)
      else if kind =? KIND_CLIPBOARD_TEXT then
        '(text, _) ← take_str rest CLIPBOARD_MAX_TEXT_BYTES; Ok (ClipboardText text)
      else if kind =? KIND_CLIPBOARD_FILES then
        '(count, rest) ← take_u16 rest;
        if CLIPBOARD_MAX_FILES <? count then Err TooLong else
        '(es, _) ← take_entries (N.to_nat count) rest;
        Ok (ClipboardFiles {| entries := es |})
      else if kind =? KIND_PANIC then
        '(s, _) ← take_u32 rest; Ok (Panic {| seq := s |})
      else Err (UnknownKind kind)
  end.

(** ** The messages a frame can carry *)
Definition text_fits (cap : N) (s : str) : Prop := str_ok s /\ str_len s <= cap.

Definition entry_fits (e : ClipboardFileEntry) : Prop :=
  text_fits CLIPBOARD_MAX_TEXT_BYTES (name e) /\ size e < 2 ^ 64.

Definition fits (m : MessageFrame) : Prop :=
  match m with
  | Chat text => text_fits CHAT_MAX_TEXT_BYTES text
  | ClipboardText text => text_fits CLIPBOARD_MAX_TEXT_BYTES text
  | ClipboardFiles o => lenN (entries o) <= CLIPBOARD_MAX_FILES /\ Forall entry_fits (entries o)
  | Panic n => seq n < 2 ^ 32
  end.

(** ** Lemmas

    Each helper is characterised on both sides: what it accepts is exactly what
    the encoder writes. *)
#[local] Arguments le_bytes : simpl never.

Section wire.
Implicit Types (buf rest : list byte) (s : str).

Lemma take_int_iff (k : nat) buf v rest :
  ('(head, tail) ← ok_or Truncated (split_at_checked (N.of_nat k) buf); Ok (le_value head, tail))
    = Ok (v, rest) <->
  v < 256 ^ N.of_nat k /\ buf = le_bytes k v ++ rest.
Proof.
  split.
  - destruct (split_at_checked _ buf) as [[hd tl]|] eqn:E; cbn; [|done]. intros [= <- <-].
    apply split_at_checked_Some in E as [-> Hl].
    assert (Hk : length hd = k) by (unfold lenN in Hl; lia). rewrite <- Hk.
    split; [apply le_value_lt|by rewrite le_bytes_value].
  - intros [Hv ->]. rewrite split_at_checked_app by (by rewrite lenN_le_bytes). cbn.
    by rewrite le_value_bytes_small.
Qed.

Lemma take_u16_iff buf v rest :
  take_u16 buf = Ok (v, rest) <-> v < 2 ^ 16 /\ buf = le_bytes 2 v ++ rest.
Proof. apply (take_int_iff 2). Qed.

Lemma take_u32_iff buf v rest :
  take_u32 buf = Ok (v, rest) <-> v < 2 ^ 32 /\ buf = le_bytes 4 v ++ rest.
Proof. apply (take_int_iff 4). Qed.

Lemma take_u64_iff buf v rest :
  take_u64 buf = Ok (v, rest) <-> v < 2 ^ 64 /\ buf = le_bytes 8 v ++ rest.
Proof. apply (take_int_iff 8). Qed.

Lemma take_str_iff buf cap s rest :
  cap < 2 ^ 16 ->
  take_str buf cap = Ok (s, rest) <-> text_fits cap s /\ buf = put_str s ++ rest.
Proof.
  intros Hcap. unfold take_str, text_fits, put_str. split.
  - destruct (take_u16 buf) as [[len r]|] eqn:E1; cbn; [|done]. apply take_u16_iff in E1 as [Hl ->].
    destruct (N.ltb_spec cap len); [done|].
    destruct (split_at_checked len r) as [[hd tl]|] eqn:E2; cbn; [|done].
    apply split_at_checked_Some in E2 as [-> Hlen].
    destruct (from_utf8 hd) as [s'|] eqn:E3; cbn; [|done]. intros [= <- <-].
    apply as_bytes_from_utf8 in E3 as [Hb Hok].
    unfold str_len. rewrite Hb, Hlen. rewrite wrap_small by done. rewrite <- app_assoc.
    split; [by split|done].
  - intros [[Hok Hl] ->]. rewrite wrap_small by lia. rewrite <- app_assoc.
    assert (Hu : take_u16 (le_bytes 2 (str_len s) ++ as_bytes s ++ rest) = Ok (str_len s, as_bytes s ++ rest)).
    { apply take_u16_iff. split; [lia|done]. }
    rewrite Hu. cbn. rewrite (proj2 (N.ltb_ge _ _)) by done.
    rewrite split_at_checked_app by done. cbn. by rewrite from_utf8_as_bytes.
Qed.

Lemma take_entries_iff count buf es rest :
  take_entries count buf = Ok (es, rest) <->
  length es = count /\ Forall entry_fits es /\ buf = concat (map put_entry es) ++ rest.
Proof.
  revert buf es. induction count as [|count IH]; intros buf es; cbn [take_entries].
  { split; [intros [= <- <-]; by repeat constructor|]. intros (Hl & _ & ->). by destruct es. }
  split.
  - destruct (take_str buf _) as [[n r1]|] eqn:E1; cbn; [|done]. apply take_str_iff in E1 as [Hf ->]; [|done].
    destruct (take_u64 r1) as [[sz r2]|] eqn:E2; cbn; [|done]. apply take_u64_iff in E2 as [Hsz ->].
    destruct (take_entries count r2) as [[es' r3]|] eqn:E3; cbn; [|done]. intros [= <- <-].
    apply IH in E3 as (<- & Hes & ->). split; [done|].
    split; [apply Forall_cons; exact (conj (conj Hf Hsz) Hes)|].
    cbn [map concat].
    change (put_entry (mkEntry n sz)) with (put_str n ++ le_bytes 8 sz). by rewrite <- !app_assoc.
  - destruct es as [|e es]; [intros [Hl _]; cbn in Hl; lia|]. intros ([= Hl] & [He Hes]%Forall_cons & ->).
    cbn [map concat]. unfold put_entry at 1. rewrite <- !app_assoc.
    rewrite (proj2 (take_str_iff _ CLIPBOARD_MAX_TEXT_BYTES _ _ ltac:(done)) (conj (proj1 He) eq_refl)). cbn [mbind result_bind].
    rewrite (proj2 (take_u64_iff _ _ _) (conj (proj2 He) eq_refl)). cbn [mbind result_bind].
    rewrite (proj2 (IH _ _) (conj Hl (conj Hes eq_refl))). cbn. by destruct e.
Qed.

(** The first byte selects the branch. *)
Lemma byte_of_kind b k : k < 256 -> Byte.to_N b = k -> b = byte_of k.
Proof. intros _ <-. symmetry. apply byte_of_to_N. Qed.
End wire.

(** ** Properties *)

(** C9: [decode] accepts exactly the byte strings that start with the encoding
    of a message within the caps, and returns that message: encoding and decoding
    are inverse, no message has two encodings, everything over a cap, truncated
    or not UTF-8 is rejected; what follows the message in the datagram is
    ignored. *)
Theorem decode_iff_encoded (buf : list byte) (m : MessageFrame) :
  decode buf = Ok m <-> fits m /\ exists rest, buf = encode m ++ rest.
Proof.
  split.
  - destruct buf as [|kind buf]; [done|]. unfold decode.
    destruct (N.eqb_spec (Byte.to_N kind) KIND_CHAT) as [E|_];
      [|destruct (N.eqb_spec (Byte.to_N kind) KIND_CLIPBOARD_TEXT) as [E|_];
      [|destruct (N.eqb_spec (Byte.to_N kind) KIND_CLIPBOARD_FILES) as [E|_];
      [|destruct (N.eqb_spec (Byte.to_N kind) KIND_PANIC) as [E|_]; [|done]]]];
      apply byte_of_kind in E as ->; try done.
    + destruct (take_str buf _) as [[t r]|] eqn:E; cbn; [|done]. intros [= <-].
      apply take_str_iff in E as [Hf ->]; [|done]. split; [done|]. by exists r.
    + destruct (take_str buf _) as [[t r]|] eqn:E; cbn; [|done]. intros [= <-].
      apply take_str_iff in E as [Hf ->]; [|done]. split; [done|]. by exists r.
    + destruct (take_u16 buf) as [[count r]|] eqn:E; cbn [mbind result_bind]; [|done].
      apply take_u16_iff in E as [Hc ->].
      destruct (N.ltb_spec CLIPBOARD_MAX_FILES count); [done|].
      destruct (take_entries _ r) as [[es r']|] eqn:E2; cbn [mbind result_bind]; [|done]. intros [= <-].
      apply take_entries_iff in E2 as (Hl & Hes & ->).
      assert (Hn : lenN es = count) by (unfold lenN; lia).
      split; [split; cbn; [lia|done]|]. exists r'. cbn [encode entries].
      rewrite Hn, wrap_small by done. cbn [app]. by rewrite <- app_assoc.
    + destruct (take_u32 buf) as [[v r]|] eqn:E; cbn; [|done]. intros [= <-].
      apply take_u32_iff in E as [Hv ->]. split; [done|]. by exists r.
  - intros [Hf (rest & ->)]. destruct m as [t|t|[es]|[v]]; cbn [encode fits entries seq] in *;
      cbn [app]; unfold decode; rewrite to_N_byte_of; cbn -[take_str take_u16 take_u32 take_entries app].
    + rewrite (proj2 (take_str_iff _ CHAT_MAX_TEXT_BYTES _ _ ltac:(done)) (conj Hf eq_refl)). done.
    + rewrite (proj2 (take_str_iff _ CLIPBOARD_MAX_TEXT_BYTES _ _ ltac:(done)) (conj Hf eq_refl)). done.
    + destruct Hf as [Hn Hes]. unfold CLIPBOARD_MAX_FILES in *. rewrite wrap_small, <- app_assoc by lia.
      assert (Hlt : lenN es < 2 ^ 16) by lia.
      rewrite (proj2 (take_u16_iff _ _ _) (conj Hlt eq_refl)). cbn [mbind result_bind].
      rewrite (proj2 (N.ltb_ge _ _)) by done.
      rewrite (proj2 (take_entries_iff _ _ es _)
        (conj (eq_sym (to_nat_lenN es)) (conj Hes eq_refl))). done.
    + rewrite (proj2 (take_u32_iff _ _ _) (conj Hf eq_refl)). done.
Qed.

(** what the chat session queues is what the peer reads: over any life of
    the session the transport is handed, in order, exactly the texts of at most
    256 bytes, less those still queued, and each of them survives the wire. *)
Theorem chat_survives_wire (ops : list Op) :
  Forall (fun o => match o with Send t => str_ok t | Drain => True end) ops ->
  let '(s, handed) := run Chat.new ops in
  handed ++ outbox s = accepted ops /\
  Forall (fun m => decode (encode (Chat (text m))) = Ok (Chat (text m))) handed.
Proof.
  intros Hops. pose proof (run_accepts Chat.new ops) as Hr. pose proof (accepted_short ops) as Hs.
  destruct (run Chat.new ops) as [s handed]. cbn [fst snd app Chat.new outbox] in Hr. split; [done|].
  assert (Hok : Forall (fun m => str_ok (text m)) (accepted ops)).
  { clear Hr Hs. induction Hops as [|[t|] ops Ho _ IH]; cbn [accepted]; [constructor| |done].
    case_ifs; [by constructor|done]. }
  rewrite <- Hr in Hs, Hok. apply Forall_app in Hs as [Hs _]. apply Forall_app in Hok as [Hok _].
  apply Forall_forall. intros m Hm. rewrite Forall_forall in Hs, Hok.
  apply decode_iff_encoded. split; [split; [by apply Hok|by apply Hs]|]. exists []. by rewrite app_nil_r.
Qed.

Lemma chat_survives_wire_witness :
  let '(s, handed) := run Chat.new [Send [0x68; 0x69]; Drain; Send [0x20AC]] in
  handed ++ outbox s = [mkMessage [0x68; 0x69]; mkMessage [0x20AC]] /\
  Forall (fun m => decode (encode (Chat (text m))) = Ok (Chat (text m))) handed.
Proof.
  apply (chat_survives_wire [Send [0x68; 0x69]; Drain; Send [0x20AC]]).
  repeat constructor.
Defined.
