(* ===== verification/Dataplane.v ===== *)
(** The control plane of a session: [core/lowbandd/src/dataplane.rs] and the
    classification of [core/lowbandd/src/inbound.rs].

    The clipboard gate is read only, the control session and the panic state
    are threaded; a session that fails to receive is [None]. *)
From S2P Require Import Prelude Text Grants Clipboard PanicKey Chat Wire.
#[local] Open Scope N_scope.

Inductive Delivered :=
| DChat (text : str)
| DClipboardText (text : str)
| DClipboardFiles (count : N)
| DPanic (severed : bool)
| DRejected.

(** The state a dispatched frame can change. *)
Record Guarded := mkGuarded {
  control : Control.ControlSession;
  panic : PanicController;
  panic_rx : PanicNoticeReceiver;
}.

Definition dispatch (h : Heap) (frame : MessageFrame) (clipboard : ClipboardSession) (g : Guarded) :
    Guarded * Delivered :=
  match frame with
  | Chat text => (g, DChat text)
  | ClipboardText text =>
      (g, match apply_remote h clipboard text with
          | Ok _ => DClipboardText text
          | Err _ => DRejected
          end)
  | ClipboardFiles offer =>
      (g, match apply_remote_files h clipboard offer with
          | Ok _ => DClipboardFiles (lenN (entries offer))
          | Err _ => DRejected
          end)
  | Panic notice =>
      let '(rx, ctl, p, severed) := apply (panic_rx g) notice (control g) (panic g) in
      ({| control := ctl; panic := p; panic_rx := rx |}, DPanic severed)
  end.

Inductive DataPlaneError := Session | Frame (e : FrameError).

(** [received] is what [session.recv()] returns. *)
Definition recv_and_dispatch (h : Heap) (received : option (list byte))
    (clipboard : ClipboardSession) (g : Guarded) : Guarded * result DataPlaneError Delivered :=
  match received with
  | None => (g, Err Session)
  | Some bytes =>
      match decode bytes with
      | Err e => (g, Err (Frame e))
      | Ok frame => let '(g, d) := dispatch h frame clipboard g in (g, Ok d)
      end
  end.

(** Which protocol a datagram belongs to, by its first byte. *)
Inductive Channel := Message | File | Screen | Voice | Unknown (b : N).

Definition classify (bytes : list byte) : Channel :=
  match bytes with
  | [] => Unknown 0
  | b :: _ =>
      let b := Byte.to_N b in
      if in_range 0x01 0x04 b then Message
      else if in_range 0x10 0x12 b then File
      else if in_range 0x20 0x22 b then Screen
      else if in_range 0x30 0x31 b then Voice
      else Unknown b
  end.

(** ** What a datagram may do *)

(** The effect a delivered result is allowed to have had, given the clipboard
    gate and the state before. *)
Definition permitted (h : Heap) (clipboard : ClipboardSession) (bytes : list byte) (g g' : Guarded)
    (r : result DataPlaneError Delivered) : Prop :=
  match r with
  | Ok (DPanic true) =>
      Control.grant (control g') = None /\ panic_fired (panic g') = true /\
      transport_up (panic g') = transport_up (panic g)
  | Ok (DChat t) => g' = g /\ str_ok t /\ str_len t <= 256
  | Ok (DClipboardText t) =>
      g' = g /\ Clipboard.is_granted h clipboard = true /\ str_ok t /\ str_len t <= 4096
  | Ok (DClipboardFiles n) =>
      g' = g /\ Clipboard.is_granted h clipboard = true /\ n <= 64 /\
      exists offer, lenN (entries offer) = n /\
        wrap 64 (sum_of size (entries offer)) <= 512 * 1024 * 1024 /\
        (exists rest, bytes = encode (ClipboardFiles offer) ++ rest) /\
        forall dir, Forall (fun e => resolve dir (name e) = dir ++ [name e]) (entries offer)
  | _ => g' = g
  end.

(** ** Properties *)

(** C12: no datagram, whatever its bytes, does more than its gate allows: a chat
    line has at most 256 bytes; text reaches the clipboard only under a live grant
    and with at most 4096 bytes; files only under a live grant, at most 64 of them,
    with names that stay in the drop directory and sizes whose sum, taken modulo
    2^64 as the gate takes it, is at most 512 MiB; a panic notice can only remove
    the control grant, and everything rejected, undecodable or stale leaves the
    state as it was.  Every message the sender encodes is classified as a
    message. *)
Theorem datagram_effects_permitted (h : Heap) (clipboard : ClipboardSession) (bytes : list byte)
    (g : Guarded) (m : MessageFrame) :
  let '(g', r) := recv_and_dispatch h (Some bytes) clipboard g in
  permitted h clipboard bytes g g' r /\ classify (encode m) = Message.
Proof.
  assert (Hc : classify (encode m) = Message) by (by destruct m).
  cbn. destruct (decode bytes) as [frame|e] eqn:E; [|done].
  apply decode_iff_encoded in E as [Hf Hb].
  destruct frame as [t|t|o|n]; cbn [dispatch fits] in *.
  - destruct Hf. done.
  - unfold apply_remote. destruct (check_grant h clipboard) as [[]|] eqn:Eg; cbn; [|done].
    destruct (N.ltb_spec CLIPBOARD_MAX_TEXT_BYTES (str_len t)); [done|]. destruct Hf.
    split; [|done]. split; [done|]. split; [by apply check_grant_ok|]. done.
  - destruct (apply_remote_files h clipboard o) as [[]|] eqn:Eg; [|done].
    apply apply_remote_files_ok in Eg as (Hg & Hn & Hz & Hs). split; [|done].
    cbn [permitted]. split; [done|]. split; [done|]. split; [done|]. exists o. split; [done|]. split; [exact Hz|]. split; [done|].
    intros dir. eapply Forall_impl; [exact Hs|]. intros e He. by apply safe_resolves.
  - unfold apply. destruct (match last_seq (panic_rx g) with Some _ => _ | None => _ end); cbn;
      [by destruct g|done].
Qed.
