(* ===== verification/Consent.v ===== *)
(** Consent over time: the sessions of [grants.rs] and [clipboard.rs], the
    panic key of [panic_key.rs] and the shared revocation flags, under
    arbitrary sequences of operations.

    The theorems about a single session are proved once, against the
    [TokenSession] interface, and hold of the four sessions as its instances. *)
From S2P Require Import Prelude Grants Clipboard PanicKey.
#[local] Open Scope N_scope.

Record World := mkWorld {
  heap : Heap;
  now : Instant;
  view : View.ViewSession;
  control : Control.ControlSession;
  file : File.FileSession;
  clip : ClipboardSession;
  key : PanicController;
}.

Definition world_new : World :=
  {| heap := []; now := 0; view := View.new; control := Control.new; file := File.new;
     clip := Clipboard.new; key := controller_new |}.

Inductive Op :=
| Wait (d : Duration)
| NewHandle
| Withdraw (r : ConsentRevocationHandle)
| SetView (g : option View.ViewGrant)
| SetControl (g : option Control.ControlGrant)
| SetFile (g : option File.FileGrant)
| SetClip (g : option ClipboardGrant)
| IssueAll (c : ConsentGrant)
| Transport (up : bool)
| FirePanic
| ClearPanic.

(** The consent flow: [ConsentGrant::issue_all], its grants installed and the
    clipboard bound to a clone of the handle.  [None] is the overflow panic of
    the expiry. *)
Definition issue (w : World) (c : ConsentGrant) : option (World * ConsentRevocationHandle) :=
  '(h, (v, ct, f, handle)) ← issue_all (heap w) (now w) c;
  Some ({| heap := h; now := now w;
           view := View.set_grant (view w) (Some v);
           control := Control.set_grant (control w) (Some ct);
           file := File.set_grant (file w) (Some f);
           clip := Clipboard.set_grant (clip w) (Some (Clipboard.with_consent handle));
           key := key w |}, handle).

Definition run_op (w : World) (o : Op) : option World :=
  let with_heap h := {| heap := h; now := now w; view := view w; control := control w;
                        file := file w; clip := clip w; key := key w |} in
  match o with
  | Wait d => Some {| heap := heap w; now := now w + d; view := view w; control := control w;
                      file := file w; clip := clip w; key := key w |}
  | NewHandle => Some (with_heap (fst (handle_new (heap w))))
  | Withdraw r => Some (with_heap (withdraw (heap w) r))
  | SetView g => Some {| heap := heap w; now := now w; view := View.set_grant (view w) g;
                         control := control w; file := file w; clip := clip w; key := key w |}
  | SetControl g => Some {| heap := heap w; now := now w; view := view w;
                            control := Control.set_grant (control w) g;
                            file := file w; clip := clip w; key := key w |}
  | SetFile g => Some {| heap := heap w; now := now w; view := view w; control := control w;
                         file := File.set_grant (file w) g; clip := clip w; key := key w |}
  | SetClip g => Some {| heap := heap w; now := now w; view := view w; control := control w;
                         file := file w; clip := Clipboard.set_grant (clip w) g; key := key w |}
  | IssueAll c => fst <$> issue w c
  | Transport up => Some {| heap := heap w; now := now w; view := view w; control := control w;
                            file := file w; clip := clip w; key := set_transport_up (key w) up |}
  | FirePanic =>
      let '(k, c, _) := fire_panic (key w) (control w) in
      Some {| heap := heap w; now := now w; view := view w; control := c;
              file := file w; clip := clip w; key := k |}
  | ClearPanic => Some {| heap := heap w; now := now w; view := view w; control := control w;
                          file := file w; clip := clip w; key := clear_panic (key w) |}
  end.

Fixpoint run (w : World) (ops : list Op) : option World :=
  match ops with
  | [] => Some w
  | o :: ops => w' ← run_op w o; run w' ops
  end.

(** What each of the four gates answers. *)
Inductive Capability := CView | CControl | CFile | CClip.

Definition answer (w : World) (c : Capability) : result CapabilityError unit :=
  match c with
  | CView => attempt (heap w) (now w) (view w)
  | CControl => attempt (heap w) (now w) (control w)
  | CFile => attempt (heap w) (now w) (file w)
  | CClip => attempt (heap w) (now w) (clip w)
  end.

(** The handle a session's token is bound to. *)
Definition bound (w : World) (c : Capability) : option ConsentRevocationHandle :=
  match c with
  | CView => held (view w) ≫= token_flag
  | CControl => held (control w) ≫= token_flag
  | CFile => held (file w) ≫= token_flag
  | CClip => held (clip w) ≫= token_flag
  end.

(** The operations that put a token into a session. *)
Definition installs (c : Capability) (o : Op) : bool :=
  match o, c with
  | SetView (Some _), CView | SetControl (Some _), CControl
  | SetFile (Some _), CFile | SetClip (Some _), CClip => true
  | IssueAll _, _ => true
  | _, _ => false
  end.

(** ** Lemmas *)
Section worlds.
Implicit Types (w : World) (c : Capability).

Lemma issue_heap w gr w' r : issue w gr = Some (w', r) -> heap_le (heap w) (heap w') /\ now w' = now w.
Proof.
  unfold issue. destruct (issue_all _ _ _) as [[h [[[v ct] f] r']]|] eqn:E; cbn; [|done].
  intros [= <- <-]. by apply heap_le_issue in E.
Qed.

Lemma run_op_mono w o w' : run_op w o = Some w' -> heap_le (heap w) (heap w') /\ now w <= now w'.
Proof.
  destruct o; cbn [run_op]; try (intros [= <-]; cbn; split; [done|lia]).
  - intros [= <-]; cbn. split; [apply heap_le_new|lia].
  - intros [= <-]; cbn. split; [apply heap_le_withdraw|lia].
  - match goal with |- context [issue w ?gr] => destruct (issue w gr) as [[w1 r]|] eqn:E end;
      cbn; [|done]. intros [= <-].
    apply issue_heap in E as [? ->]. by split.
  - unfold fire_panic. destruct (negb _); intros [= <-]; cbn; (split; [done|lia]).
Qed.

Lemma run_mono w ops w' : run w ops = Some w' -> heap_le (heap w) (heap w') /\ now w <= now w'.
Proof.
  revert w. induction ops as [|o ops IH]; intros w; cbn; [intros [= <-]; split; [done|lia]|].
  destruct (run_op w o) as [w1|] eqn:E; cbn; [|done]. intros H.
  apply run_op_mono in E as [H1 H2]. apply IH in H as [H3 H4]. split; [by etrans|lia].
Qed.

(** A token bound to a withdrawn handle is refused, by every session. *)
Lemma answer_withdrawn w c r :
  bound w c = Some r -> is_withdrawn (heap w) r = true -> answer w c = Err Grants.ConsentWithdrawn.
Proof.
  destruct c; cbn [bound answer]; intros Hb Hr; rewrite attempt_gate;
    match goal with H : held ?s ≫= _ = _ |- _ => destruct (held s) as [g|]; [|done] end;
    (eapply gate_withdrawn; [exact Hb|exact Hr]).
Qed.

(** An operation that installs nothing leaves the token or takes it away. *)
Lemma run_op_held w o w' c :
  run_op w o = Some w' -> installs c o = false -> is_ok (answer w c) = false ->
  is_ok (answer w' c) = false.
Proof.
  intros Ho Hi Ha. pose proof (run_op_mono _ _ _ Ho) as [Hh Hn].
  destruct o, c; cbn in Ho, Hi; try done;
    try (unfold fire_panic in Ho; destruct (negb _)); injection Ho as <-;
    cbn [answer heap now view control file clip] in *; rewrite ?attempt_gate in *;
    repeat match goal with g : option _ |- _ => destruct g; [done|] end;
    first [eapply gate_mono; [exact Hh|exact Hn|exact Ha] | done].
Qed.
Lemma refused_helper w w' ops c :
  run w ops = Some w' -> Forall (fun o => installs c o = false) ops ->
  is_ok (answer w c) = false -> is_ok (answer w' c) = false.
Proof.
  revert w. induction ops as [|o ops IH]; intros w; cbn; [by intros [= <-]|].
  destruct (run_op w o) as [w1|] eqn:E; cbn; [|done]. intros Hr [Ho Hops]%Forall_cons Ha.
  eapply IH; [exact Hr|exact Hops|]. by eapply run_op_held.
Qed.
End worlds.

(** ** Properties *)

(** C3: access that is refused stays refused: once a session answers with any
    error, no sequence of operations that does not install a new token in it
    (withdrawals, panics, waiting, grants to other sessions, new handles) makes
    it accept again. *)
Theorem refused_stays_refused (w w' : World) (ops : list Op) (c : Capability) :
  run w ops = Some w' -> Forall (fun o => installs c o = false) ops ->
  is_ok (answer w c) = false -> is_ok (answer w' c) = false.
Proof. apply refused_helper. Qed.

Lemma refused_stays_refused_witness :
  match run world_new [IssueAll (consent_with_duration 10); Wait 10; Withdraw (Handle 3); SetClip None] with
  | Some w' => is_ok (answer w' CView) = false
  | None => False
  end.
Proof.
  set (w := match run world_new [IssueAll (consent_with_duration 10); Wait 10] with
            | Some w => w | None => world_new end).
  apply (refused_stays_refused w _ [Withdraw (Handle 3); SetClip None] CView);
    [reflexivity|repeat constructor|reflexivity].
Defined.

(** withdrawing consent severs everything the consent granted: after
    [issue_all] and any operations, [withdraw] makes each of the four sessions
    that still holds a token of that consent answer [ConsentWithdrawn], then and
    after any further operations, and changes no answer of a session whose token
    is bound to another handle or to none. *)
Theorem withdrawal_severs_consent (w w1 w2 w3 w4 : World) (consent : ConsentGrant)
    (r : ConsentRevocationHandle) (ops ops' : list Op) (c : Capability) :
  issue w consent = Some (w1, r) -> run w1 ops = Some w2 -> run_op w2 (Withdraw r) = Some w3 ->
  run w3 ops' = Some w4 ->
  (bound w1 c = Some r) /\
  (bound w4 c = Some r -> answer w4 c = Err Grants.ConsentWithdrawn) /\
  (bound w2 c <> Some r -> answer w3 c = answer w2 c).
Proof.
  intros Hi H1 H2 H3.
  assert (Hr : location r < lenN (heap w1) /\ bound w1 c = Some r).
  { revert Hi. unfold issue, issue_all, handle_new. destruct (expiry_of _ _); cbn; [|done].
    intros [= <- <-]. cbn. rewrite lenN_app. split; [unfold lenN; cbn; lia|by destruct c]. }
  destruct Hr as [Hl Hb]. split; [done|].
  pose proof (run_mono _ _ _ H1) as [[Hlen _] _]. injection H2 as <-. split.
  - intros Hb4. eapply answer_withdrawn; [exact Hb4|].
    apply (run_mono _ _ _ H3). cbn. apply withdraw_self. unfold lenN in *. lia.
  - intros Hne. destruct c; cbn [answer bound heap now view control file clip] in *;
      rewrite !attempt_gate;
      match goal with H : held ?s ≫= _ <> _ |- _ => destruct (held s) as [g|]; [|done] end;
      cbn [gate mbind option_bind] in *;
      (destruct (token_flag g) as [r'|] eqn:Er; [|done]; cbn [revoked_in];
       rewrite withdraw_other by congruence; done).
Qed.

Lemma withdrawal_severs_consent_witness :
  match issue world_new (consent_with_duration 10) with
  | Some (w1, r) =>
      match run w1 [Withdraw r; Wait 3; NewHandle] with
      | Some w4 => answer w1 CControl = Ok tt /\ answer w4 CControl = Err Grants.ConsentWithdrawn
      | None => False
      end
  | None => False
  end.
Proof.
  split; [reflexivity|].
  eapply (withdrawal_severs_consent world_new _ _ _ _ (consent_with_duration 10) (Handle 0) []
    [Wait 3; NewHandle] CControl); reflexivity.
Defined.

(** the panic key takes injection and nothing else: with the transport up,
    firing it makes the control session answer [NoActiveGrant] until a new
    control token is installed, and leaves the transport up and the answers of
    the view, file and clipboard sessions as they were; with the transport down
    it does nothing. *)
Theorem panic_severs_only_control (w w' w2 : World) (ops : list Op) :
  run_op w FirePanic = Some w' -> run w' ops = Some w2 ->
  if transport_up (key w) then
    answer w' CControl = Err Grants.NoActiveGrant /\
    (Forall (fun o => installs CControl o = false) ops -> is_ok (answer w2 CControl) = false) /\
    transport_up (key w') = true /\ panic_fired (key w') = true /\
    (forall c, c <> CControl -> answer w' c = answer w c)
  else w' = w.
Proof.
  intros Hf Hr. cbn in Hf. unfold fire_panic in Hf.
  destruct (transport_up (key w)) eqn:Eu; cbn in Hf; injection Hf as <-; [|by destruct w].
  split; [done|]. split.
  - intros Hops. by eapply refused_helper.
  - split; [done|]. split; [done|]. by intros [].
Qed.

Lemma panic_severs_only_control_witness :
  match run world_new [IssueAll consent_new; Transport true; FirePanic; Wait 5] with
  | Some w2 => is_ok (answer w2 CControl) = false /\ answer w2 CView = Ok tt
  | None => False
  end.
Proof.
  set (w := match run world_new [IssueAll consent_new; Transport true] with
            | Some w => w | None => world_new end).
  set (w' := match run_op w FirePanic with Some w' => w' | None => w end).
  pose proof (panic_severs_only_control w w' _ [Wait 5] eq_refl eq_refl) as (_ & H & _).
  split; [apply H; repeat constructor|reflexivity].
Defined.
