(* ===== verification/AuditLog.v ===== *)
(** The signed, hash-chained audit log: [core/messaging/src/audit.rs].

    The keyed hash is modelled down to the SipHash rounds, so that logs can be
    signed and verified by computation; the theorems hold of any log.  Byte
    arrays are lists of bytes.  The exports are in [AuditExport]. *)
From S2P Require Import Prelude Text.
#[local] Open Scope N_scope.

(** ** SipHash-2-4 *)
Definition rotl (x r : N) : N := N.lor (wrap 64 (N.shiftl x r)) (N.shiftr x (64 - r)).

Definition add64 := wrapping_add 64.

Record Sip := mkSip { v0 : N; v1 : N; v2 : N; v3 : N }.

(** The [sipr!] macro. *)
Definition sipr (s : Sip) : Sip :=
  let '(mkSip v0 v1 v2 v3) := s in
  let v0 := add64 v0 v1 in let v1 := rotl v1 13 in
  let v1 := N.lxor v1 v0 in let v0 := rotl v0 32 in
  let v2 := add64 v2 v3 in let v3 := rotl v3 16 in let v3 := N.lxor v3 v2 in
  let v0 := add64 v0 v3 in let v3 := rotl v3 21 in let v3 := N.lxor v3 v0 in
  let v2 := add64 v2 v1 in let v1 := rotl v1 17 in
  let v1 := N.lxor v1 v2 in let v2 := rotl v2 32 in
  mkSip v0 v1 v2 v3.

Definition absorb (s : Sip) (m : N) : Sip :=
  let s := mkSip (v0 s) (v1 s) (v2 s) (N.lxor (v3 s) m) in
  let s := sipr (sipr s) in
  mkSip (N.lxor (v0 s) m) (v1 s) (v2 s) (v3 s).

Definition siphash24 (k0 k1 : N) (msg : list byte) : N :=
  let s := mkSip (N.lxor k0 0x736f6d6570736575) (N.lxor k1 0x646f72616e646f6d)
                 (N.lxor k0 0x6c7967656e657261) (N.lxor k1 0x7465646279746573) in
  let blocks := (length msg / 8)%nat in
  let s := fold_left (fun s i => absorb s (le_value (take 8 (drop (i * 8) msg)))) (seq 0 blocks) s in
  let rem := (length msg - blocks * 8)%nat in
  let last := fold_left
    (fun last i => N.lor last (N.shiftl (Byte.to_N (nth (blocks * 8 + i) msg Byte.x00)) (N.of_nat i * 8)))
    (seq 0 rem) (wrap 64 (N.shiftl (lenN msg) 56)) in
  let s := absorb s last in
  let s := mkSip (v0 s) (v1 s) (N.lxor (v2 s) 0xff) (v3 s) in
  let s := sipr (sipr (sipr (sipr s))) in
  N.lxor (N.lxor (v0 s) (v1 s)) (N.lxor (v2 s) (v3 s)).

(** The 256-bit keyed hash: four instances under derived keys. *)
Definition word_at (key : list byte) (i : nat) : N := le_value (take 8 (drop i key)).

Definition kh256 (key msg : list byte) : list byte :=
  let k0a := word_at key 0 in let k0b := word_at key 8 in
  let k1a := word_at key 16 in let k1b := word_at key 24 in
  let h0 := siphash24 k0a k0b msg in
  let h1 := siphash24 k1a k1b msg in
  let h2 := siphash24 (N.lxor k0a k1b) (N.lxor k0b k1a) msg in
  let h3 := siphash24 (add64 k0a k1a) (add64 k0b k1b) msg in
  le_bytes 8 h0 ++ le_bytes 8 h1 ++ le_bytes 8 h2 ++ le_bytes 8 h3.

(** ** Entries and the chain *)
Record AuditEntry := mkEntry {
  event_type : str;
  capability : option str;
  identity_key : option (list byte);
  occurred_at_ms : N;
  signature : list byte;
}.

Record AuditLog := mkLog {
  key : list byte;
  chain_hash : list byte;
  entries : list AuditEntry;
}.

Definition zeros : list byte := repeat Byte.x00 32.

Definition new (k : list byte) : AuditLog := {| key := k; chain_hash := zeros; entries := [] |}.

(** The buffer [sign_entry] fills. *)
Definition payload (chain : list byte) (event : str) (cap : option str) (id : option (list byte))
    (t : N) : list byte :=
  let cap := default [] cap in
  chain ++ le_bytes 4 (wrap 32 (str_len event)) ++ as_bytes event
    ++ le_bytes 4 (wrap 32 (str_len cap)) ++ as_bytes cap
    ++ match id with None => [Byte.x00] | Some k => Byte.x01 :: k end
    ++ le_bytes 8 t.

Definition sign_entry (key chain : list byte) (event : str) (cap : option str)
    (id : option (list byte)) (t : N) : list byte :=
  kh256 key (payload chain event cap id t).

(** [*b ^= 0x5c_u8.wrapping_add(i as u8)]. *)
Definition derived_key (key : list byte) : list byte :=
  imap (fun i b => byte_of (N.lxor (Byte.to_N b) (wrapping_add 8 0x5c (N.of_nat i)))) key.

Definition advance_chain (key sig : list byte) : list byte := kh256 (derived_key key) sig.

Definition append_inner (l : AuditLog) (event : str) (cap : option str) (id : option (list byte))
    (t : N) : AuditLog :=
  let sig := sign_entry (key l) (chain_hash l) event cap id t in
  {| key := key l; chain_hash := advance_chain (key l) sig;
     entries := entries l ++ [{| event_type := event; capability := cap; identity_key := id;
                                 occurred_at_ms := t; signature := sig |}] |}.

Definition append (l : AuditLog) (event : str) (cap : option str) (t : N) : AuditLog :=
  append_inner l event cap None t.

Definition append_with_identity (l : AuditLog) (event : str) (cap : option str) (id : list byte)
    (t : N) : AuditLog :=
  append_inner l event cap (Some id) t.

(** The loop of [verify_entries] from a chain hash. *)
Fixpoint verify_loop (es : list AuditEntry) (key chain : list byte) : bool :=
  match es with
  | [] => true
  | e :: es =>
      let expected := sign_entry key chain (event_type e) (capability e) (identity_key e)
                                 (occurred_at_ms e) in
      if negb (bool_decide (signature e = expected)) then false
      else verify_loop es key (advance_chain key (signature e))
  end.

Definition verify_entries (es : list AuditEntry) (key : list byte) : bool :=
  verify_loop es key zeros.

Definition verify (l : AuditLog) : bool := verify_entries (entries l) (key l).

(** ** What a signature commits to *)

(** Two entries that say the same: the capability [None] and the empty one are
    the same claim. *)
Definition same_claim (e e' : AuditEntry) : Prop :=
  event_type e = event_type e' /\ default [] (capability e) = default [] (capability e') /\
  identity_key e = identity_key e' /\ occurred_at_ms e = occurred_at_ms e'.

(** The types' bounds: strings are UTF-8 shorter than 4 GiB, keys have 32 bytes,
    times are [u64]. *)
Definition entry_ok (e : AuditEntry) : Prop :=
  (str_ok (event_type e) /\ str_len (event_type e) < 2 ^ 32) /\
  (str_ok (default [] (capability e)) /\ str_len (default [] (capability e)) < 2 ^ 32) /\
  match identity_key e with None => True | Some k => length k = 32%nat end /\
  occurred_at_ms e < 2 ^ 64.

(** The chain hash after a list of entries, and the messages hashed on the way. *)
Definition chain_after (key : list byte) (es : list AuditEntry) : list byte :=
  match last es with None => zeros | Some e => advance_chain key (signature e) end.

Definition entry_payload (chain : list byte) (e : AuditEntry) : list byte :=
  payload chain (event_type e) (capability e) (identity_key e) (occurred_at_ms e).

Definition payloads (key : list byte) (es : list AuditEntry) : list (list byte) :=
  imap (fun i e => entry_payload (chain_after key (take i es)) e) es.

(** The keyed hash failed on the messages of the two logs: two different
    messages have the same hash, or a signature hashes to the initial chain. *)
Definition hash_failure (key : list byte) (es es' : list AuditEntry) : Prop :=
  (exists m m', m ∈ payloads key es /\ m' ∈ payloads key es' /\ m <> m' /\ kh256 key m = kh256 key m') \/
  (exists s s', s ∈ map signature es /\ s' ∈ map signature es' /\ s <> s' /\
     kh256 (derived_key key) s = kh256 (derived_key key) s') \/
  (exists s, s ∈ map signature (es ++ es') /\ advance_chain key s = zeros).

(** ** Lemmas *)
#[local] Arguments le_bytes : simpl never.

Section audit.
Implicit Types (k c : list byte) (e : AuditEntry) (es : list AuditEntry).

Lemma kh256_length k m : length (kh256 k m) = 32%nat.
Proof. unfold kh256. rewrite !length_app, !le_bytes_length. done. Qed.
#[local] Opaque kh256.

Lemma chain_after_length k es : length (chain_after k es) = 32%nat.
Proof. unfold chain_after. destruct (last es); [apply kh256_length|done]. Qed.

Lemma app_inj_len {A} (a a' b b' : list A) :
  length a = length a' -> a ++ b = a' ++ b' -> a = a' /\ b = b'.
Proof. intros Hl H. by apply app_inj_1. Qed.

(** A length-prefixed string determines the string and what follows. *)
Lemma prefixed_inj (s s' : str) (r r' : list byte) :
  str_ok s -> str_ok s' -> str_len s < 2 ^ 32 -> str_len s' < 2 ^ 32 ->
  le_bytes 4 (wrap 32 (str_len s)) ++ as_bytes s ++ r =
  le_bytes 4 (wrap 32 (str_len s')) ++ as_bytes s' ++ r' -> s = s' /\ r = r'.
Proof.
  intros Hs Hs' Hl Hl' [H1 H2]%app_inj_len; [|by rewrite !le_bytes_length].
  rewrite !wrap_small in H1 by done. apply (f_equal le_value) in H1.
  rewrite !le_value_bytes_small in H1 by done.
  apply app_inj_len in H2 as [H2 H3]; [|unfold str_len, lenN in H1; lia].
  split; [by apply as_bytes_inj|done].
Qed.

Lemma payload_inj c c' e e' :
  length c = 32%nat -> length c' = 32%nat -> entry_ok e -> entry_ok e' ->
  entry_payload c e = entry_payload c' e' -> c = c' /\ same_claim e e'.
Proof.
  intros Hc Hc' ([Ho Hl] & [Ko Kl] & Hi & Ht) ([Ho' Hl'] & [Ko' Kl'] & Hi' & Ht').
  unfold entry_payload, payload, same_claim. intros [-> H]%app_inj_len; [|by rewrite Hc].
  apply prefixed_inj in H as [-> H]; [|done..]. apply prefixed_inj in H as [-> H]; [|done..].
  destruct (identity_key e) as [i|], (identity_key e') as [i'|]; try done; cbn [app] in H;
    apply (f_equal tail) in H; cbn [tail] in H.
  - apply app_inj_len in H as [-> H]; [|congruence]. split_and!; try done.
    apply (f_equal le_value) in H. by rewrite !le_value_bytes_small in H.
  - split_and!; try done. apply (f_equal le_value) in H. by rewrite !le_value_bytes_small in H.
Qed.

Lemma verify_loop_app es es' k c :
  verify_loop (es ++ es') k c =
  (verify_loop es k c && verify_loop es' k match last es with
                                           | None => c | Some e => advance_chain k (signature e) end)%bool.
Proof.
  revert c. induction es as [|e es IH]; intros c; cbn [app verify_loop]; [done|].
  case_ifs; [done|]. rewrite IH. f_equal. f_equal. rewrite last_cons. by destruct (last es).
Qed.

Lemma verify_snoc es e k :
  verify_entries (es ++ [e]) k = true <->
  verify_entries es k = true /\ signature e = kh256 k (entry_payload (chain_after k es) e).
Proof.
  unfold verify_entries. rewrite verify_loop_app, andb_true_iff. fold (chain_after k es).
  cbn [verify_loop]. unfold sign_entry. fold (entry_payload (chain_after k es) e).
  case_bool_decide; cbn; intuition congruence.
Qed.

Lemma payloads_snoc k es e :
  payloads k (es ++ [e]) = payloads k es ++ [entry_payload (chain_after k es) e].
Proof.
  unfold payloads. rewrite imap_app. f_equal.
  - apply imap_ext. intros i x Hi. apply lookup_lt_Some in Hi. cbn. by rewrite take_app_le by lia.
  - cbn. rewrite Nat.add_0_r. by rewrite take_app_length.
Qed.

Lemma chain_after_snoc k es e : chain_after k (es ++ [e]) = advance_chain k (signature e).
Proof. unfold chain_after. by rewrite last_snoc. Qed.

(** A hash failure on prefixes is one on the logs. *)
Lemma hash_failure_snoc k es es' e e' :
  hash_failure k es es' -> hash_failure k (es ++ [e]) (es' ++ [e']).
Proof.
  unfold hash_failure. rewrite !payloads_snoc, !map_app.
  intros [(m & m' & ? & ? & ?)|[(s & s' & ? & ? & ?)|(s & Hs & ?)]].
  - left. exists m, m'. rewrite !elem_of_app. auto.
  - right; left. exists s, s'. rewrite !elem_of_app. auto.
  - right; right. exists s. split; [|done]. rewrite !elem_of_app in *. tauto.
Qed.

(** The chain hash determines the log that leads to it. *)
Lemma chain_binds k es es' :
  verify_entries es k = true -> verify_entries es' k = true -> Forall entry_ok es ->
  Forall entry_ok es' -> chain_after k es = chain_after k es' ->
  Forall2 same_claim es es' \/ hash_failure k es es'.
Proof.
  revert es'. induction es as [|e es IH] using rev_ind; intros es'.
  - destruct es' as [|e' es' _] using rev_ind; [by left|]. rewrite chain_after_snoc.
    intros _ _ _ _ H. right; right; right. exists (signature e'). split; [|done].
    rewrite app_nil_l, map_app, elem_of_app. right. by apply list_elem_of_singleton.
  - destruct es' as [|e' es' _] using rev_ind.
    { rewrite chain_after_snoc. intros _ _ _ _ H. right; right; right. exists (signature e).
      split; [|done]. rewrite app_nil_r, map_app, elem_of_app. right. by apply list_elem_of_singleton. }
    rewrite !chain_after_snoc. intros [Hv Hs]%verify_snoc [Hv' Hs']%verify_snoc
      [Hok He]%Forall_app [Hok' He']%Forall_app Hc.
    rewrite Forall_singleton in He. rewrite Forall_singleton in He'.
    destruct (decide (signature e = signature e')) as [Hsig|Hsig].
    2: { right; right; left. exists (signature e), (signature e'). rewrite !map_app, !elem_of_app.
         cbn [map]. rewrite !list_elem_of_singleton. auto. }
    destruct (decide (entry_payload (chain_after k es) e = entry_payload (chain_after k es') e'))
      as [Hp|Hp].
    2: { right; left. exists (entry_payload (chain_after k es) e), (entry_payload (chain_after k es') e').
         rewrite !payloads_snoc, !elem_of_app, !list_elem_of_singleton. split_and!; auto; congruence. }
    destruct (payload_inj _ _ _ _ (chain_after_length k es) (chain_after_length k es') He He' Hp)
      as [Hch Hsame].
    destruct (IH es' Hv Hv' Hok Hok' Hch) as [Hf|Hf]; [|right; by apply hash_failure_snoc].
    left. apply Forall2_app; [done|]. by constructor.
Qed.

Lemma append_inner_inv l ev cap id t :
  verify l = true -> chain_hash l = chain_after (key l) (entries l) ->
  verify (append_inner l ev cap id t) = true /\
  chain_hash (append_inner l ev cap id t) =
    chain_after (key l) (entries (append_inner l ev cap id t)).
Proof.
  intros Hv Hc. unfold append_inner, verify in *. cbn [key entries chain_hash].
  rewrite chain_after_snoc. split; [|done]. apply verify_snoc. split; [done|]. cbn. by rewrite Hc.
Qed.
End audit.

(** What a caller appends: event, capability, identity, time. *)
Definition Event : Type := str * option str * option (list byte) * N.

Definition log_event (l : AuditLog) (e : Event) : AuditLog :=
  let '(ev, cap, id, t) := e in
  match id with None => append l ev cap t | Some id => append_with_identity l ev cap id t end.

Definition event_of (e : AuditEntry) : Event :=
  (event_type e, capability e, identity_key e, occurred_at_ms e).

(** ** Properties *)

(** the log records exactly what was appended, in order, and always verifies
    with its key, from any slice length: every prefix of it verifies too, so that
    verification alone does not see entries removed from the end. *)
Theorem log_verifies (k : list byte) (evs : list Event) (n : nat) :
  let l := fold_left log_event evs (new k) in
  map event_of (entries l) = evs /\ verify l = true /\
  verify_entries (take n (entries l)) k = true.
Proof.
  cbn zeta.
  assert (H : let l := fold_left log_event evs (new k) in
    key l = k /\ map event_of (entries l) = evs /\ verify l = true /\
    chain_hash l = chain_after (key l) (entries l)).
  { induction evs as [|e evs IH] using rev_ind; [done|]. rewrite fold_left_app. cbn [fold_left].
    destruct IH as (Hk & Hm & Hv & Hc). destruct e as [[[ev cap] id] t].
    assert (Hl : log_event (fold_left log_event evs (new k)) (ev, cap, id, t) =
      append_inner (fold_left log_event evs (new k)) ev cap id t) by (by destruct id).
    rewrite Hl. destruct (append_inner_inv _ ev cap id t Hv Hc) as [Hv' Hc'].
    split; [done|]. split; [|by split]. cbn [append_inner entries]. by rewrite map_app, Hm. }
  destruct H as (Hk & Hm & Hv & _). split; [done|]. split; [done|].
  unfold verify, verify_entries in *. rewrite Hk in Hv.
  rewrite <- (take_drop n (entries _)), verify_loop_app in Hv. by apply andb_true_iff in Hv as [? _].
Qed.

(** the last signature commits to the whole log: two logs that verify under
    the same key and end with the same signature have the same number of entries
    and agree on every event, capability, identity key and time ([None] and the
    empty capability being one claim), unless the keyed hash collides on the very
    messages the two verifications hash. *)
Theorem last_signature_binds (k : list byte) (es es' : list AuditEntry) (e e' : AuditEntry) :
  verify_entries (es ++ [e]) k = true -> verify_entries (es' ++ [e']) k = true ->
  Forall entry_ok (es ++ [e]) -> Forall entry_ok (es' ++ [e']) ->
  signature e = signature e' ->
  Forall2 same_claim (es ++ [e]) (es' ++ [e']) \/ hash_failure k (es ++ [e]) (es' ++ [e']).
Proof.
  intros Hv Hv' Hok Hok' Hs. apply chain_binds; [done..|]. rewrite !chain_after_snoc. by rewrite Hs.
Qed.

Lemma last_signature_binds_witness :
  let k := repeat Byte.x07 32 in
  let es := entries (append (append (new k) [0x76] (Some [0x63]) 1) [0x65] None 2) in
  let es' := entries (append (append (new k) [0x76] (Some [0x63]) 1) [0x65] (Some []) 2) in
  Forall2 same_claim es es' \/ hash_failure k es es'.
Proof.
  cbn zeta.
  refine (last_signature_binds (repeat Byte.x07 32) [_] [_] _ _ _ _ _ _ _);
    [vm_compute; reflexivity|vm_compute; reflexivity| | |vm_compute; reflexivity];
    (apply Forall_cons; split; [|apply Forall_cons; split; [|constructor]]; repeat split; repeat constructor).
Defined.

(** The published SipHash-2-4 test vector. *)
Example siphash_vector :
  siphash24 0x0706050403020100 0x0f0e0d0c0b0a0908 (map (fun i => byte_of (N.of_nat i)) (seq 0 15))
  = 0xa129ca6149be45e5.
Proof. vm_compute. reflexivity. Qed.
