(* ===== verification/Persist.v ===== *)
(** Append-only record files: the reading loop that [persistent_cache.rs] and
    [resume.rs] share in [core/xfer/src].

    A file is its contents.  Both modules read fixed-size records with
    [read_exact] until the end of the file and drop a partial last record. *)
From S2P Require Import Prelude.
#[local] Open Scope N_scope.

(** [loop { match reader.read_exact(&mut buf) ... }]: the complete records of
    the file; every iteration consumes a record, so the length is enough fuel. *)
Fixpoint read_records (fuel : nat) (n : N) (l : list byte) : list (list byte) :=
  match fuel with
  | O => []
  | S fuel =>
      match split_at_checked n l with
      | Some (r, l) => r :: read_records fuel n l
      | None => []
      end
  end.

Definition records (n : N) (l : list byte) : list (list byte) := read_records (length l) n l.

Section records.
Context (n : N) (Hn : 0 < n).

Lemma read_records_fuel f l : (length l <= f)%nat -> read_records f n l = records n l.
Proof.
  unfold records. enough (H : forall f1 f2 l, (length l <= f1)%nat -> (length l <= f2)%nat ->
    read_records f1 n l = read_records f2 n l) by (intros; by apply H).
  clear f l. induction f1 as [|f1 IH]; intros [|f2] l H1 H2; cbn [read_records]; try done.
  - destruct l; [|cbn in H1; lia]. unfold split_at_checked. cbn.
    rewrite (proj2 (N.leb_gt _ _)) by done. done.
  - destruct l; [|cbn in H2; lia]. unfold split_at_checked. cbn.
    rewrite (proj2 (N.leb_gt _ _)) by done. done.
  - destruct (split_at_checked n l) as [[r t]|] eqn:E; [|done].
    apply split_at_checked_Some in E as [-> Hr]. unfold lenN in Hr.
    rewrite length_app in H1, H2. f_equal. apply IH; lia.
Qed.

Lemma records_cons r l : lenN r = n -> records n (r ++ l) = r :: records n l.
Proof.
  intros Hr. unfold records. rewrite length_app. unfold lenN in Hr.
  destruct (length r + length l)%nat eqn:E; [lia|]. cbn [read_records].
  rewrite split_at_checked_app by (unfold lenN; lia). f_equal. apply read_records_fuel. lia.
Qed.

Lemma records_short l : lenN l < n -> records n l = [].
Proof.
  intros Hl. unfold records. destruct (length l) eqn:E; [done|]. cbn [read_records].
  unfold split_at_checked. by rewrite (proj2 (N.leb_gt _ _)).
Qed.

(** Whole records followed by anything. *)
Lemma records_concat rs l :
  Forall (fun r => lenN r = n) rs -> records n (concat rs ++ l) = rs ++ records n l.
Proof.
  induction 1 as [|r rs Hr _ IH]; [done|]. cbn [concat]. rewrite <- app_assoc, records_cons by done.
  by rewrite IH.
Qed.

(** A file cut anywhere keeps a prefix of its records. *)
Lemma records_cut rs k :
  Forall (fun r => lenN r = n) rs -> exists j, records n (take k (concat rs)) = take j rs.
Proof.
  intros Hrs. revert k. induction Hrs as [|r rs Hr _ IH]; intros k; cbn [concat].
  { exists 0%nat. by rewrite take_nil. }
  destruct (decide (k < length r)%nat) as [Hk|Hk].
  - exists 0%nat. rewrite take_app_le by lia. apply records_short. unfold lenN in *.
    rewrite length_take. lia.
  - destruct (IH (k - length r)%nat) as [j Hj]. exists (S j). cbn [take]. rewrite <- Hj.
    rewrite take_app_ge by lia. by apply records_cons.
Qed.
End records.
