(* ===== verification/ChunkCache.v ===== *)
(** The per-peer chunk dedup index: [core/xfer/src/cache.rs] and its file-backed
    form [core/xfer/src/persistent_cache.rs].

    [ChunkCache] is the trait: the client code, [split_delta] and
    [confirm_delivered], is verified against its laws, which both
    implementations satisfy. *)
From S2P Require Import Prelude Persist.
#[local] Open Scope N_scope.

Abbreviation ChunkHash := (list byte) (only parsing).

(** ** The trait *)
Class ChunkCache (C : Type) := {
  contains : C -> ChunkHash -> bool;
  insert_chunk : C -> ChunkHash -> C;
  remove_chunk : C -> ChunkHash -> C;
  contains_insert : forall c id id',
    contains (insert_chunk c id) id' = (bool_decide (id = id') || contains c id')%bool;
  contains_remove : forall c id id',
    contains (remove_chunk c id) id' = (negb (bool_decide (id = id')) && contains c id')%bool;
}.

(** ** The in-memory cache *)
Record InMemoryChunkCache := mkInMemory { known : gset ChunkHash }.

Definition new : InMemoryChunkCache := {| known := ∅ |}.
Definition mem_contains (c : InMemoryChunkCache) (id : ChunkHash) : bool := bool_decide (id ∈ known c).
Definition mem_insert (c : InMemoryChunkCache) (id : ChunkHash) : InMemoryChunkCache :=
  {| known := {[ id ]} ∪ known c |}.
Definition mem_remove (c : InMemoryChunkCache) (id : ChunkHash) : InMemoryChunkCache :=
  {| known := known c ∖ {[ id ]} |}.

(** ** Delta transfer *)
Record TransferManifest := mkManifest { chunk_ids : list ChunkHash; total_bytes : N }.

Definition chunk_count (m : TransferManifest) : N := lenN (chunk_ids m).

Definition split_delta `{ChunkCache C} (chunks : list ChunkHash) (cache : C) :
    list ChunkHash * list ChunkHash :=
  fold_left (fun '(to_send, already_cached) id =>
    if contains cache id then (to_send, already_cached ++ [id])
    else (to_send ++ [id], already_cached)) chunks ([], []).

Definition confirm_delivered `{ChunkCache C} (cache : C) (ids : list ChunkHash) : C :=
  fold_left insert_chunk ids cache.

(** ** The file-backed cache

    [pfile] is what the file holds after the writes; a write error, which the
    code ignores, and a crash are cuts of it. *)
Definition TAG_INSERT : N := 0x01.
Definition TAG_REMOVE : N := 0x00.
Definition ENTRY_LEN : N := 33.

Record PersistentChunkCache := mkPersistent {
  pknown : gset ChunkHash;
  pfile : list byte;
  log_entries : N;
}.

Definition log_entry (tag : N) (id : ChunkHash) : list byte := byte_of tag :: id.

(** One iteration of the loop of [load]. *)
Definition replay (known : gset ChunkHash) (entry : list byte) : gset ChunkHash :=
  match entry with
  | tag :: id =>
      if Byte.to_N tag =? TAG_INSERT then {[ id ]} ∪ known else known ∖ {[ id ]}
  | [] => known
  end.

(** [load], on the contents of the file, if it exists. *)
Definition load (contents : option (list byte)) : gset ChunkHash * N :=
  match contents with
  | None => (∅, 0)
  | Some l => let rs := records ENTRY_LEN l in (fold_left replay rs ∅, lenN rs)
  end.

(** [compact]; [iter] is the order in which the hash set is iterated. *)
Definition compact (iter : gset ChunkHash -> list ChunkHash) (live : gset ChunkHash) : list byte :=
  concat (map (log_entry TAG_INSERT) (iter live)).

Definition open_cache (iter : gset ChunkHash -> list ChunkHash) (contents : option (list byte)) :
    PersistentChunkCache :=
  let '(known, n) := load contents in
  let compaction_threshold := sat_add 64 (N.min (N.of_nat (size known) * 2) (u_max 64)) 64 in
  if compaction_threshold <? n
  then {| pknown := known; pfile := compact iter known; log_entries := N.of_nat (size known) |}
  else {| pknown := known; pfile := default [] contents; log_entries := n |}.

Definition append_entry (c : PersistentChunkCache) (tag : N) (id : ChunkHash) :
    PersistentChunkCache :=
  {| pknown := pknown c; pfile := pfile c ++ log_entry tag id;
     log_entries := log_entries c + 1 |}.

Definition p_contains (c : PersistentChunkCache) (id : ChunkHash) : bool :=
  bool_decide (id ∈ pknown c).

(** [HashSet::insert] and [remove] tell whether the set changed. *)
Definition p_insert (c : PersistentChunkCache) (id : ChunkHash) : PersistentChunkCache :=
  if bool_decide (id ∈ pknown c) then c
  else append_entry {| pknown := {[ id ]} ∪ pknown c; pfile := pfile c;
                       log_entries := log_entries c |} TAG_INSERT id.

Definition p_remove (c : PersistentChunkCache) (id : ChunkHash) : PersistentChunkCache :=
  if bool_decide (id ∈ pknown c)
  then append_entry {| pknown := pknown c ∖ {[ id ]}; pfile := pfile c;
                       log_entries := log_entries c |} TAG_REMOVE id
  else c.

#[export] Program Instance mem_cache : ChunkCache InMemoryChunkCache :=
  { contains := mem_contains; insert_chunk := mem_insert; remove_chunk := mem_remove }.
Next Obligation.
  intros c id id'. unfold mem_contains, mem_insert. cbn.
  repeat case_bool_decide; set_solver.
Qed.
Next Obligation.
  intros c id id'. unfold mem_contains, mem_remove. cbn.
  repeat case_bool_decide; set_solver.
Qed.

#[export] Program Instance persistent_cache : ChunkCache PersistentChunkCache :=
  { contains := p_contains; insert_chunk := p_insert; remove_chunk := p_remove }.
Next Obligation.
  intros c id id'. unfold p_contains, p_insert.
  destruct (bool_decide (id ∈ pknown c)) eqn:E; cbn; [apply bool_decide_eq_true in E|];
    repeat case_bool_decide; set_solver.
Qed.
Next Obligation.
  intros c id id'. unfold p_contains, p_remove.
  destruct (bool_decide (id ∈ pknown c)) eqn:E; cbn; [|apply bool_decide_eq_false in E];
    repeat case_bool_decide; set_solver.
Qed.

(** A session's mutations. *)
Inductive Op := Insert (id : ChunkHash) | Remove (id : ChunkHash).

Definition op_id (o : Op) : ChunkHash := match o with Insert id | Remove id => id end.

Definition run_op `{ChunkCache C} (c : C) (o : Op) : C :=
  match o with Insert id => insert_chunk c id | Remove id => remove_chunk c id end.

Definition run `{ChunkCache C} (c : C) (ops : list Op) : C := fold_left run_op ops c.

(** Daemon runs: each opens the file the previous one left and applies its
    operations. *)
Fixpoint sessions (iter : gset ChunkHash -> list ChunkHash) (contents : option (list byte))
    (runs : list (list Op)) : option (list byte) :=
  match runs with
  | [] => contents
  | ops :: runs => sessions iter (Some (pfile (run (open_cache iter contents) ops))) runs
  end.

(** ** Lemmas *)
Lemma cache_run_app `{ChunkCache C} (c : C) ops ops' : run c (ops ++ ops') = run (run c ops) ops'.
Proof. apply fold_left_app. Qed.

Section delta.
Context `{ChunkCache C}.

Lemma split_delta_filter (ids : list ChunkHash) (c : C) :
  split_delta ids c =
  (filter (fun id => contains c id = false) ids, filter (fun id => contains c id = true) ids).
Proof.
  unfold split_delta.
  enough (Hg : forall a b, fold_left (fun '(to_send, already_cached) id =>
    if contains c id then (to_send, already_cached ++ [id])
    else (to_send ++ [id], already_cached)) ids (a, b) =
    (a ++ filter (fun id => contains c id = false) ids, b ++ filter (fun id => contains c id = true) ids))
    by apply Hg.
  induction ids as [|id ids IH]; intros a b; cbn [fold_left]; [by rewrite !app_nil_r|].
  rewrite !filter_cons. destruct (contains c id) eqn:E; rewrite IH;
    repeat (rewrite decide_True by done || rewrite decide_False by done); by rewrite <- app_assoc.
Qed.

Lemma split_delta_all (ids : list ChunkHash) (c : C) :
  Forall (fun id => contains c id = true) ids -> split_delta ids c = ([], ids).
Proof.
  rewrite split_delta_filter. induction 1 as [|id ids Hid _ IH]; [done|]. injection IH as E1 E2.
  by rewrite !filter_cons, Hid, decide_False, decide_True, E1, E2.
Qed.

Lemma split_delta_ext (ids : list ChunkHash) (c c' : C) :
  Forall (fun id => contains c id = contains c' id) ids -> split_delta ids c = split_delta ids c'.
Proof.
  rewrite !split_delta_filter. induction 1 as [|id ids Hid _ IH]; [done|]. injection IH as E1 E2.
  by rewrite !filter_cons, Hid, E1, E2.
Qed.

Lemma contains_confirm (c : C) ids id :
  contains (confirm_delivered c ids) id = (bool_decide (id ∈ ids) || contains c id)%bool.
Proof.
  unfold confirm_delivered. revert c. induction ids as [|i ids IH]; intros c; cbn [fold_left].
  - rewrite bool_decide_false by apply not_elem_of_nil. done.
  - rewrite IH, contains_insert. repeat case_bool_decide; set_solver.
Qed.
End delta.

Section persistence.
Implicit Types (c : PersistentChunkCache) (es : list (list byte)).

Definition wf_entry (e : list byte) : Prop := lenN e = ENTRY_LEN.

(** The file is a sequence of whole entries whose replay gives the set. *)
Definition file_ok c : Prop :=
  exists es, pfile c = concat es /\ Forall wf_entry es /\ fold_left replay es ∅ = pknown c /\
    lenN es = log_entries c.

Definition hashes_ok (s : gset ChunkHash) : Prop := forall id, id ∈ s -> length id = 32%nat.

Lemma to_N_tag t : t < 256 -> Byte.to_N (byte_of t) = t.
Proof. intros. rewrite to_N_byte_of. by apply N.mod_small. Qed.

Lemma log_entry_wf t (id : ChunkHash) : length id = 32%nat -> wf_entry (log_entry t id).
Proof. intros Hl. unfold wf_entry, log_entry, lenN. cbn. by rewrite Hl. Qed.

Lemma replay_insert s id : replay s (log_entry TAG_INSERT id) = {[ id ]} ∪ s.
Proof. unfold replay, log_entry. by rewrite to_N_tag. Qed.

Lemma replay_tag_01 s id : replay s (Byte.x01 :: id) = {[ id ]} ∪ s.
Proof. reflexivity. Qed.

Lemma replay_remove s id : replay s (log_entry TAG_REMOVE id) = s ∖ {[ id ]}.
Proof. unfold replay, log_entry. by rewrite to_N_tag. Qed.

Lemma replay_inserts ids s :
  fold_left replay (map (log_entry TAG_INSERT) ids) s = list_to_set ids ∪ s.
Proof.
  revert s. induction ids as [|id ids IH]; intros s; cbn [map fold_left]; [set_solver|].
  rewrite IH, replay_insert. cbn [list_to_set]. set_solver.
Qed.

Lemma load_ok c : file_ok c -> load (Some (pfile c)) = (pknown c, log_entries c).
Proof.
  intros (es & -> & Hwf & <- & <-). unfold load.
  rewrite <- (app_nil_r (concat es)), records_concat by done.
  by rewrite records_short, app_nil_r by done.
Qed.

Lemma file_ok_length c : file_ok c -> lenN (pfile c) = ENTRY_LEN * log_entries c.
Proof.
  intros (es & -> & Hwf & _ & <-). clear c. induction Hwf as [|e es He _ IH]; [done|].
  cbn [concat]. rewrite lenN_app, lenN_cons, IH, He. lia.
Qed.

Lemma append_file_ok c tag id s :
  file_ok c -> length id = 32%nat -> replay (pknown c) (log_entry tag id) = s ->
  file_ok (append_entry {| pknown := s; pfile := pfile c; log_entries := log_entries c |} tag id).
Proof.
  intros (es & Hf & Hwf & Hk & Hl) Hid <-. exists (es ++ [log_entry tag id]). cbn.
  rewrite Hf, concat_app. cbn. rewrite app_nil_r. split; [done|]. split.
  - apply Forall_app. split; [done|]. repeat constructor. by apply log_entry_wf.
  - rewrite fold_left_app, Hk, lenN_app, Hl. by split.
Qed.

Lemma run_op_ok c o :
  file_ok c -> hashes_ok (pknown c) -> length (op_id o) = 32%nat ->
  file_ok (run_op c o) /\ hashes_ok (pknown (run_op c o)).
Proof.
  intros Hf Hh Hid. destruct o as [id|id]; cbn [run_op insert_chunk remove_chunk persistent_cache op_id] in *.
  - unfold p_insert. case_bool_decide; [done|]. split; [|intros i; cbn; set_solver].
    apply append_file_ok; [done..|]. by rewrite replay_insert.
  - unfold p_remove. case_bool_decide; [|done]. split; [|intros i; cbn; set_solver].
    apply append_file_ok; [done..|]. by rewrite replay_remove.
Qed.

Lemma run_ok c ops :
  file_ok c -> hashes_ok (pknown c) -> Forall (fun o => length (op_id o) = 32%nat) ops ->
  file_ok (run c ops) /\ hashes_ok (pknown (run c ops)).
Proof.
  intros Hf Hh Hops. revert c Hf Hh. induction Hops as [|o ops Ho _ IH]; intros c Hf Hh; [done|].
  destruct (run_op_ok c o Hf Hh Ho). by apply IH.
Qed.

Context (iter : gset ChunkHash -> list ChunkHash).
Hypothesis iter_perm : forall s, iter s ≡ₚ elements s.

(** Opening a well-formed file keeps the set and leaves a well-formed file
    within the compaction bound. *)
Lemma open_ok c :
  file_ok c -> hashes_ok (pknown c) ->
  let c' := open_cache iter (Some (pfile c)) in
  file_ok c' /\ pknown c' = pknown c /\ log_entries c' <= 2 * N.of_nat (size (pknown c')) + 64.
Proof.
  intros Hf Hh. cbn zeta. unfold open_cache. rewrite load_ok by done.
  destruct (N.ltb_spec (sat_add 64 (N.min (N.of_nat (size (pknown c)) * 2) (u_max 64)) 64) (log_entries c));
    cbn [pknown log_entries pfile].
  - split; [|split; [done|lia]]. exists (map (log_entry TAG_INSERT) (iter (pknown c))).
    split; [done|]. split; [|split].
    + apply Forall_map, Forall_forall. intros id Hid. apply log_entry_wf, Hh.
      rewrite iter_perm in Hid. by apply elem_of_elements.
    + rewrite replay_inserts, iter_perm, list_to_set_elements_L. set_solver.
    + cbn. unfold lenN. by rewrite length_map, iter_perm.
  - split; [|split; [done|unfold sat_add in *; lia]]. destruct Hf as (es & ? & ? & ? & ?). by exists es.
Qed.

Lemma open_none_ok :
  let c := open_cache iter None in file_ok c /\ pknown c = ∅ /\ log_entries c = 0.
Proof. split; [by exists []|done]. Qed.
End persistence.

Lemma run_known (c : PersistentChunkCache) (m : InMemoryChunkCache) ops :
  pknown c = known m -> pknown (run c ops) = known (run m ops).
Proof.
  unfold run. revert c m. induction ops as [|o ops IH]; intros c m E; [done|]. cbn [fold_left]. apply IH.
  destruct o as [id|id]; cbn [run_op insert_chunk remove_chunk persistent_cache mem_cache].
  - unfold p_insert, mem_insert. cbn. rewrite <- E. case_bool_decide; cbn; set_solver.
  - unfold p_remove, mem_remove. cbn. rewrite <- E. case_bool_decide; cbn; set_solver.
Qed.

Section restarts.
Context (iter : gset ChunkHash -> list ChunkHash).
Hypothesis iter_perm : forall s, iter s ≡ₚ elements s.

(** The contents of a file left by a run: nothing yet, or well-formed. *)
Definition contents_ok (contents : option (list byte)) (s : gset ChunkHash) : Prop :=
  match contents with
  | None => s = ∅
  | Some l => exists c, pfile c = l /\ file_ok c /\ pknown c = s
  end.

Lemma open_contents contents s :
  contents_ok contents s -> hashes_ok s ->
  let c := open_cache iter contents in
  file_ok c /\ pknown c = s /\ log_entries c <= 2 * N.of_nat (size (pknown c)) + 64.
Proof.
  destruct contents as [l|]; cbn [contents_ok].
  - intros (c & <- & Hf & <-) Hh. by apply open_ok.
  - intros -> _. destruct (open_none_ok iter) as (H1 & H2 & H3). rewrite H3.
    split; [done|]. split; [done|lia].
Qed.

Lemma sessions_ok contents runs s :
  contents_ok contents s -> hashes_ok s ->
  Forall (Forall (fun o => length (op_id o) = 32%nat)) runs ->
  let c := open_cache iter (sessions iter contents runs) in
  file_ok c /\ pknown c = known (run {| known := s |} (concat runs)) /\
  log_entries c <= 2 * N.of_nat (size (pknown c)) + 64.
Proof.
  intros Hc Hh Hruns. revert contents s Hc Hh.
  induction Hruns as [|ops runs Hops _ IH]; intros contents s Hc Hh; cbn [sessions concat].
  - by apply open_contents.
  - destruct (open_contents contents s Hc Hh) as (Hf & Hk & _).
    set (c1 := open_cache iter contents) in *.
    assert (Hh1 : hashes_ok (pknown c1)) by (by rewrite Hk).
    destruct (run_ok c1 ops Hf Hh1 Hops) as [Hf' Hh'].
    pose proof (run_known c1 {| known := s |} ops Hk) as Hr.
    cbn zeta. rewrite cache_run_app. destruct (run {| known := s |} ops) as [s'] eqn:Es. cbn [known] in Hr.
    apply (IH (Some (pfile (run c1 ops))) s').
    + by exists (run c1 ops).
    + by rewrite <- Hr.
Qed.
End restarts.

(** ** Properties *)

(** after the receiver acknowledges an object, a second transfer of it
    sends nothing and elides every chunk, in order; chunks of other objects are
    split as before.  Stated for any implementation of the cache. *)
Theorem confirmed_chunks_elided `{ChunkCache C} (cache : C) (ids others : list ChunkHash) :
  split_delta ids (confirm_delivered cache ids) = ([], ids) /\
  ((forall id, id ∈ others -> id ∉ ids) ->
   split_delta others (confirm_delivered cache ids) = split_delta others cache).
Proof.
  split.
  - apply split_delta_all, Forall_forall. intros id Hid. rewrite contains_confirm.
    by rewrite bool_decide_true.
  - intros Hd. apply split_delta_ext, Forall_forall. intros id Hid. rewrite contains_confirm.
    rewrite bool_decide_false; [done|]. by apply Hd.
Qed.

Lemma confirmed_chunks_elided_witness :
  let a := repeat Byte.x01 32 in let b := repeat Byte.x02 32 in let c := repeat Byte.x03 32 in
  split_delta [a; b; a] (confirm_delivered new [a; b; a]) = ([], [a; b; a]) /\
  ((forall id, id ∈ [c] -> id ∉ [a; b; a]) ->
   split_delta [c] (confirm_delivered new [a; b; a]) = split_delta [c] new).
Proof. apply confirmed_chunks_elided. Defined.

(** the dedup index survives restarts: through any number of daemon runs, each
    opening the file the last one wrote, compacting it when it has grown, and
    applying any insertions and removals, the set known at the end is the one the
    in-memory cache would have, and the log opened next holds at most twice that
    many entries and 64 more. *)
Theorem index_survives_restarts (iter : gset ChunkHash -> list ChunkHash)
    (runs : list (list Op)) :
  (forall s, iter s ≡ₚ elements s) ->
  Forall (Forall (fun o => length (op_id o) = 32%nat)) runs ->
  let c := open_cache iter (sessions iter None runs) in
  pknown c = known (run new (concat runs)) /\
  log_entries c <= 2 * N.of_nat (size (pknown c)) + 64 /\
  lenN (pfile c) = ENTRY_LEN * log_entries c.
Proof.
  intros Hi Hruns. destruct (sessions_ok iter Hi None runs (∅ : gset ChunkHash)) as (H1 & H2 & H3);
    [by split|intros id; set_solver|done|].
  cbn zeta. rewrite H2. split; [|split; [by rewrite <- H2|by apply file_ok_length]].
  done.
Qed.

Lemma index_survives_restarts_witness :
  let a := repeat Byte.x01 32 in let b := repeat Byte.x02 32 in
  let c := open_cache elements (sessions elements None [[Insert a; Insert b]; [Remove a]]) in
  pknown c = known (run new [Insert a; Insert b; Remove a]) /\
  log_entries c <= 2 * N.of_nat (size (pknown c)) + 64 /\
  lenN (pfile c) = ENTRY_LEN * log_entries c.
Proof.
  apply (index_survives_restarts elements [[Insert _; Insert _]; [Remove _]]);
    [done|repeat constructor].
Defined.

(** a crash that cuts the log anywhere loses only the newest mutations: what
    is loaded is the replay of a prefix of the entries.  But the cut entry stays
    in the file and the next run appends behind it: whatever bytes it left, the
    next insertion is read back shifted, as an entry for a hash made of the
    residue, the tag and the first bytes of the real hash. *)
Theorem crash_residue (es : list (list byte)) (k : nat) (residue : list byte) (id : ChunkHash) :
  Forall wf_entry es -> 0 < lenN residue < ENTRY_LEN -> length id = 32%nat ->
  (exists j, load (Some (take k (concat es))) = (fold_left replay (take j es) ∅, lenN (take j es))) /\
  load (Some (concat es ++ residue)) = (fold_left replay es ∅, lenN es) /\
  load (Some ((concat es ++ residue) ++ log_entry TAG_INSERT id)) =
    (replay (fold_left replay es ∅) (residue ++ take (33 - length residue) (log_entry TAG_INSERT id)),
     lenN es + 1).
Proof.
  intros Hwf Hr Hid. unfold load. split; [|split].
  - destruct (records_cut ENTRY_LEN ltac:(done) es k Hwf) as [j ->]. by exists j.
  - rewrite records_concat by done. by rewrite records_short, app_nil_r by lia.
  - rewrite <- app_assoc, records_concat by done. unfold lenN, ENTRY_LEN in Hr.
    set (r := residue ++ take (33 - length residue) (log_entry TAG_INSERT id)).
    assert (E : residue ++ log_entry TAG_INSERT id = r ++ drop (33 - length residue) (log_entry TAG_INSERT id))
      by (unfold r; by rewrite <- app_assoc, take_drop).
    assert (Hlen : length (log_entry TAG_INSERT id) = 33%nat) by (unfold log_entry; cbn; lia).
    assert (Hl : lenN r = ENTRY_LEN).
    { unfold r, lenN, ENTRY_LEN. rewrite length_app, length_take, Hlen. lia. }
    rewrite E, records_cons, records_short by
      (done || (unfold lenN, ENTRY_LEN; rewrite length_drop, Hlen; lia)).
    by rewrite fold_left_app, lenN_app.
Qed.

(** One byte of an interrupted insertion: the chunk recorded next is unknown
    after the restart, and a hash nobody inserted is known. *)
Lemma crash_residue_witness :
  let a := repeat Byte.x07 32 in
  let ghost := Byte.x01 :: repeat Byte.x07 31 in
  fst (load (Some (pfile (run (open_cache elements (Some [Byte.x01])) [Insert a])))) = {[ ghost ]} ∪ ∅ /\
  ghost <> a.
Proof.
  split; [|done].
  pose proof (crash_residue [] 0 [Byte.x01] (repeat Byte.x07 32) (Forall_nil_2 _)) as H.
  destruct H as (_ & _ & H); [by split|done|].
  change (pfile (run (open_cache elements (Some [Byte.x01])) [Insert (repeat Byte.x07 32)]))
    with (([] ++ [Byte.x01]) ++ log_entry TAG_INSERT (repeat Byte.x07 32)).
  cbn [concat] in H. rewrite H. exact (replay_tag_01 ∅ (Byte.x01 :: repeat Byte.x07 31)).
Defined.
