(* ===== verification/Resume.v ===== *)
(** Resumable transfers: [core/xfer/src/resume.rs].

    A state file is its contents, [None] when it does not exist; writes that
    fail, which the code ignores, and crashes are cuts of it. *)
From S2P Require Import Prelude Persist ChunkCache.
#[local] Open Scope N_scope.

(** "LBXR". *)
Definition MAGIC : list byte := [Byte.x4c; Byte.x42; Byte.x58; Byte.x52].
Definition VERSION : N := 1.
Definition PROGRESS_ENTRY_LEN : N := 4.

Inductive OpenOutcome := Fresh | Resumed (delivered : N).

Record ResumableTransfer := mkTransfer {
  manifest : TransferManifest;
  delivered : gset N;
  rfile : list byte;
}.

(** [create]: the header, written over whatever the file held. *)
Definition fixed_header (m : TransferManifest) : list byte :=
  MAGIC ++ [byte_of VERSION] ++ le_bytes 4 (wrap 32 (chunk_count m))
    ++ le_bytes 8 (wrap 64 (total_bytes m)).

Definition header (m : TransferManifest) : list byte := fixed_header m ++ concat (chunk_ids m).

(** [read_exact]: [None] is the end of the file. *)
Definition read_exact (n : N) (l : list byte) : option (list byte * list byte) :=
  split_at_checked n l.

(** The loop over the chunk ids: [None] an early end of the file, [Some None] a
    different id, [Some (Some rest)] the rest of the file. *)
Fixpoint match_ids (ids : list ChunkHash) (l : list byte) : option (option (list byte)) :=
  match ids with
  | [] => Some (Some l)
  | expected :: ids =>
      '(id, l) ← read_exact 32 l;
      if bool_decide (id = expected) then match_ids ids l else Some None
  end.

(** [load]: [None] an I/O error, [Some None] no usable state. *)
Definition load (contents : option (list byte)) (m : TransferManifest) : option (option (gset N)) :=
  match contents with
  | None => Some None
  | Some l =>
      '(h, l) ← read_exact 17 l;
      if negb (bool_decide (take 4 h = MAGIC)) || negb (Byte.to_N (nth 4 h Byte.x00) =? VERSION)
      then Some None
      else
      let count := le_value (take 4 (drop 5 h)) in
      let total := le_value (take 8 (drop 9 h)) in
      if negb (count =? chunk_count m) || negb (total =? total_bytes m) then Some None
      else
      rest ← match_ids (chunk_ids m) l;
      match rest with
      | None => Some None
      | Some l =>
          Some (Some (fold_left (fun s e =>
            let index := le_value e in if index <? count then {[ index ]} ∪ s else s)
            (records PROGRESS_ENTRY_LEN l) ∅))
      end
  end.

Definition open_transfer (contents : option (list byte)) (m : TransferManifest) :
    ResumableTransfer * OpenOutcome :=
  match load contents m with
  | Some (Some d) =>
      ({| manifest := m; delivered := d; rfile := default [] contents |},
       Resumed (N.of_nat (size d)))
  | _ => ({| manifest := m; delivered := ∅; rfile := header m |}, Fresh)
  end.

Definition mark_delivered (t : ResumableTransfer) (index : N) : ResumableTransfer :=
  if chunk_count (manifest t) <=? index then t
  else
  let index := wrap 32 index in
  if bool_decide (index ∈ delivered t) then t
  else {| manifest := manifest t; delivered := {[ index ]} ∪ delivered t;
          rfile := rfile t ++ le_bytes 4 index |}.

(** [0..n] as a list. *)
Definition range (n : N) : list N := map N.of_nat (seq 0 (N.to_nat n)).

Definition remaining (t : ResumableTransfer) : list N :=
  filter (fun i => wrap 32 i ∉ delivered t) (range (chunk_count (manifest t))).

Definition delivered_count (t : ResumableTransfer) : N := N.of_nat (size (delivered t)).

Definition is_complete (t : ResumableTransfer) : bool :=
  delivered_count t =? chunk_count (manifest t).

Definition remaining_ids (t : ResumableTransfer) : list ChunkHash :=
  omap (fun i => chunk_ids (manifest t) !! N.to_nat i) (remaining t).

(** [finish]: [Ok None] is the removed file. *)
Definition finish (t : ResumableTransfer) : result unit (option (list byte)) :=
  if negb (is_complete t) then Err tt else Ok None.

(** ** Lemmas *)

(** The manifests the format can hold: 32-byte ids, at most [2^32 - 1] chunks,
    a [u64] size. *)
Definition manifest_ok (m : TransferManifest) : Prop :=
  Forall (fun id => lenN id = 32) (chunk_ids m) /\ chunk_count m < 2 ^ 32 /\ total_bytes m < 2 ^ 64.

(** What replaying indices adds to a set. *)
Definition replay_indices (count : N) (js : list N) (s : gset N) : gset N :=
  fold_left (fun s i => if i <? count then {[ i ]} ∪ s else s) js s.

(** The file is the header and one entry per delivered index. *)
Definition transfer_ok (t : ResumableTransfer) : Prop :=
  manifest_ok (manifest t) /\
  exists js, rfile t = header (manifest t) ++ concat (map (le_bytes 4) js) /\
    Forall (fun i => i < chunk_count (manifest t)) js /\
    delivered t = list_to_set js.

#[local] Arguments le_bytes : simpl never.

Section resume.
Implicit Types (m : TransferManifest) (t : ResumableTransfer).

Lemma match_ids_header ids l :
  Forall (fun id => lenN id = 32) ids -> match_ids ids (concat ids ++ l) = Some (Some l).
Proof.
  induction 1 as [|id ids Hid _ IH]; [done|]. cbn [match_ids concat]. unfold read_exact.
  rewrite <- app_assoc, split_at_checked_app by done. cbn. by rewrite bool_decide_true.
Qed.

(** A header is accepted for its own manifest, whatever follows it. *)
Lemma load_header m l :
  manifest_ok m ->
  load (Some (header m ++ l)) m =
  Some (Some (replay_indices (chunk_count m) (map le_value (records PROGRESS_ENTRY_LEN l)) ∅)).
Proof.
  intros (Hids & Hc & Ht). unfold load, header, read_exact.
  rewrite <- app_assoc. set (fixed := fixed_header m).
  rewrite split_at_checked_app by (unfold fixed, fixed_header; autorewrite with lowband_len; done).
  cbn [mbind option_bind].
  assert (E1 : take 4 fixed = MAGIC) by done.
  assert (E2 : Byte.to_N (nth 4 fixed Byte.x00) = VERSION) by (cbn; apply to_N_byte_of).
  assert (E3 : take 4 (drop 5 fixed) = le_bytes 4 (wrap 32 (chunk_count m))) by done.
  assert (E4 : take 8 (drop 9 fixed) = le_bytes 8 (wrap 64 (total_bytes m))) by done.
  rewrite E1, E2, E3, E4, (wrap_small 32), (wrap_small 64) by done.
  rewrite (le_value_bytes_small 4), (le_value_bytes_small 8), !N.eqb_refl by (cbn; lia).
  rewrite bool_decide_true by done. cbn [negb orb]. rewrite match_ids_header by done.
  cbn [mbind option_bind]. do 2 f_equal. unfold replay_indices.
  generalize (records PROGRESS_ENTRY_LEN l) (∅ : gset N). intros rs. induction rs as [|r rs IH]; intros s; [done|].
  cbn [fold_left map]. by rewrite IH.
Qed.

Lemma replay_indices_set count js s :
  Forall (fun i => i < count) js -> replay_indices count js s = list_to_set js ∪ s.
Proof.
  intros His. revert s. induction His as [|i js Hi _ IH]; intros s; cbn; [set_solver|].
  unfold replay_indices in *. rewrite IH, (proj2 (N.ltb_lt _ _)) by done. set_solver.
Qed.

Lemma progress_records js l :
  records PROGRESS_ENTRY_LEN (concat (map (le_bytes 4) js) ++ l) =
  map (le_bytes 4) js ++ records PROGRESS_ENTRY_LEN l.
Proof.
  apply records_concat; [done|]. apply Forall_map, Forall_forall. intros i _. by rewrite lenN_le_bytes.
Qed.

Lemma le_value_entries js count :
  count < 2 ^ 32 -> Forall (fun i => i < count) js -> map le_value (map (le_bytes 4) js) = js.
Proof.
  intros Hc. induction 1 as [|i js Hi _ IH]; [done|]. cbn [map]. rewrite IH.
  f_equal. apply le_value_bytes_small. change (256 ^ N.of_nat 4) with (2 ^ 32). lia.
Qed.

Lemma mark_ok t i : transfer_ok t -> transfer_ok (mark_delivered t i) /\
  manifest (mark_delivered t i) = manifest t /\
  delivered (mark_delivered t i) =
    (if i <? chunk_count (manifest t) then {[ i ]} ∪ delivered t else delivered t).
Proof.
  intros (Hm & js & Hf & His & Hd). unfold mark_delivered.
  destruct (N.leb_spec (chunk_count (manifest t)) i).
  { rewrite (proj2 (N.ltb_ge _ _)) by done. split; [|done]. split; [done|]. by exists js. }
  rewrite (proj2 (N.ltb_lt _ _)), wrap_small by (destruct Hm as (_ & ? & _); lia).
  case_bool_decide.
  { split; [|split; [done|set_solver]]. split; [done|]. by exists js. }
  split; [|done]. split; [done|]. exists (js ++ [i]). cbn [rfile manifest delivered].
  rewrite Hf, map_app, concat_app, <- app_assoc. cbn [map concat]. rewrite app_nil_r.
  split; [done|]. split; [apply Forall_app; by repeat constructor|].
  rewrite Hd, list_to_set_app_L. set_solver.
Qed.

Lemma reopen_ok t :
  transfer_ok t -> open_transfer (Some (rfile t)) (manifest t) = (t, Resumed (delivered_count t)).
Proof.
  intros (Hm & js & Hf & His & Hd). unfold open_transfer. rewrite Hf at 1. rewrite load_header by done.
  rewrite <- (app_nil_r (concat _)), progress_records, records_short, app_nil_r by done.
  destruct Hm as (_ & Hc & _). rewrite (le_value_entries js _ Hc His).
  rewrite replay_indices_set by done.
  assert (E : list_to_set js ∪ ∅ = delivered t) by (rewrite Hd; set_solver). rewrite E.
  cbn. unfold delivered_count. by destruct t.
Qed.

Lemma fresh_ok m : manifest_ok m -> transfer_ok (mkTransfer m ∅ (header m)).
Proof. intros Hm. split; [done|]. exists []. cbn. by rewrite app_nil_r. Qed.

Lemma filter_ext {A} (P Q : A -> Prop) `{!forall x, Decision (P x), !forall x, Decision (Q x)}
    (l : list A) :
  (forall x, x ∈ l -> (P x <-> Q x)) -> filter P l = filter Q l.
Proof.
  induction l as [|x l IH]; intros Hx; [done|]. rewrite !filter_cons, IH by set_solver.
  destruct (decide (P x)) as [HP|HP], (decide (Q x)) as [HQ|HQ]; [done| | |done];
    exfalso; [apply HQ|apply HP]; apply Hx; set_solver.
Qed.

Lemma elem_of_range i n : i ∈ range n <-> i < n.
Proof.
  unfold range. rewrite list_elem_of_fmap. split.
  - intros (k & -> & Hk%elem_of_seq). lia.
  - intros Hi. exists (N.to_nat i). rewrite elem_of_seq. lia.
Qed.

Lemma delivered_bound t i : transfer_ok t -> i ∈ delivered t -> i < chunk_count (manifest t).
Proof.
  intros (_ & js & _ & His & ->) Hi. rewrite elem_of_list_to_set in Hi. rewrite Forall_forall in His. auto.
Qed.

Lemma complete_spec t :
  transfer_ok t -> is_complete t = true <-> forall i, i < chunk_count (manifest t) -> i ∈ delivered t.
Proof.
  intros Ht. unfold is_complete, delivered_count. rewrite N.eqb_eq.
  set (all := list_to_set (range (chunk_count (manifest t))) : gset N).
  assert (Hall : size all = N.to_nat (chunk_count (manifest t))).
  { unfold all. rewrite size_list_to_set; [unfold range; by rewrite length_map, length_seq|].
    unfold range. apply NoDup_fmap_2; [intros x y; lia|apply NoDup_seq]. }
  assert (Hsub : delivered t ⊆ all).
  { intros i Hi. unfold all. rewrite elem_of_list_to_set, elem_of_range. by apply delivered_bound. }
  split.
  - intros Hs i Hi. assert (E : delivered t = all).
    { apply set_subseteq_size_eq; [done|lia]. }
    rewrite E. unfold all. by rewrite elem_of_list_to_set, elem_of_range.
  - intros Hd. assert (E : delivered t = all).
    { apply set_eq. intros i. split; [apply Hsub|]. unfold all.
      rewrite elem_of_list_to_set, elem_of_range. apply Hd. }
    rewrite E, Hall. lia.
Qed.
End resume.

(** ** Properties *)

(** Daemon runs over one state file: each opens it for the manifest and marks
    indices. *)
Fixpoint runs (contents : option (list byte)) (m : TransferManifest) (rs : list (list N)) :
    option (list byte) :=
  match rs with
  | [] => contents
  | js :: rs =>
      runs (Some (rfile (fold_left mark_delivered js (fst (open_transfer contents m))))) m rs
  end.

Section runs.
Implicit Types (m : TransferManifest) (t : ResumableTransfer).

Lemma marks_ok t js :
  transfer_ok t ->
  transfer_ok (fold_left mark_delivered js t) /\
  manifest (fold_left mark_delivered js t) = manifest t /\
  forall i, i ∈ delivered (fold_left mark_delivered js t) <->
    i ∈ delivered t \/ (i ∈ js /\ i < chunk_count (manifest t)).
Proof.
  revert t. induction js as [|j js IH]; intros t Ht; cbn [fold_left].
  { split; [done|]. split; [done|]. intros i. set_solver. }
  destruct (mark_ok t j Ht) as (H1 & H2 & H3). destruct (IH _ H1) as (K1 & K2 & K3).
  split; [done|]. split; [congruence|]. intros i. rewrite K3, H2, H3, elem_of_cons.
  destruct (N.ltb_spec j (chunk_count (manifest t))); [rewrite elem_of_union, elem_of_singleton|];
    (split; [|]; intuition (subst; try lia; auto)).
Qed.

Lemma runs_ok contents m rs s :
  manifest_ok m ->
  (contents = None /\ s = ∅ \/
   exists t, contents = Some (rfile t) /\ transfer_ok t /\ manifest t = m /\ delivered t = s) ->
  let t := fst (open_transfer (runs contents m rs) m) in
  transfer_ok t /\ manifest t = m /\
  forall i, i ∈ delivered t <-> i ∈ s \/ (i ∈ concat rs /\ i < chunk_count m).
Proof.
  intros Hm. revert contents s. induction rs as [|js rs IH]; intros contents s Hc; cbn [runs concat].
  - destruct Hc as [[-> ->]|(t & -> & Ht & <- & <-)].
    + split; [by apply fresh_ok|]. split; [done|]. intros i. cbn. set_solver.
    + rewrite reopen_ok by done. cbn. split; [done|]. split; [done|]. set_solver.
  - assert (Ho : let t := fst (open_transfer contents m) in
      transfer_ok t /\ manifest t = m /\ delivered t = s).
    { destruct Hc as [[-> ->]|(t & -> & Ht & <- & <-)]; [by split; [apply fresh_ok|]|].
      by rewrite reopen_ok. }
    destruct Ho as (Ht & Hmt & Hd). destruct (marks_ok _ js Ht) as (H1 & H2 & H3).
    destruct (IH (Some (rfile (fold_left mark_delivered js (fst (open_transfer contents m)))))
      (delivered (fold_left mark_delivered js (fst (open_transfer contents m))))) as (K1 & K2 & K3).
    { right. eexists. split; [reflexivity|]. split; [exact H1|]. split; [congruence|done]. }
    split; [exact K1|]. split; [exact K2|]. intros i. rewrite K3, H3, Hd, Hmt, elem_of_app. tauto.
Qed.
End runs.

(** C13: a transfer interrupted any number of times resumes exactly: after any
    runs that each reopen the state file and mark any indices, what is left to
    send is the chunks never marked, in file order, the transfer is complete
    exactly when that is empty, and only then can it be finished. *)
Theorem transfer_resumes_exactly (m : TransferManifest) (rs : list (list N)) :
  manifest_ok m ->
  let t := fst (open_transfer (runs None m rs) m) in
  remaining t = filter (fun i => i ∉ concat rs) (range (chunk_count m)) /\
  (is_complete t = true <-> remaining t = []) /\ (finish t = Ok None <-> is_complete t = true).
Proof.
  intros Hm. destruct (runs_ok None m rs ∅ Hm) as (Ht & Hmt & Hd); [by left|]. cbn zeta.
  set (t := fst (open_transfer (runs None m rs) m)) in *.
  assert (Hr : forall i, i < chunk_count m -> (wrap 32 i ∉ delivered t <-> i ∉ concat rs)).
  { intros i Hi. rewrite wrap_small by (destruct Hm as (_ & ? & _); lia). rewrite Hd. set_solver. }
  split; [|split].
  - unfold remaining. rewrite Hmt. apply filter_ext. intros i Hi%elem_of_range. by apply Hr.
  - rewrite complete_spec by done. unfold remaining. rewrite Hmt. split.
    + intros Hall. apply elem_of_nil_inv. intros i. rewrite list_elem_of_filter, elem_of_range. intros [Hn Hi].
      rewrite wrap_small in Hn by (destruct Hm as (_ & ? & _); lia). by apply Hn, Hall.
    + intros Hnil i Hi. destruct (decide (i ∈ delivered t)) as [|Hn]; [done|]. exfalso.
      assert (Hin : i ∈ filter (fun i => wrap 32 i ∉ delivered t) (range (chunk_count m))).
      { rewrite list_elem_of_filter, elem_of_range. split; [|done].
        by rewrite wrap_small by (destruct Hm as (_ & ? & _); lia). }
      rewrite Hnil in Hin. by apply not_elem_of_nil in Hin.
  - unfold finish. destruct (is_complete t); cbn; intuition congruence.
Qed.

Lemma transfer_resumes_exactly_witness :
  let m := mkManifest [repeat Byte.x01 32; repeat Byte.x02 32; repeat Byte.x03 32] 1000 in
  let t := fst (open_transfer (runs None m [[2]; [0; 7; 2]]) m) in
  remaining t = [1] /\ (is_complete t = true <-> remaining t = []) /\
  (finish t = Ok None <-> is_complete t = true).
Proof.
  apply (transfer_resumes_exactly (mkManifest [repeat Byte.x01 32; repeat Byte.x02 32; repeat Byte.x03 32] 1000)
    [[2]; [0; 7; 2]]).
  split; [repeat constructor|]. split; [reflexivity|reflexivity].
Defined.

(** the residue of an interrupted write corrupts what is recorded after it.
    A partial entry is ignored when the file is opened, as intended, but stays in
    the file: if it is one byte [b], the chunk [i] delivered next is read back as
    chunk [b + 256 i], which is then taken for delivered although it never was,
    while [i] is forgotten; the transfer can complete without that chunk. *)
Theorem residue_marks_wrong_chunk (t : ResumableTransfer) (b : byte) (i : N) :
  transfer_ok t -> i < chunk_count (manifest t) -> i ∉ delivered t ->
  Byte.to_N b + 256 * i < chunk_count (manifest t) ->
  let t1 := fst (open_transfer (Some (rfile t ++ [b])) (manifest t)) in
  let t2 := fst (open_transfer (Some (rfile (mark_delivered t1 i))) (manifest t)) in
  delivered t1 = delivered t /\ delivered t2 = {[ Byte.to_N b + 256 * i ]} ∪ delivered t.
Proof.
  intros Ht Hi Hn Hj. pose proof Ht as (Hm & js & Hf & Hjs & Hd). pose proof Hm as (_ & Hc & _).
  assert (H1 : open_transfer (Some (rfile t ++ [b])) (manifest t) =
    ({| manifest := manifest t; delivered := delivered t; rfile := rfile t ++ [b] |},
     Resumed (delivered_count t))).
  { unfold open_transfer. rewrite Hf, <- app_assoc, load_header, progress_records, records_short by done.
    rewrite app_nil_r, (le_value_entries js _ Hc Hjs), replay_indices_set by done.
    assert (E : list_to_set js ∪ ∅ = delivered t) by (rewrite Hd; set_solver). by rewrite E. }
  cbn zeta. rewrite H1. cbn [fst delivered]. split; [done|].
  unfold mark_delivered. cbn [manifest delivered rfile].
  rewrite (proj2 (N.leb_gt _ _)), wrap_small, bool_decide_false by (done || lia). cbn [rfile].
  unfold open_transfer. rewrite Hf, <- !app_assoc, load_header, progress_records by done.
  set (j := Byte.to_N b + 256 * i).
  assert (Hrec : records PROGRESS_ENTRY_LEN ([b] ++ le_bytes 4 i) = [[b] ++ le_bytes 3 i]).
  { change (le_bytes 4 i) with (byte_of i :: byte_of (i / 256) :: byte_of (i / 256 / 256)
      :: [byte_of (i / 256 / 256 / 256)]).
    change (le_bytes 3 i) with [byte_of i; byte_of (i / 256); byte_of (i / 256 / 256)].
    apply (records_cons PROGRESS_ENTRY_LEN ltac:(done)
      [b; byte_of i; byte_of (i / 256); byte_of (i / 256 / 256)] [_]). done. }
  assert (Hv : le_value ([b] ++ le_bytes 3 i) = j).
  { cbn [app le_value]. rewrite le_value_bytes_small; [done|]. cbn. lia. }
  rewrite Hrec, map_app. cbn [map]. rewrite Hv, (le_value_entries js _ Hc Hjs), replay_indices_set.
  - cbn [fst delivered]. rewrite Hd, list_to_set_app_L. set_solver.
  - apply Forall_app. by repeat constructor.
Qed.

Lemma residue_marks_wrong_chunk_witness :
  let m := mkManifest (repeat (repeat Byte.x01 32) 300) 9600000 in
  let t := mkTransfer m ∅ (header m) in
  let t1 := fst (open_transfer (Some (rfile t ++ [Byte.x00])) m) in
  let t2 := fst (open_transfer (Some (rfile (mark_delivered t1 1))) m) in
  delivered t1 = ∅ /\ delivered t2 = {[ 256 ]} ∪ ∅.
Proof.
  apply (residue_marks_wrong_chunk
    (mkTransfer (mkManifest (repeat (repeat Byte.x01 32) 300) 9600000) ∅
      (header (mkManifest (repeat (repeat Byte.x01 32) 300) 9600000))) Byte.x00 1).
  - apply fresh_ok. split; [|split; reflexivity]. apply Forall_forall. intros id Hid.
    apply list_elem_of_In, repeat_spec in Hid as ->. reflexivity.
  - reflexivity.
  - apply not_elem_of_empty.
  - reflexivity.
Defined.
