(* ===== verification/Scheduler.v ===== *)
(** Bulk-transfer pacing: [core/xfer/src/scheduler.rs].

    The coalescing loop is a recursion on the queue; [packs] is the abstract
    specification of a datagram it may form. *)
From S2P Require Import Prelude.
#[local] Open Scope N_scope.

Definition DATAGRAM_OVERHEAD : N := 19.
Definition FRAME_HEADER_OVERHEAD : N := 2.
Definition MAX_DATAGRAM_XFER_BYTES : N := 1200 - DATAGRAM_OVERHEAD.

Record PacerDemand := mkDemand { voice_pending : N; input_pending : N }.

Definition blocks_bulk (d : PacerDemand) : bool :=
  (0 <? voice_pending d) || (0 <? input_pending d).

Record XferFrame := mkFrame { data : list byte; object_id : N; esi : N }.

Definition frame_len (f : XferFrame) : N := lenN (data f).

Record AggregatedDatagram := mkAggregated { frames : list XferFrame }.

Definition data_bytes (d : AggregatedDatagram) : N := sum_of frame_len (frames d).

Inductive TickResult :=
| SendAggregated (d : AggregatedDatagram)
| HeldForPriority
| HeldForHeadroom
| Idle.

Record BulkTransferScheduler := mkScheduler {
  queue : list XferFrame;
  headroom_remaining : N;
}.

Definition new : BulkTransferScheduler := {| queue := []; headroom_remaining := 0 |}.

Definition set_headroom (s : BulkTransferScheduler) (bytes : N) : BulkTransferScheduler :=
  {| queue := queue s; headroom_remaining := bytes |}.

Definition enqueue (s : BulkTransferScheduler) (f : XferFrame) : BulkTransferScheduler :=
  {| queue := queue s ++ [f]; headroom_remaining := headroom_remaining s |}.

Definition queued_frames (s : BulkTransferScheduler) : N := lenN (queue s).

(** The coalescing loop: [frames], [datagram_used] and [headroom_used] are its
    variables, [q] the queue it pops from. *)
Fixpoint coalesce (q : list XferFrame) (headroom : N) (frames : list XferFrame)
    (datagram_used headroom_used : N) : list XferFrame * list XferFrame * N :=
  match q with
  | [] => (frames, [], headroom_used)
  | next :: q' =>
      let slot := FRAME_HEADER_OVERHEAD + frame_len next in
      if negb (bool_decide (frames = [])) && (MAX_DATAGRAM_XFER_BYTES <? datagram_used + slot)
      then (frames, q, headroom_used)
      else if headroom <? headroom_used + frame_len next then (frames, q, headroom_used)
      else coalesce q' headroom (frames ++ [next]) (datagram_used + slot)
             (headroom_used + frame_len next)
  end.

Definition tick (s : BulkTransferScheduler) (demand : PacerDemand) :
    BulkTransferScheduler * TickResult :=
  if blocks_bulk demand then (s, HeldForPriority)
  else if headroom_remaining s =? 0 then (s, HeldForHeadroom)
  else
  match queue s with
  | [] => (s, Idle)
  | frame :: _ =>
      if headroom_remaining s <? frame_len frame then (s, HeldForHeadroom)
      else
      let '(fs, q, used) := coalesce (queue s) (headroom_remaining s) [] 0 0 in
      ({| queue := q; headroom_remaining := headroom_remaining s - used |},
       SendAggregated {| frames := fs |})
  end.

(** ** What a datagram may be *)
Definition slot (f : XferFrame) : N := FRAME_HEADER_OVERHEAD + frame_len f.

#[export] Instance frame_eq_dec : EqDecision XferFrame.
Proof. solve_decision. Defined.

(** [fs] is a non-empty front of the queue that fits the headroom and, unless
    it is one frame, the datagram, and the frame behind it does not fit. *)
Definition packs (headroom : N) (q fs q' : list XferFrame) : Prop :=
  q = fs ++ q' /\ fs <> [] /\ sum_of frame_len fs <= headroom /\
  (sum_of slot fs <= MAX_DATAGRAM_XFER_BYTES \/ length fs = 1%nat) /\
  match q' with
  | [] => True
  | f :: _ => MAX_DATAGRAM_XFER_BYTES < sum_of slot fs + slot f \/
              headroom < sum_of frame_len fs + frame_len f
  end.

(** The transport's view of a session: the governor's grants, frames and ticks. *)
Inductive Op := Grant (bytes : N) | Enqueue (f : XferFrame) | Tick (d : PacerDemand).

Definition sent_by (r : TickResult) : list XferFrame :=
  match r with SendAggregated d => frames d | _ => [] end.

(** The run of a session: the frames sent, in order. *)
Fixpoint run (s : BulkTransferScheduler) (ops : list Op) : BulkTransferScheduler * list XferFrame :=
  match ops with
  | [] => (s, [])
  | Grant n :: ops => run (set_headroom s n) ops
  | Enqueue f :: ops => run (enqueue s f) ops
  | Tick d :: ops =>
      let '(s, r) := tick s d in
      let '(s, fs) := run s ops in (s, sent_by r ++ fs)
  end.

Fixpoint enqueued (ops : list Op) : list XferFrame :=
  match ops with
  | [] => []
  | Enqueue f :: ops => f :: enqueued ops
  | _ :: ops => enqueued ops
  end.

Definition granted (ops : list Op) : N :=
  sum_of (fun o => match o with Grant n => n | _ => 0 end) ops.

(** ** Lemmas *)
Section scheduler.
Implicit Types (s : BulkTransferScheduler) (q fs : list XferFrame).

Lemma sum_of_snoc (g : XferFrame -> N) fs f : sum_of g (fs ++ [f]) = sum_of g fs + g f.
Proof. rewrite sum_of_app, sum_of_cons, sum_of_nil. lia. Qed.

Lemma coalesce_spec q h fs :
  sum_of frame_len fs <= h ->
  (sum_of slot fs <= MAX_DATAGRAM_XFER_BYTES \/ (length fs <= 1)%nat) ->
  match coalesce q h fs (sum_of slot fs) (sum_of frame_len fs) with
  | (fs', q', used) =>
      fs ++ q = fs' ++ q' /\ used = sum_of frame_len fs' /\ used <= h /\
      (exists more, fs' = fs ++ more) /\
      (sum_of slot fs' <= MAX_DATAGRAM_XFER_BYTES \/ (length fs' <= 1)%nat) /\
      match q' with
      | [] => True
      | f :: _ => (fs' <> [] /\ MAX_DATAGRAM_XFER_BYTES < sum_of slot fs' + slot f) \/
                  h < sum_of frame_len fs' + frame_len f
      end
  end.
Proof.
  revert fs. induction q as [|f q IH]; intros fs Hh Hd; cbn [coalesce].
  { split_and!; try done. exists []. by rewrite app_nil_r. }
  fold (slot f).
  destruct (negb _ && _)%bool eqn:E1.
  { apply andb_true_iff in E1 as [E0 E1]. reflectN. apply bool_decide_eq_false in E0.
    split_and!; try done; [exists []; by rewrite app_nil_r|by left]. }
  destruct (N.ltb_spec h (sum_of frame_len fs + frame_len f)).
  { split_and!; try done; [exists []; by rewrite app_nil_r|by right]. }
  specialize (IH (fs ++ [f])). rewrite !sum_of_snoc in IH.
  assert (Hd' : sum_of slot fs + slot f <= MAX_DATAGRAM_XFER_BYTES \/ (length (fs ++ [f]) <= 1)%nat).
  { apply andb_false_iff in E1 as [E1|E1].
    - apply negb_false_iff, bool_decide_eq_true in E1 as ->. right. cbn. lia.
    - reflectN. by left. }
  specialize (IH ltac:(lia) Hd').
  destruct (coalesce q h _ _ _) as [[fs' q'] used].
  destruct IH as (H1 & H2 & H3 & (more & H4) & H5 & H6). rewrite <- app_assoc in H1, H4.
  split_and!; try done. by exists (f :: more).
Qed.

(** The tick as a whole. *)
Lemma tick_spec s d :
  match tick s d with
  | (s', SendAggregated g) =>
      blocks_bulk d = false /\ packs (headroom_remaining s) (queue s) (frames g) (queue s') /\
      headroom_remaining s' + data_bytes g = headroom_remaining s
  | (s', HeldForPriority) => s' = s /\ blocks_bulk d = true
  | (s', HeldForHeadroom) => s' = s /\ blocks_bulk d = false /\
      (headroom_remaining s = 0 \/
       exists f q, queue s = f :: q /\ headroom_remaining s < frame_len f)
  | (s', Idle) => s' = s /\ blocks_bulk d = false /\ queue s = []
  end.
Proof.
  unfold tick. destruct (blocks_bulk d); [done|].
  destruct (N.eqb_spec (headroom_remaining s) 0); [by auto|].
  destruct (queue s) as [|f q] eqn:Eq; [done|].
  destruct (N.ltb_spec (headroom_remaining s) (frame_len f)); [split; [done|]; split; [done|]; right; eauto|].
  pose proof (coalesce_spec (f :: q) (headroom_remaining s) [] ltac:(rewrite sum_of_nil; lia) ltac:(right; cbn; lia)) as Hc.
  rewrite !sum_of_nil in Hc. destruct (coalesce _ _ _ _ _) as [[fs q'] used].
  destruct Hc as (H1 & H2 & H3 & _ & H5 & H6). cbn [queue headroom_remaining frames].
  split; [done|]. unfold data_bytes. cbn [frames]. split; [|lia].
  cbn [app] in H1.
  assert (Hne : fs <> []).
  { intros ->. cbn [app] in H1. rewrite <- H1 in H6. rewrite sum_of_nil in H6. destruct H6 as [[? _]|?]; [done|]. cbn in *. lia. }
  unfold packs. split; [done|]. split; [done|]. split; [lia|]. split.
  - destruct H5 as [?|?]; [by left|right]. destruct fs as [|? [|? ?]]; cbn in *; [done|done|lia].
  - destruct q'; [done|]. destruct H6 as [[_ ?]|?]; auto.
Qed.

Lemma run_fifo s ops : let '(s', fs) := run s ops in fs ++ queue s' = queue s ++ enqueued ops.
Proof.
  revert s. induction ops as [|[n|f|d] ops IH]; intros s; cbn [run enqueued].
  - by rewrite app_nil_r.
  - apply (IH (set_headroom s n)).
  - specialize (IH (enqueue s f)). destruct (run _ ops) as [s' fs]. rewrite IH. cbn. by rewrite <- app_assoc.
  - pose proof (tick_spec s d) as Ht. destruct (tick s d) as [s1 r]. specialize (IH s1).
    destruct (run s1 ops) as [s' fs]. destruct r as [g| | |]; cbn [sent_by app].
    + destruct Ht as (_ & (Hq & _) & _). rewrite <- app_assoc, IH, Hq. by rewrite app_assoc.
    + destruct Ht as [-> _]. done.
    + destruct Ht as [-> _]. done.
    + destruct Ht as [-> _]. done.
Qed.

Lemma run_budget s ops :
  let '(s', fs) := run s ops in sum_of frame_len fs <= headroom_remaining s + granted ops.
Proof.
  unfold granted. revert s. induction ops as [|[n|f|d] ops IH]; intros s; cbn [run].
  - cbn. lia.
  - specialize (IH (set_headroom s n)). destruct (run _ ops) as [s' fs]. rewrite sum_of_cons.
    cbn [set_headroom headroom_remaining] in IH. lia.
  - specialize (IH (enqueue s f)). destruct (run _ ops) as [s' fs]. rewrite sum_of_cons.
    cbn [enqueue headroom_remaining] in IH. lia.
  - pose proof (tick_spec s d) as Ht. destruct (tick s d) as [s1 r]. specialize (IH s1).
    destruct (run s1 ops) as [s' fs]. rewrite sum_of_app, sum_of_cons.
    destruct r as [g| | |]; cbn [sent_by]; rewrite ?sum_of_nil;
      [destruct Ht as (_ & _ & Hh); unfold data_bytes in Hh; lia
      |destruct Ht as [-> _]; lia|destruct Ht as [-> _]; lia|destruct Ht as [-> _]; lia].
Qed.
End scheduler.

(** ** Properties *)

(** a tick obeys both gates and packs as much as it may: while voice or input
    bytes wait it sends nothing and changes nothing; otherwise what it sends is
    the longest front of the queue that fits the datagram and the headroom (one
    frame, at least, however large), the rest of the queue is untouched and the
    headroom falls by exactly the bytes sent; it holds for headroom only when
    there is none or the front frame exceeds it. *)
Theorem bulk_tick_refines (s : BulkTransferScheduler) (d : PacerDemand) :
  match tick s d with
  | (s', SendAggregated g) =>
      (voice_pending d = 0 /\ input_pending d = 0) /\
      packs (headroom_remaining s) (queue s) (frames g) (queue s') /\
      headroom_remaining s' + data_bytes g = headroom_remaining s
  | (s', HeldForPriority) => s' = s /\ (0 < voice_pending d \/ 0 < input_pending d)
  | (s', HeldForHeadroom) => s' = s /\
      (headroom_remaining s = 0 \/
       exists f q, queue s = f :: q /\ headroom_remaining s < frame_len f)
  | (s', Idle) => s' = s /\ queue s = []
  end.
Proof.
  assert (Hb : if blocks_bulk d then 0 < voice_pending d \/ 0 < input_pending d
               else voice_pending d = 0 /\ input_pending d = 0).
  { unfold blocks_bulk. destruct (N.ltb_spec 0 (voice_pending d)), (N.ltb_spec 0 (input_pending d));
      cbn; lia. }
  pose proof (tick_spec s d) as Ht. destruct (tick s d) as [s' [g| | |]].
  - destruct Ht as (Eb & H1 & H2). rewrite Eb in Hb. done.
  - destruct Ht as (-> & Eb). rewrite Eb in Hb. done.
  - by destruct Ht as (-> & _ & ?).
  - by destruct Ht as (-> & _ & ?).
Qed.

(** over any session (grants, arrivals and ticks under any demand) frames
    leave in the order they were enqueued, none is lost or duplicated, and never
    more bytes leave than the governor granted: unspent headroom is not
    accumulated. *)
Theorem bulk_session_fifo (ops : list Op) :
  let '(s, fs) := run new ops in
  fs ++ queue s = enqueued ops /\ sum_of frame_len fs <= granted ops.
Proof.
  pose proof (run_fifo new ops) as H1. pose proof (run_budget new ops) as H2.
  destruct (run new ops) as [s fs]. split; [done|]. cbn in H2. lia.
Qed.

(** the 1200-byte ceiling does not hold for large frames: a front frame of
    1180 bytes or more, within the headroom, is sent alone in a datagram that
    with its overheads exceeds 1200 bytes. *)
Theorem near_mtu_frame_exceeds_ceiling (f : XferFrame) (q : list XferFrame) (h : N) (d : PacerDemand) :
  blocks_bulk d = false -> 1180 <= frame_len f <= h ->
  let s := {| queue := f :: q; headroom_remaining := h |} in
  exists s' g, tick s d = (s', SendAggregated g) /\ frames g = [f] /\
    1200 < DATAGRAM_OVERHEAD + sum_of slot (frames g).
Proof.
  intros Hd Hf s. pose proof (tick_spec s d) as Ht. unfold tick in *. rewrite Hd in *. cbn [queue headroom_remaining s] in *.
  destruct (N.eqb_spec h 0); [lia|]. destruct (N.ltb_spec h (frame_len f)); [lia|].
  destruct (coalesce _ _ _ _ _) as [[fs q'] used]. destruct Ht as (_ & (Hq & Hne & Hh & Hs & _) & _).
  cbn [frames queue] in *. do 2 eexists. split; [reflexivity|]. cbn [frames].
  destruct fs as [|f' fs]; [done|]. injection Hq as <- _.
  rewrite !sum_of_cons in *. unfold slot at 1 in Hs. unfold slot at 1.
  unfold MAX_DATAGRAM_XFER_BYTES, DATAGRAM_OVERHEAD, FRAME_HEADER_OVERHEAD in *. destruct Hs as [Hs|Hs]; [lia|].
  destruct fs; [|done]. rewrite sum_of_nil in *. split; [done|lia].
Qed.

Lemma near_mtu_frame_exceeds_ceiling_witness :
  let f := mkFrame (repeat Byte.x00 1184) 1 0 in
  exists s' g, tick (mkScheduler [f] 5000) (mkDemand 0 0) = (s', SendAggregated g) /\ frames g = [f] /\
    1200 < DATAGRAM_OVERHEAD + sum_of slot (frames g).
Proof.
  apply (near_mtu_frame_exceeds_ceiling (mkFrame (repeat Byte.x00 1184) 1 0) [] 5000 (mkDemand 0 0));
    [reflexivity|vm_compute; by split].
Defined.
