(* ===== verification/Tier.v ===== *)
(** The governor's quality tier: [tier.rs], [tier_classifier.rs],
    [tier_upgrade_guard.rs] and [tier_downgrade_guard.rs] of [core/platform/src]. *)
From S2P Require Import Prelude.
#[local] Open Scope N_scope.

Inductive TierState := Survival | Constrained | Comfortable | Full.

#[export] Instance tier_eq_dec : EqDecision TierState.
Proof. solve_decision. Defined.

(** The derived [Ord]: the order of the constructors. *)
Definition rank (t : TierState) : N :=
  match t with Survival => 0 | Constrained => 1 | Comfortable => 2 | Full => 3 end.

Definition tier_leb (a b : TierState) : bool := rank a <=? rank b.
Definition tier_ltb (a b : TierState) : bool := rank a <? rank b.
Definition tier_min (a b : TierState) : TierState := if tier_leb a b then a else b.

Definition cpu_ceiling_active (t : TierState) : bool :=
  match t with Constrained | Survival => true | _ => false end.

(** ** The downgrade guard *)
Definition CONSTRAINED_FLOOR_BPS : N := 64000.
Definition COMFORTABLE_FLOOR_BPS : N := 128000.
Definition FULL_FLOOR_BPS : N := 256000.

Definition tier_floor_bps (t : TierState) : option N :=
  match t with
  | Survival => None
  | Constrained => Some CONSTRAINED_FLOOR_BPS
  | Comfortable => Some COMFORTABLE_FLOOR_BPS
  | Full => Some FULL_FLOOR_BPS
  end.

Definition downgrade_trigger_bps (t : TierState) : option N :=
  (fun floor => wrap 32 (floor * 4) / 5) <$> tier_floor_bps t.

Definition tier_step_down (t : TierState) : TierState :=
  match t with
  | Full => Comfortable
  | Comfortable => Constrained
  | Constrained => Survival
  | Survival => Survival
  end.

Definition downgrade_observe (current : TierState) (bwe_bps : N) : TierState :=
  match downgrade_trigger_bps current with
  | None => current
  | Some trigger => if bwe_bps <? trigger then tier_step_down current else current
  end.

(** ** The upgrade guard *)
Definition UPGRADE_HOLD_TICKS : N := 50.

Record TierUpgradeGuard := mkGuard { hold_ticks : N }.

Definition guard_new : TierUpgradeGuard := {| hold_ticks := 0 |}.

Definition tier_step_up (t : TierState) : option TierState :=
  match t with
  | Survival => Some Constrained
  | Constrained => Some Comfortable
  | Comfortable => Some Full
  | Full => None
  end.

Definition upgrade_observe (g : TierUpgradeGuard) (current candidate : TierState) :
    TierUpgradeGuard * TierState :=
  match tier_step_up current with
  | None => ({| hold_ticks := 0 |}, current)
  | Some next =>
      if tier_leb next candidate then
        let hold := wrap 32 (hold_ticks g + 1) in
        if UPGRADE_HOLD_TICKS <=? hold then ({| hold_ticks := 0 |}, next)
        else ({| hold_ticks := hold |}, current)
      else ({| hold_ticks := 0 |}, current)
  end.

(** ** The emitter *)
Definition classify_bwe_tier (bwe_bps : N) : TierState :=
  if FULL_FLOOR_BPS <=? bwe_bps then Full
  else if COMFORTABLE_FLOOR_BPS <=? bwe_bps then Comfortable
  else if CONSTRAINED_FLOOR_BPS <=? bwe_bps then Constrained
  else Survival.

Record GovernorTierEmitter := mkEmitter { upgrade_guard : TierUpgradeGuard }.

Definition new : GovernorTierEmitter := {| upgrade_guard := guard_new |}.

Definition tick (e : GovernorTierEmitter) (current : TierState) (bwe_bps : N) :
    GovernorTierEmitter * TierState :=
  let candidate := classify_bwe_tier bwe_bps in
  let after_downgrade := downgrade_observe current bwe_bps in
  if tier_ltb after_downgrade current
  then ({| upgrade_guard := guard_new |}, after_downgrade)
  else
    let '(g, t) := upgrade_observe (upgrade_guard e) current candidate in
    ({| upgrade_guard := g |}, t).

Definition upgrade_hold_ticks (e : GovernorTierEmitter) : N := hold_ticks (upgrade_guard e).

(** The governor's loop: the emitted tier is the next tick's current one. *)
Fixpoint run (e : GovernorTierEmitter) (t : TierState) (bwes : list N) :
    GovernorTierEmitter * TierState :=
  match bwes with
  | [] => (e, t)
  | b :: bwes => let '(e, t) := tick e t b in run e t bwes
  end.

(** ** The abstract machine

    A tier, and how many of the latest ticks in a row could have carried the
    next one. *)
Inductive transition : (TierState * N) -> N -> (TierState * N) -> Prop :=
| t_down t k b trigger :
    downgrade_trigger_bps t = Some trigger -> b < trigger ->
    transition (t, k) b (tier_step_down t, 0)
| t_hold t k b next floor :
    tier_step_up t = Some next -> tier_floor_bps next = Some floor -> floor <= b -> k < 49 ->
    transition (t, k) b (t, k + 1)
| t_up t b next floor :
    tier_step_up t = Some next -> tier_floor_bps next = Some floor -> floor <= b ->
    transition (t, 49) b (next, 0)
| t_stay t k b :
    match downgrade_trigger_bps t with Some trigger => trigger <= b | None => True end ->
    match tier_step_up t with
    | Some next => match tier_floor_bps next with Some floor => b < floor | None => False end
    | None => True
    end ->
    transition (t, k) b (t, 0).

(** The rate [b] can carry the tier [t]. *)
Definition supports (b : N) (t : TierState) : Prop :=
  match tier_floor_bps t with Some floor => floor <= b | None => True end.

(** ** Lemmas *)
Ltac floors :=
  unfold CONSTRAINED_FLOOR_BPS, COMFORTABLE_FLOOR_BPS, FULL_FLOOR_BPS in *.

Section tiers.
Implicit Types (t : TierState) (b : N).

Definition holds (e : GovernorTierEmitter) : N := hold_ticks (upgrade_guard e).

Lemma trigger_eq t :
  downgrade_trigger_bps t =
  match t with
  | Survival => None | Constrained => Some 51200 | Comfortable => Some 102400 | Full => Some 204800
  end.
Proof. by destruct t. Qed.

(** The classifier finds the highest tier the rate can carry. *)
Lemma classify_supports t b :
  BoolSpec (supports b t) (~ supports b t) (tier_leb t (classify_bwe_tier b)).
Proof.
  destruct (tier_leb t (classify_bwe_tier b)) eqn:H; constructor; revert H;
    unfold tier_leb, classify_bwe_tier, supports, tier_floor_bps; rewrite ?N.leb_le, ?N.leb_gt;
    floors; destruct t; case_ifs; cbn [rank]; intros; try done; lia.
Qed.

Ltac transition :=
  first
    [ match goal with |- transition (?t, ?k) ?b _ =>
        exact (t_down t k b _ (trigger_eq t) ltac:(lia))
      end
    | match goal with |- transition (_, ?k) _ _ =>
        replace k with 49 by lia; eapply t_up; [reflexivity|reflexivity|];
        floors; lia
      end
    | eapply t_hold; [reflexivity|reflexivity| |lia];
      floors; lia
    | apply t_stay; rewrite ?trigger_eq; cbn;
      floors; lia ].

(** One tick is one transition of the abstract machine. *)
Lemma tick_transition e t b :
  holds e < 50 ->
  let '(e', t') := tick e t b in
  holds e' < 50 /\ transition (t, holds e) b (t', holds e').
Proof.
  intros Hh. destruct e as [[k]]. unfold holds in *. cbn [upgrade_guard hold_ticks] in *.
  unfold tick, downgrade_observe, upgrade_observe, tier_ltb, UPGRADE_HOLD_TICKS.
  rewrite trigger_eq. cbn [upgrade_guard hold_ticks].
  rewrite (wrap_small 32 (k + 1)) by lia.
  destruct t; cbn [tier_step_up tier_step_down];
    repeat match goal with
    | |- context [tier_leb ?s (classify_bwe_tier b)] =>
        destruct (classify_supports s b)
    | |- context [if ?x then _ else _] =>
        lazymatch x with context [if _ then _ else _] => fail | _ => destruct x eqn:? end
    end; reflectN; cbn [rank] in *; cbn [upgrade_guard hold_ticks guard_new]; try (exfalso; lia);
    unfold supports in *; cbn [tier_floor_bps] in *; floors;
    (split; [lia|]); transition.
Qed.
End tiers.

(** The samples that gave a tier its chance: [k] of them in a row, the latest
    ones of [bs], could carry the tier above [t]. *)
Definition recent_support (bs : list N) (k : N) (t : TierState) : Prop :=
  exists old recent, bs = old ++ recent /\ N.of_nat (length recent) = k /\
    match tier_step_up t with
    | Some next => Forall (fun b => supports b next) recent
    | None => recent = []
    end.

Section runs.
Implicit Types (t : TierState) (b : N) (bs : list N).

Lemma tier_run_app e t bs cs :
  run e t (bs ++ cs) = let '(e', t') := run e t bs in run e' t' cs.
Proof.
  revert e t. induction bs as [|b bs IH]; intros e t; [done|]. cbn.
  destruct (tick e t b) as [e' t']. apply IH.
Qed.

Lemma transition_support t k b t' k' bs :
  transition (t, k) b (t', k') -> recent_support bs k t ->
  recent_support (bs ++ [b]) k' t'.
Proof.
  intros Htr (old & recent & -> & Hlen & Hrec).
  assert (forall s, recent_support ((old ++ recent) ++ [b]) 0 s) as Hnil.
  { intros s. exists ((old ++ recent) ++ [b]), []. rewrite app_nil_r.
    split; [done|]. split; [done|]. destruct (tier_step_up s); [constructor|done]. }
  inversion Htr; subst; try apply Hnil.
  exists old, (recent ++ [b]). rewrite app_assoc. split; [done|].
  split; [rewrite length_app; cbn [length]; lia|].
  match goal with H : tier_step_up _ = Some _ |- _ => rewrite H in * end.
  apply Forall_app. split; [done|]. constructor; [|constructor].
  unfold supports. by simplify_option_eq.
Qed.

Lemma run_support t bs :
  let '(e', t') := run new t bs in
  holds e' < 50 /\ recent_support bs (holds e') t'.
Proof.
  induction bs as [|b bs IH] using rev_ind.
  { cbn. split; [lia|]. exists [], []. split; [done|]. split; [done|].
    by destruct t; cbn. }
  rewrite tier_run_app. destruct (run new t bs) as [e1 t1]. cbn [run].
  destruct IH as [Hh Hr]. pose proof (tick_transition e1 t1 b Hh) as Ht.
  destruct (tick e1 t1 b) as [e2 t2]. destruct Ht as [Hh2 Htr].
  split; [done|]. by eapply transition_support.
Qed.
End runs.

(** ** A constant rate

    The ticks only compare the rate with six thresholds, so a rate behaves as
    the largest threshold it reaches. *)
Definition representative (b : N) : N :=
  if 256000 <=? b then 256000 else if 204800 <=? b then 204800
  else if 128000 <=? b then 128000 else if 102400 <=? b then 102400
  else if 64000 <=? b then 64000 else if 51200 <=? b then 51200 else 0.

(** No downgrade and no upgrade in sight at rate [b]: the dead band of [t]. *)
Definition settled (b : N) (t : TierState) : bool :=
  match downgrade_trigger_bps t with Some trigger => trigger <=? b | None => true end &&
  match tier_step_up t with
  | Some next => match tier_floor_bps next with Some floor => b <? floor | None => false end
  | None => true
  end.

Definition emitter_at (k : N) : GovernorTierEmitter := {| upgrade_guard := {| hold_ticks := k |} |}.

Section constant.
Implicit Types (t : TierState) (b : N).

Lemma tick_representative e t b : tick e t b = tick e t (representative b).
Proof.
  unfold tick, downgrade_observe, classify_bwe_tier. rewrite !trigger_eq. floors.
  assert (forall c, In c [51200; 64000; 102400; 128000; 204800; 256000] ->
    (c <=? representative b) = (c <=? b)) as Hle.
  { intros c Hc. unfold representative. cbn in Hc.
    destruct_or! Hc; subst c; case_ifs; apply Bool.eq_iff_eq_true; rewrite !N.leb_le; lia. }
  rewrite !Hle by (cbn; tauto).
  destruct t; rewrite ?N.ltb_antisym, ?Hle by (cbn; tauto); done.
Qed.

Lemma run_representative e t b n :
  run e t (replicate n b) = run e t (replicate n (representative b)).
Proof.
  revert e t. induction n as [|n IH]; intros e t; [done|]. cbn.
  rewrite <- tick_representative. destruct (tick e t b). apply IH.
Qed.

Lemma settled_representative b t : settled (representative b) t = settled b t.
Proof.
  unfold settled, representative, tier_floor_bps. rewrite trigger_eq. floors.
  destruct t; cbn [tier_step_up]; case_ifs; apply Bool.eq_iff_eq_true;
    rewrite ?andb_true_iff, ?N.leb_le, ?N.ltb_lt; lia.
Qed.

(** Every tier at every representative rate, from a fresh guard. *)
Lemma settles_computed :
  forallb (fun b => forallb (fun t =>
      let '(e', t') := run new t (replicate 150 b) in
      (hold_ticks (upgrade_guard e') =? 0) && settled b t')
    [Survival; Constrained; Comfortable; Full])
    [0; 51200; 64000; 102400; 128000; 204800; 256000] = true.
Proof. vm_compute. reflexivity. Qed.

Lemma representative_In b :
  In (representative b) [0; 51200; 64000; 102400; 128000; 204800; 256000].
Proof. unfold representative. case_ifs; cbn; tauto. Qed.

Lemma settled_tick t b : settled b t = true -> tick new t b = (new, t).
Proof.
  unfold settled, tick, downgrade_observe, upgrade_observe, tier_ltb. rewrite trigger_eq.
  rewrite andb_true_iff. intros [Hd Hu].
  destruct t; cbn [tier_step_up tier_floor_bps] in *; rewrite ?N.ltb_antisym;
    try rewrite Hd; cbn [negb rank]; try reflexivity;
    apply N.ltb_lt in Hu;
    match goal with |- context [tier_leb ?s (classify_bwe_tier b)] =>
      destruct (classify_supports s b) as [Hs|Hs]
    end; try reflexivity; unfold supports in Hs; cbn [tier_floor_bps] in Hs; lia.
Qed.

Lemma settled_run t b n : settled b t = true -> run new t (replicate n b) = (new, t).
Proof.
  intros Hs. induction n as [|n IH]; [done|]. cbn. by rewrite (settled_tick t b Hs).
Qed.
(** The hold counter only matters on a tick that holds, and then a fresh guard
    reaches it by ticking. *)
Lemma tick_hold t b k :
  k < 50 ->
  tick (emitter_at k) t b = tick new t b \/
  forall j, N.of_nat j <= k -> run new t (replicate j b) = (emitter_at (N.of_nat j), t).
Proof.
  intros Hk. unfold tick. destruct (tier_ltb (downgrade_observe t b) t) eqn:Hd; [by left|].
  unfold upgrade_observe. destruct (tier_step_up t) as [next|] eqn:Hu; [|by left].
  destruct (tier_leb next (classify_bwe_tier b)) eqn:Hc; [|by left].
  right. induction j as [|j IH]; intros Hj; [done|].
  replace (S j) with (j + 1)%nat by lia. rewrite replicate_add, tier_run_app, IH by lia.
  cbn. unfold tick. rewrite Hd. unfold upgrade_observe, UPGRADE_HOLD_TICKS. rewrite Hu, Hc. cbn.
  rewrite wrap_small by lia. rewrite (proj2 (N.leb_gt _ _)) by lia.
  unfold emitter_at. do 4 f_equal. lia.
Qed.

Lemma settles_150 e t b n :
  holds e < 50 ->
  exists t', settled b t' = true /\ run e t (replicate (150 + n) b) = (new, t').
Proof.
  intros Hh.
  assert (exists t', settled b t' = true /\ forall m, run new t (replicate (150 + m) b) = (new, t'))
    as (t' & Hs & Hnew).
  { pose proof settles_computed as H. rewrite forallb_forall in H.
    specialize (H _ (representative_In b)).
    rewrite forallb_forall in H. specialize (H t ltac:(destruct t; cbn; tauto)).
    rewrite <- run_representative in H. destruct (run new t (replicate 150 b)) as [[[k]] t'] eqn:Hr.
    cbn in H. apply andb_true_iff in H as [->%N.eqb_eq Hs].
    rewrite settled_representative in Hs. exists t'. split; [done|]. intros m.
    rewrite replicate_add, tier_run_app, Hr. by apply settled_run. }
  exists t'. split; [done|]. destruct e as [[k]]. unfold holds in Hh. cbn in Hh.
  destruct (tick_hold t b k Hh) as [Ht|Hj].
  - specialize (Hnew n). cbn in *. change {| upgrade_guard := {| hold_ticks := k |} |} with (emitter_at k).
    by rewrite Ht.
  - specialize (Hj (N.to_nat k) ltac:(lia)). rewrite N2Nat.id in Hj.
    specialize (Hnew (N.to_nat k + n)%nat).
    replace (150 + (N.to_nat k + n))%nat with (N.to_nat k + (150 + n))%nat in Hnew by lia.
    rewrite replicate_add, tier_run_app, Hj in Hnew. exact Hnew.
Qed.
End constant.

(** * Properties *)

(** C21: The tier emitter implements the abstract machine: from a fresh emitter,
    after any sequence of bandwidth estimates, one more tick is exactly one
    transition of a machine whose state is the tier and the number of
    consecutive ticks that could have carried the next tier (one step down
    below 4/5 of the tier's floor, one step up on the fiftieth supporting tick,
    otherwise hold). *)
Theorem tick_refines_hysteresis (t : TierState) (bs : list N) (b : N) :
  let '(e, s) := run new t bs in
  let '(e', s') := tick e s b in
  upgrade_hold_ticks e < 50 /\
  transition (s, upgrade_hold_ticks e) b (s', upgrade_hold_ticks e').
Proof.
  pose proof (run_support t bs) as Hr. destruct (run new t bs) as [e s].
  destruct Hr as [Hh _]. pose proof (tick_transition e s b Hh) as Ht.
  destruct (tick e s b) as [e' s']. split; [done|apply Ht].
Qed.

(** A tier is gained only after five seconds of evidence: whenever a tick
    raises the tier, it raises it by one step, and the fifty latest estimates
    each reach the floor of the new tier. *)
Theorem upgrade_needs_five_seconds (t : TierState) (bs : list N) (b : N) e s e' s'
    (Hrun : run new t bs = (e, s)) (Htick : tick e s b = (e', s')) (Hup : rank s < rank s') :
  tier_step_up s = Some s' /\
  exists old recent, bs ++ [b] = old ++ recent /\ length recent = 50%nat /\
    Forall (fun c => supports c s') recent.
Proof.
  pose proof (run_support t bs) as Hr. rewrite Hrun in Hr. destruct Hr as [Hh Hr].
  pose proof (tick_transition e s b Hh) as Ht. rewrite Htick in Ht. destruct Ht as [_ Ht].
  destruct Hr as (old & recent & -> & Hlen & Hrec).
  inversion Ht; subst; try lia.
  { destruct s; cbn in Hup; lia. }
  split; [done|]. exists old, (recent ++ [b]). rewrite app_assoc. split; [done|].
  split; [rewrite length_app; cbn [length]; lia|].
  match goal with H : tier_step_up _ = Some _ |- _ => rewrite H in * end.
  apply Forall_app. split; [done|]. constructor; [|constructor].
  unfold supports. by simplify_option_eq.
Qed.

Lemma upgrade_needs_five_seconds_witness :
  tier_step_up Constrained = Some Comfortable /\
  exists old recent, replicate 49 130000 ++ [140000] = old ++ recent /\
    length recent = 50%nat /\ Forall (fun c => supports c Comfortable) recent.
Proof.
  apply (upgrade_needs_five_seconds Constrained (replicate 49 130000) 140000
           (emitter_at 49) Constrained new Comfortable);
    [vm_compute; reflexivity|vm_compute; reflexivity|vm_compute; reflexivity].
Defined.

(** C36: The governor does not oscillate: under a constant bandwidth estimate, from
    any tier and any hold counter, at most 150 ticks (fifteen seconds) bring it
    to a tier in whose dead band the estimate lies, and no later tick changes
    the tier again. *)
Theorem constant_rate_settles (e : GovernorTierEmitter) (t : TierState) (b : N) (n : nat)
    (Hhold : upgrade_hold_ticks e < UPGRADE_HOLD_TICKS) :
  exists t', settled b t' = true /\ run e t (replicate (150 + n) b) = (new, t').
Proof. by apply settles_150. Qed.

Lemma constant_rate_settles_witness :
  exists t', settled 130000 t' = true /\ run new Survival (replicate (150 + 7) 130000) = (new, t').
Proof. apply (constant_rate_settles new Survival 130000 7). vm_compute. reflexivity. Defined.
