(* ===== verification/Gears.v ===== *)
(** The governor's budgets and gears: [gear_policy.rs], [thermal.rs],
    [tier_gears.rs], [governor_load_shed.rs], [neural_vocoder.rs] and
    [opus_encoder.rs] of [core/platform/src], and [core/nn/src/head_gear_gate.rs]. *)
From S2P Require Import Prelude F64 Tier.
#[local] Open Scope N_scope.

Inductive ThermalPressure := Nominal | Fair | Serious | Critical.

Definition pressure_rank (p : ThermalPressure) : N :=
  match p with Nominal => 0 | Fair => 1 | Serious => 2 | Critical => 3 end.

Definition is_elevated (p : ThermalPressure) : bool := pressure_rank Nominal <? pressure_rank p.

(** ** Presets, resolution, camera gears *)
Definition CPU_PRESET10_THRESHOLD_PCT : f64 := f_of_Z 50.
Definition CPU_PRESET11_THRESHOLD_PCT : f64 := f_of_Z 75.

Definition gear_b_preset_from_cpu_pct (cpu_pct : f64) : N :=
  if (cpu_pct <? CPU_PRESET10_THRESHOLD_PCT)%f64 then 10
  else if (cpu_pct <? CPU_PRESET11_THRESHOLD_PCT)%f64 then 11
  else 12.

Definition GEAR_B_TARGET_FPS : N := 30.
Definition ROI_FACE_DELTA_QP : Z := -3.

Definition gear_b_per_frame_byte_cap (camera_bps fps : N) : N :=
  if fps =? 0 then 0 else wrap 32 (camera_bps * 2) / wrap 32 (8 * fps).

Definition AUDIO_FLOOR_BPS : N := 6000.

Record DisplayResolution := { width : N; height : N }.

Definition SCREEN_UPGRADE_BPS : N := 10000.

Definition RESOLUTION_LADDER : list (DisplayResolution * N) :=
  [({| width := 640; height := 360 |}, 0);
   ({| width := 848; height := 480 |}, SCREEN_UPGRADE_BPS)].

(** [None] is the [expect] that panics. *)
Definition select_resolution (screen_coarse_bps : N) : option DisplayResolution :=
  fst <$> List.find (fun rung => snd rung <=? screen_coarse_bps) (reverse RESOLUTION_LADDER).

Inductive Av1EncodeCapability := Capable | Legacy.

Inductive CameraGear := GearA | GearB (svt_preset : N) | GearC | Off.

#[export] Instance camera_gear_eq_dec : EqDecision CameraGear.
Proof. solve_decision. Defined.

Definition is_neural (g : CameraGear) : bool := match g with GearA => true | _ => false end.

(** ** The head gear gate *)
Definition CPU_HEADROOM_THRESHOLD_PCT : f64 := f_of_Z 50.

Inductive HeadGearCapability := Available | Rejected.

Definition head_gear_available (has_npu : bool) (cpu_usage_pct : f64) : HeadGearCapability :=
  if has_npu || (cpu_usage_pct <? CPU_HEADROOM_THRESHOLD_PCT)%f64 then Available else Rejected.

(** ** Constraints *)
Record GearConstraints := mkConstraints {
  max_camera_gear : CameraGear;
  screen_refinement_allowed : bool;
  audio_floor_bps : N;
  thermal_level : ThermalPressure;
  av1_encode : Av1EncodeCapability }.

Definition legacy_gear (av1_cap : Av1EncodeCapability) (g : CameraGear) : CameraGear :=
  match av1_cap, g with
  | Legacy, (GearA | GearB _) => GearC
  | _, other => other
  end.

Definition from_thermal_with_capability (pressure : ThermalPressure)
    (av1_cap : Av1EncodeCapability) : GearConstraints :=
  let '(gear, refinement) :=
    match pressure with
    | Nominal => (GearA, true)
    | Fair => (GearB 11, true)
    | Serious => (GearB 12, false)
    | Critical => (Off, false)
    end in
  {| max_camera_gear := legacy_gear av1_cap gear; screen_refinement_allowed := refinement;
     audio_floor_bps := AUDIO_FLOOR_BPS; thermal_level := pressure; av1_encode := av1_cap |}.

Definition from_thermal (pressure : ThermalPressure) : GearConstraints :=
  from_thermal_with_capability pressure Capable.

Definition from_thermal_with_capability_and_cpu (pressure : ThermalPressure)
    (av1_cap : Av1EncodeCapability) (cpu_usage_pct : f64) : GearConstraints :=
  let '(gear, refinement) :=
    match pressure with
    | Nominal => (GearA, true)
    | Fair => (GearB (gear_b_preset_from_cpu_pct cpu_usage_pct), true)
    | Serious => (GearB 12, false)
    | Critical => (Off, false)
    end in
  {| max_camera_gear := legacy_gear av1_cap gear; screen_refinement_allowed := refinement;
     audio_floor_bps := AUDIO_FLOOR_BPS; thermal_level := pressure; av1_encode := av1_cap |}.

Definition from_thermal_with_capability_cpu_and_npu (pressure : ThermalPressure)
    (av1_cap : Av1EncodeCapability) (cpu_usage_pct : f64) (has_npu : bool) : GearConstraints :=
  let constraints := from_thermal_with_capability_and_cpu pressure av1_cap cpu_usage_pct in
  match max_camera_gear constraints, head_gear_available has_npu cpu_usage_pct with
  | GearA, Rejected =>
      {| max_camera_gear := GearB (gear_b_preset_from_cpu_pct cpu_usage_pct);
         screen_refinement_allowed := screen_refinement_allowed constraints;
         audio_floor_bps := audio_floor_bps constraints;
         thermal_level := thermal_level constraints; av1_encode := av1_encode constraints |}
  | _, _ => constraints
  end.

Definition neural_camera_allowed (c : GearConstraints) : bool :=
  bool_decide (max_camera_gear c = GearA).
Definition camera_allowed (c : GearConstraints) : bool :=
  negb (bool_decide (max_camera_gear c = Off)).

(** ** The allocator *)
Record StreamBudgets := mkBudgets {
  audio_bps : N; input_bps : N; screen_coarse_bps : N; camera_bps : N;
  screen_refinement_bps : N; xfer_bps : N;
  display_resolution : option DisplayResolution;
  per_frame_byte_cap : N; roi_delta_qp : Z }.

Definition INPUT_FLOOR_BPS : N := 3000.

(** [saturating_sub] is the subtraction of [N]. *)
Definition allocate (total_bps : N) (constraints : GearConstraints) : StreamBudgets :=
  let remaining := total_bps in
  let audio := N.max (N.min remaining 24000) (audio_floor_bps constraints) in
  let remaining := remaining - audio in
  let input := N.max (N.min remaining 8000) (N.min INPUT_FLOOR_BPS remaining) in
  let remaining := remaining - input in
  let coarse := N.min remaining 20000 in
  let remaining := remaining - coarse in
  let camera := if camera_allowed constraints then N.min remaining 300000 else 0 in
  let remaining := remaining - camera in
  let refinement :=
    if screen_refinement_allowed constraints then N.min remaining 50000 else 0 in
  let remaining := remaining - refinement in
  let cap :=
    match max_camera_gear constraints with
    | GearB _ => gear_b_per_frame_byte_cap camera GEAR_B_TARGET_FPS
    | _ => 0
    end in
  let roi := match max_camera_gear constraints with GearB _ => ROI_FACE_DELTA_QP | _ => 0%Z end in
  {| audio_bps := audio; input_bps := input; screen_coarse_bps := coarse; camera_bps := camera;
     screen_refinement_bps := refinement; xfer_bps := remaining;
     display_resolution := select_resolution coarse;
     per_frame_byte_cap := cap; roi_delta_qp := roi |}.

(** ** Load shedding *)
Definition bulk_xfer_headroom_bps (tier : TierState) (proposed_bps : N) : N :=
  match tier with Survival => 0 | _ => proposed_bps end.

Definition bulk_xfer_frozen (tier : TierState) : bool := bool_decide (tier = Survival).

(** ** Codec gears *)
Definition NEURAL_VOCODER_LO_BPS : N := 3200.
Definition NEURAL_VOCODER_HI_BPS : N := 6000.

Inductive NpuCapability := Present | Absent.
Inductive AudioGear := NeuralVocoder (target_bps : N) | OpusSilk.

Definition audio_gear_from_tier_and_npu (tier : TierState) (npu : NpuCapability) : AudioGear :=
  match tier, npu with
  | Survival, Present => NeuralVocoder NEURAL_VOCODER_HI_BPS
  | _, _ => OpusSilk
  end.

Definition SURVIVAL_FALLBACK_AUDIO_BPS : N := 9000.
Definition CONSTRAINED_AUDIO_BPS : N := 16000.
Definition COMFORTABLE_AUDIO_BPS : N := 24000.
Definition FULL_AUDIO_BPS : N := 32000.

Inductive OpusMode := SilkWb | SilkHybridWb | HybridSwb | CeltFb.
Record OpusTierSettings := { mode : OpusMode; target_bps : N }.

Definition constrained_tier_settings : OpusTierSettings :=
  {| mode := SilkHybridWb; target_bps := CONSTRAINED_AUDIO_BPS |}.

Definition opus_settings_from_tier (tier : TierState) : OpusTierSettings :=
  match tier with
  | Survival => {| mode := SilkWb; target_bps := SURVIVAL_FALLBACK_AUDIO_BPS |}
  | Constrained => constrained_tier_settings
  | Comfortable => {| mode := HybridSwb; target_bps := COMFORTABLE_AUDIO_BPS |}
  | Full => {| mode := CeltFb; target_bps := FULL_AUDIO_BPS |}
  end.

Record TierCodecGears := mkCodecGears {
  audio_gear : AudioGear; opus_settings : option OpusTierSettings; camera_gear : CameraGear;
  screen_refinement_enabled : bool; g_display_resolution : option DisplayResolution;
  g_per_frame_byte_cap : N; g_roi_delta_qp : Z }.

Definition select_codec_gears (tier : TierState) (budgets : StreamBudgets)
    (constraints : GearConstraints) (npu : NpuCapability) : TierCodecGears :=
  let audio := audio_gear_from_tier_and_npu tier npu in
  {| audio_gear := audio;
     opus_settings :=
       match audio with
       | OpusSilk => Some (opus_settings_from_tier tier)
       | NeuralVocoder _ => None
       end;
     camera_gear := if camera_bps budgets =? 0 then Off else max_camera_gear constraints;
     screen_refinement_enabled :=
       screen_refinement_allowed constraints && (0 <? screen_refinement_bps budgets);
     g_display_resolution := display_resolution budgets;
     g_per_frame_byte_cap := per_frame_byte_cap budgets;
     g_roi_delta_qp := roi_delta_qp budgets |}.

(** ** Specification

    Funding by strict priority: each stream in turn takes what is left, up to
    its ceiling. *)
Fixpoint fill (budget : N) (ceilings : list N) : list N * N :=
  match ceilings with
  | [] => ([], budget)
  | c :: ceilings =>
      let '(grants, rest) := fill (budget - N.min budget c) ceilings in
      (N.min budget c :: grants, rest)
  end.

Definition ceilings (c : GearConstraints) : list N :=
  [24000; 8000; 20000; if camera_allowed c then 300000 else 0;
   if screen_refinement_allowed c then 50000 else 0].

Definition grants (b : StreamBudgets) : list N :=
  [audio_bps b; input_bps b; screen_coarse_bps b; camera_bps b; screen_refinement_bps b].

(** Heavier gears rank higher; a slower preset is heavier. *)
Definition gear_rank (g : CameraGear) : N :=
  match g with Off => 0 | GearC => 1 | GearB preset => 2 + (12 - preset) | GearA => 5 end.

(** ** Lemmas *)
Section filling.
Implicit Types (b : N) (cs : list N).

Lemma fill_sum b cs : sum_of id (fst (fill b cs)) + snd (fill b cs) = b.
Proof.
  revert b. induction cs as [|c cs IH]; intros b; [done|]. cbn.
  specialize (IH (b - N.min b c)). destruct (fill _ cs) as [gs rest]. cbn in *. lia.
Qed.

Lemma fill_mono b b' cs :
  b <= b' -> Forall2 N.le (fst (fill b cs)) (fst (fill b' cs)) /\ snd (fill b cs) <= snd (fill b' cs).
Proof.
  revert b b'. induction cs as [|c cs IH]; intros b b' Hb; [by split|]. cbn.
  destruct (IH (b - N.min b c) (b' - N.min b' c)) as [Hg Hr]; [lia|].
  destruct (fill (b - _) cs), (fill (b' - _) cs). cbn in *.
  split; [constructor; [lia|done]|done].
Qed.

(** Strict priority: what is left over, or granted further down, is left over
    only once the earlier ceilings are reached. *)
Lemma fill_priority b pre c cs :
  let '(gs, rest) := fill b (pre ++ c :: cs) in
  0 < sum_of id (drop (S (length pre)) gs) + rest ->
  take (S (length pre)) gs = pre ++ [c].
Proof.
  revert b. induction pre as [|d pre IH]; intros b; cbn.
  - pose proof (fill_sum (b - N.min b c) cs) as Hs.
    destruct (fill _ cs) as [gs rest]. cbn in *. rewrite drop_0, take_0. intros. f_equal. lia.
  - specialize (IH (b - N.min b d)).
    pose proof (fill_sum (b - N.min b d) (pre ++ c :: cs)) as Hs.
    destruct (fill _ (pre ++ c :: cs)) as [gs rest]. cbn in *. intros H.
    rewrite (IH H). f_equal.
    assert (sum_of id (drop (S (length pre)) gs) <= sum_of id gs) as Hd.
    { rewrite <- (take_drop (S (length pre)) gs) at 2. rewrite sum_of_app. lia. }
    unfold sum_of, id in *. lia.
Qed.

Lemma allocate_fill total c :
  audio_floor_bps c = AUDIO_FLOOR_BPS ->
  (grants (allocate total c), xfer_bps (allocate total c)) =
    fill (N.max total AUDIO_FLOOR_BPS) (ceilings c).
Proof.
  intros Hf.
  assert (N.max (N.min total 24000) AUDIO_FLOOR_BPS = N.min (N.max total AUDIO_FLOOR_BPS) 24000)
    as Ha by (unfold AUDIO_FLOOR_BPS; lia).
  assert (forall r, N.max (N.min r 8000) (N.min INPUT_FLOOR_BPS r) = N.min r 8000) as Hi
    by (unfold INPUT_FLOOR_BPS; lia).
  assert (total - N.min (N.max total AUDIO_FLOOR_BPS) 24000 =
    N.max total AUDIO_FLOOR_BPS - N.min (N.max total AUDIO_FLOOR_BPS) 24000) as Hr
    by (unfold AUDIO_FLOOR_BPS; lia).
  unfold allocate, grants, ceilings. rewrite Hf, Ha, Hr, Hi.
  cbn [fill audio_bps input_bps screen_coarse_bps camera_bps screen_refinement_bps xfer_bps].
  destruct (camera_allowed c), (screen_refinement_allowed c); by rewrite ?N.min_0_r.
Qed.

Lemma allocate_mono total total' c :
  audio_floor_bps c = AUDIO_FLOOR_BPS -> total <= total' ->
  Forall2 N.le (grants (allocate total c)) (grants (allocate total' c)) /\
  xfer_bps (allocate total c) <= xfer_bps (allocate total' c).
Proof.
  intros Hf Ht. pose proof (fill_mono (N.max total AUDIO_FLOOR_BPS)
    (N.max total' AUDIO_FLOOR_BPS) (ceilings c) ltac:(lia)) as H.
  by rewrite <- !allocate_fill in H.
Qed.

Lemma governed_floor p cap cpu npu :
  audio_floor_bps (from_thermal_with_capability_cpu_and_npu p cap cpu npu) = AUDIO_FLOOR_BPS.
Proof.
  unfold from_thermal_with_capability_cpu_and_npu.
  destruct p, cap; cbn; try done; by destruct (head_gear_available npu cpu).
Qed.

Lemma from_thermal_floor p : audio_floor_bps (from_thermal p) = AUDIO_FLOOR_BPS.
Proof. by destruct p. Qed.

Lemma preset_range cpu : 10 <= gear_b_preset_from_cpu_pct cpu <= 12.
Proof. unfold gear_b_preset_from_cpu_pct. case_ifs; lia. Qed.

Lemma rejected_preset npu cpu :
  head_gear_available npu cpu = Rejected -> 11 <= gear_b_preset_from_cpu_pct cpu.
Proof.
  unfold head_gear_available, gear_b_preset_from_cpu_pct, CPU_HEADROOM_THRESHOLD_PCT,
    CPU_PRESET10_THRESHOLD_PCT.
  destruct npu; cbn; [done|]. destruct (_ <? _)%f64; [done|]. destruct (_ <? _)%f64; lia.
Qed.

Lemma camera_bps_le total c : camera_bps (allocate total c) <= 300000.
Proof. cbn. destruct (camera_allowed c); lia. Qed.
End filling.

(** * Properties *)

(** C20: The allocator is funding by strict priority: audio, input, screen coarse,
    camera and refinement are each granted what is left up to their ceiling, and
    file transfer the rest, out of the larger of the estimate and the audio
    floor.  So the grants add up to exactly that amount, audio never falls below
    6 kbit/s, a stream is funded only when every stream before it has reached
    its ceiling, and a larger estimate takes nothing from any stream. *)
Theorem allocate_by_priority (total total' : N) (c : GearConstraints)
    (Hfloor : audio_floor_bps c = AUDIO_FLOOR_BPS) (Hle : total <= total') :
  let b := allocate total c in
  (grants b, xfer_bps b) = fill (N.max total AUDIO_FLOOR_BPS) (ceilings c) /\
  sum_of id (grants b) + xfer_bps b = N.max total AUDIO_FLOOR_BPS /\
  AUDIO_FLOOR_BPS <= audio_bps b /\
  (forall k, (k < 5)%nat -> 0 < sum_of id (drop (S k) (grants b)) + xfer_bps b ->
     take (S k) (grants b) = take (S k) (ceilings c)) /\
  Forall2 N.le (grants b) (grants (allocate total' c)) /\
  xfer_bps b <= xfer_bps (allocate total' c).
Proof.
  intros b. pose proof (allocate_fill total c Hfloor) as Hfill. fold b in Hfill.
  split; [done|]. split.
  { pose proof (fill_sum (N.max total AUDIO_FLOOR_BPS) (ceilings c)) as Hs.
    by rewrite <- Hfill in Hs. }
  split; [subst b; cbn; rewrite Hfloor; lia|]. split; [|by apply allocate_mono].
  intros k Hk Hpos.
  assert (exists pre d cs, ceilings c = pre ++ d :: cs /\ length pre = k) as
    (pre & d & cs & Hc & Hlen).
  { destruct (lookup_lt_is_Some_2 (ceilings c) k) as [d Hd]; [cbn; lia|].
    exists (take k (ceilings c)), d, (drop (S k) (ceilings c)).
    split; [by rewrite take_drop_middle|]. rewrite length_take. cbn. lia. }
  pose proof (fill_priority (N.max total AUDIO_FLOOR_BPS) pre d cs) as Hp.
  rewrite <- Hc, <- Hfill, Hlen in Hp. rewrite (Hp Hpos), Hc.
  change (d :: cs) with ([d] ++ cs). rewrite app_assoc, take_app_length'; [done|].
  rewrite length_app. cbn. lia.
Qed.

Lemma allocate_by_priority_witness :
  sum_of id (grants (allocate 100000 (from_thermal Serious))) +
  xfer_bps (allocate 100000 (from_thermal Serious)) = 100000.
Proof.
  destruct (allocate_by_priority 100000 200000 (from_thermal Serious)) as (_ & H & _);
    [reflexivity|lia|exact H].
Defined.

(** Heat only sheds load: with the same estimate, processor and accelerator, a
    higher thermal pressure never permits a heavier camera gear, never grants
    the camera or the refinement passes more, and leaves voice, input and the
    coarse screen lane exactly as they were. *)
Theorem heat_sheds_in_order (p p' : ThermalPressure) (cap : Av1EncodeCapability) (cpu : f64)
    (npu : bool) (total : N) (Hp : pressure_rank p <= pressure_rank p') :
  let c := from_thermal_with_capability_cpu_and_npu p cap cpu npu in
  let c' := from_thermal_with_capability_cpu_and_npu p' cap cpu npu in
  let b := allocate total c in let b' := allocate total c' in
  gear_rank (max_camera_gear c') <= gear_rank (max_camera_gear c) /\
  camera_bps b' <= camera_bps b /\ screen_refinement_bps b' <= screen_refinement_bps b /\
  audio_bps b' = audio_bps b /\ input_bps b' = input_bps b /\
  screen_coarse_bps b' = screen_coarse_bps b.
Proof.
  pose proof (preset_range cpu) as Hr. pose proof (rejected_preset npu cpu) as Hj.
  intros c c' b b'. subst b b'. unfold allocate; cbn. unfold c, c'. rewrite !governed_floor.
  unfold from_thermal_with_capability_cpu_and_npu.
  destruct p, p'; cbn in Hp; try lia; destruct cap;
    cbn [from_thermal_with_capability_and_cpu max_camera_gear legacy_gear];
    try destruct (head_gear_available npu cpu);
    unfold camera_allowed;
    cbn [max_camera_gear screen_refinement_allowed gear_rank];
    rewrite ?bool_decide_eq_false_2 by done; rewrite ?bool_decide_eq_true_2 by done; cbn [negb];
    try specialize (Hj eq_refl);
    (split; [lia|]; split; [lia|]; split; [lia|]; split; [done|]; split; done).
Qed.

Lemma heat_sheds_in_order_witness :
  gear_rank (max_camera_gear
    (from_thermal_with_capability_cpu_and_npu Serious Capable (f_of_Z 40) false)) <=
  gear_rank (max_camera_gear
    (from_thermal_with_capability_cpu_and_npu Fair Capable (f_of_Z 40) false)).
Proof.
  exact (proj1 (heat_sheds_in_order Fair Serious Capable (f_of_Z 40) false 90000
    ltac:(vm_compute; discriminate))).
Defined.

(** The gears handed to the encoders agree with the budgets: the camera is off
    exactly when it has no bits, refinement runs exactly when it has some, Opus
    has settings exactly when the neural vocoder is not in use, and only Gear B
    has a frame ceiling, whose thirty frames a second stay within twice the
    camera's rate. *)
Theorem codec_gears_agree (tier : TierState) (total : N) (c : GearConstraints)
    (npu : NpuCapability) :
  let b := allocate total c in
  let g := select_codec_gears tier b c npu in
  (camera_gear g = Off <-> camera_bps b = 0) /\
  (screen_refinement_enabled g = true <-> 0 < screen_refinement_bps b) /\
  (opus_settings g = None <-> tier = Survival /\ npu = Present) /\
  (0 < g_per_frame_byte_cap g -> exists preset, camera_gear g = GearB preset) /\
  8 * 30 * g_per_frame_byte_cap g <= 2 * camera_bps b.
Proof.
  intros b g. pose proof (camera_bps_le total c) as Hle. fold b in Hle.
  assert (Hcap : per_frame_byte_cap b =
    match max_camera_gear c with GearB _ => camera_bps b * 2 / 240 | _ => 0 end).
  { subst b. unfold allocate, gear_b_per_frame_byte_cap, GEAR_B_TARGET_FPS.
    cbn [per_frame_byte_cap camera_bps]. destruct (max_camera_gear c); try done.
    rewrite wrap_small; [done|]. destruct (camera_allowed c); lia. }
  assert (Hoff : max_camera_gear c = Off -> camera_bps b = 0).
  { intros H. subst b. cbn. unfold camera_allowed. by rewrite H. }
  assert (Href : screen_refinement_allowed c = false -> screen_refinement_bps b = 0).
  { intros H. subst b. cbn. by rewrite H. }
  subst g. unfold select_codec_gears.
  cbn [camera_gear screen_refinement_enabled opus_settings g_per_frame_byte_cap].
  rewrite Hcap. clearbody b. clear Hcap.
  pose proof (N.Div0.mul_div_le (camera_bps b * 2) 240) as Hd.
  destruct (N.eqb_spec (camera_bps b) 0) as [H0|H0].
  - rewrite H0. split; [done|]. split.
    { destruct (screen_refinement_allowed c); cbn; [apply N.ltb_lt|].
      split; [done|]. rewrite Href by done. lia. }
    split; [destruct tier, npu; cbn; naive_solver|].
    destruct (max_camera_gear c); (split; [intros Hpos; by vm_compute in Hpos|by vm_compute]).
  - split; [naive_solver|]. split.
    { destruct (screen_refinement_allowed c); cbn; [apply N.ltb_lt|].
      split; [done|]. rewrite Href by done. lia. }
    split; [destruct tier, npu; cbn; naive_solver|].
    destruct (max_camera_gear c); split; intros; try lia; eauto.
Qed.

(** A camera without bits keeps Gear B's face offset: the gears of a 48 kbit/s
    link at fair pressure have the camera off and the offset -3. *)
Example roi_offset_of_a_camera_that_is_off :
  let c := from_thermal Fair in
  let g := select_codec_gears Survival (allocate 48000 c) c Absent in
  camera_gear g = Off /\ g_roi_delta_qp g = (-3)%Z.
Proof. vm_compute. auto. Qed.
