(* ===== verification/Thermal.v ===== *)
(** Thermal sampling: [core/platform/src/thermal.rs], on the three platforms.
    The levels are those of [Gears].

    A file system is the function from a path to the text read there; an [i64] is
    a [Z].  The answers of [sysctlbyname] and [GetSystemPowerStatus] are
    arguments. *)
From Stdlib Require Import Strings.String.
From S2P Require Import Prelude Text Numeral F64 Tier Gears.
#[local] Open Scope N_scope.

(** [level > worst]. *)
Definition worse (p q : ThermalPressure) : ThermalPressure :=
  if pressure_rank q <? pressure_rank p then p else q.

(** ** Linux *)
Module Linux.

(** [str::parse::<i64>]. *)
Definition parse_i64 (s : str) : option Z :=
  let negative n := if n <=? 2 ^ 63 then Some (- Z.of_N n)%Z else None in
  let positive n := if n <? 2 ^ 63 then Some (Z.of_N n) else None in
  match s with
  | [] => None
  | c :: s' =>
      if c =? 0x2D then if bool_decide (s' = []) then None else n ← parse_loop 64 10 0 s'; negative n
      else if c =? 0x2B then if bool_decide (s' = []) then None else n ← parse_loop 64 10 0 s'; positive n
      else n ← parse_loop 64 10 0 s; positive n
  end.

Definition Files : Type := str -> option str.

Definition join (path name : str) : str := path ++ lit "/" ++ name.

Definition read_millidegree (fs : Files) (path : str) : option Z :=
  s ← fs path; parse_i64 (trim s).

Definition type_path (zone : str) (i : N) : str := join zone (lit "trip_point_" ++ decimal i ++ lit "_type").
Definition temp_path (zone : str) (i : N) : str := join zone (lit "trip_point_" ++ decimal i ++ lit "_temp").

(** The [n] turns of the loop from [i] on. *)
Fixpoint trip_loop (fs : Files) (zone trip_type : str) (i : N) (n : nat) : option Z :=
  match n with
  | O => None
  | S n =>
      kind ← fs (type_path zone i);
      if bool_decide (trim kind = trip_type) then read_millidegree fs (temp_path zone i)
      else trip_loop fs zone trip_type (i + 1) n
  end.

Definition trip_temp (fs : Files) (zone trip_type : str) : option Z := trip_loop fs zone trip_type 0 16.

Definition i64_MAX : Z := 2 ^ 63 - 1.

Definition classify_zone (fs : Files) (zone : str) (temp_mc : Z) : ThermalPressure :=
  let critical := default i64_MAX (trip_temp fs zone (lit "critical")) in
  let hot := default i64_MAX (trip_temp fs zone (lit "hot")) in
  let passive := default i64_MAX (trip_temp fs zone (lit "passive")) in
  if (critical <=? temp_mc)%Z then Critical
  else if (hot <=? temp_mc)%Z then Serious
  else if (passive <=? temp_mc)%Z then Fair
  else Nominal.

Definition base : str := lit "/sys/class/thermal".

(** One entry of the directory: the level of its zone, if it is one that reads. *)
Definition zone_level (fs : Files) (name : str) : option ThermalPressure :=
  if starts_with (lit "thermal_zone") name then
    let path := join base name in
    temp ← read_millidegree fs (join path (lit "temp"));
    Some (classify_zone fs path temp)
  else None.

Definition visit (fs : Files) (worst : ThermalPressure) (name : str) : ThermalPressure :=
  match zone_level fs name with Some level => worse level worst | None => worst end.

(** [entries]: the names that [read_dir] gives, if it gives any. *)
Definition sample (fs : Files) (entries : option (list str)) : ThermalPressure :=
  match entries with None => Nominal | Some names => foldl (visit fs) Nominal names end.
End Linux.

(** ** macOS *)
Module Mac.
Definition sample (sysctl_thermal_level : option Z) : ThermalPressure :=
  match default 0%Z sysctl_thermal_level with
  | 0%Z => Nominal | 1%Z => Fair | 2%Z => Serious | _ => Critical
  end.
End Mac.

(** ** Windows *)
Module Windows.
Record SystemPowerStatus := mkStatus {
  ac_line_status : N; battery_flag : N; battery_life_percent : N; system_status_flag : N }.

(** [None]: the call failed. *)
Definition sample (status : option SystemPowerStatus) : ThermalPressure :=
  match status with
  | None => Nominal
  | Some s =>
      if negb (N.land (battery_flag s) 0x04 =? 0) then Serious
      else if negb (N.land (system_status_flag s) 0x01 =? 0) || (ac_line_status s =? 0) then Fair
      else Nominal
  end.
End Windows.

(** ** Lemmas *)
Lemma rank_inj p q : pressure_rank p = pressure_rank q -> p = q.
Proof. by destruct p, q. Qed.

Lemma worse_rank p q : pressure_rank (worse p q) = N.max (pressure_rank p) (pressure_rank q).
Proof. unfold worse. destruct (N.ltb_spec (pressure_rank q) (pressure_rank p)); lia. Qed.

(** The rank of the worst zone among the entries. *)
Definition worst_rank (fs : Linux.Files) (names : list str) : N :=
  foldr (fun name r => match Linux.zone_level fs name with Some p => N.max (pressure_rank p) r | None => r end) 0 names.

Lemma visits_rank fs names w :
  pressure_rank (foldl (Linux.visit fs) w names) = N.max (pressure_rank w) (worst_rank fs names).
Proof.
  revert w. induction names as [|n names IH]; intros w; cbn [foldl worst_rank foldr]; [by rewrite N.max_0_r|].
  rewrite IH. fold (worst_rank fs names). unfold Linux.visit. destruct (Linux.zone_level fs n) as [p|]; [|lia].
  rewrite worse_rank. lia.
Qed.

Lemma trip_loop_spec fs zone t i n v :
  Linux.trip_loop fs zone t i n = Some v <->
  exists k kind, k < N.of_nat n /\ fs (Linux.type_path zone (i + k)) = Some kind /\ trim kind = t /\
    Linux.read_millidegree fs (Linux.temp_path zone (i + k)) = Some v /\
    forall j, j < k -> exists kind, fs (Linux.type_path zone (i + j)) = Some kind /\ trim kind <> t.
Proof.
  revert i. induction n as [|n IH]; intros i; cbn [Linux.trip_loop].
  { split; [done|]. intros (k & kind & Hk & _). lia. }
  destruct (fs (Linux.type_path zone i)) as [kind|] eqn:Ek; cbn [mbind option_bind].
  - case_bool_decide as Ht; split.
    + intros Hv. exists 0, kind. rewrite N.add_0_r. split; [lia|]. split; [done|]. split; [done|]. split; [done|]. intros j Hj. lia.
    + intros (k & kind' & Hk & Hf & Ht' & Hv & Hj). destruct (N.eq_dec k 0) as [->|]; [by rewrite N.add_0_r in Hv|].
      destruct (Hj 0) as (kind0 & Hk0 & Hn0); [lia|]. rewrite N.add_0_r in Hk0. congruence.
    + intros (k & kind' & Hk & Hf & Ht' & Hv & Hj)%IH. exists (k + 1), kind'.
      replace (i + (k + 1)) with (i + 1 + k) by lia. split; [lia|]. split; [done|]. split; [done|]. split; [done|].
      intros j Hjk. destruct (N.eq_dec j 0) as [->|]; [exists kind; by rewrite N.add_0_r|].
      destruct (Hj (j - 1)) as (kj & Hfj & Hnj); [lia|]. exists kj. by replace (i + j) with (i + 1 + (j - 1)) by lia.
    + intros (k & kind' & Hk & Hf & Ht' & Hv & Hj). apply IH.
      destruct (N.eq_dec k 0) as [->|]; [rewrite N.add_0_r in Hf; congruence|].
      exists (k - 1), kind'. replace (i + 1 + (k - 1)) with (i + k) by lia. split; [lia|]. split; [done|]. split; [done|]. split; [done|].
      intros j Hjk. destruct (Hj (j + 1)) as (kj & Hfj & Hnj); [lia|]. exists kj.
      by replace (i + 1 + j) with (i + (j + 1)) by lia.
  - split; [done|]. intros (k & kind' & Hk & Hf & _ & _ & Hj). destruct (N.eq_dec k 0) as [->|].
    + rewrite N.add_0_r in Hf. congruence.
    + destruct (Hj 0) as (k0 & Hk0 & _); [lia|]. rewrite N.add_0_r in Hk0. congruence.
Qed.

(** ** Properties *)

(** On Linux the sample is the worst level of the zones that read, in whatever
    order the directory lists them; what is not a zone, or does not read, does not
    count, and an absent directory is nominal. *)
Theorem linux_samples_the_worst_zone (fs : Linux.Files) (names : list str) :
  (forall name p, name ∈ names -> Linux.zone_level fs name = Some p ->
     pressure_rank p <= pressure_rank (Linux.sample fs (Some names))) /\
  (Linux.sample fs (Some names) <> Nominal ->
     exists name, name ∈ names /\ Linux.zone_level fs name = Some (Linux.sample fs (Some names))) /\
  (forall names', Permutation names names' -> Linux.sample fs (Some names') = Linux.sample fs (Some names)) /\
  Linux.sample fs None = Nominal.
Proof.
  assert (Hr : forall names, pressure_rank (Linux.sample fs (Some names)) = worst_rank fs names).
  { intros l. cbn [Linux.sample]. rewrite visits_rank. cbn [pressure_rank]. lia. }
  split; [|split; [|split; [|done]]].
  - intros name p Hin Hz. rewrite Hr. clear Hr. induction names as [|n names IH]; [by apply not_elem_of_nil in Hin|].
    cbn [worst_rank foldr]. fold (worst_rank fs names). apply elem_of_cons in Hin as [<-|Hin].
    + rewrite Hz. lia.
    + specialize (IH Hin). destruct (Linux.zone_level fs n); lia.
  - intros Hn. assert (Hpos : worst_rank fs names <> 0).
    { rewrite <- Hr. intros E. apply Hn, rank_inj. by rewrite E. }
    assert (Hex : exists name p, name ∈ names /\ Linux.zone_level fs name = Some p /\ pressure_rank p = worst_rank fs names).
    { clear Hr Hn. induction names as [|n names IH]; [done|]. cbn [worst_rank foldr] in *. fold (worst_rank fs names) in *.
      destruct (Linux.zone_level fs n) as [p|] eqn:Ez.
      - destruct (N.max_spec (pressure_rank p) (worst_rank fs names)) as [[Hlt E]|[Hle E]]; rewrite E in *.
        + destruct IH as (name & q & Hin & Hq & Er); [done|]. exists name, q. split; [by right|]. done.
        + exists n, p. split; [by left|]. done.
      - destruct IH as (name & q & Hin & Hq & Er); [done|]. exists name, q. split; [by right|]. done. }
    destruct Hex as (name & p & Hin & Hz & Ep). exists name. split; [done|]. rewrite Hz. f_equal. apply rank_inj.
    by rewrite Ep, Hr.
  - intros names' Hp. apply rank_inj. rewrite !Hr. induction Hp as [|x l l' _ IH|x y l|l1 l2 l3 _ IH1 _ IH2]; [done| | |congruence].
    + cbn. fold (worst_rank fs l) (worst_rank fs l'). by rewrite IH.
    + cbn. destruct (Linux.zone_level fs x), (Linux.zone_level fs y); lia.
Qed.

(** A trip point is the first of its type; the search ends at the first index
    without a type, so a point after a gap is not found. *)
Theorem first_trip_point (fs : Linux.Files) (zone t : str) (v : Z) :
  Linux.trip_temp fs zone t = Some v <->
  exists k kind, k < 16 /\ fs (Linux.type_path zone k) = Some kind /\ trim kind = t /\
    Linux.read_millidegree fs (Linux.temp_path zone k) = Some v /\
    forall j, j < k -> exists kind, fs (Linux.type_path zone j) = Some kind /\ trim kind <> t.
Proof. exact (trip_loop_spec fs zone t 0 16 v). Qed.

(** The level of a zone rises with its temperature, and a zone without trip points
    is nominal below the largest [i64]. *)
Theorem level_follows_the_temperature (fs : Linux.Files) (zone : str) (t t' : Z) :
  (t <= t')%Z -> pressure_rank (Linux.classify_zone fs zone t) <= pressure_rank (Linux.classify_zone fs zone t').
Proof.
  intros Ht. unfold Linux.classify_zone. cbn zeta.
  generalize (default Linux.i64_MAX (Linux.trip_temp fs zone (lit "critical"))) as c,
    (default Linux.i64_MAX (Linux.trip_temp fs zone (lit "hot"))) as h,
    (default Linux.i64_MAX (Linux.trip_temp fs zone (lit "passive"))) as p. intros c h p.
  destruct (Z.leb_spec c t), (Z.leb_spec c t'), (Z.leb_spec h t), (Z.leb_spec h t'), (Z.leb_spec p t), (Z.leb_spec p t');
    cbn [pressure_rank]; lia.
Qed.

Definition two_trips (path : str) : option str :=
  if bool_decide (path = Linux.type_path (lit "z") 0) then Some (lit "passive" ++ [0x0A])
  else if bool_decide (path = Linux.temp_path (lit "z") 0) then Some (lit "80000" ++ [0x0A])
  else if bool_decide (path = Linux.type_path (lit "z") 1) then Some (lit "critical")
  else if bool_decide (path = Linux.temp_path (lit "z") 1) then Some (lit "105000")
  else None.

Lemma level_follows_the_temperature_witness :
  Linux.classify_zone two_trips (lit "z") 79999 = Nominal /\ Linux.classify_zone two_trips (lit "z") 80000 = Fair /\
  Linux.classify_zone two_trips (lit "z") 105000 = Critical /\
  pressure_rank (Linux.classify_zone two_trips (lit "z") 80000) <= pressure_rank (Linux.classify_zone two_trips (lit "z") 105000).
Proof.
  split; [by vm_compute|]. split; [by vm_compute|]. split; [by vm_compute|].
  apply (level_follows_the_temperature two_trips (lit "z") 80000 105000). lia.
Defined.

(** On Windows a battery whose status is unknown, all of whose bits are set, is
    taken for a critical one. *)
Theorem windows_levels (s : Windows.SystemPowerStatus) :
  Windows.sample (Some s) =
    (if N.testbit (Windows.battery_flag s) 2 then Serious
     else if N.testbit (Windows.system_status_flag s) 0 || (Windows.ac_line_status s =? 0) then Fair else Nominal) /\
  (Windows.battery_flag s = 255 -> Windows.sample (Some s) = Serious).
Proof.
  assert (Hbit : forall n k, negb (N.land n (2 ^ k) =? 0) = N.testbit n k).
  { intros n k. destruct (N.testbit n k) eqn:E.
    - apply negb_true_iff, N.eqb_neq. intros E0. apply (f_equal (fun m => N.testbit m k)) in E0.
      rewrite N.land_spec, E, N.pow2_bits_true, N.bits_0 in E0. done.
    - apply negb_false_iff, N.eqb_eq. apply N.bits_inj. intros j. rewrite N.land_spec, N.bits_0, N.pow2_bits_eqb.
      destruct (N.eqb_spec k j) as [->|]; [by rewrite E|apply andb_false_r]. }
  split.
  - cbn [Windows.sample]. change 0x04 with (2 ^ 2). change 0x01 with (2 ^ 0). by rewrite !Hbit.
  - intros E. cbn [Windows.sample]. by rewrite E.
Qed.

Lemma windows_levels_witness : Windows.sample (Some (Windows.mkStatus 1 255 255 0)) = Serious.
Proof. by apply (windows_levels (Windows.mkStatus 1 255 255 0)). Defined.
