(* ===== verification/Governor.v ===== *)
(** The governor's 10 Hz loop and the exchange of summaries between the peers:
    [control_loop.rs] and [governor_summary.rs] of [core/platform/src]. *)
From S2P Require Import Prelude F64 Tier Gears.
#[local] Open Scope N_scope.

Definition LOSS_PPM_SCALE : N := 1000000.
Definition SUMMARY_INTERVAL_MS : N := 100.

Record GovernorSummary := mkSummary { s_tier : TierState; s_bwe_bps : N; s_rtt_ms : N; s_loss_ppm : N }.

Definition loss_fraction (s : GovernorSummary) : f64 :=
  (f_of_N (s_loss_ppm s) / f_of_N LOSS_PPM_SCALE)%f64.

Record ConvergedSummary := mkConverged { tier : TierState; bwe_bps : N; rtt_ms : N; loss_ppm : N }.

Definition converge_summaries (local remote : GovernorSummary) : ConvergedSummary :=
  {| tier := tier_min (s_tier local) (s_tier remote);
     bwe_bps := N.min (s_bwe_bps local) (s_bwe_bps remote);
     rtt_ms := N.max (s_rtt_ms local) (s_rtt_ms remote);
     loss_ppm := N.max (s_loss_ppm local) (s_loss_ppm remote) |}.

Record ControlLoopInput := mkInput {
  in_bwe_bps : N; in_rtt_ms : N; in_loss_ppm : N; in_thermal : ThermalPressure }.

Record ControlLoopOutput := mkOutput {
  out_tier : TierState; budgets : StreamBudgets; summary : GovernorSummary }.

Record ControlLoop := mkLoop { emitter : GovernorTierEmitter; current_tier : TierState }.

Definition new : ControlLoop := {| emitter := Tier.new; current_tier := Survival |}.

Definition tick (l : ControlLoop) (i : ControlLoopInput) : ControlLoop * ControlLoopOutput :=
  let '(e, t) := Tier.tick (emitter l) (current_tier l) (in_bwe_bps i) in
  let constraints := from_thermal (in_thermal i) in
  ({| emitter := e; current_tier := t |},
   {| out_tier := t;
      budgets := allocate (in_bwe_bps i) constraints;
      summary := {| s_tier := t; s_bwe_bps := in_bwe_bps i; s_rtt_ms := in_rtt_ms i;
                    s_loss_ppm := in_loss_ppm i |} |}).

Definition loop_hold_ticks (l : ControlLoop) : N := upgrade_hold_ticks (emitter l).

(** A session of ticks, with the outputs in order. *)
Fixpoint run (l : ControlLoop) (ins : list ControlLoopInput) : ControlLoop * list ControlLoopOutput :=
  match ins with
  | [] => (l, [])
  | i :: ins =>
      let '(l, o) := tick l i in
      let '(l, os) := run l ins in (l, o :: os)
  end.

(** Two peers tick together, send each other the tick's summary and converge;
    each allocates under its own thermal constraints. *)
Fixpoint exchange (a b : ControlLoop) (ins : list (ControlLoopInput * ControlLoopInput)) :
    list (ConvergedSummary * ConvergedSummary) :=
  match ins with
  | [] => []
  | (i, j) :: ins =>
      let '(a, oa) := tick a i in
      let '(b, ob) := tick b j in
      (converge_summaries (summary oa) (summary ob), converge_summaries (summary ob) (summary oa))
        :: exchange a b ins
  end.

(** ** Lemmas *)
Section governor.
Implicit Types (l : ControlLoop) (i : ControlLoopInput) (ins : list ControlLoopInput).

Lemma tier_min_comm s t : tier_min s t = tier_min t s.
Proof. by destruct s, t. Qed.

Lemma tier_min_le s t : rank (tier_min s t) <= rank s /\ rank (tier_min s t) <= rank t.
Proof. destruct s, t; vm_compute; split; discriminate. Qed.

Lemma converge_comm (s t : GovernorSummary) : converge_summaries s t = converge_summaries t s.
Proof.
  unfold converge_summaries.
  by rewrite tier_min_comm, (N.min_comm (s_bwe_bps s)), (N.max_comm (s_rtt_ms s)),
    (N.max_comm (s_loss_ppm s)).
Qed.

(** The loop's tier is the emitter's run over the estimates. *)
Lemma run_tier l ins :
  Tier.run (emitter l) (current_tier l) (in_bwe_bps <$> ins) =
    (emitter (fst (run l ins)), current_tier (fst (run l ins))).
Proof.
  revert l. induction ins as [|i ins IH]; intros l; [done|]. cbn. unfold tick.
  destruct (Tier.tick _ _ _) as [e t]. cbn.
  specialize (IH {| emitter := e; current_tier := t |}). cbn [emitter current_tier] in IH.
  rewrite IH. by destruct (run _ ins).
Qed.

Lemma run_outputs l ins k o :
  snd (run l ins) !! k = Some o ->
  exists i, ins !! k = Some i /\
    o = snd (tick (fst (run l (take k ins))) i) /\
    out_tier o = current_tier (fst (run l (take (S k) ins))).
Proof.
  revert l k. induction ins as [|i ins IH]; intros l k; [done|]. cbn [run].
  destruct (tick l i) as [l' o'] eqn:Ht. destruct (run l' ins) as [l'' os] eqn:Hr.
  destruct k as [|k]; cbn [snd lookup list_lookup].
  - intros [= <-]. exists i. cbn. rewrite Ht. split; [done|]. split; [done|]. cbn.
    unfold tick in Ht. destruct (Tier.tick _ _ _). by injection Ht as <- <-.
  - intros Hk. specialize (IH l' k). rewrite Hr in IH. destruct (IH Hk) as (i' & Hi & Ho & Ht').
    exists i'. split; [done|]. cbn [take firstn run]. rewrite Ht.
    change (firstn k ins) with (take k ins). change (firstn (S k) ins) with (take (S k) ins).
    destruct (run l' (take k ins)), (run l' (take (S k) ins)). done.
Qed.

Lemma transition_slow t k b t' k' n :
  transition (t, k) b (t', k') -> rank t * 50 + k <= n -> rank t' * 50 + k' <= n + 1.
Proof.
  inversion 1; subst; intros; try lia.
  - destruct t; cbn [rank tier_step_down] in *; lia.
  - destruct t; cbn [tier_step_up] in *; simplify_eq; cbn [rank] in *; lia.
Qed.

Lemma climb_slow bs :
  let '(e, t) := Tier.run Tier.new Survival bs in rank t * 50 + holds e <= lenN bs.
Proof.
  induction bs as [|b bs IH] using rev_ind; [by vm_compute|].
  rewrite tier_run_app. pose proof (run_support Survival bs) as Hs.
  destruct (Tier.run Tier.new Survival bs) as [e t]. destruct Hs as [Hh _].
  pose proof (tick_transition e t b Hh) as Ht. cbn [Tier.run].
  destruct (Tier.tick e t b) as [e' t']. destruct Ht as [_ Ht].
  rewrite lenN_app. eapply transition_slow in Ht; [|exact IH]. exact Ht.
Qed.
End governor.

(** * Properties *)

(** The two ends of a call agree: whatever each side measures, at every tick
    both converge on the same summary, which is no better than either side's
    (no higher tier or rate, no lower latency or loss), and the budgets
    allocated from it add up to the weaker side's rate (or to the audio floor)
    and give no stream, bulk transfer included, more than either side's own rate
    would under the same constraints.  The exchange of the summaries is assumed:
    no loop of the sources performs it. *)
Theorem peers_agree (ins : list (ControlLoopInput * ControlLoopInput)) (a b : ControlLoop) :
  Forall (fun '(x, y) => x = y) (exchange a b ins) /\
  forall (i j : ControlLoopInput) (p : ThermalPressure),
    let oa := snd (tick a i) in let ob := snd (tick b j) in
    let s := converge_summaries (summary oa) (summary ob) in
    rank (tier s) <= rank (out_tier oa) /\ rank (tier s) <= rank (out_tier ob) /\
    bwe_bps s <= in_bwe_bps i /\ bwe_bps s <= in_bwe_bps j /\
    in_rtt_ms i <= rtt_ms s /\ in_rtt_ms j <= rtt_ms s /\
    in_loss_ppm i <= loss_ppm s /\ in_loss_ppm j <= loss_ppm s /\
    let shared := allocate (bwe_bps s) (from_thermal p) in
    sum_of id (grants shared) + xfer_bps shared =
      N.max (N.min (in_bwe_bps i) (in_bwe_bps j)) AUDIO_FLOOR_BPS /\
    forall own, own = allocate (in_bwe_bps i) (from_thermal p) \/ own = allocate (in_bwe_bps j) (from_thermal p) ->
      Forall2 N.le (grants shared) (grants own) /\ xfer_bps shared <= xfer_bps own.
Proof.
  split.
  - revert a b. induction ins as [|[i j] ins IH]; intros a b; [constructor|]. cbn.
    destruct (tick a i), (tick b j). constructor; [apply converge_comm|apply IH].
  - intros i j p oa ob s. subst s oa ob. unfold tick.
    destruct (Tier.tick (emitter a) _ _) as [e t], (Tier.tick (emitter b) _ _) as [e' t'].
    cbn [snd summary out_tier converge_summaries tier bwe_bps rtt_ms loss_ppm
         s_tier s_bwe_bps s_rtt_ms s_loss_ppm].
    destruct (tier_min_le t t'). do 2 (split; [done|]). do 6 (split; [lia|]).
    split; [|intros own [->| ->]; apply (allocate_mono _ _ _ (from_thermal_floor p)); lia].
    pose proof (fill_sum (N.max (N.min (in_bwe_bps i) (in_bwe_bps j)) AUDIO_FLOOR_BPS)
      (ceilings (from_thermal p))) as Hs.
    by rewrite <- allocate_fill in Hs by apply from_thermal_floor.
Qed.

(** A session starts slowly and freezes bulk transfer first: however good the
    estimates, the n-th output of a fresh loop has climbed at most one tier per
    fifty ticks, and in the Survival tier - hence in every one of the first 49
    outputs - file transfer is granted nothing while voice has its floor. *)
Theorem bulk_frozen_at_start (ins : list ControlLoopInput) (k : nat) (o : ControlLoopOutput)
    (Hk : snd (run new ins) !! k = Some o) :
  rank (out_tier o) * 50 <= N.of_nat k + 1 /\
  ((k < 49)%nat -> out_tier o = Survival) /\
  (out_tier o = Survival -> bulk_xfer_headroom_bps (out_tier o) (xfer_bps (budgets o)) = 0) /\
  AUDIO_FLOOR_BPS <= audio_bps (budgets o).
Proof.
  destruct (run_outputs new ins k o Hk) as (i & Hi & Ho & Ht).
  assert (rank (out_tier o) * 50 <= N.of_nat k + 1) as Hr.
  { pose proof (climb_slow (in_bwe_bps <$> take (S k) ins)) as Hs.
    pose proof (run_tier new (take (S k) ins)) as Hrun. cbn [new emitter current_tier] in Hrun.
    rewrite Hrun, <- Ht in Hs. unfold lenN in Hs. rewrite length_fmap, length_take in Hs. lia. }
  split; [done|]. split.
  { intros Hlt. destruct (out_tier o); cbn in Hr; [done|lia..]. }
  split; [by intros ->|]. subst o. unfold tick. destruct (Tier.tick _ _ _).
  cbn [snd budgets]. unfold allocate. cbn [audio_bps]. rewrite from_thermal_floor. lia.
Qed.

Lemma bulk_frozen_at_start_witness :
  let i := mkInput 10000000 20 0 Nominal in
  exists o, snd (run new (replicate 60 i)) !! 48%nat = Some o /\ out_tier o = Survival /\
    xfer_bps (budgets o) = 9598000.
Proof.
  intros i. destruct (snd (run new (replicate 60 i)) !! 48%nat) as [o|] eqn:Ho;
    [|by vm_compute in Ho].
  exists o. split; [done|].
  split; [by apply (bulk_frozen_at_start (replicate 60 i) 48 o Ho); lia|].
  vm_compute in Ho. injection Ho as <-. reflexivity.
Defined.
