(* ===== verification/Crypto.v ===== *)
(** The cryptographic primitives the sources take from third-party crates
    ([x25519_dalek], [sha2], [hkdf], [chacha20poly1305]), as an interface: the
    operations are parameters, and [PrimitiveLaws] states the documented
    behaviour that the code relies on.  [toy] is a concrete instance of the
    laws, without any security, for evaluating the models. *)
From S2P Require Import Prelude.
#[local] Open Scope N_scope.

Class Primitives := {
  x25519 : list byte -> list byte -> list byte;
  basepoint : list byte;
  sha256 : list byte -> list byte;
  (** salt, input key material, info, output length *)
  hkdf : option (list byte) -> list byte -> list byte -> nat -> list byte;
  (** key, nonce, associated data, message *)
  aead_encrypt : list byte -> list byte -> list byte -> list byte -> list byte;
  aead_decrypt : list byte -> list byte -> list byte -> list byte -> option (list byte);
}.

Class PrimitiveLaws `{Primitives} : Prop := {
  x25519_length a b : length (x25519 a b) = 32%nat;
  x25519_comm a b : x25519 a (x25519 b basepoint) = x25519 b (x25519 a basepoint);
  sha256_length m : length (sha256 m) = 32%nat;
  hkdf_length s ikm info n : length (hkdf s ikm info n) = n;
  aead_length k n a m : lenN (aead_encrypt k n a m) = lenN m + 16;
  aead_correct k n a m : aead_decrypt k n a (aead_encrypt k n a m) = Some m;
  (** an accepted ciphertext is the encryption of what it decrypts to *)
  aead_tidy k n a c m : aead_decrypt k n a c = Some m -> c = aead_encrypt k n a m;
}.

(** ** A concrete instance *)

(** [n] bytes that depend on all of [m]. *)
Definition toy_digest (n : nat) (m : list byte) : list byte :=
  le_bytes n (fold_left (fun s b => (s * 257 + Byte.to_N b + 1) mod 2 ^ 256) m (lenN m)).

Definition toy_xor (a b : list byte) : list byte :=
  le_bytes 32 (N.lxor (le_value (take 32 a)) (le_value (take 32 b))).

Definition toy_tag (k n a m : list byte) : list byte :=
  toy_digest 16 (toy_digest 32 k ++ toy_digest 12 n ++ toy_digest 32 a ++ m).

Definition toy_decrypt (k n a c : list byte) : option (list byte) :=
  let m := take (length c - 16) c in
  if bool_decide (c = m ++ toy_tag k n a m) then Some m else None.

#[export] Instance toy : Primitives := {
  x25519 := toy_xor;
  basepoint := repeat Byte.x00 32;
  sha256 := toy_digest 32;
  hkdf s ikm info n := toy_digest n (default [] s ++ ikm ++ info);
  aead_encrypt k n a m := m ++ toy_tag k n a m;
  aead_decrypt := toy_decrypt;
}.

Lemma toy_digest_length n m : length (toy_digest n m) = n.
Proof. apply le_bytes_length. Qed.

Lemma toy_xor_base b : le_value (toy_xor b (repeat Byte.x00 32)) = le_value (take 32 b).
Proof.
  unfold toy_xor. replace (le_value (take 32 (repeat Byte.x00 32))) with 0 by (vm_compute; done).
  rewrite N.lxor_0_r. apply le_value_bytes_small.
  eapply N.lt_le_trans; [apply le_value_lt|]. apply N.pow_le_mono_r; [lia|].
  rewrite length_take. lia.
Qed.

#[export] Instance toy_laws : @PrimitiveLaws toy.
Proof.
  assert (forall k n a m, length (toy_tag k n a m) = 16%nat) as Htag
    by (intros; apply toy_digest_length).
  split; cbn [x25519 basepoint sha256 hkdf aead_encrypt aead_decrypt toy]; intros.
  - apply le_bytes_length.
  - assert (forall a b, toy_xor a (toy_xor b (repeat Byte.x00 32)) =
      le_bytes 32 (N.lxor (le_value (take 32 a)) (le_value (take 32 b)))) as Hx.
    { intros c d. unfold toy_xor at 1.
      rewrite (take_ge (toy_xor d _)) by (unfold toy_xor; rewrite le_bytes_length; lia).
      by rewrite toy_xor_base. }
    rewrite !Hx. by rewrite N.lxor_comm.
  - apply toy_digest_length.
  - apply toy_digest_length.
  - rewrite lenN_app. unfold lenN at 2. by rewrite Htag.
  - unfold toy_decrypt. rewrite length_app, Htag, Nat.add_sub, take_app_length.
    by rewrite bool_decide_eq_true_2.
  - unfold toy_decrypt in *. case_bool_decide as Hc; [|done]. by simplify_eq.
Qed.
