(* ===== verification/NoiseIk.v ===== *)
(** The Noise-IK handshake: [core/crypto/src/noise_ik.rs], and the traffic keys
    of [core/crypto/src/key_exchange.rs].

    A 32-byte array is a list of 32 bytes; the random private keys are
    arguments. *)
From S2P Require Import Prelude Text Crypto.
#[local] Open Scope N_scope.

(** "Noise_IK_25519_ChaChaPoly_SHA256". *)
Definition PROTOCOL_NAME : list byte :=
  map byte_of [78; 111; 105; 115; 101; 95; 73; 75; 95; 50; 53; 53; 49; 57; 95; 67; 104; 97; 67;
               104; 97; 80; 111; 108; 121; 95; 83; 72; 65; 50; 53; 54].

Arguments PROTOCOL_NAME : simpl never.

Definition MSG1_LEN : N := 96.
Definition MSG2_LEN : N := 48.

Inductive HandshakeError :=
| DecryptionFailed
| BadMessageLength (expected got : N).

Record TrafficKeys := mkKeys {
  initiator_to_responder : list byte; responder_to_initiator : list byte }.

Definition send_key (k : TrafficKeys) (is_initiator : bool) : list byte :=
  if is_initiator then initiator_to_responder k else responder_to_initiator k.
Definition recv_key (k : TrafficKeys) (is_initiator : bool) : list byte :=
  if is_initiator then responder_to_initiator k else initiator_to_responder k.

Record HandshakeResult := mkResult {
  traffic_keys : TrafficKeys;
  transcript_hash : list byte;
  remote_static_pubkey : list byte;
  is_initiator : bool }.

Record SymmetricState := mkSym { h : list byte; ck : list byte; k : option (list byte); n : N }.

Record StaticKeypair := mkPair { secret : list byte; public : list byte }.

(** 4 zero bytes, then the counter. *)
Definition nonce_from_counter (n : N) : list byte := repeat Byte.x00 4 ++ le_bytes 8 n.

Section primitives.
Context `{Primitives}.

Definition pub_from_priv (priv_key : list byte) : list byte := x25519 priv_key basepoint.
Definition dh (my_priv their_pub : list byte) : list byte := x25519 my_priv their_pub.

(** [StaticKeypair::generate] from its random scalar. *)
Definition generate (secret : list byte) : StaticKeypair :=
  {| secret := secret; public := pub_from_priv secret |}.

Definition static_dh (kp : StaticKeypair) (peer_pub : list byte) : list byte :=
  dh (secret kp) peer_pub.

(** ** The symmetric state *)
Definition sym_new : SymmetricState :=
  {| h := PROTOCOL_NAME; ck := PROTOCOL_NAME; k := None; n := 0 |}.

Definition mix_hash (s : SymmetricState) (data : list byte) : SymmetricState :=
  {| h := sha256 (h s ++ data); ck := ck s; k := k s; n := n s |}.

Definition mix_key (s : SymmetricState) (ikm : list byte) : SymmetricState :=
  let okm := hkdf (Some (ck s)) ikm [] 64 in
  {| h := h s; ck := take 32 okm; k := Some (drop 32 okm); n := 0 |}.

(** [self.n += 1]. *)
Definition bump (s : SymmetricState) : SymmetricState :=
  {| h := h s; ck := ck s; k := k s; n := wrap 64 (n s + 1) |}.

Definition encrypt_and_hash (s : SymmetricState) (plaintext : list byte) :
    SymmetricState * list byte :=
  match k s with
  | Some key =>
      let ciphertext := aead_encrypt key (nonce_from_counter (n s)) (h s) plaintext in
      (mix_hash (bump s) ciphertext, ciphertext)
  | None => (mix_hash s plaintext, plaintext)
  end.

Definition decrypt_and_hash (s : SymmetricState) (ciphertext : list byte) :
    result HandshakeError (SymmetricState * list byte) :=
  match k s with
  | Some key =>
      match aead_decrypt key (nonce_from_counter (n s)) (h s) ciphertext with
      | Some plaintext => Ok (mix_hash (bump s) ciphertext, plaintext)
      | None => Err DecryptionFailed
      end
  | None => Ok (mix_hash s ciphertext, ciphertext)
  end.

Definition split (s : SymmetricState) : list byte * list byte :=
  let okm := hkdf (Some (ck s)) [] [] 64 in (take 32 okm, drop 32 okm).

Definition traffic (s : SymmetricState) : TrafficKeys :=
  let '(k1, k2) := split s in {| initiator_to_responder := k1; responder_to_initiator := k2 |}.

(** ** The initiator *)
Record NoiseIkInitiator := mkInitiator {
  i_state : SymmetricState; e_secret : list byte; remote_s_pub : list byte }.

Definition initiator_new (local_static : StaticKeypair) (remote_static_pubkey : list byte)
    (session_code : str) (e_secret : list byte) : NoiseIkInitiator * list byte :=
  let state := sym_new in
  let state := mix_hash state (as_bytes session_code) in
  let state := mix_hash state remote_static_pubkey in
  let e_pub := pub_from_priv e_secret in
  let state := mix_hash state e_pub in
  let state := mix_key state (dh e_secret remote_static_pubkey) in
  let '(state, enc_s) := encrypt_and_hash state (public local_static) in
  let state := mix_key state (static_dh local_static remote_static_pubkey) in
  let '(state, enc_payload) := encrypt_and_hash state [] in
  ({| i_state := state; e_secret := e_secret; remote_s_pub := remote_static_pubkey |},
   e_pub ++ enc_s ++ enc_payload).

Definition receive_message2 (self : NoiseIkInitiator) (local_static : StaticKeypair)
    (msg2 : list byte) : result HandshakeError HandshakeResult :=
  if negb (lenN msg2 =? MSG2_LEN) then Err (BadMessageLength MSG2_LEN (lenN msg2))
  else
    let resp_e_pub := take 32 msg2 in
    let state := mix_hash (i_state self) resp_e_pub in
    let state := mix_key state (dh (e_secret self) resp_e_pub) in
    let state := mix_key state (static_dh local_static resp_e_pub) in
    '(state, _) ← decrypt_and_hash state (drop 32 msg2);
    Ok {| traffic_keys := traffic state; transcript_hash := h state;
          remote_static_pubkey := remote_s_pub self; is_initiator := true |}.

(** ** The responder *)
Record NoiseIkResponder := mkResponder {
  r_state : SymmetricState; init_e_pub : list byte; init_s_pub : list byte }.

Definition receive_message1 (local_static : StaticKeypair) (session_code : str)
    (msg1 : list byte) : result HandshakeError NoiseIkResponder :=
  if negb (lenN msg1 =? MSG1_LEN) then Err (BadMessageLength MSG1_LEN (lenN msg1))
  else
    let state := sym_new in
    let state := mix_hash state (as_bytes session_code) in
    let state := mix_hash state (public local_static) in
    let init_e_pub := take 32 msg1 in
    let state := mix_hash state init_e_pub in
    let state := mix_key state (static_dh local_static init_e_pub) in
    '(state, init_s_pub) ← decrypt_and_hash state (take 48 (drop 32 msg1));
    if negb (lenN init_s_pub =? 32) then Err DecryptionFailed
    else
      let state := mix_key state (static_dh local_static init_s_pub) in
      '(state, _) ← decrypt_and_hash state (drop 80 msg1);
      Ok {| r_state := state; init_e_pub := init_e_pub; init_s_pub := init_s_pub |}.

Definition send_message2 (self : NoiseIkResponder) (e_secret : list byte) :
    HandshakeResult * list byte :=
  let e_pub := pub_from_priv e_secret in
  let state := mix_hash (r_state self) e_pub in
  let state := mix_key state (dh e_secret (init_e_pub self)) in
  let state := mix_key state (dh e_secret (init_s_pub self)) in
  let '(state, enc_payload) := encrypt_and_hash state [] in
  ({| traffic_keys := traffic state; transcript_hash := h state;
      remote_static_pubkey := init_s_pub self; is_initiator := false |},
   e_pub ++ enc_payload).

(** ** Specification

    The hash of everything a side has seen, token by token. *)
Definition transcript (tokens : list (list byte)) : list byte :=
  fold_left (fun h d => sha256 (h ++ d)) tokens PROTOCOL_NAME.

(** One side's view of a handshake. *)
Definition view (session_code : str) (responder_static msg1 msg2 : list byte) : list (list byte) :=
  [as_bytes session_code; responder_static; take 32 msg1; take 48 (drop 32 msg1); drop 80 msg1;
   take 32 msg2; drop 32 msg2].

(** Two views that hash alike at their [i]-th token without being alike up to
    there: a collision of SHA-256 on these inputs. *)
Definition collision_at (xs ys : list (list byte)) (i : nat) : Prop :=
  exists x y, xs !! i = Some x /\ ys !! i = Some y /\
    transcript (take i xs) ++ x <> transcript (take i ys) ++ y /\
    sha256 (transcript (take i xs) ++ x) = sha256 (transcript (take i ys) ++ y).
End primitives.

(** ** Lemmas *)
Section laws.
Context `{PrimitiveLaws}.

Lemma decrypt_encrypt s p s' c :
  encrypt_and_hash s p = (s', c) -> decrypt_and_hash s c = Ok (s', p).
Proof.
  unfold encrypt_and_hash, decrypt_and_hash. destruct (k s); intros [= <- <-]; [|done].
  by rewrite aead_correct.
Qed.

Lemma encrypt_length s ikm p s' c :
  encrypt_and_hash (mix_key s ikm) p = (s', c) -> lenN c = lenN p + 16.
Proof. intros [= <- <-]. apply aead_length. Qed.

Lemma encrypt_h s p s' c : encrypt_and_hash s p = (s', c) -> h s' = sha256 (h s ++ c).
Proof. unfold encrypt_and_hash. destruct (k s); by intros [= <- <-]. Qed.

Lemma decrypt_h s c s' p : decrypt_and_hash s c = Ok (s', p) -> h s' = sha256 (h s ++ c).
Proof.
  unfold decrypt_and_hash. destruct (k s); [destruct (aead_decrypt _ _ _ _)|];
    try done; by intros [= <- <-].
Qed.

Lemma pub_length s : length (pub_from_priv s) = 32%nat.
Proof. apply x25519_length. Qed.

Lemma generate_length s : length (public (generate s)) = 32%nat.
Proof. apply pub_length. Qed.

Lemma dh_comm a b : dh a (pub_from_priv b) = dh b (pub_from_priv a).
Proof. apply x25519_comm. Qed.

(** What the initiator's first message is made of. *)
Lemma initiator_message kp rs code e i msg1 :
  length (public kp) = 32%nat ->
  initiator_new kp rs code e = (i, msg1) ->
  exists s1 enc_s enc_p,
    let s0 := mix_key (mix_hash (mix_hash (mix_hash sym_new (as_bytes code)) rs) (pub_from_priv e))
                (dh e rs) in
    msg1 = pub_from_priv e ++ enc_s ++ enc_p /\ lenN enc_s = 48 /\ lenN enc_p = 16 /\
    encrypt_and_hash s0 (public kp) = (s1, enc_s) /\
    encrypt_and_hash (mix_key s1 (static_dh kp rs)) [] = (i_state i, enc_p) /\
    e_secret i = e /\ remote_s_pub i = rs.
Proof.
  intros Hp. unfold initiator_new.
  destruct (encrypt_and_hash _ (public kp)) as [s1 enc_s] eqn:E1.
  destruct (encrypt_and_hash (mix_key s1 _) []) as [s2 enc_p] eqn:E2. intros [= <- <-].
  exists s1, enc_s, enc_p. cbn zeta.
  pose proof (encrypt_length _ _ _ _ _ E1) as L1.
  pose proof (encrypt_length _ _ _ _ _ E2) as L2.
  unfold lenN at 2 in L1. rewrite Hp in L1. split_and!; done.
Qed.

Lemma split_message (a b c : list byte) :
  length a = 32%nat -> lenN b = 48 ->
  take 32 (a ++ b ++ c) = a /\ take 48 (drop 32 (a ++ b ++ c)) = b /\
  drop 80 (a ++ b ++ c) = c.
Proof.
  intros Ha Hb. unfold lenN in Hb. assert (length b = 48%nat) as Hb' by lia.
  split; [by apply take_app_length'|]. rewrite drop_app_length' by done.
  split; [by apply take_app_length'|].
  change 80%nat with (32 + 48)%nat. rewrite <- drop_drop, drop_app_length' by done.
  by apply drop_app_length'.
Qed.

Lemma transcript_length tokens : length (transcript tokens) = 32%nat.
Proof.
  destruct tokens as [|d tokens] using rev_ind; [done|].
  unfold transcript. rewrite fold_left_app. apply sha256_length.
Qed.

Lemma transcript_snoc tokens d : transcript (tokens ++ [d]) = sha256 (transcript tokens ++ d).
Proof. unfold transcript. by rewrite fold_left_app. Qed.

(** Equal transcripts are transcripts of the same tokens, or exhibit a collision. *)
Lemma transcript_inj xs ys :
  length xs = length ys -> transcript xs = transcript ys ->
  xs = ys \/ exists i, collision_at xs ys i.
Proof.
  revert ys. induction xs as [|x xs IH] using rev_ind; intros ys Hl Ht.
  { left. symmetry. apply nil_length_inv. by rewrite <- Hl. }
  destruct ys as [|y ys _] using rev_ind; [rewrite length_app in Hl; cbn in Hl; lia|].
  rewrite !length_app in Hl. cbn in Hl. assert (length xs = length ys) as Hl' by lia.
  rewrite !transcript_snoc in Ht.
  destruct (decide (transcript xs ++ x = transcript ys ++ y)) as [He|Hne].
  - apply app_inj_1 in He as [Hx ->]; [|by rewrite !transcript_length].
    destruct (IH ys Hl' Hx) as [->|[i (a & b & Ha & Hb & Hc)]]; [by left|]. right.
    pose proof (lookup_lt_Some _ _ _ Ha). pose proof (lookup_lt_Some _ _ _ Hb).
    exists i, a, b. rewrite !lookup_app_l, !take_app_le by lia. done.
  - right. exists (length xs), x, y. rewrite Hl' at 2.
    rewrite !list_lookup_middle, !take_app_length' by done. done.
Qed.

Lemma initiator_view kp rs code e i msg1 msg2 r :
  length (public kp) = 32%nat ->
  initiator_new kp rs code e = (i, msg1) ->
  receive_message2 i kp msg2 = Ok r ->
  transcript_hash r = transcript (view code rs msg1 msg2) /\
  lenN msg1 = MSG1_LEN /\ lenN msg2 = MSG2_LEN.
Proof.
  intros Hp Hi. destruct (initiator_message _ _ _ _ _ _ Hp Hi)
    as (s1 & es & ep & -> & Ls & Lp & E1 & E2 & _ & Hrs).
  destruct (split_message (pub_from_priv e) es ep (pub_length e) Ls) as (T1 & T2 & T3).
  unfold receive_message2. case_ifs; [done|].
  destruct (decrypt_and_hash _ _) as [[s p]|] eqn:E3; [|done]. cbn. intros [= <-]. cbn.
  apply decrypt_h in E3. apply encrypt_h in E1, E2. cbn in *.
  split; [|split; [|done]].
  - unfold view, transcript. cbn. rewrite T1, T2, T3, E3, E2, E1. done.
  - rewrite !lenN_app. unfold lenN at 1. rewrite pub_length, Ls, Lp. done.
Qed.

Lemma responder_view kp code e msg1 r0 r msg2 :
  receive_message1 kp code msg1 = Ok r0 -> send_message2 r0 e = (r, msg2) ->
  transcript_hash r = transcript (view code (public kp) msg1 msg2) /\
  lenN msg1 = MSG1_LEN /\ lenN msg2 = MSG2_LEN.
Proof.
  unfold receive_message1. case_ifs; [done|].
  destruct (decrypt_and_hash _ _) as [[s1 p1]|] eqn:E1; [|done]. cbn [mbind result_bind].
  case_ifs; [done|].
  destruct (decrypt_and_hash (mix_key s1 _) _) as [[s2 p2]|] eqn:E2; [|done].
  cbn [mbind result_bind]. intros [= <-]. unfold send_message2. cbv zeta. cbn [r_state init_e_pub init_s_pub].
  destruct (encrypt_and_hash _ []) as [s3 ep] eqn:E3. intros [= <- <-].
  pose proof (encrypt_length _ _ _ _ _ E3) as Lp.
  apply decrypt_h in E1, E2. apply encrypt_h in E3. cbn in *.
  split; [|split; [done|]].
  - unfold view, transcript. cbn.
    rewrite (take_app_length' (pub_from_priv e)), (drop_app_length' (pub_from_priv e))
      by (symmetry; apply pub_length).
    rewrite E3, E2, E1. done.
  - rewrite lenN_app, Lp. unfold lenN at 1. by rewrite pub_length.
Qed.
End laws.

(** An undisturbed handshake. *)
Lemma handshake_facts `{PrimitiveLaws} (si sr ei er : list byte) (code : str) :
  let ki := generate si in let kr := generate sr in
  let '(i, msg1) := initiator_new ki (public kr) code ei in
  lenN msg1 = MSG1_LEN /\
  exists r, receive_message1 kr code msg1 = Ok r /\
    let '(rr, msg2) := send_message2 r er in
    lenN msg2 = MSG2_LEN /\
    exists ri, receive_message2 i ki msg2 = Ok ri /\
      traffic_keys ri = traffic_keys rr /\ transcript_hash ri = transcript_hash rr /\
      remote_static_pubkey ri = public kr /\ remote_static_pubkey rr = public ki /\
      (forall side : bool, send_key (traffic_keys ri) side = recv_key (traffic_keys rr) (negb side)) /\
      is_initiator ri = true /\ is_initiator rr = false.
Proof.
  intros ki kr. subst ki kr.
  change (public (generate sr)) with (pub_from_priv sr).
  change (public (generate si)) with (pub_from_priv si).
  destruct (initiator_new (generate si) (pub_from_priv sr) code ei) as [i msg1] eqn:Hi.
  destruct (initiator_message _ _ _ _ _ _ (generate_length si) Hi)
    as (s1 & es & ep & Hm & Ls & Lp & E1 & E2 & He & Hrs). clear Hi.
  destruct (split_message (pub_from_priv ei) es ep (pub_length ei) Ls) as (T1 & T2 & T3).
  assert (lenN msg1 = MSG1_LEN) as L1.
  { subst msg1. rewrite !lenN_app. unfold lenN at 1. by rewrite pub_length, Ls, Lp. }
  split; [done|]. rewrite <- Hm in T1, T2, T3. clear Hm.
  change (static_dh (generate si)) with (dh si) in *. rewrite dh_comm in E1, E2.
  exists {| r_state := i_state i; init_e_pub := pub_from_priv ei; init_s_pub := pub_from_priv si |}.
  split.
  { unfold receive_message1. rewrite L1, N.eqb_refl, T1, T2, T3. cbn [negb]. cbv zeta.
    change (static_dh (generate sr)) with (dh sr).
    change (public (generate sr)) with (pub_from_priv sr).
    rewrite (decrypt_encrypt _ _ _ _ E1). cbn [mbind result_bind].
    change (public (generate si)) with (pub_from_priv si).
    unfold lenN. rewrite pub_length. change (negb (N.of_nat 32 =? 32)) with false. cbv iota.
    by rewrite (decrypt_encrypt _ _ _ _ E2). }
  clear E1 E2. unfold send_message2. cbn [r_state init_e_pub init_s_pub]. cbv zeta.
  destruct (encrypt_and_hash _ []) as [s3 ep2] eqn:E3.
  pose proof (encrypt_length _ _ _ _ _ E3) as Lp2.
  assert (lenN (pub_from_priv er ++ ep2) = MSG2_LEN) as L2.
  { rewrite lenN_app, Lp2. unfold lenN at 1. by rewrite pub_length. }
  split; [done|].
  exists {| traffic_keys := traffic s3; transcript_hash := h s3;
            remote_static_pubkey := pub_from_priv sr; is_initiator := true |}.
  split; [|split_and!; try done; by intros []].
  unfold receive_message2. rewrite L2, N.eqb_refl. cbn [negb]. cbv zeta.
  rewrite take_app_length', drop_app_length' by (symmetry; apply pub_length).
  change (static_dh (generate si)) with (dh si).
  rewrite He, Hrs, (dh_comm ei), (dh_comm si). by rewrite (decrypt_encrypt _ _ _ _ E3).
Qed.

(** * Properties *)

(** C18: An undisturbed handshake succeeds and both sides agree: for any key pairs,
    session code and ephemeral secrets, message 1 (96 bytes) is accepted by the
    responder, message 2 (48 bytes) by the initiator, and both hold the same
    traffic keys and transcript hash, each knows the other's static key, and
    what one side sends with, the other receives with. *)
Theorem handshake_agrees `{PrimitiveLaws} (si sr ei er : list byte) (code : str) :
  let ki := generate si in let kr := generate sr in
  let '(i, msg1) := initiator_new ki (public kr) code ei in
  lenN msg1 = MSG1_LEN /\
  exists r, receive_message1 kr code msg1 = Ok r /\
    let '(rr, msg2) := send_message2 r er in
    lenN msg2 = MSG2_LEN /\
    exists ri, receive_message2 i ki msg2 = Ok ri /\
      traffic_keys ri = traffic_keys rr /\ transcript_hash ri = transcript_hash rr /\
      remote_static_pubkey ri = public kr /\ remote_static_pubkey rr = public ki /\
      forall side : bool, send_key (traffic_keys ri) side = recv_key (traffic_keys rr) (negb side).
Proof.
  pose proof (handshake_facts si sr ei er code) as Ha. cbv zeta in *.
  destruct (initiator_new _ _ _ _) as [i m1]. destruct Ha as (L1 & r & Hr & Ha).
  split; [done|]. exists r. split; [done|]. destruct (send_message2 r er) as [rr m2].
  destruct Ha as (L2 & ri & Hf & Hk & Ht & Hp & Hq & Hdir & _).
  split; [done|]. exists ri. split_and!; done.
Qed.

Lemma handshake_agrees_witness :
  let '(i, msg1) := initiator_new (generate [Byte.x01]) (public (generate [Byte.x02])) [49; 50]
                      [Byte.x03] in
  lenN msg1 = MSG1_LEN.
Proof. exact (proj1 (handshake_agrees [Byte.x01] [Byte.x02] [Byte.x03] [Byte.x04] [49; 50])). Defined.

(** C8: The transcript hash certifies the handshake: whatever an attacker puts on
    the wire, if both sides complete and their transcript hashes are equal, then
    they used the same session code, the initiator was talking to this
    responder's key, every message arrived as it was sent, and both hold the
    same traffic keys and each other's static keys; or else the two views
    exhibit a collision of SHA-256 at one of their seven tokens. *)
Theorem transcript_certifies `{PrimitiveLaws} (si sr ei er rs : list byte) (code code' : str)
    i msg1 msg1' r rr msg2 msg2' ri
    (Hcode : str_ok code) (Hcode' : str_ok code')
    (Hini : initiator_new (generate si) rs code ei = (i, msg1))
    (Hrec : receive_message1 (generate sr) code' msg1' = Ok r)
    (Hsend : send_message2 r er = (rr, msg2))
    (Hfin : receive_message2 i (generate si) msg2' = Ok ri)
    (Heq : transcript_hash ri = transcript_hash rr) :
  (code = code' /\ rs = public (generate sr) /\ msg1 = msg1' /\ msg2 = msg2' /\
   traffic_keys ri = traffic_keys rr /\ remote_static_pubkey rr = public (generate si)) \/
  exists j, collision_at (view code rs msg1 msg2') (view code' (public (generate sr)) msg1' msg2) j.
Proof.
  destruct (initiator_view _ _ _ _ _ _ _ _ (generate_length si) Hini Hfin) as (Vi & L1 & L2').
  destruct (responder_view _ _ _ _ _ _ _ Hrec Hsend) as (Vr & L1' & L2).
  rewrite Vi, Vr in Heq. apply transcript_inj in Heq as [Hv|Hc]; [left|by right|done].
  unfold view in Hv. injection Hv as Hb Hrs A1 A2 A3 B1 B2.
  apply as_bytes_inj in Hb; [|done..]. subst code' rs.
  assert (msg1 = msg1') as <-.
  { rewrite <- (take_drop 32 msg1), <- (take_drop 32 msg1'), A1.
    f_equal. rewrite <- (take_drop 48 (drop 32 msg1)), <- (take_drop 48 (drop 32 msg1')), A2.
    rewrite !drop_drop. by f_equal. }
  assert (msg2 = msg2') as <- by (rewrite <- (take_drop 32 msg2), <- (take_drop 32 msg2'); congruence).
  pose proof (handshake_facts si sr ei er code) as Ha. cbn zeta in Ha.
  change (pub_from_priv sr) with (public (generate sr)) in Hini. rewrite Hini in Ha.
  destruct Ha as (_ & r' & Hr' & Ha). rewrite Hrec in Hr'. injection Hr' as <-.
  rewrite Hsend in Ha. destruct Ha as (_ & ri' & Hri & Hk & _ & _ & Hs & _).
  rewrite Hfin in Hri. injection Hri as <-. split_and!; done.
Qed.

Lemma transcript_certifies_witness :
  let ki := generate [Byte.x01] in let kr := generate [Byte.x02] in
  exists i msg1 r rr msg2 ri,
    initiator_new ki (public kr) [49; 50] [Byte.x03] = (i, msg1) /\
    receive_message1 kr [49; 50] msg1 = Ok r /\ send_message2 r [Byte.x04] = (rr, msg2) /\
    receive_message2 i ki msg2 = Ok ri /\
    ((traffic_keys ri = traffic_keys rr /\ remote_static_pubkey rr = public ki) \/
     exists j, collision_at (view [49; 50] (public kr) msg1 msg2)
                 (view [49; 50] (public kr) msg1 msg2) j).
Proof.
  intros ki kr. subst ki kr.
  pose proof (handshake_facts [Byte.x01] [Byte.x02] [Byte.x03] [Byte.x04] [49; 50]) as Ha.
  cbv zeta in Ha. destruct (initiator_new _ _ _ _) as [i m] eqn:Hi.
  destruct Ha as (_ & r & Hr & Ha). destruct (send_message2 r _) as [rr m2] eqn:Hs.
  destruct Ha as (_ & ri & Hf & _ & Ht & _). exists i, m, r, rr, m2, ri.
  split; [reflexivity|]. split; [exact Hr|]. split; [exact Hs|]. split; [exact Hf|].
  destruct (transcript_certifies [Byte.x01] [Byte.x02] [Byte.x03] [Byte.x04]
    (public (generate [Byte.x02])) [49; 50] [49; 50] i m m r rr m2 m2 ri) as [Hl|Hc];
    [repeat constructor|repeat constructor|assumption..| |right; exact Hc].
  left. destruct Hl as (_ & _ & _ & _ & Hk & Hp). split; assumption.
Defined.
