(* ===== verification/KeyExchange.v ===== *)
(** Keys agreed between two peers, of [core/crypto/src]: the ephemeral X25519
    exchange ([Exchange], key_exchange.rs) and the short string the users compare
    ([ShortAuth], short_auth_string.rs).

    A 32-byte array is a list of 32 bytes; the random secret is an argument.
    [verify_str]'s Unicode lowercasing is not modelled; the comparison it ends in
    is. *)
From Stdlib Require Import Ascii String.
From S2P Require Import Prelude Text Crypto NoiseIk.
#[local] Open Scope N_scope.

(** * The exchange *)
Module Exchange.
(** "lowband v1 traffic keys". *)
Definition HKDF_INFO : list byte :=
  map byte_of [108; 111; 119; 98; 97; 110; 100; 32; 118; 49; 32; 116; 114; 97; 102; 102; 105; 99;
               32; 107; 101; 121; 115].
Definition KEY_LEN : nat := 32.

Arguments HKDF_INFO : simpl never.

Record SessionState := mkState {
  keys : TrafficKeys; local_public_key : list byte; peer_public_key : list byte;
  initiates : bool }.

Record EphemeralKeypair := mkEphemeral { eph_secret : list byte; eph_public : list byte }.

(** The derived order of arrays: the first differing byte decides. *)
Fixpoint bytes_lt (a b : list byte) : bool :=
  match a, b with
  | x :: a, y :: b =>
      if Byte.to_N x <? Byte.to_N y then true
      else if Byte.to_N y <? Byte.to_N x then false else bytes_lt a b
  | [], _ :: _ => true
  | _, [] => false
  end.

Section primitives.
Context `{Primitives}.

Definition eph_generate (random : list byte) : EphemeralKeypair :=
  {| eph_secret := random; eph_public := x25519 random basepoint |}.

Definition derive_session_state (self : EphemeralKeypair) (peer_pub : list byte) : SessionState :=
  let local_pub := eph_public self in
  let dh_output := x25519 (eph_secret self) peer_pub in
  let okm := hkdf None dh_output HKDF_INFO (KEY_LEN * 2) in
  {| keys := {| initiator_to_responder := take KEY_LEN okm;
                responder_to_initiator := drop KEY_LEN okm |};
     local_public_key := local_pub; peer_public_key := peer_pub;
     initiates := bytes_lt local_pub peer_pub |}.

(** What a side seals with, and what it opens with. *)
Definition seals_with (s : SessionState) : list byte := send_key (keys s) (initiates s).
Definition opens_with (s : SessionState) : list byte := recv_key (keys s) (initiates s).
End primitives.

(** ** Lemmas *)
Lemma bytes_lt_irrefl a : bytes_lt a a = false.
Proof. induction a as [|x a IH]; [done|]. cbn. by rewrite N.ltb_irrefl. Qed.

Lemma bytes_lt_total a b : a <> b -> bytes_lt b a = negb (bytes_lt a b).
Proof.
  revert b. induction a as [|x a IH]; intros [|y b] Hne; try done. cbn.
  destruct (N.ltb_spec (Byte.to_N x) (Byte.to_N y)), (N.ltb_spec (Byte.to_N y) (Byte.to_N x));
    try done; try lia.
  apply IH. intros ->. apply Hne. f_equal.
  rewrite <- (byte_of_to_N x), <- (byte_of_to_N y). f_equal. lia.
Qed.

(** * Properties *)

(** The exchange agrees: whatever the two secrets, both peers derive the same
    pair of 32-byte keys; when their public keys differ exactly one of them
    initiates, and what one seals with is what the other opens with.  A peer
    that meets its own public key is in no role: both ends then answer, and
    each seals with the key the other seals with. *)
Theorem exchange_agrees `{PrimitiveLaws} (a b : list byte) :
  let alice := eph_generate a in
  let bob := eph_generate b in
  let sa := derive_session_state alice (eph_public bob) in
  let sb := derive_session_state bob (eph_public alice) in
  keys sa = keys sb /\
  length (initiator_to_responder (keys sa)) = KEY_LEN /\
  length (responder_to_initiator (keys sa)) = KEY_LEN /\
  if decide (eph_public alice = eph_public bob)
  then initiates sa = false /\ initiates sb = false /\ seals_with sa = seals_with sb
  else initiates sb = negb (initiates sa) /\
       seals_with sa = opens_with sb /\ opens_with sa = seals_with sb.
Proof.
  intros alice bob sa sb.
  assert (keys sa = keys sb) as Hk.
  { unfold sa, sb, derive_session_state, alice, bob. cbn. by rewrite x25519_comm. }
  split; [exact Hk|]. split; [|split].
  1,2: unfold sa, derive_session_state; cbn [keys initiator_to_responder responder_to_initiator];
    rewrite ?length_take, ?length_drop, hkdf_length; unfold KEY_LEN; lia.
  unfold seals_with, opens_with. rewrite Hk.
  assert (initiates sa = bytes_lt (eph_public alice) (eph_public bob)) as Ha by done.
  assert (initiates sb = bytes_lt (eph_public bob) (eph_public alice)) as Hb by done.
  destruct (decide _) as [He|Hne].
  - rewrite Ha, Hb, He, !bytes_lt_irrefl. done.
  - rewrite (bytes_lt_total _ _ Hne) in Hb. rewrite Hb, Ha.
    by destruct (bytes_lt (eph_public alice) (eph_public bob)).
Qed.

Lemma exchange_agrees_witness :
  let alice := eph_generate [Byte.x01] in
  let bob := eph_generate [Byte.x02] in
  seals_with (derive_session_state alice (eph_public bob)) =
    opens_with (derive_session_state bob (eph_public alice)).
Proof.
  destruct (exchange_agrees [Byte.x01] [Byte.x02]) as (_ & _ & _ & Hr).
  destruct (decide _) as [He|]; [vm_compute in He; discriminate He|exact (proj1 (proj2 Hr))].
Defined.
End Exchange.

(** * The short authentication string *)
Module ShortAuth.
Definition WORD_LIST : list string :=
  [
   "acid"; "acre"; "aged"; "ajar"; "aloe"; "alto"; "amen"; "amok";
   "anew"; "apex"; "arch"; "area"; "aria"; "army"; "aura"; "avid";
   "axle"; "back"; "bale"; "ball"; "balm"; "band"; "bank"; "barn";
   "base"; "bath"; "bead"; "beam"; "bean"; "bear"; "belt"; "bend";
   "bird"; "bite"; "blue"; "bold"; "bone"; "book"; "boom"; "boot";
   "born"; "bowl"; "brew"; "brim"; "buck"; "bulb"; "bulk"; "bull";
   "bump"; "burn"; "buzz"; "cage"; "cake"; "calm"; "camp"; "cape";
   "card"; "care"; "cart"; "cash"; "cave"; "cell"; "cent"; "chef";
   "chin"; "chip"; "chop"; "clam"; "clay"; "clip"; "club"; "coal";
   "coat"; "coil"; "cold"; "comb"; "cone"; "cord"; "core"; "corn";
   "cost"; "crab"; "crew"; "crop"; "crow"; "cube"; "curb"; "curl";
   "damp"; "dark"; "dawn"; "daze"; "deft"; "desk"; "dial"; "diet";
   "dire"; "dish"; "disk"; "dock"; "dome"; "door"; "dorm"; "dove";
   "down"; "drag"; "drip"; "drop"; "drum"; "dune"; "dusk"; "dust";
   "earl"; "earn"; "echo"; "edge"; "emit"; "epic"; "exit"; "face";
   "fact"; "fail"; "fair"; "fall"; "fame"; "farm"; "fast"; "fate";
   "fawn"; "feat"; "feel"; "fern"; "fill"; "film"; "fine"; "fire";
   "fish"; "fist"; "flag"; "flaw"; "flex"; "flip"; "flow"; "foam";
   "fold"; "folk"; "fond"; "fork"; "form"; "fort"; "fray"; "free";
   "fuel"; "full"; "fume"; "fund"; "fuse"; "gale"; "gaze"; "gear";
   "glad"; "glen"; "glow"; "glue"; "goal"; "gold"; "golf"; "gong";
   "gown"; "grab"; "grin"; "grip"; "grit"; "gust"; "hail"; "half";
   "hall"; "halt"; "harm"; "harp"; "hash"; "haul"; "hawk"; "haze";
   "heal"; "heap"; "heat"; "heel"; "helm"; "help"; "herb"; "hike";
   "hill"; "hint"; "hold"; "hole"; "hook"; "horn"; "hull"; "hump";
   "hurl"; "idle"; "inch"; "iris"; "isle"; "itch"; "item"; "jade";
   "jail"; "jolt"; "jury"; "keen"; "keel"; "kelp"; "knob"; "knot";
   "lake"; "lame"; "lamp"; "land"; "lane"; "lark"; "lava"; "lawn";
   "leaf"; "lean"; "leap"; "lens"; "lime"; "link"; "lint"; "lion";
   "loft"; "loom"; "loop"; "lord"; "lore"; "lull"; "lump"; "lung";
   "lure"; "mace"; "main"; "mane"; "mark"; "mast"; "maze"; "mild";
   "mill"; "mint"; "mist"; "moan"; "moat"; "mode"; "mold"; "musk"]%string.

Record ShortAuthString := mkSas { raw : list byte }.

(** [m[i] ^ m[i+8] ^ m[i+16] ^ m[i+24]] for [i] = 0, 1, 2; a missing byte is the
    panic of the index, which a 32-byte array excludes. *)
Definition xor_byte (a b : byte) : byte := byte_of (N.lxor (Byte.to_N a) (Byte.to_N b)).

Definition fold_at (m : list byte) (i : nat) : byte :=
  let at_ j := nth j m Byte.x00 in
  xor_byte (xor_byte (xor_byte (at_ i) (at_ (i + 8)%nat)) (at_ (i + 16)%nat)) (at_ (i + 24)%nat).

Definition derive (session_material : list byte) : ShortAuthString :=
  {| raw := [fold_at session_material 0; fold_at session_material 1; fold_at session_material 2] |}.

Definition words (s : ShortAuthString) : list string :=
  map (fun b => nth (N.to_nat (Byte.to_N b)) WORD_LIST EmptyString) (raw s).

Definition raw_indices (s : ShortAuthString) : list byte := raw s.

(** [Display]: the words joined by dashes. *)
Definition phrase (s : ShortAuthString) : string := String.concat "-" (words s).

Fixpoint xor_all (a b : list byte) (diff : N) : N :=
  match a, b with
  | x :: a, y :: b => xor_all a b (N.lor diff (N.lxor (Byte.to_N x) (Byte.to_N y)))
  | _, _ => diff
  end.

Definition constant_time_eq (a b : list byte) : bool :=
  if negb (lenN a =? lenN b) then false else xor_all a b 0 =? 0.

(** ** Lemmas *)
Definition no_dash (s : string) : bool :=
  forallb (fun c => negb (Ascii.eqb c "-"%char)) (list_ascii_of_string s).

Lemma word_list_ok :
  length WORD_LIST = 256%nat /\ NoDup WORD_LIST /\ forallb no_dash WORD_LIST = true.
Proof.
  split; [reflexivity|]. split; [|vm_compute; reflexivity].
  apply (bool_decide_unpack _). vm_compute. exact I.
Qed.

Lemma word_inj (a b : byte) :
  nth (N.to_nat (Byte.to_N a)) WORD_LIST EmptyString =
  nth (N.to_nat (Byte.to_N b)) WORD_LIST EmptyString -> a = b.
Proof.
  destruct word_list_ok as (Hl & Hn & _). intros He.
  pose proof (byte_to_N_lt a). pose proof (byte_to_N_lt b).
  rewrite NoDup_ListNoDup in Hn.
  apply (proj1 (NoDup_nth WORD_LIST EmptyString) Hn) in He; [|rewrite Hl; lia..].
  rewrite <- (byte_of_to_N a), <- (byte_of_to_N b). f_equal. lia.
Qed.

Lemma word_no_dash (a : byte) : no_dash (nth (N.to_nat (Byte.to_N a)) WORD_LIST EmptyString) = true.
Proof.
  destruct word_list_ok as (Hl & _ & Hd). rewrite forallb_forall in Hd. apply Hd, nth_In.
  rewrite Hl. pose proof (byte_to_N_lt a). lia.
Qed.

(** The first dash ends the first word. *)
Lemma dash_inj w w' r r' :
  no_dash w = true -> no_dash w' = true ->
  (w ++ String "-" r)%string = (w' ++ String "-" r')%string -> w = w' /\ r = r'.
Proof.
  revert w'. induction w as [|c w IH]; intros [|c' w'] Hw Hw' He; cbn in *.
  - by injection He as ->.
  - injection He as <- _. done.
  - injection He as -> _. done.
  - injection He as -> He. apply andb_true_iff in Hw as [_ Hw], Hw' as [_ Hw'].
    destruct (IH w' Hw Hw' He) as [-> ->]. done.
Qed.

Lemma xor_all_0 a b d : length a = length b -> xor_all a b d = 0 <-> d = 0 /\ a = b.
Proof.
  revert b d. induction a as [|x a IH]; intros [|y b] d Hl; try done; cbn [xor_all].
  - naive_solver.
  - rewrite IH by (cbn in Hl; lia). rewrite N.lor_eq_0_iff, N.lxor_eq_0_iff. split.
    + intros [[-> Hx] ->]. split; [done|]. f_equal.
      rewrite <- (byte_of_to_N x), <- (byte_of_to_N y). by f_equal.
    + intros [-> [= -> ->]]. done.
Qed.

(** * Properties *)

(** The phrase is exactly the three index bytes: two transcripts display the
    same phrase if and only if they fold to the same three bytes, so a match
    vouches for 24 bits of the transcript hash; in particular the twenty bytes
    at positions 3 to 7 modulo 8 have no influence on it. *)
Theorem phrase_vouches_for_24_bits (m m' : list byte) :
  (phrase (derive m) = phrase (derive m') <-> raw (derive m) = raw (derive m')) /\
  forall i b, (3 <= i mod 8)%nat -> phrase (derive (<[i := b]> m)) = phrase (derive m).
Proof.
  split; [split; [|intros H; unfold phrase, words; by rewrite H]|].
  - unfold phrase, words, derive. cbn [raw map String.concat]. intros He.
    apply dash_inj in He as [E1 He]; [|apply word_no_dash..].
    apply dash_inj in He as [E2 E3]; [|apply word_no_dash..].
    apply word_inj in E1, E2, E3. by rewrite E1, E2, E3.
  - intros i b Hi. unfold phrase. do 2 f_equal.
    assert (forall j, (j mod 8 < 3)%nat -> nth j (<[i := b]> m) Byte.x00 = nth j m Byte.x00) as Hn.
    { intros j Hj. assert (i <> j) as Hne by (intros ->; lia).
      rewrite !nth_lookup. by rewrite list_lookup_insert_ne. }
    unfold derive, fold_at. rewrite !Hn by (vm_compute; lia). done.
Qed.

(** The comparison that does not stop early is equality. *)
Theorem constant_time_eq_iff (a b : list byte) : constant_time_eq a b = true <-> a = b.
Proof.
  unfold constant_time_eq, lenN. destruct (N.eqb_spec (N.of_nat (length a)) (N.of_nat (length b)));
    cbn [negb].
  - rewrite N.eqb_eq, xor_all_0 by lia. naive_solver.
  - split; [done|]. intros ->. done.
Qed.
End ShortAuth.
