(* ===== verification/RelayGuard.v ===== *)
(** Datagram encryption and the relay bridge: [core/crypto/src/relay_guard.rs].

    [Instant::now()] is an argument, in nanoseconds. *)
From S2P Require Import Prelude Crypto NoiseIk TurnRelay.
#[local] Open Scope N_scope.

Definition TRAFFIC_KEY_DATAGRAM_LIMIT : N := N.shiftl 1 30.
Definition TRAFFIC_KEY_MAX_AGE : N := 15 * 60 * 10 ^ 9.
Definition RELAY_GUARD_OVERHEAD_BYTES : N := 28.

(** The private field is the ciphertext; [seal] is the only constructor. *)
Record RelayPayload := mkPayload { payload_bytes : list byte }.

Definition payload_len (p : RelayPayload) : N := lenN (payload_bytes p).
Definition payload_is_empty (p : RelayPayload) : bool := payload_len p =? 0.

Record DatagramCipher := mkCipher { key : list byte; counter : N; born_at : N }.

Definition cipher_new (k : list byte) (now : N) : DatagramCipher :=
  {| key := k; counter := 0; born_at := now |}.

(** [elapsed] is zero for an instant in the future. *)
Definition needs_rekey (c : DatagramCipher) (now : N) : bool :=
  (TRAFFIC_KEY_DATAGRAM_LIMIT <=? counter c) || (TRAFFIC_KEY_MAX_AGE <=? now - born_at c).

Definition rotate_key (c : DatagramCipher) (new_key : list byte) (now : N) : DatagramCipher :=
  {| key := new_key; counter := 0; born_at := now |}.

Definition nonce_bytes (c : DatagramCipher) : list byte := repeat Byte.x00 4 ++ le_bytes 8 (counter c).

Section primitives.
Context `{Primitives}.

Definition seal (c : DatagramCipher) (plaintext : list byte) : DatagramCipher * RelayPayload :=
  let nonce := nonce_bytes c in
  ({| key := key c; counter := wrap 64 (counter c + 1); born_at := born_at c |},
   {| payload_bytes := nonce ++ aead_encrypt (key c) nonce [] plaintext |}).

Definition open_payload (c : DatagramCipher) (payload : RelayPayload) : option (list byte) :=
  let bytes := payload_bytes payload in
  if lenN bytes <? RELAY_GUARD_OVERHEAD_BYTES then None
  else aead_decrypt (key c) (take 12 bytes) [] (drop 12 bytes).

Definition open_bytes (c : DatagramCipher) (wire : list byte) : option (list byte) :=
  open_payload c {| payload_bytes := wire |}.
End primitives.

Record E2eeRelayBridge := mkBridge { framer : TurnChannelDataFramer }.

(** The range of [channel_number] is a debug assertion. *)
Definition bridge_new (channel_number : N) : E2eeRelayBridge :=
  {| framer := framer_new channel_number |}.

Definition frame_for_relay (b : E2eeRelayBridge) (payload : RelayPayload) : option (list byte) :=
  TurnRelay.encode (framer b) (payload_bytes payload).

Definition bridge_channel_number (b : E2eeRelayBridge) : N := channel_number (framer b).

(** ** The life of a cipher *)
Inductive Op := Seal (plaintext : list byte) | Rotate (new_key : list byte) (now : N).

(** The (key, nonce) pairs a sequence of operations encrypts with. *)
Fixpoint uses `{Primitives} (c : DatagramCipher) (ops : list Op) : list (list byte * list byte) :=
  match ops with
  | [] => []
  | Seal pt :: ops =>
      (key c, take 12 (payload_bytes (snd (seal c pt)))) :: uses (fst (seal c pt)) ops
  | Rotate k now :: ops => uses (rotate_key c k now) ops
  end.

Fixpoint installed (ops : list Op) : list (list byte) :=
  match ops with
  | [] => []
  | Seal _ :: ops => installed ops
  | Rotate k _ :: ops => k :: installed ops
  end.

Definition seals (ops : list Op) : N :=
  sum_of (fun o => match o with Seal _ => 1 | Rotate _ _ => 0 end) ops.

(** ** Lemmas *)
Section laws.
Context `{PrimitiveLaws}.
Implicit Types (c : DatagramCipher) (ops : list Op).

Lemma nonce_length c : length (nonce_bytes c) = 12%nat.
Proof. unfold nonce_bytes. by rewrite length_app, le_bytes_length. Qed.

Lemma nonce_inj c c' :
  counter c < 2 ^ 64 -> counter c' < 2 ^ 64 -> nonce_bytes c = nonce_bytes c' ->
  counter c = counter c'.
Proof.
  intros Hc Hc' He. apply app_inv_head in He.
  apply (f_equal le_value) in He. by rewrite !le_value_bytes_small in He.
Qed.

Lemma seal_nonce c pt : take 12 (payload_bytes (snd (seal c pt))) = nonce_bytes c.
Proof. apply take_app_length'. by rewrite nonce_length. Qed.

Lemma seal_length c pt : lenN (payload_bytes (snd (seal c pt))) = lenN pt + 28.
Proof.
  cbn [seal snd payload_bytes]. rewrite lenN_app, aead_length. unfold lenN at 1.
  rewrite nonce_length. lia.
Qed.

Lemma open_seal c c' pt :
  key c' = key c -> open_bytes c' (payload_bytes (snd (seal c pt))) = Some pt.
Proof.
  intros Hk. unfold open_bytes, open_payload, RELAY_GUARD_OVERHEAD_BYTES. cbn [payload_bytes].
  rewrite seal_length, (proj2 (N.ltb_ge _ _)) by lia. rewrite seal_nonce.
  cbn [seal snd payload_bytes]. rewrite drop_app_length' by (by rewrite nonce_length).
  rewrite Hk. apply aead_correct.
Qed.

Lemma uses_fresh c ops :
  counter c + seals ops < 2 ^ 64 -> NoDup (key c :: installed ops) ->
  NoDup (uses c ops) /\
  forall k nonce, (k, nonce) ∈ uses c ops ->
    (k = key c /\ exists c', nonce = nonce_bytes c' /\ counter c <= counter c' < 2 ^ 64) \/
    k ∈ installed ops.
Proof.
  revert c. induction ops as [|[pt|k now] ops IH]; intros c Hb Hk; cbn [uses installed] in *.
  - split; [constructor|]. intros ? ? []%not_elem_of_nil.
  - unfold seals in Hb. rewrite sum_of_cons in Hb. fold (seals ops) in Hb.
    destruct (IH (fst (seal c pt))) as [Hn Hu]; cbn [seal fst key counter] in *;
      rewrite ?wrap_small in * by lia; [lia|done|].
    rewrite seal_nonce. split.
    + constructor; [|done]. intros Hin. apply Hu in Hin as [[_ (c' & He & Hc')]|Hin].
      * apply nonce_inj in He; lia.
      * by apply NoDup_cons in Hk as [? _].
    + intros k nonce [He|Hin]%elem_of_cons.
      * left. injection He as -> ->. split; [done|]. exists c. split; [done|lia].
      * apply Hu in Hin as [[-> (c' & -> & Hc')]|Hin]; [left|by right].
        split; [done|]. exists c'. split; [done|lia].
  - apply NoDup_cons in Hk as [Hck Hk].
    destruct (IH (rotate_key c k now)) as [Hn Hu]; cbn [rotate_key key counter];
      [unfold seals in *; rewrite sum_of_cons in Hb; lia|done|].
    split; [done|]. intros k' nonce Hin. right. rewrite elem_of_cons.
    apply Hu in Hin as [[-> _]|Hin]; [by left|by right].
Qed.
End laws.

(** * Properties *)

(** C17: No nonce is used twice under one key: over any life of a cipher with fewer
    than 2^64 datagrams, in which no key is installed twice, the (key, nonce)
    pairs of the datagrams it seals are pairwise distinct. *)
Theorem nonces_never_repeat `{PrimitiveLaws} (k : list byte) (now : N) (ops : list Op)
    (Hseals : seals ops < 2 ^ 64) (Hkeys : NoDup (k :: installed ops)) :
  NoDup (uses (cipher_new k now) ops).
Proof. by apply uses_fresh. Qed.

Lemma nonces_never_repeat_witness :
  NoDup (uses (cipher_new [Byte.x01] 0)
    [Seal []; Seal [Byte.x07]; Rotate [Byte.x02] 5; Seal [Byte.x07]]).
Proof.
  apply nonces_never_repeat; [vm_compute; reflexivity|].
  repeat constructor; cbn; set_solver.
Defined.

(** What crosses the relay is sealed and comes back: a sealed datagram is framed
    for the relay exactly when the plaintext is at most 1172 bytes; the relay's
    message is then 32 bytes longer than the plaintext, unframes to the same
    channel and payload, and opens to the plaintext under the same key; and
    other bytes with that nonce open only if they are the sealing of what they
    open to. *)
Theorem relay_carries_sealed `{PrimitiveLaws} (c c' : DatagramCipher) (channel : N)
    (plaintext : list byte) (Hch : channel < 2 ^ 16) (Hkey : key c' = key c) :
  let '(_, payload) := seal c plaintext in
  match frame_for_relay (bridge_new channel) payload with
  | None => 1172 < lenN plaintext
  | Some bytes =>
      lenN plaintext <= 1172 /\ lenN bytes = lenN plaintext + 32 /\
      exists wire, TurnRelay.decode bytes = Some (channel, wire) /\
        open_bytes c' wire = Some plaintext /\
        forall wire' pt, take 12 wire' = take 12 wire -> open_bytes c' wire' = Some pt ->
          wire' = payload_bytes (snd (seal c pt))
  end.
Proof.
  destruct (seal c plaintext) as [c1 p] eqn:Hs.
  assert (payload_bytes p = payload_bytes (snd (seal c plaintext))) as Hp by (by rewrite Hs).
  pose proof (seal_length c plaintext) as Hl. rewrite <- Hp in Hl.
  destruct (frame_for_relay (bridge_new channel) p) as [bytes|] eqn:Hf.
  2: { unfold frame_for_relay, TurnRelay.encode, TURN_MAX_PAYLOAD_BYTES in Hf.
       case_ifs_in Hf; [|done]. lia. }
  pose proof (encode_length _ _ _ Hf) as Hbl. pose proof (encode_Some _ _ _ Hf) as [Hmax _].
  unfold TURN_MAX_PAYLOAD_BYTES in Hmax.
  split; [lia|]. split; [lia|]. exists (payload_bytes p).
  split; [by apply (framer_roundtrip (framer (bridge_new channel)))|].
  rewrite Hp. split; [by apply open_seal|]. intros wire' pt Ht Ho.
  rewrite seal_nonce in Ht. unfold open_bytes, open_payload in Ho. cbn [payload_bytes] in Ho.
  case_ifs_in Ho; [done|]. apply aead_tidy in Ho. rewrite Hkey, Ht in Ho.
  cbn [seal snd payload_bytes]. rewrite <- Ho, <- Ht. by rewrite take_drop.
Qed.

Lemma relay_carries_sealed_witness :
  let c := cipher_new [Byte.x01] 0 in
  exists bytes wire,
    frame_for_relay (bridge_new 0x4000) (snd (seal c [Byte.x68; Byte.x69])) = Some bytes /\
    lenN bytes = 34 /\ TurnRelay.decode bytes = Some (0x4000, wire) /\
    open_bytes c wire = Some [Byte.x68; Byte.x69].
Proof.
  intros c. pose proof (relay_carries_sealed c c 0x4000 [Byte.x68; Byte.x69]) as Hr.
  cbn [seal snd] in *.
  destruct (frame_for_relay _ _) as [bytes|].
  - destruct Hr as (_ & Hl & wire & Hd & Ho & _); [vm_compute; reflexivity|reflexivity|].
    exists bytes, wire. split; [reflexivity|]. split; [exact Hl|]. split; [exact Hd|exact Ho].
  - specialize (Hr ltac:(vm_compute; reflexivity) eq_refl). vm_compute in Hr. discriminate.
Defined.
