(* ===== verification/SecureChannel.v ===== *)
(** The encrypted UDP channel: [core/crypto/src/udp_session.rs], over the
    handshake of NoiseIk and the ciphers of RelayGuard.

    The socket is not modelled: a send is the datagram it puts on the wire, a
    receive is given the datagram that arrived, cut to the receive buffer. *)
From S2P Require Import Prelude Text Crypto NoiseIk RelayGuard.
#[local] Open Scope N_scope.

(** [Io] stands for the socket's errors, which are not modelled. *)
Inductive SessionError := Io | Handshake (e : HandshakeError) | AuthFailed.

Record SecureSession := mkSession {
  send_cipher : DatagramCipher; recv_cipher : DatagramCipher; s_is_initiator : bool;
  s_transcript_hash : list byte; s_remote_static_pubkey : list byte }.

Definition from_handshake (now : N) (hr : HandshakeResult) : SecureSession :=
  {| send_cipher := cipher_new (send_key (traffic_keys hr) (is_initiator hr)) now;
     recv_cipher := cipher_new (recv_key (traffic_keys hr) (is_initiator hr)) now;
     s_is_initiator := is_initiator hr;
     s_transcript_hash := transcript_hash hr;
     s_remote_static_pubkey := remote_static_pubkey hr |}.

Definition RECV_BUFFER : N := 8192.

(** [recv_from] into a buffer of [n] bytes. *)
Definition recv_from (n : N) (datagram : list byte) : list byte := take (N.to_nat n) datagram.

Section primitives.
Context `{Primitives}.

(** [connect] up to its wait for message 2, and from there. *)
Definition connect_send (local_static : StaticKeypair) (remote_static_pubkey : list byte)
    (session_code : str) (e_secret : list byte) : NoiseIkInitiator * list byte :=
  initiator_new local_static remote_static_pubkey session_code e_secret.

Definition connect_recv (i : NoiseIkInitiator) (local_static : StaticKeypair)
    (datagram : list byte) (now : N) : result SessionError SecureSession :=
  let buf := recv_from MSG2_LEN datagram in
  if negb (lenN buf =? MSG2_LEN)
  then Err (Handshake (BadMessageLength MSG2_LEN (lenN buf)))
  else
    match receive_message2 i local_static buf with
    | Ok hr => Ok (from_handshake now hr)
    | Err e => Err (Handshake e)
    end.

Definition accept (local_static : StaticKeypair) (session_code : str) (datagram : list byte)
    (e_secret : list byte) (now : N) : result SessionError (SecureSession * list byte) :=
  match receive_message1 local_static session_code (recv_from MSG1_LEN datagram) with
  | Err e => Err (Handshake e)
  | Ok responder =>
      let '(hr, msg2) := send_message2 responder e_secret in
      Ok (from_handshake now hr, msg2)
  end.

Definition send (s : SecureSession) (plaintext : list byte) : SecureSession * list byte :=
  let '(c, sealed) := seal (send_cipher s) plaintext in
  ({| send_cipher := c; recv_cipher := recv_cipher s; s_is_initiator := s_is_initiator s;
      s_transcript_hash := s_transcript_hash s;
      s_remote_static_pubkey := s_remote_static_pubkey s |}, payload_bytes sealed).

Definition recv (s : SecureSession) (datagram : list byte) : result SessionError (list byte) :=
  ok_or AuthFailed (open_bytes (recv_cipher s) (recv_from RECV_BUFFER datagram)).

Definition session_needs_rekey (s : SecureSession) (now : N) : bool :=
  needs_rekey (send_cipher s) now.

(** The two halves own one direction's cipher each. *)
Record SecureSender := mkSender { sender_cipher : DatagramCipher }.
Record SecureReceiver := mkReceiver { receiver_cipher : DatagramCipher }.

Definition session_split (s : SecureSession) : SecureSender * SecureReceiver :=
  ({| sender_cipher := send_cipher s |}, {| receiver_cipher := recv_cipher s |}).

Definition sender_send (s : SecureSender) (plaintext : list byte) : SecureSender * list byte :=
  let '(c, sealed) := seal (sender_cipher s) plaintext in
  ({| sender_cipher := c |}, payload_bytes sealed).

Definition receiver_recv (s : SecureReceiver) (datagram : list byte) :
    result SessionError (list byte) :=
  ok_or AuthFailed (open_bytes (receiver_cipher s) (recv_from RECV_BUFFER datagram)).

(** ** A conversation *)
Fixpoint send_all (s : SecureSession) (plaintexts : list (list byte)) : list (list byte) :=
  match plaintexts with
  | [] => []
  | pt :: pts => let '(s, wire) := send s pt in wire :: send_all s pts
  end.

(** The handshake of two sides over a wire that delivers. *)
Definition establish (si sr ei er : list byte) (code : str) (now_i now_r : N) :
    result SessionError (SecureSession * SecureSession) :=
  let ki := generate si in let kr := generate sr in
  let '(i, msg1) := connect_send ki (public kr) code ei in
  '(r, msg2) ← accept kr code msg1 er now_r;
  i ← connect_recv i ki msg2 now_i;
  Ok (i, r).
End primitives.

(** ** Lemmas *)
Section laws.
Context `{PrimitiveLaws}.

Lemma recv_from_all n d : lenN d <= n -> recv_from n d = d.
Proof. unfold recv_from, lenN. intros. apply take_ge. lia. Qed.

Lemma establish_keys si sr ei er code now_i now_r :
  exists a b, establish si sr ei er code now_i now_r = Ok (a, b) /\
    key (send_cipher a) = key (recv_cipher b) /\ key (send_cipher b) = key (recv_cipher a) /\
    counter (send_cipher a) = 0 /\ counter (send_cipher b) = 0 /\
    s_transcript_hash a = s_transcript_hash b /\
    s_remote_static_pubkey a = public (generate sr) /\
    s_remote_static_pubkey b = public (generate si).
Proof.
  unfold establish, connect_send, accept. cbv zeta.
  pose proof (handshake_facts si sr ei er code) as Ha. cbv zeta in Ha.
  destruct (initiator_new (generate si) _ code ei) as [i m1].
  destruct Ha as (L1 & r & Hr & Ha). rewrite recv_from_all by lia. rewrite Hr.
  destruct (send_message2 r er) as [rr m2] eqn:Hs.
  destruct Ha as (L2 & ri & Hf & Hk & Ht & Hp & Hq & Hdir & Hi & Hri).
  cbn [mbind result_bind]. unfold connect_recv. rewrite recv_from_all by lia.
  rewrite L2, N.eqb_refl, Hf. cbn [negb mbind result_bind].
  eexists _, _. split; [reflexivity|].
  cbn [from_handshake send_cipher recv_cipher cipher_new key counter s_transcript_hash
       s_remote_static_pubkey]. rewrite Hi, Hri, Hk. split_and!; done.
Qed.

Lemma send_all_lookup s pts j wire :
  send_all s pts !! j = Some wire ->
  exists c pt, pts !! j = Some pt /\ key c = key (send_cipher s) /\
    wire = payload_bytes (snd (seal c pt)).
Proof.
  revert s j. induction pts as [|pt pts IH]; intros s j; [done|].
  destruct j as [|j]; cbn.
  - intros [= <-]. exists (send_cipher s), pt. done.
  - intros Hj. apply IH in Hj as (c & pt' & Hp & Hk & ->). by exists c, pt'.
Qed.

Lemma send_all_uses s pts :
  map (fun w => (key (send_cipher s), take 12 w)) (send_all s pts) =
  uses (send_cipher s) (map Seal pts).
Proof.
  revert s. induction pts as [|pt pts IH]; intros s; [done|].
  cbn [send_all send seal map uses]. f_equal.
  exact (IH (fst (send s pt))).
Qed.

Lemma installed_seals pts : installed (map Seal pts) = [] /\ seals (map Seal pts) = lenN pts.
Proof.
  induction pts as [|pt pts [H1 H2]]; [done|]. split; [exact H1|].
  unfold seals in *. cbn [map]. by rewrite sum_of_cons, H2, lenN_cons.
Qed.
End laws.

(** * Properties *)

(** C4: From join code to media: a handshake over a wire that delivers establishes
    two sessions that know each other's keys and share a transcript hash; every
    datagram of at most 8164 bytes that one side sends is then received as it
    was, whatever the order, loss or repetition of the datagrams around it; and
    as long as the two traffic keys differ, no two of all the datagrams of both
    sides are sealed under the same key and nonce. *)
Theorem session_delivers `{PrimitiveLaws} (si sr ei er : list byte) (code : str)
    (now_i now_r : N) (ps qs : list (list byte))
    (Hps : lenN ps < 2 ^ 64) (Hqs : lenN qs < 2 ^ 64)
    (Hsize : Forall (fun p => lenN p <= 8164) (ps ++ qs)) :
  exists a b, establish si sr ei er code now_i now_r = Ok (a, b) /\
    s_transcript_hash a = s_transcript_hash b /\
    s_remote_static_pubkey a = public (generate sr) /\
    s_remote_static_pubkey b = public (generate si) /\
    (forall j wire, send_all a ps !! j = Some wire -> recv b wire = ok_or Io (ps !! j)) /\
    (forall j wire, send_all b qs !! j = Some wire -> recv a wire = ok_or Io (qs !! j)) /\
    (key (send_cipher a) <> key (send_cipher b) ->
     NoDup (map (fun w => (key (send_cipher a), take 12 w)) (send_all a ps) ++
            map (fun w => (key (send_cipher b), take 12 w)) (send_all b qs))).
Proof.
  destruct (establish_keys si sr ei er code now_i now_r)
    as (a & b & He & Hab & Hba & Ca & Cb & Ht & Hpa & Hpb).
  exists a, b. do 4 (split; [done|]).
  assert (forall s s' pts j wire, key (send_cipher s) = key (recv_cipher s') ->
    Forall (fun p => lenN p <= 8164) pts ->
    send_all s pts !! j = Some wire -> recv s' wire = ok_or Io (pts !! j)) as Hdel.
  { intros s s' pts j wire Hk Hsz Hj.
    apply send_all_lookup in Hj as (c & pt & Hp & Hc & ->). rewrite Hp.
    pose proof (Forall_lookup_1 _ _ _ _ Hsz Hp) as Hl. cbn beta in Hl.
    unfold recv, RECV_BUFFER. rewrite recv_from_all by (rewrite seal_length; lia).
    by rewrite (open_seal c) by congruence. }
  apply Forall_app in Hsize as [Hsp Hsq].
  split; [intros; by eapply Hdel|]. split; [intros; by eapply Hdel|].
  intros Hne. rewrite !send_all_uses.
  destruct (installed_seals ps) as [Ip Sp], (installed_seals qs) as [Iq Sq].
  destruct (uses_fresh (send_cipher a) (map Seal ps)) as [Na Ua];
    [rewrite Ca, Sp; lia|rewrite Ip; apply NoDup_singleton|].
  destruct (uses_fresh (send_cipher b) (map Seal qs)) as [Nb Ub];
    [rewrite Cb, Sq; lia|rewrite Iq; apply NoDup_singleton|].
  apply NoDup_app. split; [done|]. split; [|done].
  intros [k nc] Hin Hin'. apply Ua in Hin as [[-> _]|Hin]; [|rewrite Ip in Hin; by apply not_elem_of_nil in Hin].
  apply Ub in Hin' as [[He' _]|Hin']; [done|rewrite Iq in Hin'; by apply not_elem_of_nil in Hin'].
Qed.

Lemma session_delivers_witness :
  exists a b,
    establish [Byte.x01] [Byte.x02] [Byte.x03] [Byte.x04] [49; 50] 0 0 = Ok (a, b) /\
    forall j wire, send_all a [[Byte.x61]; [Byte.x62]] !! j = Some wire ->
      recv b wire = ok_or Io ([[Byte.x61]; [Byte.x62]] !! j).
Proof.
  destruct (session_delivers [Byte.x01] [Byte.x02] [Byte.x03] [Byte.x04] [49; 50] 0 0
    [[Byte.x61]; [Byte.x62]] [[Byte.x63]]) as (a & b & He & _ & _ & _ & Hd & _).
  - vm_compute. reflexivity.
  - vm_compute. reflexivity.
  - repeat constructor; vm_compute; discriminate.
  - exists a, b. split; [exact He|exact Hd].
Defined.
