(* ===== verification/TemporalSvc.v ===== *)
(** Temporal layers and their congestion-driven drop:
    [core/platform/src/temporal_svc.rs], and what each stream does under
    congestion: [core/platform/src/stream_drop_policy.rs]. *)
From S2P Require Import Prelude F64.
#[local] Open Scope N_scope.

Definition OVERUSE_ESCALATE_TICKS : N := 3.
Definition UNDERUSE_RELAX_TICKS : N := 30.

Inductive TemporalSvcMode := L1T2 | L1T3.

(** [TemporalLayerId(u8)] *)
Abbreviation TemporalLayerId := N (only parsing).

Definition T0 : TemporalLayerId := 0.
Definition T1 : TemporalLayerId := 1.
Definition T2 : TemporalLayerId := 2.
Definition NO_DROP : N := 255.

Record TemporalLayerAssigner := mkAssigner { mode : TemporalSvcMode; frame_count : N }.

Definition assigner_new (mode : TemporalSvcMode) : TemporalLayerAssigner :=
  {| mode := mode; frame_count := 0 |}.

Definition layer_for (mode : TemporalSvcMode) (n : N) : TemporalLayerId :=
  match mode with
  | L1T2 => if n mod 2 =? 0 then T0 else T1
  | L1T3 => match n mod 4 with 0 => T0 | 2 => T1 | _ => T2 end
  end.

Definition next_layer (a : TemporalLayerAssigner) : TemporalLayerAssigner * TemporalLayerId :=
  ({| mode := mode a; frame_count := wrapping_add 64 (frame_count a) 1 |},
   layer_for (mode a) (frame_count a)).

Record TemporalSvcController := mkController {
  assigner : TemporalLayerAssigner; drop_floor : N; overuse_ticks : N; underuse_ticks : N }.

Definition new (mode : TemporalSvcMode) : TemporalSvcController :=
  {| assigner := assigner_new mode; drop_floor := NO_DROP; overuse_ticks := 0; underuse_ticks := 0 |}.

Definition escalate (c : TemporalSvcController) : N :=
  match mode (assigner c) with
  | L1T2 => T1
  | L1T3 => if drop_floor c =? NO_DROP then T2 else T1
  end.

Definition relax (c : TemporalSvcController) : N :=
  match mode (assigner c) with
  | L1T2 => NO_DROP
  | L1T3 => if drop_floor c <=? T1 then T2 else NO_DROP
  end.

Definition update (c : TemporalSvcController) (overuse : bool) : TemporalSvcController :=
  if overuse then
    let ticks := wrap 32 (overuse_ticks c + 1) in
    if OVERUSE_ESCALATE_TICKS <=? ticks
    then {| assigner := assigner c; drop_floor := escalate c; overuse_ticks := 0;
            underuse_ticks := 0 |}
    else {| assigner := assigner c; drop_floor := drop_floor c; overuse_ticks := ticks;
            underuse_ticks := 0 |}
  else
    let ticks := wrap 32 (underuse_ticks c + 1) in
    if UNDERUSE_RELAX_TICKS <=? ticks
    then {| assigner := assigner c; drop_floor := relax c; overuse_ticks := 0;
            underuse_ticks := 0 |}
    else {| assigner := assigner c; drop_floor := drop_floor c; overuse_ticks := 0;
            underuse_ticks := ticks |}.

Definition next_frame (c : TemporalSvcController) :
    TemporalSvcController * (TemporalLayerId * bool) :=
  let '(a, layer) := next_layer (assigner c) in
  ({| assigner := a; drop_floor := drop_floor c; overuse_ticks := overuse_ticks c;
      underuse_ticks := underuse_ticks c |}, (layer, drop_floor c <=? layer)).

Definition active_frame_fraction (c : TemporalSvcController) : f64 :=
  match mode (assigner c) with
  | L1T2 => if drop_floor c <=? T1 then f_lit 1 2 else f_one
  | L1T3 =>
      if drop_floor c <=? T1 then f_lit 1 4
      else if drop_floor c <=? T2 then f_lit 1 2 else f_one
  end.

(** ** The drop policies *)
Inductive StreamKind :=
| Audio | Input | ScreenCoarse | ScreenRefinement | CameraGearA | CameraGearB | CameraGearC
| VideoSubStream | FileTransfer.

Inductive DropPolicy := Droppable | Layered (base_fraction : f32).

Definition is_droppable (p : DropPolicy) : bool := match p with Droppable => true | Layered _ => false end.
Definition is_layered (p : DropPolicy) : bool := match p with Layered _ => true | Droppable => false end.
Definition base_fraction (p : DropPolicy) : f32 := match p with Droppable => s_zero | Layered r => r end.
Definition needs_keyframe_on_transition (p : DropPolicy) : bool := false.

Definition for_kind (k : StreamKind) : DropPolicy :=
  match k with
  | Audio | Input | ScreenCoarse | ScreenRefinement | CameraGearA => Droppable
  | CameraGearB => Layered (s_lit 1 2)
  | CameraGearC | VideoSubStream | FileTransfer => Droppable
  end.

Definition KINDS : list StreamKind :=
  [Audio; Input; ScreenCoarse; ScreenRefinement; CameraGearA; CameraGearB; CameraGearC; VideoSubStream; FileTransfer].

Definition all_streams_keyframe_free : bool :=
  forallb (fun k => negb (needs_keyframe_on_transition (for_kind k))) KINDS.

(** The frames in which the base layer comes once. *)
Definition period (m : TemporalSvcMode) : N := match m with L1T2 => 2 | L1T3 => 4 end.

(** The frames to come before the next of the base layer. *)
Definition slack (m : TemporalSvcMode) (n : N) : N :=
  match m with L1T2 => n mod 2 | L1T3 => (4 - n mod 4) mod 4 end.

Definition forwarded (frames : list (TemporalLayerId * bool)) : N :=
  lenN (filter (fun f => f.2 = false) frames).

(** ** A session: governor ticks and encoded frames in any order *)
Inductive Op := Update (overuse : bool) | Frame.

Definition run_op (c : TemporalSvcController) (o : Op) :
    TemporalSvcController * list (TemporalLayerId * bool) :=
  match o with
  | Update overuse => (update c overuse, [])
  | Frame => let '(c, f) := next_frame c in (c, [f])
  end.

Fixpoint run (c : TemporalSvcController) (ops : list Op) :
    TemporalSvcController * list (TemporalLayerId * bool) :=
  match ops with
  | [] => (c, [])
  | o :: ops =>
      let '(c, fs) := run_op c o in
      let '(c, gs) := run c ops in (c, fs ++ gs)
  end.

(** ** The abstract machine: how many layers are withheld, and the streaks *)
Definition top (m : TemporalSvcMode) : N := match m with L1T2 => 1 | L1T3 => 2 end.

(** The layers withheld at a drop floor. *)
Definition level_of (m : TemporalSvcMode) (floor : N) : N :=
  match m with
  | L1T2 => if floor <=? 1 then 1 else 0
  | L1T3 => if floor <=? 1 then 2 else if floor <=? 2 then 1 else 0
  end.

Definition level (c : TemporalSvcController) : N := level_of (mode (assigner c)) (drop_floor c).

(** The drop level steps up by one after every third overuse tick in a row and
    down by one after every thirtieth clear tick in a row. *)
Definition spec_update (m : TemporalSvcMode) (s : N * N * N) (overuse : bool) : N * N * N :=
  let '(lvl, up, down) := s in
  if overuse
  then if up =? 2 then (N.min (lvl + 1) (top m), 0, 0) else (lvl, up + 1, 0)
  else if down =? 29 then (lvl - 1, 0, 0) else (lvl, 0, down + 1).

Definition updates (ops : list Op) : list bool :=
  omap (fun o => match o with Update b => Some b | Frame => None end) ops.

(** ** Lemmas *)
Record ok (c : TemporalSvcController) : Prop := {
  ok_floor : drop_floor c = NO_DROP \/ drop_floor c = T1 \/
    (drop_floor c = T2 /\ mode (assigner c) = L1T3);
  ok_up : overuse_ticks c <= 2;
  ok_down : underuse_ticks c <= 29;
}.

Lemma mod_mul_mod a b c : (a mod (b * c)) mod b = a mod b.
Proof.
  rewrite N.Div0.mod_mul_r, N.mul_comm, N.Div0.mod_add. apply N.Div0.mod_mod.
Qed.

(** The counter's wrap-around keeps the period of the layers. *)
Lemma wrap_period n k d :
  d = 2 \/ d = 4 -> wrap 64 (n + k) mod d = (n mod 4 + k) mod d.
Proof.
  intros Hd. assert (forall x, x mod d = (x mod 4) mod d) as H4.
  { intros x. destruct Hd as [->| ->]; [|by rewrite N.Div0.mod_mod].
    symmetry. exact (mod_mul_mod x 2 2). }
  unfold wrap. rewrite H4. change (2 ^ 64) with (4 * 2 ^ 62). rewrite mod_mul_mod.
  rewrite <- N.Div0.add_mod_idemp_l. by rewrite <- H4.
Qed.

Lemma mod4_cases n : n mod 4 = 0 \/ n mod 4 = 1 \/ n mod 4 = 2 \/ n mod 4 = 3.
Proof.
  pose proof (N.mod_lt n 4 ltac:(lia)) as H. revert H. generalize (n mod 4). intros; lia.
Qed.

Section svc.
Implicit Types (c : TemporalSvcController) (ops : list Op).

Definition abstract c : N * N * N := (level c, overuse_ticks c, underuse_ticks c).

Lemma update_refines c b :
  ok c ->
  ok (update c b) /\ mode (assigner (update c b)) = mode (assigner c) /\
  abstract (update c b) = spec_update (mode (assigner c)) (abstract c) b.
Proof.
  intros [Hf Hu Hd].
  destruct c as [[m k] f u d]. cbn [drop_floor overuse_ticks underuse_ticks assigner mode] in *.
  unfold update, abstract, spec_update, level, OVERUSE_ESCALATE_TICKS, UNDERUSE_RELAX_TICKS.
  cbn [drop_floor overuse_ticks underuse_ticks assigner mode].
  rewrite !(wrap_small 32) by lia.
  assert (forall x, (3 <=? x + 1) = (2 <=? x)) as H3
    by (intros; apply Bool.eq_iff_eq_true; rewrite !N.leb_le; lia).
  destruct b.
  - destruct (N.leb_spec 3 (u + 1)).
    + assert (u = 2) as -> by lia. cbn [N.eqb Pos.eqb].
      cbn [drop_floor overuse_ticks underuse_ticks assigner mode].
      split; [|split; [done|]].
      * split; cbn [drop_floor overuse_ticks underuse_ticks]; [|lia..].
        unfold escalate; cbn [assigner mode drop_floor].
        destruct m; [tauto|]. destruct (f =? NO_DROP); tauto.
      * unfold escalate; cbn [assigner mode drop_floor].
        destruct m; destruct Hf as [->|[->|[-> Hm]]]; try discriminate Hm; vm_compute; reflexivity.
    + rewrite (proj2 (N.eqb_neq u 2)) by lia. split; [|split; done].
      split; cbn; [done|lia..].
  - destruct (N.leb_spec 30 (d + 1)).
    + assert (d = 29) as -> by lia. cbn [N.eqb Pos.eqb].
      cbn [drop_floor overuse_ticks underuse_ticks assigner mode].
      split; [|split; [done|]].
      * split; cbn [drop_floor overuse_ticks underuse_ticks]; [|lia..].
        unfold relax; cbn [assigner mode drop_floor].
        destruct m; [tauto|]. destruct (f <=? T1); tauto.
      * unfold relax; cbn [assigner mode drop_floor].
        destruct m; destruct Hf as [->|[->|[-> Hm]]]; try discriminate Hm; vm_compute; reflexivity.
    + rewrite (proj2 (N.eqb_neq d 29)) by lia. split; [|split; done].
      split; cbn; [done|lia..].
Qed.

Lemma controller_new_ok m : ok (new m).
Proof. split; cbn; [by left|lia..]. Qed.

(** Which layers pass at a drop level. *)
Lemma drop_iff c n :
  ok c -> (drop_floor c <=? layer_for (mode (assigner c)) n) = true <->
    top (mode (assigner c)) < level c + layer_for (mode (assigner c)) n.
Proof.
  intros [Hf _ _]. unfold level, layer_for, top, level_of.
  destruct c as [[m k] f u d]. cbn [drop_floor assigner mode] in *.
  destruct m.
  - assert (n mod 2 < 2) by (apply N.mod_lt; lia).
    destruct Hf as [->|[->|[_ Hm]]]; [..|discriminate Hm];
      destruct (n mod 2 =? 0); vm_compute; split; congruence.
  - pose proof (mod4_cases n) as Hc. destruct Hf as [->|[->|[-> _]]]; destruct Hc as [->|[->|[->| ->]]]; vm_compute; split; congruence.
Qed.

Lemma next_ok c :
  ok c -> ok {| assigner := {| mode := mode (assigner c); frame_count := wrapping_add 64 (frame_count (assigner c)) 1 |};
                drop_floor := drop_floor c; overuse_ticks := overuse_ticks c; underuse_ticks := underuse_ticks c |}.
Proof. intros []. by split. Qed.

Lemma run_refines c ops :
  ok c ->
  let '(c', fs) := run c ops in
  ok c' /\ mode (assigner c') = mode (assigner c) /\
  abstract c' = foldl (spec_update (mode (assigner c))) (abstract c) (updates ops).
Proof.
  revert c. induction ops as [|o ops IH]; intros c Hok; [done|]. cbn [run].
  destruct o as [b|]; cbn [run_op].
  - destruct (update_refines c b Hok) as (Hok' & Hm & Ha). specialize (IH _ Hok').
    destruct (run (update c b) ops) as [c' fs]. cbn. rewrite Hm, Ha in IH. exact IH.
  - unfold next_frame, next_layer.
    specialize (IH {| assigner := {| mode := mode (assigner c);
        frame_count := wrapping_add 64 (frame_count (assigner c)) 1 |};
      drop_floor := drop_floor c; overuse_ticks := overuse_ticks c;
      underuse_ticks := underuse_ticks c |}).
    destruct (run _ ops) as [c' fs]. apply IH. destruct Hok. by split.
Qed.

Lemma run_base c ops l :
  ok c -> (l, true) ∈ snd (run c ops) -> l <> T0.
Proof.
  revert c. induction ops as [|o ops IH]; intros c Hok; [by intros ?%not_elem_of_nil|].
  cbn [run]. destruct (run_op c o) as [c1 gs] eqn:Ho. destruct (run c1 ops) as [c2 fs] eqn:Hr.
  cbn [snd]. rewrite elem_of_app. intros [Hin|Hin].
  - destruct o as [b|]; cbn [run_op] in Ho; injection Ho as <- <-; [by apply not_elem_of_nil in Hin|].
    apply list_elem_of_singleton in Hin. injection Hin as -> Hd. intros H0.
    symmetry in Hd. apply (drop_iff c _ Hok) in Hd. rewrite H0 in Hd. unfold level, level_of, top, T0 in Hd.
    destruct (mode (assigner c)); case_ifs_in Hd; lia.
  - assert (ok c1) as Hok1.
    { destruct o as [b|]; cbn [run_op] in Ho; injection Ho as <- _; [by apply update_refines|].
      destruct Hok. by split. }
    specialize (IH c1 Hok1). rewrite Hr in IH. by apply IH.
Qed.
Lemma slack_step m n :
  let n' := wrapping_add 64 n 1 in
  (layer_for m n = T0 /\ slack m n = 0 /\ slack m n' + 1 = period m) \/ slack m n' + 1 = slack m n.
Proof.
  cbn zeta. unfold wrapping_add, slack, layer_for, period.
  destruct m; rewrite wrap_period by tauto.
  - assert (H2 : n mod 2 = (n mod 4) mod 2) by (symmetry; exact (mod_mul_mod n 2 2)). rewrite H2.
    destruct (mod4_cases n) as [E|[E|[E|E]]]; rewrite E; vm_compute; tauto.
  - destruct (mod4_cases n) as [E|[E|[E|E]]]; rewrite E; vm_compute; tauto.
Qed.

Lemma base_passes c : ok c -> (drop_floor c <=? T0) = false.
Proof. intros [[->|[->|[-> _]]] _ _]; reflexivity. Qed.

(** Of every period of frames at least one is forwarded, whatever the drop level. *)
Lemma run_forwards c ops :
  ok c ->
  let frames := snd (run c ops) in
  lenN frames <= period (mode (assigner c)) * forwarded frames + slack (mode (assigner c)) (frame_count (assigner c)).
Proof.
  revert c. induction ops as [|o ops IH]; intros c Hok; [apply N.le_0_l|]. cbn [run].
  destruct (run_op c o) as [c1 gs] eqn:Ho. destruct (run c1 ops) as [c2 fs] eqn:Hr. cbn zeta. cbn [snd].
  destruct o as [b|]; cbn [run_op] in Ho; injection Ho as <- <-.
  - destruct (update_refines c b Hok) as (Hok' & Hm & _). specialize (IH _ Hok'). rewrite Hr, Hm in IH. cbn [snd] in IH.
    assert (Hn : frame_count (assigner (update c b)) = frame_count (assigner c)).
    { unfold update. destruct b; case_match; reflexivity. }
    by rewrite Hn in IH.
  - specialize (IH _ (next_ok c Hok)). rewrite Hr in IH. cbn [snd assigner mode frame_count] in IH.
    cbn [app]. unfold forwarded in *. rewrite lenN_cons. rewrite filter_cons. cbn [snd].
    pose proof (slack_step (mode (assigner c)) (frame_count (assigner c))) as Hs. cbn zeta in Hs.
    case_decide as Hd; [rewrite lenN_cons; destruct Hs as [(_ & H0 & Hs)|Hs]; lia|].
    destruct Hs as [(H0 & _)|Hs]; [|lia]. exfalso. apply Hd. rewrite H0. by apply base_passes.
Qed.
End svc.

(** * Properties *)

(** The controller implements its hysteresis: along any session of governor
    ticks and frames, the number of withheld layers and the two streaks are
    those of a machine that withholds one layer more after every third overuse
    tick in a row and one less after every thirtieth clear tick in a row,
    between none and all enhancement layers. *)
Theorem drop_level_refines (m : TemporalSvcMode) (ops : list Op) :
  abstract (fst (run (new m) ops)) = foldl (spec_update m) (0, 0, 0) (updates ops).
Proof.
  pose proof (run_refines (new m) ops (controller_new_ok m)) as H. destruct (run (new m) ops) as [c fs].
  destruct H as (_ & _ & Ha).
  cbn [fst]. rewrite Ha. by destruct m.
Qed.

(** Dropping is transparent to the decoder: at any moment of any session a frame
    is withheld exactly when its layer is among the withheld ones (so a layer
    passes only with every layer below it, and the base layer always passes),
    and of any four frames in a row the fraction that passes is the one
    [active_frame_fraction] reports. *)
Theorem drops_are_transparent (m : TemporalSvcMode) (ops : list Op) :
  let '(c, frames) := run (new m) ops in
  (forall l, (l, true) ∈ frames -> l <> T0) /\
  (forall n, drop_floor c <= layer_for m n <-> top m < level c + layer_for m n) /\
  (forall n, f_of_N (lenN (filter (fun d => d = false)
     (map (fun k => drop_floor c <=? layer_for m (wrap 64 (n + k))) [0; 1; 2; 3])))
     = (f_of_Z 4 * active_frame_fraction c)%f64).
Proof.
  pose proof (run_refines (new m) ops (controller_new_ok m)) as H.
  pose proof (run_base (new m) ops) as Hb.
  destruct (run (new m) ops) as [c fs]. destruct H as (Hok & Hm & _).
  assert (mode (assigner c) = m) as Hm' by (rewrite Hm; by destruct m).
  split; [intros l Hl; by apply (Hb l (controller_new_ok m))|]. split.
  { intros n. rewrite <- N.leb_le, <- Hm'. by apply drop_iff. }
  intros n. unfold active_frame_fraction. rewrite Hm'.
  pose proof (mod4_cases n) as Hc.
  unfold layer_for. cbn [map].
  destruct m; rewrite !wrap_period by tauto;
    destruct Hok as [[Hf|[Hf|[Hf He]]] _ _]; rewrite Hf;
    try (rewrite Hm' in He; discriminate He);
    destruct Hc as [->|[->|[->| ->]]]; vm_compute; reflexivity.
Qed.

(** No stream needs a keyframe under congestion: it is paused, or its base layer
    goes on.  The one layered stream, the camera on Gear B, states the half of
    its frames, and that is what its layering keeps: in any session, whatever the
    drop level becomes and though the frame counter wraps, of the frames encoded
    so far at least one in [period] has been forwarded. *)
Theorem streams_go_on (k : StreamKind) (ops : list Op) :
  is_droppable (for_kind k) = negb (is_layered (for_kind k)) /\
  needs_keyframe_on_transition (for_kind k) = false /\
  (is_layered (for_kind k) = true <-> k = CameraGearB) /\
  (base_fraction (for_kind CameraGearB) * s_of_Z (Z.of_N (period L1T2)))%f32 = s_of_Z 1 /\
  forall m, let frames := snd (run (new m) ops) in lenN frames <= period m * forwarded frames.
Proof.
  split; [by destruct k|]. split; [done|]. split; [by destruct k|]. split; [by vm_compute|].
  intros m. pose proof (run_forwards (new m) ops (controller_new_ok m)) as H. cbn zeta in *.
  assert (E : slack (mode (assigner (new m))) (frame_count (assigner (new m))) = 0) by (by destruct m).
  rewrite E in H. change (mode (assigner (new m))) with m in H. lia.
Qed.

Example startup_assertion : all_streams_keyframe_free = true.
Proof. reflexivity. Qed.
