(* ===== verification/JitterBuffer.v ===== *)
(** The adaptive jitter buffer: [core/platform/src/jitter_buffer.rs]. *)
From S2P Require Import Prelude F64 F64Bounds.
#[local] Open Scope N_scope.

Definition HISTOGRAM_BUCKETS : N := 100.
Definition HISTOGRAM_FORGET_FACTOR : f64 := f_lit 9931 10000.
Definition TARGET_PERCENTILE : f64 := f_lit 95 100.
Definition MAX_TIME_SCALE_RATE : f64 := f_lit 15 100.
Definition CONVERGENCE_ZONE_FRAMES : N := 1.

Record DelayHistogram := mkHistogram { buckets : list f64 }.

Definition histogram_new : DelayHistogram :=
  {| buckets := replicate (N.to_nat HISTOGRAM_BUCKETS) f_zero |}.

Definition observe (h : DelayHistogram) (delay_frames : N) : DelayHistogram :=
  let decayed := map (fun b => (b * HISTOGRAM_FORGET_FACTOR)%f64) (buckets h) in
  let bucket := N.min delay_frames (HISTOGRAM_BUCKETS - 1) in
  {| buckets := alter (fun b => (b + (f_one - HISTOGRAM_FORGET_FACTOR))%f64)
                  (N.to_nat bucket) decayed |}.

(** The loop over the buckets, from bucket [i]. *)
Fixpoint scan (i : N) (cumulative threshold : f64) (bs : list f64) : N :=
  match bs with
  | [] => HISTOGRAM_BUCKETS - 1
  | w :: bs =>
      let cumulative := (cumulative + w)%f64 in
      if (threshold <=? cumulative)%f64 then i else scan (i + 1) cumulative threshold bs
  end.

Definition total_weight (h : DelayHistogram) : f64 := f_sum (buckets h).

Definition percentile_frames (h : DelayHistogram) (percentile : f64) : N :=
  let total := f_sum (buckets h) in
  if (total <=? f_zero)%f64 then 0
  else scan 0 f_zero (total * f_clamp percentile f_zero f_one)%f64 (buckets h).

Inductive PlayoutAction :=
| Normal
| Accelerate (factor : f64)
| Decelerate (factor : f64)
| Conceal.

Record JitterBuffer := mkBuffer {
  target_level : N; min_target_level : N; level : N; convergence_zone : N;
  histogram : DelayHistogram }.

Definition new (target_level_frames convergence_zone_frames : N) : JitterBuffer :=
  {| target_level := target_level_frames; min_target_level := target_level_frames; level := 0;
     convergence_zone := convergence_zone_frames; histogram := histogram_new |}.

Definition observe_arrival_delay (j : JitterBuffer) (delay_frames : N) : JitterBuffer :=
  let h := observe (histogram j) delay_frames in
  {| target_level := N.max (percentile_frames h TARGET_PERCENTILE) (min_target_level j);
     min_target_level := min_target_level j; level := level j;
     convergence_zone := convergence_zone j; histogram := h |}.

Definition enqueue (j : JitterBuffer) : JitterBuffer :=
  {| target_level := target_level j; min_target_level := min_target_level j;
     level := wrap 64 (level j + 1); convergence_zone := convergence_zone j;
     histogram := histogram j |}.

(** [isize] subtraction and [unsigned_abs]. *)
Definition tick (j : JitterBuffer) : JitterBuffer * PlayoutAction :=
  if level j =? 0 then (j, Conceal)
  else
    let level' := level j - 1 in
    let j' := {| target_level := target_level j; min_target_level := min_target_level j;
                 level := level'; convergence_zone := convergence_zone j;
                 histogram := histogram j |} in
    let deviation := as_signed 64 (wrapping_sub 64 level' (target_level j)) in
    let abs_dev := Z.to_N (Z.abs deviation) in
    if abs_dev <=? convergence_zone j then (j', Normal)
    else
      let denom := f_of_N (N.max (target_level j) 1) in
      let raw_factor := (f_of_N abs_dev / denom)%f64 in
      let factor := f_min raw_factor MAX_TIME_SCALE_RATE in
      if (0 <? deviation)%Z then (j', Accelerate factor) else (j', Decelerate factor).

(** ** A stream *)
Inductive Op := Arrival (delay_frames : N) | Enqueue | Tick.

Definition run_op (j : JitterBuffer) (o : Op) : JitterBuffer * list PlayoutAction :=
  match o with
  | Arrival d => (observe_arrival_delay j d, [])
  | Enqueue => (enqueue j, [])
  | Tick => let '(j, a) := tick j in (j, [a])
  end.

Fixpoint run (j : JitterBuffer) (ops : list Op) : JitterBuffer * list PlayoutAction :=
  match ops with
  | [] => (j, [])
  | o :: ops =>
      let '(j, a) := run_op j o in
      let '(j, b) := run j ops in (j, a ++ b)
  end.

Definition enqueues (ops : list Op) : N :=
  sum_of (fun o => match o with Enqueue => 1 | _ => 0 end) ops.
Definition played (acts : list PlayoutAction) : N :=
  sum_of (fun a => match a with Conceal => 0 | _ => 1 end) acts.

(** The direction and the strength an action may have at a deviation of the
    level after playout from the target. *)
Definition corrects (deviation : Z) (zone : N) (a : PlayoutAction) : Prop :=
  match a with
  | Conceal => False
  | Normal => (Z.abs deviation <= Z.of_N zone)%Z
  | Accelerate f =>
      (Z.of_N zone < deviation)%Z /\ good f /\ (0 < fz f <= fz MAX_TIME_SCALE_RATE)%Z
  | Decelerate f =>
      (deviation < - Z.of_N zone)%Z /\ good f /\ (0 < fz f <= fz MAX_TIME_SCALE_RATE)%Z
  end.

(** ** Lemmas *)
Section jitter.
Implicit Types (j : JitterBuffer) (d : N).

Lemma deviation_exact a b :
  a < 2 ^ 63 -> b < 2 ^ 63 -> as_signed 64 (wrapping_sub 64 a b) = (Z.of_N a - Z.of_N b)%Z.
Proof.
  intros Ha Hb. unfold as_signed, wrapping_sub, wrap. rewrite (N.mod_small b) by lia.
  change (64 - 1) with 63. change (Z.of_N (2 ^ 64)) with 18446744073709551616%Z.
  change (2 ^ 64) with 18446744073709551616. change (2 ^ 63) with 9223372036854775808 in *.
  destruct (N.le_gt_cases b a).
  - replace (a + 18446744073709551616 - b) with (a - b + 1 * 18446744073709551616) by lia.
    rewrite N.Div0.mod_add, N.Div0.mod_mod, N.mod_small by lia.
    destruct (N.ltb_spec (a - b) 9223372036854775808); lia.
  - rewrite N.Div0.mod_mod, N.mod_small by lia.
    destruct (N.ltb_spec (a + 18446744073709551616 - b) 9223372036854775808); lia.
Qed.

(** The factor of a deviation of [n] frames from a target of [t]. *)
Lemma factor_spec n t :
  0 < n < 2 ^ 64 -> t < 2 ^ 64 ->
  let f := f_min (f_of_N n / f_of_N (N.max t 1))%f64 MAX_TIME_SCALE_RATE in
  good f /\ (0 < fz f <= fz MAX_TIME_SCALE_RATE)%Z.
Proof.
  intros Hn Ht f.
  destruct (f_of_N_u64 n) as (Gn & Fn & Ln); [lia|]. specialize (Ln ltac:(lia)).
  destruct (f_of_N_u64 (N.max t 1)) as (Gt & Ft & Lt); [lia|]. specialize (Lt ltac:(lia)).
  destruct (f_div_rounds (f_of_N n) (f_of_N (N.max t 1)) Gn Gt Fn Ft ltac:(scale_lia))
    as (Gd & _ & Hdn).
  assert (Gm : good MAX_TIME_SCALE_RATE) by f_const.
  destruct (f_min_spec _ _ Gd Gm) as [G V]. split; [exact G|]. subst f. rewrite V.
  enough (0 < fz (f_of_N n / f_of_N (N.max t 1))%f64)%Z.
  { assert (0 < fz MAX_TIME_SCALE_RATE)%Z by f_const. lia. }
  (* 2^-64 is a float below the quotient *)
  destruct (normalize_exact 1 (-64)) as (Gz & Vz & _); [done|done|].
  set (z := binary_normalize 53 1024 1 (-64) false) in *.
  apply Z.lt_le_trans with (fz z); [rewrite Vz; f_const|]. apply Hdn; [exact Gz|].
  destruct (normalize_exact 1 64) as (Gu & Vu & _); [done|done|].
  set (u := binary_normalize 53 1024 1 64 false) in *.
  assert (fz (f_of_N (N.max t 1)) <= fz u)%Z as Hu.
  { eapply rounds_le; [apply (binary_normalize_rounds (Z.of_N (N.max t 1)) 0); lia|exact Gu|].
    rewrite Vu, Z.mul_1_r, (pow_scale 64), Z.mul_1_l, (pow_scale 0), Z.pow_0_r, Z.mul_1_l by lia.
    pose proof scale_pos. apply Z.mul_le_mono_nonneg_r; [lia|].
    change (2 ^ 64)%Z with (Z.of_N (2 ^ 64)). lia. }
  rewrite Vz. rewrite Vu, (pow_scale 64), Z.mul_1_l in Hu by lia.
  assert (scale = 2 ^ 64 * 2 ^ (-64 + 1074))%Z as Hs by (apply scale_split; lia).
  assert (0 < 2 ^ (-64 + 1074))%Z by (apply Z.pow_pos_nonneg; lia).
  pose proof scale_pos.
  apply Z.le_trans with (scale * scale)%Z; [|apply Z.mul_le_mono_nonneg_r; lia].
  rewrite Z.mul_1_l. apply Z.le_trans with (2 ^ (-64 + 1074) * (2 ^ 64 * scale))%Z; [nia|].
  rewrite Z.mul_assoc, (Z.mul_comm (2 ^ (-64 + 1074))), <- Hs. lia.
Qed.

Lemma tick_corrects j :
  level j < 2 ^ 63 -> target_level j < 2 ^ 63 ->
  let '(j', a) := tick j in
  if level j =? 0 then j' = j /\ a = Conceal
  else level j' = level j - 1 /\ target_level j' = target_level j /\
    corrects (Z.of_N (level j') - Z.of_N (target_level j)) (convergence_zone j) a.
Proof.
  intros Hl Ht. unfold tick. destruct (N.eqb_spec (level j) 0); [done|].
  rewrite deviation_exact by lia.
  set (dev := (Z.of_N (level j - 1) - Z.of_N (target_level j))%Z).
  destruct (N.leb_spec (Z.to_N (Z.abs dev)) (convergence_zone j)).
  { split; [done|]. split; [done|]. cbn [corrects level]. fold dev. lia. }
  destruct (factor_spec (Z.to_N (Z.abs dev)) (target_level j)) as [G V]; [lia|lia|].
  destruct (Z.ltb_spec 0 dev); cbn [level target_level corrects]; fold dev;
    (split; [done|]; split; [done|]; split; [lia|]; split; [exact G|exact V]).
Qed.

Lemma scan_le i cum thr bs :
  i + lenN bs <= HISTOGRAM_BUCKETS -> scan i cum thr bs <= HISTOGRAM_BUCKETS - 1.
Proof.
  revert i cum. induction bs as [|w bs IH]; intros i cum; [done|].
  rewrite lenN_cons. cbn [scan]. intros Hi.
  destruct (_ <=? _)%f64; [unfold HISTOGRAM_BUCKETS in *; lia|]. apply IH. lia.
Qed.

Lemma percentile_le h p :
  length (buckets h) = 100%nat -> percentile_frames h p <= 99.
Proof.
  intros Hl. unfold percentile_frames. destruct (_ <=? _)%f64; [lia|].
  apply (scan_le 0). unfold lenN. by rewrite Hl.
Qed.

Lemma observe_length h d : length (buckets (observe h d)) = length (buckets h).
Proof. cbn. by rewrite length_alter, length_map. Qed.

(** The levels of a buffer that accounts for its frames. *)
Record inv (t z e : N) (p : N) j : Prop := {
  inv_level : level j + p = e;
  inv_target : t <= target_level j <= N.max t 99;
  inv_min : min_target_level j = t;
  inv_zone : convergence_zone j = z;
  inv_hist : length (buckets (histogram j)) = 100%nat;
}.

Lemma run_inv t z e p j ops :
  t < 2 ^ 63 -> inv t z e p j -> e + enqueues ops < 2 ^ 63 ->
  let '(j', acts) := run j ops in
  inv t z (e + enqueues ops) (p + played acts) j'.
Proof.
  intros Ht. revert e p j. induction ops as [|o ops IH]; intros e p j Hi Hb.
  { cbn. by rewrite !N.add_0_r. }
  assert (enqueues (o :: ops) =
    (match o with Enqueue => 1 | _ => 0 end) + enqueues ops) as He by apply sum_of_cons.
  rewrite He in Hb. cbn [run].
  destruct (run_op j o) as [j1 a1] eqn:Ho.
  assert (inv t z (e + match o with Enqueue => 1 | _ => 0 end) (p + played a1) j1) as Hi1.
  { destruct Hi as [Hl Htg Hm Hz Hh].
    destruct o as [d| |]; cbn [run_op] in Ho.
    - injection Ho as <- <-. change (played []) with 0. rewrite !N.add_0_r.
      pose proof (percentile_le (observe (histogram j) d) TARGET_PERCENTILE) as Hp.
      rewrite observe_length in Hp. specialize (Hp Hh).
      split; cbn [observe_arrival_delay level target_level min_target_level convergence_zone
        histogram]; [done|rewrite Hm; lia|done|done|by rewrite observe_length].
    - injection Ho as <- <-. change (played []) with 0. rewrite !N.add_0_r.
      split; cbn [enqueue level target_level min_target_level convergence_zone histogram];
        try done. rewrite wrap_small by lia. lia.
    - pose proof (tick_corrects j ltac:(lia) ltac:(lia)) as Hc. unfold tick in *.
      destruct (N.eqb_spec (level j) 0) as [H0|H0].
      + injection Ho as <- <-. change (played [Conceal]) with 0. rewrite !N.add_0_r. by split.
      + assert (played a1 = 1 /\ level j1 = level j - 1 /\ target_level j1 = target_level j /\
          min_target_level j1 = min_target_level j /\ convergence_zone j1 = convergence_zone j /\
          histogram j1 = histogram j) as (-> & Hl1 & Ht1 & Hm1 & Hz1 & Hh1).
        { destruct (_ <=? convergence_zone j); [by injection Ho as <- <-|].
          destruct (0 <? _)%Z; by injection Ho as <- <-. }
        split; rewrite ?Hl1, ?Ht1, ?Hm1, ?Hz1, ?Hh1; try done. lia. }
  specialize (IH _ _ _ Hi1 ltac:(lia)). destruct (run j1 ops) as [j2 a2].
  rewrite He. unfold played. rewrite sum_of_app. fold (played a1) (played a2).
  by rewrite !N.add_assoc in *.
Qed.

Lemma new_inv t z : inv t z 0 0 (new t z).
Proof. split; cbn; try done. lia. Qed.
End jitter.

(** ** A constant delay *)
Section constant.

Definition one_bucket (k : nat) (w : f64) : DelayHistogram :=
  {| buckets := replicate k f_zero ++ w :: replicate (99 - k) f_zero |}.

(** Weights a bucket can reach. *)
Definition weight_ok (w : f64) : Prop :=
  good w /\ is_finite w = true /\
  (fz (f_lit 1 1000) <= fz w)%Z /\ (fz w <= fz (f_of_Z 2))%Z.

Definition next_weight (w : f64) : f64 :=
  (w * HISTOGRAM_FORGET_FACTOR + (f_one - HISTOGRAM_FORGET_FACTOR))%f64.

Lemma next_weight_ok w :
  good w -> is_finite w = true -> (fz w <= fz (f_of_Z 2))%Z -> weight_ok (next_weight w).
Proof.
  intros G F L.
  assert (G2 : good (f_of_Z 2)) by f_const. assert (F2 : is_finite (f_of_Z 2) = true) by f_const.
  assert (Gc : good HISTOGRAM_FORGET_FACTOR) by f_const.
  assert (Fc : is_finite HISTOGRAM_FORGET_FACTOR = true) by f_const.
  assert (Gz : good (f_lit 199 100)) by f_const.
  assert (Fz : is_finite (f_lit 199 100) = true) by f_const.
  destruct (mul_bound w HISTOGRAM_FORGET_FACTOR (f_of_Z 2) G L G2 F2 Gc Fc (f_lit 199 100) Gz Fz)
    as (G1 & L1 & F1); [f_const|].
  assert (Gd : good (f_one - HISTOGRAM_FORGET_FACTOR)%f64) by f_const.
  assert (Fd : is_finite (f_one - HISTOGRAM_FORGET_FACTOR)%f64 = true) by f_const.
  pose proof (f_add_rounds _ _ G1 Gd F1 Fd) as Hr.
  destruct (f_add_ge _ _ G1 Gd F1 Fd) as (Gn & _ & Hge). unfold next_weight.
  assert (Hup : (fz (w * HISTOGRAM_FORGET_FACTOR + (f_one - HISTOGRAM_FORGET_FACTOR))%f64
    <= fz (f_of_Z 2))%Z).
  { eapply rounds_le; [exact Hr|exact G2|].
    assert (fz (f_lit 199 100) + fz (f_one - HISTOGRAM_FORGET_FACTOR)%f64 <= fz (f_of_Z 2) * 1)%Z
      by f_const. lia. }
  split; [exact Gn|]. split; [by apply (finite_le _ (f_of_Z 2))|]. split; [|exact Hup].
  eapply Z.le_trans; [|exact Hge]. f_const.
Qed.

Lemma observe_one k w d :
  N.to_nat (N.min d 99) = k -> (k < 100)%nat ->
  observe (one_bucket k w) d = one_bucket k (next_weight w).
Proof.
  intros Hk Hlt. unfold observe, one_bucket, next_weight. cbn [buckets]. f_equal.
  change (HISTOGRAM_BUCKETS - 1) with 99. rewrite Hk.
  rewrite map_app, map_cons.
  assert (forall n, map (fun b => (b * HISTOGRAM_FORGET_FACTOR)%f64) (replicate n f_zero) =
    replicate n f_zero) as Hz by (induction n as [|n IH]; [done|]; cbn; by rewrite IH).
  rewrite !Hz. pose proof (alter_app_r (fun b => (b + (f_one - HISTOGRAM_FORGET_FACTOR))%f64)
    (replicate k f_zero) ((w * HISTOGRAM_FORGET_FACTOR)%f64 :: replicate (99 - k) f_zero) 0) as Ha.
  rewrite length_replicate, Nat.add_0_r in Ha. exact Ha.
Qed.

Lemma one_bucket_zero k : (k < 100)%nat -> histogram_new = one_bucket k f_zero.
Proof.
  intros Hk. unfold histogram_new, one_bucket. f_equal.
  change (f_zero :: replicate (99 - k) f_zero) with (replicate (S (99 - k)) f_zero).
  rewrite <- replicate_add. f_equal. unfold HISTOGRAM_BUCKETS. lia.
Qed.

Lemma add_zero_l w : weight_ok w -> (f_zero + w)%f64 = w /\ (w + f_zero)%f64 = w.
Proof.
  intros ([Hv Hn] & Hf & Hlo & _). destruct w as [s|s| |s m e]; try done.
Qed.

Lemma sum_one k w : weight_ok w -> f_sum (buckets (one_bucket k w)) = w.
Proof.
  intros Hw. destruct (add_zero_l w Hw) as [Hl Hr]. unfold f_sum, one_bucket. cbn [buckets].
  rewrite fold_left_app. cbn [fold_left].
  assert (forall n, fold_left f_add (replicate n f_zero) f_zero = f_zero) as ->
    by (induction n as [|n IH]; [done|]; exact IH).
  change (f_add f_zero w) with (f_zero + w)%f64. rewrite Hl.
  induction (99 - k)%nat as [|n IH]; [done|]. cbn [replicate fold_left].
  change (f_add w f_zero) with (w + f_zero)%f64. by rewrite Hr.
Qed.

Lemma scan_one i thr k w rest :
  (thr <=? f_zero)%f64 = false -> weight_ok w -> (thr <=? w)%f64 = true ->
  scan i f_zero thr (replicate k f_zero ++ w :: rest) = i + N.of_nat k.
Proof.
  intros Hz Hw Hle. revert i. induction k as [|k IH]; intros i; cbn [replicate app scan].
  - rewrite (proj1 (add_zero_l w Hw)), Hle. lia.
  - change (f_zero + f_zero)%f64 with f_zero. rewrite Hz, IH. lia.
Qed.

Lemma percentile_one k w : weight_ok w -> percentile_frames (one_bucket k w) TARGET_PERCENTILE = N.of_nat k.
Proof.
  intros Hw. pose proof Hw as (G & F & Hlo & Hhi). unfold percentile_frames.
  rewrite sum_one by done.
  assert (f_clamp TARGET_PERCENTILE f_zero f_one = TARGET_PERCENTILE) as -> by (vm_compute; reflexivity).
  assert (Gp : good TARGET_PERCENTILE) by f_const. assert (Gz : good f_zero) by f_const.
  assert (Fp : is_finite TARGET_PERCENTILE = true) by f_const.
  assert (0 < fz (f_lit 1 1000))%Z as Hpos by f_const. assert (fz f_zero = 0)%Z as Hz0 by done.
  rewrite f_leb_good by done. rewrite (proj2 (Z.leb_gt _ _)) by lia.
  destruct (f_mul_le_l w TARGET_PERCENTILE G Gp F) as [Gt Ht]; [f_const|].
  assert (fz (f_lit 1 2000) <= fz (w * TARGET_PERCENTILE)%f64)%Z as Hlow.
  { eapply rounds_ge; [apply f_mul_rounds; done|f_const|].
    assert (fz (f_lit 1 2000) * scale <= fz (f_lit 1 1000) * fz TARGET_PERCENTILE)%Z by f_const.
    pose proof (good_nonneg _ Gp). nia. }
  assert (0 < fz (f_lit 1 2000))%Z by f_const.
  unfold one_bucket. cbn [buckets]. rewrite scan_one; [lia| |done|].
  - rewrite f_leb_good by done. apply Z.leb_gt. lia.
  - rewrite f_leb_good by done. apply Z.leb_le. lia.
Qed.
End constant.

(** * Properties *)

(** No frame is lost or invented: over any stream of fewer than 2^63 frames, the
    level is the frames enqueued less the ticks that played one, concealment
    happens exactly on an empty buffer, and the adaptive target stays between
    its configured floor and the larger of that floor and 99 frames. *)
Theorem playout_accounts (t z : N) (ops : list Op)
    (Ht : t < 2 ^ 63) (Hops : enqueues ops < 2 ^ 63) :
  let '(j, acts) := run (new t z) ops in
  level j + played acts = enqueues ops /\
  t <= target_level j <= N.max t 99 /\
  (snd (tick j) = Conceal <-> level j = 0).
Proof.
  pose proof (run_inv t z 0 0 (new t z) ops Ht (new_inv t z)) as H. rewrite !N.add_0_l in H.
  specialize (H Hops). destruct (run (new t z) ops) as [j acts].
  destruct H as [Hl Htg Hm Hz Hh]. rewrite N.add_0_l in Hl. split; [done|]. split; [done|].
  unfold tick. destruct (N.eqb_spec (level j) 0); [done|].
  split; [|done]. destruct (_ <=? convergence_zone j); [done|]. by destruct (0 <? _)%Z.
Qed.

Lemma playout_accounts_witness :
  let '(j, acts) := run (new 2 1) [Enqueue; Enqueue; Arrival 7; Tick; Tick; Tick] in
  level j + played acts = 2.
Proof.
  pose proof (playout_accounts 2 1 [Enqueue; Enqueue; Arrival 7; Tick; Tick; Tick]) as H.
  destruct (run _ _) as [j acts]. destruct H as (H & _).
  - vm_compute. reflexivity.
  - vm_compute. reflexivity.
  - exact H.
Defined.

(** Time-scaling corrects the buffer and stays intelligible: a tick that plays a
    frame leaves the rate alone exactly within the convergence zone, and
    otherwise speeds up above the target and slows down below it, by a factor
    above zero and at most 15 %. *)
Theorem scaling_corrects (j : JitterBuffer) (Hlevel : 0 < level j < 2 ^ 63)
    (Htarget : target_level j < 2 ^ 63) :
  let '(j', a) := tick j in
  level j' = level j - 1 /\
  corrects (Z.of_N (level j') - Z.of_N (target_level j)) (convergence_zone j) a.
Proof.
  pose proof (tick_corrects j ltac:(lia) Htarget) as H. destruct (tick j) as [j' a].
  destruct (N.eqb_spec (level j) 0); [lia|]. by destruct H as (? & _ & ?).
Qed.

Lemma scaling_corrects_witness :
  let j := mkBuffer 4 4 9 1 histogram_new in
  exists f, snd (tick j) = Accelerate f /\ (0 < fz f <= fz MAX_TIME_SCALE_RATE)%Z.
Proof.
  intros j. pose proof (scaling_corrects j) as H.
  destruct (tick j) as [j' a] eqn:E. destruct H as [Hl Hc].
  - vm_compute. split; reflexivity.
  - vm_compute. reflexivity.
  - vm_compute in E. injection E as <- <-. eexists. split; [reflexivity|].
    exact (proj2 (proj2 Hc)).
Defined.

(** The target converges at once on a steady path: if every packet so far came
    with the same delay, the target is that delay (at most 99 frames), or the
    configured floor when that is larger. *)
Theorem steady_delay_sets_target (t z d : N) (n : nat) :
  target_level (fst (run (new t z) (replicate (S n) (Arrival d)))) = N.max (N.min d 99) t.
Proof.
  set (k := N.to_nat (N.min d 99)). assert (k < 100)%nat as Hk by lia.
  assert (forall m j w, histogram j = one_bucket k w -> good w -> is_finite w = true ->
    (fz w <= fz (f_of_Z 2))%Z -> min_target_level j = t ->
    target_level (fst (run j (replicate (S m) (Arrival d)))) = N.max (N.min d 99) t) as Hm.
  { induction m as [|m IH]; intros j w Hh G F L Hmin; cbn [replicate run run_op fst].
    - cbn [observe_arrival_delay target_level]. rewrite Hh, (observe_one k w d eq_refl Hk), Hmin.
      rewrite percentile_one by (by apply next_weight_ok). lia.
    - destruct (next_weight_ok w G F L) as (G' & F' & _ & L').
      specialize (IH (observe_arrival_delay j d) (next_weight w)).
      destruct (run (observe_arrival_delay j d) _) as [j' acts] eqn:Hr.
      cbn [replicate run run_op] in *. cbn [fst] in *.
      destruct (run (observe_arrival_delay (observe_arrival_delay j d) d) _) as [j2 a2].
      injection Hr as <- _. apply IH; try done.
      cbn [observe_arrival_delay histogram]. rewrite Hh. by apply observe_one. }
  apply (Hm n _ f_zero); try done. by apply one_bucket_zero.
Qed.
