(* ===== verification/Palette.v ===== *)
(** The lossless palette tile codecs: the bit streams, [PaletteTileEncoder] and
    [PaletteTileDecoder], [EntropyPaletteEncoder] and [EntropyPaletteDecoder] of
    [core/platform/src/screen_encoder.rs].

    A function that indexes a slice or unwraps answers an [option]: [None] is
    the panic. *)
From S2P Require Import Prelude.
#[local] Open Scope N_scope.

Definition TILE_SIZE_PX : N := 32.
Definition TILE_BYTES : N := TILE_SIZE_PX * TILE_SIZE_PX * 4.
Definition PALETTE_COLOR_LIMIT : N := 16.

(** [B, G, R], and a BGRA pixel. *)
Abbreviation bgr := (byte * byte * byte)%type.
Abbreviation pixel := (bgr * byte)%type.

(** [chunks_exact(4)] and [chunks_exact(3)]. *)
Fixpoint chunks4 (l : list byte) : list pixel :=
  match l with
  | b :: g :: r :: a :: l => (b, g, r, a) :: chunks4 l
  | _ => []
  end.

Fixpoint chunks3 (l : list byte) : list bgr :=
  match l with
  | b :: g :: r :: l => (b, g, r) :: chunks3 l
  | _ => []
  end.

Definition bgr_bytes (c : bgr) : list byte := let '(b, g, r) := c in [b; g; r].

(** An opaque pixel of a colour. *)
Definition opaque (c : bgr) : list byte := bgr_bytes c ++ [Byte.xff].

Definition bits_per_index (n : N) : N :=
  if n <=? 1 then 0
  else if n =? 2 then 1
  else if n <=? 4 then 2
  else if n <=? 8 then 3
  else 4.

(** ** Bit streams *)
Record BitWriter := mkWriter { buf : list byte; current : N; bits_used : N }.

Definition writer_new : BitWriter := {| buf := []; current := 0; bits_used := 0 |}.

(** One turn of the loop of [write_bits]. *)
Definition write_bit (w : BitWriter) (bit : N) : BitWriter :=
  let current := N.lor (current w) (wrap 8 (N.shiftl bit (bits_used w))) in
  let bits_used := bits_used w + 1 in
  if bits_used =? 8
  then {| buf := buf w ++ [byte_of current]; current := 0; bits_used := 0 |}
  else {| buf := buf w; current := current; bits_used := bits_used |}.

Definition write_bits (w : BitWriter) (value n_bits : N) : BitWriter :=
  fold_left (fun w i => write_bit w (N.land (N.shiftr value (N.of_nat i)) 1))
    (seq 0 (N.to_nat n_bits)) w.

Definition finish (w : BitWriter) : list byte :=
  if 0 <? bits_used w then buf w ++ [byte_of (current w)] else buf w.

Record BitReader := mkReader { data : list byte; byte_pos : N; bit_pos : N }.

Definition reader_new (data : list byte) : BitReader :=
  {| data := data; byte_pos := 0; bit_pos := 0 |}.

Fixpoint read_loop (r : BitReader) (result : N) (ix : list nat) : option (BitReader * N) :=
  match ix with
  | [] => Some (r, result)
  | i :: ix =>
      match data r !! N.to_nat (byte_pos r) with
      | None => None
      | Some b =>
          let bit := N.land (N.shiftr (Byte.to_N b) (bit_pos r)) 1 in
          let result := N.lor result (wrap 32 (N.shiftl bit (N.of_nat i))) in
          let bit_pos := bit_pos r + 1 in
          if bit_pos =? 8
          then read_loop {| data := data r; byte_pos := byte_pos r + 1; bit_pos := 0 |} result ix
          else read_loop {| data := data r; byte_pos := byte_pos r; bit_pos := bit_pos |} result ix
      end
  end.

Definition read_bits (r : BitReader) (n_bits : N) : option (BitReader * N) :=
  read_loop r 0 (seq 0 (N.to_nat n_bits)).

(** ** The palette *)
Inductive PaletteEncodeError :=
| TooManyColors (found : N)
| InvalidLength (got : N).

Inductive PaletteDecodeError :=
| Truncated
| InvalidPaletteSize (got : N)
| IndexOutOfRange (index palette_size : N).

Fixpoint build_palette_from (palette : list bgr) (pixels : list pixel) :
    result PaletteEncodeError (list bgr) :=
  match pixels with
  | [] => Ok palette
  | (c, _) :: pixels =>
      if bool_decide (c ∈ palette) then build_palette_from palette pixels
      else if lenN palette =? PALETTE_COLOR_LIMIT
           then Err (TooManyColors (PALETTE_COLOR_LIMIT + 1))
           else build_palette_from (palette ++ [c]) pixels
  end.

Definition build_palette (pixels : list byte) : result PaletteEncodeError (list bgr) :=
  build_palette_from [] (chunks4 pixels).

(** [iter().position(|p| p == x)]. *)
Definition position {A} `{EqDecision A} (x : A) (l : list A) : option nat :=
  fst <$> list_find (fun y => y = x) l.

(** The header both formats share: the colour count and the colours. *)
Definition palette_header (palette : list bgr) : list byte :=
  byte_of (lenN palette) :: concat (map bgr_bytes palette).

(** ** The raw format *)
Fixpoint write_indices (palette : list bgr) (bpi : N) (w : BitWriter) (pixels : list pixel) :
    option BitWriter :=
  match pixels with
  | [] => Some w
  | (c, _) :: pixels =>
      idx ← position c palette;
      write_indices palette bpi (write_bits w (N.of_nat idx) bpi) pixels
  end.

Definition palette_encode (pixels : list byte) : option (result PaletteEncodeError (list byte)) :=
  if negb (lenN pixels =? TILE_BYTES) then Some (Err (InvalidLength (lenN pixels)))
  else
    match build_palette pixels with
    | Err e => Some (Err e)
    | Ok palette =>
        let bpi := bits_per_index (lenN palette) in
        let out := palette_header palette in
        if 0 <? bpi
        then w ← write_indices palette bpi writer_new (chunks4 pixels);
             Some (Ok (out ++ finish w))
        else Some (Ok out)
    end.

(** [k] pixels of the index stream. *)
Fixpoint read_indices (palette : list bgr) (bpi : N) (r : BitReader) (k : nat) :
    option (result PaletteDecodeError (list byte)) :=
  match k with
  | O => Some (Ok [])
  | S k =>
      match read_bits r bpi with
      | None => Some (Err Truncated)
      | Some (r, idx) =>
          if lenN palette <=? idx then Some (Err (IndexOutOfRange idx (lenN palette)))
          else
            c ← palette !! N.to_nat idx;
            res ← read_indices palette bpi r k;
            Some (rest ← res; Ok (opaque c ++ rest))
      end
  end.

(** The palette size and the palette of a stream, and what follows them. *)
Definition read_header (data : list byte) :
    result PaletteDecodeError (list bgr * list byte) :=
  match data with
  | [] => Err Truncated
  | n :: rest =>
      let size := Byte.to_N n in
      if (size =? 0) || (PALETTE_COLOR_LIMIT <? size) then Err (InvalidPaletteSize size)
      else if lenN data <? 1 + size * 3 then Err Truncated
      else Ok (chunks3 (take (N.to_nat (size * 3)) rest), drop (N.to_nat (size * 3)) rest)
  end.

(** [palette[0]] fills the whole tile. *)
Definition fill_single (palette : list bgr) : option (result PaletteDecodeError (list byte)) :=
  c ← palette !! 0%nat; Some (Ok (concat (replicate 1024 (opaque c)))).

Definition palette_decode (data : list byte) : option (result PaletteDecodeError (list byte)) :=
  match read_header data with
  | Err e => Some (Err e)
  | Ok (palette, stream) =>
      let bpi := bits_per_index (lenN palette) in
      if bpi =? 0 then fill_single palette
      else read_indices palette bpi (reader_new stream) 1024
  end.

(** ** The entropy format *)
Definition cco_for_context (left above n : N) : list N :=
  left :: (if above =? left then [] else [above]) ++
  filter (fun i => i <> left /\ i <> above) (map N.of_nat (seq 0 (N.to_nat n))).

Definition write_entropy_pos (w : BitWriter) (rank n : N) : BitWriter :=
  if n <=? 1 then w
  else if rank =? 0 then write_bits w 0 1
  else
    let w := write_bits w 1 1 in
    let bpi := bits_per_index (n - 1) in
    if 0 <? bpi then write_bits w (rank - 1) bpi else w.

Definition read_entropy_pos (r : BitReader) (n : N) : option (BitReader * N) :=
  if n <=? 1 then Some (r, 0)
  else
    '(r, hit) ← read_bits r 1;
    if hit =? 0 then Some (r, 0)
    else
      let bpi := bits_per_index (n - 1) in
      '(r, miss_val) ← (if 0 <? bpi then read_bits r bpi else Some (r, 0));
      Some (r, miss_val + 1).

(** The neighbours of pixel [px] in the array of stored indices. *)
Definition context (stored : list N) (px : nat) : option (N * N) :=
  let row := (px / 32)%nat in
  let col := (px mod 32)%nat in
  left ← (if (0 <? col)%nat then stored !! (px - 1)%nat else Some 0);
  above ← (if (0 <? row)%nat then stored !! (px - 32)%nat else Some 0);
  Some (left, above).

(** The loop over the pixels, from pixel [px] on. *)
Fixpoint entropy_write (palette : list bgr) (stored : list N) (w : BitWriter) (px : nat)
    (pixels : list pixel) : option BitWriter :=
  match pixels with
  | [] => Some w
  | (c, _) :: pixels =>
      '(l, a) ← context stored px;
      let cco := cco_for_context l a (lenN palette) in
      raw_idx ← position c palette;
      let stored := <[px := N.of_nat raw_idx]> stored in
      rank ← position (N.of_nat raw_idx) cco;
      entropy_write palette stored (write_entropy_pos w (N.of_nat rank) (lenN palette)) (S px)
        pixels
  end.

Definition entropy_encode (pixels : list byte) : option (result PaletteEncodeError (list byte)) :=
  if negb (lenN pixels =? TILE_BYTES) then Some (Err (InvalidLength (lenN pixels)))
  else
    match build_palette pixels with
    | Err e => Some (Err e)
    | Ok palette =>
        let out := palette_header palette in
        if lenN palette =? 1 then Some (Ok out)
        else
          w ← entropy_write palette (replicate 1024 0) writer_new 0 (chunks4 pixels);
          Some (Ok (out ++ finish w))
    end.

(** [k] pixels, from pixel [px] on. *)
Fixpoint entropy_read (palette : list bgr) (stored : list N) (r : BitReader) (px k : nat) :
    option (result PaletteDecodeError (list byte)) :=
  match k with
  | O => Some (Ok [])
  | S k =>
      '(l, a) ← context stored px;
      let cco := cco_for_context l a (lenN palette) in
      match read_entropy_pos r (lenN palette) with
      | None => Some (Err Truncated)
      | Some (r, rank) =>
          if lenN palette <=? rank then Some (Err (IndexOutOfRange rank (lenN palette)))
          else
            raw_idx ← cco !! N.to_nat rank;
            let stored := <[px := raw_idx]> stored in
            c ← palette !! N.to_nat raw_idx;
            res ← entropy_read palette stored r (S px) k;
            Some (rest ← res; Ok (opaque c ++ rest))
      end
  end.

Definition entropy_decode (data : list byte) : option (result PaletteDecodeError (list byte)) :=
  match read_header data with
  | Err e => Some (Err e)
  | Ok (palette, stream) =>
      if lenN palette =? 1 then fill_single palette
      else entropy_read palette (replicate 1024 0) (reader_new stream) 0 1024
  end.

(** ** Specification *)

(** The colours of a tile, each once. *)
Definition colors (tile : list byte) : list bgr := remove_dups (map fst (chunks4 tile)).

(** The tile with its alpha made opaque. *)
Definition opaque_tile (tile : list byte) : list byte :=
  concat (map (fun p => opaque (fst p)) (chunks4 tile)).

(** ** Lemmas: bits *)
Section bits.

(** The [k] low bits of [v], the lowest first. *)
Definition bits_le (k : nat) (v : N) : list bool := map (fun i => N.testbit v (N.of_nat i)) (seq 0 k).
Definition stream_bits (l : list byte) : list bool := concat (map (fun b => bits_le 8 (Byte.to_N b)) l).

Definition writer_ok (w : BitWriter) : Prop := bits_used w < 8 /\ current w < 2 ^ bits_used w.
Definition written (w : BitWriter) : list bool :=
  stream_bits (buf w) ++ bits_le (N.to_nat (bits_used w)) (current w).

Definition unread (r : BitReader) : list bool :=
  drop (8 * N.to_nat (byte_pos r) + N.to_nat (bit_pos r)) (stream_bits (data r)).

Lemma bits_le_length k v : length (bits_le k v) = k.
Proof. unfold bits_le. by rewrite length_map, length_seq. Qed.

Lemma bits_le_S k v : bits_le (S k) v = bits_le k v ++ [N.testbit v (N.of_nat k)].
Proof. unfold bits_le. by rewrite seq_S, map_app. Qed.

Lemma bits_le_lookup k v i : (i < k)%nat -> bits_le k v !! i = Some (N.testbit v (N.of_nat i)).
Proof.
  intros Hi. unfold bits_le. rewrite list_lookup_fmap, lookup_seq_lt by done. done.
Qed.

Lemma bits_le_ext k u v :
  (forall i, (i < k)%nat -> N.testbit u (N.of_nat i) = N.testbit v (N.of_nat i)) ->
  bits_le k u = bits_le k v.
Proof.
  intros Hi. unfold bits_le. apply map_ext_in. intros i Hin. apply in_seq in Hin. apply Hi. lia.
Qed.

Lemma stream_bits_app l1 l2 : stream_bits (l1 ++ l2) = stream_bits l1 ++ stream_bits l2.
Proof. unfold stream_bits. by rewrite map_app, concat_app. Qed.

Lemma stream_bits_length l : length (stream_bits l) = (8 * length l)%nat.
Proof.
  induction l as [|b l IH]; [done|]. change (b :: l) with ([b] ++ l).
  rewrite stream_bits_app, !length_app, IH. cbn. lia.
Qed.

Lemma stream_bits_lookup l p q b :
  l !! p = Some b -> (q < 8)%nat ->
  stream_bits l !! (8 * p + q)%nat = Some (N.testbit (Byte.to_N b) (N.of_nat q)).
Proof.
  revert p. induction l as [|x l IH]; intros p Hp Hq; [done|].
  change (x :: l) with ([x] ++ l). rewrite stream_bits_app.
  assert (length (stream_bits [x]) = 8%nat) as Hl by (by rewrite stream_bits_length).
  destruct p as [|p].
  - injection Hp as ->. rewrite lookup_app_l by lia.
    unfold stream_bits. cbn [map concat]. rewrite app_nil_r. by apply bits_le_lookup.
  - rewrite lookup_app_r by lia. rewrite Hl. replace (8 * S p + q - 8)%nat with (8 * p + q)%nat by lia.
    by apply IH.
Qed.

(** Isolating a bit, as the code does. *)
Lemma isolate v i : N.land (N.shiftr v i) 1 = N.b2n (N.testbit v i).
Proof.
  change 1 with (N.ones 1). rewrite N.land_ones. change (2 ^ 1) with 2.
  by rewrite <- N.bit0_mod, N.shiftr_spec', N.add_0_l.
Qed.

Lemma high_bit c n m : c < 2 ^ n -> n <= m -> N.testbit c m = false.
Proof.
  intros Hc Hm. destruct (N.eq_dec c 0) as [->|Hz]; [apply N.bits_0|].
  apply N.bits_above_log2. apply N.lt_le_trans with n; [|done].
  apply N.log2_lt_pow2; lia.
Qed.

(** Setting bit [n] above the [n] bits of [c]. *)
Lemma set_bit c n (b : bool) m :
  c < 2 ^ n ->
  N.testbit (N.lor c (N.shiftl (N.b2n b) n)) m =
    if m <? n then N.testbit c m else if m =? n then b else false.
Proof.
  intros Hc. rewrite N.lor_spec. destruct (N.ltb_spec m n).
  - by rewrite N.shiftl_spec_low, orb_false_r.
  - rewrite (high_bit c n m), orb_false_l, N.shiftl_spec_high' by done.
    destruct (N.eqb_spec m n) as [->|].
    + rewrite N.sub_diag. by destruct b.
    + apply (high_bit _ 1); [destruct b; cbn; lia|lia].
Qed.

Lemma set_bit_lt c n (b : bool) : c < 2 ^ n -> N.lor c (N.shiftl (N.b2n b) n) < 2 ^ (n + 1).
Proof.
  intros Hc. destruct (N.eq_dec (N.lor c (N.shiftl (N.b2n b) n)) 0) as [->|Hz]; [apply pow2_pos|].
  apply N.log2_lt_pow2; [lia|]. destruct (N.lt_ge_cases (N.log2 (N.lor c (N.shiftl (N.b2n b) n))) (n + 1))
    as [|Hge]; [done|].
  pose proof (N.bit_log2 _ Hz) as Hb. rewrite set_bit in Hb by done.
  destruct (N.ltb_spec (N.log2 (N.lor c (N.shiftl (N.b2n b) n))) n); [lia|].
  destruct (N.eqb_spec (N.log2 (N.lor c (N.shiftl (N.b2n b) n))) n); [lia|done].
Qed.

Lemma set_bits_le c n (b : bool) k :
  c < 2 ^ n -> k = N.to_nat n ->
  bits_le (S k) (N.lor c (N.shiftl (N.b2n b) n)) = bits_le k c ++ [b].
Proof.
  intros Hc ->. rewrite bits_le_S. f_equal.
  - apply bits_le_ext. intros i Hi. rewrite set_bit by done.
    destruct (N.ltb_spec (N.of_nat i) n); [done|lia].
  - rewrite set_bit by done. rewrite N2Nat.id, N.ltb_irrefl, N.eqb_refl. done.
Qed.
End bits.

Section streams.
Implicit Types (w : BitWriter) (r : BitReader).

Lemma shifted_bit_lt (b : bool) n k : n < k -> N.shiftl (N.b2n b) n < 2 ^ k.
Proof.
  intros Hn. rewrite N.shiftl_mul_pow2. apply N.le_lt_trans with (1 * 2 ^ n).
  - apply N.mul_le_mono_r. destruct b; cbn; lia.
  - rewrite N.mul_1_l. apply N.pow_lt_mono_r; lia.
Qed.

Lemma writer_new_ok : writer_ok writer_new.
Proof. by split. Qed.

Lemma write_bit_spec w (b : bool) :
  writer_ok w ->
  writer_ok (write_bit w (N.b2n b)) /\ written (write_bit w (N.b2n b)) = written w ++ [b].
Proof.
  intros [Hu Hc]. unfold write_bit. rewrite wrap_small by (by apply shifted_bit_lt).
  pose proof (set_bit_lt _ _ b Hc) as Hlt.
  pose proof (set_bits_le (current w) (bits_used w) b _ Hc eq_refl) as Hs.
  assert (S (N.to_nat (bits_used w)) = N.to_nat (bits_used w + 1)) as HS by lia.
  rewrite HS in Hs. destruct (N.eqb_spec (bits_used w + 1) 8) as [He|He].
  - split; [by split|]. unfold written. cbn [buf current bits_used]. rewrite He in Hs, Hlt.
    rewrite stream_bits_app, <- !app_assoc. f_equal.
    rewrite <- Hs. unfold stream_bits. cbn [map concat]. rewrite !app_nil_r.
    rewrite to_N_byte_of, N.mod_small by exact Hlt. done.
  - split; [split; cbn [bits_used current]; [lia|done]|].
    unfold written. cbn [buf current bits_used]. by rewrite Hs, app_assoc.
Qed.

Lemma write_bits_spec w v n :
  writer_ok w ->
  writer_ok (write_bits w v n) /\ written (write_bits w v n) = written w ++ bits_le (N.to_nat n) v.
Proof.
  intros Hw. unfold write_bits, bits_le.
  generalize (seq 0 (N.to_nat n)) as ix. intros ix. revert w Hw.
  induction ix as [|i ix IH]; intros w Hw; cbn [fold_left map]; [by rewrite app_nil_r|].
  rewrite isolate. destruct (write_bit_spec w (N.testbit v (N.of_nat i)) Hw) as [Hw' Hb].
  destruct (IH _ Hw') as [Hw2 Hb2]. split; [done|]. by rewrite Hb2, Hb, <- app_assoc.
Qed.

Lemma finish_spec w : writer_ok w -> exists pad, stream_bits (finish w) = written w ++ pad.
Proof.
  intros [Hu Hc]. unfold finish, written. destruct (N.ltb_spec 0 (bits_used w)).
  - exists (drop (N.to_nat (bits_used w)) (bits_le 8 (current w))).
    rewrite stream_bits_app, <- app_assoc. f_equal. unfold stream_bits at 1. cbn [map concat].
    rewrite app_nil_r, to_N_byte_of, N.mod_small.
    2: { eapply N.lt_le_trans; [exact Hc|]. change 256 with (2 ^ 8). apply N.pow_le_mono_r; lia. }
    rewrite <- (take_drop (N.to_nat (bits_used w)) (bits_le 8 (current w))) at 1. f_equal.
    apply list_eq. intros i. destruct (Nat.lt_ge_cases i (N.to_nat (bits_used w))).
    + rewrite lookup_take_lt, !bits_le_lookup by lia. done.
    + rewrite lookup_take_ge by lia. symmetry. apply lookup_ge_None_2. by rewrite bits_le_length.
  - exists []. assert (bits_used w = 0) as -> by lia. cbn [N.to_nat bits_le seq map].
    by rewrite !app_nil_r.
Qed.

Lemma read_step r b bs :
  bit_pos r < 8 -> unread r = b :: bs ->
  exists x, data r !! N.to_nat (byte_pos r) = Some x /\
    N.land (N.shiftr (Byte.to_N x) (bit_pos r)) 1 = N.b2n b /\
    let r' := if bit_pos r + 1 =? 8
              then {| data := data r; byte_pos := byte_pos r + 1; bit_pos := 0 |}
              else {| data := data r; byte_pos := byte_pos r; bit_pos := bit_pos r + 1 |} in
    bit_pos r' < 8 /\ unread r' = bs.
Proof.
  intros Hp Hu. unfold unread in Hu.
  assert (stream_bits (data r) !! (8 * N.to_nat (byte_pos r) + N.to_nat (bit_pos r))%nat = Some b)
    as Hb by (rewrite <- (Nat.add_0_r (8 * _ + _)), <- lookup_drop, Hu; done).
  destruct (data r !! N.to_nat (byte_pos r)) as [x|] eqn:Hx.
  2: { apply lookup_ge_None_1 in Hx. apply lookup_lt_Some in Hb.
       rewrite stream_bits_length in Hb. lia. }
  exists x. split; [done|]. rewrite (stream_bits_lookup _ _ (N.to_nat (bit_pos r)) x Hx) in Hb by lia.
  rewrite N2Nat.id in Hb. split; [rewrite isolate; congruence|].
  assert (drop (S (8 * N.to_nat (byte_pos r) + N.to_nat (bit_pos r))) (stream_bits (data r)) = bs)
    as Hd.
  { rewrite <- Nat.add_1_r, <- drop_drop, Hu. done. }
  destruct (N.eqb_spec (bit_pos r + 1) 8); cbv zeta; cbn [bit_pos byte_pos data unread].
  - split; [lia|]. rewrite <- Hd. unfold unread. cbn [bit_pos byte_pos data]. f_equal. lia.
  - split; [lia|]. rewrite <- Hd. unfold unread. cbn [bit_pos byte_pos data]. f_equal. lia.
Qed.

(** Reading [k] bits, from bit [i] of the value. *)
Lemma read_loop_spec k i r v rest :
  bit_pos r < 8 -> (i + k <= 32)%nat -> v < 2 ^ N.of_nat (i + k) ->
  unread r = map (fun i => N.testbit v (N.of_nat i)) (seq i k) ++ rest ->
  exists r', read_loop r (v mod 2 ^ N.of_nat i) (seq i k) = Some (r', v) /\
    bit_pos r' < 8 /\ unread r' = rest /\ data r' = data r.
Proof.
  revert i r. induction k as [|k IH]; intros i r Hp Hk Hv Hu.
  { rewrite Nat.add_0_r in Hv. exists r. cbn [seq read_loop]. by rewrite N.mod_small. }
  cbn [seq map app] in Hu. destruct (read_step _ _ _ Hp Hu) as (x & Hx & Hbit & Hp' & Hu').
  cbn [seq read_loop]. rewrite Hx, Hbit, wrap_small by (apply shifted_bit_lt; lia).
  assert (N.lor (v mod 2 ^ N.of_nat i) (N.shiftl (N.b2n (N.testbit v (N.of_nat i))) (N.of_nat i)) =
    v mod 2 ^ N.of_nat (S i)) as ->.
  { apply N.bits_inj. intros m. rewrite set_bit by (apply N.mod_lt, N.pow_nonzero; done).
    destruct (N.ltb_spec m (N.of_nat i)); [rewrite !N.mod_pow2_bits_low by lia; done|].
    destruct (N.eqb_spec m (N.of_nat i)) as [->|]; [rewrite N.mod_pow2_bits_low by lia; done|].
    by rewrite N.mod_pow2_bits_high by lia. }
  set (r1 := if bit_pos r + 1 =? 8 then _ else _) in Hp', Hu'.
  destruct (IH (S i) r1 Hp' ltac:(lia)) as (r' & Hr & Hr').
  { by replace (S i + k)%nat with (i + S k)%nat by lia. }
  { done. }
  exists r'. assert (data r1 = data r) as Hd by (subst r1; by destruct (_ =? 8)).
  rewrite Hd in Hr'. split; [|done]. rewrite <- Hr. subst r1. by destruct (_ =? 8).
Qed.

Lemma read_bits_spec r v n rest :
  bit_pos r < 8 -> n <= 32 -> v < 2 ^ n -> unread r = bits_le (N.to_nat n) v ++ rest ->
  exists r', read_bits r n = Some (r', v) /\ bit_pos r' < 8 /\ unread r' = rest.
Proof.
  intros Hp Hn Hv Hu. destruct (read_loop_spec (N.to_nat n) 0 r v rest Hp) as (r' & Hr & ? & ? & ?).
  - lia.
  - rewrite Nat.add_0_l, N2Nat.id. done.
  - done.
  - exists r'. rewrite N.mod_1_r in Hr. done.
Qed.

Lemma reader_new_unread l : unread (reader_new l) = stream_bits l.
Proof. done. Qed.
End streams.

(** ** Lemmas: palettes *)
Section palettes.
Implicit Types (palette : list bgr) (px : list pixel).

Lemma chunks4_length k l : length l = (4 * k)%nat -> length (chunks4 l) = k.
Proof.
  revert l. induction k as [|k IH]; intros l Hl; [by destruct l|].
  destruct l as [|b [|g [|r [|a l]]]]; cbn in Hl; try lia. cbn. f_equal. apply IH. lia.
Qed.

Lemma tile_chunks tile : lenN tile = TILE_BYTES -> length (chunks4 tile) = 1024%nat.
Proof. intros Hl. apply chunks4_length. unfold lenN, TILE_BYTES, TILE_SIZE_PX in Hl. lia. Qed.

Lemma chunks3_bytes palette rest :
  chunks3 (concat (map bgr_bytes palette)) = palette /\
  take (N.to_nat (lenN palette * 3)) (concat (map bgr_bytes palette) ++ rest) =
    concat (map bgr_bytes palette) /\
  drop (N.to_nat (lenN palette * 3)) (concat (map bgr_bytes palette) ++ rest) = rest.
Proof.
  assert (length (concat (map bgr_bytes palette)) = N.to_nat (lenN palette * 3)) as Hl.
  { induction palette as [|[[b g] r] p IH]; [done|]. cbn [map concat bgr_bytes app length].
    rewrite lenN_cons, IH. lia. }
  split; [|split; [by apply take_app_length'|by apply drop_app_length']].
  clear Hl. induction palette as [|[[b g] r] p IH]; [done|]. cbn. by rewrite IH.
Qed.

(** The palette a run of pixels extends, and the run that overflows it. *)
Lemma build_palette_from_spec palette px :
  NoDup palette -> lenN palette <= PALETTE_COLOR_LIMIT ->
  match build_palette_from palette px with
  | Ok p => NoDup p /\ lenN p <= PALETTE_COLOR_LIMIT /\
      (forall c, c ∈ p <-> c ∈ palette \/ c ∈ map fst px)
  | Err e => e = TooManyColors 17 /\ exists p, NoDup p /\ lenN p = 17 /\
      (forall c, c ∈ p -> c ∈ palette \/ c ∈ map fst px)
  end.
Proof.
  revert palette. induction px as [|[c a] px IH]; intros palette Hnd Hl; cbn [build_palette_from].
  { split; [done|]. split; [done|]. intros c. cbn. set_solver. }
  case_bool_decide as Hin.
  - specialize (IH palette Hnd Hl). destruct (build_palette_from palette px) as [p|e].
    + destruct IH as (? & ? & He). split; [done|]. split; [done|]. intros c'. rewrite He. cbn.
      set_solver.
    + destruct IH as (? & p & ? & ? & He). split; [done|]. exists p. split; [done|].
      split; [done|]. intros c' Hc'. cbn. set_solver.
  - assert (NoDup (palette ++ [c])) as Hnd'
      by (apply NoDup_app; split; [done|]; split; [set_solver|apply NoDup_singleton]).
    destruct (N.eqb_spec (lenN palette) PALETTE_COLOR_LIMIT) as [He|Hne].
    + split; [done|]. exists (palette ++ [c]). split; [done|]. rewrite lenN_app, He.
      split; [done|]. intros c' Hc'. cbn. set_solver.
    + specialize (IH (palette ++ [c]) Hnd'). rewrite lenN_app in IH.
      specialize (IH ltac:(unfold PALETTE_COLOR_LIMIT, lenN in *; cbn [length]; lia)).
      destruct (build_palette_from (palette ++ [c]) px) as [p|e].
      * destruct IH as (? & ? & He). split; [done|]. split; [done|]. intros c'. rewrite He. cbn.
        set_solver.
      * destruct IH as (? & p & ? & ? & He). split; [done|]. exists p. split; [done|].
        split; [done|]. intros c' Hc'. specialize (He c' Hc'). cbn. set_solver.
Qed.

(** The palette of a tile is its colours, when they are at most 16. *)
Lemma build_palette_spec tile :
  match build_palette tile with
  | Ok p => p ≡ₚ colors tile /\ lenN (colors tile) <= PALETTE_COLOR_LIMIT /\
      forall c, c ∈ p <-> c ∈ map fst (chunks4 tile)
  | Err e => e = TooManyColors 17 /\ PALETTE_COLOR_LIMIT < lenN (colors tile)
  end.
Proof.
  unfold build_palette. pose proof (build_palette_from_spec [] (chunks4 tile)) as H.
  assert (forall c, c ∈ colors tile <-> c ∈ map fst (chunks4 tile)) as Hc
    by (intros c; apply elem_of_remove_dups).
  destruct (build_palette_from _ _) as [p|e].
  - destruct H as (Hnd & Hl & He); [by apply NoDup_nil|done|].
    assert (p ≡ₚ colors tile) as Hp.
    { apply NoDup_Permutation; [done|apply NoDup_remove_dups|]. intros c. rewrite He, Hc.
      split; [intros [Hn|]; [by apply not_elem_of_nil in Hn|done]|by right]. }
    split; [done|]. split; [by unfold lenN in *; rewrite <- Hp|]. intros c. rewrite Hp. apply Hc.
  - destruct H as (-> & p & Hnd & Hl & He); [by apply NoDup_nil|done|]. split; [done|].
    assert (length p <= length (colors tile))%nat as Hle.
    { apply submseteq_length, NoDup_submseteq; [done|]. intros c Hin. apply Hc.
      destruct (He c Hin) as [Hn|]; [by apply not_elem_of_nil in Hn|done]. }
    unfold PALETTE_COLOR_LIMIT, lenN in *. lia.
Qed.

Lemma index_of_Some {A} `{EqDecision A} (x : A) l :
  x ∈ l -> exists i, position x l = Some i /\ l !! i = Some x /\ (i < length l)%nat.
Proof.
  intros Hin. unfold position. destruct (list_find_elem_of (fun y => y = x) l x Hin eq_refl) as [[i y] Hf].
  rewrite Hf. exists i. apply list_find_Some in Hf as (Hi & -> & _). split; [done|].
  split; [done|]. by apply lookup_lt_Some in Hi.
Qed.

Lemma bits_per_index_spec n :
  1 <= n -> n <= PALETTE_COLOR_LIMIT ->
  n <= 2 ^ bits_per_index n /\ bits_per_index n <= 4 /\ (bits_per_index n = 0 <-> n = 1).
Proof.
  intros H1 H2. unfold PALETTE_COLOR_LIMIT in H2. unfold bits_per_index. case_ifs; cbn; lia.
Qed.
End palettes.

(** ** Lemmas: the two index streams *)
Section codecs.
Context (palette : list bgr) (Hn : lenN palette <= PALETTE_COLOR_LIMIT).
Let n : N := lenN palette.
Implicit Types (px : list pixel) (stored : list N).

Let opaques (px : list pixel) : list byte := concat (map (fun p => opaque (fst p)) px).

Lemma raw_stream px w :
  writer_ok w -> 1 <= n -> (forall c, c ∈ map fst px -> c ∈ palette) ->
  exists w' bits, write_indices palette (bits_per_index n) w px = Some w' /\ writer_ok w' /\
    written w' = written w ++ bits /\ length bits = (N.to_nat (bits_per_index n) * length px)%nat /\
    forall r rest, bit_pos r < 8 -> unread r = bits ++ rest ->
      read_indices palette (bits_per_index n) r (length px) = Some (Ok (opaques px)).
Proof.
  intros Hw H1. destruct (bits_per_index_spec n H1 Hn) as (Hpow & Hb4 & _).
  revert w Hw. induction px as [|[c a] px IH]; intros w Hw Hin.
  { exists w, []. rewrite app_nil_r. cbn. rewrite Nat.mul_0_r. done. }
  destruct (index_of_Some c palette) as (i & Hpos & Hi & Hlt); [apply Hin; by left|].
  assert (N.of_nat i < n) as Hltn by (unfold n, lenN; lia).
  destruct (write_bits_spec w (N.of_nat i) (bits_per_index n) Hw) as [Hw1 Hb1].
  destruct (IH _ Hw1) as (w' & bits & Hwr & Hw' & Hb & Hbl & Hrd); [intros c' Hc'; apply Hin; by right|].
  exists w', (bits_le (N.to_nat (bits_per_index n)) (N.of_nat i) ++ bits).
  cbn [write_indices]. rewrite Hpos. cbn [mbind option_bind]. split; [done|]. split; [done|].
  split; [by rewrite Hb, Hb1, <- app_assoc|].
  split; [rewrite length_app, bits_le_length, Hbl; cbn [length]; lia|].
  intros r rest Hr Hu. rewrite <- app_assoc in Hu. cbn [length read_indices].
  destruct (read_bits_spec r (N.of_nat i) (bits_per_index n) (bits ++ rest) Hr) as (r' & -> & Hr' & Hu');
    [lia|lia|done|].
  fold n. destruct (N.leb_spec n (N.of_nat i)); [lia|]. rewrite Nat2N.id, Hi.
  cbn [mbind option_bind]. by rewrite (Hrd r' rest Hr' Hu').
Qed.

(** The ranks of a context: every index below [n] once. *)
Lemma cco_spec l a : l < n -> a < n -> forall i, i < n -> i ∈ cco_for_context l a n.
Proof.
  intros Hl Ha i Hi. unfold cco_for_context.
  destruct (decide (i = l)) as [->|]; [by left|]. right. apply elem_of_app.
  destruct (decide (i = a)) as [->|].
  - left. destruct (N.eqb_spec a l); [done|]. by left.
  - right. apply list_elem_of_filter. split; [done|]. apply list_elem_of_fmap.
    exists (N.to_nat i). split; [lia|]. apply elem_of_seq. lia.
Qed.

Lemma cco_bound l a : l < n -> a < n -> forall i, i ∈ cco_for_context l a n -> i < n.
Proof.
  intros Hl Ha i Hin. unfold cco_for_context in Hin.
  apply elem_of_cons in Hin as [->|Hin]; [done|].
  apply elem_of_app in Hin as [Hin|Hin].
  - destruct (a =? l); [by apply not_elem_of_nil in Hin|]. by apply list_elem_of_singleton in Hin as ->.
  - apply list_elem_of_filter in Hin as [_ Hin]. apply list_elem_of_fmap in Hin as (k & -> & Hk).
    apply elem_of_seq in Hk. lia.
Qed.

Lemma cco_nodup l a : NoDup (cco_for_context l a n).
Proof.
  unfold cco_for_context. apply NoDup_cons. split.
  - intros Hin. apply elem_of_app in Hin as [Hin|Hin].
    + destruct (N.eqb_spec a l) as [|Hne]; [by apply not_elem_of_nil in Hin|].
      by apply list_elem_of_singleton in Hin.
    + apply list_elem_of_filter in Hin. tauto.
  - apply NoDup_app. split; [destruct (a =? l); [apply NoDup_nil_2|apply NoDup_singleton]|]. split.
    + intros x Hx Hin. apply list_elem_of_filter in Hin as [[_ Hne] _].
      destruct (a =? l); [by apply not_elem_of_nil in Hx|]. by apply list_elem_of_singleton in Hx.
    + apply NoDup_filter. apply (NoDup_fmap_2 N.of_nat). apply NoDup_seq.
Qed.

Lemma cco_length l a : l < n -> a < n -> lenN (cco_for_context l a n) = n.
Proof.
  intros Hl Ha. assert (cco_for_context l a n ≡ₚ map N.of_nat (seq 0 (N.to_nat n))) as Hp.
  { apply NoDup_Permutation; [apply cco_nodup|apply (NoDup_fmap_2 N.of_nat), NoDup_seq|].
    intros i. split; intros Hin.
    - apply (cco_bound l a Hl Ha) in Hin. apply list_elem_of_fmap. exists (N.to_nat i).
      split; [lia|]. apply elem_of_seq. lia.
    - apply list_elem_of_fmap in Hin as (k & -> & Hk). apply elem_of_seq in Hk.
      apply cco_spec; [done|done|lia]. }
  unfold lenN. rewrite Hp, length_map, length_seq. lia.
Qed.

Lemma entropy_rank w rank :
  writer_ok w -> rank < n ->
  exists bits, writer_ok (write_entropy_pos w rank n) /\
    written (write_entropy_pos w rank n) = written w ++ bits /\
    forall r rest, bit_pos r < 8 -> unread r = bits ++ rest ->
      exists r', read_entropy_pos r n = Some (r', rank) /\ bit_pos r' < 8 /\ unread r' = rest.
Proof.
  intros Hw Hr. unfold write_entropy_pos, read_entropy_pos.
  destruct (N.leb_spec n 1).
  { exists []. rewrite app_nil_r. split; [done|]. split; [done|]. intros r rest Hp Hu.
    exists r. replace rank with 0 by lia. done. }
  destruct (bits_per_index_spec (n - 1)) as (Hpow & Hb4 & Hb0); [lia|lia|].
  destruct (N.eqb_spec rank 0) as [->|Hne].
  { destruct (write_bits_spec w 0 1 Hw) as [Hw1 Hb1]. exists (bits_le 1 0).
    split; [done|]. split; [done|]. intros r rest Hp Hu.
    destruct (read_bits_spec r 0 1 rest Hp) as (r' & -> & ? & ?); [done|done|done|].
    cbn [mbind option_bind]. by exists r'. }
  destruct (write_bits_spec w 1 1 Hw) as [Hw1 Hb1].
  destruct (N.ltb_spec 0 (bits_per_index (n - 1))).
  - destruct (write_bits_spec _ (rank - 1) (bits_per_index (n - 1)) Hw1) as [Hw2 Hb2].
    exists (bits_le 1 1 ++ bits_le (N.to_nat (bits_per_index (n - 1))) (rank - 1)).
    split; [done|]. split; [by rewrite Hb2, Hb1, <- app_assoc|]. intros r rest Hp Hu.
    rewrite <- app_assoc in Hu. destruct (read_bits_spec r 1 1
      (bits_le (N.to_nat (bits_per_index (n - 1))) (rank - 1) ++ rest) Hp) as (r1 & -> & Hp1 & Hu1);
      [done|done|exact Hu|].
    destruct (read_bits_spec r1 (rank - 1) (bits_per_index (n - 1)) rest Hp1) as (r2 & Hr2 & ? & ?);
      [lia|lia|done|].
    cbn [mbind option_bind]. change (1 =? 0) with false. cbv iota. rewrite Hr2. cbn [mbind option_bind].
    exists r2. split; [|done]. by replace (rank - 1 + 1) with rank by lia.
  - exists (bits_le 1 1). split; [done|]. split; [done|]. intros r rest Hp Hu.
    destruct (read_bits_spec r 1 1 rest Hp) as (r1 & -> & ? & ?); [done|done|done|].
    exists r1. cbn [mbind option_bind]. split; [|done]. change (1 =? 0) with false. cbv iota.
    do 2 f_equal. assert (n - 1 = 1) by (apply Hb0; lia). lia.
Qed.

Lemma context_some stored pos :
  length stored = 1024%nat -> (pos < 1024)%nat -> Forall (fun i => i < n) stored -> 1 <= n ->
  exists l a, context stored pos = Some (l, a) /\ l < n /\ a < n.
Proof.
  intros Hl Hp Hs H1. unfold context.
  assert (forall j (b : bool), (b = true -> (j < 1024)%nat) ->
    exists x, (if b then stored !! j else Some 0) = Some x /\ x < n) as Hj.
  { intros j [] Hb; [|exists 0; split; [done|lia]].
    destruct (lookup_lt_is_Some_2 stored j) as [x Hx]; [rewrite Hl; by apply Hb|].
    exists x. split; [done|]. by apply (Forall_lookup_1 _ _ _ _ Hs Hx). }
  destruct (Hj (pos - 1)%nat (0 <? pos mod 32)%nat) as (l & -> & Hll); [lia|].
  destruct (Hj (pos - 32)%nat (0 <? pos / 32)%nat) as (a & -> & Haa); [lia|].
  by exists l, a.
Qed.

Lemma entropy_stream px pos stored w :
  writer_ok w -> 1 <= n -> (forall c, c ∈ map fst px -> c ∈ palette) ->
  length stored = 1024%nat -> (pos + length px <= 1024)%nat -> Forall (fun i => i < n) stored ->
  exists w' bits, entropy_write palette stored w pos px = Some w' /\ writer_ok w' /\
    written w' = written w ++ bits /\
    forall r rest, bit_pos r < 8 -> unread r = bits ++ rest ->
      entropy_read palette stored r pos (length px) = Some (Ok (opaques px)).
Proof.
  intros Hw H1 Hin Hl Hp Hs. revert pos stored w Hw Hin Hl Hp Hs.
  induction px as [|[c a] px IH]; intros pos stored w Hw Hin Hl Hp Hs.
  { exists w, []. rewrite app_nil_r. done. }
  cbn [length] in Hp.
  destruct (context_some stored pos Hl ltac:(lia) Hs H1) as (lft & abv & Hc & Hlft & Habv).
  destruct (index_of_Some c palette) as (i & Hpos & Hi & Hlt); [apply Hin; by left|].
  assert (N.of_nat i < n) as Hltn by (unfold n, lenN; lia).
  destruct (index_of_Some (N.of_nat i) (cco_for_context lft abv n)) as (rk & Hrk & Hrki & Hrkl);
    [by apply cco_spec|].
  assert (N.of_nat rk < n) as Hrkn.
  { rewrite <- (cco_length lft abv Hlft Habv). unfold lenN. lia. }
  destruct (entropy_rank w (N.of_nat rk) Hw Hrkn) as (b1 & Hw1 & Hb1 & Hrd1).
  destruct (IH (S pos) (<[pos := N.of_nat i]> stored) _ Hw1) as (w' & bits & Hwr & Hw' & Hb & Hrd).
  { intros c' Hc'. apply Hin. by right. }
  { by rewrite length_insert. }
  { lia. }
  { by apply Forall_insert. }
  exists w', (b1 ++ bits). cbn [entropy_write]. rewrite Hc. cbn [mbind option_bind].
  rewrite Hpos. cbn [mbind option_bind]. fold n. rewrite Hrk. cbn [mbind option_bind].
  split; [done|]. split; [done|]. split; [by rewrite Hb, Hb1, <- app_assoc|].
  intros r rest Hr Hu. rewrite <- app_assoc in Hu.
  destruct (Hrd1 r _ Hr Hu) as (r' & Hrr & Hr' & Hu').
  cbn [length entropy_read]. rewrite Hc. cbn [mbind option_bind]. fold n. rewrite Hrr.
  destruct (N.leb_spec n (N.of_nat rk)); [lia|]. rewrite Nat2N.id, Hrki. cbn [mbind option_bind].
  rewrite Nat2N.id, Hi. cbn [mbind option_bind]. by rewrite (Hrd r' rest Hr' Hu').
Qed.

(** Whatever the stream holds, the readers index within their arrays. *)
Lemma read_indices_total r k : exists res, read_indices palette (bits_per_index n) r k = Some res /\
  match res with Ok out => length out = (4 * k)%nat | Err _ => True end.
Proof.
  revert r. induction k as [|k IH]; intros r; cbn [read_indices]; [by exists (Ok [])|].
  destruct (read_bits r _) as [[r' idx]|]; [|by eexists].
  fold n. destruct (N.leb_spec n idx); [by eexists|].
  destruct (lookup_lt_is_Some_2 palette (N.to_nat idx)) as [c Hc]; [unfold n, lenN in *; lia|].
  rewrite Hc. cbn [mbind option_bind]. destruct (IH r') as (res & -> & Hres).
  eexists. split; [done|]. destruct res as [out|]; [|done].
  destruct c as [[b g] rr]. cbn. lia.
Qed.

Lemma entropy_read_total r stored pos k :
  length stored = 1024%nat -> (pos + k <= 1024)%nat -> Forall (fun i => i < n) stored -> 1 <= n ->
  exists res, entropy_read palette stored r pos k = Some res /\
    match res with Ok out => length out = (4 * k)%nat | Err _ => True end.
Proof.
  intros Hl Hp Hs H1. revert r stored pos Hl Hp Hs.
  induction k as [|k IH]; intros r stored pos Hl Hp Hs; cbn [entropy_read]; [by exists (Ok [])|].
  destruct (context_some stored pos Hl ltac:(lia) Hs H1) as (lft & abv & -> & Hlft & Habv).
  cbn [mbind option_bind]. fold n. destruct (read_entropy_pos r n) as [[r' rank]|]; [|by eexists].
  destruct (N.leb_spec n rank); [by eexists|].
  pose proof (cco_length lft abv Hlft Habv) as Hcl.
  destruct (lookup_lt_is_Some_2 (cco_for_context lft abv n) (N.to_nat rank)) as [i Hi];
    [unfold lenN in Hcl; lia|].
  rewrite Hi. cbn [mbind option_bind].
  assert (i < n) as Hin by (eapply cco_bound; [exact Hlft|exact Habv|]; by eapply list_elem_of_lookup_2).
  destruct (lookup_lt_is_Some_2 palette (N.to_nat i)) as [c Hc]; [unfold n, lenN in *; lia|].
  rewrite Hc. cbn [mbind option_bind].
  destruct (IH r' (<[pos := i]> stored) (S pos)) as (res & -> & Hres);
    [by rewrite length_insert|lia|by apply Forall_insert|].
  eexists. split; [done|]. destruct res as [out|]; [|done]. destruct c as [[b g] rr]. cbn. lia.
Qed.
End codecs.

(** ** Lemmas: tiles *)
Section tiles.
Implicit Types (tile : list byte) (palette : list bgr).

Lemma finish_length w :
  writer_ok w -> (length (written w) <= 8 * length (finish w) < length (written w) + 8)%nat.
Proof.
  intros [Hu _]. unfold finish, written. rewrite length_app, stream_bits_length, bits_le_length.
  destruct (N.ltb_spec 0 (bits_used w)); rewrite ?length_app; cbn [length]; lia.
Qed.

Lemma palette_header_length palette : lenN (palette_header palette) = 1 + 3 * lenN palette.
Proof.
  unfold palette_header. rewrite lenN_cons. f_equal.
  induction palette as [|[[b g] r] p IH]; [done|]. cbn [map concat bgr_bytes].
  rewrite lenN_app, IH, lenN_cons. unfold lenN. cbn [length]. lia.
Qed.

Lemma read_header_spec palette stream :
  1 <= lenN palette <= PALETTE_COLOR_LIMIT ->
  read_header (palette_header palette ++ stream) = Ok (palette, stream).
Proof.
  intros [H1 H2]. unfold read_header. unfold palette_header at 1. cbn [app].
  assert (Byte.to_N (byte_of (lenN palette)) = lenN palette) as Hn.
  { rewrite to_N_byte_of, N.mod_small; [done|]. unfold PALETTE_COLOR_LIMIT in H2. lia. }
  unfold palette_header. cbn [app]. rewrite Hn.
  destruct (N.eqb_spec (lenN palette) 0); [lia|].
  destruct (N.ltb_spec PALETTE_COLOR_LIMIT (lenN palette)); [lia|]. cbn [orb].
  destruct (chunks3_bytes palette stream) as (Hc & Ht & Hd). rewrite Ht, Hc, Hd.
  pose proof (palette_header_length palette) as Hl. unfold palette_header in Hl.
  rewrite app_comm_cons, lenN_app, Hl. by rewrite (proj2 (N.ltb_ge _ _)) by lia.
Qed.

Lemma read_header_Ok l palette stream :
  read_header l = Ok (palette, stream) -> 1 <= lenN palette <= PALETTE_COLOR_LIMIT.
Proof.
  unfold read_header. destruct l as [|b l]; [done|].
  destruct ((_ =? 0) || _) eqn:Hs; [done|]. reflectN.
  destruct (N.ltb_spec (lenN (b :: l)) (1 + Byte.to_N b * 3)) as [|Hl]; [done|].
  intros [= <- _]. rewrite lenN_cons in Hl.
  assert (forall k l, length l = (3 * k)%nat -> length (chunks3 l) = k) as Hc.
  { clear. induction k as [|k IH]; intros l Hl; [by destruct l|].
    destruct l as [|x [|y [|z l]]]; cbn in Hl; try lia. cbn. f_equal. apply IH. lia. }
  unfold lenN. rewrite (Hc (N.to_nat (Byte.to_N b))); [lia|].
  rewrite length_take. unfold lenN in Hl. lia.
Qed.

(** A run of one colour. *)
Lemma single_run c px :
  (forall c', c' ∈ map fst px -> c' = c) ->
  concat (map (fun p : pixel => opaque (fst p)) px) = concat (replicate (length px) (opaque c)).
Proof.
  induction px as [|[c' a] px IH]; intros Hc; [done|]. cbn.
  rewrite (Hc c') by (by left). f_equal. apply IH. intros c2 H2. apply Hc. by right.
Qed.

Lemma fill_single_spec tile palette :
  lenN tile = TILE_BYTES -> lenN palette = 1 ->
  (forall c, c ∈ palette <-> c ∈ map fst (chunks4 tile)) ->
  fill_single palette = Some (Ok (opaque_tile tile)).
Proof.
  intros Hl Hp Hc. destruct palette as [|c [|? ?]]; [done| |unfold lenN in Hp; cbn in Hp; lia].
  unfold fill_single, opaque_tile. cbn [lookup list_lookup mbind option_bind].
  rewrite (single_run c), (tile_chunks _ Hl); [done|]. intros c' Hc'. apply Hc in Hc'.
  by apply list_elem_of_singleton in Hc'.
Qed.

Lemma palette_nonempty tile palette :
  lenN tile = TILE_BYTES -> (forall c, c ∈ palette <-> c ∈ map fst (chunks4 tile)) -> 1 <= lenN palette.
Proof.
  intros Hl Hc. apply tile_chunks in Hl. destruct (chunks4 tile) as [|[c a] px]; [done|].
  destruct palette as [|? ?]; [|rewrite lenN_cons; lia].
  assert (c ∈ @nil bgr) as Hn by (apply Hc; by left). by apply not_elem_of_nil in Hn.
Qed.

Lemma fill_single_total palette :
  lenN palette = 1 ->
  exists out, fill_single palette = Some (Ok out) /\ lenN out = TILE_BYTES.
Proof.
  intros Hp. destruct palette as [|[[b g] r] ?]; [done|]. unfold fill_single.
  cbn [lookup list_lookup mbind option_bind]. eexists. split; [done|].
  assert (forall k, length (concat (replicate k (opaque (b, g, r)))) = (4 * k)%nat) as Hk.
  { induction k as [|k IH]; [done|]. cbn [replicate concat]. rewrite length_app, IH. cbn. lia. }
  unfold lenN. by rewrite Hk.
Qed.

Lemma palette_roundtrip tile :
  lenN tile = TILE_BYTES -> lenN (colors tile) <= PALETTE_COLOR_LIMIT ->
  exists raw, palette_encode tile = Some (Ok raw) /\
    palette_decode raw = Some (Ok (opaque_tile tile)) /\
    lenN raw = 1 + 3 * lenN (colors tile) + 128 * bits_per_index (lenN (colors tile)).
Proof.
  intros Hl Hc. unfold palette_encode. rewrite Hl, N.eqb_refl. cbn [negb].
  pose proof (build_palette_spec tile) as Hb. destruct (build_palette tile) as [p|e]; [|lia].
  destruct Hb as (Hp & _ & Hin). pose proof (palette_nonempty tile p Hl Hin) as H1.
  assert (lenN p = lenN (colors tile)) as Hlen by (unfold lenN; by rewrite Hp).
  rewrite <- Hlen in *. destruct (bits_per_index_spec (lenN p) H1 Hc) as (_ & _ & H0).
  destruct (N.ltb_spec 0 (bits_per_index (lenN p))) as [Hbpi|Hbpi].
  - destruct (raw_stream p Hc (chunks4 tile) writer_new writer_new_ok H1)
      as (w' & bits & -> & Hw' & Hwb & Hbl & Hrd); [intros c; apply Hin|].
    cbn [mbind option_bind]. eexists. split; [done|].
    unfold palette_decode. rewrite read_header_spec by done.
    destruct (N.eqb_spec (bits_per_index (lenN p)) 0); [lia|].
    destruct (finish_spec w' Hw') as [pad Hpad].
    rewrite (tile_chunks _ Hl) in Hrd, Hbl. split.
    + apply (Hrd (reader_new (finish w')) pad); [done|]. rewrite reader_new_unread, Hpad, Hwb. done.
    + rewrite lenN_app, palette_header_length. pose proof (finish_length w' Hw') as Hf.
      rewrite Hwb in Hf. cbn [written writer_new buf current bits_used] in Hf.
      change (stream_bits [] ++ bits_le (N.to_nat 0) 0) with (@nil bool) in Hf. cbn [app] in Hf.
      change (written writer_new) with (@nil bool) in Hf. cbn [app] in Hf.
      rewrite Hbl in Hf. unfold lenN at 2. lia.
  - eexists. split; [done|]. unfold palette_decode.
    rewrite <- (app_nil_r (palette_header p)) at 1. rewrite read_header_spec by done.
    assert (bits_per_index (lenN p) = 0) as Hz by lia. rewrite Hz, N.eqb_refl.
    split; [by apply fill_single_spec; [|apply H0|]|]. rewrite palette_header_length. lia.
Qed.

Lemma entropy_roundtrip tile :
  lenN tile = TILE_BYTES -> lenN (colors tile) <= PALETTE_COLOR_LIMIT ->
  exists ent, entropy_encode tile = Some (Ok ent) /\
    entropy_decode ent = Some (Ok (opaque_tile tile)).
Proof.
  intros Hl Hc. unfold entropy_encode. rewrite Hl, N.eqb_refl. cbn [negb].
  pose proof (build_palette_spec tile) as Hb. destruct (build_palette tile) as [p|e]; [|lia].
  destruct Hb as (Hp & _ & Hin). pose proof (palette_nonempty tile p Hl Hin) as H1.
  assert (lenN p = lenN (colors tile)) as Hlen by (unfold lenN; by rewrite Hp).
  rewrite <- Hlen in *. destruct (N.eqb_spec (lenN p) 1) as [He|He].
  - eexists. split; [done|]. unfold entropy_decode.
    rewrite <- (app_nil_r (palette_header p)) at 1. rewrite read_header_spec by done.
    rewrite He. cbn [N.eqb Pos.eqb]. by apply fill_single_spec.
  - destruct (entropy_stream p Hc (chunks4 tile) 0 (replicate 1024 0) writer_new writer_new_ok H1)
      as (w' & bits & -> & Hw' & Hwb & Hrd).
    + intros c. apply Hin.
    + apply length_replicate.
    + rewrite (tile_chunks _ Hl). lia.
    + apply Forall_replicate. lia.
    + cbn [mbind option_bind]. eexists. split; [done|].
      unfold entropy_decode. rewrite read_header_spec by done.
      destruct (N.eqb_spec (lenN p) 1); [done|].
      destruct (finish_spec w' Hw') as [pad Hpad]. rewrite (tile_chunks _ Hl) in Hrd.
      apply (Hrd (reader_new (finish w')) pad); [done|]. rewrite reader_new_unread, Hpad, Hwb. done.
Qed.
Lemma fits_tile_palette data :
  exists res, palette_decode data = Some res /\
    match res with Ok out => lenN out = TILE_BYTES | Err _ => True end.
Proof.
  unfold palette_decode. destruct (read_header data) as [[p stream]|e] eqn:Hh; [|by eexists].
  pose proof (read_header_Ok _ _ _ Hh) as [H1 H2].
  destruct (bits_per_index_spec (lenN p) H1 H2) as (_ & _ & H0).
  destruct (N.eqb_spec (bits_per_index (lenN p)) 0) as [Hz|].
  - destruct (fill_single_total p (proj1 H0 Hz)) as (out & -> & Hl). by exists (Ok out).
  - destruct (read_indices_total p H2 (reader_new stream) 1024) as (res & -> & Hr).
    exists res. split; [done|]. destruct res; [|done]. unfold lenN. by rewrite Hr.
Qed.

Lemma fits_tile_entropy data :
  exists res, entropy_decode data = Some res /\
    match res with Ok out => lenN out = TILE_BYTES | Err _ => True end.
Proof.
  unfold entropy_decode. destruct (read_header data) as [[p stream]|e] eqn:Hh; [|by eexists].
  pose proof (read_header_Ok _ _ _ Hh) as [H1 H2].
  destruct (N.eqb_spec (lenN p) 1) as [Hz|].
  - destruct (fill_single_total p Hz) as (out & -> & Hl). by exists (Ok out).
  - destruct (entropy_read_total p H2 (reader_new stream) (replicate 1024 0) 0 1024)
      as (res & -> & Hr); [apply length_replicate|lia|apply Forall_replicate; lia|done|].
    exists res. split; [done|]. destruct res; [|done]. unfold lenN. by rewrite Hr.
Qed.
End tiles.

(** * Properties *)

(** Text survives the screen codec pixel for pixel: a tile of at most 16 colours
    is accepted by the raw and by the entropy encoder, and each decoder restores
    every pixel's colour, with the alpha made opaque; the raw stream is exactly
    1 byte, 3 per colour and 128 per index bit.  A tile of more colours is
    refused by both. *)
Theorem tiles_lossless (tile : list byte) (Hlen : lenN tile = TILE_BYTES) :
  if lenN (colors tile) <=? PALETTE_COLOR_LIMIT
  then exists raw ent,
    palette_encode tile = Some (Ok raw) /\ palette_decode raw = Some (Ok (opaque_tile tile)) /\
    lenN raw = 1 + 3 * lenN (colors tile) + 128 * bits_per_index (lenN (colors tile)) /\
    entropy_encode tile = Some (Ok ent) /\ entropy_decode ent = Some (Ok (opaque_tile tile))
  else palette_encode tile = Some (Err (TooManyColors 17)) /\
       entropy_encode tile = Some (Err (TooManyColors 17)).
Proof.
  destruct (N.leb_spec (lenN (colors tile)) PALETTE_COLOR_LIMIT) as [Hc|Hc].
  - destruct (palette_roundtrip tile Hlen Hc) as (raw & ? & ? & ?).
    destruct (entropy_roundtrip tile Hlen Hc) as (ent & ? & ?). by exists raw, ent.
  - unfold palette_encode, entropy_encode. rewrite Hlen, N.eqb_refl. cbn [negb].
    pose proof (build_palette_spec tile) as Hb. destruct (build_palette tile) as [p|e]; [lia|].
    by destruct Hb as [-> _].
Qed.

(** Two colours in a checkerboard of single pixels. *)
Definition checkerboard : list byte :=
  concat (replicate 512 [Byte.x00; Byte.x00; Byte.x00; Byte.xff; Byte.x10; Byte.x20; Byte.x30; Byte.xff]).

Lemma tiles_lossless_witness :
  exists raw ent,
    palette_encode checkerboard = Some (Ok raw) /\
    palette_decode raw = Some (Ok (opaque_tile checkerboard)) /\ lenN raw = 135 /\
    entropy_encode checkerboard = Some (Ok ent) /\
    entropy_decode ent = Some (Ok (opaque_tile checkerboard)).
Proof.
  pose proof (tiles_lossless checkerboard) as H.
  assert (lenN (colors checkerboard) = 2) as Hc by (vm_compute; reflexivity).
  rewrite Hc in H. exact (H ltac:(vm_compute; reflexivity)).
Defined.

(** The decoders survive anything the network sends: for every byte string the
    raw and the entropy decoder answer, without an index out of range, an error
    or exactly one tile of 4096 bytes. *)
Theorem decoders_total (data : list byte) :
  (exists res, palette_decode data = Some res /\
     match res with Ok out => lenN out = TILE_BYTES | Err _ => True end) /\
  (exists res, entropy_decode data = Some res /\
     match res with Ok out => lenN out = TILE_BYTES | Err _ => True end).
Proof. split; [apply fits_tile_palette|apply fits_tile_entropy]. Qed.
