(* ===== verification/Tiles.v ===== *)
(** Tiles of a captured frame: classification, the tile grid, the refinement
    queue, the video sub-stream and the idle suppressor of
    [core/platform/src/screen_encoder.rs].

    Signed 32-bit coordinates are [Z]; a slice out of range panics: [None]. *)
From S2P Require Import Prelude Palette.
#[local] Open Scope N_scope.

Definition VIDEO_COLOR_LIMIT : N := 256.
Definition TEXT_COLOR_LIMIT : N := 4.

(** [start..start + len]. *)
Definition rangeN (start len : N) : list N :=
  map N.of_nat (seq (N.to_nat start) (N.to_nat len)).

(** ** Classification *)
Inductive TileClass := Text | Flat | Picture | Video.

Definition saliency (c : TileClass) : N :=
  match c with Text => 3 | Flat => 2 | Picture => 1 | Video => 0 end.

Definition coarse_is_lossless (c : TileClass) : bool :=
  match c with Text | Flat => true | _ => false end.

Definition needs_refinement (c : TileClass) : bool :=
  match c with Picture => true | _ => false end.

(** The top 4 bits of each channel. *)
Definition fingerprint (c : bgr) : N :=
  let '(b, g, r) := c in
  N.lor (N.lor (N.shiftl (N.shiftr (Byte.to_N r) 4) 8) (N.shiftl (N.shiftr (Byte.to_N g) 4) 4))
    (N.shiftr (Byte.to_N b) 4).

(** The loop over the pixels: the 4096-bit set [seen] as 64 words. *)
Fixpoint classify_loop (seen : list N) (count : N) (px : list pixel) : option TileClass :=
  match px with
  | [] =>
      Some (if count <=? TEXT_COLOR_LIMIT then Text
            else if count <=? PALETTE_COLOR_LIMIT then Flat else Picture)
  | (c, _) :: px =>
      let idx := fingerprint c in
      let word := N.to_nat (N.shiftr idx 6) in
      let bit := N.shiftl 1 (N.land idx 63) in
      w ← seen !! word;
      if N.land w bit =? 0
      then
        let count := count + 1 in
        if VIDEO_COLOR_LIMIT <? count then Some Video
        else classify_loop (<[word := N.lor w bit]> seen) count px
      else classify_loop seen count px
  end.

Definition classify_tile (pixels : list byte) : option TileClass :=
  classify_loop (replicate 64 0) 0 (chunks4 pixels).

(** ** The grid *)
Record DirtyRect := mkRect { x : Z; y : Z; width : N; height : N }.
Record TileCoord := mkCoord { col : N; row : N }.

#[export] Instance coord_eq_dec : EqDecision TileCoord.
Proof. solve_decision. Defined.

Record TileGrid := mkGrid { cols : N; rows : N; frame_width : N; frame_height : N }.

Definition div_ceil (a b : N) : N := (a + b - 1) / b.

Definition grid_new (frame_width frame_height : N) : TileGrid :=
  {| cols := div_ceil frame_width TILE_SIZE_PX; rows := div_ceil frame_height TILE_SIZE_PX;
     frame_width := frame_width; frame_height := frame_height |}.

(** [u32 as i32], [i32::saturating_add], [i32::max(0) as u32]. *)
Definition to_i32 (n : N) : Z := as_signed 32 n.
Definition sat_add_i32 (a b : Z) : Z := clampZ (a + b) (- 2 ^ 31) (2 ^ 31 - 1).
Definition max0 (z : Z) : N := Z.to_N (Z.max z 0).

Definition tiles_for_rect (g : TileGrid) (r : DirtyRect) : list TileCoord :=
  let x0 := max0 (x r) in
  let y0 := max0 (y r) in
  let x1 := max0 (sat_add_i32 (x r) (to_i32 (width r))) in
  let y1 := max0 (sat_add_i32 (y r) (to_i32 (height r))) in
  let x1 := N.min x1 (frame_width g) in
  let y1 := N.min y1 (frame_height g) in
  if (x1 <=? x0) || (y1 <=? y0) then []
  else
    let col_min := x0 / TILE_SIZE_PX in
    let col_max := (x1 - 1) / TILE_SIZE_PX in
    let row_min := y0 / TILE_SIZE_PX in
    let row_max := (y1 - 1) / TILE_SIZE_PX in
    row ← rangeN row_min (row_max + 1 - row_min);
    col ← rangeN col_min (col_max + 1 - col_min);
    [{| col := col; row := row |}].

(** [pixels[off..off + 4]]. *)
Definition slice4 (pixels : list byte) (off : N) : option (list byte) :=
  if off + 4 <=? lenN pixels then Some (take 4 (drop (N.to_nat off) pixels)) else None.

(** The bytes of pixel ([col], [row]) of the tile at [c]: zero outside the frame,
    where the loops of the code break off. *)
Definition tile_pixel (g : TileGrid) (pixels : list byte) (stride : N) (c : TileCoord)
    (row col : N) : option (list byte) :=
  let src_y := wrap 32 (Tiles.row c * TILE_SIZE_PX) + row in
  let src_x := wrap 32 (Tiles.col c * TILE_SIZE_PX) + col in
  if frame_height g <=? src_y then Some (repeat Byte.x00 4)
  else if frame_width g <=? src_x then Some (repeat Byte.x00 4)
  else slice4 pixels (wrap 32 (src_y * stride) + wrap 32 (src_x * 4)).

Definition extract_tile (g : TileGrid) (pixels : list byte) (stride : N) (c : TileCoord) :
    option (list byte) :=
  rows ← mapM (fun row =>
    cells ← mapM (fun col => tile_pixel g pixels stride c row col) (rangeN 0 TILE_SIZE_PX);
    Some (concat cells)) (rangeN 0 TILE_SIZE_PX);
  Some (concat rows).

Definition tile_count (g : TileGrid) : N := wrap 32 (cols g * rows g).

(** ** The refinement queue *)
Record QueueEntry := mkEntry {
  e_saliency : N; e_seq : N; e_coord : TileCoord; e_class : TileClass }.

(** [Ord for QueueEntry]: greater saliency first, then the smaller number. *)
Definition entry_cmp (a b : QueueEntry) : comparison :=
  match N.compare (e_saliency a) (e_saliency b) with
  | Eq => N.compare (e_seq b) (e_seq a)
  | c => c
  end.

Record RefinementQueue := mkQueue { heap : list QueueEntry; seq : N }.

Definition queue_new : RefinementQueue := {| heap := []; seq := 0 |}.

Definition push (q : RefinementQueue) (c : TileCoord) (class : TileClass) : RefinementQueue :=
  {| heap := heap q ++ [{| e_saliency := saliency class; e_seq := seq q; e_coord := c;
                           e_class := class |}];
     seq := wrap 64 (seq q + 1) |}.

(** [BinaryHeap::pop]: a greatest entry, and the others. *)
Fixpoint pop_greatest (h : list QueueEntry) : option (QueueEntry * list QueueEntry) :=
  match h with
  | [] => None
  | e :: h =>
      match pop_greatest h with
      | None => Some (e, [])
      | Some (m, others) =>
          match entry_cmp m e with Gt => Some (m, e :: others) | _ => Some (e, h) end
      end
  end.

Definition pop (q : RefinementQueue) : RefinementQueue * option (TileCoord * TileClass) :=
  match pop_greatest (heap q) with
  | None => (q, None)
  | Some (m, others) => ({| heap := others; seq := seq q |}, Some (e_coord m, e_class m))
  end.

Definition queue_len (q : RefinementQueue) : N := lenN (heap q).
Definition queue_is_empty (q : RefinementQueue) : bool := queue_len q =? 0.

(** ** The video sub-stream *)
Record TileRect := mkTileRect { col_min : N; row_min : N; col_max : N; row_max : N }.

Definition rect_cols (r : TileRect) : N := col_max r - col_min r + 1.
Definition rect_rows (r : TileRect) : N := row_max r - row_min r + 1.
Definition x_px (r : TileRect) : N := wrap 32 (col_min r * TILE_SIZE_PX).
Definition y_px (r : TileRect) : N := wrap 32 (row_min r * TILE_SIZE_PX).
Definition width_px (r : TileRect) : N := wrap 32 (rect_cols r * TILE_SIZE_PX).
Definition height_px (r : TileRect) : N := wrap 32 (rect_rows r * TILE_SIZE_PX).

Record VideoSubStream := mkVideo { region : option TileRect; dirty : bool }.

Definition video_new : VideoSubStream := {| region := None; dirty := false |}.

Definition video_push (v : VideoSubStream) (c : TileCoord) : VideoSubStream :=
  {| region := Some match region v with
       | None => {| col_min := col c; row_min := row c; col_max := col c; row_max := row c |}
       | Some r =>
           {| col_min := N.min (col_min r) (col c); row_min := N.min (row_min r) (row c);
              col_max := N.max (col_max r) (col c); row_max := N.max (row_max r) (row c) |}
       end;
     dirty := true |}.

Definition take_dirty_region (v : VideoSubStream) : VideoSubStream * option TileRect :=
  if dirty v then ({| region := region v; dirty := false |}, region v) else (v, None).

Definition video_is_dirty (v : VideoSubStream) : bool := dirty v.
Definition video_is_empty (v : VideoSubStream) : bool :=
  match region v with None => true | Some _ => false end.
Definition video_reset (v : VideoSubStream) : VideoSubStream := video_new.

(** ** The idle suppressor *)
Definition SCREEN_HEARTBEAT_NS : N := 1000000000.

Inductive ScreenIdleAction := Send | Suppress | Heartbeat.

Record IdleSuppressor := mkIdle { idle_ns : N }.

Definition idle_new : IdleSuppressor := {| idle_ns := 0 |}.

Definition observe (s : IdleSuppressor) (has_dirty : bool) (elapsed_ns : N) :
    IdleSuppressor * ScreenIdleAction :=
  if has_dirty then ({| idle_ns := 0 |}, Send)
  else
    let idle := sat_add 64 (idle_ns s) elapsed_ns in
    if SCREEN_HEARTBEAT_NS <=? idle
    then ({| idle_ns := idle - SCREEN_HEARTBEAT_NS |}, Heartbeat)
    else ({| idle_ns := idle |}, Suppress).

(** ** Specification *)

(** The class by the number of distinct fingerprints. *)
Definition class_of_count (n : N) : TileClass :=
  if n <=? TEXT_COLOR_LIMIT then Text
  else if n <=? PALETTE_COLOR_LIMIT then Flat
  else if n <=? VIDEO_COLOR_LIMIT then Picture
  else Video.

Definition fingerprints (tile : list byte) : list N :=
  remove_dups (map (fun p => fingerprint (fst p)) (chunks4 tile)).

(** The pending tiles in the order they came: the next one is the first of those
    with the highest saliency. *)
Fixpoint next_tile (q : list (TileCoord * TileClass)) :
    option ((TileCoord * TileClass) * list (TileCoord * TileClass)) :=
  match q with
  | [] => None
  | t :: q =>
      match next_tile q with
      | Some (m, others) =>
          if saliency (snd t) <? saliency (snd m) then Some (m, t :: others) else Some (t, q)
      | None => Some (t, [])
      end
  end.

Inductive QueueOp := Push (c : TileCoord) (class : TileClass) | Pop.

(** What a run of operations answers. *)
Fixpoint queue_run (q : RefinementQueue) (ops : list QueueOp) :
    list (option (TileCoord * TileClass)) :=
  match ops with
  | [] => []
  | Push c class :: ops => queue_run (push q c class) ops
  | Pop :: ops => let '(q, t) := pop q in t :: queue_run q ops
  end.

Fixpoint pending_run (q : list (TileCoord * TileClass)) (ops : list QueueOp) :
    list (option (TileCoord * TileClass)) :=
  match ops with
  | [] => []
  | Push c class :: ops => pending_run (q ++ [(c, class)]) ops
  | Pop :: ops =>
      match next_tile q with
      | None => None :: pending_run q ops
      | Some (t, q) => Some t :: pending_run q ops
      end
  end.

(** The heartbeats of a static period and the time left over. *)
Fixpoint static_run (s : IdleSuppressor) (elapsed : list N) : IdleSuppressor * N :=
  match elapsed with
  | [] => (s, 0)
  | e :: elapsed =>
      let '(s, a) := observe s false e in
      let '(s, n) := static_run s elapsed in
      (s, n + match a with Heartbeat => 1 | _ => 0 end)
  end.

(** A pixel of the frame inside a rectangle. *)
Definition in_rect (r : DirtyRect) (px py : N) : Prop :=
  (x r <= Z.of_N px < x r + Z.of_N (width r))%Z /\ (y r <= Z.of_N py < y r + Z.of_N (height r))%Z.

(** ** Lemmas: classification *)
Section classify.

Lemma lor_lt a b n : a < 2 ^ n -> b < 2 ^ n -> N.lor a b < 2 ^ n.
Proof.
  intros Ha Hb. destruct (N.eq_dec (N.lor a b) 0) as [->|Hz]; [apply pow2_pos|].
  apply N.log2_lt_pow2; [lia|]. rewrite N.log2_lor.
  assert (N.log2 a < n \/ a = 0) as Ha'.
  { destruct (N.eq_dec a 0); [by right|]. left. apply N.log2_lt_pow2; lia. }
  assert (N.log2 b < n \/ b = 0) as Hb'.
  { destruct (N.eq_dec b 0); [by right|]. left. apply N.log2_lt_pow2; lia. }
  destruct Ha' as [? | ->], Hb' as [? | ->]; rewrite ?N.lor_0_l, ?N.lor_0_r in *;
    cbn [N.log2] in *; try lia; done.
Qed.

Lemma shifted_lt (b : byte) k n : k + 4 <= n -> N.shiftl (N.shiftr (Byte.to_N b) 4) k < 2 ^ n.
Proof.
  intros Hk. rewrite N.shiftl_mul_pow2, N.shiftr_div_pow2. pose proof (byte_to_N_lt b).
  apply N.lt_le_trans with (2 ^ (4 + k)); [|apply N.pow_le_mono_r; lia].
  rewrite N.pow_add_r. apply N.mul_lt_mono_pos_r; [apply pow2_pos|].
  change (2 ^ 4) with 16. apply N.Div0.div_lt_upper_bound. lia.
Qed.

Lemma fingerprint_lt c : fingerprint c < 4096.
Proof.
  destruct c as [[b g] r]. unfold fingerprint. change 4096 with (2 ^ 12).
  repeat apply lor_lt; try (apply shifted_lt; lia).
  rewrite <- (N.shiftl_0_r (N.shiftr _ 4)). apply shifted_lt. lia.
Qed.

(** The set the words of [seen] hold. *)
Definition holds (seen : list N) (s : gset N) : Prop :=
  length seen = 64%nat /\
  forall i, i < 4096 ->
    (i ∈ s <-> exists w, seen !! N.to_nat (N.shiftr i 6) = Some w /\ N.testbit w (N.land i 63) = true).

Lemma low6 i : N.land i 63 = i mod 64.
Proof. change 63 with (N.ones 6). by rewrite N.land_ones. Qed.

Lemma high6 i : N.shiftr i 6 = i / 64.
Proof. by rewrite N.shiftr_div_pow2. Qed.

Lemma test_word w k : (N.land w (N.shiftl 1 k) =? 0) = negb (N.testbit w k).
Proof.
  destruct (N.testbit w k) eqn:Hb; cbn [negb].
  - apply N.eqb_neq. intros Hz. assert (N.testbit (N.land w (N.shiftl 1 k)) k = true) as Ht.
    { rewrite N.land_spec, Hb, N.shiftl_spec_high', N.sub_diag by done. done. }
    by rewrite Hz, N.bits_0 in Ht.
  - apply N.eqb_eq, N.bits_inj. intros m. rewrite N.land_spec, N.bits_0.
    rewrite N.shiftl_1_l, N.pow2_bits_eqb. destruct (N.eqb_spec k m) as [<-|]; [by rewrite Hb|].
    by rewrite andb_false_r.
Qed.

Lemma holds_insert seen s i w :
  holds seen s -> i < 4096 -> seen !! N.to_nat (N.shiftr i 6) = Some w ->
  holds (<[N.to_nat (N.shiftr i 6) := N.lor w (N.shiftl 1 (N.land i 63))]> seen) ({[i]} ∪ s).
Proof.
  intros [Hl Hs] Hi Hw. split; [by rewrite length_insert|]. intros j Hj.
  rewrite elem_of_union, elem_of_singleton, (Hs j Hj), high6, high6, low6, low6.
  assert (i / 64 < 64 /\ j / 64 < 64) as [Hi64 Hj64]
    by (split; apply N.Div0.div_lt_upper_bound; lia).
  destruct (decide (N.to_nat (i / 64) = N.to_nat (j / 64))) as [He|Hne].
  - rewrite He, list_lookup_insert_eq by (rewrite Hl; lia). rewrite high6 in Hw. rewrite He in Hw.
    rewrite Hw. assert (i / 64 = j / 64) as Hq by lia.
    split.
    + intros [->|(w' & [= <-] & Ht)]; (eexists; split; [done|]); rewrite N.lor_spec.
      * rewrite N.shiftl_1_l, N.pow2_bits_true. apply orb_true_r.
      * by rewrite Ht.
    + intros (w' & [= <-] & Ht). rewrite N.lor_spec, N.shiftl_1_l, N.pow2_bits_eqb in Ht.
      apply orb_true_iff in Ht as [Ht|Ht]; [right; by exists w|]. left. apply N.eqb_eq in Ht.
      rewrite (N.div_mod' i 64), (N.div_mod' j 64), Hq. lia.
  - rewrite list_lookup_insert_ne by done. split; [|tauto].
    intros [->|]; done.
Qed.

Lemma class_early n : VIDEO_COLOR_LIMIT < n -> class_of_count n = Video.
Proof.
  unfold class_of_count, VIDEO_COLOR_LIMIT, TEXT_COLOR_LIMIT, PALETTE_COLOR_LIMIT. intros.
  case_ifs; lia || done.
Qed.

Lemma classify_loop_spec px seen s :
  holds seen s -> N.of_nat (size s) <= VIDEO_COLOR_LIMIT ->
  classify_loop seen (N.of_nat (size s)) px =
    Some (class_of_count (N.of_nat (size (s ∪ list_to_set (map (fun p => fingerprint (fst p)) px))))).
Proof.
  revert seen s. induction px as [|[c a] px IH]; intros seen s Hh Hs.
  { cbn [map list_to_set classify_loop]. rewrite union_empty_r_L. unfold class_of_count.
    case_ifs; unfold VIDEO_COLOR_LIMIT in *; lia || done. }
  cbn [map list_to_set classify_loop fst].
  pose proof (fingerprint_lt c) as Hc. pose proof Hh as [Hl Hm]. specialize (Hm _ Hc).
  set (i := fingerprint c) in *.
  destruct (lookup_lt_is_Some_2 seen (N.to_nat (N.shiftr i 6))) as [w Hw].
  { rewrite Hl, high6. assert (i / 64 < 64) by (apply N.Div0.div_lt_upper_bound; lia). lia. }
  rewrite Hw. cbn [mbind option_bind]. rewrite test_word.
  destruct (N.testbit w (N.land i 63)) eqn:Hb; cbn [negb].
  - assert (i ∈ s) as Hin by (apply Hm; by exists w). rewrite (IH _ _ Hh Hs).
    do 3 f_equal. f_equal. set_solver.
  - assert (i ∉ s) as Hin.
    { intros Hin. apply Hm in Hin as (w' & Hw' & Ht). rewrite Hw in Hw'. injection Hw' as <-. congruence. }
    assert (size ({[i]} ∪ s) = S (size s)) as Hsz.
    { rewrite size_union by set_solver. by rewrite size_singleton. }
    assert (N.of_nat (size s) + 1 = N.of_nat (size ({[i]} ∪ s))) as -> by lia.
    replace (s ∪ ({[i]} ∪ list_to_set (map (fun p => fingerprint (fst p)) px))) with
      ({[i]} ∪ s ∪ list_to_set (map (fun p => fingerprint (fst p)) px) : gset N) by set_solver.
    destruct (N.ltb_spec VIDEO_COLOR_LIMIT (N.of_nat (size ({[i]} ∪ s)))) as [Hgt|Hle].
    + rewrite class_early; [done|]. eapply N.lt_le_trans; [exact Hgt|].
      assert (size ({[i]} ∪ s : gset N) <= size ({[i]} ∪ s ∪ list_to_set (map (fun p => fingerprint (fst p)) px) : gset N))%nat by (apply subseteq_size; set_solver). lia.
    + apply IH; [by apply holds_insert|done].
Qed.

Lemma holds_empty : holds (replicate 64 0) ∅.
Proof.
  split; [done|]. intros i Hi. split; [set_solver|].
  intros (w & Hw & Ht). apply lookup_replicate in Hw as [-> _]. by rewrite N.bits_0 in Ht.
Qed.

Lemma size_remove_dups (l : list N) : size (list_to_set l : gset N) = length (remove_dups l).
Proof.
  rewrite <- (size_list_to_set (C := gset N) (remove_dups l)) by apply NoDup_remove_dups.
  f_equal. apply set_eq. intros i. by rewrite !elem_of_list_to_set, elem_of_remove_dups.
Qed.

Lemma fingerprints_le tile : lenN (fingerprints tile) <= lenN (colors tile).
Proof.
  unfold fingerprints, colors, lenN.
  enough (length (remove_dups (map (fun p => fingerprint p.1) (chunks4 tile))) <=
    length (map fingerprint (remove_dups (map fst (chunks4 tile)))))%nat as H
    by (rewrite length_map in H; lia).
  apply submseteq_length, NoDup_submseteq; [apply NoDup_remove_dups|]. intros i Hi.
  rewrite elem_of_remove_dups in Hi. apply list_elem_of_fmap in Hi as (p & -> & Hp).
  apply list_elem_of_fmap. exists (fst p). split; [done|]. rewrite elem_of_remove_dups.
  apply list_elem_of_fmap. by exists p.
Qed.
End classify.

(** ** Lemmas: damage *)
Section damage.

Lemma elem_of_rangeN i lo k : i ∈ rangeN lo k <-> lo <= i < lo + k.
Proof.
  unfold rangeN. rewrite list_elem_of_fmap. split.
  - intros (j & -> & Hj). apply elem_of_seq in Hj. lia.
  - intros Hi. exists (N.to_nat i). split; [lia|]. apply elem_of_seq. lia.
Qed.

(** The tiles an interval of pixels meets. *)
Lemma tiles_of_interval lo hi t :
  lo < hi -> lo / 32 <= t < (hi - 1) / 32 + 1 <-> exists p, lo <= p < hi /\ p / 32 = t.
Proof.
  intros Hlt. split.
  - intros [H1 H2]. exists (N.max lo (32 * t)).
    assert (32 * t <= hi - 1).
    { apply N.le_trans with (32 * ((hi - 1) / 32)); [lia|]. apply N.Div0.mul_div_le. }
    split; [lia|]. destruct (N.max_spec lo (32 * t)) as [[? ->]|[? ->]].
    + rewrite N.mul_comm. by apply N.div_mul.
    + apply N.le_antisymm; [lia|]. apply N.div_le_lower_bound; [done|lia].
  - intros (p & Hp & <-). assert (lo / 32 <= p / 32) by (apply N.Div0.div_le_mono; lia).
    assert (p / 32 <= (hi - 1) / 32) by (apply N.Div0.div_le_mono; lia). lia.
Qed.

(** One axis of a clipped rectangle. *)
Lemma clipped z w f p :
  (- 2 ^ 31 <= z < 2 ^ 31)%Z -> w < 2 ^ 31 -> f < 2 ^ 31 ->
  max0 z <= p < N.min (max0 (sat_add_i32 z (to_i32 w))) f <->
  (z <= Z.of_N p < z + Z.of_N w)%Z /\ p < f.
Proof.
  intros Hz Hw Hf. unfold max0, to_i32, sat_add_i32, as_signed. rewrite wrap_small by lia.
  change (32 - 1) with 31. rewrite (proj2 (N.ltb_lt w (2 ^ 31))) by lia.
  unfold clampZ. destruct (Z.ltb_spec (z + Z.of_N w) (- 2 ^ 31)); [lia|].
  destruct (Z.ltb_spec (2 ^ 31 - 1) (z + Z.of_N w)); lia.
Qed.
End damage.

(** ** Lemmas: the queue *)
Section queue.
Implicit Types (h : list QueueEntry).

Definition tile_of (e : QueueEntry) : TileCoord * TileClass := (e_coord e, e_class e).

(** The entries below number [k], in the order of their numbers. *)
Fixpoint ordered (h : list QueueEntry) (k : N) : Prop :=
  match h with
  | [] => True
  | e :: h => e_seq e < k /\ e_saliency e = saliency (e_class e) /\
      Forall (fun e' => e_seq e < e_seq e') h /\ ordered h k
  end.

Lemma ordered_in h k e : ordered h k -> e ∈ h -> e_seq e < k /\ e_saliency e = saliency (e_class e).
Proof.
  induction h as [|e' h IH]; intros Ho Hin; [by apply not_elem_of_nil in Hin|].
  destruct Ho as (? & ? & ? & ?). apply elem_of_cons in Hin as [->|]; auto.
Qed.

Lemma ordered_snoc h k e :
  ordered h k -> e_seq e = k -> e_saliency e = saliency (e_class e) -> ordered (h ++ [e]) (k + 1).
Proof.
  induction h as [|e' h IH]; cbn [ordered app]; intros Ho He Hs.
  { split_and!; [lia|done|constructor|done]. }
  destruct Ho as (H1 & H2 & H3 & H4). split; [lia|]. split; [done|]. split; [|by apply IH].
  apply Forall_app. split; [done|]. constructor; [lia|constructor].
Qed.

Lemma pop_greatest_spec h k :
  ordered h k ->
  match pop_greatest h with
  | None => h = [] /\ next_tile (map tile_of h) = None
  | Some (m, others) => m ∈ h /\ ordered others k /\ (forall e, e ∈ others -> e ∈ h) /\
      next_tile (map tile_of h) = Some (tile_of m, map tile_of others)
  end.
Proof.
  induction h as [|e h IH]; cbn [pop_greatest ordered map next_tile]; [done|].
  intros (He & Hs & Hlt & Ho). specialize (IH Ho).
  destruct (pop_greatest h) as [[m others]|].
  - destruct IH as (Hm & Ho' & Hsub & ->). cbn [snd tile_of].
    destruct (ordered_in _ _ _ Ho Hm) as [_ Hsm]. rewrite Forall_forall in Hlt.
    pose proof (Hlt m Hm) as Hlm. rewrite <- Hs, <- Hsm. unfold entry_cmp.
    destruct (N.compare_spec (e_saliency m) (e_saliency e)) as [Heq|Hl|Hg].
    + rewrite (proj2 (N.compare_lt_iff (e_seq e) (e_seq m)) Hlm), (proj2 (N.ltb_ge _ _)) by lia.
      split; [by left|]. split; [done|]. split; [|done]. intros e' ?. by right.
    + rewrite (proj2 (N.ltb_ge _ _)) by lia. split; [by left|]. split; [done|].
      split; [|done]. intros e' ?. by right.
    + rewrite (proj2 (N.ltb_lt _ _)) by lia. split; [by right|]. split.
      * split; [done|]. split; [done|]. split; [|done]. apply Forall_forall. intros e' He'.
        apply Hlt. by apply Hsub.
      * split; [|done]. intros e' Hin. apply elem_of_cons in Hin as [->|Hin]; [by left|].
        right. by apply Hsub.
  - destruct IH as [-> ->]. split; [by left|]. split; [done|]. split; [|done].
    intros e' Hin. by apply not_elem_of_nil in Hin.
Qed.

Lemma queue_run_spec q ops :
  ordered (heap q) (seq q) -> seq q + lenN ops < 2 ^ 64 ->
  queue_run q ops = pending_run (map tile_of (heap q)) ops.
Proof.
  revert q. induction ops as [|o ops IH]; intros q Ho Hb; [done|].
  rewrite lenN_cons in Hb. destruct o as [c class|]; cbn [queue_run pending_run].
  - rewrite IH; unfold push; cbn [heap Tiles.seq].
    + by rewrite map_app.
    + rewrite wrap_small by lia. by apply ordered_snoc.
    + rewrite wrap_small; lia.
  - unfold pop. pose proof (pop_greatest_spec _ _ Ho) as Hp.
    destruct (pop_greatest (heap q)) as [[m others]|].
    + destruct Hp as (_ & Ho' & _ & ->). f_equal. apply IH; cbn [heap Tiles.seq]; [done|lia].
    + destruct Hp as [Hn ->]. f_equal. rewrite <- IH by (try done; lia). done.
Qed.
End queue.

(** ** Lemmas: the idle suppressor *)
Lemma static_run_spec s elapsed :
  idle_ns s < SCREEN_HEARTBEAT_NS -> Forall (fun e => e <= SCREEN_HEARTBEAT_NS) elapsed ->
  let '(s', n) := static_run s elapsed in
  idle_ns s' < SCREEN_HEARTBEAT_NS /\
  n * SCREEN_HEARTBEAT_NS + idle_ns s' = idle_ns s + sum_of id elapsed.
Proof.
  revert s. induction elapsed as [|e el IH]; intros s Hs He; [cbn; lia|].
  apply Forall_cons in He as [He1 He]. cbn [static_run].
  rewrite sum_of_cons. unfold observe. cbn [id]. unfold SCREEN_HEARTBEAT_NS in *.
  assert (sat_add 64 (idle_ns s) e = idle_ns s + e) as -> by (unfold sat_add, u_max; lia).
  destruct (N.leb_spec 1000000000 (idle_ns s + e)).
  - specialize (IH {| idle_ns := idle_ns s + e - 1000000000 |}). cbn [idle_ns] in IH.
    destruct (static_run _ el) as [s' n]. destruct IH as [? ?]; [lia|done|]. lia.
  - specialize (IH {| idle_ns := idle_ns s + e |}). cbn [idle_ns] in IH.
    destruct (static_run _ el) as [s' n]. destruct IH as [? ?]; [lia|done|]. lia.
Qed.

(** * Properties *)

(** The classifier counts fingerprints, not colours: a tile's class is decided by
    the number of distinct 12-bit fingerprints of its pixels, and every tile the
    palette encoders accept is of a class whose coarse pass is lossless. *)
Theorem classify_counts_fingerprints (tile : list byte) :
  classify_tile tile = Some (class_of_count (lenN (fingerprints tile))) /\
  (coarse_is_lossless (class_of_count (lenN (fingerprints tile))) = false ->
   PALETTE_COLOR_LIMIT < lenN (colors tile)).
Proof.
  split.
  - unfold classify_tile. pose proof (classify_loop_spec (chunks4 tile) (replicate 64 0) ∅ holds_empty) as H.
    rewrite size_empty in H. change (N.of_nat 0) with 0 in H. rewrite H by done. do 2 f_equal. rewrite union_empty_l_L.
    unfold lenN, fingerprints. by rewrite <- size_remove_dups.
  - intros Hf. pose proof (fingerprints_le tile). unfold class_of_count in Hf.
    unfold TEXT_COLOR_LIMIT, PALETTE_COLOR_LIMIT in *. case_ifs_in Hf; try done; lia.
Qed.

(** 64 shades of one fingerprint class: a dark gradient. *)
Definition dark_gradient : list byte :=
  concat (map (fun i => [byte_of (i mod 8); byte_of (i / 8 mod 8); Byte.x00; Byte.xff])
            (rangeN 0 1024)).

(** A gradient within one fingerprint is classed as text, for which the coarse
    pass is documented to be lossless, but its 64 colours are refused by the
    palette encoder. *)
Theorem text_tile_refused :
  classify_tile dark_gradient = Some Text /\
  palette_encode dark_gradient = Some (Err (TooManyColors 17)).
Proof. split; vm_compute; reflexivity. Qed.

(** Damage finds its tiles: a tile is listed for a rectangle exactly when it
    contains a pixel of the frame inside the rectangle. *)
Theorem damaged_tiles_listed (g : TileGrid) (r : DirtyRect) (c : TileCoord)
    (Hf : frame_width g < 2 ^ 31 /\ frame_height g < 2 ^ 31)
    (Hxy : (- 2 ^ 31 <= x r < 2 ^ 31)%Z /\ (- 2 ^ 31 <= y r < 2 ^ 31)%Z)
    (Hwh : width r < 2 ^ 31 /\ height r < 2 ^ 31) :
  c ∈ tiles_for_rect g r <->
  exists px py, px < frame_width g /\ py < frame_height g /\ in_rect r px py /\
    px / TILE_SIZE_PX = col c /\ py / TILE_SIZE_PX = row c.
Proof.
  destruct Hf as [Hfw Hfh], Hxy as [Hx Hy], Hwh as [Hw Hh].
  pose proof (clipped (x r) (width r) (frame_width g)) as Cx.
  pose proof (clipped (y r) (height r) (frame_height g)) as Cy.
  unfold tiles_for_rect, in_rect, TILE_SIZE_PX. cbv zeta.
  set (x0 := max0 (x r)) in *. set (y0 := max0 (y r)) in *.
  set (x1 := N.min (max0 (sat_add_i32 (x r) (to_i32 (width r)))) (frame_width g)) in *.
  set (y1 := N.min (max0 (sat_add_i32 (y r) (to_i32 (height r)))) (frame_height g)) in *.
  transitivity (exists px py, (x0 <= px < x1 /\ px / 32 = col c) /\ (y0 <= py < y1 /\ py / 32 = row c)).
  2: { split.
       - intros (px & py & [Hpx ?] & [Hpy ?]). apply Cx in Hpx as [? ?]; try done.
         apply Cy in Hpy as [? ?]; try done. by exists px, py.
       - intros (px & py & ? & ? & [? ?] & ? & ?). exists px, py.
         split; (split; [|done]); [by apply Cx|by apply Cy]. }
  destruct ((x1 <=? x0) || (y1 <=? y0)) eqn:He.
  { split; [intros Hn; by apply not_elem_of_nil in Hn|].
    intros (px & py & [? _] & [? _]). apply orb_true_iff in He as [He|He]; apply N.leb_le in He; lia. }
  reflectN. rewrite list_elem_of_bind. split.
  - intros (row' & Hc & Hrow). apply list_elem_of_bind in Hc as (col' & Hc & Hcol).
    apply list_elem_of_singleton in Hc as ->. cbn [col row].
    apply elem_of_rangeN in Hrow, Hcol.
    destruct (proj1 (tiles_of_interval x0 x1 col' ltac:(done))) as (px & ? & ?); [lia|].
    destruct (proj1 (tiles_of_interval y0 y1 row' ltac:(done))) as (py & ? & ?); [lia|].
    by exists px, py.
  - intros (px & py & [Hpx Hcx] & [Hpy Hcy]).
    assert (x0 / 32 <= col c < (x1 - 1) / 32 + 1) by (apply tiles_of_interval; [done|by exists px]).
    assert (y0 / 32 <= row c < (y1 - 1) / 32 + 1) by (apply tiles_of_interval; [done|by exists py]).
    exists (row c). split; [|apply elem_of_rangeN; lia].
    apply list_elem_of_bind. exists (col c). split; [|apply elem_of_rangeN; lia].
    apply list_elem_of_singleton. by destruct c.
Qed.

Lemma damaged_tiles_listed_witness :
  mkCoord 1 0 ∈ tiles_for_rect (grid_new 100 50) (mkRect (-10) 5 43 4).
Proof.
  apply (damaged_tiles_listed (grid_new 100 50) (mkRect (-10) 5 43 4) (mkCoord 1 0)).
  - vm_compute. split; reflexivity.
  - cbn. lia.
  - vm_compute. split; reflexivity.
  - exists 32, 5. vm_compute. repeat split; try discriminate; reflexivity.
Defined.

(** C29: The refinement queue serves salient tiles first and equals in order: over any
    run of fewer than 2^64 operations the heap answers what the list of pending
    tiles would, taking the first tile of the highest saliency. *)
Theorem queue_refines_pending (ops : list QueueOp) (Hops : lenN ops < 2 ^ 64) :
  queue_run queue_new ops = pending_run [] ops.
Proof. by apply (queue_run_spec queue_new). Qed.

Lemma queue_refines_pending_witness :
  queue_run queue_new
    [Push (mkCoord 0 0) Picture; Push (mkCoord 1 0) Text; Push (mkCoord 2 0) Text; Pop; Pop; Pop; Pop] =
  [Some (mkCoord 1 0, Text); Some (mkCoord 2 0, Text); Some (mkCoord 0 0, Picture); None].
Proof.
  rewrite (queue_refines_pending
    [Push (mkCoord 0 0) Picture; Push (mkCoord 1 0) Text; Push (mkCoord 2 0) Text; Pop; Pop; Pop; Pop]
    ltac:(vm_compute; reflexivity)).
  reflexivity.
Defined.

(** A static screen costs one heartbeat a second: when no tick is longer than a
    second, the heartbeats of a static period are the whole seconds of its
    length, and the rest is carried over. *)
Theorem heartbeat_each_second (elapsed : list N)
    (He : Forall (fun e => e <= SCREEN_HEARTBEAT_NS) elapsed) :
  let '(s, n) := static_run idle_new elapsed in
  n = sum_of id elapsed / SCREEN_HEARTBEAT_NS /\
  idle_ns s = sum_of id elapsed mod SCREEN_HEARTBEAT_NS.
Proof.
  pose proof (static_run_spec idle_new elapsed ltac:(done) He) as H.
  change (idle_ns idle_new) with 0 in H.
  destruct (static_run idle_new elapsed) as [s n]. destruct H as [Hs Hn]. rewrite N.add_0_l in Hn.
  split; [apply (N.div_unique _ _ _ (idle_ns s)); lia|].
  apply (N.mod_unique _ _ n); lia.
Qed.

Lemma heartbeat_each_second_witness :
  snd (static_run idle_new [400000000; 700000000; 1000000000; 900000000]) = 3.
Proof.
  pose proof (heartbeat_each_second [400000000; 700000000; 1000000000; 900000000]) as H.
  assert (Forall (fun e => e <= SCREEN_HEARTBEAT_NS) [400000000; 700000000; 1000000000; 900000000])
    as He by (repeat constructor; discriminate).
  specialize (H He). destruct (static_run _ _) as [s n]. cbn [snd].
  rewrite (proj1 H). vm_compute. reflexivity.
Defined.
