(* ===== verification/Damage.v ===== *)
(** Coalescing of damage rectangles: [merge_damage_rects] of
    [core/platform/src/screen_encoder.rs]. *)
From S2P Require Import Prelude Palette Tiles.
#[local] Open Scope Z_scope.

(** The cast to [u64]. *)
Definition as_u64 (z : Z) : N := Z.to_N (z mod 2 ^ 64).

(** The bounding box of two rectangles. *)
Definition bbox (a b : DirtyRect) : Z * Z * Z * Z :=
  (Z.min (x a) (x b), Z.min (y a) (y b),
   Z.max (i32 (x a + to_i32 (width a))) (i32 (x b + to_i32 (width b))),
   Z.max (i32 (y a + to_i32 (height a))) (i32 (y b + to_i32 (height b)))).

(** [merge_ratio < 1.3], as integers. *)
Definition mergeable (a b : DirtyRect) : bool :=
  let '(x0, y0, x1, y1) := bbox a b in
  let bbox_area := wrap 64 (as_u64 (i32 (x1 - x0)) * as_u64 (i32 (y1 - y0))) in
  let sum_area := wrap 64 (wrap 64 (width a * height a) + wrap 64 (width b * height b)) in
  (wrap 64 (bbox_area * 10) <? wrap 64 (sum_area * 13))%N.

Definition merged (a b : DirtyRect) : DirtyRect :=
  let '(x0, y0, x1, y1) := bbox a b in
  {| x := x0; y := y0; width := as_u32 (i32 (x1 - x0)); height := as_u32 (i32 (y1 - y0)) |}.

(** [Vec::swap_remove]. *)
Definition swap_remove {A} (j : nat) (l : list A) : list A :=
  match last l with
  | Some z => take (length l - 1) (<[j := z]> l)
  | None => l
  end.

(** The scan over [j]: the first rectangle from index [j] on that merges with [a]. *)
Fixpoint find_merge (a : DirtyRect) (bs : list DirtyRect) (j : nat) : option (nat * DirtyRect) :=
  match bs with
  | [] => None
  | b :: bs => if mergeable a b then Some (j, b) else find_merge a bs (S j)
  end.

(** The scan over [i]: after a merge index [i] is scanned again.  [None]: out of
    fuel. *)
Fixpoint pass (fuel : nat) (current : list DirtyRect) (i : nat) (merged_any : bool) :
    option (list DirtyRect * bool) :=
  match fuel with
  | O => None
  | S fuel =>
      match current !! i with
      | None => Some (current, merged_any)
      | Some a =>
          match find_merge a (drop (S i) current) (S i) with
          | None => pass fuel current (S i) merged_any
          | Some (j, b) => pass fuel (swap_remove j (<[i := merged a b]> current)) i true
          end
      end
  end.

Fixpoint merge_loop (fuel : nat) (current : list DirtyRect) : option (list DirtyRect) :=
  match fuel with
  | O => None
  | S fuel =>
      match pass (2 * length current + 1) current 0 false with
      | None => None
      | Some (current, true) => merge_loop fuel current
      | Some (current, false) => Some current
      end
  end.

Definition nonempty (r : DirtyRect) : bool := ((0 <? width r) && (0 <? height r))%N.

Definition merge_damage_rects (rects : list DirtyRect) : option (list DirtyRect) :=
  let current := filter (fun r => Is_true (nonempty r)) rects in
  merge_loop (S (length current)) current.

(** ** Specification *)
Definition inside (r : DirtyRect) (px py : Z) : Prop :=
  x r <= px < x r + Z.of_N (width r) /\ y r <= py < y r + Z.of_N (height r).

Definition covers (l : list DirtyRect) (px py : Z) : Prop := exists r, r ∈ l /\ inside r px py.

Definition area (r : DirtyRect) : N := (width r * height r)%N.

(** A rectangle of a desktop: coordinates and sizes up to 2^24. *)
Definition on_desktop (r : DirtyRect) : Prop :=
  - 2 ^ 24 <= x r <= 2 ^ 24 /\ - 2 ^ 24 <= y r <= 2 ^ 24 /\
  (width r <= 2 ^ 24)%N /\ (height r <= 2 ^ 24)%N.

(** ** Lemmas *)
Section rects.
Implicit Types (a b r : DirtyRect) (l current : list DirtyRect).

(** What holds of every rectangle of a run. *)
Definition fits r : Prop :=
  (0 < width r)%N /\ (0 < height r)%N /\
  - 2 ^ 24 <= x r /\ x r + Z.of_N (width r) <= 2 ^ 25 /\
  - 2 ^ 24 <= y r /\ y r + Z.of_N (height r) <= 2 ^ 25.

Lemma to_i32_small n : (n < 2 ^ 31)%N -> to_i32 n = Z.of_N n.
Proof.
  intros Hn. unfold to_i32, as_signed. rewrite wrap_small by lia.
  by rewrite (proj2 (N.ltb_lt n (2 ^ (32 - 1)))).
Qed.

Lemma bbox_exact a b :
  fits a -> fits b ->
  bbox a b = (Z.min (x a) (x b), Z.min (y a) (y b),
              Z.max (x a + Z.of_N (width a)) (x b + Z.of_N (width b)),
              Z.max (y a + Z.of_N (height a)) (y b + Z.of_N (height b))).
Proof.
  unfold fits. intros Ha Hb. unfold bbox. rewrite !to_i32_small by lia. rewrite !i32_small by lia.
  done.
Qed.

Lemma merged_spec a b :
  fits a -> fits b ->
  fits (merged a b) /\
  (forall px py, inside a px py \/ inside b px py -> inside (merged a b) px py) /\
  mergeable a b = (area (merged a b) * 10 <? (area a + area b) * 13)%N.
Proof.
  intros Ha Hb. pose proof (bbox_exact a b Ha Hb) as E. unfold fits in Ha, Hb.
  assert (merged a b = mkRect (Z.min (x a) (x b)) (Z.min (y a) (y b))
    (Z.to_N (Z.max (x a + Z.of_N (width a)) (x b + Z.of_N (width b)) - Z.min (x a) (x b)))
    (Z.to_N (Z.max (y a + Z.of_N (height a)) (y b + Z.of_N (height b)) - Z.min (y a) (y b)))) as Hm.
  { unfold merged. rewrite E. unfold as_u32. rewrite !i32_small, !Z.mod_small by lia. done. }
  split; [rewrite Hm; unfold fits; cbn [x y width height]; lia|]. split.
  { intros px py. rewrite Hm. unfold inside. cbn [x y width height]. lia. }
  unfold mergeable. rewrite E. rewrite Hm. unfold area. cbn [width height]. unfold as_u64.
  rewrite !i32_small, !Z.mod_small by lia.
  set (W := Z.to_N (Z.max (x a + _) _ - _)). set (H := Z.to_N (Z.max (y a + _) _ - _)).
  assert (W <= 2 ^ 26 /\ H <= 2 ^ 26)%N as [HW HH] by (subst W H; lia).
  assert (width a <= 2 ^ 26 /\ height a <= 2 ^ 26 /\ width b <= 2 ^ 26 /\ height b <= 2 ^ 26)%N
    as (? & ? & ? & ?) by lia.
  assert (forall u v, u <= 2 ^ 26 -> v <= 2 ^ 26 -> u * v <= 2 ^ 52)%N as Hmul.
  { intros u v Hu Hv. change (2 ^ 52)%N with (2 ^ 26 * 2 ^ 26)%N. by apply N.mul_le_mono. }
  pose proof (Hmul W H HW HH). pose proof (Hmul (width a) (height a) ltac:(done) ltac:(done)).
  pose proof (Hmul (width b) (height b) ltac:(done) ltac:(done)).
  rewrite (wrap_small 64 (W * H)), (wrap_small 64 (width a * height a)),
    (wrap_small 64 (width b * height b)) by lia.
  rewrite (wrap_small 64 (_ + _)) by lia. by rewrite !wrap_small by lia.
Qed.

Lemma swap_remove_length {A} j (l : list A) :
  (j < length l)%nat -> length (swap_remove j l) = (length l - 1)%nat.
Proof.
  intros Hj. unfold swap_remove. destruct (last l) eqn:Hl; [|apply last_None in Hl; subst; cbn in Hj; lia].
  rewrite length_take, length_insert. lia.
Qed.

Lemma swap_remove_keeps {A} j k (l : list A) c :
  (j < length l)%nat -> k <> j -> l !! k = Some c -> c ∈ swap_remove j l.
Proof.
  intros Hj Hk Hc. unfold swap_remove.
  destruct (last l) as [z|] eqn:Hl; [|apply last_None in Hl; subst; cbn in Hj; lia].
  rewrite last_lookup in Hl. pose proof (lookup_lt_Some _ _ _ Hc).
  destruct (decide (k = Nat.pred (length l))) as [->|Hlast].
  - rewrite Hl in Hc. injection Hc as <-. apply list_elem_of_lookup. exists j.
    rewrite lookup_take_lt by lia. by apply list_lookup_insert_eq.
  - apply list_elem_of_lookup. exists k. rewrite lookup_take_lt by lia.
    by rewrite list_lookup_insert_ne by done.
Qed.

Lemma swap_remove_incl {A} j (l : list A) c : c ∈ swap_remove j l -> c ∈ l.
Proof.
  unfold swap_remove. destruct (last l) as [z|] eqn:Hl; [|done]. intros Hin.
  apply list_elem_of_lookup in Hin as [k Hk]. 
  destruct (decide (k < length l - 1)%nat) as [Hlt|]; [|rewrite lookup_take_ge in Hk by lia; done].
  rewrite lookup_take_lt in Hk by done.
  destruct (decide (k = j)) as [->|Hne].
  - rewrite list_lookup_insert_eq in Hk by lia. injection Hk as <-.
    rewrite last_lookup in Hl. by eapply list_elem_of_lookup_2.
  - rewrite list_lookup_insert_ne in Hk by done. by eapply list_elem_of_lookup_2.
Qed.

Lemma find_merge_Some a bs j k b :
  find_merge a bs j = Some (k, b) -> (j <= k)%nat /\ bs !! (k - j)%nat = Some b /\ mergeable a b = true.
Proof.
  revert j. induction bs as [|b' bs IH]; intros j; cbn [find_merge]; [done|].
  destruct (mergeable a b') eqn:Hm.
  - intros [= -> ->]. by rewrite Nat.sub_diag.
  - intros Hf. destruct (IH _ Hf) as (? & Hb & ?). split; [lia|]. split; [|done].
    by replace (k - j)%nat with (S (k - S j)) by lia.
Qed.

Lemma find_merge_None a bs j :
  find_merge a bs j = None -> forall b, b ∈ bs -> mergeable a b = false.
Proof.
  revert j. induction bs as [|b' bs IH]; intros j; cbn [find_merge].
  { intros _ b Hb. by apply not_elem_of_nil in Hb. }
  destruct (mergeable a b') eqn:Hm; [done|]. intros Hf b Hb.
  apply elem_of_cons in Hb as [->|Hb]; [done|]. by eapply IH.
Qed.

(** No pair from index [i] on is mergeable. *)
Definition settled l (i : nat) : Prop :=
  forall p q a b, (i <= p < q)%nat -> l !! p = Some a -> l !! q = Some b -> mergeable a b = false.

Definition grown l l' : Prop :=
  Forall fits l' /\ (length l' <= length l)%nat /\ forall px py, covers l px py -> covers l' px py.

(** One merge. *)
Lemma merge_step l i j a b :
  Forall fits l -> l !! i = Some a -> find_merge a (drop (S i) l) (S i) = Some (j, b) ->
  let l' := swap_remove j (<[i := merged a b]> l) in
  grown l l' /\ length l' = (length l - 1)%nat /\ (S i < length l)%nat.
Proof.
  intros Hf Ha Hj l'. apply find_merge_Some in Hj as (Hle & Hb & _).
  rewrite lookup_drop in Hb. replace (S i + (j - S i))%nat with j in Hb by lia.
  pose proof (lookup_lt_Some _ _ _ Ha) as Hi. pose proof (lookup_lt_Some _ _ _ Hb) as Hjl.
  pose proof (Forall_lookup_1 _ _ _ _ Hf Ha) as Fa. pose proof (Forall_lookup_1 _ _ _ _ Hf Hb) as Fb.
  destruct (merged_spec a b Fa Fb) as (Fm & Hcov & _).
  assert (length l' = (length l - 1)%nat) as Hlen
    by (unfold l'; rewrite swap_remove_length; rewrite length_insert; lia).
  split; [|split; [done|lia]]. split; [|split; [lia|]].
  - apply Forall_forall. intros r Hr. apply swap_remove_incl in Hr.
    apply (Forall_forall fits (<[i := merged a b]> l)); [by apply Forall_insert|done].
  - assert (merged a b ∈ l') as Hin.
    { apply (swap_remove_keeps _ i); [by rewrite length_insert|lia|by apply list_lookup_insert_eq]. }
    intros px py (r & Hr & Hi'). apply list_elem_of_lookup in Hr as [k Hk].
    destruct (decide (k = i)) as [->|Hki].
    { exists (merged a b). split; [done|]. apply Hcov. left. congruence. }
    destruct (decide (k = j)) as [->|Hkj].
    { exists (merged a b). split; [done|]. apply Hcov. right. congruence. }
    exists r. split; [|done]. apply (swap_remove_keeps _ k); [by rewrite length_insert|done|].
    by rewrite list_lookup_insert_ne.
Qed.

Lemma grown_trans l1 l2 l3 : grown l1 l2 -> grown l2 l3 -> grown l1 l3.
Proof. intros (? & ? & ?) (? & ? & ?). split; [done|]. split; [lia|auto]. Qed.

Lemma pass_spec fuel l i m :
  Forall fits l -> (i <= length l)%nat -> (2 * length l - i < fuel)%nat ->
  exists l' m', pass fuel l i m = Some (l', m') /\ grown l l' /\
    (m' = false -> l' = l /\ m = false /\ settled l i) /\
    (m = false -> m' = true -> (length l' < length l)%nat).
Proof.
  revert l i m. induction fuel as [|fuel IH]; intros l i m Hf Hi Hfuel; [lia|]. cbn [pass].
  destruct (l !! i) as [a|] eqn:Ha.
  - pose proof (lookup_lt_Some _ _ _ Ha) as Hil.
    destruct (find_merge a (drop (S i) l) (S i)) as [[j b]|] eqn:Hj.
    + destruct (merge_step l i j a b Hf Ha Hj) as (Hg & Hlen & Hsl).
      destruct (IH (swap_remove j (<[i := merged a b]> l)) i true) as (l' & m' & -> & Hg' & Hm' & _).
      { apply Hg. } { rewrite Hlen. lia. } { rewrite Hlen. lia. }
      exists l', m'. split; [done|]. split; [by eapply grown_trans|]. split.
      * intros ->. by destruct Hm' as (_ & ? & _).
      * intros _ _. destruct Hg' as (_ & ? & _). lia.
    + destruct (IH l (S i) m Hf) as (l' & m' & -> & Hg & Hm & Hl); [lia|lia|].
      exists l', m'. split; [done|]. split; [done|]. split; [|done].
      intros ->. destruct (Hm eq_refl) as (-> & -> & Hs). split; [done|]. split; [done|].
      intros p q a' b Hpq Hp Hq. destruct (decide (p = i)) as [->|]; [|by eapply (Hs p q); [lia|..]].
      rewrite Ha in Hp. injection Hp as <-. eapply find_merge_None; [exact Hj|].
      apply list_elem_of_lookup. exists (q - S i)%nat. rewrite lookup_drop.
      by replace (S i + (q - S i))%nat with q by lia.
  - exists l, m. split; [done|]. split; [by split; [|split]|]. split; [|congruence].
    intros ->. split; [done|]. split; [done|]. intros p q a b Hpq Hp _.
    apply lookup_ge_None_1 in Ha. apply lookup_lt_Some in Hp. lia.
Qed.

Lemma merge_loop_spec fuel l :
  Forall fits l -> (length l < fuel)%nat ->
  exists out, merge_loop fuel l = Some out /\ grown l out /\ settled out 0.
Proof.
  revert l. induction fuel as [|fuel IH]; intros l Hf Hl; [lia|]. cbn [merge_loop].
  destruct (pass_spec (2 * length l + 1) l 0 false Hf) as (l' & m' & -> & Hg & Hm & Hd); [lia|lia|].
  destruct m'.
  - destruct (IH l') as (out & -> & Hg' & Hs); [apply Hg|specialize (Hd eq_refl eq_refl); lia|].
    exists out. split; [done|]. split; [by eapply grown_trans|done].
  - exists l'. destruct (Hm eq_refl) as (-> & _ & Hs). done.
Qed.

Lemma filtered_fits rects :
  Forall on_desktop rects ->
  Forall fits (filter (fun r => Is_true (nonempty r)) rects) /\
  (forall px py, covers rects px py -> covers (filter (fun r => Is_true (nonempty r)) rects) px py).
Proof.
  intros Hd. split.
  - apply Forall_forall. intros r Hr. apply list_elem_of_filter in Hr as [Hn Hr].
    rewrite Forall_forall in Hd. specialize (Hd r Hr). unfold on_desktop, fits in *.
    apply Is_true_eq_true in Hn. unfold nonempty in Hn. apply andb_true_iff in Hn as [H1 H2].
    apply N.ltb_lt in H1, H2. lia.
  - intros px py (r & Hr & Hin). exists r. split; [|done]. apply list_elem_of_filter.
    split; [|done]. apply Is_true_eq_left. unfold nonempty. unfold inside in Hin.
    apply andb_true_iff. split; apply N.ltb_lt; lia.
Qed.
End rects.

(** * Properties *)

(** Coalescing loses no damage and always ends: for rectangles of a desktop the
    loop ends with no more rectangles than it was given; every damaged pixel is
    still covered; none is empty; and no two of the result are worth merging,
    for the bounding box of any two is at least 1.3 times their areas. *)
Theorem merging_covers_damage (rects : list DirtyRect) (Hr : Forall on_desktop rects) :
  exists out, merge_damage_rects rects = Some out /\
    (length out <= length rects)%nat /\
    (forall px py, covers rects px py -> covers out px py) /\
    Forall (fun r => 0 < area r)%N out /\
    forall p q a b, (p < q)%nat -> out !! p = Some a -> out !! q = Some b ->
      ((area a + area b) * 13 <= area (merged a b) * 10)%N.
Proof.
  destruct (filtered_fits rects Hr) as [Hf Hc]. unfold merge_damage_rects.
  destruct (merge_loop_spec (S (length (filter (fun r => Is_true (nonempty r)) rects)))
    (filter (fun r => Is_true (nonempty r)) rects) Hf) as (out & -> & (Ho & Hl & Hcov) & Hs); [lia|].
  exists out. split; [done|]. split.
  { etransitivity; [exact Hl|]. apply length_filter. }
  split; [auto|]. split.
  { eapply Forall_impl; [exact Ho|]. intros r (? & ? & _). unfold area. nia. }
  intros p q a b Hpq Hp Hq. pose proof (Hs p q a b ltac:(lia) Hp Hq) as Hm.
  destruct (merged_spec a b) as (_ & _ & He);
    [by apply (Forall_lookup_1 _ _ _ _ Ho Hp)|by apply (Forall_lookup_1 _ _ _ _ Ho Hq)|].
  rewrite He in Hm. by apply N.ltb_ge in Hm.
Qed.

Lemma merging_covers_damage_witness :
  let rects := [mkRect 0 0 100 20; mkRect 500 500 10 10; mkRect (-5) 10 100 20; mkRect 7 7 0 9] in
  exists out, merge_damage_rects rects = Some out /\ (length out <= 4)%nat /\
    (forall px py, covers rects px py -> covers out px py).
Proof.
  intros rects. destruct (merging_covers_damage rects) as (out & H1 & H2 & H3 & _).
  - repeat constructor; vm_compute; discriminate.
  - by exists out.
Defined.

Example merge_two :
  merge_damage_rects [mkRect 0 0 100 20; mkRect 500 500 10 10; mkRect (-5) 10 100 20] =
    Some [mkRect (-5) 0 105 30; mkRect 500 500 10 10].
Proof. vm_compute. reflexivity. Qed.
