(* ===== verification/Picture.v ===== *)
(** The block-DCT picture codec: [core/lowbandd/src/picture.rs].

    The bit stream and the tile geometry are modelled; the transforms between 64
    samples and 64 quantised coefficients are [f32] arithmetic over the cosine of
    the platform's mathematical library, and are parameters.  An [i16] is a [Z]. *)
From S2P Require Import Prelude Palette Tiles.
#[local] Open Scope N_scope.

Definition BLOCK : N := 8.
Definition TILE_DIM : N := 32.
Definition BLOCKS : N := TILE_DIM / BLOCK.

(** ** Blocks on the wire *)

(** The nonzero coefficients with their indices, from index [i]. *)
Fixpoint nonzeros (i : N) (quant : list Z) : list (N * Z) :=
  match quant with
  | [] => []
  | v :: quant =>
      if (v =? 0)%Z then nonzeros (i + 1) quant else (wrap 8 i, v) :: nonzeros (i + 1) quant
  end.

Definition encode_block (quant : list Z) : list byte :=
  let nz := nonzeros 0 quant in
  byte_of (lenN nz) :: concat (map (fun '(idx, v) => byte_of idx :: i16_bytes v) nz).

Fixpoint decode_pairs (count : nat) (quant : list Z) (cur : list byte) :
    option (list Z * list byte) :=
  match count with
  | O => Some (quant, cur)
  | S count =>
      match cur with
      | [] => None
      | idx :: rest =>
          '(val_bytes, rest) ← split_at_checked 2 rest;
          let quant :=
            if Byte.to_N idx <? 64
            then <[N.to_nat (Byte.to_N idx) := i16_value val_bytes]> quant else quant in
          decode_pairs count quant rest
      end
  end.

Definition decode_block (cur : list byte) : option (list Z * list byte) :=
  match cur with
  | [] => None
  | count :: rest => decode_pairs (N.to_nat (Byte.to_N count)) (replicate 64 0%Z) rest
  end.

(** ** Tiles *)

(** The blocks in the order of the stream: channel, block row, block column. *)
Definition block_order : list (N * N * N) :=
  ch ← rangeN 0 3; by_ ← rangeN 0 BLOCKS; bx ← rangeN 0 BLOCKS; [(ch, by_, bx)].

(** The offset of sample ([x], [y]) of a block in the tile. *)
Definition sample_offset (block : N * N * N) (sx sy : N) : N :=
  let '(ch, by_, bx) := block in
  ((by_ * BLOCK + sy) * TILE_DIM + (bx * BLOCK + sx)) * 4 + ch.

(** The samples of a block, row by row. *)
Definition samples : list (N * N) := sy ← rangeN 0 BLOCK; sx ← rangeN 0 BLOCK; [(sx, sy)].

Section transforms.
(** The forward transform with quantisation and zig-zag, and the inverse, with
    rounding and clamping to bytes. *)
Context (fdct : list byte -> list Z) (idct : list Z -> list byte).

Definition block_samples (pixels : list byte) (block : N * N * N) : option (list byte) :=
  mapM (fun '(sx, sy) => pixels !! N.to_nat (sample_offset block sx sy)) samples.

(** [assert_eq!(pixels.len(), TILE_BYTES)]. *)
Definition encode_tile (pixels : list byte) : option (list byte) :=
  if negb (lenN pixels =? TILE_BYTES) then None
  else
    blocks ← mapM (block_samples pixels) block_order;
    Some (concat (map (fun b => encode_block (fdct b)) blocks)).

Definition write_block (tile : list byte) (block : N * N * N) (values : list byte) : list byte :=
  fold_left (fun tile '((sx, sy), v) => <[N.to_nat (sample_offset block sx sy) := v]> tile)
    (zip samples values) tile.

Fixpoint decode_blocks (tile : list byte) (blocks : list (N * N * N)) (cur : list byte) :
    option (list byte) :=
  match blocks with
  | [] => Some tile
  | b :: blocks =>
      '(quant, cur) ← decode_block cur;
      decode_blocks (write_block tile b (idct quant)) blocks cur
  end.

(** Transparent black with the alpha of every pixel set. *)
Definition opaque_black : list byte :=
  concat (replicate (N.to_nat (TILE_DIM * TILE_DIM)) [Byte.x00; Byte.x00; Byte.x00; Byte.xff]).

Definition decode_tile (cur : list byte) : option (list byte) :=
  decode_blocks opaque_black block_order cur.
End transforms.

(** ** Lemmas *)
Section blocks.
Implicit Types (quant : list Z).

Lemma nonzeros_length i quant : (length (nonzeros i quant) <= length quant)%nat.
Proof.
  revert i. induction quant as [|v q IH]; intros i; cbn [nonzeros length]; [lia|].
  specialize (IH (i + 1)). destruct (v =? 0)%Z; cbn [length]; lia.
Qed.

(** Decoding restores the coefficients one by one. *)
Lemma decode_pairs_spec i quant dst rest :
  Forall i16_ok quant -> (N.to_nat i + length quant = 64)%nat ->
  take (length quant) (drop (N.to_nat i) dst) = replicate (length quant) 0%Z -> length dst = 64%nat ->
  decode_pairs (length (nonzeros i quant)) dst
    (concat (map (fun '(idx, v) => byte_of idx :: i16_bytes v) (nonzeros i quant)) ++ rest) =
    Some (take (N.to_nat i) dst ++ quant, rest).
Proof.
  revert i dst. induction quant as [|v q IH]; intros i dst Hq Hi Hz Hl.
  { cbn. rewrite take_ge by (cbn [length] in Hi; lia). by rewrite app_nil_r. }
  apply Forall_cons in Hq as [Hv Hq]. cbn [length] in Hi, Hz.
  assert (exists d, drop (N.to_nat i) dst = 0%Z :: d) as [d Hd].
  { destruct (drop (N.to_nat i) dst) as [|z d] eqn:E.
    - apply (f_equal length) in E. rewrite length_drop in E. cbn in E. lia.
    - cbn in Hz. injection Hz as -> _. by exists d. }
  assert (drop (N.to_nat (i + 1)) dst = d) as Hd1.
  { replace (N.to_nat (i + 1)) with (N.to_nat i + 1)%nat by lia. by rewrite <- drop_drop, Hd. }
  assert (dst !! N.to_nat i = Some 0%Z) as Hlk.
  { rewrite <- (Nat.add_0_r (N.to_nat i)), <- lookup_drop, Hd. done. }
  assert (take (length q) d = replicate (length q) 0%Z) as Htk.
  { rewrite Hd in Hz. cbn in Hz. by injection Hz. }
  assert (N.to_nat (i + 1) = S (N.to_nat i)) as HS by lia.
  cbn [nonzeros]. destruct (Z.eqb_spec v 0) as [->|Hnz].
  - rewrite (IH (i + 1) dst) by (try done; rewrite ?Hd1; try done; lia).
    rewrite HS, (take_S_r _ _ _ Hlk), <- app_assoc. done.
  - rewrite wrap_small by lia. cbn [map concat length decode_pairs app].
    rewrite to_N_byte_of, N.mod_small by lia. unfold split_at_checked.
    rewrite <- app_assoc, (proj2 (N.leb_le _ _)) by (rewrite lenN_app; unfold lenN; rewrite i16_bytes_length; lia).
    rewrite take_app_length', drop_app_length' by (by rewrite i16_bytes_length).
    cbn [mbind option_bind]. rewrite i16_roundtrip by done.
    rewrite (proj2 (N.ltb_lt i 64)) by lia.
    rewrite (IH (i + 1)); try done.
    + rewrite HS. f_equal. f_equal. change (v :: q) with ([v] ++ q). rewrite app_assoc. f_equal.
      rewrite (take_S_r _ _ v) by (apply list_lookup_insert_eq; lia).
      by rewrite take_insert_ge by lia.
    + lia.
    + rewrite HS, drop_insert_lt by lia. by rewrite <- HS, Hd1.
    + by rewrite length_insert.
Qed.

Lemma block_roundtrip quant rest :
  Forall i16_ok quant -> length quant = 64%nat -> decode_block (encode_block quant ++ rest) = Some (quant, rest).
Proof.
  intros Hq Hl. unfold encode_block, decode_block. cbn [app].
  pose proof (nonzeros_length 0 quant). rewrite to_N_byte_of, N.mod_small by (unfold lenN; lia).
  rewrite to_nat_lenN. rewrite (decode_pairs_spec 0 quant); try done. by rewrite Hl.
Qed.
End blocks.

Section tiles.
Context (fdct : list byte -> list Z) (idct : list Z -> list byte).

Lemma write_block_length tile b values : length (write_block tile b values) = length tile.
Proof.
  unfold write_block. generalize (zip samples values) as l. intros l. revert tile.
  induction l as [|[[sx sy] v] l IH]; intros tile; [done|]. cbn [fold_left].
  by rewrite IH, length_insert.
Qed.

Lemma opaque_black_length : length opaque_black = 4096%nat.
Proof. vm_compute. reflexivity. Qed.

Lemma decode_tile_length cur tile : decode_tile idct cur = Some tile -> length tile = 4096%nat.
Proof.
  unfold decode_tile. rewrite <- opaque_black_length. generalize opaque_black as t.
  generalize block_order as bs. intros bs. revert cur.
  induction bs as [|b bs IH]; intros cur t; cbn [decode_blocks]; [by intros [= ->]|].
  destruct (decode_block cur) as [[quant rest]|]; [|done]. cbn [mbind option_bind].
  intros Hd. rewrite (IH _ _ Hd). apply write_block_length.
Qed.

Lemma decode_blocks_spec tile blocks quants rest :
  length blocks = length quants -> Forall (fun q => Forall i16_ok q /\ length q = 64%nat) quants ->
  decode_blocks idct tile blocks (concat (map encode_block quants) ++ rest) =
    Some (fold_left (fun t '(b, q) => write_block t b (idct q)) (zip blocks quants) tile).
Proof.
  revert tile blocks. induction quants as [|q qs IH]; intros tile blocks Hl Hq.
  { by destruct blocks. }
  destruct blocks as [|b bs]; [done|]. apply Forall_cons in Hq as [[Hq Hq64] Hqs].
  cbn [map concat decode_blocks zip fold_left]. rewrite <- app_assoc, block_roundtrip by done.
  cbn [mbind option_bind]. apply IH; [cbn in Hl; lia|done].
Qed.
End tiles.

(** * Properties *)

(** The picture stream carries the coefficients exactly: the bytes of 48 blocks
    of 64 coefficients decode, whatever follows them, to the tile whose blocks
    are the inverse transforms of those coefficients, so all loss is in the
    transforms; and whatever decodes is one tile of 4096 bytes. *)
Theorem picture_stream_exact (idct : list Z -> list byte) (quants : list (list Z))
    (rest : list byte)
    (Hn : length quants = 48%nat)
    (Hq : Forall (fun q => Forall i16_ok q /\ length q = 64%nat) quants) :
  exists tile,
    decode_tile idct (concat (map encode_block quants) ++ rest) = Some tile /\
    tile = fold_left (fun t '(b, q) => write_block t b (idct q)) (zip block_order quants)
             opaque_black /\
    lenN tile = TILE_BYTES.
Proof.
  eexists. assert (length block_order = length quants) as Hb by (rewrite Hn; vm_compute; reflexivity).
  pose proof (decode_blocks_spec idct opaque_black block_order quants rest Hb Hq) as H.
  split; [exact H|]. split; [done|]. unfold lenN. by rewrite (decode_tile_length idct _ _ H).
Qed.

Lemma picture_stream_exact_witness :
  let q := (-3)%Z :: replicate 62 0%Z ++ [700%Z] in
  exists tile, decode_tile (map (fun z => byte_of (Z.to_N z))) (concat (map encode_block (replicate 48 q)))
    = Some tile /\ lenN tile = TILE_BYTES.
Proof.
  intros q. destruct (picture_stream_exact (map (fun z => byte_of (Z.to_N z))) (replicate 48 q) [])
    as (tile & H1 & _ & H2).
  - reflexivity.
  - apply Forall_replicate. split; [|reflexivity]. unfold q. constructor; [split; lia|].
    apply Forall_app. split; [apply Forall_replicate; split; lia|].
    constructor; [split; lia|constructor].
  - rewrite app_nil_r in H1. exists tile. split; [exact H1|exact H2].
Defined.
