(* ===== verification/Screen.v ===== *)
(** Screen frames over the session: [core/lowbandd/src/screen_transfer.rs].

    Coordinates are [u32]; a slice out of range panics: [None].  The build is the
    default one, without the [av1] feature. *)
From S2P Require Import Prelude Palette Tiles Picture.
#[local] Open Scope N_scope.

Definition KIND_BEGIN : byte := Byte.x20.
Definition KIND_TILE : byte := Byte.x21.
Definition KIND_END : byte := Byte.x22.

Definition ENC_PALETTE : N := 0.
Definition ENC_RAW : N := 1.
Definition ENC_DCT : N := 2.

Inductive ScreenFrame :=
| Begin (width height : N)
| Tile (col row encoding : N) (data : list byte)
| End_.

Inductive ScreenError :=
| Truncated | TooLarge | UnknownKind (k : N) | UnknownEncoding (e : N) | ShortBuffer | NoBegin
| BadTile.

(** ** The wire *)
Definition encode (f : ScreenFrame) : list byte :=
  match f with
  | Begin width height => KIND_BEGIN :: le_bytes 2 width ++ le_bytes 2 height
  | Tile col row encoding data =>
      KIND_TILE :: le_bytes 2 col ++ le_bytes 2 row ++ byte_of encoding ::
        le_bytes 2 (lenN data) ++ data
  | End_ => [KIND_END]
  end.

Definition take_u16 (rest : list byte) : result ScreenError (N * list byte) :=
  '(h, t) ← ok_or Truncated (split_at_checked 2 rest); Ok (le_value h, t).

Definition decode (buf : list byte) : result ScreenError ScreenFrame :=
  match buf with
  | [] => Err Truncated
  | kind :: rest =>
      if bool_decide (kind = KIND_BEGIN) then
        '(width, rest) ← take_u16 rest;
        '(height, rest) ← take_u16 rest;
        Ok (Begin width height)
      else if bool_decide (kind = KIND_TILE) then
        '(col, rest) ← take_u16 rest;
        '(row, rest) ← take_u16 rest;
        match rest with
        | [] => Err Truncated
        | encoding :: rest =>
            '(len, rest) ← take_u16 rest;
            if TILE_BYTES <? len then Err TooLarge
            else
              '(data, _) ← ok_or Truncated (split_at_checked len rest);
              Ok (Tile col row (Byte.to_N encoding) data)
        end
      else if bool_decide (kind = KIND_END) then Ok End_
      else Err (UnknownKind (Byte.to_N kind))
  end.

Section transforms.
Context (fdct : list byte -> list Z) (idct : list Z -> list byte).

(** ** The sender *)

(** The tiles of a grid, row by row. *)
Definition grid_coords (g : TileGrid) : list TileCoord :=
  row ← rangeN 0 (rows g); col ← rangeN 0 (cols g); [{| col := col; row := row |}].

Definition tile_frame (g : TileGrid) (pixels : list byte) (stride : N) (c : TileCoord) :
    option ScreenFrame :=
  tile ← extract_tile g pixels stride c;
  encoded ← palette_encode tile;
  '(encoding, data) ←
    match encoded with
    | Ok d => Some (ENC_PALETTE, d)
    | Err _ => d ← encode_tile fdct tile; Some (ENC_DCT, d)
    end;
  Some (Tile (col c) (row c) encoding data).

(** The frames [send_frame] puts on the session. *)
Definition send_frame (width height : N) (pixels : list byte) :
    option (result ScreenError (list ScreenFrame)) :=
  let stride := wrap 32 (width * 4) in
  if lenN pixels <? wrap 32 (stride * height) then Some (Err ShortBuffer)
  else
    let grid := grid_new width height in
    tiles ← mapM (tile_frame grid pixels stride) (grid_coords grid);
    Some (Ok (Begin width height :: tiles ++ [End_])).

(** ** The receiver *)
Record ScreenReceiver := mkReceiver {
  r_width : N; r_height : N; fb : list byte; tiles_applied : N }.

Definition receiver_new : ScreenReceiver :=
  {| r_width := 0; r_height := 0; fb := []; tiles_applied := 0 |}.

(** [fb[dst..dst + 4].copy_from_slice(bytes)]. *)
Definition write4 (fb : list byte) (dst : N) (bytes : list byte) : option (list byte) :=
  if dst + 4 <=? lenN fb
  then Some (take (N.to_nat dst) fb ++ bytes ++ drop (N.to_nat dst + 4) fb)
  else None.

(** The inner loop of [blit], over the columns. *)
Fixpoint blit_row (width tx y r : N) (tile : list byte) (cs : list N) (fb : list byte) :
    option (list byte) :=
  match cs with
  | [] => Some fb
  | c :: cs =>
      let x := wrap 32 (tx + c) in
      if width <=? x then Some fb
      else
        let src := (r * TILE_SIZE_PX + c) * 4 in
        let dst := wrap 32 (wrap 32 (wrap 32 (y * width) + x) * 4) in
        bytes ← slice4 tile src;
        fb ← write4 fb dst bytes;
        blit_row width tx y r tile cs fb
  end.

Fixpoint blit_rows (width height tx ty : N) (tile : list byte) (rs : list N) (fb : list byte) :
    option (list byte) :=
  match rs with
  | [] => Some fb
  | r :: rs =>
      let y := wrap 32 (ty + r) in
      if height <=? y then Some fb
      else
        fb ← blit_row width tx y r tile (rangeN 0 TILE_SIZE_PX) fb;
        blit_rows width height tx ty tile rs fb
  end.

Definition blit (s : ScreenReceiver) (col row : N) (tile : list byte) : option (list byte) :=
  blit_rows (r_width s) (r_height s) (wrap 32 (col * TILE_SIZE_PX)) (wrap 32 (row * TILE_SIZE_PX))
    tile (rangeN 0 TILE_SIZE_PX) (fb s).

Definition decode_pixels (encoding : N) (data : list byte) :
    option (result ScreenError (list byte)) :=
  if encoding =? ENC_PALETTE then
    res ← palette_decode data;
    Some match res with Ok tile => Ok tile | Err _ => Err BadTile end
  else if encoding =? ENC_RAW then
    Some (if negb (lenN data =? TILE_BYTES) then Err BadTile else Ok data)
  else if encoding =? ENC_DCT then Some (ok_or BadTile (decode_tile idct data))
  else Some (Err (UnknownEncoding encoding)).

Definition apply (s : ScreenReceiver) (frame : ScreenFrame) :
    option (ScreenReceiver * result ScreenError (option (list byte))) :=
  match frame with
  | Begin width height =>
      let n := wrap 32 (wrap 32 (width * height) * 4) in
      Some ({| r_width := width; r_height := height; fb := replicate (N.to_nat n) Byte.x00;
               tiles_applied := 0 |}, Ok None)
  | Tile col row encoding data =>
      if lenN (fb s) =? 0 then Some (s, Err NoBegin)
      else
        res ← decode_pixels encoding data;
        match res with
        | Err e => Some (s, Err e)
        | Ok tile =>
            fb ← blit s col row tile;
            Some ({| r_width := r_width s; r_height := r_height s; fb := fb;
                     tiles_applied := wrap 64 (tiles_applied s + 1) |}, Ok None)
        end
  | End_ =>
      Some ({| r_width := r_width s; r_height := r_height s; fb := [];
               tiles_applied := tiles_applied s |}, Ok (Some (fb s)))
  end.

(** A run of received datagrams, and what each of them gave. *)
Fixpoint receive (s : ScreenReceiver) (datagrams : list (list byte)) :
    option (ScreenReceiver * list (result ScreenError (option (list byte)))) :=
  match datagrams with
  | [] => Some (s, [])
  | d :: datagrams =>
      match decode d with
      | Err e => '(s, res) ← receive s datagrams; Some (s, Err e :: res)
      | Ok frame =>
          '(s, r) ← apply s frame;
          '(s, res) ← receive s datagrams;
          Some (s, r :: res)
      end
  end.
End transforms.

(** ** Lemmas: buffers as lists of pixels *)
Section pixels.
Implicit Types (p : pixel) (l tile : list byte).

Definition px_bytes p : list byte := bgr_bytes (fst p) ++ [snd p].

Lemma chunks4_cons p l : chunks4 (px_bytes p ++ l) = p :: chunks4 l.
Proof. by destruct p as [[[b g] r] a]. Qed.

Lemma chunks4_concat ps l : chunks4 (concat (map px_bytes ps) ++ l) = ps ++ chunks4 l.
Proof.
  induction ps as [|p ps IH]; [done|]. cbn [map concat app].
  by rewrite <- app_assoc, chunks4_cons, IH.
Qed.

Lemma concat_chunks4 n l : length l = (4 * n)%nat -> concat (map px_bytes (chunks4 l)) = l.
Proof.
  revert l. induction n as [|n IH]; intros l Hl; [by destruct l|].
  destruct l as [|b [|g [|r [|a l]]]]; cbn in Hl; try lia.
  cbn. rewrite IH by lia. done.
Qed.

Lemma chunks4_drop i l : chunks4 (drop (4 * i) l) = drop i (chunks4 l).
Proof.
  revert l. induction i as [|i IH]; intros l; [done|].
  replace (4 * S i)%nat with (S (S (S (S (4 * i))))) by lia.
  destruct l as [|b [|g [|r [|a l]]]]; try done. cbn [drop chunks4]. apply IH.
Qed.

Lemma chunks4_take i l : chunks4 (take (4 * i) l) = take i (chunks4 l).
Proof.
  revert l. induction i as [|i IH]; intros l; [by destruct l|].
  replace (4 * S i)%nat with (S (S (S (S (4 * i))))) by lia.
  destruct l as [|b [|g [|r [|a l]]]]; try done. cbn [take chunks4]. by rewrite IH.
Qed.

Lemma slice4_lookup l i :
  (4 * i + 4 <= length l)%nat ->
  exists p, chunks4 l !! i = Some p /\ slice4 l (N.of_nat (4 * i)) = Some (px_bytes p).
Proof.
  intros Hl. unfold slice4. rewrite (proj2 (N.leb_le _ _)) by (unfold lenN; lia).
  rewrite Nat2N.id. pose proof (chunks4_drop i l) as Hd.
  destruct (drop (4 * i) l) as [|b [|g [|r [|a rest]]]] eqn:E;
    try (apply (f_equal length) in E; rewrite length_drop in E; cbn in E; lia).
  exists (b, g, r, a). split; [|done].
  rewrite <- (Nat.add_0_r i), <- lookup_drop, <- Hd. done.
Qed.

Lemma write4_insert l i p n :
  length l = (4 * n)%nat -> (i < n)%nat ->
  exists l', write4 l (N.of_nat (4 * i)) (px_bytes p) = Some l' /\ length l' = (4 * n)%nat /\
    chunks4 l' = <[i := p]> (chunks4 l).
Proof.
  intros Hl Hi. unfold write4. rewrite (proj2 (N.leb_le _ _)) by (unfold lenN; lia).
  rewrite Nat2N.id. eexists. split; [done|]. split.
  { rewrite !length_app, length_take, length_drop. destruct p as [[[b g] r] a]. cbn. lia. }
  rewrite <- (concat_chunks4 i (take (4 * i) l)) by (rewrite length_take; lia).
  rewrite chunks4_concat, chunks4_cons, chunks4_take.
  replace (4 * i + 4)%nat with (4 * S i)%nat by lia. rewrite chunks4_drop.
  rewrite insert_take_drop; [done|]. by rewrite (chunks4_length n).
Qed.

Lemma concat_lookup {A} (n : nat) (ls : list (list A)) i j (l : list A) :
  Forall (fun row : list A => length row = n) ls -> ls !! i = Some l -> (j < n)%nat ->
  concat ls !! (n * i + j)%nat = l !! j.
Proof.
  intros Hn. revert i. induction Hn as [|l' ls Hl' Hn IH]; intros i Hi Hj; [done|].
  cbn [concat]. destruct i as [|i].
  - injection Hi as ->. rewrite Nat.mul_0_r, lookup_app_l by lia. done.
  - rewrite lookup_app_r by lia. replace (n * S i + j - length l')%nat with (n * i + j)%nat by lia.
    by apply IH.
Qed.

Lemma mapM_total {A B} (f : A -> option B) (g : A -> B) (l : list A) :
  (forall a, a ∈ l -> f a = Some (g a)) -> mapM f l = Some (map g l).
Proof.
  induction l as [|a l IH]; intros Hf; [done|]. cbn [mapM map].
  rewrite Hf by (by left). cbn [mbind option_bind]. rewrite IH by (intros; apply Hf; by right). done.
Qed.

Lemma rangeN_lookup i k : (i < N.to_nat k)%nat -> rangeN 0 k !! i = Some (N.of_nat i).
Proof.
  intros Hi. unfold rangeN. rewrite list_lookup_fmap, lookup_seq_lt by done. done.
Qed.

Lemma rangeN_length lo k : length (rangeN lo k) = N.to_nat k.
Proof. unfold rangeN. by rewrite length_map, length_seq. Qed.

Lemma rangeN_cons lo k : 0 < k -> rangeN lo k = lo :: rangeN (lo + 1) (k - 1).
Proof.
  intros Hk. unfold rangeN. replace (N.to_nat k) with (S (N.to_nat (k - 1))) by lia.
  cbn [ListDef.seq map]. rewrite N2Nat.id. do 3 f_equal. lia.
Qed.
End pixels.

(** ** Lemmas: extracting a tile *)
Section extract.
Context (width height : N) (pixels : list byte).
Context (Hw : width < 2 ^ 16) (Hh : height < 2 ^ 16) (Hwh : width * height * 4 < 2 ^ 32).
Context (Hlen : width * height * 4 <= lenN pixels).

Definition black : pixel := (Byte.x00, Byte.x00, Byte.x00, Byte.x00).

(** Pixel ([x], [y]) of the frame. *)
Definition source (px py : N) : pixel :=
  default black (chunks4 pixels !! N.to_nat (py * width + px)).

Definition tile_cell (c : TileCoord) (r k : N) : pixel :=
  if (Tiles.row c * 32 + r <? height) && (Tiles.col c * 32 + k <? width)
  then source (Tiles.col c * 32 + k) (Tiles.row c * 32 + r) else black.

Definition in_grid (c : TileCoord) : Prop := Tiles.col c < 2 ^ 16 /\ Tiles.row c < 2 ^ 16.

Lemma source_slice px py :
  px < width -> py < height -> slice4 pixels ((py * width + px) * 4) = Some (px_bytes (source px py)).
Proof.
  intros Hx Hy. assert (py * width + px < width * height) by nia.
  destruct (slice4_lookup pixels (N.to_nat (py * width + px))) as (p & Hp & Hs);
    [unfold lenN in Hlen; lia|].
  unfold source. rewrite Hp. cbn [from_option id]. rewrite <- Hs. f_equal. lia.
Qed.

Lemma tile_pixel_spec c r k :
  in_grid c -> r < 32 -> k < 32 ->
  tile_pixel (grid_new width height) pixels (wrap 32 (width * 4)) c r k = Some (px_bytes (tile_cell c r k)).
Proof.
  intros [Hc Hr] Hrl Hkl. unfold tile_pixel, tile_cell, TILE_SIZE_PX.
  cbn [frame_height frame_width grid_new].
  rewrite !(wrap_small 32 (_ * 32)) by lia. rewrite (wrap_small 32 (width * 4)) by lia.
  destruct (N.leb_spec height (Tiles.row c * 32 + r)) as [|Hy].
  { by rewrite (proj2 (N.ltb_ge _ _)) by lia. }
  rewrite (proj2 (N.ltb_lt _ _)) by lia. cbn [andb].
  destruct (N.leb_spec width (Tiles.col c * 32 + k)) as [|Hx].
  { by rewrite (proj2 (N.ltb_ge _ _)) by lia. }
  rewrite (proj2 (N.ltb_lt _ _)) by lia.
  assert ((Tiles.row c * 32 + r) * width + (Tiles.col c * 32 + k) < width * height) by nia.
  rewrite !wrap_small by nia. rewrite <- source_slice by done. f_equal. lia.
Qed.

(** The pixels of an extracted tile. *)
Definition tile_pixels (c : TileCoord) : list pixel :=
  concat (map (fun r => map (tile_cell c r) (rangeN 0 32)) (rangeN 0 32)).

Lemma extract_tile_spec c :
  in_grid c ->
  extract_tile (grid_new width height) pixels (wrap 32 (width * 4)) c =
    Some (concat (map px_bytes (tile_pixels c))).
Proof.
  intros Hc. unfold extract_tile, tile_pixels.
  rewrite (mapM_total _ (fun r => concat (map (fun k => px_bytes (tile_cell c r k)) (rangeN 0 32)))).
  - cbn [mbind option_bind]. f_equal. change TILE_SIZE_PX with 32.
    generalize (rangeN 0 32) at 2 4. intros rs. induction rs as [|r rs IH]; [done|].
    cbn [map concat]. rewrite map_app, concat_app, IH. f_equal.
  - intros r Hr. apply elem_of_rangeN in Hr. unfold TILE_SIZE_PX in Hr |- *.
    rewrite (mapM_total _ (fun k => px_bytes (tile_cell c r k))); [done|].
    intros k Hk. apply elem_of_rangeN in Hk. apply tile_pixel_spec; [done|lia|lia].
Qed.

Lemma tile_pixels_lookup c r k :
  r < 32 -> k < 32 -> tile_pixels c !! N.to_nat (32 * r + k) = Some (tile_cell c r k).
Proof.
  intros Hr Hk. unfold tile_pixels.
  replace (N.to_nat (32 * r + k)) with (32 * N.to_nat r + N.to_nat k)%nat by lia.
  rewrite (concat_lookup 32 _ (N.to_nat r) (N.to_nat k) (map (tile_cell c r) (rangeN 0 32))).
  - rewrite list_lookup_fmap, rangeN_lookup by lia. cbn. by rewrite N2Nat.id.
  - apply Forall_fmap, Forall_forall. intros r' _. cbn. by rewrite length_map, rangeN_length.
  - rewrite list_lookup_fmap, rangeN_lookup by lia. cbn. by rewrite N2Nat.id.
  - lia.
Qed.

Lemma tile_pixels_length c : length (tile_pixels c) = 1024%nat.
Proof. reflexivity. Qed.

Lemma tile_bytes_length c : lenN (concat (map px_bytes (tile_pixels c))) = TILE_BYTES.
Proof.
  assert (forall ps, lenN (concat (map px_bytes ps)) = 4 * lenN ps) as Hl.
  { induction ps as [|[[[b g] r] a] ps IH]; [done|]. cbn [map concat].
    rewrite lenN_app, IH, lenN_cons. unfold lenN. cbn [length px_bytes bgr_bytes app fst snd]. lia. }
  rewrite Hl. unfold lenN. by rewrite tile_pixels_length.
Qed.
End extract.

(** ** Lemmas: placing a tile *)
Section blit.
Context (width height : N) (tile : list byte).
Context (Hw : width < 2 ^ 16) (Hh : height < 2 ^ 16) (Hwh : width * height * 4 < 2 ^ 32).
Context (Htile : length tile = 4096%nat).

(** A frame buffer of the frame's size. *)
Definition sized (fb : list byte) : Prop := length fb = (4 * N.to_nat (width * height))%nat.

(** Pixel ([px], [py]) of a frame buffer. *)
Definition at_ (fb : list byte) (px py : N) : option pixel :=
  chunks4 fb !! N.to_nat (py * width + px).

Lemma same_index px py x y :
  px < width -> x < width -> N.to_nat (py * width + px) = N.to_nat (y * width + x) -> px = x /\ py = y.
Proof.
  intros Hp Hx He. assert (py * width + px = y * width + x) as E by lia.
  assert (py = y) by nia. split; [nia|done].
Qed.

Lemma write_pixel fb x y r k :
  sized fb -> x < width -> y < height -> r < 32 -> k < 32 ->
  exists p fb', chunks4 tile !! N.to_nat (32 * r + k) = Some p /\
    (bytes ← slice4 tile ((r * TILE_SIZE_PX + k) * 4);
     write4 fb (wrap 32 (wrap 32 (wrap 32 (y * width) + x) * 4)) bytes) = Some fb' /\ sized fb' /\
    forall px py, px < width -> py < height ->
      at_ fb' px py = if (px =? x) && (py =? y) then Some p else at_ fb px py.
Proof.
  intros Hfb Hx Hy Hr Hk.
  destruct (slice4_lookup tile (N.to_nat (32 * r + k))) as (p & Hp & Hs); [lia|].
  replace (N.of_nat (4 * N.to_nat (32 * r + k))) with ((r * TILE_SIZE_PX + k) * 4) in Hs
    by (unfold TILE_SIZE_PX; lia).
  assert (y * width + x < width * height) by nia. assert (y * width <= y * width + x) by lia.
  rewrite Hs, (wrap_small 32 (y * width)), (wrap_small 32 (y * width + x)),
    (wrap_small 32 ((y * width + x) * 4)) by lia.
  cbn [mbind option_bind].
  destruct (write4_insert fb (N.to_nat (y * width + x)) p _ Hfb) as (fb' & Hwr & Hfb' & Hc); [lia|].
  replace (N.of_nat (4 * N.to_nat (y * width + x))) with ((y * width + x) * 4) in Hwr by lia.
  exists p, fb'. split; [done|]. split; [done|]. split; [done|]. intros px py Hpx Hpy.
  unfold at_. rewrite Hc. destruct (decide (N.to_nat (py * width + px) = N.to_nat (y * width + x))) as [He|Hne].
  - destruct (same_index _ _ _ _ Hpx Hx He) as [-> ->]. rewrite !N.eqb_refl. cbn [andb].
    apply list_lookup_insert_eq. rewrite (chunks4_length (N.to_nat (width * height))) by exact Hfb. lia.
  - rewrite list_lookup_insert_ne by (intros E; by apply Hne).
    destruct (N.eqb_spec px x) as [->|], (N.eqb_spec py y) as [->|]; done.
Qed.

Lemma blit_row_spec n fb tx y r c :
  sized fb -> tx + 32 < 2 ^ 32 -> y < height -> r < 32 -> c + n = 32 ->
  exists fb', blit_row width tx y r tile (rangeN c n) fb = Some fb' /\ sized fb' /\
    forall px py, px < width -> py < height ->
      at_ fb' px py = if (py =? y) && ((tx + c <=? px) && (px <? tx + 32))
                      then chunks4 tile !! N.to_nat (32 * r + (px - tx)) else at_ fb px py.
Proof.
  intros Hfb Htx Hy Hr. revert c fb Hfb. induction n as [|n IH] using N.peano_ind; intros c fb Hfb Hc.
  { exists fb. split; [done|]. split; [done|]. intros px py _ _.
    destruct (N.leb_spec (tx + c) px), (N.ltb_spec px (tx + 32)); try lia; by rewrite andb_false_r. }
  rewrite rangeN_cons by lia. cbn [blit_row]. rewrite (wrap_small 32 (tx + c)) by lia.
  destruct (N.leb_spec width (tx + c)) as [Hout|Hin].
  { exists fb. split; [done|]. split; [done|]. intros px py Hpx _.
    rewrite (proj2 (N.leb_gt _ _)) by lia. by rewrite andb_false_r. }
  destruct (write_pixel fb (tx + c) y r c) as (p & fb1 & Hp & Hwr & Hfb1 & Hat); [done|done|done|done|lia|].
  destruct (slice4 tile ((r * TILE_SIZE_PX + c) * 4)) as [bytes|]; [|done].
  cbn [mbind option_bind] in Hwr |- *. rewrite Hwr. cbn [mbind option_bind].
  replace (N.succ n - 1) with n by lia.
  destruct (IH (c + 1) fb1 Hfb1) as (fb2 & -> & Hfb2 & Hat2); [lia|].
  exists fb2. split; [done|]. split; [done|]. intros px py Hpx Hpy. rewrite Hat2, Hat by done.
  destruct (N.eqb_spec py y) as [->|]; [|by rewrite andb_false_r]. rewrite andb_true_r. cbn [andb].
  destruct (N.eqb_spec px (tx + c)) as [->|Hne].
  - rewrite (proj2 (N.leb_gt _ _)), (proj2 (N.leb_le _ _)), (proj2 (N.ltb_lt _ _)) by lia.
    cbn [andb]. replace (tx + c - tx) with c by lia. done.
  - destruct (N.leb_spec (tx + (c + 1)) px), (N.leb_spec (tx + c) px); try lia; done.
Qed.

Lemma blit_rows_spec n fb tx ty r :
  sized fb -> tx + 32 < 2 ^ 32 -> ty + 32 < 2 ^ 32 -> r + n = 32 ->
  exists fb', blit_rows width height tx ty tile (rangeN r n) fb = Some fb' /\ sized fb' /\
    forall px py, px < width -> py < height ->
      at_ fb' px py = if ((tx <=? px) && (px <? tx + 32)) && ((ty + r <=? py) && (py <? ty + 32))
                      then chunks4 tile !! N.to_nat (32 * (py - ty) + (px - tx)) else at_ fb px py.
Proof.
  intros Hfb Htx Hty. revert r fb Hfb. induction n as [|n IH] using N.peano_ind; intros r fb Hfb Hr.
  { exists fb. split; [done|]. split; [done|]. intros px py _ _.
    destruct (N.leb_spec (ty + r) py), (N.ltb_spec py (ty + 32)); try lia; by rewrite andb_false_r. }
  rewrite rangeN_cons by lia. cbn [blit_rows]. rewrite (wrap_small 32 (ty + r)) by lia.
  destruct (N.leb_spec height (ty + r)) as [Hout|Hin].
  { exists fb. split; [done|]. split; [done|]. intros px py _ Hpy.
    rewrite (proj2 (N.leb_gt (ty + r) py)) by lia. by rewrite andb_false_r. }
  destruct (blit_row_spec 32 fb tx (ty + r) r 0) as (fb1 & Hrow & Hfb1 & Hat); [done|lia|done|lia|done|].
  unfold TILE_SIZE_PX. rewrite Hrow. cbn [mbind option_bind]. replace (N.succ n - 1) with n by lia.
  destruct (IH (r + 1) fb1 Hfb1) as (fb2 & -> & Hfb2 & Hat2); [lia|].
  exists fb2. split; [done|]. split; [done|]. intros px py Hpx Hpy. rewrite Hat2, Hat by done.
  rewrite N.add_0_r. destruct ((tx <=? px) && (px <? tx + 32)) eqn:Hx;
    rewrite ?andb_true_r, ?andb_false_r; cbn [andb]; [|done].
  destruct (N.eqb_spec py (ty + r)) as [->|Hne].
  - rewrite (proj2 (N.leb_gt (ty + (r + 1)) _)), (proj2 (N.leb_le (ty + r) _)), (proj2 (N.ltb_lt _ _)) by lia.
    cbn [andb]. do 2 f_equal. lia.
  - destruct (N.leb_spec (ty + (r + 1)) py), (N.leb_spec (ty + r) py); try lia; done.
Qed.

(** A blit replaces the pixels of its tile. *)
Lemma blit_spec s col row :
  r_width s = width -> r_height s = height -> sized (fb s) -> col < 2 ^ 16 -> row < 2 ^ 16 ->
  exists fb', blit s col row tile = Some fb' /\ sized fb' /\
    forall px py, px < width -> py < height ->
      at_ fb' px py = if (px / 32 =? col) && (py / 32 =? row)
                      then chunks4 tile !! N.to_nat (32 * (py mod 32) + px mod 32)
                      else at_ (fb s) px py.
Proof.
  intros Ew Eh Hfb Hc Hr. unfold blit. rewrite Ew, Eh. unfold TILE_SIZE_PX.
  rewrite !wrap_small by lia.
  destruct (blit_rows_spec 32 (fb s) (col * 32) (row * 32) 0) as (fb' & Hb & Hfb' & Hat); [done|lia|lia|done|].
  exists fb'. split; [done|]. split; [done|]. intros px py Hpx Hpy. rewrite Hat by done. clear Hat.
  rewrite N.add_0_r.
  assert (forall p t, (t * 32 <=? p) && (p <? t * 32 + 32) = (p / 32 =? t)) as Hd.
  { intros p t. apply eq_iff_eq_true. rewrite andb_true_iff, N.leb_le, N.ltb_lt, N.eqb_eq.
    split.
    - intros [? ?]. symmetry. apply (N.div_unique p 32 t (p - t * 32)); lia.
    - intros <-. pose proof (N.Div0.mul_div_le p 32). pose proof (N.mul_succ_div_gt p 32 ltac:(done)).
      lia. }
  rewrite !Hd. destruct (N.eqb_spec (px / 32) col) as [<-|], (N.eqb_spec (py / 32) row) as [<-|]; try done.
  cbn [andb].
  assert (forall p, p - p / 32 * 32 = p mod 32) as Hm
    by (intros p; by rewrite N.Div0.mod_eq, (N.mul_comm 32)).
  by rewrite !Hm.
Qed.
End blit.

(** ** Lemmas: frames *)
Section frames.
Context (fdct : list byte -> list Z) (idct : list Z -> list byte).

Definition frame_ok (f : ScreenFrame) : Prop :=
  match f with
  | Begin width height => width < 2 ^ 16 /\ height < 2 ^ 16
  | Tile col row encoding data =>
      col < 2 ^ 16 /\ row < 2 ^ 16 /\ encoding < 256 /\ lenN data <= TILE_BYTES
  | End_ => True
  end.

Lemma take_u16_spec v rest : v < 2 ^ 16 -> take_u16 (le_bytes 2 v ++ rest) = Ok (v, rest).
Proof.
  intros Hv. unfold take_u16. rewrite split_at_checked_app by (by rewrite lenN_le_bytes).
  cbn [ok_or mbind result_bind]. by rewrite le_value_bytes_small.
Qed.

Lemma decode_frame f : frame_ok f -> decode (encode f) = Ok f.
Proof.
  destruct f as [w h|c r e d|]; cbn [frame_ok encode decode]; [| |done].
  - intros [Hw Hh]. rewrite bool_decide_eq_true_2 by done. rewrite take_u16_spec by done.
    cbn [mbind result_bind]. rewrite <- (app_nil_r (le_bytes 2 h)), take_u16_spec by done. done.
  - intros (Hc & Hr & He & Hd). rewrite bool_decide_eq_false_2, bool_decide_eq_true_2 by done.
    rewrite take_u16_spec by done. cbn [mbind result_bind]. rewrite take_u16_spec by done.
    cbn [mbind result_bind]. unfold TILE_BYTES, TILE_SIZE_PX in *.
    rewrite take_u16_spec by lia. cbn [mbind result_bind].
    rewrite (proj2 (N.ltb_ge _ _)) by lia. rewrite <- (app_nil_r d) at 2.
    rewrite split_at_checked_app by done. cbn [mbind result_bind ok_or].
    by rewrite to_N_byte_of, N.mod_small.
Qed.

Lemma decode_pixels_total encoding data :
  exists res, decode_pixels idct encoding data = Some res /\
    match res with Ok tile => length tile = 4096%nat | Err _ => True end.
Proof.
  unfold decode_pixels. case_ifs; try (by eexists).
  - destruct (fits_tile_palette data) as (res & -> & Hr). cbn [mbind option_bind].
    destruct res as [out|]; eexists; (split; [done|]); [|done].
    cbn beta iota. unfold lenN, TILE_BYTES, TILE_SIZE_PX in Hr. lia.
  - eexists. split; [done|]. cbn beta iota. unfold lenN, TILE_BYTES, TILE_SIZE_PX in *. lia.
  - destruct (decode_tile idct data) as [tile|] eqn:Ht; eexists; (split; [done|]); [|done].
    by eapply decode_tile_length.
Qed.

(** A receiver whose buffer has the size its dimensions say, or is empty. *)
Definition receiver_ok (s : ScreenReceiver) : Prop :=
  fb s = [] \/
  (r_width s < 2 ^ 16 /\ r_height s < 2 ^ 16 /\ r_width s * r_height s * 4 < 2 ^ 32 /\
   sized (r_width s) (r_height s) (fb s)).

(** A frame that announces fewer than 2^30 pixels. *)
Definition bounded (f : ScreenFrame) : Prop :=
  match f with Begin width height => width * height * 4 < 2 ^ 32 | _ => True end.

Lemma apply_ok s f :
  receiver_ok s -> frame_ok f -> bounded f ->
  exists s' res, apply idct s f = Some (s', res) /\ receiver_ok s'.
Proof.
  intros Hs Hf Hb. destruct f as [w h|c r e d|]; cbn [apply frame_ok bounded] in *.
  - eexists _, _. split; [done|]. right. cbn [r_width r_height fb].
    split; [apply Hf|]. split; [apply Hf|]. split; [done|]. unfold sized.
    rewrite length_replicate, (wrap_small 32 (w * h)), wrap_small by lia. lia.
  - destruct (N.eqb_spec (lenN (fb s)) 0); [by eexists _, _|].
    destruct Hs as [Hn|(Hw & Hh & Hwh & Hsz)]; [by rewrite Hn in *|].
    destruct (decode_pixels_total e d) as (res & -> & Hres). cbn [mbind option_bind].
    destruct res as [tile|er].
    + destruct Hf as (Hc & Hr & _).
      destruct (blit_spec _ _ tile Hw Hh Hwh Hres s c r eq_refl eq_refl Hsz Hc Hr) as (fb' & -> & Hsz' & _).
      cbn [mbind option_bind]. eexists _, _. split; [done|]. right. done.
    + eexists _, _. split; [done|]. by right.
  - eexists _, _. split; [done|]. by left.
Qed.

Lemma decode_ok buf f : decode buf = Ok f -> frame_ok f.
Proof.
  assert (forall rest v t, take_u16 rest = Ok (v, t) -> v < 2 ^ 16) as Hu.
  { intros rest v t. unfold take_u16. destruct (split_at_checked 2 rest) as [[h t']|] eqn:E; [|done].
    cbn. intros [= <- <-]. apply split_at_checked_Some in E as [_ Hl].
    eapply N.lt_le_trans; [apply le_value_lt|]. unfold lenN in Hl.
    assert (length h = 2%nat) as -> by lia. done. }
  unfold decode. destruct buf as [|k rest]; [done|]. repeat case_bool_decide.
  - destruct (take_u16 rest) as [[w r1]|] eqn:E1; [|done]. cbn [mbind result_bind].
    destruct (take_u16 r1) as [[h r2]|] eqn:E2; [|done]. cbn [mbind result_bind].
    intros [= <-]. split; by eapply Hu.
  - destruct (take_u16 rest) as [[c r1]|] eqn:E1; [|done]. cbn [mbind result_bind].
    destruct (take_u16 r1) as [[r r2]|] eqn:E2; [|done]. cbn [mbind result_bind].
    destruct r2 as [|e r3]; [done|]. destruct (take_u16 r3) as [[len r4]|] eqn:E3; [|done].
    cbn [mbind result_bind]. destruct (N.ltb_spec TILE_BYTES len); [done|].
    destruct (split_at_checked len r4) as [[d t]|] eqn:E4; [|done]. cbn [ok_or mbind result_bind].
    intros [= <-]. apply split_at_checked_Some in E4 as [_ Hl].
    split; [by eapply Hu|]. split; [by eapply Hu|]. split; [apply byte_to_N_lt|].
    cbn. lia.
  - by intros [= <-].
  - done.
Qed.
End frames.

(** ** Lemmas: a whole screen *)
Section screen.
Context (fdct : list byte -> list Z) (idct : list Z -> list byte).
Context (width height : N) (pixels : list byte).
Context (Hw : width < 2 ^ 16) (Hh : height < 2 ^ 16) (Hwh : width * height * 4 < 2 ^ 32).
Context (Hlen : width * height * 4 <= lenN pixels).

Let grid : TileGrid := grid_new width height.
Let stride : N := wrap 32 (width * 4).

Context (Hcolors : forall c tile, c ∈ grid_coords grid -> extract_tile grid pixels stride c = Some tile ->
  lenN (colors tile) <= PALETTE_COLOR_LIMIT).

Definition opaque_px (p : pixel) : pixel := (fst p, Byte.xff).

Lemma opaque_tile_pixels l : opaque_tile l = concat (map px_bytes (map opaque_px (chunks4 l))).
Proof. unfold opaque_tile. by rewrite map_map. Qed.

Lemma chunks4_opaque_tile l : chunks4 (opaque_tile l) = map opaque_px (chunks4 l).
Proof. rewrite opaque_tile_pixels, <- (app_nil_r (concat _)), chunks4_concat. apply app_nil_r. Qed.

Lemma div_ceil_spec n p : p < n -> p / 32 < div_ceil n 32.
Proof.
  intros Hp. unfold div_ceil. apply N.lt_le_trans with (p / 32 + 1); [lia|].
  replace (n + 32 - 1) with ((n - 1) + 1 * 32) by lia. rewrite N.div_add by done.
  apply N.add_le_mono_r, N.Div0.div_le_mono. lia.
Qed.

Lemma div_ceil_lt n : n < 2 ^ 16 -> div_ceil n 32 < 2 ^ 16.
Proof. intros Hn. unfold div_ceil. apply N.Div0.div_lt_upper_bound. lia. Qed.

Lemma elem_of_grid c :
  c ∈ grid_coords grid <-> Tiles.col c < cols grid /\ Tiles.row c < rows grid.
Proof.
  unfold grid_coords. rewrite list_elem_of_bind. split.
  - intros (r & Hc & Hr). apply list_elem_of_bind in Hc as (k & Hc & Hk).
    apply list_elem_of_singleton in Hc as ->. apply elem_of_rangeN in Hr, Hk. cbn [Tiles.col Tiles.row]. lia.
  - intros [Hc Hr]. exists (Tiles.row c). split; [|apply elem_of_rangeN; lia].
    apply list_elem_of_bind. exists (Tiles.col c). split; [|apply elem_of_rangeN; lia].
    apply list_elem_of_singleton. by destruct c.
Qed.

Lemma grid_in_grid c : c ∈ grid_coords grid -> in_grid c.
Proof.
  intros Hc. apply elem_of_grid in Hc as [Hc Hr].
  pose proof (div_ceil_lt width Hw). pose proof (div_ceil_lt height Hh).
  unfold grid, grid_new, TILE_SIZE_PX in Hc, Hr. cbn [cols rows] in Hc, Hr. split; lia.
Qed.

Lemma tile_frame_spec c :
  c ∈ grid_coords grid ->
  exists raw, tile_frame fdct grid pixels stride c = Some (Tile (Tiles.col c) (Tiles.row c) ENC_PALETTE raw) /\
    lenN raw <= TILE_BYTES /\
    decode_pixels idct ENC_PALETTE raw =
      Some (Ok (opaque_tile (concat (map px_bytes (tile_pixels width height pixels c))))).
Proof.
  intros Hc. pose proof (grid_in_grid c Hc) as Hg.
  pose proof (extract_tile_spec width height pixels Hw Hh Hwh Hlen c Hg) as He.
  pose proof (Hcolors c _ Hc He) as Hcol. unfold tile_frame, grid, stride. rewrite He.
  cbn [mbind option_bind].
  destruct (palette_roundtrip _ (tile_bytes_length width height pixels Hw Hh Hwh Hlen c) Hcol) as (raw & -> & Hd & Hl).
  cbn [mbind option_bind]. exists raw. split; [done|]. split.
  - rewrite Hl. set (n := lenN (colors _)) in *. unfold PALETTE_COLOR_LIMIT in Hcol.
    unfold TILE_BYTES, TILE_SIZE_PX, bits_per_index. case_ifs; lia.
  - unfold decode_pixels. cbn [N.eqb ENC_PALETTE]. rewrite Hd. done.
Qed.

Lemma apply_tile s c raw tile :
  r_width s = width -> r_height s = height -> sized width height (fb s) -> fb s <> [] ->
  in_grid c -> length tile = 4096%nat -> decode_pixels idct ENC_PALETTE raw = Some (Ok tile) ->
  exists s', apply idct s (Tile (Tiles.col c) (Tiles.row c) ENC_PALETTE raw) = Some (s', Ok None) /\
    r_width s' = width /\ r_height s' = height /\ sized width height (fb s') /\ fb s' <> [] /\
    forall px py, px < width -> py < height ->
      at_ width (fb s') px py = if (px / 32 =? Tiles.col c) && (py / 32 =? Tiles.row c)
                                then chunks4 tile !! N.to_nat (32 * (py mod 32) + px mod 32)
                                else at_ width (fb s) px py.
Proof.
  intros Ew Eh Hsz Hne [Hc Hr] Htile Hd. cbn [apply].
  destruct (N.eqb_spec (lenN (fb s)) 0) as [Hz|_]; [by apply lenN_0 in Hz|].
  rewrite Hd. cbn [mbind option_bind].
  destruct (blit_spec width height tile Hw Hh Hwh Htile s _ _ Ew Eh Hsz Hc Hr) as (fb' & -> & Hsz' & Hat).
  cbn [mbind option_bind]. eexists. split; [done|]. cbn [r_width r_height fb].
  split_and!; try done. intros ->. unfold sized in *. cbn [length] in Hsz'.
  destruct (fb s); [done|]. cbn [length] in Hsz. lia.
Qed.

(** The tiles of a list, sent and received: the pixels of their tiles are the
    source's. *)
Lemma tiles_run cs s :
  (forall c, c ∈ cs -> c ∈ grid_coords grid) ->
  r_width s = width -> r_height s = height -> sized width height (fb s) -> fb s <> [] ->
  exists frames s', mapM (tile_frame fdct grid pixels stride) cs = Some frames /\
    sized width height (fb s') /\
    (forall px py, px < width -> py < height ->
      at_ width (fb s') px py =
        if bool_decide (mkCoord (px / 32) (py / 32) ∈ cs)
        then Some (opaque_px (source width pixels px py)) else at_ width (fb s) px py) /\
    forall rest s2 res, receive idct s' rest = Some (s2, res) ->
      receive idct s (map encode frames ++ rest) = Some (s2, replicate (length cs) (Ok None) ++ res).
Proof.
  revert s. induction cs as [|c cs IH]; intros s Hcs Ew Eh Hsz Hne.
  { exists [], s. split; [done|]. split; [done|]. split; [|done]. intros px py _ _.
    by rewrite bool_decide_eq_false_2 by apply not_elem_of_nil. }
  assert (c ∈ grid_coords grid) as Hc by (apply Hcs; by left).
  destruct (tile_frame_spec c Hc) as (raw & Hf & Hl & Hd). pose proof (grid_in_grid c Hc) as Hg.
  set (tp := tile_pixels width height pixels c) in *.
  assert (length (opaque_tile (concat (map px_bytes tp))) = 4096%nat) as Htl.
  { destruct (decode_pixels_total idct ENC_PALETTE raw) as (res & Hr & Ht). rewrite Hd in Hr.
    by injection Hr as <-. }
  destruct (apply_tile s c raw _ Ew Eh Hsz Hne Hg Htl Hd) as (s1 & Ha & Ew1 & Eh1 & Hsz1 & Hne1 & Hat1).
  destruct (IH s1) as (frames & s' & Hm & Hsz' & Hat & Hrec); [by intros; apply Hcs; right|done..|].
  eexists _, s'. split.
  { cbn [mapM]. rewrite Hf. cbn [mbind option_bind]. rewrite Hm. done. }
  split; [done|]. split.
  - intros px py Hpx Hpy. rewrite Hat, Hat1 by done.
    destruct (decide (mkCoord (px / 32) (py / 32) ∈ cs)) as [Hin|Hin].
    { rewrite !bool_decide_eq_true_2; [done|by right|done]. }
    rewrite bool_decide_eq_false_2 by done.
    destruct (N.eqb_spec (px / 32) (Tiles.col c)) as [Hx|Hx], (N.eqb_spec (py / 32) (Tiles.row c)) as [Hy|Hy];
      cbn [andb].
    + rewrite bool_decide_eq_true_2 by (rewrite Hx, Hy; apply elem_of_cons; left; by destruct c).
      rewrite chunks4_opaque_tile, <- (app_nil_r (concat _)), chunks4_concat, app_nil_r.
      rewrite list_lookup_fmap. unfold tp.
      rewrite (tile_pixels_lookup width height pixels Hw Hh Hwh Hlen) by (by apply N.mod_lt).
      cbn [fmap option_fmap option_map]. do 2 f_equal. unfold tile_cell. rewrite <- Hx, <- Hy.
      assert (forall p, p / 32 * 32 + p mod 32 = p) as Hdm
        by (intros p; rewrite N.mul_comm; symmetry; apply N.div_mod').
      by rewrite !Hdm, !(proj2 (N.ltb_lt _ _)) by done.
    + rewrite bool_decide_eq_false_2; [done|]. intros Hin'.
      apply elem_of_cons in Hin' as [E|]; [|done]. apply Hy. by rewrite <- E.
    + rewrite bool_decide_eq_false_2; [done|]. intros Hin'.
      apply elem_of_cons in Hin' as [E|]; [|done]. apply Hx. by rewrite <- E.
    + rewrite bool_decide_eq_false_2; [done|]. intros Hin'.
      apply elem_of_cons in Hin' as [E|]; [|done]. apply Hx. by rewrite <- E.
  - intros rest s2 res Hr. cbn [map app receive]. rewrite decode_frame.
    2: { cbn. destruct Hg. unfold ENC_PALETTE. split_and!; try done. }
    rewrite Ha. cbn [mbind option_bind]. by rewrite (Hrec _ _ _ Hr).
Qed.

(** A buffer whose every pixel is the opaque source. *)
Lemma screen_bytes l :
  sized width height l ->
  (forall px py, px < width -> py < height ->
     at_ width l px py = Some (opaque_px (source width pixels px py))) ->
  l = opaque_tile (take (N.to_nat (width * height * 4)) pixels).
Proof.
  intros Hsz Hat. rewrite opaque_tile_pixels.
  rewrite <- (concat_chunks4 (N.to_nat (width * height)) l) by exact Hsz. do 2 f_equal.
  replace (N.to_nat (width * height * 4)) with (4 * N.to_nat (width * height))%nat by lia.
  rewrite chunks4_take. apply list_eq. intros i.
  destruct (Nat.lt_ge_cases i (N.to_nat (width * height))) as [Hi|Hi].
  - assert (0 < width) by nia. pose proof (N.div_mod' (N.of_nat i) width) as Hdm.
    pose proof (N.mod_lt (N.of_nat i) width ltac:(lia)) as Hm.
    assert (N.of_nat i / width < height) as Hd by (apply N.Div0.div_lt_upper_bound; lia).
    specialize (Hat _ _ Hm Hd). unfold at_ in Hat.
    replace (N.to_nat (N.of_nat i / width * width + N.of_nat i mod width)) with i in Hat by lia.
    rewrite Hat, list_lookup_fmap, lookup_take_lt by done.
    destruct (slice4_lookup pixels i) as (p & Hp & _); [unfold lenN in Hlen; lia|].
    rewrite Hp. cbn [fmap option_fmap option_map]. do 2 f_equal. unfold source.
    replace (N.to_nat (N.of_nat i / width * width + N.of_nat i mod width)) with i by lia.
    by rewrite Hp.
  - rewrite lookup_ge_None_2 by (rewrite (chunks4_length (N.to_nat (width * height))) by exact Hsz; lia).
    symmetry. apply lookup_ge_None_2. rewrite length_map, length_take. lia.
Qed.

Lemma screen_roundtrip s :
  exists frames, send_frame fdct width height pixels = Some (Ok frames) /\
    exists s', receive idct s (map encode frames) =
      Some (s', Ok None :: replicate (length (grid_coords grid)) (Ok None) ++
                [Ok (Some (opaque_tile (take (N.to_nat (width * height * 4)) pixels)))]).
Proof.
  unfold send_frame. fold stride. fold grid.
  assert (wrap 32 (stride * height) = width * height * 4) as Hst.
  { unfold stride. destruct (N.eq_dec height 0) as [->|]; [by rewrite !N.mul_0_r|].
    rewrite (wrap_small 32 (width * 4)) by nia. rewrite wrap_small; lia. }
  rewrite Hst, (proj2 (N.ltb_ge _ _)) by done.
  set (s0 := {| r_width := width; r_height := height;
    fb := replicate (N.to_nat (width * height * 4)) Byte.x00; tiles_applied := 0 |}).
  assert (sized width height (fb s0)) as Hsz0 by (unfold sized; cbn; rewrite length_replicate; lia).
  assert (apply idct s (Begin width height) = Some (s0, Ok None)) as Hbegin.
  { cbn [apply]. by rewrite (wrap_small 32 (width * height)), wrap_small by lia. }
  assert (exists frames s', mapM (tile_frame fdct grid pixels stride) (grid_coords grid) = Some frames /\
    fb s' = opaque_tile (take (N.to_nat (width * height * 4)) pixels) /\
    forall rest s2 res, receive idct s' rest = Some (s2, res) ->
      receive idct s0 (map encode frames ++ rest) =
        Some (s2, replicate (length (grid_coords grid)) (Ok None) ++ res))
    as (frames & s' & -> & Hfb & Hrec).
  { destruct (decide (width * height = 0)) as [Hz|Hnz].
    - assert (grid_coords grid = []) as ->.
      { destruct (grid_coords grid) as [|c cs] eqn:E; [done|].
        assert (c ∈ grid_coords grid) as Hc by (rewrite E; by left).
        apply elem_of_grid in Hc as [Hc Hr]. unfold grid, grid_new, div_ceil, TILE_SIZE_PX in Hc, Hr.
        cbn [cols rows] in Hc, Hr. apply N.mul_eq_0 in Hz as [Hz|Hz]; rewrite Hz in *;
          rewrite (N.div_small (0 + 32 - 1)) in * by lia; lia. }
      exists [], s0. split; [done|]. split; [|done]. unfold s0. cbn [fb]. by rewrite Hz.
    - destruct (tiles_run (grid_coords grid) s0) as (frames & s' & Hm & Hsz & Hat & Hrec); try done.
      { unfold s0. cbn [fb]. intros Hn. apply (f_equal length) in Hn.
        rewrite length_replicate in Hn. cbn in Hn. lia. }
      exists frames, s'. split; [done|]. split; [|done]. apply screen_bytes; [done|].
      intros px py Hpx Hpy. rewrite Hat by done. rewrite bool_decide_eq_true_2; [done|].
      apply elem_of_grid. cbn. split; by apply div_ceil_spec. }
  cbn [mbind option_bind]. eexists. split; [done|].
  eexists. cbn [map receive]. rewrite decode_frame by done. rewrite Hbegin. cbn [mbind option_bind].
  rewrite map_app. erewrite Hrec; [done|]. cbn [map receive]. rewrite decode_frame by done.
  cbn [apply mbind option_bind]. by rewrite Hfb.
Qed.
End screen.

(** * Properties *)

(** C6: Screens of text arrive pixel-perfect: for a frame of fewer than 2^30 pixels, less
    than 2^16 a side, each of whose tiles has at most 16 colours, what the sender puts on the session,
    encoded and decoded datagram by datagram, is accepted throughout, and the
    receiver, whatever it held before, ends with exactly the frame's pixels, made
    opaque. *)
Theorem screen_lossless (fdct : list byte -> list Z) (idct : list Z -> list byte)
    (width height : N) (pixels : list byte) (s : ScreenReceiver)
    (Hdim : width < 2 ^ 16 /\ height < 2 ^ 16 /\ width * height * 4 < 2 ^ 32)
    (Hlen : width * height * 4 <= lenN pixels)
    (Hcolors : forall c tile, c ∈ grid_coords (grid_new width height) ->
       extract_tile (grid_new width height) pixels (wrap 32 (width * 4)) c = Some tile ->
       lenN (colors tile) <= PALETTE_COLOR_LIMIT) :
  exists frames, send_frame fdct width height pixels = Some (Ok frames) /\
    exists s' res, receive idct s (map encode frames) = Some (s', res) /\
      Forall (fun r => is_ok r = true) res /\
      last res = Some (Ok (Some (opaque_tile (take (N.to_nat (width * height * 4)) pixels)))).
Proof.
  destruct Hdim as (Hw & Hh & Hwh).
  destruct (screen_roundtrip fdct idct width height pixels Hw Hh Hwh Hlen Hcolors s)
    as (frames & Hs & s' & Hr).
  exists frames. split; [done|]. eexists _, _. split; [exact Hr|]. split.
  - constructor; [done|]. apply Forall_app. split; [by apply Forall_replicate|].
    constructor; [done|constructor].
  - by rewrite app_comm_cons, last_snoc.
Qed.

(** Two rows of 40 pixels in three colours. *)
Definition text_line : list byte :=
  concat (map (fun i => if i mod 7 =? 0 then [Byte.x00; Byte.x00; Byte.xff; Byte.xff]
                        else if i mod 2 =? 0 then [Byte.xff; Byte.xff; Byte.xff; Byte.x00]
                        else [Byte.x00; Byte.x00; Byte.x00; Byte.x01]) (rangeN 0 80)).

Lemma screen_lossless_witness :
  exists frames, send_frame (fun _ => []) 40 2 text_line = Some (Ok frames) /\
    exists s' res, receive (fun _ => []) receiver_new (map encode frames) = Some (s', res) /\
      Forall (fun r => is_ok r = true) res /\ last res = Some (Ok (Some (opaque_tile text_line))).
Proof.
  apply (screen_lossless (fun _ => []) (fun _ => []) 40 2 text_line receiver_new).
  - vm_compute. split_and!; reflexivity.
  - vm_compute. discriminate.
  - intros c tile Hc He.
    assert (forallb (fun c =>
      match extract_tile (grid_new 40 2) text_line (wrap 32 (40 * 4)) c with
      | Some t => lenN (colors t) <=? PALETTE_COLOR_LIMIT | None => true end)
      (grid_coords (grid_new 40 2)) = true) as Hall by (vm_compute; reflexivity).
    rewrite forallb_forall in Hall. apply list_elem_of_In in Hc. specialize (Hall c Hc).
    cbv beta in Hall. rewrite He in Hall. apply N.leb_le in Hall. exact Hall.
Defined.

(** The receiver survives anything on the wire but an oversized announcement:
    whatever datagrams arrive in whatever order, as long as no [Begin] announces
    2^30 pixels or more, no index is out of range, and the frame buffer keeps the
    size of its dimensions. *)
Theorem receiver_survives (idct : list Z -> list byte) (datagrams : list (list byte))
    (Hbounded : Forall (fun d => forall f, decode d = Ok f -> bounded f) datagrams) :
  exists s res, receive idct receiver_new datagrams = Some (s, res) /\ receiver_ok s /\
    length res = length datagrams.
Proof.
  assert (receiver_ok receiver_new) as Hs by (by left). revert Hs.
  generalize receiver_new as s. induction Hbounded as [|d ds Hd _ IH]; intros s Hs.
  { by exists s, []. }
  cbn [receive]. destruct (decode d) as [f|e] eqn:Hf.
  - destruct (apply_ok idct s f Hs (decode_ok _ _ Hf) (Hd f eq_refl)) as (s1 & r & -> & Hs1).
    destruct (IH s1 Hs1) as (s2 & res & Hr & Hs2 & Hl). cbn [mbind option_bind]. rewrite Hr.
    exists s2, (r :: res). cbn [mbind option_bind length]. by rewrite Hl.
  - destruct (IH s Hs) as (s2 & res & Hr & Hs2 & Hl). rewrite Hr.
    exists s2, (Err e :: res). cbn [mbind option_bind length]. by rewrite Hl.
Qed.

Lemma receiver_survives_witness :
  exists s res, receive (fun _ => []) receiver_new
    [[]; [KIND_TILE; Byte.x01]; encode (Begin 33 1); encode (Tile 9 9 ENC_RAW (replicate 4096 Byte.x07));
     encode (Tile 1 0 ENC_DCT []); [Byte.xff]; encode End_] = Some (s, res) /\ receiver_ok s /\
    length res = 7%nat.
Proof.
  apply receiver_survives.
  repeat constructor; intros f Hf; vm_compute in Hf; try discriminate Hf;
    injection Hf as <-; vm_compute; trivial.
Defined.

(** A [Begin] of 32769 by 32768 pixels wraps the size of the frame buffer to
    131072 bytes, and a tile of its second row then indexes out of range: two
    datagrams stop the receiver. *)
Theorem oversized_begin_crashes (idct : list Z -> list byte) :
  receive idct receiver_new
    [encode (Begin 32769 32768); encode (Tile 0 1 ENC_RAW (replicate 4096 Byte.x00))] = None.
Proof. vm_compute. reflexivity. Qed.
