(* ===== verification/Adpcm.v ===== *)
(** The IMA ADPCM voice codec: [core/lowbandd/src/adpcm.rs].

    An [i32] and an [i16] are [Z]; an index out of a table panics: [None]. *)
From S2P Require Import Prelude.
#[local] Open Scope Z_scope.

Definition STEP_TABLE : list Z :=
  [7; 8; 9; 10; 11; 12; 13; 14; 16; 17; 19; 21; 23; 25; 28; 31; 34; 37; 41; 45;
   50; 55; 60; 66; 73; 80; 88; 97; 107; 118; 130; 143; 157; 173; 190; 209; 230;
   253; 279; 307; 337; 371; 408; 449; 494; 544; 598; 658; 724; 796; 876; 963;
   1060; 1166; 1282; 1411; 1552; 1707; 1878; 2066; 2272; 2499; 2749; 3024; 3327;
   3660; 4026; 4428; 4871; 5358; 5894; 6484; 7132; 7845; 8630; 9493; 10442;
   11487; 12635; 13899; 15289; 16818; 18500; 20350; 22385; 24623; 27086; 29794;
   32767].

Definition INDEX_TABLE : list Z := [-1; -1; -1; -1; 2; 4; 6; 8; -1; -1; -1; -1; 2; 4; 6; 8].

Definition clamp_index (i : Z) : Z := clampZ i 0 88.
Definition clamp_sample (s : Z) : Z := clampZ s (- 32768) 32767.

(** [as i16]. *)
Definition to_i16 (z : Z) : Z := (z + 2 ^ 15) mod 2 ^ 16 - 2 ^ 15.

(** The fields of [AdpcmEncoder] and of [AdpcmDecoder]. *)
Record Adpcm := mkAdpcm { predictor : Z; index : Z }.

Definition adpcm_new : Adpcm := {| predictor := 0; index := 0 |}.

(** [TABLE[i as usize]]. *)
Definition table (t : list Z) (i : Z) : option Z := if i <? 0 then None else t !! Z.to_nat i.

(** One comparison of [encode_sample]: the bit, what is left of the difference,
    and what the bit adds. *)
Definition compare_step (diff s : Z) : bool := s <=? diff.

Definition encode_sample (e : Adpcm) (sample : Z) : option (Adpcm * N) :=
  step ← table STEP_TABLE (index e);
  let diff := sample - predictor e in
  let sign : N := if diff <? 0 then 8%N else 0%N in
  let diff := if diff <? 0 then - diff else diff in
  let vpdiff := Z.shiftr step 3 in
  let s := step in
  let '(delta, diff, vpdiff) :=
    if compare_step diff s then (4%N, diff - s, vpdiff + s) else (0%N, diff, vpdiff) in
  let s := Z.shiftr s 1 in
  let '(delta, diff, vpdiff) :=
    if compare_step diff s then (N.lor delta 2, diff - s, vpdiff + s) else (delta, diff, vpdiff) in
  let s := Z.shiftr s 1 in
  let '(delta, vpdiff) :=
    if compare_step diff s then (N.lor delta 1, vpdiff + s) else (delta, vpdiff) in
  let predictor' :=
    if negb (sign =? 0)%N then clamp_sample (predictor e - vpdiff)
    else clamp_sample (predictor e + vpdiff) in
  let code := N.lor delta sign in
  adj ← table INDEX_TABLE (Z.of_N code);
  Some ({| predictor := predictor'; index := clamp_index (index e + adj) |}, code).

(** The loop of [encode], with the pending low nibble. *)
Fixpoint encode_loop (e : Adpcm) (pending : option N) (out : list byte) (pcm : list Z) :
    option (Adpcm * list byte) :=
  match pcm with
  | [] => Some (e, match pending with Some low => out ++ [byte_of low] | None => out end)
  | sample :: pcm =>
      '(e, code) ← encode_sample e sample;
      match pending with
      | None => encode_loop e (Some code) out pcm
      | Some low => encode_loop e None (out ++ [byte_of (N.lor low (N.shiftl code 4))]) pcm
      end
  end.

Definition encode (e : Adpcm) (pcm : list Z) : option (Adpcm * list byte) :=
  encode_loop e None [] pcm.

Definition decode_code (d : Adpcm) (code : N) : option (Adpcm * Z) :=
  step ← table STEP_TABLE (index d);
  let vpdiff := Z.shiftr step 3 in
  let vpdiff := if negb (N.land code 4 =? 0)%N then vpdiff + step else vpdiff in
  let vpdiff := if negb (N.land code 2 =? 0)%N then vpdiff + Z.shiftr step 1 else vpdiff in
  let vpdiff := if negb (N.land code 1 =? 0)%N then vpdiff + Z.shiftr step 2 else vpdiff in
  let predictor' :=
    if negb (N.land code 8 =? 0)%N then clamp_sample (predictor d - vpdiff)
    else clamp_sample (predictor d + vpdiff) in
  adj ← table INDEX_TABLE (Z.of_N code);
  Some ({| predictor := predictor'; index := clamp_index (index d + adj) |}, to_i16 predictor').

Definition push_code (count : nat) (code : N) (st : Adpcm * list Z) : option (Adpcm * list Z) :=
  let '(d, out) := st in
  if (length out <? count)%nat
  then '(d, s) ← decode_code d code; Some (d, out ++ [s])
  else Some (d, out).

Fixpoint decode_loop (data : list byte) (count : nat) (st : Adpcm * list Z) :
    option (Adpcm * list Z) :=
  match data with
  | [] => Some st
  | b :: data =>
      st ← push_code count (N.land (Byte.to_N b) 15) st;
      st ← push_code count (N.shiftr (Byte.to_N b) 4) st;
      decode_loop data count st
  end.

Definition decode (d : Adpcm) (data : list byte) (sample_count : nat) : option (Adpcm * list Z) :=
  decode_loop data sample_count (d, []).

(** ** Specification *)
Definition sample_ok (s : Z) : Prop := - 32768 <= s <= 32767.
Definition state_ok (a : Adpcm) : Prop := sample_ok (predictor a) /\ 0 <= index a <= 88.

(** The step in force. *)
Definition step_of (a : Adpcm) : Z := nth (Z.to_nat (index a)) STEP_TABLE 0.

(** The encoder's own reconstruction of what it codes. *)
Fixpoint reconstruction (e : Adpcm) (pcm : list Z) : option (Adpcm * list Z) :=
  match pcm with
  | [] => Some (e, [])
  | sample :: pcm =>
      '(e, _) ← encode_sample e sample;
      '(e', out) ← reconstruction e pcm;
      Some (e', predictor e :: out)
  end.

(** ** Lemmas *)
Section adpcm.
Implicit Types (e d : Adpcm) (pcm : list Z).

Lemma clampZ_bounds s lo hi : lo <= hi -> lo <= clampZ s lo hi <= hi.
Proof. unfold clampZ. intros. destruct (Z.ltb_spec s lo), (Z.ltb_spec hi s); lia. Qed.

Lemma to_i16_ok s : sample_ok s -> to_i16 s = s.
Proof. unfold sample_ok, to_i16. intros. rewrite Z.mod_small; lia. Qed.

Lemma step_lookup e :
  0 <= index e <= 88 -> table STEP_TABLE (index e) = Some (step_of e) /\ 7 <= step_of e <= 32767.
Proof.
  intros Hi. unfold table, step_of. destruct (Z.ltb_spec (index e) 0); [lia|].
  assert (Z.to_nat (index e) < length STEP_TABLE)%nat as Hl by (cbn [length STEP_TABLE]; lia).
  destruct (lookup_lt_is_Some_2 _ _ Hl) as [s Hs].
  assert (nth (Z.to_nat (index e)) STEP_TABLE 0 = s) as -> by (by apply nth_lookup_Some).
  split; [done|]. assert (Forall (fun s => 7 <= s <= 32767) STEP_TABLE) as Hf.
  { unfold STEP_TABLE. repeat (constructor; [lia|]). constructor. }
  exact (Forall_lookup_1 _ _ _ _ Hf Hs).
Qed.

Lemma index_lookup (c : N) : (c < 16)%N -> exists adj, table INDEX_TABLE (Z.of_N c) = Some adj.
Proof.
  intros Hc. unfold table. destruct (Z.ltb_spec (Z.of_N c) 0); [lia|].
  destruct (lookup_lt_is_Some_2 INDEX_TABLE (Z.to_nat (Z.of_N c))) as [adj Ha];
    [cbn [length INDEX_TABLE]; lia|]. by exists adj.
Qed.

(** The code of three comparisons and a sign, and what it adds. *)
Definition code_of (b4 b2 b1 sign : bool) : N :=
  ((if b4 then 4 else 0) + (if b2 then 2 else 0) + (if b1 then 1 else 0) + if sign then 8 else 0)%N.

Definition vpdiff_of (s : Z) (b4 b2 b1 : bool) : Z :=
  Z.shiftr s 3 + (if b4 then s else 0) + (if b2 then Z.shiftr s 1 else 0) +
  (if b1 then Z.shiftr s 2 else 0).

Definition next_of (e : Adpcm) (code : N) (v : Z) (sign : bool) : option Adpcm :=
  adj ← table INDEX_TABLE (Z.of_N code);
  Some {| predictor := clamp_sample (if sign then predictor e - v else predictor e + v);
          index := clamp_index (index e + adj) |}.

Lemma encode_sample_shape e sample :
  0 <= index e <= 88 ->
  let s := step_of e in
  let d := Z.abs (sample - predictor e) in
  let b4 := s <=? d in
  let d1 := if b4 then d - s else d in
  let b2 := Z.shiftr s 1 <=? d1 in
  let d2 := if b2 then d1 - Z.shiftr s 1 else d1 in
  let b1 := Z.shiftr s 2 <=? d2 in
  let sign := sample - predictor e <? 0 in
  encode_sample e sample =
    e' ← next_of e (code_of b4 b2 b1 sign) (vpdiff_of s b4 b2 b1) sign;
    Some (e', code_of b4 b2 b1 sign).
Proof.
  intros Hi s d b4 d1 b2 d2 b1 sign. destruct (step_lookup e Hi) as [Hs _].
  unfold encode_sample. rewrite Hs. cbn [mbind option_bind]. fold s.
  rewrite (Z.shiftr_shiftr s 1 1) by lia. change (1 + 1) with 2.
  assert ((if sample - predictor e <? 0 then - (sample - predictor e) else sample - predictor e) = d) as Hd.
  { unfold d. destruct (Z.ltb_spec (sample - predictor e) 0); lia. }
  rewrite Hd. unfold compare_step. fold sign. fold b4. unfold next_of, vpdiff_of.
  destruct b4 eqn:E4; fold d1; fold b2; destruct b2 eqn:E2; fold d2; fold b1; destruct b1 eqn:E1;
    destruct sign eqn:Es;
    change (Z.shiftr s 2 <=? d2) with b1; rewrite ?E1;
    cbn [negb N.eqb N.lor Pos.lor code_of]; rewrite ?Z.add_0_r; cbn; try done.
Qed.

Lemma decode_code_shape d b4 b2 b1 sign :
  0 <= index d <= 88 ->
  decode_code d (code_of b4 b2 b1 sign) =
    d' ← next_of d (code_of b4 b2 b1 sign) (vpdiff_of (step_of d) b4 b2 b1) sign;
    Some (d', to_i16 (predictor d')).
Proof.
  intros Hi. destruct (step_lookup d Hi) as [Hs _]. unfold decode_code. rewrite Hs.
  cbn [mbind option_bind]. unfold next_of, vpdiff_of.
  generalize (step_of d). clear Hs Hi. intros s.
  destruct b4, b2, b1, sign; cbn [code_of N.add Pos.add Pos.succ Pos.add_carry N.land Pos.land Pos.Nsucc_double
    Pos.Ndouble N.eqb Pos.eqb negb]; by rewrite ?Z.add_0_r.
Qed.

Lemma next_of_ok e b4 b2 b1 sign v :
  exists e', next_of e (code_of b4 b2 b1 sign) v sign = Some e' /\ state_ok e' /\
    predictor e' = clamp_sample (if sign then predictor e - v else predictor e + v).
Proof.
  destruct (index_lookup (code_of b4 b2 b1 sign)) as [adj Ha]; [by destruct b4, b2, b1, sign|].
  unfold next_of. rewrite Ha. cbn [mbind option_bind]. eexists. split; [done|].
  split; [|done]. split; cbn [predictor index]; apply clampZ_bounds; lia.
Qed.

(** The quantisation of a difference [d] at a step [s]. *)
Lemma quantised (s d : Z) :
  7 <= s -> 0 <= d ->
  let b4 := s <=? d in
  let d1 := if b4 then d - s else d in
  let b2 := Z.shiftr s 1 <=? d1 in
  let d2 := if b2 then d1 - Z.shiftr s 1 else d1 in
  let b1 := Z.shiftr s 2 <=? d2 in
  let v := vpdiff_of s b4 b2 b1 in
  if d <? 2 * s then Z.abs (d - v) <= s / 8 + 2 else s <= v <= d.
Proof.
  intros Hs Hd b4 d1 b2 d2 b1 v.
  assert (Z.shiftr s 1 = s / 2 /\ Z.shiftr s 2 = s / 4 /\ Z.shiftr s 3 = s / 8) as (E1 & E2 & E3)
    by (split_and!; by apply Z.shiftr_div_pow2).
  subst v b1 d2 b2 d1 b4. unfold vpdiff_of. rewrite !E1, !E2, !E3.
  pose proof (Z.div_mod s 2 ltac:(done)). pose proof (Z.mod_pos_bound s 2 ltac:(done)).
  pose proof (Z.div_mod s 4 ltac:(done)). pose proof (Z.mod_pos_bound s 4 ltac:(done)).
  pose proof (Z.div_mod s 8 ltac:(done)). pose proof (Z.mod_pos_bound s 8 ltac:(done)).
  destruct (Z.ltb_spec d (2 * s)), (Z.leb_spec s d); try lia.
  - destruct (Z.leb_spec (s / 2) (d - s)); [destruct (Z.leb_spec (s / 4) (d - s - s / 2))|
      destruct (Z.leb_spec (s / 4) (d - s))]; lia.
  - destruct (Z.leb_spec (s / 2) d); [destruct (Z.leb_spec (s / 4) (d - s / 2))|
      destruct (Z.leb_spec (s / 4) d)]; lia.
  - rewrite (proj2 (Z.leb_le (s / 2) (d - s))) by lia.
    rewrite (proj2 (Z.leb_le (s / 4) (d - s - s / 2))) by lia. lia.
Qed.

(** One sample: the decoder follows the encoder, and the error is bounded. *)
Lemma sample_spec e sample :
  state_ok e -> sample_ok sample ->
  exists e' code, encode_sample e sample = Some (e', code) /\ (code < 16)%N /\ state_ok e' /\
    decode_code e code = Some (e', predictor e') /\
    let d := Z.abs (sample - predictor e) in
    if d <? 2 * step_of e then Z.abs (sample - predictor e') <= step_of e / 8 + 2
    else Z.abs (sample - predictor e') <= d - step_of e.
Proof.
  intros [Hp Hi] Hsm. pose proof (encode_sample_shape e sample Hi) as He. cbv zeta in He.
  destruct (step_lookup e Hi) as [_ Hst].
  pose proof (quantised (step_of e) (Z.abs (sample - predictor e)) ltac:(lia) ltac:(lia)) as Hq.
  cbv zeta in Hq. set (d := Z.abs (sample - predictor e)) in *. set (s := step_of e) in *.
  set (b4 := s <=? d) in *. set (d1 := if b4 then d - s else d) in *.
  set (b2 := Z.shiftr s 1 <=? d1) in *. set (d2 := if b2 then d1 - Z.shiftr s 1 else d1) in *.
  set (b1 := Z.shiftr s 2 <=? d2) in *. set (sign := sample - predictor e <? 0) in *.
  set (v := vpdiff_of s b4 b2 b1) in *.
  destruct (next_of_ok e b4 b2 b1 sign v) as (e' & Hn & Hok & Hpred).
  rewrite Hn in He. cbn [mbind option_bind] in He.
  exists e', (code_of b4 b2 b1 sign). split; [done|]. split; [by destruct b4, b2, b1, sign|].
  split; [done|]. split.
  - rewrite decode_code_shape by done. fold s. fold v. rewrite Hn. cbn [mbind option_bind].
    rewrite to_i16_ok; [done|apply Hok].
  - rewrite Hpred. unfold clamp_sample, sample_ok in *.
    assert (forall p, Z.abs (sample - clampZ p (- 32768) 32767) <= Z.abs (sample - p)) as Hc.
    { intros p. unfold clampZ. destruct (Z.ltb_spec p (- 32768)), (Z.ltb_spec 32767 p); lia. }
    assert (Z.abs (sample - (if sign then predictor e - v else predictor e + v)) = Z.abs (d - v)) as Hs.
    { unfold sign, d. destruct (Z.ltb_spec (sample - predictor e) 0); lia. }
    pose proof (Hc (if sign then predictor e - v else predictor e + v)) as Hb. rewrite Hs in Hb.
    destruct (d <? 2 * s); lia.
Qed.

Lemma nibbles (a b : N) :
  (a < 16)%N -> (b < 16)%N ->
  N.land (Byte.to_N (byte_of (N.lor a (N.shiftl b 4)))) 15 = a /\
  N.shiftr (Byte.to_N (byte_of (N.lor a (N.shiftl b 4)))) 4 = b.
Proof.
  intros Ha Hb.
  assert (forallb (fun a => forallb (fun b =>
    ((N.land (Byte.to_N (byte_of (N.lor a (N.shiftl b 4)))) 15 =? a) &&
     (N.shiftr (Byte.to_N (byte_of (N.lor a (N.shiftl b 4)))) 4 =? b))%N)
    (map N.of_nat (seq 0 16))) (map N.of_nat (seq 0 16)) = true) as H by (vm_compute; reflexivity).
  assert (forall x : N, (x < 16)%N -> In x (map N.of_nat (seq 0 16))) as Hin.
  { intros x Hx. apply in_map_iff. exists (N.to_nat x). split; [lia|]. apply in_seq. lia. }
  pose proof (proj1 (forallb_forall _ _) H a (Hin a Ha)) as H1. cbv beta in H1.
  pose proof (proj1 (forallb_forall _ _) H1 b (Hin b Hb)) as H2. cbv beta in H2.
  apply andb_true_iff in H2 as [H2 H3]. split; by apply N.eqb_eq.
Qed.

Lemma push_code_room count code d out d' s :
  (length out < count)%nat -> decode_code d code = Some (d', s) ->
  push_code count code (d, out) = Some (d', out ++ [s]).
Proof. intros Hl Hd. unfold push_code. rewrite (proj2 (Nat.ltb_lt _ _)) by lia. by rewrite Hd. Qed.

Lemma push_code_full count code d out :
  length out = count -> push_code count code (d, out) = Some (d, out).
Proof. intros Hl. unfold push_code. by rewrite (proj2 (Nat.ltb_ge _ _)) by lia. Qed.

(** The decoder follows the encoder over a whole frame. *)
Lemma lockstep pcm e :
  state_ok e -> Forall sample_ok pcm ->
  exists e' bytes rec, reconstruction e pcm = Some (e', rec) /\ state_ok e' /\
    length rec = length pcm /\ length bytes = ((length pcm + 1) / 2)%nat /\
    (forall out, encode_loop e None out pcm = Some (e', out ++ bytes)) /\
    (forall out, decode_loop bytes (length out + length pcm) (e, out) = Some (e', out ++ rec)).
Proof.
  remember (length pcm) as n eqn:Hn. revert pcm e Hn.
  induction n as [n IH] using lt_wf_ind. intros pcm e Hn He Hp.
  destruct pcm as [|x [|y pcm]].
  - exists e, [], []. subst n. split_and!; try done; intros out; by rewrite app_nil_r.
  - apply Forall_cons in Hp as [Hx _]. subst n.
    destruct (sample_spec e x He Hx) as (e1 & c1 & E1 & Hc1 & He1 & D1 & _).
    exists e1, [byte_of c1], [predictor e1]. cbn [reconstruction length]. rewrite E1.
    split_and!; try done; intros out; cbn [encode_loop decode_loop length].
    + by rewrite E1.
    + assert (Byte.to_N (byte_of c1) = c1) as Hb by (rewrite to_N_byte_of, N.mod_small; lia).
      rewrite Hb. change 15%N with (N.ones 4). rewrite N.land_ones, N.mod_small by (change (2 ^ 4)%N with 16%N; lia).
      rewrite (push_code_room _ _ _ _ e1 (predictor e1)); [|lia|done]. cbn [mbind option_bind].
      by rewrite push_code_full by (rewrite length_app; cbn; lia).
  - apply Forall_cons in Hp as [Hx Hp]. apply Forall_cons in Hp as [Hy Hp].
    destruct (sample_spec e x He Hx) as (e1 & c1 & E1 & Hc1 & He1 & D1 & _).
    destruct (sample_spec e1 y He1 Hy) as (e2 & c2 & E2 & Hc2 & He2 & D2 & _).
    cbn [length] in Hn.
    destruct (IH (length pcm) ltac:(lia) pcm e2 eq_refl He2 Hp)
      as (e' & bytes & rec & Hr & He' & Hlr & Hlb & Henc & Hdec).
    destruct (nibbles c1 c2 Hc1 Hc2) as [N1 N2].
    exists e', (byte_of (N.lor c1 (N.shiftl c2 4)) :: bytes), (predictor e1 :: predictor e2 :: rec).
    split. { cbn [reconstruction]. rewrite E1. cbn [mbind option_bind]. rewrite E2. cbn [mbind option_bind].
             rewrite Hr. done. }
    split; [done|]. split; [cbn; lia|]. split.
    { cbn [length]. rewrite Hlb, Hn. replace (S (S (length pcm)) + 1)%nat with (length pcm + 1 + 1 * 2)%nat by lia.
      rewrite Nat.div_add by done. lia. }
    split; intros out.
    + cbn [encode_loop]. rewrite E1. cbn [mbind option_bind encode_loop]. rewrite E2. cbn [mbind option_bind].
      by rewrite Henc, <- app_assoc.
    + cbn [decode_loop]. rewrite N1, N2, Hn.
      rewrite (push_code_room _ _ _ _ e1 (predictor e1)); [|lia|done]. cbn [mbind option_bind].
      rewrite (push_code_room _ _ _ _ e2 (predictor e2)); [|rewrite length_app; cbn; lia|done].
      cbn [mbind option_bind].
      replace (length out + S (S (length pcm)))%nat with
        (length ((out ++ [predictor e1]) ++ [predictor e2]) + length pcm)%nat
        by (rewrite !length_app; cbn; lia).
      by rewrite Hdec, <- !app_assoc.
Qed.

Lemma reconstruction_ok e pcm e' out :
  state_ok e -> Forall sample_ok pcm -> reconstruction e pcm = Some (e', out) -> Forall sample_ok out.
Proof.
  intros He Hp. revert e out He. induction Hp as [|x pcm Hx Hp IH]; intros e out He Hr.
  { by injection Hr as _ <-. }
  cbn [reconstruction] in Hr. destruct (sample_spec e x He Hx) as (e1 & c1 & E1 & _ & He1 & _).
  rewrite E1 in Hr. cbn [mbind option_bind] in Hr.
  destruct (reconstruction e1 pcm) as [[e2 o]|] eqn:E; [|done]. injection Hr as -> <-.
  constructor; [apply He1|by eapply IH].
Qed.
End adpcm.

(** * Properties *)

(** The voice codec never drifts on a path that delivers: from equal states, any
    frame of 16-bit samples encodes to half its samples in bytes, rounded up, and
    decoding those bytes gives exactly the encoder's own reconstruction and leaves
    both in equal, valid states. *)
Theorem codec_in_lockstep (e : Adpcm) (pcm : list Z)
    (He : state_ok e) (Hp : Forall sample_ok pcm) :
  exists e' bytes out, encode e pcm = Some (e', bytes) /\ decode e bytes (length pcm) = Some (e', out) /\
    reconstruction e pcm = Some (e', out) /\ length out = length pcm /\
    length bytes = ((length pcm + 1) / 2)%nat /\ state_ok e' /\ Forall sample_ok out.
Proof.
  destruct (lockstep pcm e He Hp) as (e' & bytes & rec & Hr & He' & Hlr & Hlb & Henc & Hdec).
  exists e', bytes, rec. split; [apply (Henc [])|]. split; [apply (Hdec [])|].
  split; [done|]. split; [done|]. split; [done|]. split; [done|].
  by apply (reconstruction_ok e pcm e').
Qed.

Lemma codec_in_lockstep_witness :
  exists e' bytes out, encode adpcm_new [100; 5000; -32768; 32767; 0] = Some (e', bytes) /\
    decode adpcm_new bytes 5 = Some (e', out) /\ length bytes = 3%nat.
Proof.
  destruct (codec_in_lockstep adpcm_new [100; 5000; -32768; 32767; 0]) as (e' & b & o & H1 & H2 & _ & _ & H3 & _).
  - split; [split|]; vm_compute; [discriminate|discriminate|split; discriminate].
  - repeat (constructor; [split; vm_compute; discriminate|]). constructor.
  - exists e', b, o. split; [exact H1|]. split; [exact H2|]. exact H3.
Defined.

(** The quantisation error is bounded by the step: a sample less than two steps
    from the prediction is reconstructed within an eighth of a step and 2, and a
    sample farther off brings the prediction at least one step nearer, so a slope
    overload always shrinks. *)
Theorem quantisation_error_bounded (e : Adpcm) (sample : Z) (He : state_ok e) (Hs : sample_ok sample) :
  exists e' code, encode_sample e sample = Some (e', code) /\ state_ok e' /\
    if Z.abs (sample - predictor e) <? 2 * step_of e
    then Z.abs (sample - predictor e') <= step_of e / 8 + 2
    else Z.abs (sample - predictor e') <= Z.abs (sample - predictor e) - step_of e.
Proof.
  destruct (sample_spec e sample He Hs) as (e' & code & E & _ & He' & _ & Hb). by exists e', code.
Qed.

Lemma quantisation_error_bounded_witness :
  exists e' code, encode_sample (mkAdpcm 1000 40) 1200 = Some (e', code) /\ state_ok e' /\
    Z.abs (1200 - predictor e') <= 337 / 8 + 2.
Proof.
  destruct (quantisation_error_bounded (mkAdpcm 1000 40) 1200) as (e' & code & H1 & H2 & H3).
  - split; [split|]; vm_compute; [discriminate|discriminate|split; discriminate].
  - split; vm_compute; discriminate.
  - exists e', code. split; [exact H1|]. split; [exact H2|]. vm_compute in H3. vm_compute. exact H3.
Defined.
