(* ===== verification/Dtx.v ===== *)
(** Discontinuous transmission and loss concealment of the voice path:
    [core/platform/src/dtx.rs] and [core/platform/src/plc_chain.rs]. *)
From S2P Require Import Prelude F64.
#[local] Open Scope N_scope.

Definition DTX_SID_INTERVAL_FRAMES : N := 20.
Definition DTX_SID_BYTES : N := 5.
Definition DTX_SILENCE_BPS : N := DTX_SID_BYTES * 8 * 1000 / (DTX_SID_INTERVAL_FRAMES * 20).
Definition DTX_HANGOVER_FRAMES : N := 8.

Inductive DtxState := StVoice | StSilence.
Inductive DtxAction := Voice | Sid | Suppress.

(** ** The sender's gate *)
Record DtxEncoder := mkDtx { state : DtxState; hangover_remaining : N; silence_frames : N }.

Definition dtx_new : DtxEncoder :=
  {| state := StVoice; hangover_remaining := DTX_HANGOVER_FRAMES; silence_frames := 0 |}.

Definition observe_vad (d : DtxEncoder) (voice_active : bool) : DtxEncoder * DtxAction :=
  if voice_active then
    ({| state := StVoice; hangover_remaining := DTX_HANGOVER_FRAMES; silence_frames := 0 |}, Voice)
  else if 0 <? hangover_remaining d then
    ({| state := state d; hangover_remaining := hangover_remaining d - 1;
        silence_frames := silence_frames d |}, Voice)
  else
    let idx := silence_frames d in
    ({| state := StSilence; hangover_remaining := hangover_remaining d;
        silence_frames := wrap 64 (idx + 1) |},
     if idx mod DTX_SID_INTERVAL_FRAMES =? 0 then Sid else Suppress).

Definition effective_audio_bps (d : DtxEncoder) (voice_bps : N) : N :=
  match state d with StVoice => voice_bps | StSilence => DTX_SILENCE_BPS end.

Definition savings_bps (d : DtxEncoder) (voice_bps : N) : N :=
  voice_bps - effective_audio_bps d voice_bps.

(** ** The receiver's side *)
Record DtxReceiver := mkDtxReceiver { rx_state : DtxState }.

Definition rx_new : DtxReceiver := {| rx_state := StVoice |}.

Definition observe_packet (is_sid : bool) : DtxReceiver :=
  {| rx_state := if is_sid then StSilence else StVoice |}.

Definition tick_no_packet (r : DtxReceiver) : bool :=
  match rx_state r with StSilence => true | StVoice => false end.

(** ** The concealment chain *)
Definition DRED_DEPTH_FRAMES : N := 50.
Definition NEURAL_PLC_MAX_FRAMES : N := 5.
Definition COMFORT_NOISE_FADE_FRAMES : N := 8.

Inductive PlcStage := FecDecode | Dred | NeuralPlc | ComfortNoise.
Inductive PlcOutcome := Received | Concealed (s : PlcStage).

Record PlcChain := mkPlc { dred_depth : N; burst : N }.

Definition plc_new (dred_depth_frames : N) : PlcChain :=
  {| dred_depth := dred_depth_frames; burst := 0 |}.

Definition advance (p : PlcChain) (received : bool) : PlcChain * PlcOutcome :=
  if received then ({| dred_depth := dred_depth p; burst := 0 |}, Received)
  else
    let b := wrap 64 (burst p + 1) in
    ({| dred_depth := dred_depth p; burst := b |},
     Concealed (if b =? 1 then FecDecode
                else if b <=? dred_depth p then Dred
                else if b <=? wrap 64 (dred_depth p + NEURAL_PLC_MAX_FRAMES) then NeuralPlc
                else ComfortNoise)).

Definition is_idle (p : PlcChain) : bool := burst p =? 0.

Definition comfort_noise_gain (p : PlcChain) : f64 :=
  let cn_start := wrap 64 (dred_depth p + NEURAL_PLC_MAX_FRAMES + 1) in
  if burst p <? cn_start then f_zero
  else
    let frames_into_cn := burst p - cn_start in
    let fade_frac := (f_of_N frames_into_cn / f_of_N COMFORT_NOISE_FADE_FRAMES)%f64 in
    f_max (f_one - fade_frac)%f64 f_zero.

(** ** Streams *)
Fixpoint gate (d : DtxEncoder) (vad : list bool) : list DtxAction :=
  match vad with
  | [] => []
  | v :: vad => let '(d, a) := observe_vad d v in a :: gate d vad
  end.

(** What the receiver makes of each slot on a path that delivers: [Some] when it
    has to decide about a missing packet. *)
Fixpoint slots (r : DtxReceiver) (acts : list DtxAction) : list (option bool) :=
  match acts with
  | [] => []
  | Suppress :: acts => Some (tick_no_packet r) :: slots r acts
  | a :: acts =>
      None :: slots (observe_packet match a with Sid => true | _ => false end) acts
  end.

Fixpoint conceal (p : PlcChain) (slots : list bool) : list PlcOutcome :=
  match slots with
  | [] => []
  | s :: slots => let '(p, o) := advance p s in o :: conceal p slots
  end.

(** ** Specification *)

(** The action of a frame by the number [q] of silent frames up to it. *)
Definition action_after (q : N) : DtxAction :=
  if q <=? DTX_HANGOVER_FRAMES then Voice
  else if (q - DTX_HANGOVER_FRAMES - 1) mod DTX_SID_INTERVAL_FRAMES =? 0 then Sid else Suppress.

(** The outcome of a slot by the number [q] of slots lost up to it. *)
Definition stage_after (depth q : N) : PlcOutcome :=
  if q =? 0 then Received
  else Concealed (if q =? 1 then FecDecode
                  else if q <=? depth then Dred
                  else if q <=? depth + NEURAL_PLC_MAX_FRAMES then NeuralPlc
                  else ComfortNoise).

(** The lengths of the runs of [false] that end at each place, after [q] of them. *)
Fixpoint false_runs (q : N) (l : list bool) : list N :=
  match l with
  | [] => []
  | b :: l => let q := if b then 0 else q + 1 in q :: false_runs q l
  end.

(** ** Lemmas *)
Section gate.

(** The encoder after [q] silent frames. *)
Definition after (d : DtxEncoder) (q : N) : Prop :=
  hangover_remaining d = DTX_HANGOVER_FRAMES - q /\
  silence_frames d = q - DTX_HANGOVER_FRAMES.

Lemma gate_spec vad d q :
  after d q -> q + lenN vad < 2 ^ 64 -> gate d vad = map action_after (false_runs q vad).
Proof.
  revert d q. induction vad as [|v vad IH]; intros d q Hd Hq; [done|].
  rewrite lenN_cons in Hq. cbn [gate false_runs map]. unfold observe_vad.
  destruct v; [f_equal; apply IH; [done|lia]|].
  destruct Hd as [Hh Hs]. unfold action_after at 1. unfold DTX_HANGOVER_FRAMES in *.
  destruct (N.ltb_spec 0 (hangover_remaining d)).
  - rewrite (proj2 (N.leb_le _ _)) by lia. f_equal. apply IH; [|lia].
    split; cbn [hangover_remaining silence_frames]; unfold DTX_HANGOVER_FRAMES; lia.
  - rewrite (proj2 (N.leb_gt _ _)) by lia. rewrite Hs. replace (q + 1 - 8 - 1) with (q - 8) by lia.
    f_equal. apply IH; [|lia].
    split; cbn [hangover_remaining silence_frames]; unfold DTX_HANGOVER_FRAMES; [lia|].
    rewrite wrap_small by lia. lia.
Qed.

Lemma conceal_spec slots p q :
  burst p = q -> q + lenN slots < 2 ^ 64 -> dred_depth p + NEURAL_PLC_MAX_FRAMES < 2 ^ 64 ->
  conceal p slots = map (stage_after (dred_depth p)) (false_runs q slots).
Proof.
  revert p q. induction slots as [|s slots IH]; intros p q Hb Hq Hd; [done|].
  rewrite lenN_cons in Hq. cbn [conceal false_runs map]. unfold advance.
  destruct s; [f_equal; by apply (IH {| dred_depth := dred_depth p; burst := 0 |}); [|cbn; lia|]|].
  rewrite Hb, wrap_small, wrap_small by lia. unfold stage_after at 1.
  rewrite (proj2 (N.eqb_neq (q + 1) 0)) by lia. f_equal.
  apply (IH {| dred_depth := dred_depth p; burst := q + 1 |}); [done|lia|done].
Qed.

(** Within a run of silence the receiver knows it is one. *)
Lemma slots_spec vad d r q :
  after d q -> q + lenN vad < 2 ^ 64 -> (DTX_HANGOVER_FRAMES < q -> rx_state r = StSilence) ->
  slots r (gate d vad) =
    map (fun q => match action_after q with Suppress => Some true | _ => None end) (false_runs q vad).
Proof.
  intros Hd Hq. rewrite (gate_spec vad d q Hd Hq). clear d Hd Hq. revert r q.
  induction vad as [|v vad IH]; intros r q Hr; [done|]. cbn [false_runs map].
  destruct v.
  - cbn [slots]. f_equal. apply IH. intros. unfold DTX_HANGOVER_FRAMES in *. lia.
  - unfold action_after at 1 3. unfold DTX_HANGOVER_FRAMES in *.
    destruct (N.leb_spec (q + 1) 8).
    { cbn [slots]. f_equal. apply IH. lia. }
    replace (q + 1 - 8 - 1) with (q - 8) by lia. unfold DTX_SID_INTERVAL_FRAMES.
    destruct (N.eqb_spec ((q - 8) mod 20) 0) as [|Hne]; cbn [slots].
    { f_equal. by apply IH. }
    assert (8 < q) as Hq.
    { destruct (N.le_gt_cases q 8); [|done]. replace (q - 8) with 0 in Hne by lia. done. }
    unfold tick_no_packet. rewrite (Hr Hq). f_equal. apply IH. intros _. by apply Hr.
Qed.
End gate.

(** * Properties *)

(** Silence costs one packet in twenty: over any stream of fewer than 2^64
    frames, what the gate does with a frame depends only on the number of silent
    frames up to it: the first 8 are sent in full, the next and every twentieth
    after it is a comfort-noise update, and the others are suppressed; and on a
    path that delivers, the receiver takes a missing packet for silence exactly
    when it was suppressed. *)
Theorem silence_is_cheap_and_recognised (vad : list bool) (Hv : lenN vad < 2 ^ 64) :
  gate dtx_new vad = map action_after (false_runs 0 vad) /\
  slots rx_new (gate dtx_new vad) =
    map (fun a => match a with Suppress => Some true | _ => None end) (gate dtx_new vad).
Proof.
  assert (after dtx_new 0) as Ha by done. split; [by apply gate_spec|].
  rewrite (slots_spec vad dtx_new rx_new 0 Ha Hv) by (unfold DTX_HANGOVER_FRAMES; lia).
  by rewrite (gate_spec vad dtx_new 0 Ha Hv), map_map.
Qed.

Lemma silence_is_cheap_and_recognised_witness :
  gate dtx_new (true :: replicate 31 false) =
    Voice :: replicate 8 Voice ++ Sid :: replicate 19 Suppress ++ [Sid; Suppress; Suppress].
Proof.
  rewrite (proj1 (silence_is_cheap_and_recognised (true :: replicate 31 false)
    ltac:(vm_compute; reflexivity))).
  vm_compute. reflexivity.
Defined.

(** Losses are concealed by the length of the burst: over any stream, a slot's
    stage depends only on the number of slots lost up to it, in the documented
    order, and an arriving frame resets the chain. *)
Theorem concealment_by_burst (depth : N) (slots : list bool)
    (Hs : lenN slots < 2 ^ 64) (Hd : depth + NEURAL_PLC_MAX_FRAMES < 2 ^ 64) :
  conceal (plc_new depth) slots = map (stage_after depth) (false_runs 0 slots).
Proof. by apply (conceal_spec slots (plc_new depth) 0). Qed.

Lemma concealment_by_burst_witness :
  conceal (plc_new 3) [true; false; false; false; false; true; false] =
    [Received; Concealed FecDecode; Concealed Dred; Concealed Dred; Concealed NeuralPlc; Received;
     Concealed FecDecode].
Proof.
  rewrite (concealment_by_burst 3 [true; false; false; false; false; true; false]
    ltac:(vm_compute; reflexivity) ltac:(vm_compute; reflexivity)).
  reflexivity.
Defined.

(** The comfort noise fades linearly to silence and stays there: at the
    documented depth the gain of the first eight comfort-noise frames is exactly
    1, 7/8, ... 1/8, zero for the next thousand, and zero before that stage. *)
Theorem comfort_noise_fades :
  let gain b := comfort_noise_gain (mkPlc DRED_DEPTH_FRAMES b) in
  map (fun k => gain (56 + k)) [0; 1; 2; 3; 4; 5; 6; 7] =
    map (fun n => f_lit n 8) [8; 7; 6; 5; 4; 3; 2; 1]%Z /\
  Forall (fun k => gain (64 + N.of_nat k) = f_zero) (seq 0 1000) /\
  Forall (fun k => gain (N.of_nat k) = f_zero) (seq 0 56).
Proof.
  cbv zeta. split; [vm_compute; reflexivity|].
  assert (forall (g : nat -> f64) n,
    forallb (fun k => match g k with SpecFloat.S754_zero false => true | _ => false end) (seq 0 n) = true ->
    Forall (fun k => g k = f_zero) (seq 0 n)) as Hall.
  { intros g n Hg. apply Forall_forall. intros k Hk. rewrite forallb_forall in Hg.
    specialize (Hg k (proj1 (list_elem_of_In _ _) Hk)). by destruct (g k) as [[]| | |]. }
  split; apply Hall; vm_compute; reflexivity.
Qed.
