(* ===== verification/Voice.v ===== *)
(** Voice frames over the session: [core/lowbandd/src/voice.rs], in the default
    build with the ADPCM codec; the audio devices at their ends,
    [core/lowbandd/src/audio_io.rs], and the loops between them,
    [core/lowbandd/src/voice_loop.rs] (Module [AudioIo]).

    A [u16] is an [N], an [i16] a [Z]. *)
From S2P Require Import Prelude F64 F64Bounds Adpcm Dtx.
#[local] Open Scope N_scope.

Definition FRAME_SAMPLES : nat := 160.
Definition KIND_VOICE : byte := Byte.x30.
Definition KIND_SID : byte := Byte.x31.
Definition VAD_RMS_THRESHOLD : f64 := f_of_N 350.

Inductive VoiceFrame :=
| VVoice (samples : N) (data : list byte)
| VSid (rms : N).

Definition encode_frame (f : VoiceFrame) : list byte :=
  match f with
  | VVoice samples data => KIND_VOICE :: le_bytes 2 samples ++ data
  | VSid rms => KIND_SID :: le_bytes 2 rms
  end.

Definition decode_frame (buf : list byte) : option VoiceFrame :=
  match buf with
  | [] => None
  | kind :: rest =>
      if bool_decide (kind = KIND_VOICE) then
        '(n, data) ← split_at_checked 2 rest; Some (VVoice (le_value n) data)
      else if bool_decide (kind = KIND_SID) then
        '(n, _) ← split_at_checked 2 rest; Some (VSid (le_value n))
      else None
  end.

Definition rms (pcm : list Z) : f64 :=
  match pcm with
  | [] => f_zero
  | _ =>
      let sum := f_sum (map (fun s => (f_of_Z s * f_of_Z s)%f64) pcm) in
      SpecFloat.SFsqrt 53 1024 (sum / f_of_N (lenN pcm))%f64
  end.

Inductive SendOutcome := SentVoice | SentSid | Suppressed.

(** ** The sender *)
Record VoiceSender := mkSender { dtx : DtxEncoder; codec : Adpcm }.

Definition sender_new : VoiceSender := {| dtx := dtx_new; codec := adpcm_new |}.

Definition process (s : VoiceSender) (pcm : list Z) :
    option (VoiceSender * (SendOutcome * option (list byte))) :=
  let level := rms pcm in
  let voice_active := (VAD_RMS_THRESHOLD <=? level)%f64 in
  let '(d, action) := observe_vad (dtx s) voice_active in
  match action with
  | Voice =>
      '(c, data) ← encode (codec s) pcm;
      Some ({| dtx := d; codec := c |},
            (SentVoice, Some (encode_frame (VVoice (wrap 16 (lenN pcm)) data))))
  | Sid =>
      Some ({| dtx := d; codec := codec s |},
            (SentSid, Some (encode_frame (VSid (f_to_uN 16 (f_min level (f_of_N (u_max 16))))))))
  | Suppress => Some ({| dtx := d; codec := codec s |}, (Suppressed, None))
  end.

(** ** The receiver *)
Record VoiceReceiver := mkReceiver { rx_codec : Adpcm; comfort_rms : N }.

Definition receiver_new : VoiceReceiver := {| rx_codec := adpcm_new; comfort_rms := 0 |}.

Definition decode_voice (r : VoiceReceiver) (frame : VoiceFrame) : option (VoiceReceiver * list Z) :=
  match frame with
  | VVoice samples data =>
      '(c, out) ← decode (rx_codec r) data (N.to_nat samples);
      Some ({| rx_codec := c; comfort_rms := comfort_rms r |}, out)
  | VSid rms => Some ({| rx_codec := rx_codec r; comfort_rms := rms |}, replicate FRAME_SAMPLES 0%Z)
  end.

(** ** A talk over a path that delivers

    What the receiver plays for each captured frame; [Some None] is a suppressed
    frame, and [None] a panic or an undecodable datagram. *)
Fixpoint talk (s : VoiceSender) (r : VoiceReceiver) (frames : list (list Z)) :
    option (VoiceSender * VoiceReceiver * list (SendOutcome * option (list Z))) :=
  match frames with
  | [] => Some (s, r, [])
  | pcm :: frames =>
      '(s, (outcome, datagram)) ← process s pcm;
      '(r, played) ←
        match datagram with
        | None => Some (r, None)
        | Some bytes =>
            f ← decode_frame bytes;
            '(r, out) ← decode_voice r f;
            Some (r, Some out)
        end;
      '(s, r, rest) ← talk s r frames;
      Some (s, r, (outcome, played) :: rest)
  end.

(** ** The audio devices

    A device is the calls of its callback; a queue shared with a callback is the
    list it holds, and each of its operations takes the lock. *)
Module AudioIo.


(** One output sample; [None]: an index out of range panics. *)
Definition resample_at (input : list Z) (last : N) (step : f64) (i : N) : option Z :=
  let src := (f_of_N i * step)%f64 in
  let idx := f_to_uN 64 (f_floor src) in
  let frac := (src - f_of_N idx)%f64 in
  a ← f_of_Z <$> input !! N.to_nat (N.min idx last);
  b ← f_of_Z <$> input !! N.to_nat (N.min (wrapping_add 64 idx 1) last);
  Some (s_to_i16 (f_clamp (f_round (a + (b - a) * frac)%f64) (f_of_Z (- 32768)) (f_of_Z 32767))).

Definition out_len (len from_hz to_hz : N) : N := N.max (wrap 64 (len * to_hz) / from_hz) 1.

Definition resample (input : list Z) (from_hz to_hz : N) : option (list Z) :=
  if (lenN input =? 0) || (from_hz =? 0) || (to_hz =? 0) || (from_hz =? to_hz) then Some input
  else
    let n := out_len (lenN input) from_hz to_hz in
    let last := lenN input - 1 in
    let step := if 1 <? n then (f_of_N last / f_of_N (n - 1))%f64 else f_zero in
    mapM (resample_at input last step) (map N.of_nat (seq 0 (N.to_nat n))).

Definition i16_to_f32 (s : Z) : f32 := (s_of_Z s / s_of_Z 32768)%f32.

Definition f32_to_i16 (s : f32) : Z :=
  s_to_i16 (s_clamp (s_round (s * s_of_Z 32768)%f32) (s_of_Z (- 32768)) (s_of_Z 32767)).

(** *** The queue *)
Abbreviation SharedPcm := (list Z) (only parsing).

Definition push (q : SharedPcm) (samples : list Z) : SharedPcm := q ++ samples.

(** The samples written over [n] slots, and how many are real. *)
Fixpoint pop_into (q : SharedPcm) (n : nat) : SharedPcm * list Z * nat :=
  match n with
  | O => (q, [], O)
  | S n =>
      match q with
      | s :: q => let '(q, out, k) := pop_into q n in (q, s :: out, S k)
      | [] => let '(q, out, k) := pop_into [] n in (q, 0%Z :: out, k)
      end
  end.

(** *** The callbacks, of a device with [channels] channels *)

(** Each frame of the buffer whole: a sample of the queue in every channel. *)
Definition speaker_callback (pcm : SharedPcm) (channels : N) (data : list f32) : SharedPcm * list f32 :=
  let ch := N.to_nat (N.max channels 1) in
  let frames := (length data / ch)%nat in
  let '(pcm, mono, _) := pop_into pcm frames in
  (pcm, concat (map (fun s => replicate ch (i16_to_f32 s)) mono) ++ drop (frames * ch) data).

(** [chunks]: the last may be short. *)
Fixpoint chunks {A} (fuel size : nat) (l : list A) : list (list A) :=
  match fuel, l with
  | S fuel, _ :: _ => take size l :: chunks fuel size (drop size l)
  | _, _ => []
  end.

Definition downmix (channels : N) (frame : list f32) : Z :=
  f32_to_i16 (s_sum frame / s_of_Z (Z.of_N (N.max channels 1)))%f32.

Definition microphone_callback (pcm : SharedPcm) (channels : N) (data : list f32) : SharedPcm :=
  push pcm (map (downmix channels) (chunks (length data) (N.to_nat (N.max channels 1)) data)).










End AudioIo.

(** ** Specification *)

(** What is played for a captured frame. *)
Definition plays (pcm : list Z) (res : SendOutcome * option (list Z)) : Prop :=
  match res with
  | (SentVoice, Some out) => length out = length pcm /\ Forall sample_ok out
  | (SentSid, Some out) => out = replicate FRAME_SAMPLES 0%Z
  | (Suppressed, None) => True
  | _ => False
  end.

(** A captured frame: 16-bit samples, few enough for their count to fit. *)
Definition frame_ok (pcm : list Z) : Prop := Forall sample_ok pcm /\ lenN pcm < 2 ^ 16.

(** ** Lemmas *)
Section voice.

Lemma decode_encode_voice f :
  match f with VVoice n _ => n < 2 ^ 16 | VSid r => r < 2 ^ 16 end -> decode_frame (encode_frame f) = Some f.
Proof.
  destruct f as [n d|r]; cbn [encode_frame decode_frame]; intros Hn.
  - rewrite bool_decide_eq_true_2 by done. rewrite split_at_checked_app by (by rewrite lenN_le_bytes).
    cbn [mbind option_bind]. by rewrite le_value_bytes_small.
  - rewrite bool_decide_eq_false_2, bool_decide_eq_true_2 by done.
    rewrite <- (app_nil_r (le_bytes 2 r)), split_at_checked_app by (by rewrite lenN_le_bytes).
    cbn [mbind option_bind]. by rewrite le_value_bytes_small.
Qed.

Lemma f_to_uN_lt w x : f_to_uN w x < 2 ^ w.
Proof.
  pose proof (pow2_pos w). unfold f_to_uN, u_max. destruct x as [s|[]| |s m e]; lia.
Qed.

Lemma codec_frame c pcm :
  state_ok c -> Forall sample_ok pcm ->
  exists c' bytes out, encode c pcm = Some (c', bytes) /\ decode c bytes (length pcm) = Some (c', out) /\
    state_ok c' /\ length out = length pcm /\ Forall sample_ok out.
Proof.
  intros Hc Hp. destruct (lockstep pcm c Hc Hp) as (c' & b & o & Hr & Hc' & Hl & _ & He & Hd).
  exists c', b, o. split; [apply (He [])|]. split; [apply (Hd [])|]. split; [done|]. split; [done|].
  by apply (reconstruction_ok c pcm c').
Qed.

(** One frame through the gate, the codec and the framing to the receiver. *)
Lemma one_frame s r pcm :
  frame_ok pcm -> codec s = rx_codec r -> state_ok (codec s) ->
  exists s' o d, process s pcm = Some (s', (o, d)) /\ state_ok (codec s') /\
    match d with
    | None => codec s' = rx_codec r /\ plays pcm (o, None)
    | Some b => exists f r' out, decode_frame b = Some f /\ decode_voice r f = Some (r', out) /\
        codec s' = rx_codec r' /\ plays pcm (o, Some out) /\ Forall sample_ok out /\ (lenN out < 2 ^ 16)
    end.
Proof.
  intros [Hp Hl] Hc Hs. unfold process. destruct (observe_vad (dtx s) _) as [d a]. destruct a.
  - destruct (codec_frame (codec s) pcm Hs Hp) as (c' & bytes & out & He & Hd & Hc' & Hlo & Ho).
    rewrite He. cbn [mbind option_bind]. rewrite (wrap_small 16) by done.
    eexists _, _, _. split; [reflexivity|]. split; [done|]. cbn [codec].
    eexists _, _, out. split; [by rewrite (decode_encode_voice (VVoice (lenN pcm) bytes))|].
    cbn [decode_voice]. rewrite to_nat_lenN, <- Hc, Hd. cbn [mbind option_bind].
    split; [reflexivity|]. split; [done|]. split; [done|]. split; [done|]. unfold lenN in *. lia.
  - eexists _, _, _. split; [reflexivity|]. split; [done|]. cbn [codec].
    eexists _, _, _. split; [by rewrite decode_encode_voice by apply f_to_uN_lt|].
    split; [reflexivity|]. split; [done|]. split; [done|]. split; [by apply Forall_replicate|done].
  - eexists _, _, _. split; [reflexivity|]. done.
Qed.

Lemma talk_spec frames s r :
  Forall frame_ok frames -> codec s = rx_codec r -> state_ok (codec s) ->
  exists s' r' res, talk s r frames = Some (s', r', res) /\ Forall2 plays frames res /\
    codec s' = rx_codec r' /\ state_ok (codec s').
Proof.
  intros Hf. revert s r. induction Hf as [|pcm frames Hok _ IH]; intros s r Hc Hs.
  { by exists s, r, []. }
  destruct (one_frame s r pcm Hok Hc Hs) as (s1 & o & d & Hpr & Hs1 & Hd). cbn [talk]. rewrite Hpr. cbn [mbind option_bind].
  destruct d as [b|].
  - destruct Hd as (f & r1 & out & Hdf & Hdv & Hc1 & Hpl & _). rewrite Hdf. cbn [mbind option_bind]. rewrite Hdv.
    cbn [mbind option_bind]. destruct (IH s1 r1 Hc1 Hs1) as (s' & r' & res & -> & Hres & Hfin).
    cbn [mbind option_bind]. eexists s', r', _. split; [done|]. split; [by constructor|done].
  - destruct Hd as [Hc1 Hpl]. cbn [mbind option_bind]. destruct (IH s1 r Hc1 Hs1) as (s' & r' & res & -> & Hres & Hfin).
    cbn [mbind option_bind]. eexists s', r', _. split; [done|]. split; [by constructor|done].
Qed.
End voice.

(** ** Lemmas on the devices *)
Section devices.
Import AudioIo.




(** How many samples come out. *)
Definition resampled_len (len from_hz to_hz : N) : N :=
  if (len =? 0) || (from_hz =? 0) || (to_hz =? 0) || (from_hz =? to_hz) then len else out_len len from_hz to_hz.


(** *** The call, from the microphone's samples to the speaker's *)










(** *** Constant signals *)
Open Scope Z_scope.

Lemma f_of_Z_opp p : f_of_Z (Zneg p) = SFopp (f_of_Z (Zpos p)).
Proof.
  unfold f_of_Z, binary_normalize, binary_round. destruct (shl_align _ _ _) as [m e].
  unfold binary_round_aux. destruct (shr_fexp _ _ _ _ _) as [r e']. destruct (shr_fexp _ _ _ _ _) as [r' e'']. 
  destruct (shr_m r') as [|q|q]; [done| |done]. by destruct (_ <=? _).
Qed.

Lemma add_zero x s : is_finite x = true -> x <> S754_zero true -> f_add x (S754_zero s) = x.
Proof. destruct x as [[]|[]| |s' m e], s; done. Qed.

Lemma sub_self x : is_finite x = true -> f_sub x x = S754_zero false.
Proof.
  destruct x as [[]|[]| |s m e]; try done. intros _. unfold f_sub, SFsub. cbn zeta. by rewrite Z.sub_diag.
Qed.

Lemma zero_mul x : is_finite x = true -> exists s, f_mul (S754_zero false) x = S754_zero s.
Proof. destruct x as [s|s| |s m e]; try done; intros _; by eexists. Qed.

Lemma f_of_i16_pos p : Zpos p < 2 ^ 16 ->
  is_finite (f_of_Z (Zpos p)) = true /\ f_of_Z (Zpos p) <> S754_zero true /\
  f_round_Z (f_of_Z (Zpos p)) = Zpos p /\ f_trunc_Z (f_of_Z (Zpos p)) = Zpos p.
Proof.
  intros Hp. destruct (f_of_Z_spec (Zpos p)) as (Hg & Hv & Hf); [lia|]. split; [done|].
  destruct (f_of_Z (Zpos p)) as [s|s| |s m e] eqn:E; try done.
  split; [done|]. pose proof (trunc_spec _ Hg Hf) as (_ & Hlo & Hhi). rewrite Hv in Hlo, Hhi.
  assert (Ht : f_trunc_Z (S754_finite s m e) = Zpos p).
  { pose proof scale_pos. assert (f_trunc_Z (S754_finite s m e) <= Zpos p) by nia. nia. }
  split; [|done]. apply good_finite_fz in Hg as (-> & He & _). cbn [f_round_Z f_trunc_Z fz cond_Zopp] in *.
  destruct (Z.leb_spec 0 e) as [|Hneg]; [done|].
  assert (Hm : Zpos m = Zpos p * 2 ^ (- e)).
  { assert (Hs : scale = 2 ^ (- e) * 2 ^ (e + 1074)) by (apply scale_split; lia). rewrite Hs in Hv.
    assert (0 < 2 ^ (e + 1074)) by (apply Z.pow_pos_nonneg; lia). rewrite Z.mul_assoc in Hv.
    by apply Z.mul_cancel_r in Hv; [|lia]. }
  assert (Hpw : 0 < 2 ^ (- e)) by (apply Z.pow_pos_nonneg; lia).
  rewrite Hm, Z.pow_add_r by lia. rewrite Z.pow_1_r. symmetry. apply Z.div_unique with (2 ^ (- e)); [left; lia|ring].
Qed.
(** What a 16-bit sample is as a float. *)
Lemma f_of_i16 v : - 2 ^ 16 < v < 2 ^ 16 ->
  valid (f_of_Z v) = true /\ fz (f_of_Z v) = v * scale /\ is_finite (f_of_Z v) = true /\
  f_of_Z v <> S754_zero true /\ f_round (f_of_Z v) = f_of_Z v /\ f_trunc_Z (f_of_Z v) = v.
Proof.
  intros Hv. destruct v as [|p|p]; [by split_and!; try done; vm_compute| |].
  - destruct (f_of_i16_pos p) as (Hf & Hz & Hr & Ht); [lia|].
    destruct (f_of_Z_spec (Zpos p)) as ([Hva _] & Hfz & _); [lia|]. split_and!; try done.
    unfold f_round, f_integral. rewrite Hr. by destruct (f_of_Z (Zpos p)).
  - rewrite f_of_Z_opp. destruct (f_of_i16_pos p) as (Hf & Hz & Hr & Ht); [lia|].
    destruct (f_of_Z_spec (Zpos p)) as (Hg & Hfz & _); [lia|].
    assert (Hneg : f_round_Z (SFopp (f_of_Z (Zpos p))) = Zneg p /\ f_trunc_Z (SFopp (f_of_Z (Zpos p))) = Zneg p).
    { change (Zneg p) with (- Zpos p). rewrite <- Hr at 2. rewrite <- Ht at 4.
      destruct (f_of_Z (Zpos p)) as [| | |[] m e]; split; cbn [SFopp negb f_round_Z f_trunc_Z]; lia. }
    destruct Hneg as [Hnr Hnt]. split_and!; [| | | | |done].
    + destruct Hg as [Hva _]. by destruct (f_of_Z (Zpos p)).
    + change (Zneg p * scale) with (- (Zpos p * scale)). rewrite <- Hfz.
      destruct (f_of_Z (Zpos p)) as [|[]| |[] m e]; cbn [SFopp negb fz cond_Zopp]; try done; try lia.
    + by destruct (f_of_Z (Zpos p)).
    + by destruct (f_of_Z (Zpos p)) as [[]| | |].
    + unfold f_round, f_integral. rewrite Hnr, f_of_Z_opp. by destruct (f_of_Z (Zpos p)).
Qed.

(** A 16-bit sample survives the way to a float and back. *)
Lemma sample_through v :
  sample_ok v -> s_to_i16 (f_clamp (f_round (f_of_Z v)) (f_of_Z (- 32768)) (f_of_Z 32767)) = v.
Proof.
  unfold sample_ok. intros Hv. destruct (f_of_i16 v) as (Hva & Hfz & Hf & Hz & -> & Ht); [lia|].
  assert (Hltb : forall a b, - 2 ^ 16 < a < 2 ^ 16 -> - 2 ^ 16 < b < 2 ^ 16 -> b <= a -> SFltb (f_of_Z a) (f_of_Z b) = false).
  { intros a b Ha Hb Hle. destruct (f_of_i16 a Ha) as (Va & Fa & Ia & _). destruct (f_of_i16 b Hb) as (Vb & Fb & Ib & _).
    rewrite f_ltb_fz by (first [done | by destruct (f_of_Z a) | by destruct (f_of_Z b)]). rewrite Fa, Fb.
    apply Z.ltb_ge, Z.mul_le_mono_nonneg_r; [pose proof scale_pos; lia|done]. }
  unfold f_clamp. rewrite !Hltb by lia. unfold s_to_i16. destruct (f_of_Z v) as [s|s| |s m e]; try done.
  cbn [f_trunc_Z] in Ht. cbn zeta. rewrite Ht. unfold clampZ.
  destruct (Z.ltb_spec v (- 2 ^ 15)); [lia|]. destruct (Z.ltb_spec (2 ^ 15 - 1) v); [lia|done].
Qed.
Lemma round_Z_le n z : 0 <= n -> good z -> n * scale <= fz z -> good (f_of_Z n) /\ fz (f_of_Z n) <= fz z.
Proof.
  intros Hn Hz Hle. pose proof (binary_normalize_rounds n 0 Hn ltac:(lia)) as Hr. change (binary_normalize 53 1024 n 0 false) with (f_of_Z n) in Hr.
  split; [apply Hr|]. eapply rounds_le; [exact Hr|done|]. rewrite (pow_scale 0), Z.pow_0_r by lia. lia.
Qed.

Definition huge (k : Z) : f64 := binary_normalize 53 1024 1 k false.

Lemma huge_spec k : 0 <= k <= 971 -> good (huge k) /\ fz (huge k) = 2 ^ k * scale /\ is_finite (huge k) = true.
Proof.
  intros Hk. destruct (normalize_exact 1 k) as (H1 & H2 & H3); [lia|lia|]. rewrite pow_scale, Z.mul_1_l in H2 by lia. done.
Qed.

Lemma u64_le n : (n < 2 ^ 64)%N -> good (f_of_N n) /\ is_finite (f_of_N n) = true /\ fz (f_of_N n) <= 2 ^ 64 * scale.
Proof.
  intros Hn. destruct (f_of_N_u64 n Hn) as (Hg & Hf & _). split; [done|]. split; [done|].
  destruct (huge_spec 64) as (H1 & H2 & _); [lia|]. rewrite <- H2. apply round_Z_le; [lia|done|]. rewrite H2.
  apply Z.mul_le_mono_nonneg_r; [pose proof scale_pos; lia|lia].
Qed.

(** The position between two input samples is a number. *)
Lemma frac_finite i step :
  (i < 2 ^ 64)%N -> good step -> fz step <= 2 ^ 64 * scale ->
  let src := (f_of_N i * step)%f64 in is_finite (src - f_of_N (f_to_uN 64 (f_floor src)))%f64 = true.
Proof.
  intros Hi Hg Hs src. pose proof scale_pos as Hsc. destruct (u64_le i Hi) as (Hgi & Hfi & Hli).
  destruct (huge_spec 64) as (G1 & G2 & G3); [lia|]. destruct (huge_spec 200) as (K1 & K2 & K3); [lia|].
  assert (Hfs : is_finite step = true) by (apply (finite_le _ (huge 64)); [done..|lia]).
  destruct (mul_bound (f_of_N i) step (huge 64) Hgi ltac:(lia) G1 G3 Hg Hfs (huge 200) K1 K3) as (Hgs & _ & Hfsrc).
  { rewrite G2, K2. pose proof (good_nonneg step Hg).
    apply Z.le_trans with (2 ^ 64 * scale * (2 ^ 64 * scale)); [apply Z.mul_le_mono_nonneg_l; lia|].
    replace (2 ^ 64 * scale * (2 ^ 64 * scale)) with (2 ^ 128 * (scale * scale)) by ring.
    rewrite <- Z.mul_assoc. apply Z.mul_le_mono_nonneg_r; [apply Z.mul_nonneg_nonneg; lia|]. by apply Z.leb_le. }
  fold src in Hgs, Hfsrc.
  assert (Hfl : good (f_floor src) /\ fz (f_floor src) <= fz src).
  { pose proof (trunc_spec src Hgs Hfsrc) as (Ht0 & Ht1 & _).
    destruct src as [s|s| |s m e]; try done. apply good_finite_fz in Hgs as Hs'. destruct Hs' as [-> _].
    by apply round_Z_le. }
  destruct Hfl as [Hgf Hfle]. destruct (to_u64_spec _ Hgf) as [Hlo _].
  assert (Hidx : (f_to_uN 64 (f_floor src) < 2 ^ 64)%N) by apply f_to_uN_lt.
  destruct (f_of_N_u64 _ Hidx) as (_ & Hfidx & _).
  destruct (round_Z_le (Z.of_N (f_to_uN 64 (f_floor src))) src) as [Hgidx Hlidx]; [lia|done|lia|].
  destruct (f_sub_le src (f_of_N (f_to_uN 64 (f_floor src))) Hgs Hgidx Hfidx Hlidx) as [Hgd Hld].
  by apply (finite_le _ src).
Qed.

Lemma resample_at_constant n v step i :
  (0 < n)%nat -> sample_ok v -> (i < 2 ^ 64)%N -> good step -> fz step <= 2 ^ 64 * scale ->
  resample_at (replicate n v) (lenN (replicate n v) - 1) step i = Some v.
Proof.
  intros Hn Hv Hi Hg Hs. unfold resample_at. cbn zeta.
  assert (Hlk : forall k, replicate n v !! N.to_nat (N.min k (lenN (replicate n v) - 1)) = Some v).
  { intros k. apply lookup_replicate. split; [done|]. unfold lenN. rewrite length_replicate. lia. }
  rewrite !Hlk. cbn [fmap option_fmap option_map mbind option_bind]. f_equal.
  destruct (f_of_i16 v) as (_ & _ & Hf & Hz & _); [unfold sample_ok in Hv; lia|].
  rewrite sub_self by done.
  destruct (zero_mul (f_of_N i * step - f_of_N (f_to_uN 64 (f_floor (f_of_N i * step))))%f64) as [s ->].
  { by apply frac_finite. }
  rewrite add_zero by done. by apply sample_through.
Qed.

Lemma step_ok last n :
  (last < 2 ^ 64)%N -> (n < 2 ^ 64)%N ->
  let step := if (1 <? n)%N then (f_of_N last / f_of_N (n - 1))%f64 else f_zero in
  good step /\ fz step <= 2 ^ 64 * scale.
Proof.
  intros Hl Hn. cbn zeta. pose proof scale_pos. destruct (N.ltb_spec 1 n); [|by split; [|cbn [fz f_zero]; lia]].
  destruct (u64_le last Hl) as (G & F & L). destruct (f_of_N_u64 (n - 1)) as (G' & F' & Hs); [lia|].
  destruct (div_bound (f_of_N last) (f_of_N (n - 1)) (f_of_N last)) as (Hg & Hle & _); try done; [apply Hs; lia|].
  split; [done|lia].
Qed.
Close Scope Z_scope.
End devices.

(** * Properties *)

(** C16: A talk over a path that delivers never drifts: whatever 16-bit samples are
    captured, frame by frame of fewer than 2^16, the gate, the codec and the framing agree end to end: a sent frame is
    played with as many 16-bit samples as were captured, a comfort-noise update
    as 160 silent samples, a suppressed frame costs nothing, no datagram is
    undecodable, and the two codec states stay equal. *)
Theorem talk_stays_in_sync (frames : list (list Z)) (Hf : Forall frame_ok frames) :
  exists s r res, talk sender_new receiver_new frames = Some (s, r, res) /\
    Forall2 plays frames res /\ codec s = rx_codec r /\ state_ok (codec s).
Proof.
  apply talk_spec; [done|done|]. split; [split|]; vm_compute; try discriminate. split; discriminate.
Qed.

Lemma talk_stays_in_sync_witness :
  let frames := [[1000; -2000; 1500]; [0; 0; 0]; [700; 900; -400]]%Z in
  exists s r res, talk sender_new receiver_new frames = Some (s, r, res) /\
    Forall2 plays frames res /\ codec s = rx_codec r /\ state_ok (codec s).
Proof.
  apply talk_stays_in_sync.
  repeat (constructor; [split; [repeat (constructor; [split; vm_compute; discriminate|]); constructor|reflexivity]|]).
  constructor.
Defined.

(** The codec has no resynchronisation: when one voice frame is lost, the
    receiver's predictor and step differ from the sender's afterwards. *)
Example loss_desynchronises :
  let frame := [3000; -3000; 3000; -3000]%Z in
  match encode adpcm_new frame with
  | Some (c1, b1) =>
      match encode c1 frame with
      | Some (c2, b2) =>
          match decode adpcm_new b2 4 with
          | Some (d, _) => bool_decide (predictor d = predictor c2) = false
          | None => False
          end
      | None => False
      end
  | None => False
  end.
Proof. vm_compute. reflexivity. Qed.

(** A constant signal, silence among them, is the same at every rate. *)
Theorem constant_resampled (n : nat) (v : Z) (from_hz to_hz : N) :
  sample_ok v -> N.of_nat n < 2 ^ 64 ->
  AudioIo.resample (replicate n v) from_hz to_hz =
    Some (replicate (N.to_nat (resampled_len (N.of_nat n) from_hz to_hz)) v).
Proof.
  intros Hv Hn. unfold AudioIo.resample, resampled_len.
  assert (El : lenN (replicate n v) = N.of_nat n) by (unfold lenN; by rewrite length_replicate). rewrite El.
  destruct (_ || _) eqn:E; [by rewrite Nat2N.id|].
  apply orb_false_iff in E as [[[E Ef]%orb_false_iff _]%orb_false_iff _]. apply N.eqb_neq in E, Ef.
  set (m := AudioIo.out_len (N.of_nat n) from_hz to_hz).
  assert (Hm : m < 2 ^ 64).
  { unfold m, AudioIo.out_len. pose proof (wrap_lt 64 (N.of_nat n * to_hz)).
    assert (wrap 64 (N.of_nat n * to_hz) / from_hz <= wrap 64 (N.of_nat n * to_hz) / 1) by (apply N.div_le_compat_l; lia).
    rewrite N.div_1_r in *. lia. }
  destruct (step_ok (N.of_nat n - 1) m) as [Hg Hs]; [lia|done|].
  set (step := if 1 <? m then _ else _) in *.
  apply mapM_Some. replace (N.to_nat m) with (length (map N.of_nat (seq 0 (N.to_nat m)))) at 2
    by (by rewrite length_map, length_seq).
  apply Forall2_replicate_r, Forall_forall; [done|]. intros i Hin.
  apply list_elem_of_In, in_map_iff in Hin as (k & <- & [_ Hk]%in_seq).
  rewrite <- El. apply resample_at_constant; [lia|done|lia|done|done].
Qed.


