(* ===== verification/FileTransfer.v ===== *)
(** File transfer over the session: [core/lowbandd/src/file_transfer.rs], on the
    resumable transfers of Resume.

    A file is its contents, [None] when it does not exist; of the I/O errors, a
    length that is not one of the system's is modelled, those of the disk (full,
    or too small for the length) are not.  BLAKE3 is the parameter
    [compute_chunk_hash]; [allocates] is whether the allocator has a buffer of a
    size, and a frame that ends the process is [None]. *)
From S2P Require Import Prelude Text Persist ChunkCache Resume.
#[local] Open Scope N_scope.

Definition FRAGMENT_LEN : N := 1024.
Definition MAX_FRAGMENTS : N := 1048576.

Inductive XferFrame :=
| Offer (name : str) (total_bytes : N) (frag_hashes : list ChunkHash) (whole_hash : ChunkHash)
| Fragment (index : N) (data : list byte)
| Complete.

Inductive XferError :=
| Io | Truncated | TooLarge | UnknownKind (k : N) | NoOffer | BadIndex | HashMismatch (index : N)
| WholeHashMismatch | Session.

Definition KIND_OFFER : N := 0x10.
Definition KIND_FRAGMENT : N := 0x11.
Definition KIND_COMPLETE : N := 0x12.

(** ** The wire *)
Definition encode (f : XferFrame) : list byte :=
  match f with
  | Offer name total_bytes frag_hashes whole_hash =>
      byte_of KIND_OFFER :: le_bytes 2 (wrap 16 (str_len name)) ++ as_bytes name
        ++ le_bytes 8 total_bytes ++ le_bytes 4 (wrap 32 (lenN frag_hashes))
        ++ concat frag_hashes ++ whole_hash
  | Fragment index data =>
      byte_of KIND_FRAGMENT :: le_bytes 4 index ++ le_bytes 2 (wrap 16 (lenN data)) ++ data
  | Complete => [byte_of KIND_COMPLETE]
  end.

Definition take_u16 (rest : list byte) : result XferError (N * list byte) :=
  '(h, t) ← ok_or Truncated (split_at_checked 2 rest); Ok (le_value h, t).

Definition take_u32 (rest : list byte) : result XferError (N * list byte) :=
  '(h, t) ← ok_or Truncated (split_at_checked 4 rest); Ok (le_value h, t).

Definition take_u64 (rest : list byte) : result XferError (N * list byte) :=
  '(h, t) ← ok_or Truncated (split_at_checked 8 rest); Ok (le_value h, t).

Definition take_hash (rest : list byte) : result XferError (ChunkHash * list byte) :=
  ok_or Truncated (split_at_checked 32 rest).

Definition take_str (rest : list byte) : result XferError (str * list byte) :=
  '(len, rest) ← take_u16 rest;
  '(h, t) ← ok_or Truncated (split_at_checked len rest);
  s ← ok_or Truncated (from_utf8 h);
  Ok (s, t).

(** [for _ in 0..count]. *)
Fixpoint take_hashes (count : nat) (rest : list byte) :
    result XferError (list ChunkHash * list byte) :=
  match count with
  | O => Ok ([], rest)
  | S count =>
      '(h, rest) ← take_hash rest;
      '(hs, rest) ← take_hashes count rest;
      Ok (h :: hs, rest)
  end.

Definition decode (buf : list byte) : result XferError XferFrame :=
  match buf with
  | [] => Err Truncated
  | kind :: rest =>
      let kind := Byte.to_N kind in
      if kind =? KIND_OFFER then
        '(name, rest) ← take_str rest;
        '(total_bytes, rest) ← take_u64 rest;
        '(count, rest) ← take_u32 rest;
        if MAX_FRAGMENTS <? count then Err TooLarge else
        '(frag_hashes, rest) ← take_hashes (N.to_nat count) rest;
        '(whole_hash, _) ← take_hash rest;
        Ok (Offer name total_bytes frag_hashes whole_hash)
      else if kind =? KIND_FRAGMENT then
        '(index, rest) ← take_u32 rest;
        '(len, rest) ← take_u16 rest;
        if FRAGMENT_LEN <? len then Err TooLarge else
        '(data, _) ← ok_or Truncated (split_at_checked len rest);
        Ok (Fragment index data)
      else if kind =? KIND_COMPLETE then Ok Complete
      else Err (UnknownKind kind)
  end.

(** ** Files *)

(** [File::set_len], of a length that is an [i64]; of another it is an error. *)
Definition set_len (f : list byte) (n : N) : list byte :=
  take (N.to_nat n) f ++ repeat Byte.x00 (N.to_nat n - length f).

(** [seek] to [off], then [write_all]; a gap after the end is filled with zeros. *)
Definition write_at (f : list byte) (off : nat) (d : list byte) : list byte :=
  take off (f ++ repeat Byte.x00 (off - length f)) ++ d ++ drop (off + length d) f.

(** [slice.chunks(FRAGMENT_LEN)]: the last one may be shorter. *)
Definition fragment_at (data : list byte) (i : nat) : list byte := take 1024 (drop (i * 1024) data).

Definition chunks (data : list byte) : list (list byte) :=
  map (fragment_at data) (seq 0 ((length data + 1023) / 1024)).

Section blake3.
Context (compute_chunk_hash : list byte -> ChunkHash) (allocates : N -> bool).

(** [Vec::with_capacity] for bytes: it panics past [isize::MAX], and aborts when
    there is no memory. *)
Definition has_capacity (n : N) : bool := (n <=? 2 ^ 63 - 1) && allocates n.

(** ** The sender *)

(** The frames [send_file] puts on the session; [file_name] is the name of the
    path when it is valid Unicode. *)
Definition offer_of (file_name : option str) (data : list byte) : XferFrame :=
  Offer (default [0x66; 0x69; 0x6c; 0x65] file_name) (lenN data)
    (map compute_chunk_hash (chunks data)) (compute_chunk_hash data).

Definition send_file (file_name : option str) (data : list byte) : list XferFrame :=
  offer_of file_name data
    :: imap (fun i frag => Fragment (wrap 32 (N.of_nat i)) frag) (chunks data) ++ [Complete].

(** ** The receiver *)
Inductive Progress :=
| Started (remaining : N)
| Written (delivered total : N)
| Duplicate
| Finished
| Incomplete (remaining : N).

Record Active := mkActive {
  transfer : ResumableTransfer;
  frag_hashes : list ChunkHash;
  whole_hash : ChunkHash;
  active_total : N }.

(** The receiver with the contents of its two files. *)
Record FileReceiver := mkFileReceiver {
  dst : option (list byte);
  sidecar : option (list byte);
  state : option Active }.

Definition receiver_new (dst sidecar : option (list byte)) : FileReceiver :=
  {| dst := dst; sidecar := sidecar; state := None |}.

Definition apply (r : FileReceiver) (frame : XferFrame) : option (FileReceiver * result XferError Progress) :=
  match frame with
  | Offer _ total hashes whole =>
      let '(t, _) := open_transfer (sidecar r) {| chunk_ids := hashes; total_bytes := total |} in
      if 2 ^ 63 <=? total then
        Some ({| dst := Some (default [] (dst r)); sidecar := Some (rfile t); state := state r |}, Err Io)
      else
      Some ({| dst := Some (set_len (default [] (dst r)) total);
               sidecar := Some (rfile t);
               state := Some {| transfer := t; frag_hashes := hashes; whole_hash := whole;
                                active_total := total |} |},
            Ok (Started (lenN (remaining t))))
  | Fragment index data =>
      match state r with
      | None => Some (r, Err NoOffer)
      | Some st =>
          if lenN (frag_hashes st) <=? index then Some (r, Err BadIndex)
          else if negb (existsb (N.eqb index) (remaining (transfer st))) then Some (r, Ok Duplicate)
          else if negb (bool_decide (Some (compute_chunk_hash data) = frag_hashes st !! N.to_nat index))
          then Some (r, Err (HashMismatch index))
          else
            let t := mark_delivered (transfer st) index in
            Some ({| dst := Some (write_at (default [] (dst r)) (N.to_nat (index * FRAGMENT_LEN)) data);
                     sidecar := Some (rfile t);
                     state := Some {| transfer := t; frag_hashes := frag_hashes st;
                                      whole_hash := whole_hash st; active_total := active_total st |} |},
                  Ok (Written (delivered_count t) (lenN (frag_hashes st))))
      end
  | Complete =>
      match state r with
      | None => Some (r, Err NoOffer)
      | Some st =>
          if negb (is_complete (transfer st))
          then Some (r, Ok (Incomplete (lenN (remaining (transfer st)))))
          else if negb (has_capacity (active_total st)) then None
          else if negb (bool_decide (compute_chunk_hash (default [] (dst r)) = whole_hash st))
          then Some (r, Err WholeHashMismatch)
          else
            Some match finish (transfer st) with
                 | Ok f => ({| dst := dst r; sidecar := f; state := None |}, Ok Finished)
                 | Err _ => ({| dst := dst r; sidecar := sidecar r; state := None |}, Err Io)
                 end
      end
  end.

(** A datagram's plaintext, as the router hands it on. *)
Definition receive (r : FileReceiver) (buf : list byte) : option (FileReceiver * result XferError Progress) :=
  match decode buf with
  | Ok frame => apply r frame
  | Err e => Some (r, Err e)
  end.

Fixpoint receive_all (r : FileReceiver) (bufs : list (list byte)) : option FileReceiver :=
  match bufs with
  | [] => Some r
  | b :: bufs => '(r, _) ← receive r b; receive_all r bufs
  end.

(** ** What can happen to a transfer

    While the sender's datagrams travel, the receiver may also get anything else
    on the channel, and its process may die: between two frames or in the middle
    of writing a fragment to the destination ([Crash]), or while it appends the
    fragment's record to the state file ([CrashRecording], with the bytes of the
    record that reached the disk).  It then starts again and is offered the file
    again. *)
Inductive Event :=
| Packet (index : nat)
| Noise (buf : list byte)
| Crash (index written : nat)
| CrashRecording (index written : nat).

Definition restart (r : FileReceiver) : FileReceiver := receiver_new (dst r) (sidecar r).

(** A write of fragment [i] that reached the disk up to [k] bytes only. *)
Definition torn (data : list byte) (i k : nat) (r : FileReceiver) : FileReceiver :=
  {| dst := (fun f => write_at f (i * 1024) (take k (fragment_at data i))) <$> dst r;
     sidecar := sidecar r; state := state r |}.

(** The state file with [k] bytes of what [r'] has appended to that of [r]. *)
Definition torn_record (k : nat) (r r' : FileReceiver) : FileReceiver :=
  {| dst := dst r'; sidecar := take (length (default [] (sidecar r)) + k) <$> sidecar r'; state := state r' |}.

Definition packet (data : list byte) (i : nat) : list byte :=
  encode (Fragment (N.of_nat i) (fragment_at data i)).

Definition step (file_name : option str) (data : list byte) (r : FileReceiver) (e : Event) :
    option FileReceiver :=
  match e with
  | Packet i => fst <$> receive r (packet data i)
  | Noise buf => fst <$> receive r buf
  | Crash i k => fst <$> receive (restart (torn data i k r)) (encode (offer_of file_name data))
  | CrashRecording i k =>
      '(r', _) ← receive r (packet data i);
      fst <$> receive (restart (torn_record k r r')) (encode (offer_of file_name data))
  end.

Fixpoint run (file_name : option str) (data : list byte) (r : FileReceiver) (es : list Event) :
    option FileReceiver :=
  match es with
  | [] => Some r
  | e :: es => r ← step file_name data r e; run file_name data r es
  end.

(** From the first offer. *)
Definition transfer_from (file_name : option str) (data : list byte) (before : option (list byte)) (es : list Event) :
    option FileReceiver :=
  '(r, _) ← receive (receiver_new before None) (encode (offer_of file_name data));
  run file_name data r es.

(** Runs of the process on the files the last one left, each with its datagrams. *)
Fixpoint runs (file_name : option str) (data : list byte) (r : FileReceiver) (ds : list (list (list byte))) :
    option FileReceiver :=
  match ds with
  | [] => Some r
  | bufs :: ds =>
      '(r, _) ← receive (restart r) (encode (offer_of file_name data));
      r ← receive_all r bufs;
      runs file_name data r ds
  end.

(** What arrives besides the sender's frames is not a frame, or a fragment whose
    bytes do not have the offered hash. *)
Definition detected (data : list byte) (buf : list byte) : Prop :=
  match decode buf with
  | Err _ => True
  | Ok (Fragment i d) =>
      Some (compute_chunk_hash d) <> map compute_chunk_hash (chunks data) !! N.to_nat i
  | Ok _ => False
  end.

Definition event_ok (data : list byte) (e : Event) : Prop :=
  match e with
  | Packet i => (i < length (chunks data))%nat
  | Noise buf => detected data buf
  | Crash i k => (i < length (chunks data))%nat
  | CrashRecording i k => (i < length (chunks data))%nat /\ (k = 0 \/ 4 <= k)%nat
  end.

(** The fragments that arrived, and were recorded. *)
Definition arrived (es : list Event) : list N :=
  omap (fun e => match e with
    | Packet i => Some (N.of_nat i)
    | CrashRecording i k => if (4 <=? k)%nat then Some (N.of_nat i) else None
    | _ => None
    end) es.

(** Any datagram but the offer of another file. *)
Definition same_offer (data : list byte) (buf : list byte) : Prop :=
  match decode buf with
  | Ok (Offer _ total hashes whole) =>
      total = lenN data /\ hashes = map compute_chunk_hash (chunks data) /\ whole = compute_chunk_hash data
  | _ => True
  end.

Definition sendable (file_name : option str) (data : list byte) : Prop :=
  str_ok (default [0x66; 0x69; 0x6c; 0x65] file_name) /\
  str_len (default [0x66; 0x69; 0x6c; 0x65] file_name) < 2 ^ 16 /\ lenN data <= 2 ^ 30.
End blake3.

Definition frame_fits (f : XferFrame) : Prop :=
  match f with
  | Offer name total hashes whole =>
      str_ok name /\ str_len name < 2 ^ 16 /\ total < 2 ^ 64 /\ lenN hashes <= MAX_FRAGMENTS /\
      Forall (fun h => lenN h = 32) (whole :: hashes)
  | Fragment index data => index < 2 ^ 32 /\ lenN data <= FRAGMENT_LEN
  | Complete => True
  end.

(** ** Lemmas *)
#[local] Arguments le_bytes : simpl never.
#[local] Arguments byte_of : simpl never.

Section wire.
Implicit Types (buf rest l : list byte).

Lemma take_int_bytes k v rest :
  v < 256 ^ N.of_nat k ->
  ('(h, t) ← ok_or Truncated (split_at_checked (N.of_nat k) (le_bytes k v ++ rest)); Ok (le_value h, t))
    = Ok (v, rest).
Proof.
  intros Hv. rewrite split_at_checked_app by (by rewrite lenN_le_bytes). cbn.
  by rewrite le_value_bytes_small.
Qed.

Lemma take_u16_bytes v rest : v < 2 ^ 16 -> take_u16 (le_bytes 2 v ++ rest) = Ok (v, rest).
Proof. apply (take_int_bytes 2). Qed.

Lemma take_u32_bytes v rest : v < 2 ^ 32 -> take_u32 (le_bytes 4 v ++ rest) = Ok (v, rest).
Proof. apply (take_int_bytes 4). Qed.

Lemma take_u64_bytes v rest : v < 2 ^ 64 -> take_u64 (le_bytes 8 v ++ rest) = Ok (v, rest).
Proof. apply (take_int_bytes 8). Qed.

Lemma take_str_bytes name rest :
  str_ok name -> str_len name < 2 ^ 16 ->
  take_str (le_bytes 2 (str_len name) ++ as_bytes name ++ rest) = Ok (name, rest).
Proof.
  intros Hok Hl. unfold take_str. rewrite take_u16_bytes by done. cbn [mbind result_bind].
  rewrite split_at_checked_app by done. cbn. by rewrite from_utf8_as_bytes.
Qed.

Lemma take_hashes_concat hs rest :
  Forall (fun h => lenN h = 32) hs -> take_hashes (length hs) (concat hs ++ rest) = Ok (hs, rest).
Proof.
  induction 1 as [|h hs Hh _ IH]; [done|]. cbn [length take_hashes concat]. unfold take_hash.
  rewrite <- app_assoc, split_at_checked_app by done. cbn. by rewrite IH.
Qed.

Lemma split_all l n : lenN l = n -> split_at_checked n l = Some (l, []).
Proof. intros <-. rewrite <- (app_nil_r l) at 2. by apply split_at_checked_app. Qed.

Lemma xfer_decode_encode f : frame_fits f -> decode (encode f) = Ok f.
Proof.
  destruct f as [name total hs whole|index data|]; cbn [frame_fits encode].
  - intros (Hok & Hn & Ht & Hc & [Hw Hh]%Forall_cons). unfold MAX_FRAGMENTS in Hc.
    unfold decode. rewrite to_N_byte_of. cbn -[take_str take_u64 take_u32 take_hashes take_hash app].
    rewrite wrap_small, take_str_bytes by done. cbn [mbind result_bind].
    rewrite take_u64_bytes by done. cbn [mbind result_bind].
    rewrite wrap_small, take_u32_bytes by lia. cbn [mbind result_bind].
    rewrite (proj2 (N.ltb_ge _ _)) by done. rewrite to_nat_lenN, take_hashes_concat by done.
    cbn [mbind result_bind]. unfold take_hash. by rewrite split_all.
  - intros [Hi Hd]. unfold FRAGMENT_LEN in Hd. unfold decode. rewrite to_N_byte_of.
    cbn -[take_u32 take_u16 app].
    rewrite take_u32_bytes by done. cbn [mbind result_bind].
    rewrite wrap_small, take_u16_bytes by lia. cbn [mbind result_bind].
    rewrite (proj2 (N.ltb_ge _ _)) by done. by rewrite split_all.
  - done.
Qed.
End wire.

Section files.
Implicit Types (f d data : list byte).
Local Open Scope nat_scope.

Lemma set_len_id f : set_len f (lenN f) = f.
Proof.
  unfold set_len. rewrite to_nat_lenN, Nat.sub_diag, take_ge by lia. cbn. apply app_nil_r.
Qed.

Lemma set_len_length f n : length (set_len f n) = N.to_nat n.
Proof. unfold set_len. rewrite length_app, length_take, repeat_length. lia. Qed.

Lemma write_at_length f off d : off + length d <= length f -> length (write_at f off d) = length f.
Proof.
  intros Hl. unfold write_at. rewrite !length_app, length_take, length_app, repeat_length, length_drop. lia.
Qed.

Lemma write_at_lookup f off d x :
  off + length d <= length f ->
  write_at f off d !! x = if decide (off <= x < off + length d) then d !! (x - off) else f !! x.
Proof.
  intros Hl. unfold write_at. replace (off - length f) with 0 by lia. cbn. rewrite app_nil_r.
  assert (Ht : length (take off f) = off) by (rewrite length_take; lia).
  case_decide as Hx.
  - rewrite lookup_app_r, Ht by lia. apply lookup_app_l. lia.
  - destruct (decide (x < off)).
    + rewrite lookup_app_l, lookup_take_lt by lia. done.
    + rewrite lookup_app_r, Ht, lookup_app_r, lookup_drop by lia. f_equal. lia.
Qed.

Lemma chunks_length data : length (chunks data) = (length data + 1023) / 1024.
Proof. unfold chunks. by rewrite length_map, length_seq. Qed.

Lemma chunks_lookup data i : i < length (chunks data) -> chunks data !! i = Some (fragment_at data i).
Proof.
  intros Hi. unfold chunks in *. rewrite length_map in Hi.
  rewrite list_lookup_fmap, lookup_seq_lt by (by rewrite length_seq in Hi). done.
Qed.

Lemma fragment_bound data i :
  i < length (chunks data) -> i * 1024 + length (fragment_at data i) <= length data.
Proof.
  rewrite chunks_length. intros Hi. unfold fragment_at. rewrite length_take, length_drop.
  pose proof (Nat.Div0.div_mod (length data + 1023) 1024).
  pose proof (Nat.mod_upper_bound (length data + 1023) 1024). lia.
Qed.

Lemma fragment_small data i : length (fragment_at data i) <= 1024.
Proof. unfold fragment_at. rewrite length_take. lia. Qed.

Lemma position_chunk data x : x < length data -> x / 1024 < length (chunks data).
Proof.
  intros Hx. rewrite chunks_length. pose proof (Nat.Div0.div_mod x 1024).
  pose proof (Nat.Div0.div_mod (length data + 1023) 1024).
  pose proof (Nat.mod_upper_bound (length data + 1023) 1024). nia.
Qed.

(** Writing bytes of the file where they belong keeps what is already right, and
    a whole fragment makes its bytes right. *)
Lemma write_fragment f data i k x :
  length f = length data -> i < length (chunks data) ->
  let f' := write_at f (i * 1024) (take k (fragment_at data i)) in
  (f !! x = data !! x -> f' !! x = data !! x) /\
  (1024 <= k -> x < length data -> x / 1024 = i -> f' !! x = data !! x).
Proof.
  intros Hf Hi f'. unfold f'. pose proof (fragment_bound data i Hi). pose proof (fragment_small data i).
  rewrite write_at_lookup by (rewrite length_take; lia).
  assert (Hin : forall y, y < length (take k (fragment_at data i)) ->
    take k (fragment_at data i) !! y = data !! (i * 1024 + y)).
  { intros y Hy. rewrite length_take in Hy. rewrite lookup_take_lt by lia. unfold fragment_at.
    rewrite lookup_take_lt, lookup_drop by lia. done. }
  case_decide as Hx.
  { rewrite Hin by lia. replace (i * 1024 + (x - i * 1024)) with x by lia. done. }
  split; [done|]. intros Hk Hxl Hxi. exfalso. apply Hx. rewrite length_take.
  pose proof (Nat.Div0.div_mod x 1024). pose proof (Nat.mod_upper_bound x 1024).
  unfold fragment_at. rewrite length_take, length_drop. lia.
Qed.
End files.

Section transfers.
Context (compute_chunk_hash : list byte -> ChunkHash) (allocates : N -> bool).
Context (hash_length : forall l, lenN (compute_chunk_hash l) = 32).
Context (file_name : option str) (data : list byte) (Hs : sendable file_name data).

Abbreviation hashes := (map compute_chunk_hash (chunks data)).
Abbreviation offered := {| chunk_ids := hashes; total_bytes := lenN data |}.
Abbreviation count := (lenN (chunks data)).

Lemma count_small : count <= 2 ^ 20.
Proof.
  destruct Hs as (_ & _ & Hl). unfold lenN in *. rewrite chunks_length.
  pose proof (Nat.Div0.div_mod (length data + 1023) 1024).
  pose proof (Nat.mod_upper_bound (length data + 1023) 1024). lia.
Qed.

Lemma data_small : (2 ^ 63 <=? lenN data) = false.
Proof. destruct Hs as (_ & _ & Hl). apply N.leb_gt. lia. Qed.

Lemma hashes_ok : Forall (fun h => lenN h = 32) hashes.
Proof. apply Forall_map, Forall_forall. intros l _. apply hash_length. Qed.

Lemma hashes_count : lenN hashes = count.
Proof. unfold lenN. by rewrite length_map. Qed.

Lemma offered_ok : manifest_ok offered.
Proof.
  pose proof count_small. destruct Hs as (_ & _ & Hl). split; [apply hashes_ok|].
  unfold chunk_count. cbn [chunk_ids total_bytes]. rewrite hashes_count. lia.
Qed.

Lemma offer_decodes : decode (encode (offer_of compute_chunk_hash file_name data)) =
  Ok (offer_of compute_chunk_hash file_name data).
Proof.
  pose proof count_small. destruct Hs as (Hn & Hl & Hd). apply xfer_decode_encode. cbn [frame_fits offer_of].
  split; [done|]. split; [done|]. split; [lia|]. rewrite hashes_count. split; [exact H|].
  apply Forall_cons. split; [apply hash_length|apply hashes_ok].
Qed.

Lemma packet_decodes i : (i < length (chunks data))%nat ->
  decode (packet data i) = Ok (Fragment (N.of_nat i) (fragment_at data i)).
Proof.
  intros Hi. pose proof count_small. apply xfer_decode_encode. cbn [frame_fits]. unfold lenN in *.
  pose proof (fragment_small data i). unfold FRAGMENT_LEN. lia.
Qed.

Lemma remaining_has t i :
  transfer_ok t -> manifest t = offered ->
  existsb (N.eqb i) (remaining t) = bool_decide (i < count /\ i ∉ delivered t).
Proof.
  intros Ht Hm. pose proof count_small. apply Bool.eq_iff_eq_true.
  rewrite existsb_exists, bool_decide_eq_true. unfold remaining, chunk_count. rewrite Hm.
  cbn [chunk_ids]. rewrite hashes_count. split.
  - intros (j & Hj%list_elem_of_In & ->%N.eqb_eq). apply list_elem_of_filter in Hj as [Hn Hj%elem_of_range].
    rewrite wrap_small in Hn by lia. done.
  - intros [Hi Hn]. exists i. split; [|apply N.eqb_refl]. apply list_elem_of_In, list_elem_of_filter.
    rewrite elem_of_range, wrap_small by lia. done.
Qed.

(** What the receiver's memory and files hold once the file was offered. *)
Record on_track (r : FileReceiver) (t : ResumableTransfer) (got : list N) : Prop := {
  track_state : state r = Some {| transfer := t; frag_hashes := hashes;
    whole_hash := compute_chunk_hash data; active_total := lenN data |};
  track_sidecar : sidecar r = Some (rfile t);
  track_transfer : transfer_ok t /\ manifest t = offered;
  track_got : forall i, i ∈ delivered t <-> i ∈ got;
  track_dst : exists f, dst r = Some f /\ length f = length data /\
    forall x, (x < length data)%nat -> N.of_nat (x / 1024) ∈ delivered t -> f !! x = data !! x }.

Lemma track_more r t got got' :
  on_track r t got -> (forall i, i ∈ got <-> i ∈ got') -> on_track r t got'.
Proof. intros [? ? ? Hg ?] He. split; [done|done|done| |done]. intros i. by rewrite Hg. Qed.

#[local] Abbreviation offer := (encode (offer_of compute_chunk_hash file_name data)).
#[local] Abbreviation receive := (receive compute_chunk_hash allocates).
#[local] Abbreviation apply := (apply compute_chunk_hash allocates).

Lemma first_offer d : exists r x t, receive (receiver_new d None) offer = Some (r, x) /\ on_track r t [].
Proof.
  unfold FileTransfer.receive. rewrite offer_decodes. unfold offer_of, FileTransfer.apply.
  cbn [sidecar dst receiver_new]. rewrite data_small. cbn. eexists _, _, {| manifest := offered; delivered := ∅; rfile := header offered |}.
  split; [reflexivity|]. split; cbn.
  - done.
  - done.
  - split; [apply fresh_ok, offered_ok|done].
  - set_solver.
  - eexists. split; [done|]. rewrite set_len_length. unfold lenN. split; [lia|]. set_solver.
Qed.

(** The offer made again to files in which what is recorded is right. *)
Lemma reoffer f t got :
  length f = length data -> transfer_ok t -> manifest t = offered -> (forall i, i ∈ delivered t <-> i ∈ got) ->
  (forall x, (x < length data)%nat -> N.of_nat (x / 1024) ∈ delivered t -> f !! x = data !! x) ->
  exists r x, receive (receiver_new (Some f) (Some (rfile t))) offer = Some (r, x) /\ on_track r t got /\
    dst r = Some f.
Proof.
  intros Hl Ht Hm Hg Hx. unfold FileTransfer.receive. rewrite offer_decodes.
  unfold offer_of, FileTransfer.apply. cbn [sidecar dst receiver_new]. rewrite <- Hm, reopen_ok, data_small by done.
  assert (He : set_len f (lenN data) = f) by (rewrite <- (set_len_id f) at 2; unfold lenN; by rewrite Hl).
  change (default [] (Some f)) with f. rewrite He.
  eexists _, _. split; [reflexivity|]. split; [|done]. split; cbn; [done|done|done|done|]. by exists f.
Qed.

Lemma torn_right r t got i k :
  on_track r t got -> (i < length (chunks data))%nat ->
  exists f, dst (torn data i k r) = Some f /\ length f = length data /\
    forall x, (x < length data)%nat -> N.of_nat (x / 1024) ∈ delivered t -> f !! x = data !! x.
Proof.
  intros [_ _ _ _ (f & Hf & Hl & Hx)] Hi. unfold torn. cbn [dst]. rewrite Hf. eexists. split; [reflexivity|].
  pose proof (fragment_bound data i Hi). split.
  - rewrite write_at_length; [done|]. rewrite length_take. lia.
  - intros x Hxl Hd. pose proof (write_fragment f data i k x Hl Hi) as [Hw' _]. by apply Hw', Hx.
Qed.

Lemma reoffer_torn r t got i k :
  on_track r t got -> (i < length (chunks data))%nat ->
  exists r' x, receive (restart (torn data i k r)) offer = Some (r', x) /\ on_track r' t got.
Proof.
  intros Htr Hi. destruct (torn_right r t got i k Htr Hi) as (f & Hf & Hl & Hx).
  destruct Htr as [_ Hsc [Ht Hm] Hg _]. unfold restart. rewrite Hf. cbn [torn sidecar]. rewrite Hsc.
  destruct (reoffer f t got Hl Ht Hm Hg Hx) as (r' & x & Hr & Htr' & _). by exists r', x.
Qed.

(** A fragment: already there, refused, or written and recorded. *)
Lemma fragment_applied r t got i d :
  on_track r t got -> i < count ->
  apply r (Fragment i d) =
    Some (if bool_decide (i ∈ got) then (r, Ok Duplicate)
    else if negb (bool_decide (Some (compute_chunk_hash d) = hashes !! N.to_nat i))
    then (r, Err (HashMismatch i))
    else ({| dst := Some (write_at (default [] (dst r)) (N.to_nat (i * FRAGMENT_LEN)) d);
             sidecar := Some (rfile (mark_delivered t i));
             state := Some {| transfer := mark_delivered t i; frag_hashes := hashes;
               whole_hash := compute_chunk_hash data; active_total := lenN data |} |},
          Ok (Written (delivered_count (mark_delivered t i)) count))).
Proof.
  intros [Hst _ [Ht Hm] Hg _] Hi. unfold FileTransfer.apply. rewrite Hst. cbn [frag_hashes transfer whole_hash active_total].
  rewrite hashes_count, (proj2 (N.leb_gt _ _)), remaining_has by done.
  destruct (decide (i ∈ got)) as [Hd|Hd].
  - rewrite (bool_decide_true (i ∈ got)), bool_decide_false by (done || rewrite Hg; tauto). done.
  - rewrite (bool_decide_false (i ∈ got)), bool_decide_true by (done || rewrite Hg; tauto).
    by destruct (bool_decide (Some (compute_chunk_hash d) = hashes !! N.to_nat i)).
Qed.

(** One of the sender's fragments: the destination is as after its write, and the
    state file has its record, unless it had it before. *)
Lemma track_written r t got i :
  on_track r t got -> (i < length (chunks data))%nat ->
  exists r' x t', apply r (Fragment (N.of_nat i) (fragment_at data i)) = Some (r', x) /\
    on_track r' t' (N.of_nat i :: got) /\
    ((r' = r /\ t' = t) \/ (dst r' = dst (torn data i 1024 r) /\ rfile t' = rfile t ++ le_bytes 4 (N.of_nat i))).
Proof.
  intros Htr Hi. assert (Hic : N.of_nat i < count) by (unfold lenN; lia).
  rewrite (fragment_applied r t got) by done. case_bool_decide as Hd.
  { exists r, (Ok Duplicate), t. split; [done|]. split; [|by left]. eapply track_more; [exact Htr|]. set_solver. }
  rewrite Nat2N.id, list_lookup_fmap, chunks_lookup, bool_decide_true by done. cbn [negb].
  eexists _, _, (mark_delivered t (N.of_nat i)). split; [reflexivity|].
  destruct (torn_right r t got i 1024 Htr Hi) as (f' & Hf' & Hl' & Hx').
  destruct Htr as [Hst Hsc [Ht Hm] Hg (f & Hf & Hl & Hx)].
  destruct (mark_ok t (N.of_nat i) Ht) as (H1 & H2 & H3).
  unfold chunk_count in H3. rewrite Hm in H3. cbn [chunk_ids] in H3.
  rewrite hashes_count, (proj2 (N.ltb_lt _ _)) in H3 by done.
  assert (Hdst : Some (write_at (default [] (dst r)) (N.to_nat (N.of_nat i * FRAGMENT_LEN)) (fragment_at data i)) =
    dst (torn data i 1024 r)).
  { unfold torn. cbn [dst]. rewrite Hf. cbn [fmap option_fmap option_map default from_option id].
    pose proof (fragment_small data i). rewrite (take_ge (fragment_at data i)) by lia. do 2 f_equal. unfold FRAGMENT_LEN. lia. }
  rewrite Hdst. split; [split; cbn [state sidecar dst]|].
  - done.
  - done.
  - split; [done|congruence].
  - intros j. rewrite H3, elem_of_union, elem_of_singleton, Hg, elem_of_cons. done.
  - exists f'. split; [done|]. split; [done|]. intros y Hy Hd'.
    rewrite H3, elem_of_union, elem_of_singleton in Hd'. destruct Hd' as [Hyi|Hyd]; [|by apply Hx'].
    unfold torn in Hf'. cbn [dst] in Hf'. rewrite Hf in Hf'. injection Hf' as <-.
    pose proof (write_fragment f data i 1024 y Hl Hi) as [_ Hw]. apply Hw; [lia|done|by apply Nat2N.inj].
  - right. cbn [dst]. split; [done|]. pose proof count_small. unfold mark_delivered, chunk_count. rewrite Hm. cbn [chunk_ids].
    rewrite hashes_count, (proj2 (N.leb_gt _ _)), wrap_small by lia.
    rewrite bool_decide_false; [done|]. by rewrite Hg.
Qed.

(** The process dies around the record of a fragment. *)
Lemma reoffer_recorded r t got i k :
  on_track r t got -> (i < length (chunks data))%nat -> (k = 0 \/ 4 <= k)%nat ->
  exists r' x r'' y t', apply r (Fragment (N.of_nat i) (fragment_at data i)) = Some (r', x) /\
    receive (restart (torn_record k r r')) offer = Some (r'', y) /\
    on_track r'' t' (if (4 <=? k)%nat then N.of_nat i :: got else got).
Proof.
  intros Htr Hi Hk. destruct (track_written r t got i Htr Hi) as (r' & x & t' & Ha & Htr' & Hcase).
  exists r', x. pose proof (track_sidecar _ _ _ Htr) as Hsc. pose proof (track_sidecar _ _ _ Htr') as Hsc'.
  assert (Hre : forall t0 got0 f, take (length (rfile t) + k) (rfile t') = rfile t0 -> dst r' = Some f ->
    length f = length data -> transfer_ok t0 -> manifest t0 = offered -> (forall j, j ∈ delivered t0 <-> j ∈ got0) ->
    (forall y, (y < length data)%nat -> N.of_nat (y / 1024) ∈ delivered t0 -> f !! y = data !! y) ->
    exists r'' y, receive (restart (torn_record k r r')) offer = Some (r'', y) /\ on_track r'' t0 got0).
  { intros t0 got0 f Hrf Hd Hl H1 H2 H3 H4. unfold restart, torn_record. cbn [dst sidecar].
    rewrite Hd, Hsc, Hsc'. cbn [fmap option_fmap option_map default from_option id]. rewrite Hrf.
    destruct (reoffer f t0 got0 Hl H1 H2 H3 H4) as (r'' & y & Hr & Ho & _). by exists r'', y. }
  assert (Hwhole : (4 <= k)%nat -> take (length (rfile t) + k) (rfile t') = rfile t').
  { intros H4. apply take_ge. destruct Hcase as [[_ ->]|[_ ->]]; [lia|]. rewrite length_app, le_bytes_length. lia. }
  destruct (Nat.leb_spec 4 k) as [H4|H4].
  - destruct Htr' as [_ _ [K1 K2] K3 (f & Hf & Hl & Hx)].
    destruct (Hre t' _ f (Hwhole H4) Hf Hl K1 K2 K3 Hx) as (r'' & y & Hr & Ho). by exists r'', y, t'.
  - assert (k = 0%nat) as Hk0 by lia. assert (Hcut : take (length (rfile t) + k) (rfile t') = rfile t).
    { rewrite Hk0, Nat.add_0_r. destruct Hcase as [[_ ->]|[_ ->]]; [by apply take_ge|].
      rewrite take_app_le by done. by apply take_ge. }
    assert (Hdst : exists f, dst r' = Some f /\ length f = length data /\
      forall y, (y < length data)%nat -> N.of_nat (y / 1024) ∈ delivered t -> f !! y = data !! y).
    { destruct Hcase as [[-> _]|[-> _]]; [by destruct Htr|by eapply torn_right]. }
    destruct Hdst as (f & Hf & Hl & Hx). destruct Htr as [_ _ [K1 K2] K3 _].
    destruct (Hre t got f Hcut Hf Hl K1 K2 K3 Hx) as (r'' & y & Hr & Ho). by exists r'', y, t.
Qed.

#[local] Abbreviation step := (step compute_chunk_hash allocates file_name data).
#[local] Abbreviation run := (run compute_chunk_hash allocates file_name data).

Lemma track_step r t got e :
  on_track r t got -> event_ok compute_chunk_hash data e ->
  exists r' t', step r e = Some r' /\ on_track r' t' (arrived [e] ++ got).
Proof.
  intros Htr He. destruct e as [i|buf|i k|i k]; cbn [FileTransfer.step event_ok arrived omap list_omap app] in *.
  - unfold FileTransfer.receive. rewrite packet_decodes by done.
    destruct (track_written r t got i Htr He) as (r' & x & t' & Ha & Ht' & _). rewrite Ha. by exists r', t'.
  - exists r, t. split; [|done]. unfold detected in He. unfold FileTransfer.receive. destruct (decode buf) as [f|err]; [|done].
    destruct f as [| j d|]; [done| |done]. destruct (decide (j < count)) as [Hj|Hj].
    + rewrite (fragment_applied r t got) by done. case_bool_decide; [done|]. by rewrite bool_decide_false.
    + pose proof (track_state _ _ _ Htr) as Hst. unfold FileTransfer.apply. rewrite Hst. cbn [frag_hashes].
      rewrite hashes_count, (proj2 (N.leb_le _ _)) by lia. done.
  - destruct (reoffer_torn r t got i k Htr He) as (r' & x & Hr & Ho). rewrite Hr. by exists r', t.
  - destruct He as [Hi Hk]. destruct (reoffer_recorded r t got i k Htr Hi Hk) as (r' & x & r'' & y & t' & Ha & Hr & Ho).
    assert (Hp : receive r (packet data i) = Some (r', x)) by (unfold FileTransfer.receive; by rewrite packet_decodes).
    rewrite Hp. cbn [mbind option_bind]. rewrite Hr.
    exists r'', t'. split; [done|]. by destruct (4 <=? k)%nat.
Qed.

Lemma track_run es r t got :
  on_track r t got -> Forall (event_ok compute_chunk_hash data) es ->
  exists r' t' got', run r es = Some r' /\ on_track r' t' got' /\
    forall i, i ∈ got' <-> i ∈ got \/ i ∈ arrived es.
Proof.
  intros Htr Hes. revert r t got Htr. induction Hes as [|e es He _ IH]; intros r t got Htr; cbn [FileTransfer.run].
  { exists r, t, got. split; [done|]. split; [done|]. cbn. set_solver. }
  destruct (track_step r t got e Htr He) as (r1 & t1 & Hs1 & H1). rewrite Hs1. cbn [mbind option_bind].
  destruct (IH _ _ _ H1) as (r' & t' & got' & Hr & Ht' & Hg).
  exists r', t', got'. split; [done|]. split; [done|]. intros i. rewrite Hg. unfold arrived. rewrite elem_of_app.
  change (omap ?f (e :: es)) with (omap f ([e] ++ es)). rewrite omap_app, elem_of_app. tauto.
Qed.

(** What [Complete] finds. *)
Lemma track_complete r t got :
  on_track r t got -> has_capacity allocates (lenN data) = true ->
  apply r Complete =
    Some (if bool_decide (filter (fun i => i ∉ got) (range count) = [])
    then ({| dst := Some data; sidecar := None; state := None |}, Ok Finished)
    else (r, Ok (Incomplete (lenN (filter (fun i => i ∉ got) (range count)))))).
Proof.
  intros [Hst Hsc [Ht Hm] Hg (f & Hf & Hl & Hx)] Hcap. pose proof count_small.
  assert (Hr : remaining t = filter (fun i => i ∉ got) (range count)).
  { unfold remaining, chunk_count. rewrite Hm. cbn [chunk_ids]. rewrite hashes_count.
    apply filter_ext. intros i Hi%elem_of_range. rewrite wrap_small by lia. by rewrite Hg. }
  assert (Hc : is_complete t = bool_decide (remaining t = [])).
  { apply Bool.eq_iff_eq_true. rewrite complete_spec, bool_decide_eq_true by done. unfold chunk_count.
    rewrite Hm. cbn [chunk_ids]. rewrite hashes_count, Hr. split.
    - intros Hall. apply elem_of_nil_inv. intros i. rewrite list_elem_of_filter, elem_of_range.
      intros [Hn Hi]. by apply Hn, Hg, Hall.
    - intros Hnil i Hi. apply Hg. destruct (decide (i ∈ got)) as [|Hn]; [done|].
      assert (Hin : i ∈ filter (fun i => i ∉ got) (range count))
        by (rewrite list_elem_of_filter, elem_of_range; done).
      rewrite Hnil in Hin. by apply not_elem_of_nil in Hin. }
  unfold FileTransfer.apply. rewrite Hst. cbn [transfer whole_hash active_total]. rewrite Hc, Hr.
  destruct (decide (filter (fun i => i ∉ got) (range count) = [])) as [Hn|Hn];
    [rewrite !(bool_decide_true _ Hn)|by rewrite !(bool_decide_false _ Hn)].
  rewrite Hcap. cbn [negb]. rewrite Hf. change (default [] (Some f)) with f.
  assert (Hfd : f = data).
  { apply list_eq. intros x. destruct (decide (x < length data)%nat) as [Hlt|Hlt].
    - apply Hx; [done|]. rewrite Hr, bool_decide_true in Hc by done.
      rewrite complete_spec in Hc by done. apply Hc. unfold chunk_count. rewrite Hm. cbn [chunk_ids].
      rewrite hashes_count. pose proof (position_chunk data x Hlt). unfold lenN. lia.
    - rewrite !lookup_ge_None_2 by lia. done. }
  subst f. rewrite bool_decide_true by done. cbn [negb]. unfold finish. by rewrite Hc, Hr, bool_decide_true.
Qed.
Lemma sendable_capacity : allocates (lenN data) = true -> has_capacity allocates (lenN data) = true.
Proof. intros Ha. destruct Hs as (_ & _ & Hl). unfold has_capacity. rewrite Ha, (proj2 (N.leb_le _ _)) by lia. done. Qed.

(** A transfer that is recorded whole, on a file that is not the sender's. *)
Definition lost (t : ResumableTransfer) (f : list byte) : FileReceiver :=
  {| dst := Some f; sidecar := Some (rfile t);
     state := Some {| transfer := t; frag_hashes := hashes; whole_hash := compute_chunk_hash data;
                      active_total := lenN data |} |}.

Section lost.
Context (t : ResumableTransfer) (f : list byte).
Context (Ht : transfer_ok t) (Hm : manifest t = offered) (Hc : is_complete t = true).
Context (Hcap : has_capacity allocates (lenN data) = true).
Context (Hf : lenN f = lenN data) (Hne : compute_chunk_hash f <> compute_chunk_hash data).

Lemma lost_fragment i d : i < count -> apply (lost t f) (Fragment i d) = Some (lost t f, Ok Duplicate).
Proof using Ht Hm Hc Hs.
  intros Hi. unfold FileTransfer.apply, lost. cbn [state frag_hashes transfer].
  rewrite hashes_count, (proj2 (N.leb_gt _ _)), remaining_has, bool_decide_false; [done| |done|done|done].
  intros [_ Hn]. apply Hn, (proj1 (complete_spec t Ht) Hc). unfold chunk_count. rewrite Hm. cbn [chunk_ids].
  by rewrite hashes_count.
Qed.

Lemma lost_complete : apply (lost t f) Complete = Some (lost t f, Err WholeHashMismatch).
Proof using Hc Hcap Hne.
  unfold FileTransfer.apply, lost. cbn [state transfer whole_hash active_total dst]. rewrite Hc, Hcap. cbn [negb].
  change (default [] (Some f)) with f. by rewrite bool_decide_false.
Qed.

Lemma lost_offer name : exists x,
  apply (lost t f) (Offer name (lenN data) hashes (compute_chunk_hash data)) = Some (lost t f, x).
Proof using Ht Hm Hf Hs.
  unfold FileTransfer.apply, lost at 1. cbn [sidecar dst]. rewrite <- Hm, reopen_ok, data_small by done.
  eexists. change (default [] (Some f)) with f. rewrite <- Hf, set_len_id. by rewrite Hf.
Qed.

Lemma lost_receives b :
  same_offer compute_chunk_hash data b -> exists x, receive (lost t f) b = Some (lost t f, x).
Proof using Ht Hm Hc Hcap Hf Hne Hs.
  unfold same_offer, FileTransfer.receive. destruct (decode b) as [[name total hs w|i d|]|e]; intros Hb.
  - destruct Hb as (-> & -> & ->). apply lost_offer.
  - destruct (N.ltb_spec i count) as [Hi|Hi]; [rewrite lost_fragment by done; by eexists|].
    unfold FileTransfer.apply, lost. cbn [state frag_hashes]. rewrite hashes_count, (proj2 (N.leb_le _ _)) by done. by eexists.
  - rewrite lost_complete. by eexists.
  - by eexists.
Qed.

Lemma lost_receives_all bufs :
  Forall (same_offer compute_chunk_hash data) bufs ->
  receive_all compute_chunk_hash allocates (lost t f) bufs = Some (lost t f).
Proof using Ht Hm Hc Hcap Hf Hne Hs.
  induction 1 as [|b bufs Hb _ IH]; [done|]. cbn [receive_all]. destruct (lost_receives b Hb) as [x Hx].
  rewrite Hx. exact IH.
Qed.
End lost.

Lemma lost_reoffered before t f :
  transfer_ok t -> manifest t = offered -> set_len (default [] before) (lenN data) = f ->
  exists x, receive (receiver_new before (Some (rfile t))) offer = Some (lost t f, x).
Proof.
  intros Ht Hm <-. unfold FileTransfer.receive. rewrite offer_decodes. unfold offer_of, FileTransfer.apply.
  cbn [sidecar dst receiver_new]. rewrite <- Hm, reopen_ok, data_small by done. by eexists.
Qed.

Lemma lost_runs before t f bufs ds :
  allocates (lenN data) = true -> transfer_ok t -> manifest t = offered -> is_complete t = true ->
  set_len (default [] before) (lenN data) = f -> compute_chunk_hash f <> compute_chunk_hash data ->
  Forall (Forall (same_offer compute_chunk_hash data)) (bufs :: ds) ->
  runs compute_chunk_hash allocates file_name data (receiver_new before (Some (rfile t))) (bufs :: ds) = Some (lost t f).
Proof.
  intros Hal Ht Hm Hc Hf Hne Hds. pose proof (sendable_capacity Hal) as Hcap.
  assert (Hl : lenN f = lenN data) by (rewrite <- Hf; unfold lenN; rewrite set_len_length; unfold lenN; lia).
  assert (Hgo : forall r, sidecar r = Some (rfile t) -> set_len (default [] (dst r)) (lenN data) = f ->
    runs compute_chunk_hash allocates file_name data r (bufs :: ds) = Some (lost t f)); [|by apply Hgo].
  revert bufs Hds. induction ds as [|ds0 ds IH]; intros bufs [Hb Hds]%Forall_cons r Hsc Hd;
    change (runs ?a ?b ?c ?d r (bufs :: ?l)) with
      ('(r, _) ← receive (restart r) offer; r ← receive_all compute_chunk_hash allocates r bufs;
       runs compute_chunk_hash allocates file_name data r l);
    unfold restart; rewrite Hsc; destruct (lost_reoffered (dst r) t f Ht Hm Hd) as [x Hx]; rewrite Hx;
    cbn [mbind option_bind]; rewrite lost_receives_all by done; cbn [mbind option_bind]; [done|].
  apply IH; [done|done|]. cbn [lost dst]. change (default [] (Some f)) with f. rewrite <- Hl. apply set_len_id.
Qed.
End transfers.

(** ** Properties *)

(** C2: A file arrives through anything the receiver survives: whatever the order,
    loss and repetition of the fragments, whatever undecodable or corrupt datagrams
    come in between, and however many times the receiver's process dies, between
    two frames, in the middle of writing a fragment to the destination, or before
    or after the fragment's four-byte record is in the state file (a record that
    is there in part is the case of [Resume.residue_marks_wrong_chunk]), no frame
    stops the receiver, and [Complete] ends the transfer exactly when every
    fragment has arrived at least once, in any of the runs, with the file equal to
    the sender's and the state file gone; otherwise it reports how many never
    arrived and changes nothing.  The receiver can allocate the file's size. *)
Theorem file_arrives (compute_chunk_hash : list byte -> ChunkHash) (allocates : N -> bool)
    (file_name : option str) (data : list byte) (before : option (list byte)) (es : list Event) :
  (forall l, lenN (compute_chunk_hash l) = 32) -> allocates (lenN data) = true ->
  sendable file_name data -> Forall (event_ok compute_chunk_hash data) es ->
  let missing := filter (fun i => i ∉ arrived es) (range (lenN (chunks data))) in
  exists r,
    transfer_from compute_chunk_hash allocates file_name data before es = Some r /\
    receive compute_chunk_hash allocates r (encode Complete) = Some
      (if bool_decide (missing = [])
       then ({| dst := Some data; sidecar := None; state := None |}, Ok Finished)
       else (r, Ok (Incomplete (lenN missing)))).
Proof.
  intros Hh Hal Hs Hes missing.
  destruct (first_offer compute_chunk_hash allocates Hh file_name data Hs before) as (r0 & x & t0 & Hr0 & H0).
  destruct (track_run compute_chunk_hash allocates Hh file_name data Hs es r0 t0 [] H0 Hes) as (r & t & got & Hr & Ht & Hg).
  exists r. split; [unfold transfer_from; by rewrite Hr0|].
  unfold receive. rewrite (xfer_decode_encode Complete) by exact I.
  rewrite (track_complete compute_chunk_hash allocates file_name data Hs r t got Ht).
  - assert (He : filter (fun i => i ∉ got) (range (lenN (chunks data))) = missing); [|by rewrite He].
    apply filter_ext. intros i _. rewrite Hg. set_solver.
  - by apply sendable_capacity with file_name.
Qed.

Lemma file_arrives_witness :
  let h := fun l => le_bytes 32 (lenN l) in
  let data := repeat Byte.x61 1500 in
  let es := [CrashRecording 1 0; CrashRecording 1 4; Noise [Byte.x7f];
             Noise (encode (Fragment 0 [Byte.x62])); Crash 0 3; Packet 0; Packet 1] in
  exists r, transfer_from h (fun _ => true) None data (Some [Byte.x00]) es = Some r /\
  receive h (fun _ => true) r (encode Complete)
    = Some ({| dst := Some data; sidecar := None; state := None |}, Ok Finished).
Proof.
  intros h data es.
  destruct (file_arrives h (fun _ => true) None data (Some [Byte.x00]) es) as (r & Hr & Hc).
  - intros l. apply (lenN_le_bytes 32).
  - reflexivity.
  - split; [repeat constructor|]. split; [reflexivity|]. vm_compute. discriminate.
  - repeat (apply Forall_cons; split); try apply Forall_nil; vm_compute; try discriminate; try exact I; lia.
  - exists r. split; [exact Hr|]. rewrite Hc. rewrite bool_decide_true; [reflexivity|vm_compute; reflexivity].
Defined.

(** C39: A state file outlives its file: when every fragment is recorded but the
    destination, at the file's length, no longer has its hash, the transfer can
    never succeed again on a receiver that can allocate that length.
    However often the process starts again and whatever datagrams it gets, those
    of an offer of another file apart, every fragment is taken for a duplicate,
    whatever its bytes, [Complete] fails the whole-file check, and neither changes
    anything: the state file and the file stay, so that the next run fails in the
    same way. *)
Theorem lost_file_blocks_transfer (compute_chunk_hash : list byte -> ChunkHash) (allocates : N -> bool)
    (file_name : option str) (data : list byte) (t : ResumableTransfer)
    (before : option (list byte)) (bufs : list (list byte)) (ds : list (list (list byte))) :
  (forall l, lenN (compute_chunk_hash l) = 32) -> allocates (lenN data) = true -> sendable file_name data ->
  transfer_ok t ->
  manifest t = {| chunk_ids := map compute_chunk_hash (chunks data); total_bytes := lenN data |} ->
  is_complete t = true ->
  compute_chunk_hash (set_len (default [] before) (lenN data)) <> compute_chunk_hash data ->
  Forall (Forall (same_offer compute_chunk_hash data)) (bufs :: ds) ->
  exists r,
    runs compute_chunk_hash allocates file_name data (receiver_new before (Some (rfile t))) (bufs :: ds) = Some r /\
    sidecar r = Some (rfile t) /\ dst r = Some (set_len (default [] before) (lenN data)) /\
    (forall i d, i < lenN (chunks data) ->
      apply compute_chunk_hash allocates r (Fragment i d) = Some (r, Ok Duplicate)) /\
    receive compute_chunk_hash allocates r (encode Complete) = Some (r, Err WholeHashMismatch).
Proof.
  intros Hh Hal Hs Ht Hm Hc Hne Hb.
  exists (lost compute_chunk_hash data t (set_len (default [] before) (lenN data))).
  split; [by eapply lost_runs|]. split; [done|]. split; [done|]. split.
  - intros i d Hi. by eapply lost_fragment.
  - unfold receive. rewrite (xfer_decode_encode Complete) by exact I. eapply lost_complete; [done| |done].
    by apply sendable_capacity with file_name.
Qed.

Lemma lost_file_blocks_transfer_witness :
  let h := fun l => le_bytes 32 (le_value l) in
  let data := repeat Byte.x61 5 in
  let m := {| chunk_ids := map h (chunks data); total_bytes := 5 |} in
  let t := mark_delivered (mkTransfer m ∅ (header m)) 0 in
  exists r,
    runs h (fun _ => true) None data (receiver_new None (Some (rfile t)))
      [[packet data 0; encode (offer_of h None data)]; [packet data 0; encode Complete]] = Some r /\
    sidecar r = Some (rfile t) /\ dst r = Some (repeat Byte.x00 5) /\
    (forall i d, i < 1 -> apply h (fun _ => true) r (Fragment i d) = Some (r, Ok Duplicate)) /\
    receive h (fun _ => true) r (encode Complete) = Some (r, Err WholeHashMismatch).
Proof.
  intros h data m t.
  apply (lost_file_blocks_transfer h (fun _ => true) None data t None
    [packet data 0; encode (offer_of h None data)] [[packet data 0; encode Complete]]).
  - intros l. apply (lenN_le_bytes 32).
  - reflexivity.
  - split; [repeat constructor|]. split; [reflexivity|]. vm_compute. discriminate.
  - apply mark_ok, fresh_ok. split; [repeat constructor|]. split; reflexivity.
  - vm_compute. reflexivity.
  - vm_compute. reflexivity.
  - vm_compute. discriminate.
  - repeat (apply Forall_cons; split || apply Forall_nil); vm_compute; try exact I; by repeat split.
Defined.

(** Two datagrams end the process: an offer without fragments, of a length that
    the file system takes and the allocator does not have, and the word that it is
    complete. *)
Theorem empty_offer_ends_process (compute_chunk_hash : list byte -> ChunkHash) (allocates : N -> bool)
    (r : FileReceiver) (name : str) (total : N) (whole : ChunkHash) :
  frame_fits (Offer name total [] whole) -> total < 2 ^ 63 -> allocates total = false -> sidecar r = None ->
  exists r', receive compute_chunk_hash allocates r (encode (Offer name total [] whole)) =
      Some (r', Ok (Started 0)) /\
    receive compute_chunk_hash allocates r' (encode Complete) = None.
Proof.
  intros Hf Ht Ha Hs. unfold receive. rewrite xfer_decode_encode by done. cbn [apply]. rewrite Hs.
  cbn [open_transfer]. rewrite (proj2 (N.leb_gt _ _)) by lia. eexists. split; [reflexivity|].
  rewrite (xfer_decode_encode Complete) by exact I. cbn [apply state transfer active_total].
  unfold has_capacity. by rewrite Ha, andb_false_r.
Qed.

Lemma empty_offer_ends_process_witness :
  let h := fun l => le_bytes 32 (lenN l) in
  exists r', receive h (fun n => n <=? 2 ^ 40) (receiver_new None None)
      (encode (Offer [0x66] (2 ^ 43) [] (le_bytes 32 0))) = Some (r', Ok (Started 0)) /\
    receive h (fun n => n <=? 2 ^ 40) r' (encode Complete) = None.
Proof.
  intros h. apply empty_offer_ends_process; [|reflexivity|reflexivity|reflexivity].
  split; [repeat constructor|]. repeat split; repeat constructor; vm_compute; discriminate.
Defined.
