(* ===== verification/Inbound.v ===== *)
(** The inbound router: [core/lowbandd/src/inbound.rs].

    One encrypted session carries messages, files, screen and voice; the router
    classifies a datagram by its first byte (Dataplane) and hands it to the
    component of that channel.  A datagram that ends the process, by a panic or
    for want of memory, is [None]. *)
From S2P Require Import Prelude Text Grants Clipboard PanicKey Wire Dataplane.
From S2P Require Import Resume Crypto RelayGuard SecureChannel.
From S2P Require FileTransfer Screen Adpcm Voice.
#[local] Open Scope N_scope.

Inductive Handled :=
| HMessage (d : Delivered)
| HFile (p : FileTransfer.Progress)
| HScreen (complete : bool)
| HVoice (samples : N)
| HUnknown (b : N).

Record InboundRouter := mkRouter {
  clipboard : ClipboardSession;
  guarded : Guarded;
  files : FileTransfer.FileReceiver;
  screen : Screen.ScreenReceiver;
  last_screen : option (list byte);
  voice : Voice.VoiceReceiver;
  last_voice : option (list Z) }.

Definition router_new (clipboard : ClipboardSession) (guarded : Guarded)
    (files : FileTransfer.FileReceiver) : InboundRouter :=
  {| clipboard := clipboard; guarded := guarded; files := files;
     screen := Screen.receiver_new; last_screen := None;
     voice := Voice.receiver_new; last_voice := None |}.

Section router.
Context (compute_chunk_hash : list byte -> list byte) (allocates : N -> bool).
Context (idct : list Z -> list byte) (h : Heap).

Definition handle (r : InboundRouter) (bytes : list byte) :
    option (InboundRouter * result FileTransfer.XferError Handled) :=
  match classify bytes with
  | Message =>
      Some
        match decode bytes with
        | Ok frame =>
            let '(g, d) := dispatch h frame (clipboard r) (guarded r) in
            ({| clipboard := clipboard r; guarded := g; files := files r; screen := screen r;
                last_screen := last_screen r; voice := voice r; last_voice := last_voice r |},
             Ok (HMessage d))
        | Err _ => (r, Ok (HMessage DRejected))
        end
  | File =>
      match FileTransfer.decode bytes with
      | Err e => Some (r, Err e)
      | Ok frame =>
          '(f, res) ← FileTransfer.apply compute_chunk_hash allocates (files r) frame;
          Some
            ({| clipboard := clipboard r; guarded := guarded r; files := f; screen := screen r;
                last_screen := last_screen r; voice := voice r; last_voice := last_voice r |},
             HFile <$> (res : result _ _))
      end
  | Screen =>
      match Screen.decode bytes with
      | Err _ => Some (r, Err FileTransfer.Truncated)
      | Ok frame =>
          '(s, res) ← Screen.apply idct (screen r) frame;
          let with_screen := fun last =>
            {| clipboard := clipboard r; guarded := guarded r; files := files r; screen := s;
               last_screen := last; voice := voice r; last_voice := last_voice r |} in
          Some
            match res with
            | Err _ => (with_screen (last_screen r), Err FileTransfer.Truncated)
            | Ok (Some fb) => (with_screen (Some fb), Ok (HScreen true))
            | Ok None => (with_screen (last_screen r), Ok (HScreen false))
            end
      end
  | Dataplane.Voice =>
      match Voice.decode_frame bytes with
      | None => Some (r, Err FileTransfer.Truncated)
      | Some frame =>
          '(v, pcm) ← Voice.decode_voice (voice r) frame;
          Some
            ({| clipboard := clipboard r; guarded := guarded r; files := files r;
                screen := screen r; last_screen := last_screen r; voice := v;
                last_voice := Some pcm |},
             Ok (HVoice (lenN pcm)))
      end
  | Unknown b => Some (r, Ok (HUnknown b))
  end.

(** [received] is what [session.recv()] returns. *)
Definition recv_and_handle (r : InboundRouter) (received : result SessionError (list byte)) :
    option (InboundRouter * result FileTransfer.XferError Handled) :=
  match received with
  | Err _ => Some (r, Err FileTransfer.Session)
  | Ok bytes => handle r bytes
  end.

(** The worker of [main.rs]: one datagram after the other. *)
Fixpoint handle_all (r : InboundRouter) (datagrams : list (list byte)) : option InboundRouter :=
  match datagrams with
  | [] => Some r
  | d :: datagrams => '(r, _) ← handle r d; handle_all r datagrams
  end.

(** ** Each plane on its own *)
Definition on (c : Channel) (bytes : list byte) : bool :=
  match c, classify bytes with
  | Message, Message | File, File | Screen, Screen | Dataplane.Voice, Dataplane.Voice => true
  | _, _ => false
  end.

Definition message_plane (c : ClipboardSession) (g : Guarded) (bytes : list byte) : Guarded :=
  fst (recv_and_dispatch h (Some bytes) c g).

Definition file_plane (f : option FileTransfer.FileReceiver) (bytes : list byte) :
    option FileTransfer.FileReceiver :=
  f ← f; fst <$> FileTransfer.receive compute_chunk_hash allocates f bytes.

Definition screen_plane (s : option Screen.ScreenReceiver) (bytes : list byte) :
    option Screen.ScreenReceiver :=
  s ← s;
  match Screen.decode bytes with
  | Err _ => Some s
  | Ok frame => fst <$> Screen.apply idct s frame
  end.

Definition voice_plane (v : option Voice.VoiceReceiver) (bytes : list byte) :
    option Voice.VoiceReceiver :=
  v ← v;
  match Voice.decode_frame bytes with
  | None => Some v
  | Some frame => fst <$> Voice.decode_voice v frame
  end.

Definition plane {A} (c : Channel) (step : A -> list byte -> A) (a : A)
    (datagrams : list (list byte)) : A :=
  fold_left step (filter (fun d => on c d = true) datagrams) a.
End router.

(** ** Lemmas *)
Section voice_total.
Local Open Scope Z_scope.

Lemma decode_code_total d (code : N) :
  Adpcm.state_ok d -> (code < 16)%N ->
  exists d' s, Adpcm.decode_code d code = Some (d', s) /\ Adpcm.state_ok d'.
Proof.
  intros [Hp Hi] Hc. destruct (Adpcm.step_lookup d Hi) as [Hs _].
  destruct (Adpcm.index_lookup code Hc) as [adj Ha]. unfold Adpcm.decode_code.
  rewrite Hs, Ha. cbn [mbind option_bind]. eexists _, _. split; [done|].
  unfold Adpcm.state_ok. cbn [Adpcm.predictor Adpcm.index]. split.
  - case_match; apply Adpcm.clampZ_bounds; lia.
  - apply Adpcm.clampZ_bounds. lia.
Qed.

Lemma push_code_total count code d out :
  Adpcm.state_ok d -> (code < 16)%N ->
  exists d' out', Adpcm.push_code count code (d, out) = Some (d', out') /\ Adpcm.state_ok d'.
Proof.
  intros Hd Hc. unfold Adpcm.push_code. destruct (length out <? count)%nat; [|by exists d, out].
  destruct (decode_code_total d code Hd Hc) as (d' & s & -> & Hd'). by exists d', (out ++ [s]).
Qed.

Lemma nibble_small (b : byte) : (N.land (Byte.to_N b) 15 < 16 /\ N.shiftr (Byte.to_N b) 4 < 16)%N.
Proof. destruct b; vm_compute; split; reflexivity. Qed.

Lemma decode_loop_total data count d out :
  Adpcm.state_ok d ->
  exists d' out', Adpcm.decode_loop data count (d, out) = Some (d', out') /\ Adpcm.state_ok d'.
Proof.
  revert d out. induction data as [|b data IH]; intros d out Hd; cbn [Adpcm.decode_loop]; [by exists d, out|].
  destruct (nibble_small b) as [H1 H2].
  destruct (push_code_total count _ d out Hd H1) as (d1 & o1 & -> & Hd1). cbn [mbind option_bind].
  destruct (push_code_total count _ d1 o1 Hd1 H2) as (d2 & o2 & -> & Hd2). cbn [mbind option_bind].
  by apply IH.
Qed.

Lemma decode_voice_total v f :
  Adpcm.state_ok (Voice.rx_codec v) ->
  exists v' pcm, Voice.decode_voice v f = Some (v', pcm) /\ Adpcm.state_ok (Voice.rx_codec v').
Proof.
  intros Hv. destruct f as [n data|n]; cbn [Voice.decode_voice]; [|by eexists _, _].
  unfold Adpcm.decode.
  destruct (decode_loop_total data (N.to_nat n) (Voice.rx_codec v) [] Hv) as (d' & out & -> & Hd').
  by eexists _, _.
Qed.
End voice_total.

Section router_lemmas.
Context (compute_chunk_hash : list byte -> list byte) (allocates : N -> bool).
Context (idct : list Z -> list byte) (h : Heap).

(** A file under way that fits in memory. *)
Definition files_ok (f : FileTransfer.FileReceiver) : Prop :=
  forall st, FileTransfer.state f = Some st ->
    FileTransfer.has_capacity allocates (FileTransfer.active_total st) = true.

Definition router_ok (r : InboundRouter) : Prop :=
  files_ok (files r) /\ Screen.receiver_ok (screen r) /\ Adpcm.state_ok (Voice.rx_codec (voice r)).

(** What it announces, a screen or a file, can be held in a buffer. *)
Definition datagram_ok (d : list byte) : Prop :=
  (forall f, Screen.decode d = Ok f -> Screen.bounded f) /\
  (forall name total hashes whole, FileTransfer.decode d = Ok (FileTransfer.Offer name total hashes whole) ->
     FileTransfer.has_capacity allocates total = true).

Lemma file_apply_ok f frame :
  files_ok f ->
  match frame with
  | FileTransfer.Offer _ total _ _ => FileTransfer.has_capacity allocates total = true
  | _ => True
  end ->
  exists f' res, FileTransfer.apply compute_chunk_hash allocates f frame = Some (f', res) /\ files_ok f'.
Proof.
  intros Hf Hd. destruct frame as [name total hs w|i d|]; cbn [FileTransfer.apply].
  - destruct (open_transfer _ _) as [t o]. case_ifs; eexists _, _; (split; [reflexivity|]); [exact Hf|].
    intros st [= <-]. exact Hd.
  - destruct (FileTransfer.state f) as [st|] eqn:Hst; [|by eexists _, _].
    case_ifs; eexists _, _; (split; [reflexivity|]); try exact Hf. intros st' [= <-]. exact (Hf st Hst).
  - destruct (FileTransfer.state f) as [st|] eqn:Hst; [|by eexists _, _].
    rewrite (Hf st Hst). cbn [negb]. destruct (finish _); case_ifs; eexists _, _; (split; [reflexivity|]);
      (exact Hf || done).
Qed.

(** What one datagram makes of the planes. *)
Abbreviation after_file r d :=
  (if on File d then file_plane compute_chunk_hash allocates (Some (files r)) d else Some (files r)).
Abbreviation after_screen r d :=
  (if on Screen d then screen_plane idct (Some (screen r)) d else Some (screen r)).
Abbreviation after_voice r d :=
  (if on Dataplane.Voice d then voice_plane (Some (voice r)) d else Some (voice r)).

(** One datagram changes the component of its channel, as that component alone
    would, and no other. *)
Lemma handle_steps r d :
  match handle compute_chunk_hash allocates idct h r d with
  | Some (r', _) =>
      clipboard r' = clipboard r /\
      guarded r' = (if on Message d then message_plane h (clipboard r) (guarded r) d else guarded r) /\
      after_file r d = Some (files r') /\ after_screen r d = Some (screen r') /\
      after_voice r d = Some (voice r')
  | None => after_file r d = None \/ after_screen r d = None \/ after_voice r d = None
  end.
Proof.
  unfold handle, on, message_plane, file_plane, screen_plane, voice_plane.
  unfold FileTransfer.receive, recv_and_dispatch. cbn [mbind option_bind]. destruct (classify d).
  - destruct (decode d) as [frame|e]; [|done]. by destruct (dispatch h frame _ _) as [g dd].
  - destruct (FileTransfer.decode d) as [frame|e]; [|done].
    destruct (FileTransfer.apply _ _ _ frame) as [[f res]|]; [done|by left].
  - destruct (Screen.decode d) as [frame|e]; [|done].
    destruct (Screen.apply idct (screen r) frame) as [[s [[fb|]|e]]|]; try done. by right; left.
  - destruct (Voice.decode_frame d) as [frame|]; [|done].
    destruct (Voice.decode_voice (voice r) frame) as [[v pcm]|]; [done|by right; right].
  - done.
Qed.

Lemma handle_ok r d :
  router_ok r -> datagram_ok d ->
  exists r' res, handle compute_chunk_hash allocates idct h r d = Some (r', res) /\ router_ok r'.
Proof.
  intros (Hf & Hs & Hv) [Hd Ho]. unfold handle. destruct (classify d).
  - destruct (decode d) as [frame|e]; [|by eexists _, _].
    destruct (dispatch h frame _ _) as [g dd]. by eexists _, _.
  - destruct (FileTransfer.decode d) as [frame|e] eqn:E; [|by eexists _, _].
    destruct (file_apply_ok (files r) frame Hf) as (f' & res & -> & Hf');
      [destruct frame; by eauto|]. cbn [mbind option_bind]. by eexists _, _.
  - destruct (Screen.decode d) as [frame|e] eqn:E; [|by eexists _, _].
    destruct (Screen.apply_ok idct (screen r) frame Hs (Screen.decode_ok _ _ E) (Hd _ eq_refl))
      as (s' & res & -> & Hs'). cbn [mbind option_bind].
    destruct res as [[fb|]|e]; eexists _, _; (split; [reflexivity|]); by split.
  - destruct (Voice.decode_frame d) as [frame|]; [|by eexists _, _].
    destruct (decode_voice_total (voice r) frame Hv) as (v' & pcm & -> & Hv'). cbn [mbind option_bind].
    eexists _, _. split; [reflexivity|]. by split.
  - by eexists _, _.
Qed.

Lemma handle_all_ok r ds :
  router_ok r -> Forall datagram_ok ds ->
  exists r', handle_all compute_chunk_hash allocates idct h r ds = Some r' /\ router_ok r'.
Proof.
  intros Hr Hd. revert r Hr. induction Hd as [|d ds Hd _ IH]; intros r Hr; cbn [handle_all]; [by exists r|].
  destruct (handle_ok r d Hr Hd) as (r1 & res & -> & Hr1). by apply IH.
Qed.

Lemma plane_cons {A} c (step : A -> list byte -> A) a d ds :
  plane c step a (d :: ds) = plane c step (if on c d then step a d else a) ds.
Proof.
  unfold plane. rewrite filter_cons. destruct (on c d); [by rewrite decide_True|by rewrite decide_False].
Qed.

(** A component that has crashed stays so. *)
Lemma plane_none {A} c (step : option A -> list byte -> option A) ds :
  (forall d, step None d = None) -> plane c step None ds = None.
Proof.
  intros Hn. unfold plane. induction (filter _ ds) as [|d l IH]; [done|]. cbn [fold_left]. by rewrite Hn.
Qed.
End router_lemmas.

(** ** How much a datagram can offer *)
Section offers.
Lemma take_int_shorter k buf v rest :
  ('(hd, t) ← ok_or FileTransfer.Truncated (split_at_checked k buf); Ok (le_value hd, t))
    = Ok (v, rest) -> lenN buf = k + lenN rest.
Proof.
  destruct (split_at_checked k buf) as [[hd t]|] eqn:E; cbn; [|done]. intros [= <- <-].
  apply split_at_checked_Some in E as [-> Hl]. by rewrite lenN_app, Hl.
Qed.

Lemma take_hash_shorter buf x rest :
  FileTransfer.take_hash buf = Ok (x, rest) -> lenN buf = 32 + lenN rest.
Proof.
  unfold FileTransfer.take_hash. destruct (split_at_checked 32 buf) as [[hd t]|] eqn:E; cbn; [|done].
  intros [= <- <-]. apply split_at_checked_Some in E as [-> Hl]. by rewrite lenN_app, Hl.
Qed.

Lemma take_hashes_shorter count buf hs rest :
  FileTransfer.take_hashes count buf = Ok (hs, rest) ->
  length hs = count /\ lenN buf = 32 * lenN hs + lenN rest.
Proof.
  revert buf hs. induction count as [|count IH]; intros buf hs; cbn [FileTransfer.take_hashes].
  { by intros [= <- <-]. }
  destruct (FileTransfer.take_hash buf) as [[x r1]|] eqn:E1; cbn [mbind result_bind]; [|done].
  destruct (FileTransfer.take_hashes count r1) as [[xs r2]|] eqn:E2; cbn [mbind result_bind]; [|done].
  intros [= <- <-]. apply take_hash_shorter in E1. apply IH in E2 as [<- E2].
  split; [done|]. rewrite lenN_cons. lia.
Qed.

Lemma take_str_shorter buf s rest :
  FileTransfer.take_str buf = Ok (s, rest) -> lenN buf = 2 + str_len s + lenN rest.
Proof.
  unfold FileTransfer.take_str.
  destruct (FileTransfer.take_u16 buf) as [[len r1]|] eqn:E1; cbn [mbind result_bind]; [|done].
  destruct (split_at_checked len r1) as [[hd t]|] eqn:E2; cbn [mbind result_bind ok_or]; [|done].
  destruct (from_utf8 hd) as [s'|] eqn:E3; cbn; [|done]. intros [= <- <-].
  apply (take_int_shorter 2) in E1. apply split_at_checked_Some in E2 as [-> _].
  apply as_bytes_from_utf8 in E3 as [Hb _]. rewrite lenN_app in E1. unfold str_len. rewrite Hb. lia.
Qed.

(** An offer occupies its fields. *)
Lemma offer_length buf name total hashes whole :
  FileTransfer.decode buf = Ok (FileTransfer.Offer name total hashes whole) ->
  47 + str_len name + 32 * lenN hashes <= lenN buf.
Proof.
  destruct buf as [|kind buf]; [done|]. unfold FileTransfer.decode. rewrite lenN_cons.
  case_ifs; try done.
  - destruct (FileTransfer.take_str buf) as [[n r1]|] eqn:E1; cbn [mbind result_bind]; [|done].
    destruct (FileTransfer.take_u64 r1) as [[tt r2]|] eqn:E2; cbn [mbind result_bind]; [|done].
    destruct (FileTransfer.take_u32 r2) as [[c r3]|] eqn:E3; cbn [mbind result_bind]; [|done].
    case_ifs; [done|].
    destruct (FileTransfer.take_hashes (N.to_nat c) r3) as [[hs r4]|] eqn:E4; cbn [mbind result_bind]; [|done].
    destruct (FileTransfer.take_hash r4) as [[w r5]|] eqn:E5; cbn [mbind result_bind]; [|done].
    intros [= <- <- <- <-].
    apply take_str_shorter in E1. apply (take_int_shorter 8) in E2. apply (take_int_shorter 4) in E3.
    apply take_hashes_shorter in E4 as [_ E4]. apply take_hash_shorter in E5. lia.
  - destruct (FileTransfer.take_u32 buf) as [[i r1]|]; cbn [mbind result_bind]; [|done].
    destruct (FileTransfer.take_u16 r1) as [[l r2]|]; cbn [mbind result_bind]; [|done].
    case_ifs; [done|]. by destruct (split_at_checked l r2) as [[]|].
Qed.

(** What a session hands on fits its receive buffer, less the nonce and the tag. *)
Lemma recv_bound `{PrimitiveLaws} (s : SecureSession) (datagram p : list byte) :
  recv s datagram = Ok p -> lenN p <= 8164.
Proof.
  unfold recv, recv_from, RECV_BUFFER, open_bytes, open_payload, RELAY_GUARD_OVERHEAD_BYTES.
  cbn [payload_bytes]. case_ifs; [done|].
  destruct (aead_decrypt _ _ _ _) as [m|] eqn:E; cbn; [|done]. intros [= <-].
  apply aead_tidy, (f_equal lenN) in E. rewrite aead_length in E. unfold lenN in *.
  rewrite length_drop, length_take in E. lia.
Qed.
End offers.

(** ** Properties *)

(** C5: No datagram reaches more than the component of its channel: after any
    sequence of datagrams, whatever their bytes, the message gate, the file
    receiver, the screen and the voice decoder are each what the datagrams of
    their own channel, in order, make of them, as if the others had never arrived;
    and when the router crashes, so does one of those three on its own datagrams.
    Nothing crashes it unless a screen or a file is announced that no buffer can
    hold: a screen of 2^30 pixels or more, or a file for which the allocator has
    no memory when it is complete (a screen's buffer, below 4 GiB, is taken to be
    available). *)
Theorem planes_are_independent (compute_chunk_hash : list byte -> list byte) (allocates : N -> bool)
    (idct : list Z -> list byte) (h : Heap) (r : InboundRouter) (datagrams : list (list byte)) :
  let file_alone := plane File (file_plane compute_chunk_hash allocates) (Some (files r)) datagrams in
  let screen_alone := plane Screen (screen_plane idct) (Some (screen r)) datagrams in
  let voice_alone := plane Dataplane.Voice voice_plane (Some (voice r)) datagrams in
  match handle_all compute_chunk_hash allocates idct h r datagrams with
  | Some r' =>
      clipboard r' = clipboard r /\
      guarded r' = plane Message (message_plane h (clipboard r)) (guarded r) datagrams /\
      file_alone = Some (files r') /\ screen_alone = Some (screen r') /\ voice_alone = Some (voice r')
  | None => file_alone = None \/ screen_alone = None \/ voice_alone = None
  end /\
  (router_ok allocates r -> Forall (datagram_ok allocates) datagrams ->
   exists r', handle_all compute_chunk_hash allocates idct h r datagrams = Some r' /\ router_ok allocates r').
Proof.
  intros file_alone screen_alone voice_alone. split; [|apply handle_all_ok].
  unfold file_alone, screen_alone, voice_alone. clear. revert r.
  induction datagrams as [|d ds IH]; intros r; cbn [handle_all]; [done|].
  pose proof (handle_steps compute_chunk_hash allocates idct h r d) as Hd. rewrite !plane_cons.
  destruct (handle _ _ _ _ r d) as [[r1 res]|]; cbn [mbind option_bind].
  - destruct Hd as (Hc & <- & -> & -> & ->). rewrite <- Hc. apply IH.
  - destruct Hd as [->|[->| ->]]; [left|right; left|right; right]; by apply plane_none.
Qed.

Lemma planes_are_independent_witness :
  let h := fun l => le_bytes 32 (lenN l) in
  let r := router_new Clipboard.new
    (mkGuarded Control.new controller_new PanicKey.receiver_new) (FileTransfer.receiver_new None None) in
  let ds := [encode (Wire.Chat [0x68]); [Byte.x7f]; Voice.encode_frame (Voice.VSid 7);
             FileTransfer.encode (FileTransfer.offer_of h None [Byte.x01]); [Byte.x20]] in
  exists r', handle_all h (fun n => n <=? 2 ^ 32) (fun _ => []) [] r ds = Some r' /\
    router_ok (fun n => n <=? 2 ^ 32) r'.
Proof.
  intros h r ds. apply planes_are_independent.
  - split; [by intros st|]. split; [by left|].
    split; vm_compute; [split; discriminate|split; discriminate].
  - repeat (apply Forall_cons; split; [split; [intros f Hf|intros n t x y Hf]; vm_compute in Hf;
      try discriminate Hf; injection Hf as <- <- <- <-; reflexivity|]). by apply Forall_nil.
Defined.

(** A datagram cannot offer a large file: what a session receives is cut at its
    buffer of 8192 bytes, so no offer that comes out of it lists more than 253
    fragments, and the offer that [send_file] makes for a file of more than 253
    KiB is never among them, far below the 2^20 fragments the decoder admits. *)
Theorem large_files_never_offered `{PrimitiveLaws} (compute_chunk_hash : list byte -> list byte)
    (file_name : option str) (data : list byte) (s : SecureSession) (datagram p : list byte) :
  recv s datagram = Ok p ->
  (forall name total hashes whole,
     FileTransfer.decode p = Ok (FileTransfer.Offer name total hashes whole) -> lenN hashes <= 253) /\
  (259072 < lenN data ->
     FileTransfer.decode p <> Ok (FileTransfer.offer_of compute_chunk_hash file_name data)).
Proof.
  intros Hp%recv_bound.
  assert (Hsmall : forall name total hashes whole,
    FileTransfer.decode p = Ok (FileTransfer.Offer name total hashes whole) -> lenN hashes <= 253).
  { intros name total hashes whole Hd%offer_length. lia. }
  split; [exact Hsmall|]. intros Hl Hd. apply Hsmall in Hd. unfold lenN in *.
  rewrite length_map, FileTransfer.chunks_length in Hd.
  pose proof (Nat.Div0.div_mod (length data + 1023) 1024).
  pose proof (Nat.mod_upper_bound (length data + 1023) 1024). lia.
Qed.

Lemma large_files_never_offered_witness :
  let h := fun l => le_bytes 32 (lenN l) in
  FileTransfer.decode (FileTransfer.encode FileTransfer.Complete) <>
    Ok (FileTransfer.offer_of h None (repeat Byte.x01 (N.to_nat 260000))).
Proof.
  intros h. set (data := repeat Byte.x01 (N.to_nat 260000)).
  set (s := mkSession (cipher_new (repeat Byte.x01 32) 0) (cipher_new (repeat Byte.x01 32) 0) true [] []).
  assert (Hr : recv s (snd (send s (FileTransfer.encode FileTransfer.Complete))) =
    Ok (FileTransfer.encode FileTransfer.Complete)) by (vm_compute; reflexivity).
  apply (large_files_never_offered h None data s _ _ Hr).
  unfold data, lenN. rewrite repeat_length, N2Nat.id. reflexivity.
Defined.
