(* ===== verification/Signaling.v ===== *)
(** The rendezvous service: [core/signaling/src/lib.rs].

    The handlers are functions of the store, the clock and the request; HTTP and
    JSON are not modelled.  The store is a third-party ordered map, the class
    [Tree]; its I/O errors are not modelled.  [gmap_tree] is an instance of the
    laws. *)
From S2P Require Import Prelude Text Numeral.
From stdpp Require Import sorting.
#[local] Open Scope N_scope.

(** ** The ordered map *)

(** Lexicographic order of keys. *)
Fixpoint key_lt (a b : list byte) : bool :=
  match a, b with
  | _, [] => false
  | [], _ => true
  | x :: a, y :: b => (Byte.to_N x <? Byte.to_N y) || ((Byte.to_N x =? Byte.to_N y) && key_lt a b)
  end.

Class Tree (T : Type) := {
  tree_empty : T;
  tree_get : T -> list byte -> option (list byte);
  tree_insert : T -> list byte -> list byte -> T;
  tree_remove : T -> list byte -> T;
  (** the entries whose key starts with a prefix, in key order *)
  scan_prefix : T -> list byte -> list (list byte * list byte);
}.

Class TreeLaws (T : Type) `{Tree T} : Prop := {
  get_empty k : tree_get tree_empty k = None;
  get_insert t k v k' :
    tree_get (tree_insert t k v) k' = if decide (k = k') then Some v else tree_get t k';
  get_remove t k k' :
    tree_get (tree_remove t k) k' = if decide (k = k') then None else tree_get t k';
  scan_spec t p k v : (k, v) ∈ scan_prefix t p <-> tree_get t k = Some v /\ p `prefix_of` k;
  scan_sorted t p : StronglySorted (fun a b => key_lt a b = true) (map fst (scan_prefix t p));
}.

(** ** Formatting *)

(** [{:09}] of a number below [10^9], and [{:016x}] of a [u64]. *)
Definition dec9 (n : N) : str := digits 10 9 n.
Definition hex16 (n : N) : str := digits 16 16 n.

Definition colon : N := 0x3a.

(** ** The store *)
Definition SESSION_TTL : N := 300.

Record AppState (T : Type) := mkState {
  session_codes : T; ice_candidates : T; offers : T; answers : T;
  rooms : T; room_members : T; room_candidates : T;
  CODE_SEQ : N; CAND_SEQ : N }.
Arguments mkState {T}.
Arguments session_codes {T}.
Arguments ice_candidates {T}.
Arguments offers {T}.
Arguments answers {T}.
Arguments rooms {T}.
Arguments room_members {T}.
Arguments room_candidates {T}.
Arguments CODE_SEQ {T}.
Arguments CAND_SEQ {T}.

Inductive Response :=
| Status (code : N)
| Created (code : str)
| Joined (offer : option str) (candidates : list str)
| Answered (answer : option str)
| RosterOf (participants : list (str * str * list str)).

Definition OK : Response := Status 200.
Definition ACCEPTED : Response := Status 202.
Definition BAD_REQUEST : Response := Status 400.
Definition FORBIDDEN : Response := Status 403.
Definition NOT_FOUND : Response := Status 404.
Definition CONFLICT : Response := Status 409.

Section store.
Context {T : Type} `{Tree T}.
Implicit Types (st : AppState T) (t : T) (code : str).

(** Over empty trees, and over the trees a restart finds on disk: the sequence
    counters are statics of the process. *)
Definition new : AppState T :=
  {| session_codes := tree_empty; ice_candidates := tree_empty; offers := tree_empty;
     answers := tree_empty; rooms := tree_empty; room_members := tree_empty;
     room_candidates := tree_empty; CODE_SEQ := 100000000; CAND_SEQ := 0 |}.

Definition reopen st : AppState T :=
  {| session_codes := session_codes st; ice_candidates := ice_candidates st; offers := offers st;
     answers := answers st; rooms := rooms st; room_members := room_members st;
     room_candidates := room_candidates st; CODE_SEQ := 100000000; CAND_SEQ := 0 |}.

Definition with_sessions st t : AppState T :=
  {| session_codes := t; ice_candidates := ice_candidates st; offers := offers st;
     answers := answers st; rooms := rooms st; room_members := room_members st;
     room_candidates := room_candidates st; CODE_SEQ := CODE_SEQ st; CAND_SEQ := CAND_SEQ st |}.

Definition with_offers st t : AppState T :=
  {| session_codes := session_codes st; ice_candidates := ice_candidates st; offers := t;
     answers := answers st; rooms := rooms st; room_members := room_members st;
     room_candidates := room_candidates st; CODE_SEQ := CODE_SEQ st; CAND_SEQ := CAND_SEQ st |}.

Definition with_answers st t : AppState T :=
  {| session_codes := session_codes st; ice_candidates := ice_candidates st; offers := offers st;
     answers := t; rooms := rooms st; room_members := room_members st;
     room_candidates := room_candidates st; CODE_SEQ := CODE_SEQ st; CAND_SEQ := CAND_SEQ st |}.

Definition strings (entries : list (list byte * list byte)) : list str :=
  omap (fun e => from_utf8 (snd e)) entries.

Definition pending_candidates st code : list str :=
  strings (scan_prefix (ice_candidates st) (as_bytes (code ++ [colon]))).

Definition pending_offer st code : option str :=
  v ← tree_get (offers st) (as_bytes code); from_utf8 v.

Definition pending_answer st code : option str :=
  v ← tree_get (answers st) (as_bytes code); from_utf8 v.

(** Times are seconds, from [0]; the fields are [i64]. *)
Definition encode_entry (created_at expires_at : N) (pubkey : list byte) : list byte :=
  le_bytes 8 expires_at ++ le_bytes 8 created_at ++ pubkey.

Definition decode_expires_at (bytes : list byte) : option Z :=
  if 8 <=? lenN bytes then Some (as_signed 64 (le_value (take 8 bytes))) else None.

Definition gen_code st : str * AppState T :=
  (dec9 (CODE_SEQ st mod 1000000000),
   {| session_codes := session_codes st; ice_candidates := ice_candidates st; offers := offers st;
      answers := answers st; rooms := rooms st; room_members := room_members st;
      room_candidates := room_candidates st; CODE_SEQ := wrap 64 (CODE_SEQ st + 1);
      CAND_SEQ := CAND_SEQ st |}).

(** ** The handlers *)
Definition post_session st (now : N) : AppState T * Response :=
  let '(code, st) := gen_code st in
  let entry := encode_entry now (now + SESSION_TTL) [] in
  (with_sessions st (tree_insert (session_codes st) (as_bytes code) entry), Created code).

Definition live (now : N) (bytes : list byte) : bool :=
  match decode_expires_at bytes with
  | Some exp => (Z.of_N now <? exp)%Z
  | None => false
  end.

Definition get_join st (now : N) code : AppState T * Response :=
  match tree_get (session_codes st) (as_bytes code) with
  | Some bytes =>
      if live now bytes then (st, Joined (pending_offer st code) (pending_candidates st code))
      else (with_sessions st (tree_remove (session_codes st) (as_bytes code)), NOT_FOUND)
  | None => (st, NOT_FOUND)
  end.

Definition check_code st (now : N) code : bool :=
  match tree_get (session_codes st) (as_bytes code) with
  | Some bytes => live now bytes
  | None => false
  end.

Definition get_answer st (now : N) code : AppState T * Response :=
  if negb (check_code st now code) then (st, NOT_FOUND)
  else (st, Answered (pending_answer st code)).

Definition post_offer st (now : N) code (sdp : str) : AppState T * Response :=
  if negb (check_code st now code) then (st, NOT_FOUND)
  else (with_offers st (tree_insert (offers st) (as_bytes code) (as_bytes sdp)), OK).

Definition post_answer st (now : N) code (sdp : option str) : AppState T * Response :=
  if negb (check_code st now code) then (st, NOT_FOUND)
  else
    match sdp with
    | Some sdp => (with_answers st (tree_insert (answers st) (as_bytes code) (as_bytes sdp)), OK)
    | None => (st, OK)
    end.

Definition post_candidate st (now : N) code (candidate : str) : AppState T * Response :=
  if negb (check_code st now code) then (st, NOT_FOUND)
  else
    let key := as_bytes (code ++ colon :: hex16 (CAND_SEQ st)) in
    ({| session_codes := session_codes st;
        ice_candidates := tree_insert (ice_candidates st) key (as_bytes candidate);
        offers := offers st; answers := answers st; rooms := rooms st;
        room_members := room_members st; room_candidates := room_candidates st;
        CODE_SEQ := CODE_SEQ st; CAND_SEQ := wrap 64 (CAND_SEQ st + 1) |}, ACCEPTED).

Definition post_connected st (now : N) code : AppState T * Response :=
  if negb (check_code st now code) then (st, NOT_FOUND)
  else (with_sessions st (tree_remove (session_codes st) (as_bytes code)), OK).

(** ** The requests of the one-to-one rendezvous *)
Inductive Request :=
| PostSession
| GetJoin (code : str)
| GetAnswer (code : str)
| PostOffer (code sdp : str)
| PostAnswer (code : str) (sdp : option str)
| PostCandidate (code candidate : str)
| PostConnected (code : str).

Definition serve st (now : N) (r : Request) : AppState T * Response :=
  match r with
  | PostSession => post_session st now
  | GetJoin code => get_join st now code
  | GetAnswer code => get_answer st now code
  | PostOffer code sdp => post_offer st now code sdp
  | PostAnswer code sdp => post_answer st now code sdp
  | PostCandidate code candidate => post_candidate st now code candidate
  | PostConnected code => post_connected st now code
  end.

Fixpoint serve_all st (reqs : list (N * Request)) : AppState T * list Response :=
  match reqs with
  | [] => (st, [])
  | (now, r) :: reqs =>
      let '(st, resp) := serve st now r in
      let '(st, resps) := serve_all st reqs in
      (st, resp :: resps)
  end.
End store.

(** ** What the service promises: a mailbox per code *)
Record Mailbox := mkMailbox {
  expires : N; box_offer : option str; box_answer : option str; box_candidates : list str }.

Record Service := mkService { boxes : gmap str Mailbox; next_code : N }.

Definition service_new : Service := {| boxes := ∅; next_code := 100000000 |}.

Definition put_box (a : Service) (c : str) (m : Mailbox) : Service :=
  {| boxes := <[c := m]> (boxes a); next_code := next_code a |}.

Definition drop_box (a : Service) (c : str) : Service :=
  {| boxes := delete c (boxes a); next_code := next_code a |}.

Definition live_box (a : Service) (now : N) (c : str) : option Mailbox :=
  m ← boxes a !! c; if now <? expires m then Some m else None.

Definition spec_serve (a : Service) (now : N) (r : Request) : Service * Response :=
  match r with
  | PostSession =>
      let c := dec9 (next_code a) in
      ({| boxes := <[c := mkMailbox (now + SESSION_TTL) None None []]> (boxes a);
          next_code := next_code a + 1 |}, Created c)
  | GetJoin c =>
      match live_box a now c with
      | Some m => (a, Joined (box_offer m) (box_candidates m))
      | None => (drop_box a c, NOT_FOUND)
      end
  | GetAnswer c =>
      match live_box a now c with
      | Some m => (a, Answered (box_answer m))
      | None => (a, NOT_FOUND)
      end
  | PostOffer c sdp =>
      match live_box a now c with
      | Some m => (put_box a c (mkMailbox (expires m) (Some sdp) (box_answer m) (box_candidates m)), OK)
      | None => (a, NOT_FOUND)
      end
  | PostAnswer c sdp =>
      match live_box a now c with
      | Some m =>
          (match sdp with
           | Some s => put_box a c (mkMailbox (expires m) (box_offer m) (Some s) (box_candidates m))
           | None => a
           end, OK)
      | None => (a, NOT_FOUND)
      end
  | PostCandidate c cand =>
      match live_box a now c with
      | Some m =>
          (put_box a c (mkMailbox (expires m) (box_offer m) (box_answer m) (box_candidates m ++ [cand])),
           ACCEPTED)
      | None => (a, NOT_FOUND)
      end
  | PostConnected c =>
      match live_box a now c with
      | Some _ => (drop_box a c, OK)
      | None => (a, NOT_FOUND)
      end
  end.

Fixpoint spec_serve_all (a : Service) (reqs : list (N * Request)) : Service * list Response :=
  match reqs with
  | [] => (a, [])
  | (now, r) :: reqs =>
      let '(a, resp) := spec_serve a now r in
      let '(a, resps) := spec_serve_all a reqs in
      (a, resp :: resps)
  end.

(** The strings of a request are Unicode. *)
Definition request_ok (q : N * Request) : Prop :=
  fst q < 2 ^ 62 /\
  match snd q with
  | PostSession => True
  | GetJoin c | GetAnswer c | PostConnected c | PostAnswer c None => str_ok c
  | PostOffer c s | PostAnswer c (Some s) | PostCandidate c s => str_ok c /\ str_ok s
  end.

(** ** Lemmas: keys *)
Section keys.
Implicit Types (a b x y : list byte).

Lemma key_lt_irrefl a : key_lt a a = false.
Proof. induction a as [|x a IH]; [done|]. cbn. by rewrite N.ltb_irrefl, N.eqb_refl, IH. Qed.

Lemma key_lt_trans a b c : key_lt a b = true -> key_lt b c = true -> key_lt a c = true.
Proof.
  revert b c. induction a as [|x a IH]; intros [|y b] [|z c]; cbn; try done.
  rewrite !orb_true_iff, !andb_true_iff, !N.ltb_lt, !N.eqb_eq.
  intros [?|[? ?]] [?|[? ?]]; [left; lia|left; lia|left; lia|right]. split; [lia|by eapply IH].
Qed.

Lemma key_lt_total a b : key_lt a b = false -> key_lt b a = false -> a = b.
Proof.
  revert b. induction a as [|x a IH]; intros [|y b]; cbn; try done.
  rewrite !orb_false_iff, !andb_false_iff, !N.ltb_ge, !N.eqb_neq. intros [H1 H2] [H3 H4].
  assert (Hxy : Byte.to_N x = Byte.to_N y) by lia.
  destruct H2 as [|H2]; [done|]. destruct H4 as [|H4]; [lia|].
  f_equal; [|by apply IH]. rewrite <- (byte_of_to_N x), <- (byte_of_to_N y). by f_equal.
Qed.

Lemma key_lt_app p a b : key_lt (p ++ a) (p ++ b) = key_lt a b.
Proof. induction p as [|x p IH]; [done|]. cbn. by rewrite N.ltb_irrefl, N.eqb_refl. Qed.

Lemma key_lt_app_same_length a b x y :
  length a = length b -> key_lt a b = true -> key_lt (a ++ x) (b ++ y) = true.
Proof.
  revert b. induction a as [|u a IH]; intros [|v b]; cbn; try done. intros [= Hl].
  rewrite !orb_true_iff, !andb_true_iff. intros [?|[? ?]]; [by left|right]. split; [done|by apply IH].
Qed.

(** Fixed-width digits sort as the numbers do. *)
Lemma digits_order base k m n :
  0 < base <= 16 -> m < n -> n < base ^ N.of_nat k ->
  key_lt (as_bytes (digits base k m)) (as_bytes (digits base k n)) = true.
Proof.
  intros Hb. revert m n. induction k as [|k IH]; intros m n Hmn Hn; [cbn in Hn; lia|].
  rewrite Nat2N.inj_succ, N.pow_succ_r' in Hn. cbn [digits]. rewrite !as_bytes_app.
  pose proof (N.Div0.div_mod m base) as Em. pose proof (N.Div0.div_mod n base) as En.
  pose proof (N.mod_lt m base ltac:(lia)) as Lm. pose proof (N.mod_lt n base ltac:(lia)) as Ln.
  assert (Hq : m / base <= n / base) by (apply N.Div0.div_le_mono; lia).
  destruct (N.eq_dec (m / base) (n / base)) as [He|Hne].
  - rewrite He, key_lt_app, !digit_byte by lia. cbn. rewrite !to_N_byte_of.
    assert (digit_char (m mod base) < digit_char (n mod base))
      by (unfold digit_char; case_ifs; lia).
    assert (digit_char (n mod base) < 256) by (unfold digit_char; case_ifs; lia).
    apply orb_true_iff. left. apply N.ltb_lt.
    by rewrite (N.mod_small (digit_char (m mod base))), (N.mod_small (digit_char (n mod base))) by lia.
  - apply key_lt_app_same_length; [by rewrite !digits_length|]. apply IH; [lia|].
    apply N.Div0.div_lt_upper_bound. lia.
Qed.

Lemma dec9_inj m n : m < 10 ^ 9 -> n < 10 ^ 9 -> dec9 m = dec9 n -> m = n.
Proof.
  intros Hm Hn He. destruct (N.lt_trichotomy m n) as [Hlt|[|Hlt]]; [|done|];
    pose proof (digits_order 10 9 _ _ ltac:(lia) Hlt ltac:(cbn; lia)) as Ho;
    fold (dec9 m) (dec9 n) in Ho; rewrite He in Ho; by rewrite key_lt_irrefl in Ho.
Qed.

Lemma dec9_length n : length (as_bytes (dec9 n)) = 9%nat.
Proof. by apply digits_length. Qed.

Lemma dec9_ok n : str_ok (dec9 n).
Proof. by apply digits_ok. Qed.

Lemma prefix_same_length a b x y : length a = length b -> a ++ x `prefix_of` b ++ y -> a = b.
Proof.
  intros Hl [z Hz]. rewrite <- app_assoc in Hz. by apply app_inj_1 in Hz as [-> _].
Qed.
End keys.

Section trees.
Context {T : Type} `{TreeLaws T}.
Implicit Types (t : T) (p k v : list byte).

#[local] Instance key_lt_anti : AntiSymm eq (fun a b => key_lt a b = true).
Proof. intros a b H1 H2. pose proof (key_lt_trans _ _ _ H1 H2) as H3. by rewrite key_lt_irrefl in H3. Qed.

(** A scan is its sorted set of entries. *)
Lemma scan_fst t p : Forall (fun e => tree_get t (fst e) = Some (snd e)) (scan_prefix t p).
Proof. apply Forall_forall. intros [k v] He. by apply scan_spec in He as [? _]. Qed.

Lemma scan_by_keys t p ks :
  StronglySorted (fun a b => key_lt a b = true) ks ->
  (forall k, k ∈ ks <-> p `prefix_of` k /\ is_Some (tree_get t k)) ->
  map fst (scan_prefix t p) = ks.
Proof.
  intros Hks He. apply (StronglySorted_unique (fun a b => key_lt a b = true)); [apply scan_sorted|done|].
  assert (Hnd : forall l : list (list byte), StronglySorted (fun a b => key_lt a b = true) l -> NoDup l).
  { induction 1 as [|x l Hs IH Hf]; constructor; [|done]. intros Hin.
    rewrite Forall_forall in Hf. specialize (Hf x Hin). by rewrite key_lt_irrefl in Hf. }
  apply NoDup_Permutation; [apply Hnd, scan_sorted|by apply Hnd|]. intros k. rewrite He.
  rewrite list_elem_of_fmap. split.
  - intros ([k' v] & -> & Hin%scan_spec). cbn. destruct Hin as [-> ?]. by split; [|eexists].
  - intros [Hp [v Hv]]. exists (k, v). split; [done|]. by apply scan_spec.
Qed.

(** The scan determined by its keys. *)
Lemma scan_of_keys t p ks :
  map fst (scan_prefix t p) = ks -> scan_prefix t p = map (fun k => (k, default [] (tree_get t k))) ks.
Proof.
  intros <-. rewrite map_map. rewrite <- (map_id (scan_prefix t p)) at 1.
  apply map_ext_in. intros [k v] Hin%list_elem_of_In.
  apply scan_spec in Hin as [Hg _]. cbn. by rewrite Hg.
Qed.

Lemma scan_empty_iff t p :
  scan_prefix t p = [] <-> forall k v, tree_get t k = Some v -> ~ p `prefix_of` k.
Proof.
  split.
  - intros He k v Hg Hp. assert (Hin : (k, v) ∈ scan_prefix t p) by (by apply scan_spec).
    rewrite He in Hin. by apply not_elem_of_nil in Hin.
  - intros Hn. apply elem_of_nil_inv. intros [k v] [Hg Hp]%scan_spec. by eapply Hn.
Qed.

Lemma scan_keys t p k :
  k ∈ map fst (scan_prefix t p) <-> p `prefix_of` k /\ is_Some (tree_get t k).
Proof.
  rewrite list_elem_of_fmap. split.
  - intros ([k' v] & -> & [Hg Hp]%scan_spec). by split; [|eexists].
  - intros [Hp [v Hv]]. exists (k, v). split; [done|]. by apply scan_spec.
Qed.

(** Equal entries under a prefix, equal scans. *)
Lemma scan_ext t t' p :
  (forall k, p `prefix_of` k -> tree_get t k = tree_get t' k) -> scan_prefix t p = scan_prefix t' p.
Proof.
  intros He. assert (Hk : map fst (scan_prefix t p) = map fst (scan_prefix t' p)).
  { apply scan_by_keys; [apply scan_sorted|]. intros k. rewrite scan_keys.
    split; intros [Hp Hi]; (split; [done|]); [by rewrite He|by rewrite <- He]. }
  transitivity (map (fun k => (k, default [] (tree_get t k))) (map fst (scan_prefix t' p)));
    [by apply scan_of_keys|].
  symmetry. transitivity (map (fun k => (k, default [] (tree_get t' k))) (map fst (scan_prefix t' p)));
    [by apply scan_of_keys|].
  apply map_ext_in. intros k Hin%list_elem_of_In. apply scan_keys in Hin as [Hp _]. by rewrite He.
Qed.

(** Inserting elsewhere changes no scan; inserting after every key of the scan
    appends. *)
Lemma scan_insert_other t k v p : ~ p `prefix_of` k -> scan_prefix (tree_insert t k v) p = scan_prefix t p.
Proof. intros Hp. apply scan_ext. intros k' Hp'. rewrite get_insert. case_decide; [by subst|done]. Qed.

Lemma scan_insert_last t k v p :
  p `prefix_of` k ->
  Forall (fun e => key_lt (fst e) k = true) (scan_prefix t p) ->
  scan_prefix (tree_insert t k v) p = scan_prefix t p ++ [(k, v)].
Proof.
  intros Hp Hlt. assert (Hne : forall k', k' ∈ map fst (scan_prefix t p) -> k' <> k).
  { intros k' (e & -> & Hin)%list_elem_of_fmap He. rewrite Forall_forall in Hlt.
    specialize (Hlt e Hin). cbn beta in Hlt. by rewrite He, key_lt_irrefl in Hlt. }
  assert (Hk : map fst (scan_prefix (tree_insert t k v) p) = map fst (scan_prefix t p) ++ [k]).
  { apply scan_by_keys.
    - pose proof (scan_sorted t p) as Hs. apply (Forall_map fst (fun k' => key_lt k' k = true)) in Hlt.
      clear Hne. induction Hs as [|x l Hs IH Hf]; cbn; [by repeat constructor|].
      apply Forall_cons in Hlt as [Hx Hl]. constructor; [by apply IH|]. apply Forall_app. by repeat constructor.
    - intros k'. rewrite elem_of_app, list_elem_of_singleton, scan_keys, get_insert.
      case_decide as Hd.
      + subst k'. split; [|by right]. intros _. by split; [|eexists].
      + split; [|by left]. intros [?|He]; [done|]. by destruct Hd. }
  rewrite (scan_of_keys _ _ _ Hk), map_app. cbn [map].
  rewrite get_insert, decide_True by done. cbn. f_equal. symmetry.
  transitivity (map (fun k' => (k', default [] (tree_get t k'))) (map fst (scan_prefix t p)));
    [by apply scan_of_keys|]. apply map_ext_in. intros k' Hin%list_elem_of_In.
  rewrite get_insert, decide_False by (intros ->; by eapply Hne). done.
Qed.

Lemma scan_tree_empty p : scan_prefix (tree_empty : T) p = [].
Proof. apply scan_empty_iff. intros k v. by rewrite get_empty. Qed.
End trees.

(** ** Lemmas: the store simulates the mailboxes *)
Section simulation.
Context {T : Type} `{TreeLaws T}.
Implicit Types (st : AppState T) (a : Service) (c : str) (m : Mailbox).

Definition prefix_key (c : str) : list byte := as_bytes (c ++ [colon]).
Definition candidate_key (c : str) (q : N) : list byte := as_bytes (c ++ colon :: hex16 q).

Record sim st a : Prop := {
  sim_seq : CODE_SEQ st = next_code a;
  sim_code : forall c m, boxes a !! c = Some m -> exists n, n < next_code a /\ n < 10 ^ 9 /\ c = dec9 n;
  sim_entry : forall c m, boxes a !! c = Some m -> exists e,
    tree_get (session_codes st) (as_bytes c) = Some e /\ decode_expires_at e = Some (Z.of_N (expires m));
  sim_none : forall c, str_ok c -> boxes a !! c = None -> tree_get (session_codes st) (as_bytes c) = None;
  sim_offer : forall c m, boxes a !! c = Some m -> pending_offer st c = box_offer m;
  sim_answer : forall c m, boxes a !! c = Some m -> pending_answer st c = box_answer m;
  sim_candidates : forall c m, boxes a !! c = Some m -> pending_candidates st c = box_candidates m;
  sim_fresh : forall n, next_code a <= n -> n < 10 ^ 9 ->
    tree_get (offers st) (as_bytes (dec9 n)) = None /\ tree_get (answers st) (as_bytes (dec9 n)) = None /\
    scan_prefix (ice_candidates st) (prefix_key (dec9 n)) = [];
  sim_ice : forall k v, tree_get (ice_candidates st) k = Some v -> exists n q,
    n < 10 ^ 9 /\ q < CAND_SEQ st /\ k = candidate_key (dec9 n) q }.

Lemma sim_new : sim new service_new.
Proof.
  split; cbn [new service_new boxes next_code CODE_SEQ session_codes offers answers ice_candidates];
    try (intros c m Hm; by rewrite lookup_empty in Hm).
  - done.
  - intros. apply get_empty.
  - intros. rewrite !get_empty, scan_tree_empty. done.
  - intros k v. by rewrite get_empty.
Qed.

Lemma code_ok st a c m : sim st a -> boxes a !! c = Some m -> str_ok c.
Proof. intros Hs Hm. destruct (sim_code _ _ Hs _ _ Hm) as (n & _ & _ & ->). apply dec9_ok. Qed.

Lemma codes_differ st a c c' m m' :
  sim st a -> boxes a !! c = Some m -> boxes a !! c' = Some m' -> c <> c' -> as_bytes c <> as_bytes c'.
Proof. intros Hs H1 H2 Hne He. apply Hne. eapply as_bytes_inj; [by eapply code_ok..|done]. Qed.

Lemma fresh_differs st a c m n :
  sim st a -> boxes a !! c = Some m -> next_code a <= n -> n < 10 ^ 9 -> c <> dec9 n.
Proof.
  intros Hs Hm Hn Hn9 He. destruct (sim_code _ _ Hs _ _ Hm) as (n0 & Hlt & Hl9 & ->).
  apply dec9_inj in He; [lia|done|done].
Qed.

Lemma fresh_absent st a n : sim st a -> next_code a <= n -> n < 10 ^ 9 -> boxes a !! dec9 n = None.
Proof.
  intros Hs Hn Hn9. destruct (boxes a !! dec9 n) as [m|] eqn:Hm; [|done].
  exfalso. by eapply (fresh_differs st a _ m n).
Qed.

Lemma check_code_sim st a now c :
  sim st a -> str_ok c ->
  check_code st now c = match live_box a now c with Some _ => true | None => false end.
Proof.
  intros Hs Hc. unfold check_code, live_box. destruct (boxes a !! c) as [m|] eqn:Hm; cbn.
  - destruct (sim_entry _ _ Hs _ _ Hm) as (e & -> & He). unfold live. rewrite He.
    destruct (N.ltb_spec now (expires m)), (Z.ltb_spec (Z.of_N now) (Z.of_N (expires m))); done || lia.
  - by rewrite (sim_none _ _ Hs).
Qed.

Lemma live_box_Some a now c m : live_box a now c = Some m -> boxes a !! c = Some m.
Proof. unfold live_box. destruct (boxes a !! c) as [m'|]; cbn; [|done]. case_ifs; [|done]. by intros [= ->]. Qed.

Lemma entry_expires (now ttl : N) :
  now + ttl < 2 ^ 63 -> decode_expires_at (encode_entry now (now + ttl) []) = Some (Z.of_N (now + ttl)).
Proof.
  intros Hn. unfold decode_expires_at, encode_entry. rewrite app_nil_r, lenN_app, !lenN_le_bytes.
  rewrite (take_app_length' (le_bytes 8 (now + ttl))) by (by rewrite le_bytes_length).
  rewrite le_value_bytes_small by (cbn; lia). unfold as_signed. rewrite wrap_small by (cbn; lia).
  change (8 <=? N.of_nat 8 + N.of_nat 8) with true.
  rewrite (proj2 (N.ltb_lt (now + ttl) (2 ^ (64 - 1)))) by exact Hn. done.
Qed.

Lemma pending_other (o : T) c s c' :
  as_bytes c <> as_bytes c' ->
  (v ← tree_get (tree_insert o (as_bytes c) s) (as_bytes c'); from_utf8 v) =
  (v ← tree_get o (as_bytes c'); from_utf8 v).
Proof. intros Hne. rewrite get_insert, decide_False by done. done. Qed.

Lemma pending_same (o : T) c (s : str) :
  str_ok s -> (v ← tree_get (tree_insert o (as_bytes c) (as_bytes s)) (as_bytes c); from_utf8 v) = Some s.
Proof. intros Hs. rewrite get_insert, decide_True by done. cbn. by apply from_utf8_as_bytes. Qed.

(** *** One request *)
Lemma sim_drop st a c :
  sim st a -> str_ok c ->
  sim (with_sessions st (tree_remove (session_codes st) (as_bytes c))) (drop_box a c).
Proof.
  intros Hs Hc. split; cbn [with_sessions drop_box boxes next_code CODE_SEQ session_codes CAND_SEQ].
  - apply (sim_seq _ _ Hs).
  - intros c' m [_ Hm]%lookup_delete_Some. by apply (sim_code _ _ Hs _ m).
  - intros c' m [Hne Hm]%lookup_delete_Some. destruct (sim_entry _ _ Hs _ _ Hm) as (e & He & Hx).
    exists e. split; [|done]. rewrite get_remove, decide_False; [done|]. intros E.
    apply Hne. eapply as_bytes_inj; [done|by eapply code_ok|done].
  - intros c' Hc' Hm. rewrite get_remove. case_decide as Hd; [done|]. apply (sim_none _ _ Hs); [done|].
    destruct (decide (c = c')) as [->|Hne]; [done|]. by rewrite lookup_delete_ne in Hm.
  - intros c' m [_ Hm]%lookup_delete_Some. apply (sim_offer _ _ Hs _ _ Hm).
  - intros c' m [_ Hm]%lookup_delete_Some. apply (sim_answer _ _ Hs _ _ Hm).
  - intros c' m [_ Hm]%lookup_delete_Some. apply (sim_candidates _ _ Hs _ _ Hm).
  - apply (sim_fresh _ _ Hs).
  - apply (sim_ice _ _ Hs).
Qed.

Lemma sim_same st a c : sim st a -> boxes a !! c = None -> drop_box a c = a.
Proof. intros _ Hm. unfold drop_box. rewrite delete_id by done. by destruct a. Qed.

Lemma sim_post_session st a now :
  sim st a -> now < 2 ^ 62 -> next_code a < 10 ^ 9 ->
  let '(st', r) := post_session st now in
  let '(a', r') := spec_serve a now PostSession in
  r = r' /\ sim st' a' /\ CAND_SEQ st' = CAND_SEQ st.
Proof.
  intros Hs Hn H9. pose proof (sim_seq _ _ Hs) as Hq. unfold post_session, gen_code, spec_serve.
  rewrite Hq, N.mod_small, wrap_small by lia. set (c := dec9 (next_code a)).
  split; [done|]. split; [|done].
  destruct (sim_fresh _ _ Hs (next_code a)) as (Fo & Fa & Fi); [lia|done|].
  split; cbn [with_sessions boxes next_code CODE_SEQ session_codes CAND_SEQ expires box_offer].
  - done.
  - intros c' m [[<- <-]|[_ Hm]]%lookup_insert_Some; [by exists (next_code a); split; [lia|]|].
    destruct (sim_code _ _ Hs _ _ Hm) as (n & ? & ? & ?). exists n. split; [lia|done].
  - intros c' m [[<- <-]|[Hne Hm]]%lookup_insert_Some.
    + eexists. rewrite get_insert, decide_True by done. split; [done|]. apply entry_expires.
      unfold SESSION_TTL. lia.
    + destruct (sim_entry _ _ Hs _ _ Hm) as (e & He & Hx). exists e. split; [|done].
      rewrite get_insert, decide_False; [done|]. intros E. apply Hne.
      eapply as_bytes_inj; [apply dec9_ok|by eapply code_ok|done].
  - intros c' Hc' [Hm Hne]%lookup_insert_None. rewrite get_insert, decide_False; [by apply (sim_none _ _ Hs)|].
    intros E. apply Hne. eapply as_bytes_inj; [apply dec9_ok|done|done].
  - intros c' m [[<- <-]|[_ Hm]]%lookup_insert_Some; [|apply (sim_offer _ _ Hs _ _ Hm)].
    unfold pending_offer. cbn [with_sessions offers]. fold c in Fo. by rewrite Fo.
  - intros c' m [[<- <-]|[_ Hm]]%lookup_insert_Some; [|apply (sim_answer _ _ Hs _ _ Hm)].
    unfold pending_answer. cbn [with_sessions answers]. fold c in Fa. by rewrite Fa.
  - intros c' m [[<- <-]|[_ Hm]]%lookup_insert_Some; [|apply (sim_candidates _ _ Hs _ _ Hm)].
    unfold pending_candidates. cbn [with_sessions ice_candidates]. unfold prefix_key in Fi. fold c in Fi. by rewrite Fi.
  - intros n Hn' Hn9. apply (sim_fresh _ _ Hs); [lia|done].
  - apply (sim_ice _ _ Hs).
Qed.

(** Writing the offer or the answer of a live box. *)
Lemma sim_put_offer st a c m sdp :
  sim st a -> boxes a !! c = Some m -> str_ok sdp ->
  sim (with_offers st (tree_insert (offers st) (as_bytes c) (as_bytes sdp)))
    (put_box a c (mkMailbox (expires m) (Some sdp) (box_answer m) (box_candidates m))).
Proof.
  intros Hs Hm Hsdp. split; cbn [with_offers put_box boxes next_code CODE_SEQ session_codes CAND_SEQ
    ice_candidates offers answers].
  - apply (sim_seq _ _ Hs).
  - intros c' m' [[<- _]|[_ Hm']]%lookup_insert_Some; by eapply (sim_code _ _ Hs).
  - intros c' m' [[<- <-]|[_ Hm']]%lookup_insert_Some; [apply (sim_entry _ _ Hs _ _ Hm)|by apply (sim_entry _ _ Hs)].
  - intros c' Hc' [Hm' _]%lookup_insert_None. by apply (sim_none _ _ Hs).
  - intros c' m' [[<- <-]|[Hne Hm']]%lookup_insert_Some; unfold pending_offer; cbn [offers with_offers].
    + by apply pending_same.
    + rewrite pending_other; [apply (sim_offer _ _ Hs _ _ Hm')|by eapply codes_differ].
  - intros c' m' [[<- <-]|[Hne Hm']]%lookup_insert_Some; [apply (sim_answer _ _ Hs _ _ Hm)|by apply (sim_answer _ _ Hs)].
  - intros c' m' [[<- <-]|[Hne Hm']]%lookup_insert_Some;
      [apply (sim_candidates _ _ Hs _ _ Hm)|by apply (sim_candidates _ _ Hs)].
  - intros n Hn Hn9. rewrite get_insert, decide_False; [by apply (sim_fresh _ _ Hs)|].
    intros E. eapply (fresh_differs st a c m n); [done..|]. eapply as_bytes_inj; [by eapply code_ok|apply dec9_ok|done].
  - apply (sim_ice _ _ Hs).
Qed.

Lemma sim_put_answer st a c m sdp :
  sim st a -> boxes a !! c = Some m -> str_ok sdp ->
  sim (with_answers st (tree_insert (answers st) (as_bytes c) (as_bytes sdp)))
    (put_box a c (mkMailbox (expires m) (box_offer m) (Some sdp) (box_candidates m))).
Proof.
  intros Hs Hm Hsdp. split; cbn [with_answers put_box boxes next_code CODE_SEQ session_codes CAND_SEQ
    ice_candidates offers answers].
  - apply (sim_seq _ _ Hs).
  - intros c' m' [[<- _]|[_ Hm']]%lookup_insert_Some; by eapply (sim_code _ _ Hs).
  - intros c' m' [[<- <-]|[_ Hm']]%lookup_insert_Some; [apply (sim_entry _ _ Hs _ _ Hm)|by apply (sim_entry _ _ Hs)].
  - intros c' Hc' [Hm' _]%lookup_insert_None. by apply (sim_none _ _ Hs).
  - intros c' m' [[<- <-]|[Hne Hm']]%lookup_insert_Some; [apply (sim_offer _ _ Hs _ _ Hm)|by apply (sim_offer _ _ Hs)].
  - intros c' m' [[<- <-]|[Hne Hm']]%lookup_insert_Some; unfold pending_answer; cbn [answers with_answers].
    + by apply pending_same.
    + rewrite pending_other; [apply (sim_answer _ _ Hs _ _ Hm')|by eapply codes_differ].
  - intros c' m' [[<- <-]|[Hne Hm']]%lookup_insert_Some;
      [apply (sim_candidates _ _ Hs _ _ Hm)|by apply (sim_candidates _ _ Hs)].
  - intros n Hn Hn9. rewrite get_insert, decide_False; [by apply (sim_fresh _ _ Hs)|].
    intros E. eapply (fresh_differs st a c m n); [done..|]. eapply as_bytes_inj; [by eapply code_ok|apply dec9_ok|done].
  - apply (sim_ice _ _ Hs).
Qed.

(** Candidate keys: of this code exactly those under its prefix, in posting order. *)
Lemma prefix_candidate n n' q :
  prefix_key (dec9 n) `prefix_of` candidate_key (dec9 n') q -> dec9 n = dec9 n'.
Proof.
  unfold prefix_key, candidate_key. rewrite !as_bytes_app. intros Hp%prefix_same_length;
    [|by rewrite !dec9_length]. eapply as_bytes_inj; [apply dec9_ok..|done].
Qed.

Lemma prefix_candidate_same c q : prefix_key c `prefix_of` candidate_key c q.
Proof.
  unfold prefix_key, candidate_key. change (colon :: hex16 q) with ([colon] ++ hex16 q).
  rewrite app_assoc, (as_bytes_app (c ++ [colon])). by eexists.
Qed.

Lemma candidate_order c q q' : q < q' -> q' < 2 ^ 64 -> key_lt (candidate_key c q) (candidate_key c q') = true.
Proof.
  intros Hq Hq'. unfold candidate_key. change (colon :: hex16 ?x) with ([colon] ++ hex16 x).
  rewrite !app_assoc, !(as_bytes_app (c ++ [colon])), key_lt_app. apply digits_order; [lia|done|done].
Qed.

Lemma strings_app l l' : strings (l ++ l') = strings l ++ strings l'.
Proof. apply omap_app. Qed.

Lemma sim_put_candidate st a now c m s :
  sim st a -> live_box a now c = Some m -> str_ok s -> CAND_SEQ st + 1 < 2 ^ 64 ->
  sim (fst (post_candidate st now c s))
    (put_box a c (mkMailbox (expires m) (box_offer m) (box_answer m) (box_candidates m ++ [s]))).
Proof.
  intros Hs Hl Hstr Hq. pose proof (live_box_Some _ _ _ _ Hl) as Hm.
  pose proof (code_ok _ _ _ _ Hs Hm) as Hc. unfold post_candidate.
  rewrite (check_code_sim st a) by done. rewrite Hl. cbn [negb fst]. rewrite wrap_small by lia.
  fold (candidate_key c (CAND_SEQ st)). destruct (sim_code _ _ Hs _ _ Hm) as (n0 & Hn0 & Hn9 & Ec).
  split; cbn [put_box boxes next_code CODE_SEQ session_codes CAND_SEQ ice_candidates offers answers].
  - apply (sim_seq _ _ Hs).
  - intros c' m' [[<- _]|[_ Hm']]%lookup_insert_Some; by eapply (sim_code _ _ Hs).
  - intros c' m' [[<- <-]|[_ Hm']]%lookup_insert_Some; [apply (sim_entry _ _ Hs _ _ Hm)|by apply (sim_entry _ _ Hs)].
  - intros c' Hc' [Hm' _]%lookup_insert_None. by apply (sim_none _ _ Hs).
  - intros c' m' [[<- <-]|[Hne Hm']]%lookup_insert_Some; [apply (sim_offer _ _ Hs _ _ Hm)|by apply (sim_offer _ _ Hs)].
  - intros c' m' [[<- <-]|[Hne Hm']]%lookup_insert_Some; [apply (sim_answer _ _ Hs _ _ Hm)|by apply (sim_answer _ _ Hs)].
  - intros c' m' [[<- <-]|[Hne Hm']]%lookup_insert_Some; unfold pending_candidates; cbn [ice_candidates].
    + fold (prefix_key c). rewrite scan_insert_last.
      * rewrite strings_app. pose proof (sim_candidates _ _ Hs _ _ Hm) as <-. unfold pending_candidates.
        fold (prefix_key c). f_equal. unfold strings. cbn. by rewrite from_utf8_as_bytes.
      * apply prefix_candidate_same.
      * apply Forall_forall. intros [k v] [Hk Hp]%scan_spec. cbn [fst].
        destruct (sim_ice _ _ Hs _ _ Hk) as (n' & q & Hn' & Hqq & ->). rewrite Ec in Hp.
        apply prefix_candidate in Hp. rewrite <- Hp, <- Ec. apply candidate_order; lia.
    + fold (prefix_key c'). rewrite scan_insert_other; [apply (sim_candidates _ _ Hs _ _ Hm')|]. intros Hp.
      destruct (sim_code _ _ Hs _ _ Hm') as (n' & _ & _ & Ec'). rewrite Ec, Ec' in Hp.
      apply prefix_candidate in Hp. congruence.
  - intros n Hn Hn'. destruct (sim_fresh _ _ Hs n Hn Hn') as (Fo & Fa & Fi).
    split; [done|]. split; [done|]. rewrite scan_insert_other; [done|]. intros Hp.
    rewrite Ec in Hp. apply prefix_candidate in Hp. eapply (fresh_differs st a c m n); [done..|]. congruence.
  - intros k v. rewrite get_insert. case_decide as Hk.
    + intros _. exists n0, (CAND_SEQ st). subst k. rewrite <- Ec. split; [done|]. split; [lia|done].
    + intros Hg. destruct (sim_ice _ _ Hs _ _ Hg) as (n & q & ? & ? & ->). exists n, q. split; [done|].
      split; [lia|done].
Qed.

(** Every request: the same answer, and the simulation goes on. *)
Lemma sim_serve st a now r :
  sim st a -> request_ok (now, r) -> next_code a < 10 ^ 9 -> CAND_SEQ st + 1 < 2 ^ 64 ->
  let '(st', x) := serve st now r in
  let '(a', x') := spec_serve a now r in
  x = x' /\ sim st' a' /\ next_code a' <= next_code a + 1 /\ CAND_SEQ st' <= CAND_SEQ st + 1.
Proof.
  intros Hs [Hn Hr] Hc9 Hq. cbn [fst snd] in *.
  destruct r as [|c|c|c s|c o|c s|c]; cbn [serve].
  - pose proof (sim_post_session st a now Hs Hn Hc9) as Hp. destruct (post_session st now) as [st' x].
    destruct (spec_serve a now PostSession) as [a' x'] eqn:E. destruct Hp as (-> & Hs' & ->).
    injection E as <- <-. cbn [next_code]. split; [done|]. split; [done|]. lia.
  - unfold get_join. cbn [spec_serve]. unfold live_box. destruct (boxes a !! c) as [m|] eqn:Hm; cbn [mbind option_bind].
    + destruct (sim_entry _ _ Hs _ _ Hm) as (e & -> & He). unfold live. rewrite He.
      destruct (N.ltb_spec now (expires m)), (Z.ltb_spec (Z.of_N now) (Z.of_N (expires m))); try lia.
      * rewrite (sim_offer _ _ Hs _ _ Hm), (sim_candidates _ _ Hs _ _ Hm). split; [done|]. split; [done|]. lia.
      * split; [done|]. split; [by apply sim_drop|]. cbn. lia.
    + rewrite (sim_none _ _ Hs) by done. rewrite (sim_same st a c) by done. split; [done|]. split; [done|]. lia.
  - unfold get_answer. rewrite (check_code_sim st a) by done. cbn [spec_serve].
    destruct (live_box a now c) as [m|] eqn:Hl; cbn [negb]; (split; [|split; [done|lia]]); [|done].
    by rewrite (sim_answer _ _ Hs _ _ (live_box_Some _ _ _ _ Hl)).
  - destruct Hr as [Hc Hss]. unfold post_offer. rewrite (check_code_sim st a) by done. cbn [spec_serve].
    destruct (live_box a now c) as [m|] eqn:Hl; cbn [negb]; (split; [done|split; [|cbn; lia]]); [|done].
    apply live_box_Some in Hl. by apply sim_put_offer.
  - unfold post_answer. cbn [spec_serve].
    assert (Hc : str_ok c) by (destruct o; [apply Hr|done]). rewrite (check_code_sim st a) by done.
    destruct (live_box a now c) as [m|] eqn:Hl; cbn [negb]; [|split; [done|split; [done|lia]]].
    destruct o as [s|]; (split; [done|split; [|cbn; lia]]); [|done].
    apply live_box_Some in Hl. apply sim_put_answer; [done|done|apply Hr].
  - destruct Hr as [Hc Hss]. cbn [spec_serve]. destruct (live_box a now c) as [m|] eqn:Hl.
    + pose proof (sim_put_candidate st a now c m s Hs Hl Hss Hq) as Hp. unfold post_candidate in *.
      rewrite (check_code_sim st a), Hl in Hp |- * by done. cbn [negb fst] in *. rewrite wrap_small in * by lia.
      split; [done|]. split; [exact Hp|]. cbn. lia.
    + unfold post_candidate. rewrite (check_code_sim st a), Hl by done. cbn [negb]. split; [done|]. split; [done|]. lia.
  - unfold post_connected. rewrite (check_code_sim st a) by done. cbn [spec_serve].
    destruct (live_box a now c) as [m|]; cbn [negb]; (split; [done|split; [|cbn; lia]]); [by apply sim_drop|done].
Qed.

Lemma sim_serve_all st a reqs :
  sim st a -> Forall request_ok reqs -> next_code a + lenN reqs <= 10 ^ 9 ->
  CAND_SEQ st + lenN reqs < 2 ^ 64 ->
  snd (serve_all st reqs) = snd (spec_serve_all a reqs).
Proof.
  intros Hs Hr. revert st a Hs. induction Hr as [|[now r] reqs Hr _ IH]; intros st a Hs Hc Hq; [done|].
  rewrite lenN_cons in *. cbn [serve_all spec_serve_all].
  pose proof (sim_serve st a now r Hs Hr ltac:(lia) ltac:(lia)) as Hp.
  destruct (serve st now r) as [st1 x], (spec_serve a now r) as [a1 x']. destruct Hp as (-> & Hs1 & H1 & H2).
  specialize (IH st1 a1 Hs1 ltac:(lia) ltac:(lia)).
  destruct (serve_all st1 reqs), (spec_serve_all a1 reqs). cbn in *. by f_equal.
Qed.
End simulation.

(** ** An instance of the store *)

(** Sorting by a key. *)
Section sort_by.
Context {A : Type} (f : A -> list byte).
Implicit Types l : list A.

Definition by_key (x y : A) : Prop := key_lt (f y) (f x) = false.

#[export] Instance by_key_dec : RelDecision by_key.
Proof. intros x y. unfold by_key. apply _. Defined.

Definition sort_by l : list A := merge_sort by_key l.

#[local] Instance by_key_trans : Transitive by_key.
Proof.
  intros x y z. unfold by_key. intros H1 H2.
  destruct (key_lt (f z) (f x)) eqn:H3; [|done]. destruct (key_lt (f x) (f y)) eqn:H4.
  - pose proof (key_lt_trans _ _ _ H3 H4). congruence.
  - rewrite (key_lt_total _ _ H4 H1) in H3. congruence.
Qed.

#[local] Instance by_key_total : Total by_key.
Proof.
  intros x y. unfold by_key. destruct (key_lt (f y) (f x)) eqn:H1; [|by left].
  destruct (key_lt (f x) (f y)) eqn:H2; [|by right].
  pose proof (key_lt_trans _ _ _ H1 H2) as H3. by rewrite key_lt_irrefl in H3.
Qed.

Lemma sort_by_perm l : sort_by l ≡ₚ l.
Proof. apply merge_sort_Permutation. Qed.

Lemma sort_by_strict l :
  NoDup (map f l) -> StronglySorted (fun a b => key_lt a b = true) (map f (sort_by l)).
Proof.
  intros Hnd. assert (Hp : map f (sort_by l) ≡ₚ map f l) by (by rewrite sort_by_perm). rewrite <- Hp in Hnd.
  clear Hp. pose proof (StronglySorted_merge_sort by_key l) as Hs. unfold sort_by in *.
  induction Hs as [|x l' Hs IH Hf]; [constructor|].
  cbn [map] in *. apply NoDup_cons in Hnd as [Hx Hnd]. constructor; [by apply IH|].
  apply Forall_forall. intros k (y & -> & Hy)%list_elem_of_fmap.
  rewrite Forall_forall in Hf. specialize (Hf y Hy). unfold by_key in Hf.
  destruct (key_lt (f x) (f y)) eqn:Hlt; [done|]. exfalso. apply Hx.
  rewrite (key_lt_total _ _ Hlt Hf). apply list_elem_of_fmap. by exists y.
Qed.
End sort_by.

#[export] Instance gmap_tree : Tree (gmap (list byte) (list byte)) := {
  tree_empty := ∅;
  tree_get t k := t !! k;
  tree_insert t k v := <[k := v]> t;
  tree_remove t k := delete k t;
  scan_prefix t p := sort_by fst (filter (fun e => p `prefix_of` fst e) (map_to_list t));
}.

#[export] Instance gmap_tree_laws : TreeLaws (gmap (list byte) (list byte)).
Proof.
  split; cbn [tree_get tree_empty tree_insert tree_remove scan_prefix gmap_tree].
  - intros k. apply lookup_empty.
  - intros t k v k'. case_decide; [subst; apply lookup_insert_eq|by apply lookup_insert_ne].
  - intros t k k'. case_decide; [subst; apply lookup_delete_eq|by apply lookup_delete_ne].
  - intros t p k v. rewrite sort_by_perm, list_elem_of_filter, elem_of_map_to_list. cbn. tauto.
  - intros t p. apply sort_by_strict. eapply (sublist_NoDup _ (map fst (map_to_list t)));
      [apply NoDup_fst_map_to_list|]. apply (fmap_sublist fst), sublist_filter.
Qed.

(** ** Properties *)

(** C24: The rendezvous is a mailbox per code: whatever requests arrive, with
    whatever clock, every answer is that of a service that keeps, for each code it
    handed out, one box with the last offer, the last answer and all candidates in
    the order they were posted, until the box expires or the peers are connected;
    the seven string-keyed trees, their formatted keys and prefix scans do not
    show.  It holds for the first 900 million requests, before the codes repeat, of a
    process that starts on an empty store; on a store kept from an earlier process
    it fails at once ([restart_revives_old_session]). *)
Theorem service_refines_mailboxes `{TreeLaws T} (reqs : list (N * Request)) :
  Forall request_ok reqs -> lenN reqs <= 900000000 ->
  snd (serve_all new reqs) = snd (spec_serve_all service_new reqs).
Proof.
  intros Hr Hl. apply sim_serve_all; [apply sim_new|done|cbn; lia|cbn [CAND_SEQ new]; lia].
Qed.

Lemma service_refines_mailboxes_witness :
  let c := dec9 100000000 in
  snd (serve_all (new : AppState (gmap (list byte) (list byte)))
    [(5, PostSession); (6, PostCandidate c [0x61]); (7, PostCandidate c [0x62]); (8, PostOffer c [0x6f]);
     (9, GetJoin c); (10, PostConnected c); (11, GetJoin c)]) =
  [Created c; ACCEPTED; ACCEPTED; OK; Joined (Some [0x6f]) [[0x61]; [0x62]]; OK; NOT_FOUND].
Proof.
  intros c. rewrite service_refines_mailboxes; [vm_compute; reflexivity| |vm_compute; discriminate].
  repeat (apply Forall_cons; split; [split; [reflexivity|]; cbn; repeat split; repeat constructor|]).
  by apply Forall_nil.
Defined.

(** What a closed session leaves behind: the boxes are not emptied, and the code
    counter starts over with the process, so on a store kept on disk the first
    session after a restart answers with the offer and the candidates of the
    first session before it, although those peers connected and their code was
    withdrawn. *)
Theorem restart_revives_old_session `{TreeLaws T} (before after : N) (sdp candidate : str) :
  before < 2 ^ 62 -> after < 2 ^ 62 -> str_ok sdp -> str_ok candidate ->
  let c := dec9 100000000 in
  let '(st, answers) := serve_all (new : AppState T)
    [(before, PostSession); (before, PostOffer c sdp); (before, PostCandidate c candidate);
     (before, PostConnected c); (before, GetJoin c)] in
  answers = [Created c; OK; ACCEPTED; OK; NOT_FOUND] /\
  snd (serve_all (reopen st) [(after, PostSession); (after, GetJoin c)]) =
    [Created c; Joined (Some sdp) [candidate]].
Proof.
  intros Hb Ha Hs Hc c. unfold serve_all, serve, post_session, gen_code. fold c.
  assert (Hlive : forall now, now < 2 ^ 62 -> live now (encode_entry now (now + SESSION_TTL) []) = true).
  { intros now Hn. unfold live. rewrite entry_expires by (unfold SESSION_TTL; lia).
    apply Z.ltb_lt. unfold SESSION_TTL. lia. }
  change (dec9 (CODE_SEQ (new : AppState T) mod 1000000000)) with c.
  unfold post_offer, post_candidate, post_connected, get_join, check_code.
  cbn [with_sessions with_offers session_codes offers ice_candidates CAND_SEQ new].
  rewrite get_insert, decide_True, Hlive by done. cbn [negb].
  cbn [with_sessions with_offers session_codes offers ice_candidates CAND_SEQ].
  rewrite get_insert, decide_True, Hlive by done. cbn [negb].
  cbn [with_sessions with_offers session_codes offers ice_candidates CAND_SEQ].
  rewrite get_insert, decide_True, Hlive by done. cbn [negb].
  cbn [with_sessions with_offers session_codes offers ice_candidates CAND_SEQ].
  rewrite get_remove, decide_True by done. split; [done|].
  cbn [reopen session_codes CODE_SEQ]. change (dec9 (100000000 mod 1000000000)) with c.
  cbn [with_sessions session_codes]. rewrite get_insert, decide_True, Hlive by done. cbn [snd].
  unfold pending_offer, pending_candidates. cbn [with_sessions reopen offers ice_candidates].
  rewrite pending_same by done. fold (prefix_key c) (candidate_key c 0).
  rewrite scan_insert_last, scan_tree_empty;
    [|apply prefix_candidate_same|rewrite scan_tree_empty; constructor].
  unfold strings. cbn. by rewrite from_utf8_as_bytes.
Qed.

Lemma restart_revives_old_session_witness :
  let c := dec9 100000000 in
  let '(st, answers) := serve_all (new : AppState (gmap (list byte) (list byte)))
    [(5, PostSession); (5, PostOffer c [0x6f]); (5, PostCandidate c [0x61]);
     (5, PostConnected c); (5, GetJoin c)] in
  answers = [Created c; OK; ACCEPTED; OK; NOT_FOUND] /\
  snd (serve_all (reopen st) [(1000, PostSession); (1000, GetJoin c)]) =
    [Created c; Joined (Some [0x6f]) [[0x61]]].
Proof.
  apply (restart_revives_old_session 5 1000 [0x6f] [0x61]); [reflexivity|reflexivity|by repeat constructor..].
Defined.
