(* ===== verification/Rooms.v ===== *)
(** Rooms for group calls: [core/signaling/src/room.rs], on the store of
    Signaling. *)
From stdpp Require Import sorting.
From S2P Require Import Prelude Text Numeral Signaling.
#[local] Open Scope N_scope.

Definition MESH_MAX_PARTICIPANTS : nat := 4.
Definition ROOM_TTL_SECS : N := 300.

Section store.
Context {T : Type} `{Tree T}.
Implicit Types (st : AppState T) (t : T) (code pid : str).

Definition with_rooms st t : AppState T :=
  {| session_codes := session_codes st; ice_candidates := ice_candidates st; offers := offers st;
     answers := answers st; rooms := t; room_members := room_members st;
     room_candidates := room_candidates st; CODE_SEQ := CODE_SEQ st; CAND_SEQ := CAND_SEQ st |}.

Definition with_members st t : AppState T :=
  {| session_codes := session_codes st; ice_candidates := ice_candidates st; offers := offers st;
     answers := answers st; rooms := rooms st; room_members := t;
     room_candidates := room_candidates st; CODE_SEQ := CODE_SEQ st; CAND_SEQ := CAND_SEQ st |}.

Definition create_room st (now : N) code : AppState T :=
  with_rooms st (tree_insert (rooms st) (as_bytes code) (le_bytes 8 (now + ROOM_TTL_SECS))).

Definition room_live st (now : N) code : AppState T * bool :=
  match tree_get (rooms st) (as_bytes code) with
  | Some v =>
      match decode_expires_at v with
      | Some exp =>
          if (Z.of_N now <? exp)%Z then (st, true)
          else (with_rooms st (tree_remove (rooms st) (as_bytes code)), false)
      | None => (st, false)
      end
  | None => (st, false)
  end.

Definition room_participants st code : list str :=
  let prefix := code ++ [colon] in
  omap (fun e => s ← from_utf8 (fst e); strip_prefix prefix s)
    (scan_prefix (room_members st) (as_bytes prefix)).

Definition member_key code pid : list byte := as_bytes (code ++ colon :: pid).

Definition add_participant st code pid (pubkey_hex : str) : AppState T * bool :=
  let key := member_key code pid in
  let is_new := bool_decide (tree_get (room_members st) key = None) in
  if is_new && (MESH_MAX_PARTICIPANTS <=? length (room_participants st code))%nat then (st, false)
  else (with_members st (tree_insert (room_members st) key (as_bytes pubkey_hex)), true).

Definition participant_pubkey st code pid : option str :=
  v ← tree_get (room_members st) (member_key code pid); from_utf8 v.

Definition participant_candidates st code pid : list str :=
  strings (scan_prefix (room_candidates st) (as_bytes (code ++ colon :: pid ++ [colon]))).

Definition room_candidate_key code pid (q : N) : list byte :=
  as_bytes (code ++ colon :: pid ++ colon :: hex16 q).

Definition add_room_candidate st code pid (q : N) (cand : str) : AppState T :=
  {| session_codes := session_codes st; ice_candidates := ice_candidates st; offers := offers st;
     answers := answers st; rooms := rooms st; room_members := room_members st;
     room_candidates :=
       tree_insert (room_candidates st) (room_candidate_key code pid q) (as_bytes cand);
     CODE_SEQ := CODE_SEQ st; CAND_SEQ := CAND_SEQ st |}.

Definition next_candidate_seq st : N * AppState T :=
  (CAND_SEQ st,
   {| session_codes := session_codes st; ice_candidates := ice_candidates st; offers := offers st;
      answers := answers st; rooms := rooms st; room_members := room_members st;
      room_candidates := room_candidates st; CODE_SEQ := CODE_SEQ st;
      CAND_SEQ := wrap 64 (CAND_SEQ st + 1) |}).

(** ** The handlers *)
Definition post_room st (now : N) : AppState T * Response :=
  let '(code, st) := gen_code st in (create_room st now code, Created code).

Definition post_room_join st (now : N) code pid (pubkey : str) : AppState T * Response :=
  let '(st, live) := room_live st now code in
  if negb live then (st, NOT_FOUND)
  else if (str_len pid =? 0) || (64 <? str_len pid) then (st, BAD_REQUEST)
  else
    let '(st, joined) := add_participant st code pid pubkey in
    (st, if joined : bool then OK else CONFLICT).

Definition post_room_candidate st (now : N) code pid (cand : str) : AppState T * Response :=
  let '(st, live) := room_live st now code in
  if negb live then (st, NOT_FOUND)
  else
    match participant_pubkey st code pid with
    | None => (st, FORBIDDEN)
    | Some _ =>
        let '(q, st) := next_candidate_seq st in
        (add_room_candidate st code pid q cand, ACCEPTED)
    end.

Definition get_room st (now : N) code : AppState T * Response :=
  let '(st, live) := room_live st now code in
  if negb live then (st, NOT_FOUND)
  else
    (st, RosterOf (map (fun pid => (pid, default [] (participant_pubkey st code pid),
                                    participant_candidates st code pid))
                     (room_participants st code))).

Inductive RoomRequest :=
| PostRoom
| JoinRoom (code pid pubkey : str)
| RoomCandidate (code pid candidate : str)
| GetRoom (code : str).

Definition serve st (now : N) (r : RoomRequest) : AppState T * Response :=
  match r with
  | PostRoom => post_room st now
  | JoinRoom code pid pubkey => post_room_join st now code pid pubkey
  | RoomCandidate code pid candidate => post_room_candidate st now code pid candidate
  | GetRoom code => get_room st now code
  end.

Fixpoint serve_all st (reqs : list (N * RoomRequest)) : AppState T * list Response :=
  match reqs with
  | [] => (st, [])
  | (now, r) :: reqs =>
      let '(st, resp) := serve st now r in
      let '(st, resps) := serve_all st reqs in
      (st, resp :: resps)
  end.
End store.

(** ** What the rooms promise: a roster per code *)
Record Room := mkRoom { expires : N; members : gmap str str; posted : gmap str (list str) }.
Record Rooms := mkRooms { all_rooms : gmap str Room; next_code : N }.

Definition rooms_new : Rooms := {| all_rooms := ∅; next_code := 100000000 |}.

(** Participants in the order of their ids' bytes. *)
Definition roster (r : Room) : list (str * str * list str) :=
  map (fun e => (fst e, snd e, default [] (posted r !! fst e)))
    (sort_by (fun e => as_bytes (fst e)) (map_to_list (members r))).

Definition put_room (a : Rooms) (c : str) (r : Room) : Rooms :=
  {| all_rooms := <[c := r]> (all_rooms a); next_code := next_code a |}.

Definition find_room (a : Rooms) (now : N) (c : str) : Rooms * option Room :=
  match all_rooms a !! c with
  | Some r =>
      if now <? expires r then (a, Some r)
      else ({| all_rooms := delete c (all_rooms a); next_code := next_code a |}, None)
  | None => (a, None)
  end.

Definition spec_serve (a : Rooms) (now : N) (q : RoomRequest) : Rooms * Response :=
  match q with
  | PostRoom =>
      let c := dec9 (next_code a) in
      ({| all_rooms := <[c := mkRoom (now + ROOM_TTL_SECS) ∅ ∅]> (all_rooms a);
          next_code := next_code a + 1 |}, Created c)
  | JoinRoom c pid key =>
      let '(a, r) := find_room a now c in
      match r with
      | None => (a, NOT_FOUND)
      | Some r =>
          if (str_len pid =? 0) || (64 <? str_len pid) then (a, BAD_REQUEST)
          else if bool_decide (members r !! pid = None) && (MESH_MAX_PARTICIPANTS <=? size (members r))%nat
          then (a, CONFLICT)
          else (put_room a c (mkRoom (expires r) (<[pid := key]> (members r)) (posted r)), OK)
      end
  | RoomCandidate c pid cand =>
      let '(a, r) := find_room a now c in
      match r with
      | None => (a, NOT_FOUND)
      | Some r =>
          if bool_decide (members r !! pid = None) then (a, FORBIDDEN)
          else
            let said := default [] (posted r !! pid) in
            (put_room a c (mkRoom (expires r) (members r) (<[pid := said ++ [cand]]> (posted r))), ACCEPTED)
      end
  | GetRoom c =>
      let '(a, r) := find_room a now c in
      match r with
      | None => (a, NOT_FOUND)
      | Some r => (a, RosterOf (roster r))
      end
  end.

Fixpoint spec_serve_all (a : Rooms) (reqs : list (N * RoomRequest)) : Rooms * list Response :=
  match reqs with
  | [] => (a, [])
  | (now, r) :: reqs =>
      let '(a, resp) := spec_serve a now r in
      let '(a, resps) := spec_serve_all a reqs in
      (a, resp :: resps)
  end.

(** The strings of a request are Unicode, and the ids have no colon. *)
Definition id_ok (pid : str) : Prop := str_ok pid /\ colon ∉ pid.

Definition room_request_ok (q : N * RoomRequest) : Prop :=
  fst q < 2 ^ 62 /\
  match snd q with
  | PostRoom => True
  | JoinRoom c pid s | RoomCandidate c pid s => str_ok c /\ id_ok pid /\ str_ok s
  | GetRoom c => str_ok c
  end.

(** ** Lemmas: keys *)
Section keys.
Implicit Types (c pid k : str).

Lemma str_ok_app s1 s2 : str_ok (s1 ++ s2) <-> str_ok s1 /\ str_ok s2.
Proof. apply Forall_app. Qed.

Lemma colon_ok : str_ok [colon].
Proof. by repeat constructor. Qed.

(** A prefix of the encoding that is an encoding is one of a prefix. *)
Lemma as_bytes_prefix p k : str_ok p -> str_ok k -> as_bytes p `prefix_of` as_bytes k -> p `prefix_of` k.
Proof.
  intros Hp. revert k. induction Hp as [|x p Hx Hp IH]; intros k Hk Hpre; [apply prefix_nil|].
  destruct Hpre as [z Hz]. pose proof (from_utf8_as_bytes k Hk) as He.
  rewrite Hz, as_bytes_cons, <- app_assoc, from_utf8_enc_char in He by done.
  destruct (from_utf8 (as_bytes p ++ z)) as [k'|] eqn:Hk'; cbn in He; [|done].
  injection He as <-. apply as_bytes_from_utf8 in Hk' as [Hb Hok].
  apply prefix_cons. apply IH; [done|]. rewrite Hb. by eexists.
Qed.

Lemma split_at_colon (a b u v : str) :
  colon ∉ a -> colon ∉ b -> a ++ colon :: u = b ++ colon :: v -> a = b /\ u = v.
Proof.
  revert b. induction a as [|x a IH]; intros [|y b] Ha Hb; cbn [app].
  - by intros [= ->].
  - intros [= <- _]. exfalso. apply Hb. by left.
  - intros [= -> _]. exfalso. apply Ha. by left.
  - intros [= -> He]. destruct (IH b) as [-> ->]; [|..|done|done]; intros Hin; [apply Ha|apply Hb]; by right.
Qed.

Lemma member_str_ok n pid : str_ok pid -> str_ok (dec9 n ++ colon :: pid).
Proof. intros Hp. apply str_ok_app. split; [apply dec9_ok|].
  apply (str_ok_app [colon]). split; [apply colon_ok|done].
Qed.

Lemma candidate_str_ok n pid q : str_ok pid -> str_ok (dec9 n ++ colon :: pid ++ colon :: hex16 q).
Proof.
  intros Hp. apply member_str_ok, str_ok_app. split; [done|].
  apply (str_ok_app [colon]). split; [apply colon_ok|by apply digits_ok].
Qed.

Lemma member_key_inj n n' pid pid' :
  str_ok pid -> str_ok pid' -> member_key (dec9 n) pid = member_key (dec9 n') pid' ->
  dec9 n = dec9 n' /\ pid = pid'.
Proof.
  intros H1 H2 He. apply as_bytes_inj in He; [|by apply member_str_ok..].
  apply app_inj_1 in He as [He [= Hp]]; [done|]. unfold dec9. by rewrite !digits_count.
Qed.

Lemma member_prefix n n' pid :
  str_ok pid -> as_bytes (dec9 n ++ [colon]) `prefix_of` member_key (dec9 n') pid -> dec9 n = dec9 n'.
Proof.
  intros Hp Hpre. apply as_bytes_prefix in Hpre as [z Hz]; [|apply (member_str_ok n []); constructor|by apply member_str_ok].
  rewrite <- app_assoc in Hz. apply app_inj_1 in Hz as [-> _]; [done|]. unfold dec9. by rewrite !digits_count.
Qed.

Lemma member_prefix_same c pid : as_bytes (c ++ [colon]) `prefix_of` member_key c pid.
Proof.
  unfold member_key. change (colon :: pid) with ([colon] ++ pid). rewrite app_assoc, (as_bytes_app (c ++ [colon])).
  by eexists.
Qed.

Lemma candidate_prefix n n' pid pid' q :
  id_ok pid -> id_ok pid' ->
  as_bytes (dec9 n ++ colon :: pid ++ [colon]) `prefix_of` room_candidate_key (dec9 n') pid' q ->
  dec9 n = dec9 n' /\ pid = pid'.
Proof.
  intros [Hp Hc] [Hp' Hc'] Hpre.
  apply as_bytes_prefix in Hpre as [z Hz]; [| |by apply candidate_str_ok].
  2: { apply member_str_ok, str_ok_app. split; [done|apply colon_ok]. }
  rewrite <- app_assoc in Hz. cbn [app] in Hz. rewrite <- app_assoc in Hz. cbn [app] in Hz.
  apply app_inj_1 in Hz as [He [= Hz]]; [|unfold dec9; by rewrite !digits_count].
  split; [done|]. symmetry. by apply split_at_colon in Hz as [? _].
Qed.

Lemma candidate_prefix_same c pid q :
  as_bytes (c ++ colon :: pid ++ [colon]) `prefix_of` room_candidate_key c pid q.
Proof.
  unfold room_candidate_key. exists (as_bytes (hex16 q)). rewrite <- as_bytes_app. f_equal.
  rewrite <- app_assoc. cbn [app]. by rewrite <- app_assoc.
Qed.

Lemma room_candidate_order c pid q q' :
  q < q' -> q' < 2 ^ 64 -> key_lt (room_candidate_key c pid q) (room_candidate_key c pid q') = true.
Proof.
  intros Hq Hq'. unfold room_candidate_key.
  assert (He : forall x, c ++ colon :: pid ++ colon :: x = (c ++ colon :: pid ++ [colon]) ++ x).
  { intros x. rewrite <- app_assoc. cbn [app]. by rewrite <- app_assoc. }
  rewrite (He (hex16 q)), (He (hex16 q')), !(as_bytes_app (c ++ colon :: pid ++ [colon])), key_lt_app. apply digits_order; [lia|done|done].
Qed.
End keys.

(** ** Lemmas: the store simulates the rosters *)
Section simulation.
Context {T : Type} `{TreeLaws T}.
Implicit Types (st : AppState T) (a : Rooms) (c pid : str) (r : Room).

Record sim st a : Prop := {
  sim_seq : CODE_SEQ st = next_code a;
  sim_code : forall c r, all_rooms a !! c = Some r -> exists n, n < next_code a /\ n < 10 ^ 9 /\ c = dec9 n;
  sim_entry : forall c r, all_rooms a !! c = Some r -> exists v,
    tree_get (rooms st) (as_bytes c) = Some v /\ decode_expires_at v = Some (Z.of_N (expires r));
  sim_none : forall c, str_ok c -> all_rooms a !! c = None -> tree_get (rooms st) (as_bytes c) = None;
  sim_member : forall c r pid, all_rooms a !! c = Some r -> str_ok pid ->
    tree_get (room_members st) (member_key c pid) = as_bytes <$> members r !! pid;
  sim_ids : forall c r pid key, all_rooms a !! c = Some r -> members r !! pid = Some key ->
    id_ok pid /\ str_ok key;
  sim_posted : forall c r pid, all_rooms a !! c = Some r -> id_ok pid ->
    participant_candidates st c pid = default [] (posted r !! pid);
  sim_mkeys : forall k v, tree_get (room_members st) k = Some v -> exists n pid,
    n < next_code a /\ n < 10 ^ 9 /\ str_ok pid /\ k = member_key (dec9 n) pid;
  sim_ckeys : forall k v, tree_get (room_candidates st) k = Some v -> exists n pid q,
    n < next_code a /\ n < 10 ^ 9 /\ id_ok pid /\ q < CAND_SEQ st /\ k = room_candidate_key (dec9 n) pid q }.

Lemma room_sim_new : sim new rooms_new.
Proof.
  split; cbn [new rooms_new all_rooms next_code CODE_SEQ rooms room_members room_candidates];
    try (intros **; match goal with Hr : ∅ !! _ = Some _ |- _ => by rewrite lookup_empty in Hr end).
  - done.
  - intros. apply get_empty.
  - intros k v. by rewrite get_empty.
  - intros k v. by rewrite get_empty.
Qed.

Lemma room_code_ok st a c r : sim st a -> all_rooms a !! c = Some r -> str_ok c.
Proof. intros Hs Hr. destruct (sim_code _ _ Hs _ _ Hr) as (n & _ & _ & ->). apply dec9_ok. Qed.

Lemma participants_sim st a c r :
  sim st a -> all_rooms a !! c = Some r ->
  room_participants st c = map fst (sort_by (fun e => as_bytes (fst e)) (map_to_list (members r))).
Proof.
  intros Hs Hr. set (es := sort_by _ _). destruct (sim_code _ _ Hs _ _ Hr) as (n & _ & _ & Ec).
  assert (Hes : forall pid, pid ∈ map fst es <-> is_Some (members r !! pid)).
  { intros pid. unfold es. rewrite sort_by_perm. rewrite list_elem_of_fmap. split.
    - intros ([p key] & -> & Hin%elem_of_map_to_list). by eexists.
    - intros [key Hk]. exists (pid, key). split; [done|]. by apply elem_of_map_to_list. }
  assert (Hok : Forall str_ok (map fst es)).
  { apply Forall_forall. intros pid [key Hk]%Hes. by apply (sim_ids _ _ Hs c r pid key). }
  assert (Hk : map fst (scan_prefix (room_members st) (as_bytes (c ++ [colon]))) = map (member_key c) (map fst es)).
  { apply scan_by_keys.
    - assert (Hsort : StronglySorted (fun x y => key_lt x y = true) (map as_bytes (map fst es))).
      { rewrite map_map. apply sort_by_strict. rewrite <- (map_map fst as_bytes).
        apply NoDup_fmap_2_strong; [|apply NoDup_fst_map_to_list].
        intros x y ([p1 k1] & -> & H1%elem_of_map_to_list)%list_elem_of_fmap
          ([p2 k2] & -> & H2%elem_of_map_to_list)%list_elem_of_fmap.
        apply as_bytes_inj; [by apply (sim_ids _ _ Hs c r p1 k1)|by apply (sim_ids _ _ Hs c r p2 k2)]. }
      clear Hes Hok. revert Hsort. generalize (map fst es). intros l. induction l as [|p l IH]; [constructor|].
      cbn [map]. intros [Hl Hf]%StronglySorted_inv. constructor; [by apply IH|].
      apply Forall_map. apply Forall_map in Hf. eapply Forall_impl; [exact Hf|]. intros q Hq. cbn beta in *.
      unfold member_key. change (colon :: ?x) with ([colon] ++ x).
      by rewrite !app_assoc, !(as_bytes_app (c ++ [colon])), key_lt_app.
    - intros k. rewrite list_elem_of_fmap. split.
      + intros (pid & -> & Hin). split; [apply member_prefix_same|]. apply Hes in Hin as [key Hk].
        rewrite (sim_member _ _ Hs _ _ pid Hr); [by rewrite Hk; eexists|by apply (sim_ids _ _ Hs c r pid key)].
      + intros [Hp [v Hv]]. destruct (sim_mkeys _ _ Hs _ _ Hv) as (n' & pid & _ & _ & Hpid & ->).
        rewrite Ec in Hp. apply member_prefix in Hp; [|done]. rewrite <- Hp, <- Ec in Hv |- *.
        exists pid. split; [done|]. apply Hes. rewrite (sim_member _ _ Hs _ _ pid Hr Hpid) in Hv.
        destruct (members r !! pid); [by eexists|done]. }
  unfold room_participants.
  assert (Ho : forall (g : list byte -> option str) l, omap (fun e : list byte * list byte => g (fst e)) l = omap g (map fst l)).
  { intros g l. induction l as [|e l IH]; [done|]. cbn. by rewrite IH. }
  rewrite (Ho (fun k => s ← from_utf8 k; strip_prefix (c ++ [colon]) s)), Hk.
  clear Hk Hes. induction Hok as [|pid l Hpid _ IH]; [done|]. cbn [map omap list_omap].
  unfold member_key at 1. rewrite from_utf8_as_bytes by (rewrite Ec; by apply member_str_ok).
  cbn [mbind option_bind]. unfold strip_prefix. change (colon :: pid) with ([colon] ++ pid). rewrite app_assoc.
  rewrite take_app_length, drop_app_length, bool_decide_true by done. f_equal. exact IH.
Qed.

(** Looking a room up withdraws it when it expired. *)
Lemma room_live_sim st a now c :
  sim st a -> str_ok c ->
  match find_room a now c with
  | (a', Some r) => a' = a /\ all_rooms a !! c = Some r /\ room_live st now c = (st, true)
  | (a', None) => next_code a' = next_code a /\ exists st', room_live st now c = (st', false) /\
      sim st' a' /\ CAND_SEQ st' = CAND_SEQ st
  end.
Proof.
  intros Hs Hc. unfold find_room, room_live. destruct (all_rooms a !! c) as [r|] eqn:Hr.
  2: { rewrite (sim_none _ _ Hs) by done. split; [done|]. by exists st. }
  destruct (sim_entry _ _ Hs _ _ Hr) as (v & -> & ->).
  destruct (N.ltb_spec now (expires r)), (Z.ltb_spec (Z.of_N now) (Z.of_N (expires r))); try lia; [done|].
  split; [done|]. eexists. split; [reflexivity|]. split; [|done].
  split; cbn [with_rooms all_rooms next_code CODE_SEQ CAND_SEQ rooms room_members room_candidates].
  - apply (sim_seq _ _ Hs).
  - intros c' r' [_ Hr']%lookup_delete_Some. by apply (sim_code _ _ Hs _ r').
  - intros c' r' [Hne Hr']%lookup_delete_Some. destruct (sim_entry _ _ Hs _ _ Hr') as (v' & Hv & Hx).
    exists v'. split; [|done]. rewrite get_remove, decide_False; [done|]. intros E.
    apply Hne. eapply as_bytes_inj; [done|by eapply room_code_ok|done].
  - intros c' Hc' Hr'. rewrite get_remove. case_decide as Hd; [done|]. apply (sim_none _ _ Hs); [done|].
    destruct (decide (c = c')) as [->|Hne]; [done|]. by rewrite lookup_delete_ne in Hr'.
  - intros c' r' pid [_ Hr']%lookup_delete_Some. by apply (sim_member _ _ Hs).
  - intros c' r' pid key [_ Hr']%lookup_delete_Some. by apply (sim_ids _ _ Hs c' r').
  - intros c' r' pid [_ Hr']%lookup_delete_Some. by apply (sim_posted _ _ Hs _ r').
  - apply (sim_mkeys _ _ Hs).
  - apply (sim_ckeys _ _ Hs).
Qed.

Lemma sim_post_room st a now :
  sim st a -> now < 2 ^ 62 -> next_code a < 10 ^ 9 ->
  sim (fst (post_room st now)) (fst (spec_serve a now PostRoom)) /\
  snd (post_room st now) = snd (spec_serve a now PostRoom) /\
  CAND_SEQ (fst (post_room st now)) = CAND_SEQ st.
Proof.
  intros Hs Hn H9. pose proof (sim_seq _ _ Hs) as Hq. unfold post_room, gen_code. cbn [spec_serve].
  rewrite Hq, N.mod_small, wrap_small by lia. set (c := dec9 (next_code a)).
  split; [|done]. cbn [fst].
  assert (Hfresh : forall n, n < next_code a -> dec9 n <> c).
  { intros n Hlt He%dec9_inj; lia. }
  split; cbn [create_room with_rooms all_rooms next_code CODE_SEQ CAND_SEQ rooms room_members room_candidates expires members posted].
  - done.
  - intros c' r [[<- <-]|[_ Hr]]%lookup_insert_Some; [by exists (next_code a); split; [lia|]|].
    destruct (sim_code _ _ Hs _ _ Hr) as (n & ? & ? & ?). exists n. split; [lia|done].
  - intros c' r [[<- <-]|[Hne Hr]]%lookup_insert_Some.
    + eexists. rewrite get_insert, decide_True by done. split; [done|].
      cbn [expires]. rewrite <- (entry_expires now ROOM_TTL_SECS) by (unfold ROOM_TTL_SECS; lia).
      unfold decode_expires_at, encode_entry. rewrite app_nil_r, lenN_app, !lenN_le_bytes.
      rewrite take_app_length' by (by rewrite le_bytes_length). by rewrite take_ge by (by rewrite le_bytes_length).
    + destruct (sim_entry _ _ Hs _ _ Hr) as (v & Hv & Hx). exists v. split; [|done].
      rewrite get_insert, decide_False; [done|]. intros E. apply Hne.
      eapply as_bytes_inj; [apply dec9_ok|by eapply room_code_ok|done].
  - intros c' Hc' [Hr Hne]%lookup_insert_None. rewrite get_insert, decide_False; [by apply (sim_none _ _ Hs)|].
    intros E. apply Hne. eapply as_bytes_inj; [apply dec9_ok|done|done].
  - intros c' r pid [[<- <-]|[_ Hr]]%lookup_insert_Some Hpid; [|by apply (sim_member _ _ Hs)].
    cbn [members]. rewrite lookup_empty. cbn. destruct (tree_get _ _) as [v|] eqn:Hv; [|done]. exfalso.
    destruct (sim_mkeys _ _ Hs _ _ Hv) as (n & pid' & Hn' & _ & Hp' & He).
    apply member_key_inj in He as [He _]; [|done|done]. by eapply Hfresh.
  - intros c' r pid key [[<- <-]|[_ Hr]]%lookup_insert_Some; [cbn; by rewrite lookup_empty|].
    by apply (sim_ids _ _ Hs c' r).
  - intros c' r pid [[<- <-]|[_ Hr]]%lookup_insert_Some Hpid; [|by apply (sim_posted _ _ Hs _ r)].
    cbn [posted]. rewrite lookup_empty. cbn. unfold participant_candidates. cbn [create_room with_rooms room_candidates].
    rewrite (proj2 (scan_empty_iff _ _)); [done|]. intros k v Hv Hp.
    destruct (sim_ckeys _ _ Hs _ _ Hv) as (n & pid' & q & Hn' & _ & Hp' & _ & ->).
    apply candidate_prefix in Hp as [He _]; [|done|done]. by eapply Hfresh.
  - intros k v Hv. destruct (sim_mkeys _ _ Hs _ _ Hv) as (n & pid & ? & ?). exists n, pid. split; [lia|done].
  - intros k v Hv. destruct (sim_ckeys _ _ Hs _ _ Hv) as (n & pid & q & ? & ?). exists n, pid, q. split; [lia|done].
Qed.

Lemma sim_put_member st a c r pid key :
  sim st a -> all_rooms a !! c = Some r -> id_ok pid -> str_ok key ->
  sim (with_members st (tree_insert (room_members st) (member_key c pid) (as_bytes key)))
    (put_room a c (mkRoom (expires r) (<[pid := key]> (members r)) (posted r))).
Proof.
  intros Hs Hr Hpid Hkey. destruct (sim_code _ _ Hs _ _ Hr) as (n0 & Hn0 & Hn9 & Ec).
  split; cbn [with_members put_room all_rooms next_code CODE_SEQ CAND_SEQ rooms room_members room_candidates].
  - apply (sim_seq _ _ Hs).
  - intros c' r' [[<- _]|[_ Hr']]%lookup_insert_Some; by eapply (sim_code _ _ Hs).
  - intros c' r' [[<- <-]|[_ Hr']]%lookup_insert_Some; [apply (sim_entry _ _ Hs _ _ Hr)|by apply (sim_entry _ _ Hs)].
  - intros c' Hc' [Hr' _]%lookup_insert_None. by apply (sim_none _ _ Hs).
  - intros c' r' pid' [[<- <-]|[Hne Hr']]%lookup_insert_Some Hpid'; cbn [members].
    + rewrite get_insert. case_decide as Hk.
      * rewrite Ec in Hk. apply member_key_inj in Hk as [_ ->]; [|apply Hpid|done].
        by rewrite lookup_insert_eq.
      * rewrite lookup_insert_ne by congruence. by apply (sim_member _ _ Hs).
    + rewrite get_insert, decide_False; [by apply (sim_member _ _ Hs)|]. intros Hk.
      destruct (sim_code _ _ Hs _ _ Hr') as (n' & _ & _ & Ec'). rewrite Ec, Ec' in Hk.
      apply member_key_inj in Hk as [Hk _]; [|apply Hpid|done]. congruence.
  - intros c' r' pid' key' [[<- <-]|[_ Hr']]%lookup_insert_Some; [|by apply (sim_ids _ _ Hs c' r')].
    cbn [members]. intros [[<- <-]|[_ Hm]]%lookup_insert_Some; [done|]. by apply (sim_ids _ _ Hs c r).
  - intros c' r' pid' [[<- <-]|[_ Hr']]%lookup_insert_Some;
      [apply (sim_posted _ _ Hs _ _ pid' Hr)|apply (sim_posted _ _ Hs _ _ pid' Hr')].
  - intros k v. rewrite get_insert. case_decide as Hk; [|apply (sim_mkeys _ _ Hs)].
    intros _. exists n0, pid. subst k. rewrite <- Ec. split; [done|]. split; [done|]. split; [apply Hpid|done].
  - apply (sim_ckeys _ _ Hs).
Qed.

Lemma room_sim_put_candidate st a c r pid s :
  sim st a -> all_rooms a !! c = Some r -> id_ok pid -> str_ok s -> CAND_SEQ st + 1 < 2 ^ 64 ->
  sim (let '(q, st) := next_candidate_seq st in add_room_candidate st c pid q s)
    (put_room a c (mkRoom (expires r) (members r) (<[pid := default [] (posted r !! pid) ++ [s]]> (posted r)))).
Proof.
  intros Hs Hr Hpid Hstr Hq. destruct (sim_code _ _ Hs _ _ Hr) as (n0 & Hn0 & Hn9 & Ec).
  unfold next_candidate_seq, add_room_candidate. rewrite wrap_small by lia.
  split; cbn [put_room all_rooms next_code CODE_SEQ CAND_SEQ rooms room_members room_candidates].
  - apply (sim_seq _ _ Hs).
  - intros c' r' [[<- _]|[_ Hr']]%lookup_insert_Some; by eapply (sim_code _ _ Hs).
  - intros c' r' [[<- <-]|[_ Hr']]%lookup_insert_Some; [apply (sim_entry _ _ Hs _ _ Hr)|by apply (sim_entry _ _ Hs)].
  - intros c' Hc' [Hr' _]%lookup_insert_None. by apply (sim_none _ _ Hs).
  - intros c' r' pid' [[<- <-]|[_ Hr']]%lookup_insert_Some;
      [apply (sim_member _ _ Hs _ _ pid' Hr)|apply (sim_member _ _ Hs _ _ pid' Hr')].
  - intros c' r' pid' key' [[<- <-]|[_ Hr']]%lookup_insert_Some; [|by apply (sim_ids _ _ Hs c' r')].
    by apply (sim_ids _ _ Hs c r).
  - intros c' r' pid' [[<- <-]|[Hne Hr']]%lookup_insert_Some Hpid'; unfold participant_candidates; cbn [room_candidates posted].
    + destruct (decide (pid = pid')) as [<-|Hne].
      * rewrite lookup_insert_eq. cbn [default]. rewrite scan_insert_last.
        -- pose proof (sim_posted _ _ Hs _ _ _ Hr Hpid) as He. unfold participant_candidates in He.
           rewrite strings_app, He. unfold strings. cbn. by rewrite from_utf8_as_bytes.
        -- apply candidate_prefix_same.
        -- apply Forall_forall. intros [k v] [Hk Hp]%scan_spec. cbn [fst].
           destruct (sim_ckeys _ _ Hs _ _ Hk) as (n' & p' & q & _ & _ & Hp' & Hqq & ->). rewrite Ec in Hp.
           apply candidate_prefix in Hp as [Hp ->]; [|done|done]. rewrite <- Hp, <- Ec.
           apply room_candidate_order; lia.
      * rewrite lookup_insert_ne by done. rewrite scan_insert_other; [apply (sim_posted _ _ Hs _ _ _ Hr Hpid')|].
        intros Hp. rewrite Ec in Hp. apply candidate_prefix in Hp as [_ ->]; [done|done|done].
    + rewrite scan_insert_other; [apply (sim_posted _ _ Hs _ _ _ Hr' Hpid')|]. intros Hp.
      destruct (sim_code _ _ Hs _ _ Hr') as (n' & _ & _ & Ec'). rewrite Ec, Ec' in Hp.
      apply candidate_prefix in Hp as [Hp _]; [congruence|done|done].
  - apply (sim_mkeys _ _ Hs).
  - intros k v. rewrite get_insert. case_decide as Hk.
    + intros _. exists n0, pid, (CAND_SEQ st). subst k. rewrite <- Ec. split; [done|]. split; [done|].
      split; [done|]. split; [lia|done].
    + intros Hg. destruct (sim_ckeys _ _ Hs _ _ Hg) as (n & p & q & ? & ? & ? & ? & ->). exists n, p, q.
      split; [done|]. split; [done|]. split; [done|]. split; [lia|done].
Qed.

Lemma participant_count st a c r :
  sim st a -> all_rooms a !! c = Some r -> length (room_participants st c) = size (members r).
Proof.
  intros Hs Hr. rewrite (participants_sim _ _ _ _ Hs Hr), length_map, sort_by_perm. by rewrite length_map_to_list.
Qed.

Lemma pubkey_sim st a c r pid :
  sim st a -> all_rooms a !! c = Some r -> str_ok pid -> participant_pubkey st c pid = members r !! pid.
Proof.
  intros Hs Hr Hp. unfold participant_pubkey. rewrite (sim_member _ _ Hs _ _ _ Hr Hp).
  destruct (members r !! pid) as [key|] eqn:Hk; [|done]. cbn. apply from_utf8_as_bytes.
  by apply (sim_ids _ _ Hs c r pid key).
Qed.

Lemma roster_sim st a c r :
  sim st a -> all_rooms a !! c = Some r ->
  map (fun pid => (pid, default [] (participant_pubkey st c pid), participant_candidates st c pid))
    (room_participants st c) = roster r.
Proof.
  intros Hs Hr. rewrite (participants_sim _ _ _ _ Hs Hr), map_map. unfold roster. apply map_ext_in.
  intros [pid key] Hin%list_elem_of_In. rewrite sort_by_perm in Hin. apply elem_of_map_to_list in Hin as Hk.
  destruct (sim_ids _ _ Hs _ _ _ _ Hr Hk) as [Hpid _]. cbn [fst snd].
  rewrite (pubkey_sim _ _ _ _ _ Hs Hr (proj1 Hpid)), Hk. by rewrite (sim_posted _ _ Hs _ _ _ Hr Hpid).
Qed.

Lemma room_sim_serve st a now q :
  sim st a -> room_request_ok (now, q) -> next_code a < 10 ^ 9 -> CAND_SEQ st + 1 < 2 ^ 64 ->
  let '(st', x) := serve st now q in
  let '(a', x') := spec_serve a now q in
  x = x' /\ sim st' a' /\ next_code a' <= next_code a + 1 /\ CAND_SEQ st' <= CAND_SEQ st + 1.
Proof.
  intros Hs [Hn Hq] Hc9 Hcs. cbn [fst snd] in *. destruct q as [|c pid key|c pid s|c]; cbn [serve].
  - destruct (sim_post_room st a now Hs Hn Hc9) as (Hs' & He & Hcand).
    destruct (post_room st now) as [st' x]. destruct (spec_serve a now PostRoom) as [a' x'] eqn:E.
    cbn [fst snd] in *. split; [done|]. split; [done|]. cbn [spec_serve] in E. injection E as <- _.
    cbn [next_code]. lia.
  - destruct Hq as (Hc & Hpid & Hkey). unfold post_room_join. cbn [spec_serve].
    pose proof (room_live_sim st a now c Hs Hc) as Hl. destruct (find_room a now c) as [a1 [r|]].
    2: { destruct Hl as (Hnx & st1 & -> & Hs1 & Hcs1). split; [done|]. split; [done|]. lia. }
    destruct Hl as (-> & Hr & ->). cbn [negb].
    destruct ((str_len pid =? 0) || (64 <? str_len pid)); [split; [done|split; [done|lia]]|].
    unfold add_participant. rewrite (participant_count _ _ _ _ Hs Hr), (sim_member _ _ Hs _ _ _ Hr (proj1 Hpid)).
    assert (Hb : bool_decide (as_bytes <$> members r !! pid = None) = bool_decide (members r !! pid = None)).
    { apply bool_decide_ext. by rewrite fmap_None. }
    rewrite Hb. destruct (_ && _); (split; [done|split; [|cbn; lia]]); [done|]. by apply sim_put_member.
  - destruct Hq as (Hc & Hpid & Hss). unfold post_room_candidate. cbn [spec_serve].
    pose proof (room_live_sim st a now c Hs Hc) as Hl. destruct (find_room a now c) as [a1 [r|]].
    2: { destruct Hl as (Hnx & st1 & -> & Hs1 & Hcs1). split; [done|]. split; [done|]. lia. }
    destruct Hl as (-> & Hr & ->). cbn [negb]. rewrite (pubkey_sim _ _ _ _ _ Hs Hr (proj1 Hpid)).
    destruct (members r !! pid) as [key|] eqn:Hk.
    + rewrite bool_decide_false by done. pose proof (room_sim_put_candidate st a c r pid s Hs Hr Hpid Hss Hcs) as Hp.
      unfold next_candidate_seq in *. split; [done|]. split; [exact Hp|]. cbn [next_code put_room CAND_SEQ add_room_candidate].
      rewrite wrap_small by lia. lia.
    + rewrite bool_decide_true by done. split; [done|split; [done|lia]].
  - unfold get_room. cbn [spec_serve].
    pose proof (room_live_sim st a now c Hs Hq) as Hl. destruct (find_room a now c) as [a1 [r|]].
    2: { destruct Hl as (Hnx & st1 & -> & Hs1 & Hcs1). split; [done|]. split; [done|]. lia. }
    destruct Hl as (-> & Hr & ->). cbn [negb]. rewrite (roster_sim _ _ _ _ Hs Hr).
    split; [done|split; [done|lia]].
Qed.

Lemma room_sim_serve_all st a reqs :
  sim st a -> Forall room_request_ok reqs -> next_code a + lenN reqs <= 10 ^ 9 ->
  CAND_SEQ st + lenN reqs < 2 ^ 64 ->
  snd (serve_all st reqs) = snd (spec_serve_all a reqs).
Proof.
  intros Hs Hr. revert st a Hs. induction Hr as [|[now r] reqs Hr _ IH]; intros st a Hs Hc Hq; [done|].
  rewrite lenN_cons in *. cbn [serve_all spec_serve_all].
  pose proof (room_sim_serve st a now r Hs Hr ltac:(lia) ltac:(lia)) as Hp.
  destruct (serve st now r) as [st1 x], (spec_serve a now r) as [a1 x']. destruct Hp as (-> & Hs1 & H1 & H2).
  specialize (IH st1 a1 Hs1 ltac:(lia) ltac:(lia)).
  destruct (serve_all st1 reqs), (spec_serve_all a1 reqs). cbn in *. by f_equal.
Qed.
End simulation.

(** No room of the specification grows past four. *)
Lemma put_member_size (ms : gmap str str) pid key :
  (bool_decide (ms !! pid = None) && (MESH_MAX_PARTICIPANTS <=? size ms)%nat) = false ->
  (size ms <= 4)%nat -> (size (<[pid := key]> ms) <= 4)%nat.
Proof.
  unfold MESH_MAX_PARTICIPANTS. intros Hb Hs. destruct (ms !! pid) as [k|] eqn:Hk.
  - rewrite map_size_insert_Some by (by rewrite Hk). done.
  - rewrite map_size_insert_None by done. rewrite bool_decide_true in Hb by done. cbn [andb] in Hb.
    apply Nat.leb_gt in Hb. lia.
Qed.

Definition small_rooms (a : Rooms) : Prop :=
  forall c r, all_rooms a !! c = Some r -> (size (members r) <= 4)%nat.

Lemma find_room_small a now c :
  small_rooms a -> small_rooms (fst (find_room a now c)) /\
  forall r, snd (find_room a now c) = Some r -> all_rooms a !! c = Some r.
Proof.
  intros Ha. unfold find_room. destruct (all_rooms a !! c) as [r|] eqn:Hr; [|done].
  case_ifs; cbn; (split; [|by try intros ? [= ->]]); [done|].
  intros c' r'. cbn [all_rooms]. intros [_ Hr']%lookup_delete_Some. by apply (Ha c').
Qed.

Lemma spec_serve_small a now q : small_rooms a -> small_rooms (fst (spec_serve a now q)).
Proof.
  intros Ha. destruct q as [|c pid key|c pid s|c]; cbn [spec_serve].
  - intros c r. cbn [fst all_rooms]. intros [[<- <-]|[_ Hr]]%lookup_insert_Some; [cbn; rewrite map_size_empty; lia|by apply (Ha c)].
  - destruct (find_room_small a now c Ha) as [H1 H2]. destruct (find_room a now c) as [a1 [r|]]; [|done].
    cbn [fst snd] in *. case_match; [done|]. case_match eqn:Hb; [done|]. cbn [fst put_room].
    intros c' r'. cbn [put_room all_rooms]. intros [[<- <-]|[_ Hr']]%lookup_insert_Some; [|by apply (H1 c')].
    cbn [members]. apply put_member_size; [done|]. by apply (Ha c), H2.
  - destruct (find_room_small a now c Ha) as [H1 H2]. destruct (find_room a now c) as [a1 [r|]]; [|done].
    cbn [fst snd] in *. case_match; [done|]. cbn [fst put_room].
    intros c' r'. cbn [put_room all_rooms]. intros [[<- <-]|[_ Hr']]%lookup_insert_Some; [|by apply (H1 c')].
    cbn [members]. by apply (Ha c), H2.
  - destruct (find_room_small a now c Ha) as [H1 H2]. by destruct (find_room a now c) as [a1 [r|]].
Qed.

Lemma rosters_small a reqs :
  small_rooms a ->
  Forall (fun x => match x with RosterOf l => (length l <= 4)%nat | _ => True end) (snd (spec_serve_all a reqs)).
Proof.
  revert a. induction reqs as [|[now q] reqs IH]; intros a Ha; cbn [spec_serve_all]; [constructor|].
  pose proof (spec_serve_small a now q Ha) as H1. destruct (spec_serve a now q) as [a1 x] eqn:E.
  specialize (IH a1 H1). destruct (spec_serve_all a1 reqs) as [a2 xs]. cbn [snd] in *. constructor; [|done].
  destruct x as [| | | |l]; try done. destruct q as [|c pid key|c pid s|c]; cbn [spec_serve] in E.
  - done.
  - destruct (find_room a now c) as [? [r|]]; [|done]. repeat case_match; done.
  - destruct (find_room a now c) as [? [r|]]; [|done]. repeat case_match; done.
  - destruct (find_room_small a now c Ha) as [_ H2]. destruct (find_room a now c) as [a' [r|]]; [|done].
    injection E as _ <-. unfold roster. rewrite length_map, sort_by_perm, length_map_to_list.
    by apply (Ha c), H2.
Qed.

(** ** Properties *)

(** A room is a roster: as long as no participant id has a colon, every answer
    of the service is that of one that keeps for each code the participants with
    their last key and the candidates each of them posted, in order; a roster
    lists the participants in the order of their ids, and never more than four. *)
Theorem rooms_refine_rosters `{TreeLaws T} (reqs : list (N * RoomRequest)) :
  Forall room_request_ok reqs -> lenN reqs <= 900000000 ->
  snd (serve_all new reqs) = snd (spec_serve_all rooms_new reqs) /\
  Forall (fun x => match x with RosterOf l => (length l <= 4)%nat | _ => True end) (snd (serve_all new reqs)).
Proof.
  intros Hr Hl. assert (He : snd (serve_all new reqs) = snd (spec_serve_all rooms_new reqs)).
  { apply room_sim_serve_all; [apply room_sim_new|done|cbn; lia|cbn [CAND_SEQ new]; lia]. }
  split; [done|]. rewrite He. apply rosters_small. intros c r Hc. cbn [rooms_new all_rooms] in Hc.
  by rewrite lookup_empty in Hc.
Qed.

Lemma rooms_refine_rosters_witness :
  let c := dec9 100000000 in
  snd (serve_all (new : AppState (gmap (list byte) (list byte)))
    [(5, PostRoom); (6, JoinRoom c [0x62] [0x32]); (6, JoinRoom c [0x61] [0x31]);
     (7, RoomCandidate c [0x62] [0x78]); (7, RoomCandidate c [0x63] [0x78]); (8, GetRoom c)]) =
  [Created c; OK; OK; ACCEPTED; FORBIDDEN;
   RosterOf [([0x61], [0x31], []); ([0x62], [0x32], [[0x78]])]].
Proof.
  intros c.
  destruct (rooms_refine_rosters (T := gmap (list byte) (list byte))
    [(5, PostRoom); (6, JoinRoom c [0x62] [0x32]); (6, JoinRoom c [0x61] [0x31]);
     (7, RoomCandidate c [0x62] [0x78]); (7, RoomCandidate c [0x63] [0x78]); (8, GetRoom c)]) as [He _].
  - assert (Hid : forall x, x <> colon -> is_scalar x = true -> id_ok [x]).
    { intros x Hx Hs. split; [by repeat constructor|]. intros Hin%list_elem_of_singleton. congruence. }
    assert (Hone : forall x, is_scalar x = true -> str_ok [x]) by (intros x Hx; by repeat constructor).
    assert (Hc : str_ok c) by apply dec9_ok.
    repeat first
      [ apply Forall_cons; split;
        [split; [reflexivity|]; first [exact I | exact Hc | split; [exact Hc|split; [by apply Hid|by apply Hone]]]|]
      | by apply Forall_nil].
  - vm_compute. discriminate.
  - rewrite He. vm_compute. reflexivity.
Defined.

(** With a colon the ids run into each other: the candidate that participant
    "a:b" posts is listed under participant "a" too, so whoever may join a room
    can put addresses into another participant's entry. *)
Theorem colon_id_injects_candidate :
  let c := dec9 100000000 in
  let a := [0x61] in
  let ab := [0x61; colon; 0x62] in
  last (snd (serve_all (new : AppState (gmap (list byte) (list byte)))
    [(5, PostRoom); (6, JoinRoom c a [0x31]); (6, JoinRoom c ab [0x32]);
     (7, RoomCandidate c ab [0x78]); (8, GetRoom c)])) =
  Some (RosterOf [(a, [0x31], [[0x78]]); (ab, [0x32], [[0x78]])]).
Proof. vm_compute. reflexivity. Qed.

(** Joining under an id that is taken replaces its key, whoever asks. *)
Example rejoin_replaces_key :
  let c := dec9 100000000 in
  last (snd (serve_all (new : AppState (gmap (list byte) (list byte)))
    [(5, PostRoom); (6, JoinRoom c [0x61] [0x31]); (7, JoinRoom c [0x61] [0x32]); (8, GetRoom c)])) =
  Some (RosterOf [([0x61], [0x32], [])]).
Proof. vm_compute. reflexivity. Qed.
