(* ===== verification/Stun.v ===== *)
(** The STUN client that gathers a reflexive candidate:
    [core/lowbandd/src/stun.rs].

    A message is a byte list; every index of the parser is below a length it has
    checked, so its slices are [take] and [drop]. *)
From S2P Require Import Prelude.
#[local] Open Scope N_scope.

Definition MAGIC_COOKIE : N := 0x2112A442.
Definition BINDING_REQUEST : N := 0x0001.
Definition BINDING_SUCCESS : N := 0x0101.
Definition ATTR_MAPPED_ADDRESS : N := 0x0001.
Definition ATTR_XOR_MAPPED_ADDRESS : N := 0x0020.
Definition HEADER_LEN : N := 20.

(** An IPv4 socket address: the four octets and the port. *)
Abbreviation addr := (list N * N)%type (only parsing).

(** [msg[off..off + n]]. *)
Definition slice (msg : list byte) (off n : N) : list byte :=
  take (N.to_nat n) (drop (N.to_nat off) msg).

Definition encode_binding_request (tx : list byte) : list byte :=
  be_bytes 2 BINDING_REQUEST ++ be_bytes 2 0 ++ be_bytes 4 MAGIC_COOKIE ++ tx.

Definition parse_addr (value : list byte) (xored : bool) : option addr :=
  match value with
  | _ :: family :: p0 :: p1 :: a :: b :: c :: d :: _ =>
      if negb (Byte.to_N family =? 0x01) then None
      else
        let port := be_value [p0; p1] in
        let octets := map Byte.to_N [a; b; c; d] in
        if xored
        then Some (zip_with N.lxor octets (map Byte.to_N (be_bytes 4 MAGIC_COOKIE)),
                   N.lxor port (N.shiftr MAGIC_COOKIE 16))
        else Some (octets, port)
  | _ => None
  end.

(** The walk over the attributes; [off] grows by at least 4 in every turn. *)
Fixpoint walk (fuel : nat) (msg : list byte) (off end_ : N) (fallback : option addr) : option addr :=
  match fuel with
  | O => fallback
  | S fuel =>
      if end_ <? off + 4 then fallback
      else
        let attr_type := be_value (slice msg off 2) in
        let attr_len := be_value (slice msg (off + 2) 2) in
        let val_start := off + 4 in
        if end_ <? val_start + attr_len then fallback
        else
          let value := slice msg val_start attr_len in
          let next := val_start + (attr_len + 3) / 4 * 4 in
          if attr_type =? ATTR_XOR_MAPPED_ADDRESS then
            match parse_addr value true with
            | Some a => Some a
            | None => walk fuel msg next end_ fallback
            end
          else if attr_type =? ATTR_MAPPED_ADDRESS then
            walk fuel msg next end_
              match fallback with None => parse_addr value false | Some a => Some a end
          else walk fuel msg next end_ fallback
  end.

Definition parse_binding_response (msg tx : list byte) : option addr :=
  if lenN msg <? HEADER_LEN then None
  else if negb (be_value (slice msg 0 2) =? BINDING_SUCCESS) then None
  else
    let length_ := be_value (slice msg 2 2) in
    if negb (be_value (slice msg 4 4) =? MAGIC_COOKIE) then None
    else if negb (bool_decide (slice msg 8 12 = tx)) then None
    else if lenN msg <? HEADER_LEN + length_ then None
    else walk (length msg) msg HEADER_LEN (HEADER_LEN + length_) None.

(** [gather_reflexive], on the datagram that arrived, cut at the receive buffer. *)
Definition gather_reflexive (tx datagram : list byte) : list byte * option addr :=
  (encode_binding_request tx, parse_binding_response (take 512 datagram) tx).

(** ** Messages as attribute lists *)
Abbreviation attr := (N * list byte)%type (only parsing).

Definition pad (n : N) : N := (n + 3) / 4 * 4 - n.

Definition attr_bytes (a : attr) : list byte :=
  be_bytes 2 (fst a) ++ be_bytes 2 (lenN (snd a)) ++ snd a ++
    repeat Byte.x00 (N.to_nat (pad (lenN (snd a)))).

Definition body (attrs : list attr) : list byte := concat (map attr_bytes attrs).

Definition success (tx : list byte) (attrs : list attr) : list byte :=
  be_bytes 2 BINDING_SUCCESS ++ be_bytes 2 (lenN (body attrs)) ++ be_bytes 4 MAGIC_COOKIE ++ tx ++ body attrs.

Definition attr_ok (a : attr) : Prop := fst a < 2 ^ 16 /\ lenN (snd a) < 2 ^ 16.

(** The first valid XOR-MAPPED-ADDRESS, or else the first valid MAPPED-ADDRESS. *)
Definition xor_address (a : attr) : option addr :=
  if fst a =? ATTR_XOR_MAPPED_ADDRESS then parse_addr (snd a) true else None.

Definition plain_address (a : attr) : option addr :=
  if fst a =? ATTR_MAPPED_ADDRESS then parse_addr (snd a) false else None.

Definition reflexive (attrs : list attr) : option addr :=
  match head (omap xor_address attrs) with
  | Some a => Some a
  | None => head (omap plain_address attrs)
  end.

(** ** Lemmas *)
#[local] Arguments be_bytes : simpl never.

Section stun.
Implicit Types (msg tx l : list byte) (attrs : list attr).

Lemma slice_at l1 l2 l3 off n :
  off = lenN l1 -> n = lenN l2 -> slice (l1 ++ l2 ++ l3) off n = l2.
Proof.
  intros -> ->. unfold slice. rewrite !to_nat_lenN, drop_app_length. apply take_app_length.
Qed.

Lemma div4_pad n : n <= (n + 3) / 4 * 4.
Proof. pose proof (N.Div0.div_mod (n + 3) 4). pose proof (N.mod_lt (n + 3) 4). lia. Qed.

Lemma attr_bytes_length a : lenN (attr_bytes a) = 4 + (lenN (snd a) + 3) / 4 * 4.
Proof.
  unfold attr_bytes. rewrite !lenN_app, !lenN_be_bytes. unfold lenN at 2. rewrite repeat_length, N2Nat.id.
  unfold pad. pose proof (div4_pad (lenN (snd a))). lia.
Qed.

Definition walked (fallback : option addr) attrs : option addr :=
  match head (omap xor_address attrs) with
  | Some a => Some a
  | None => match fallback with Some a => Some a | None => head (omap plain_address attrs) end
  end.

Lemma walk_attrs fuel before attrs rest fallback :
  Forall attr_ok attrs -> (length attrs < fuel)%nat ->
  walk fuel (before ++ body attrs ++ rest) (lenN before) (lenN before + lenN (body attrs)) fallback =
  walked fallback attrs.
Proof.
  intros Ha. revert fuel before fallback. induction Ha as [|[t v] attrs [Ht Hv] _ IH];
    intros [|fuel] before fallback Hf; try (cbn in Hf; lia); cbn [walk].
  { cbn [body map concat lenN length N.of_nat]. rewrite (proj2 (N.ltb_lt _ _)) by (unfold lenN; cbn; lia).
    unfold walked. cbn. by destruct fallback. }
  cbn [fst snd] in *. set (padding := repeat Byte.x00 (N.to_nat (pad (lenN v)))).
  assert (Hb : body ((t, v) :: attrs) = attr_bytes (t, v) ++ body attrs) by done.
  pose proof (attr_bytes_length (t, v)) as Hlen. cbn [snd] in Hlen. pose proof (div4_pad (lenN v)).
  rewrite Hb, lenN_app, Hlen, (proj2 (N.ltb_ge _ _)) by lia.
  assert (Hm : forall r, before ++ (attr_bytes (t, v) ++ r) ++ rest =
    before ++ be_bytes 2 t ++ be_bytes 2 (lenN v) ++ v ++ padding ++ r ++ rest).
  { intros r. unfold attr_bytes. cbn [fst snd]. fold padding. by rewrite <- !app_assoc. }
  assert (S1 : slice (before ++ (attr_bytes (t, v) ++ body attrs) ++ rest) (lenN before) 2 = be_bytes 2 t).
  { rewrite Hm. apply slice_at; [done|by rewrite lenN_be_bytes]. }
  assert (S2 : slice (before ++ (attr_bytes (t, v) ++ body attrs) ++ rest) (lenN before + 2) 2 = be_bytes 2 (lenN v)).
  { rewrite Hm, app_assoc. apply slice_at; rewrite ?lenN_app, lenN_be_bytes; done. }
  assert (S3 : slice (before ++ (attr_bytes (t, v) ++ body attrs) ++ rest) (lenN before + 4) (lenN v) = v).
  { rewrite Hm, !(app_assoc before), (app_assoc (before ++ _)). apply slice_at; [|done].
    rewrite !lenN_app, !lenN_be_bytes. cbn. lia. }
  rewrite S1, S2, !be_value_bytes_small, S3 by (cbn; lia).
  rewrite (proj2 (N.ltb_ge (lenN before + (4 + _ + lenN (body attrs))) _)) by lia.
  assert (Hw : forall fb, walk fuel (before ++ (attr_bytes (t, v) ++ body attrs) ++ rest)
    (lenN before + 4 + (lenN v + 3) / 4 * 4)
    (lenN before + (4 + (lenN v + 3) / 4 * 4 + lenN (body attrs))) fb = walked fb attrs).
  { intros fb. rewrite <- (IH fuel (before ++ attr_bytes (t, v)) fb) by (cbn in Hf; lia).
    rewrite lenN_app, Hlen, <- !app_assoc. f_equal; lia. }
  unfold walked in *. cbn [omap list_omap]. unfold xor_address at 1, plain_address at 1. cbn [fst snd].
  destruct (N.eqb_spec t ATTR_XOR_MAPPED_ADDRESS) as [->|Hx].
  - destruct (parse_addr v true); [done|]. apply Hw.
  - destruct (N.eqb_spec t ATTR_MAPPED_ADDRESS) as [->|Hp]; [|apply Hw]. rewrite Hw.
    destruct (head (omap xor_address attrs)); [done|]. by destruct fallback, (parse_addr v false).
Qed.

Lemma attrs_fit attrs : (length attrs <= length (body attrs))%nat.
Proof.
  induction attrs as [|a attrs IH]; [done|]. cbn [body map concat]. rewrite length_app.
  pose proof (attr_bytes_length a) as Hl. rewrite <- (to_nat_lenN (attr_bytes a)), Hl.
  fold (body attrs). generalize ((lenN (snd a) + 3) / 4 * 4). intros q. cbn [length]. lia.
Qed.
End stun.

(** ** Properties *)

(** The parser answers its own request only, with what the server said: a
    message it accepts is a success response with the magic cookie and the
    request's transaction id; and of every such message, whatever attributes it
    carries, in any order, of unknown types, padded, and whatever follows it in
    the datagram, it returns the first valid XOR-MAPPED-ADDRESS, or else the first
    valid MAPPED-ADDRESS. *)
Theorem response_parsed_as_attributes (tx : list byte) (attrs : list (N * list byte)) (rest msg : list byte)
    (a : list N * N) :
  length tx = 12%nat -> Forall attr_ok attrs -> lenN (body attrs) < 2 ^ 16 ->
  parse_binding_response (success tx attrs ++ rest) tx = reflexive attrs /\
  (parse_binding_response msg tx = Some a ->
   exists l, msg = be_bytes 2 BINDING_SUCCESS ++ slice msg 2 2 ++ be_bytes 4 MAGIC_COOKIE ++ tx ++ l).
Proof.
  intros Htx Ha Hb. assert (Ht : lenN tx = 12) by (unfold lenN; lia). split.
  - unfold parse_binding_response. unfold success. rewrite <- !app_assoc.
    set (m := be_bytes 2 BINDING_SUCCESS ++ _).
    assert (S0 : slice m 0 2 = be_bytes 2 BINDING_SUCCESS) by (apply (slice_at []); done).
    assert (S2 : slice m 2 2 = be_bytes 2 (lenN (body attrs))) by (apply slice_at; by rewrite lenN_be_bytes).
    assert (S4 : slice m 4 4 = be_bytes 4 MAGIC_COOKIE).
    { unfold m. rewrite app_assoc. apply slice_at; rewrite ?lenN_app, !lenN_be_bytes; done. }
    assert (S8 : slice m 8 12 = tx).
    { unfold m. rewrite app_assoc, (app_assoc (_ ++ _)). apply slice_at; rewrite ?lenN_app, ?lenN_be_bytes; done. }
    assert (Hm : lenN m = 20 + lenN (body attrs) + lenN rest).
    { unfold m. rewrite !lenN_app, !lenN_be_bytes, Ht. lia. }
    unfold HEADER_LEN. rewrite Hm, (proj2 (N.ltb_ge _ _)), S0, S2, S4, S8 by lia.
    rewrite !be_value_bytes_small by (cbn; lia || done). rewrite !N.eqb_refl, bool_decide_true by done. cbn [negb].
    rewrite (proj2 (N.ltb_ge _ (20 + lenN (body attrs)))) by lia.
    set (hd := be_bytes 2 BINDING_SUCCESS ++ be_bytes 2 (lenN (body attrs)) ++ be_bytes 4 MAGIC_COOKIE ++ tx).
    assert (Eh : lenN hd = 20) by (unfold hd; rewrite !lenN_app, !lenN_be_bytes, Ht; done).
    assert (Em : m = hd ++ body attrs ++ rest) by (unfold m, hd; by rewrite <- !app_assoc).
    rewrite Em, <- Eh, walk_attrs; [done|done|]. pose proof (attrs_fit attrs).
    rewrite !length_app. unfold lenN in Eh. lia.
  - unfold parse_binding_response, HEADER_LEN. case_ifs; try done. intros _.
    match goal with Hd : bool_decide _ = true |- _ => apply bool_decide_eq_true in Hd as Hs end.
    unfold lenN in *.
    assert (Hbe : forall off n v, (off + n <= length msg)%nat ->
      be_value (slice msg (N.of_nat off) (N.of_nat n)) = v -> slice msg (N.of_nat off) (N.of_nat n) = be_bytes n v).
    { intros off n v Hl <-. unfold be_value, be_bytes. set (s := slice _ _ _).
      assert (Hs' : length (reverse s) = n).
      { rewrite length_reverse. unfold s, slice. rewrite length_take, length_drop. lia. }
      rewrite <- Hs' at 1. by rewrite le_bytes_value, reverse_involutive. }
    rewrite <- (Hbe 0%nat 2%nat BINDING_SUCCESS), <- (Hbe 4%nat 4%nat MAGIC_COOKIE), <- Hs by (lia || done).
    exists (drop 20 msg). unfold slice. cbn [N.of_nat N.to_nat Pos.of_succ_nat Pos.to_nat Pos.iter_op Nat.add Init.Nat.add].
    rewrite <- (take_drop 2 msg) at 1. f_equal.
    rewrite <- (take_drop 2 (drop 2 msg)) at 1. rewrite drop_drop. f_equal.
    rewrite <- (take_drop 4 (drop (2 + 2) msg)) at 1. rewrite drop_drop. f_equal.
    rewrite <- (take_drop 12 (drop (2 + 2 + 4) msg)) at 1. by rewrite drop_drop.
Qed.

Lemma response_parsed_as_attributes_witness :
  let tx := repeat Byte.x03 12 in
  let attrs := [(0x8022, [Byte.x61; Byte.x62; Byte.x63]);
                (0x0020, [Byte.x00; Byte.x01; Byte.xe9; Byte.x30; Byte.xea; Byte.x12; Byte.xd5; Byte.x47])] in
  parse_binding_response (success tx attrs ++ [Byte.xff]) tx = Some ([203; 0; 113; 5], 51234) /\
  exists l, success tx attrs =
    be_bytes 2 BINDING_SUCCESS ++ slice (success tx attrs) 2 2 ++ be_bytes 4 MAGIC_COOKIE ++ tx ++ l.
Proof.
  intros tx attrs.
  destruct (response_parsed_as_attributes tx attrs [Byte.xff] (success tx attrs) ([203; 0; 113; 5], 51234))
    as [H1 H2].
  - reflexivity.
  - repeat (apply Forall_cons; split; [split; vm_compute; reflexivity|]). by apply Forall_nil.
  - vm_compute. reflexivity.
  - split; [rewrite H1; vm_compute; reflexivity|]. apply H2. vm_compute. reflexivity.
Defined.
