(* ===== verification/Input.v ===== *)
(** The input channel: [core/platform/src/input_channel_sender.rs] (events to
    frames and back, mouse coalescing) and the gate of
    [core/platform/src/input_injection.rs].

    An [i32] is a [Z]. *)
From S2P Require Import Prelude F64 Grants.
#[local] Open Scope Z_scope.

Inductive MouseButton := Left | Right | Middle.

Inductive InputEvent :=
| KeyPress (keycode : N)
| KeyRelease (keycode : N)
| MouseMove (dx dy : f64)
| MouseButtonPress (button : MouseButton)
| MouseButtonRelease (button : MouseButton).

Definition INPUT_CHANNEL_ID : N := 3.
Definition MAX_INPUT_FRAME_BYTES : N := 1179.

Definition DISC_KEY_PRESS : byte := Byte.x01.
Definition DISC_KEY_RELEASE : byte := Byte.x02.
Definition DISC_MOUSE_MOVE : byte := Byte.x10.
Definition DISC_BUTTON_PRESS : byte := Byte.x20.
Definition DISC_BUTTON_RELEASE : byte := Byte.x21.

Definition button_to_wire (b : MouseButton) : byte :=
  match b with Left => Byte.x00 | Right => Byte.x01 | Middle => Byte.x02 end.

Definition wire_to_button (b : byte) : option MouseButton :=
  match b with
  | Byte.x00 => Some Left | Byte.x01 => Some Right | Byte.x02 => Some Middle | _ => None
  end.

(** ** Signed LEB128 *)

(** One turn of the loop per byte; an [i32] takes at most five. *)
Fixpoint encode_loop (fuel : nat) (value : Z) : list byte :=
  match fuel with
  | O => []
  | S fuel =>
      let b := Z.land value 0x7f in
      let value := Z.shiftr value 7 in
      let finished :=
        ((value =? 0) && (Z.land b 0x40 =? 0)) || ((value =? -1) && negb (Z.land b 0x40 =? 0)) in
      if finished then [byte_of (Z.to_N b)]
      else byte_of (N.lor (Z.to_N b) 0x80) :: encode_loop fuel value
  end.

Definition encode_varint_i32 (value : Z) : list byte := encode_loop 5 value.

(** [None]: truncated, or more than five bytes. *)
Fixpoint decode_loop (bytes : list byte) (i : N) (result shift : Z) : option (Z * N) :=
  match bytes with
  | [] => None
  | b :: bytes =>
      let b := Z.of_N (Byte.to_N b) in
      let result := Z.lor result (i32 (Z.shiftl (Z.land b 0x7f) shift)) in
      let shift := shift + 7 in
      if Z.land b 0x80 =? 0 then
        let result :=
          if (shift <? 32) && negb (Z.land b 0x40 =? 0)
          then Z.lor result (- Z.shiftl 1 shift) else result in
        Some (result, (i + 1)%N)
      else if 35 <=? shift then None
      else decode_loop bytes (i + 1) result shift
  end.

Definition decode_varint_i32 (bytes : list byte) : option (Z * N) := decode_loop bytes 0 0 0.

(** ** The sender *)
Record InputChannelSender := mkSender { last_keycode : N }.

Definition sender_new : InputChannelSender := {| last_keycode := 0 |}.

(** [keycode as i32]. *)
Definition as_i32 (n : N) : Z := i32 (Z.of_N n).

Definition encode (s : InputChannelSender) (e : InputEvent) : InputChannelSender * option (list byte) :=
  let '(s, buf) :=
    match e with
    | KeyPress keycode =>
        ({| last_keycode := keycode |},
         DISC_KEY_PRESS :: encode_varint_i32 (i32 (as_i32 keycode - as_i32 (last_keycode s))))
    | KeyRelease keycode =>
        ({| last_keycode := keycode |},
         DISC_KEY_RELEASE :: encode_varint_i32 (i32 (as_i32 keycode - as_i32 (last_keycode s))))
    | MouseMove dx dy =>
        (s, DISC_MOUSE_MOVE :: encode_varint_i32 (round_i32 dx) ++ encode_varint_i32 (round_i32 dy))
    | MouseButtonPress button => (s, [DISC_BUTTON_PRESS; button_to_wire button])
    | MouseButtonRelease button => (s, [DISC_BUTTON_RELEASE; button_to_wire button])
    end in
  (s, if (lenN buf <=? MAX_INPUT_FRAME_BYTES)%N then Some buf else None).

(** ** The decoder *)
Record InputChannelDecoder := mkDecoder { d_last_keycode : N }.

Definition decoder_new : InputChannelDecoder := {| d_last_keycode := 0 |}.

(** [(last as i32).checked_add(delta)? as u32]. *)
Definition next_keycode (d : InputChannelDecoder) (delta : Z) : option N :=
  let sum := as_i32 (d_last_keycode d) + delta in
  if (- 2 ^ 31 <=? sum) && (sum <? 2 ^ 31) then Some (Z.to_N (sum mod 2 ^ 32)) else None.

Definition decode_event (d : InputChannelDecoder) (disc : byte) (rest : list byte) :
    option (InputChannelDecoder * InputEvent) :=
  if bool_decide (disc = DISC_KEY_PRESS) then
    '(delta, _) ← decode_varint_i32 rest;
    keycode ← next_keycode d delta;
    Some ({| d_last_keycode := keycode |}, KeyPress keycode)
  else if bool_decide (disc = DISC_KEY_RELEASE) then
    '(delta, _) ← decode_varint_i32 rest;
    keycode ← next_keycode d delta;
    Some ({| d_last_keycode := keycode |}, KeyRelease keycode)
  else if bool_decide (disc = DISC_MOUSE_MOVE) then
    '(dx, consumed) ← decode_varint_i32 rest;
    '(dy, _) ← decode_varint_i32 (drop (N.to_nat consumed) rest);
    Some (d, MouseMove (f_of_Z dx) (f_of_Z dy))
  else if bool_decide (disc = DISC_BUTTON_PRESS) then
    b ← head rest; button ← wire_to_button b; Some (d, MouseButtonPress button)
  else if bool_decide (disc = DISC_BUTTON_RELEASE) then
    b ← head rest; button ← wire_to_button b; Some (d, MouseButtonRelease button)
  else None.

(** A frame that does not decode leaves the state as it was. *)
Definition decode (d : InputChannelDecoder) (bytes : list byte) : InputChannelDecoder * option InputEvent :=
  match bytes with
  | [] => (d, None)
  | disc :: rest =>
      match decode_event d disc rest with
      | Some (d, e) => (d, Some e)
      | None => (d, None)
      end
  end.

(** ** Mouse coalescing *)
Record MouseMoveCoalescer := mkCoalescer { pending_dx : f64; pending_dy : f64; has_pending : bool }.

Definition coalescer_new : MouseMoveCoalescer :=
  {| pending_dx := f_zero; pending_dy := f_zero; has_pending := false |}.

Definition accumulate (c : MouseMoveCoalescer) (dx dy : f64) : MouseMoveCoalescer :=
  {| pending_dx := (pending_dx c + dx)%f64; pending_dy := (pending_dy c + dy)%f64; has_pending := true |}.

Definition flush (c : MouseMoveCoalescer) (s : InputChannelSender) :
    MouseMoveCoalescer * InputChannelSender * option (list byte) :=
  if negb (has_pending c) then (c, s, None)
  else
    let int_dx := f_round (pending_dx c) in
    let int_dy := f_round (pending_dy c) in
    let '(s, frame) := encode s (MouseMove int_dx int_dy) in
    ({| pending_dx := (pending_dx c - int_dx)%f64; pending_dy := (pending_dy c - int_dy)%f64;
        has_pending := false |}, s, frame).

(** ** The injection gate *)
Inductive InjectionError := NotGranted | OsRejected | Unavailable | CapabilityDenied (e : CapabilityError).

(** The broker owns its session: nothing hands it out again. *)
Record InputBroker := mkBroker { control_session : Control.ControlSession }.

(** [os] is the platform's backend; the events it was given come back with the
    result. *)
Definition inject (os : InputEvent -> result InjectionError unit) (h : Heap) (now : Instant)
    (b : InputBroker) (event : InputEvent) : list InputEvent * result InjectionError unit :=
  match Control.apply_event h now (control_session b) with
  | Err e => ([], Err (CapabilityDenied e))
  | Ok _ => ([event], os event)
  end.

(** ** Runs *)
Fixpoint encode_all (s : InputChannelSender) (es : list InputEvent) : InputChannelSender * list (option (list byte)) :=
  match es with
  | [] => (s, [])
  | e :: es =>
      let '(s, f) := encode s e in
      let '(s, fs) := encode_all s es in
      (s, f :: fs)
  end.

(** What the channel delivers, in order. *)
Fixpoint decode_all (d : InputChannelDecoder) (frames : list (list byte)) : InputChannelDecoder * list (option InputEvent) :=
  match frames with
  | [] => (d, [])
  | f :: frames =>
      let '(d, e) := decode d f in
      let '(d, es) := decode_all d frames in
      (d, e :: es)
  end.

(** Pixel distances travel as integers. *)
Definition delivered (e : InputEvent) : InputEvent :=
  match e with
  | MouseMove dx dy => MouseMove (f_of_Z (round_i32 dx)) (f_of_Z (round_i32 dy))
  | e => e
  end.

Definition event_ok (e : InputEvent) : Prop :=
  match e with KeyPress k | KeyRelease k => (k < 2 ^ 31)%N | _ => True end.

(** ** Lemmas *)
Section varint.

Lemma byte_bits b : 0 <= b < 128 ->
  Z.of_N (Byte.to_N (byte_of (Z.to_N b))) = b /\
  Z.of_N (Byte.to_N (byte_of (N.lor (Z.to_N b) 0x80))) = b + 128 /\
  (Z.land b 0x40 =? 0) = (b <? 64) /\ Z.land b 0x7f = b /\ Z.land (b + 128) 0x7f = b /\
  (Z.land b 0x80 =? 0) = true /\ (Z.land (b + 128) 0x80 =? 0) = false.
Proof.
  intros Hb.
  assert (Hall : forallb (fun n => let b := Z.of_nat n in
    (Z.of_N (Byte.to_N (byte_of (Z.to_N b))) =? b) &&
    (Z.of_N (Byte.to_N (byte_of (N.lor (Z.to_N b) 0x80))) =? b + 128) &&
    Bool.eqb (Z.land b 0x40 =? 0) (b <? 64) && (Z.land b 0x7f =? b) && (Z.land (b + 128) 0x7f =? b) &&
    (Z.land b 0x80 =? 0) && negb (Z.land (b + 128) 0x80 =? 0)) (seq 0 128) = true) by (vm_compute; reflexivity).
  rewrite forallb_forall in Hall. specialize (Hall (Z.to_nat b)). rewrite in_seq, Z2Nat.id in Hall by lia.
  specialize (Hall ltac:(lia)). cbn beta zeta in Hall.
  apply andb_true_iff in Hall as [Hall H7]. apply andb_true_iff in Hall as [Hall H6].
  apply andb_true_iff in Hall as [Hall H5]. apply andb_true_iff in Hall as [Hall H4].
  apply andb_true_iff in Hall as [Hall H3]. apply andb_true_iff in Hall as [H1 H2].
  apply Z.eqb_eq in H1, H2, H4, H5. apply Bool.eqb_prop in H3. apply negb_true_iff in H7.
  exact (conj H1 (conj H2 (conj H3 (conj H4 (conj H5 (conj H6 H7)))))).
Qed.

(** Disjoint bits add up. *)
Lemma lor_low low k s : 0 <= s -> 0 <= low < 2 ^ s -> Z.lor low (k * 2 ^ s) = low + k * 2 ^ s.
Proof.
  intros Hs Hl. rewrite <- Z.add_lor_land.
  assert (Hz : Z.land low (k * 2 ^ s) = 0); [|lia].
  apply Z.bits_inj'. intros n Hn. rewrite Z.land_spec, Z.bits_0.
  destruct (Z.lt_ge_cases n s) as [Hlt|Hge]; [rewrite Z.mul_pow2_bits_low by done; apply andb_false_r|].
  assert (Ht : Z.testbit low n = false); [|by rewrite Ht].
  destruct (Z.eq_dec low 0) as [->|]; [apply Z.bits_0|]. apply Z.bits_above_log2; [lia|].
  apply Z.log2_lt_pow2; [lia|]. eapply Z.lt_le_trans; [apply Hl|]. by apply Z.pow_le_mono_r.
Qed.

(** After [i] bytes, with what is left of the value. *)
Lemma decode_encode_loop (j i : nat) (w low : Z) rest :
  (i + j = 5)%nat -> (0 < j)%nat ->
  - 2 ^ (31 - 7 * Z.of_nat i) <= w < 2 ^ (31 - 7 * Z.of_nat i) ->
  0 <= low < 2 ^ (7 * Z.of_nat i) ->
  decode_loop (encode_loop j w ++ rest) (N.of_nat i) low (7 * Z.of_nat i) =
    Some (low + w * 2 ^ (7 * Z.of_nat i), N.of_nat (i + length (encode_loop j w))).
Proof.
  revert i w low. induction j as [|j IH]; intros i w low Hij Hj Hw Hlow; [lia|]. cbn [encode_loop].
  set (s := 7 * Z.of_nat i) in *.
  change 0x7f with (Z.ones 7). rewrite (Z.land_ones w 7), Z.shiftr_div_pow2 by lia. change (2 ^ 7) with 128.
  set (b := w mod 128). set (w' := w / 128).
  assert (Hb : 0 <= b < 128) by (apply Z.mod_pos_bound; lia).
  assert (Ew : w = 128 * w' + b) by (apply Z.div_mod; lia).
  assert (Hi : (i <= 4)%nat) by lia.
  assert (Hs2 : 2 ^ s * 2 ^ (31 - s) = 2 ^ 31) by (rewrite <- Z.pow_add_r by (unfold s; lia); f_equal; lia).
  assert (Hs0 : 0 < 2 ^ s) by (apply Z.pow_pos_nonneg; unfold s; lia).
  destruct (byte_bits b Hb) as (B1 & B2 & B3 & B4 & B5 & B6 & B7). rewrite B3.
  assert (Hlast : w' = 0 /\ b < 64 \/ w' = -1 /\ 64 <= b \/ (i < 4)%nat /\
    ((w' =? 0) && (b <? 64) || (w' =? -1) && negb (b <? 64)) = false).
  { destruct (Z.eqb_spec w' 0), (Z.eqb_spec w' (-1)), (Z.ltb_spec b 64); cbn [andb orb negb]; try lia;
      (right; right; split; [|done]); (destruct (Nat.eq_dec i 4%nat) as [->|]; [|lia]);
      exfalso; unfold s in Hw; change (31 - 7 * Z.of_nat 4%nat) with 3 in Hw; change (2 ^ 3) with 8 in Hw; lia. }
  destruct Hlast as [[Hw0 Hb64]|[[Hw1 Hb64]|[Hi4 Hnf]]].
  - rewrite Hw0, (proj2 (Z.ltb_lt b 64)) by done. cbn [Z.eqb andb orb app decode_loop]. rewrite B1.
    change 127 with 0x7f. rewrite B4, B6, B3, (proj2 (Z.ltb_lt b 64)), Z.shiftl_mul_pow2 by (done || unfold s; lia).
    cbn [negb]. rewrite andb_false_r, i32_small.
    + rewrite lor_low by (done || unfold s; lia). rewrite Ew, Hw0. cbn [length]. do 2 f_equal; lia.
    + unfold in_i32. assert (w < 2 ^ (31 - s)) by apply Hw. nia.
  - rewrite Hw1, (proj2 (Z.ltb_ge b 64)) by done.
    change (-1 =? 0) with false. change (-1 =? -1) with true. cbn [andb orb negb app decode_loop]. rewrite B1.
    change 127 with 0x7f. rewrite B4, B6, B3, (proj2 (Z.ltb_ge b 64)), Z.shiftl_mul_pow2 by (done || unfold s; lia).
    cbn [negb]. rewrite andb_true_r.
    destruct (Z.ltb_spec (s + 7) 32) as [Hs|Hs].
    + assert (Hp : 2 ^ (s + 7) = 128 * 2 ^ s) by (rewrite Z.pow_add_r by (unfold s; lia); lia).
      assert (Hp28 : 2 ^ (s + 7) <= 2 ^ 28) by (apply Z.pow_le_mono_r; unfold s in *; lia).
      rewrite i32_small by (unfold in_i32; nia).
      rewrite lor_low by (done || unfold s; lia).
      rewrite Z.shiftl_mul_pow2, Z.mul_1_l by (unfold s; lia).
      replace (- 2 ^ (s + 7)) with (-1 * 2 ^ (s + 7)) by lia. rewrite lor_low by (unfold s in *; nia).
      rewrite Ew, Hw1. cbn [length]. do 2 f_equal; [nia|lia].
    + assert (Es : s = 28) by (unfold s in *; lia). rewrite Es in *.
      replace (b * 2 ^ 28) with (w * 2 ^ 28 + 8 * 2 ^ 32) by lia. rewrite i32_shift, i32_small.
      * rewrite lor_low by lia. cbn [length]. do 2 f_equal; lia.
      * unfold in_i32. change (2 ^ (31 - 28)) with 8 in Hw. lia.
  - rewrite Hnf. cbn [app decode_loop]. rewrite B2. change 127 with 0x7f.
    rewrite B5, B7, Z.shiftl_mul_pow2 by (unfold s; lia).
    assert (Hp : 2 ^ (s + 7) = 128 * 2 ^ s) by (rewrite Z.pow_add_r by (unfold s; lia); lia).
    assert (Hp28 : 2 ^ (s + 7) <= 2 ^ 28) by (apply Z.pow_le_mono_r; unfold s in *; lia).
    rewrite i32_small by (unfold in_i32; nia). rewrite lor_low by (done || unfold s; lia).
    destruct (Z.leb_spec 35 (s + 7)) as [|_]; [unfold s in *; lia|].
    replace (s + 7) with (7 * Z.of_nat (S i)) by (unfold s; lia).
    replace (N.of_nat i + 1)%N with (N.of_nat (S i)) by lia.
    assert (Hhalf : 2 ^ (31 - s) = 128 * 2 ^ (31 - 7 * Z.of_nat (S i))).
    { replace (31 - s) with (7 + (31 - 7 * Z.of_nat (S i))) by (unfold s; lia).
      rewrite Z.pow_add_r by (unfold s in *; lia). lia. }
    rewrite IH.
    + cbn [length]. replace (7 * Z.of_nat (S i)) with (s + 7) by (unfold s; lia). rewrite Hp, Ew. do 2 f_equal; lia.
    + lia.
    + lia.
    + unfold w'. fold s in Hw. rewrite Hhalf in Hw. split; [apply Z.div_le_lower_bound; lia|].
      apply Z.div_lt_upper_bound; lia.
    + replace (7 * Z.of_nat (S i)) with (s + 7) by (unfold s; lia). nia.
Qed.

(** Every [i32] comes back, and nothing after it is read. *)
Lemma varint_roundtrip v rest :
  in_i32 v -> decode_varint_i32 (encode_varint_i32 v ++ rest) = Some (v, lenN (encode_varint_i32 v)).
Proof.
  intros Hv. unfold decode_varint_i32, encode_varint_i32.
  assert (Hl : decode_loop (encode_loop 5 v ++ rest) (N.of_nat 0) 0 (7 * Z.of_nat 0) =
    Some (0 + v * 2 ^ (7 * Z.of_nat 0), N.of_nat (0 + length (encode_loop 5 v)))).
  { apply decode_encode_loop; [done|lia|exact Hv|]. change (2 ^ (7 * Z.of_nat 0)) with 1. lia. }
  change (N.of_nat 0) with 0%N in Hl. change (7 * Z.of_nat 0) with 0 in Hl. rewrite Hl. unfold lenN.
  change (2 ^ 0) with 1. do 2 f_equal. lia.
Qed.

Lemma encode_loop_length j v : (length (encode_loop j v) <= j)%nat.
Proof.
  revert v. induction j as [|j IH]; intros v; [done|]. cbn [encode_loop].
  case_match; cbn [length]; [lia|]. specialize (IH (Z.shiftr v 7)). lia.
Qed.
End varint.

Section events.
Implicit Types (s : InputChannelSender) (d : InputChannelDecoder) (e : InputEvent).

Lemma as_i32_small k : (k < 2 ^ 31)%N -> as_i32 k = Z.of_N k.
Proof. intros Hk. unfold as_i32. apply i32_small. unfold in_i32. lia. Qed.

Lemma round_i32_in x : in_i32 (round_i32 x).
Proof.
  unfold in_i32, round_i32. assert (forall z, - 2 ^ 31 <= clampZ z (- 2 ^ 31) (2 ^ 31 - 1) < 2 ^ 31).
  { intros z. unfold clampZ. destruct (Z.ltb_spec z (- 2 ^ 31)), (Z.ltb_spec (2 ^ 31 - 1) z); lia. }
  destruct x as [| [] | |]; try lia; apply H.
Qed.

Lemma frame_small disc l : (length l <= 10)%nat -> (lenN (disc :: l : list byte) <=? MAX_INPUT_FRAME_BYTES)%N = true.
Proof. intros Hl. apply N.leb_le. rewrite lenN_cons. unfold lenN, MAX_INPUT_FRAME_BYTES. lia. Qed.

Lemma varint_short v : (length (encode_varint_i32 v) <= 5)%nat.
Proof. apply encode_loop_length. Qed.

Lemma varint_alone v : in_i32 v -> decode_varint_i32 (encode_varint_i32 v) = Some (v, lenN (encode_varint_i32 v)).
Proof. intros Hv. rewrite <- (app_nil_r (encode_varint_i32 v)) at 1. by apply varint_roundtrip. Qed.

(** A keycode is recovered from its difference to the last one. *)
Lemma keycode_roundtrip last k :
  (last < 2 ^ 31)%N -> (k < 2 ^ 31)%N ->
  ('(delta, _) ← decode_varint_i32 (encode_varint_i32 (i32 (as_i32 k - as_i32 last)));
   next_keycode {| d_last_keycode := last |} delta) = Some k.
Proof.
  intros Hl Hk. rewrite !as_i32_small by done. rewrite varint_alone by apply i32_in.
  cbn [mbind option_bind]. rewrite i32_small by (unfold in_i32; lia). unfold next_keycode.
  cbn [d_last_keycode]. rewrite as_i32_small by done.
  destruct (Z.leb_spec (- 2 ^ 31) (Z.of_N last + (Z.of_N k - Z.of_N last))); [|lia].
  destruct (Z.ltb_spec (Z.of_N last + (Z.of_N k - Z.of_N last)) (2 ^ 31)); [|lia].
  cbn [andb]. rewrite Z.mod_small by lia. f_equal. lia.
Qed.

Lemma key_decoded last k disc (mk : N -> InputEvent) :
  (last < 2 ^ 31)%N -> (k < 2 ^ 31)%N ->
  (disc = DISC_KEY_PRESS /\ mk = KeyPress \/ disc = DISC_KEY_RELEASE /\ mk = KeyRelease) ->
  decode {| d_last_keycode := last |}
    (disc :: encode_varint_i32 (i32 (as_i32 k - as_i32 last))) =
  ({| d_last_keycode := k |}, Some (mk k)).
Proof.
  intros Hl Hk Hd. pose proof (keycode_roundtrip last k Hl Hk) as Hr. unfold decode, decode_event.
  destruct (decode_varint_i32 (encode_varint_i32 (i32 (as_i32 k - as_i32 last)))) as [[delta n]|];
    cbn [mbind option_bind] in Hr; [|done].
  destruct Hd as [[-> ->]|[-> ->]].
  - rewrite bool_decide_true by done. cbn [mbind option_bind]. by rewrite Hr.
  - rewrite bool_decide_false, bool_decide_true by done. cbn [mbind option_bind]. by rewrite Hr.
Qed.

Lemma event_roundtrip s e :
  event_ok e -> (last_keycode s < 2 ^ 31)%N ->
  exists s' f, encode s e = (s', Some f) /\ (last_keycode s' < 2 ^ 31)%N /\
    decode {| d_last_keycode := last_keycode s |} f =
      ({| d_last_keycode := last_keycode s' |}, Some (delivered e)).
Proof.
  intros He Hs. destruct e as [k|k|dx dy|b|b]; cbn [encode event_ok delivered] in *.
  - rewrite frame_small by (pose proof (varint_short (i32 (as_i32 k - as_i32 (last_keycode s)))); lia).
    eexists _, _. split; [reflexivity|]. split; [done|]. apply (key_decoded _ _ _ KeyPress); [done|done|by left].
  - rewrite frame_small by (pose proof (varint_short (i32 (as_i32 k - as_i32 (last_keycode s)))); lia).
    eexists _, _. split; [reflexivity|]. split; [done|]. apply (key_decoded _ _ _ KeyRelease); [done|done|by right].
  - pose proof (varint_short (round_i32 dx)). pose proof (varint_short (round_i32 dy)).
    rewrite frame_small by (rewrite length_app; lia).
    eexists _, _. split; [reflexivity|]. split; [done|]. unfold decode, decode_event.
    rewrite !bool_decide_false, bool_decide_true by done.
    rewrite varint_roundtrip by apply round_i32_in. cbn [mbind option_bind].
    rewrite to_nat_lenN, drop_app_length, varint_alone by apply round_i32_in. done.
  - rewrite frame_small by (cbn; lia). eexists _, _. split; [reflexivity|]. split; [done|]. by destruct b.
  - rewrite frame_small by (cbn; lia). eexists _, _. split; [reflexivity|]. split; [done|]. by destruct b.
Qed.

Lemma stream_roundtrip s es :
  Forall event_ok es -> (last_keycode s < 2 ^ 31)%N ->
  exists s' frames, encode_all s es = (s', map Some frames) /\
    decode_all {| d_last_keycode := last_keycode s |} frames =
      ({| d_last_keycode := last_keycode s' |}, map (fun e => Some (delivered e)) es).
Proof.
  intros He. revert s. induction He as [|e es He _ IH]; intros s Hs; cbn [encode_all].
  { by exists s, []. }
  destruct (event_roundtrip s e He Hs) as (s1 & f & -> & Hs1 & Hd).
  destruct (IH s1 Hs1) as (s' & frames & -> & Hds). exists s', (f :: frames). split; [done|].
  cbn [decode_all map]. by rewrite Hd, Hds.
Qed.
End events.

(** ** Properties *)

(** C27: On its reliable ordered channel the input stream arrives as it was: whatever
    the events, keycodes below 2^31, every one is sent in a frame, and the frames
    decode to the same presses, releases and buttons in order, with pointer moves
    rounded to whole pixels; the two ends agree on the last keycode throughout. *)
Theorem input_stream_roundtrip (es : list InputEvent) (Hes : Forall event_ok es) :
  exists s frames, encode_all sender_new es = (s, map Some frames) /\
    decode_all decoder_new frames =
      ({| d_last_keycode := last_keycode s |}, map (fun e => Some (delivered e)) es).
Proof. apply (stream_roundtrip sender_new es Hes). reflexivity. Qed.

Lemma input_stream_roundtrip_witness :
  let es := [KeyPress 65; KeyPress 0x7fffffff; MouseMove (f_of_Z (-300)) f_one; KeyRelease 65; MouseButtonPress Middle] in
  exists s frames, encode_all sender_new es = (s, map Some frames) /\
    decode_all decoder_new frames =
      ({| d_last_keycode := last_keycode s |}, map (fun e => Some (delivered e)) es).
Proof.
  apply input_stream_roundtrip.
  repeat (apply Forall_cons; split; [first [exact I | reflexivity]|]). by apply Forall_nil.
Defined.

(** Frames of keys are not self-contained: when one is dropped, the receiver takes
    the difference between the next two keys for the key itself. *)
Theorem dropped_key_corrupts_next (k1 k2 : N) :
  (k1 < 2 ^ 31)%N -> (k2 < 2 ^ 31)%N ->
  let '(s, _) := encode sender_new (KeyPress k1) in
  exists s' f, encode s (KeyPress k2) = (s', Some f) /\
    snd (decode decoder_new f) =
      Some (KeyPress (Z.to_N ((Z.of_N k2 - Z.of_N k1) mod 2 ^ 32))).
Proof.
  intros H1 H2. cbn [encode]. eexists _, _. split.
  { rewrite frame_small; [reflexivity|].
    pose proof (varint_short (i32 (as_i32 k2 - as_i32 (last_keycode {| last_keycode := k1 |})))). lia. }
  unfold decode, decode_event. rewrite bool_decide_true by done. cbn [last_keycode].
  rewrite varint_alone by apply i32_in. cbn [mbind option_bind].
  rewrite !as_i32_small, i32_small by (done || unfold in_i32; lia). unfold next_keycode.
  change (as_i32 (d_last_keycode decoder_new)) with 0. rewrite Z.add_0_l.
  destruct (Z.leb_spec (- 2 ^ 31) (Z.of_N k2 - Z.of_N k1)); [|lia].
  destruct (Z.ltb_spec (Z.of_N k2 - Z.of_N k1) (2 ^ 31)); [|lia]. done.
Qed.

Lemma dropped_key_corrupts_next_witness :
  let '(s, _) := encode sender_new (KeyPress 0x41) in
  exists s' f, encode s (KeyPress 0x42) = (s', Some f) /\
    snd (decode decoder_new f) = Some (KeyPress (Z.to_N ((Z.of_N 0x42 - Z.of_N 0x41) mod 2 ^ 32))).
Proof. apply (dropped_key_corrupts_next 0x41 0x42); reflexivity. Defined.

(** No event reaches the operating system but under a live control grant, and
    then exactly the event injected does; what the broker refuses it refuses with
    the reason, before the backend is called. *)
Theorem injection_needs_live_grant (os : InputEvent -> result InjectionError unit) (h : Heap)
    (now : Instant) (b : InputBroker) (e : InputEvent) :
  inject os h now b e =
    if Control.is_granted h now (control_session b) then ([e], os e)
    else ([], Err (CapabilityDenied
           match Control.grant (control_session b) with
           | None => NoActiveGrant
           | Some g => if revoked_in h (Control.revocation g) then ConsentWithdrawn else GrantExpired
           end)).
Proof.
  unfold inject, Control.apply_event, Control.is_granted.
  destruct (Control.grant (control_session b)) as [g|]; [|done].
  destruct (revoked_in h (Control.revocation g)); [done|]. by destruct (Control.is_expired now g).
Qed.
