(* ===== verification/Senders.v ===== *)
(** Small senders of [core/platform/src]: reference frames
    ([reference_frame_sender.rs], with the frame types of [keypoint_extractor.rs]
    and [synthesis_network.rs]), cursor deltas ([cursor_sender.rs]), the intra
    refresh sweep ([intra_refresh.rs]) and the audio redundancy controls
    ([lbrr_fec.rs], [dred_sender.rs], [opus_packetizer.rs]). *)
From S2P Require Import Prelude F64 Tier.
#[local] Open Scope N_scope.

(** ** Reference frames *)
Module Reference.
Definition TAG_REFERENCE_FRAME : byte := Byte.x52.
Definition HEADER_LEN : N := 9.

Inductive ReferenceCodecError :=
| InvalidFrame | PacketTooShort | UnknownTag (t : N) | ZeroDimension
| PixelLengthMismatch (expected actual : N).

(** [CameraFrame] and [ReferenceFrame] have the same fields. *)
Record Frame := mkFrame { pixels : list byte; width : N; height : N }.

(** [(width * height * 3) as usize], in [u32]. *)
Definition pixel_bytes (width height : N) : N := wrap 32 (wrap 32 (width * height) * 3).

Definition is_valid (f : Frame) : bool :=
  (0 <? width f) && (0 <? height f) && (lenN (pixels f) =? pixel_bytes (width f) (height f)).

Record GearAReferenceEncoder := mkEncoder { reference_sent : bool }.

Definition encoder_new : GearAReferenceEncoder := {| reference_sent := false |}.
Definition needs_reference_frame (e : GearAReferenceEncoder) : bool := negb (reference_sent e).
Definition reset (e : GearAReferenceEncoder) : GearAReferenceEncoder := {| reference_sent := false |}.

Definition encode_reference_frame (e : GearAReferenceEncoder) (f : Frame) :
    GearAReferenceEncoder * result ReferenceCodecError (list byte) :=
  if negb (is_valid f) then (e, Err InvalidFrame)
  else ({| reference_sent := true |},
        Ok (TAG_REFERENCE_FRAME :: le_bytes 4 (width f) ++ le_bytes 4 (height f) ++ pixels f)).

Definition decode (data : list byte) : result ReferenceCodecError Frame :=
  if lenN data <? HEADER_LEN then Err PacketTooShort
  else if negb (bool_decide (nth 0 data Byte.x00 = TAG_REFERENCE_FRAME))
  then Err (UnknownTag (Byte.to_N (nth 0 data Byte.x00)))
  else
    let w := le_value (take 4 (drop 1 data)) in
    let h := le_value (take 4 (drop 5 data)) in
    if (w =? 0) || (h =? 0) then Err ZeroDimension
    else
      let expected := pixel_bytes w h in
      let actual := lenN data - HEADER_LEN in
      if negb (actual =? expected) then Err (PixelLengthMismatch expected actual)
      else Ok {| pixels := drop 9 data; width := w; height := h |}.
End Reference.

(** ** Cursor deltas *)
Module Cursor.
#[local] Open Scope Z_scope.

Record CursorPositionSampler := mkSampler { last_x : Z; last_y : Z }.

Definition sampler_new : CursorPositionSampler := {| last_x := 0; last_y := 0 |}.

Definition clamp_i16 (z : Z) : Z := clampZ z (-32768) 32767.

Definition encode_delta (dx dy : Z) : list byte := i16_bytes dx ++ i16_bytes dy.

Definition decode_delta (frame : list byte) : Z * Z :=
  (i16_value (take 2 frame), i16_value (drop 2 frame)).

(** [x - last_x] in [i32]. *)
Definition sub_i32 (a b : Z) : Z := (a - b + 2 ^ 31) mod 2 ^ 32 - 2 ^ 31.

Definition advance (s : CursorPositionSampler) (x y : Z) : CursorPositionSampler * list byte :=
  let dx := clamp_i16 (sub_i32 x (last_x s)) in
  let dy := clamp_i16 (sub_i32 y (last_y s)) in
  ({| last_x := x; last_y := y |}, encode_delta dx dy).

(** The receiver adds the deltas up. *)
Fixpoint follow (s : CursorPositionSampler) (at_ : Z * Z) (positions : list (Z * Z)) : Z * Z :=
  match positions with
  | [] => at_
  | (x, y) :: positions =>
      let '(s, frame) := advance s x y in
      let '(dx, dy) := decode_delta frame in
      follow s (fst at_ + dx, snd at_ + dy) positions
  end.

(** What clamping took off a move, and off a run of moves. *)
Definition excess (d : Z) : Z := d - clamp_i16 d.

Fixpoint excesses (from : Z) (xs : list Z) : Z :=
  match xs with [] => 0 | x :: xs => excess (x - from) + excesses x xs end.

Definition on_screen (p : Z * Z) : Prop := Z.abs (fst p) < 2 ^ 30 /\ Z.abs (snd p) < 2 ^ 30.
End Cursor.

(** ** Intra refresh *)
Module Refresh.
Inductive IntraRefreshFrame := Keyframe | ColumnSweep (col : N).

Record IntraRefreshState := mkState { columns : N; next_col : N; started : bool }.

(** [None]: [columns] is zero, an assertion. *)
Definition state_new (columns : N) : option IntraRefreshState :=
  if columns =? 0 then None
  else Some {| columns := columns; next_col := 0; started := false |}.

Definition advance (s : IntraRefreshState) : IntraRefreshState * IntraRefreshFrame :=
  if negb (started s)
  then ({| columns := columns s; next_col := next_col s; started := true |}, Keyframe)
  else
    ({| columns := columns s; next_col := (wrap 32 (next_col s + 1)) mod columns s; started := true |},
     ColumnSweep (next_col s)).

Fixpoint frames (n : nat) (s : IntraRefreshState) : list IntraRefreshFrame :=
  match n with
  | O => []
  | S n => let '(s, f) := advance s in f :: frames n s
  end.
End Refresh.

(** ** Audio redundancy *)
Module Redundancy.
Definition LBRR_OVERHEAD_BPS : N := 2000.
Definition LBRR_ENABLE_THRESHOLD : f64 := f_lit 1 1000.

Record LbrrEncoder := mkLbrr { enabled : bool; packet_loss_perc : N }.

Definition lbrr_new : LbrrEncoder := {| enabled := false; packet_loss_perc := 0 |}.

Definition set_loss_rate (e : LbrrEncoder) (loss_rate : f64) : LbrrEncoder :=
  let clamped := f_clamp loss_rate f_zero f_one in
  if (LBRR_ENABLE_THRESHOLD <=? clamped)%f64
  then {| enabled := true; packet_loss_perc := N.max (f_to_uN 8 (f_round (clamped * f_of_N 100)%f64)) 1 |}
  else {| enabled := false; packet_loss_perc := 0 |}.

Definition lbrr_overhead_bps (e : LbrrEncoder) : N := if enabled e then LBRR_OVERHEAD_BPS else 0.

Record LbrrDecoder := mkLbrrDecoder { fec_pending : bool }.

Definition mark_isolated_loss (d : LbrrDecoder) : LbrrDecoder := {| fec_pending := true |}.
Definition consume_fec_pending (d : LbrrDecoder) : LbrrDecoder * bool :=
  ({| fec_pending := false |}, fec_pending d).

Definition DRED_FRAME_DURATION_MS : N := 20.
Definition MAX_DRED_DEPTH_FRAMES : N := 1000 / DRED_FRAME_DURATION_MS.
Definition MIN_DRED_DEPTH_FRAMES : N := 0.
Definition DRED_OVERHEAD_BPS_PER_FRAME : N := 800.

Record DredSender := mkDred { depth_frames : N }.

Definition dred_new (depth : N) : DredSender :=
  {| depth_frames := clampN depth MIN_DRED_DEPTH_FRAMES MAX_DRED_DEPTH_FRAMES |}.

Definition set_depth (d : DredSender) (depth : N) : DredSender :=
  {| depth_frames := clampN depth MIN_DRED_DEPTH_FRAMES MAX_DRED_DEPTH_FRAMES |}.

Definition depth_ms (d : DredSender) : N := depth_frames d * DRED_FRAME_DURATION_MS.

Definition dred_overhead_bps (d : DredSender) : N :=
  wrap 32 (wrap 32 (depth_frames d) * DRED_OVERHEAD_BPS_PER_FRAME).

Definition dred_depth_from_burst_ms (burst_ms : f64) : N :=
  if (burst_ms <=? f_zero)%f64 then MIN_DRED_DEPTH_FRAMES
  else
    let frames := f_to_uN 64 (f_ceil (burst_ms / f_of_N DRED_FRAME_DURATION_MS)%f64) in
    clampN frames MIN_DRED_DEPTH_FRAMES MAX_DRED_DEPTH_FRAMES.

Definition dred_depth_from_ge_burst_packets (mean_burst_packets : f64) : N :=
  dred_depth_from_burst_ms (mean_burst_packets * f_of_N DRED_FRAME_DURATION_MS)%f64.

Definition apply_ge_estimate (d : DredSender) (mean_burst_packets : f64) : DredSender :=
  set_depth d (dred_depth_from_ge_burst_packets mean_burst_packets).

Definition SURVIVAL_FRAME_MS : N := 60.
Definition DEFAULT_FRAME_MS : N := 20.

Definition frame_duration_ms_from_tier (t : TierState) : N :=
  match t with Survival => SURVIVAL_FRAME_MS | _ => DEFAULT_FRAME_MS end.

Definition packets_per_second (frame_ms : N) : N := if frame_ms =? 0 then 0 else 1000 / frame_ms.

Definition header_overhead_fraction (frame_ms codec_bps header_bytes : N) : f64 :=
  if (frame_ms =? 0) || (codec_bps =? 0) then f_zero
  else
    let payload := ((f_of_N codec_bps * f_of_N frame_ms) / (f_of_N 8 * f_of_N 1000))%f64 in
    let header := f_of_N header_bytes in
    (header / (header + payload))%f64.
End Redundancy.

(** ** Lemmas *)
#[local] Arguments le_bytes : simpl never.

Section cursor.
Local Open Scope Z_scope.
Import Cursor.

Lemma clamp_i16_range z : -32768 <= clamp_i16 z <= 32767.
Proof. unfold clamp_i16, clampZ. destruct (Z.ltb_spec z (-32768)), (Z.ltb_spec 32767 z); lia. Qed.

Lemma delta_roundtrip dx dy :
  -32768 <= dx <= 32767 -> -32768 <= dy <= 32767 -> decode_delta (encode_delta dx dy) = (dx, dy).
Proof.
  intros Hx Hy. unfold decode_delta, encode_delta.
  assert (Hl : length (i16_bytes dx) = 2%nat) by apply le_bytes_length.
  rewrite take_app_length', drop_app_length' by done. by rewrite !i16_roundtrip by (unfold i16_ok; lia).
Qed.

Lemma sub_i32_small a b : Z.abs a < 2 ^ 30 -> Z.abs b < 2 ^ 30 -> sub_i32 a b = a - b.
Proof. intros Ha Hb. unfold sub_i32. rewrite Z.mod_small; lia. Qed.

Lemma follow_spec s at_ ps :
  Z.abs (last_x s) < 2 ^ 30 -> Z.abs (last_y s) < 2 ^ 30 -> Forall on_screen ps ->
  let final := default (last_x s, last_y s) (last ps) in
  follow s at_ ps =
    (fst at_ + (fst final - last_x s) - excesses (last_x s) (map fst ps),
     snd at_ + (snd final - last_y s) - excesses (last_y s) (map snd ps)).
Proof.
  intros Hx Hy Hp. revert s at_ Hx Hy. induction Hp as [|[x y] ps [Hpx Hpy] _ IH]; intros s at_ Hx Hy; cbn [follow].
  { cbn. destruct at_. f_equal; cbn; lia. }
  cbn [fst snd] in *. unfold advance. rewrite !sub_i32_small by done.
  rewrite delta_roundtrip by apply clamp_i16_range.
  rewrite (IH {| last_x := x; last_y := y |}) by done. cbn [last_x last_y fst snd map excesses].
  assert (Hl : forall d e : Z * Z, default d (last (e :: ps)) = default e (last ps)).
  { intros d e. destruct ps as [|p ps]; [done|]. change (last (e :: p :: ps)) with (last (p :: ps)).
    destruct (last (p :: ps)) eqn:E; [done|]. by apply last_None in E. }
  rewrite (Hl _ (x, y)). unfold excess. destruct (default (x, y) (last ps)) as [fx fy]. cbn [fst snd]. f_equal; lia.
Qed.
End cursor.

Section refresh.
Import Refresh.

Lemma sweep_frames n s :
  started s = true -> next_col s < columns s -> columns s < 2 ^ 32 ->
  frames n s = map (fun i => ColumnSweep ((next_col s + N.of_nat i) mod columns s)) (seq 0 n).
Proof.
  revert s. induction n as [|n IH]; intros s Hs Hn Hc; [done|]. cbn [frames]. unfold advance. rewrite Hs. cbn [negb].
  cbn [seq map]. change (N.of_nat 0) with 0. rewrite N.add_0_r, (N.mod_small (next_col s)) by done. f_equal.
  rewrite IH; cbn [started next_col columns]; [|done|apply N.mod_lt; lia|done].
  rewrite <- seq_shift, map_map. apply map_ext. intros i. f_equal.
  rewrite wrap_small by lia. rewrite N.Div0.add_mod_idemp_l. f_equal. lia.
Qed.
End refresh.

Lemma map_seq_offset {A} (f : nat -> A) k n : map f (seq k n) = map (fun i => f (k + i)%nat) (seq 0 n).
Proof.
  revert k. induction n as [|n IH]; intros k; [done|]. cbn [seq map]. rewrite (IH (S k)).
  rewrite <- seq_shift, map_map. f_equal; [f_equal; lia|]. apply map_ext. intros i. f_equal. lia.
Qed.

(** ** Properties *)

(** The reference codec accepts exactly the packets of valid frames: a packet
    decodes to a frame when, and only when, it is what encoding that frame writes;
    and encoding marks the reference as sent exactly when it succeeds. *)
Theorem reference_decodes_iff_encoded (e : Reference.GearAReferenceEncoder) (data : list byte)
    (f : Reference.Frame) :
  Reference.width f < 2 ^ 32 -> Reference.height f < 2 ^ 32 ->
  (Reference.decode data = Ok f <-> snd (Reference.encode_reference_frame e f) = Ok data) /\
  Reference.reference_sent (fst (Reference.encode_reference_frame e f)) =
    (Reference.reference_sent e || Reference.is_valid f)%bool.
Proof.
  intros Hw Hh. split.
  2: { unfold Reference.encode_reference_frame. destruct (Reference.is_valid f); cbn [negb fst Reference.reference_sent].
       - by rewrite orb_true_r. - by rewrite orb_false_r. }
  unfold Reference.decode, Reference.HEADER_LEN. split.
  - case_ifs; try done. intros [= <-]. unfold Reference.encode_reference_frame, Reference.is_valid.
    cbn [Reference.width Reference.height Reference.pixels] in *.
    match goal with Ht : bool_decide _ = true |- _ => apply bool_decide_eq_true in Ht as Ht' end.
    destruct data as [|t data]; [done|]. cbn [nth] in Ht'. subst t. cbn [drop] in *. rewrite lenN_cons in *.
    assert (H1 : length (take 4 data) = 4%nat) by (unfold lenN in *; rewrite length_take; lia).
    assert (H2 : length (take 4 (drop 4 data)) = 4%nat) by (unfold lenN in *; rewrite length_take, length_drop; lia).
    assert (Hpx : lenN (drop 8 data) = 1 + lenN data - 9) by (unfold lenN in *; rewrite length_drop; lia).
    rewrite Hpx. rewrite (proj2 (N.ltb_lt 0 _)), (proj2 (N.ltb_lt 0 _)) by lia.
    match goal with He : _ - 9 = _ |- _ => rewrite He, N.eqb_refl end. cbn [andb negb snd]. do 2 f_equal.
    assert (E1 : le_bytes 4 (le_value (take 4 data)) = take 4 data) by (rewrite <- H1 at 1; apply le_bytes_value).
    assert (E2 : le_bytes 4 (le_value (take 4 (drop 4 data))) = take 4 (drop 4 data))
      by (rewrite <- H2 at 1; apply le_bytes_value).
    change (drop 0 data) with data. rewrite E1, E2.
    transitivity (take 4 data ++ drop 4 data); [|apply take_drop]. f_equal.
    transitivity (take 4 (drop 4 data) ++ drop 4 (drop 4 data)); [|apply take_drop]. by rewrite drop_drop.
  - unfold Reference.encode_reference_frame, Reference.is_valid.
    pose proof (le_bytes_length 4 (Reference.width f)) as L1.
    pose proof (le_bytes_length 4 (Reference.height f)) as L2.
    pose proof (le_value_bytes_small 4 (Reference.width f) Hw) as V1.
    pose proof (le_value_bytes_small 4 (Reference.height f) Hh) as V2.
    remember (le_bytes 4 (Reference.width f)) as w4. remember (le_bytes 4 (Reference.height f)) as h4.
    destruct (_ && _)%bool eqn:Hv; [|done]. cbn [negb snd]. intros [= <-]. reflectN.
    assert (D1 : take 4 (drop 1 (Reference.TAG_REFERENCE_FRAME :: w4 ++ h4 ++ Reference.pixels f)) = w4)
      by (cbn [drop]; by apply take_app_length').
    assert (D5 : drop 5 (Reference.TAG_REFERENCE_FRAME :: w4 ++ h4 ++ Reference.pixels f) = h4 ++ Reference.pixels f)
      by (cbn [drop]; by apply drop_app_length').
    assert (D9 : drop 9 (Reference.TAG_REFERENCE_FRAME :: w4 ++ h4 ++ Reference.pixels f) = Reference.pixels f).
    { cbn [drop]. rewrite app_assoc. apply drop_app_length'. by rewrite length_app, L1, L2. }
    assert (Hl : lenN (Reference.TAG_REFERENCE_FRAME :: w4 ++ h4 ++ Reference.pixels f) = 9 + lenN (Reference.pixels f)).
    { rewrite lenN_cons, !lenN_app. unfold lenN at 1 2. rewrite L1, L2. lia. }
    rewrite Hl, (proj2 (N.ltb_ge _ 9)), D1, D5, D9, take_app_length', V1, V2 by (done || lia).
    cbn [nth]. rewrite bool_decide_true by done. cbn [negb].
    rewrite !(proj2 (N.eqb_neq _ 0)) by lia. cbn [orb].
    replace (9 + lenN (Reference.pixels f) - 9) with (lenN (Reference.pixels f)) by lia.
    match goal with He : lenN (Reference.pixels f) = _ |- _ => rewrite He, N.eqb_refl end. cbn [negb]. by destruct f.
Qed.

Lemma reference_decodes_iff_encoded_witness :
  Reference.width {| Reference.pixels := repeat Byte.x07 6; Reference.width := 2; Reference.height := 1 |} < 2 ^ 32 /\
  (Reference.decode (Reference.TAG_REFERENCE_FRAME :: le_bytes 4 2 ++ le_bytes 4 1 ++ repeat Byte.x07 6) =
   Ok {| Reference.pixels := repeat Byte.x07 6; Reference.width := 2; Reference.height := 1 |}).
Proof.
  split; [reflexivity|].
  apply (reference_decodes_iff_encoded Reference.encoder_new _
           {| Reference.pixels := repeat Byte.x07 6; Reference.width := 2; Reference.height := 1 |});
    reflexivity.
Defined.

(** The size check is in [u32]: nine bytes that announce a 65536 by 65536 image
    are a valid packet of a frame with no pixel at all. *)
Theorem wrapped_reference_has_no_pixels :
  Reference.decode (Reference.TAG_REFERENCE_FRAME :: le_bytes 4 65536 ++ le_bytes 4 65536) =
    Ok {| Reference.pixels := []; Reference.width := 65536; Reference.height := 65536 |} /\
  Reference.is_valid {| Reference.pixels := []; Reference.width := 65536; Reference.height := 65536 |} = true.
Proof. by vm_compute. Qed.

(** The receiver that adds the deltas up is where the cursor is, less what the
    clamp took off each move: exact while no single move exceeds an [i16], and
    off for good by the excess of each one that does. *)
Theorem cursor_follows_less_the_excess (ps : list (Z * Z)) (p : Z * Z) :
  Forall Cursor.on_screen ps -> last ps = Some p ->
  Cursor.follow Cursor.sampler_new (0, 0)%Z ps =
    (fst p - Cursor.excesses 0 (map fst ps), snd p - Cursor.excesses 0 (map snd ps))%Z.
Proof.
  intros Hp Hl. rewrite follow_spec; [|by cbn..]. rewrite Hl. cbn [default fst snd Cursor.last_x Cursor.last_y Cursor.sampler_new].
  unfold id. f_equal; lia.
Qed.

Lemma cursor_follows_less_the_excess_witness :
  Cursor.follow Cursor.sampler_new (0, 0)%Z [(40000, 5); (40000, 6)]%Z = (32767, 6)%Z.
Proof.
  rewrite (cursor_follows_less_the_excess [(40000, 5); (40000, 6)]%Z (40000, 6)%Z); [by vm_compute|..|reflexivity].
  repeat (apply List.Forall_cons; [split; vm_compute; reflexivity|]). by apply List.Forall_nil.
Defined.

(** Intra refresh: the first frame is a keyframe, and every later window of
    [columns] frames refreshes each column once, in turn from some column on. *)
Theorem every_window_refreshes_all_columns (cols : N) (s : Refresh.IntraRefreshState) (k : nat) :
  Refresh.state_new cols = Some s -> cols < 2 ^ 32 ->
  exists start, start < cols /\
    take (N.to_nat cols) (drop (S k) (Refresh.frames (S k + N.to_nat cols) s)) =
    map (fun i => Refresh.ColumnSweep ((start + N.of_nat i) mod cols)) (seq 0 (N.to_nat cols)) /\
    head (Refresh.frames (S k + N.to_nat cols) s) = Some Refresh.Keyframe.
Proof.
  unfold Refresh.state_new. destruct (N.eqb_spec cols 0) as [|Hc]; [done|]. intros [= <-] Hw.
  exists (N.of_nat k mod cols). split; [apply N.mod_lt; lia|].
  cbn [Refresh.frames Nat.add]. unfold Refresh.advance at 1 2. cbn [Refresh.started negb drop head].
  rewrite sweep_frames by (cbn [Refresh.started Refresh.next_col Refresh.columns]; lia || done).
  cbn [Refresh.next_col Refresh.columns]. split; [|done].
  rewrite seq_app, map_app, drop_app_length' by (by rewrite length_map, length_seq).
  rewrite take_ge by (rewrite length_map, length_seq; lia).
  rewrite (map_seq_offset _ (0 + k)). apply map_ext. intros i. f_equal.
  rewrite N.Div0.add_mod_idemp_l. f_equal. lia.
Qed.

Lemma every_window_refreshes_all_columns_witness :
  exists start, start < 3 /\
    take 3 (drop 5 (Refresh.frames 8 {| Refresh.columns := 3; Refresh.next_col := 0; Refresh.started := false |})) =
    map (fun i => Refresh.ColumnSweep ((start + N.of_nat i) mod 3)) (seq 0 3).
Proof.
  destruct (every_window_refreshes_all_columns 3 _ 4 eq_refl eq_refl) as (start & H1 & H2 & _).
  by exists start.
Defined.

Section redundancy.
Import Redundancy.

(** Mean bursts of a whole number of packets ask for that many frames of
    redundancy, one second at most. *)
Lemma dred_depth_whole_bursts :
  forallb (fun n => dred_depth_from_ge_burst_packets (f_of_N n) =? N.min n 50) (map N.of_nat (seq 0 120)) = true.
Proof. by vm_compute. Qed.

(** A loss rate of a whole percentage is told to the codec as it is. *)
Lemma lbrr_whole_percentages :
  forallb (fun n => packet_loss_perc (set_loss_rate lbrr_new (f_lit (Z.of_N n) 100)) =? n) (map N.of_nat (seq 0 101)) = true.
Proof. by vm_compute. Qed.

Lemma apply_ge_estimate_bounded d m :
  depth_frames (apply_ge_estimate d m) <= 50 /\ dred_overhead_bps (apply_ge_estimate d m) <= 40000.
Proof.
  assert (H : depth_frames (apply_ge_estimate d m) <= 50).
  { unfold apply_ge_estimate, set_depth. cbn [depth_frames]. unfold clampN.
    change MAX_DRED_DEPTH_FRAMES with 50. case_ifs; unfold MIN_DRED_DEPTH_FRAMES in *; lia. }
  split; [done|]. unfold dred_overhead_bps, DRED_OVERHEAD_BPS_PER_FRAME.
  rewrite (wrap_small 32 (depth_frames _)) by lia. rewrite wrap_small by lia. lia.
Qed.
End redundancy.
