(* ===== verification/Records.v ===== *)
(** Session records and the observer that feeds them:
    [session_records.rs] and [qos_observer.rs] of [core/messaging/src].

    A [Vec] of records searched by connection id; the JSON export is the string
    the code builds. *)
From Stdlib Require Import Strings.String.
From S2P Require Import Prelude Text Numeral.
#[local] Open Scope N_scope.

(** ** The store *)
Inductive Tier := Survival | Constrained | Comfortable | Full.

#[global] Instance Tier_eq_dec : EqDecision Tier.
Proof. solve_decision. Defined.

(** The derived [Ord]. *)
Definition rank (t : Tier) : N :=
  match t with Survival => 0 | Constrained => 1 | Comfortable => 2 | Full => 3 end.

Definition as_str (t : Tier) : str :=
  match t with
  | Survival => lit "Survival" | Constrained => lit "Constrained"
  | Comfortable => lit "Comfortable" | Full => lit "Full"
  end.

Record SessionRecord := mkRecord {
  connection_id : N; peer_key : option (list byte); started_at_ms : N;
  ended_at_ms : option N; peak_tier : option Tier; total_bytes : N }.

Record SessionRecordStore := mkStore { records : list SessionRecord }.

Definition store_new : SessionRecordStore := {| records := [] |}.

Definition has_id (id : N) (r : SessionRecord) : Prop := connection_id r = id.

#[global] Instance has_id_dec id r : Decision (has_id id r).
Proof. unfold has_id. apply _. Defined.
#[global] Typeclasses Opaque has_id.

Definition find_index (s : SessionRecordStore) (id : N) : option nat :=
  fst <$> list_find (has_id id) (records s).

Definition open_record (s : SessionRecordStore) (id : N) (key : option (list byte)) (started : N) :
    SessionRecordStore :=
  match find_index s id with
  | None =>
      {| records := records s ++ [{| connection_id := id; peer_key := key; started_at_ms := started;
                                     ended_at_ms := None; peak_tier := None; total_bytes := 0 |}] |}
  | Some _ => s
  end.

(** [self.records[i].field = value] at the index that was found. *)
Definition update (s : SessionRecordStore) (id : N) (g : SessionRecord -> SessionRecord) :
    SessionRecordStore * bool :=
  match find_index s id with
  | Some i => ({| records := alter g i (records s) |}, true)
  | None => (s, false)
  end.

Definition set_ended (t : N) (r : SessionRecord) : SessionRecord :=
  {| connection_id := connection_id r; peer_key := peer_key r; started_at_ms := started_at_ms r;
     ended_at_ms := Some t; peak_tier := peak_tier r; total_bytes := total_bytes r |}.

Definition set_bytes (n : N) (r : SessionRecord) : SessionRecord :=
  {| connection_id := connection_id r; peer_key := peer_key r; started_at_ms := started_at_ms r;
     ended_at_ms := ended_at_ms r; peak_tier := peak_tier r; total_bytes := n |}.

Definition should_advance (t : Tier) (r : SessionRecord) : bool :=
  match peak_tier r with None => true | Some current => rank current <? rank t end.

Definition advance_peak (t : Tier) (r : SessionRecord) : SessionRecord :=
  {| connection_id := connection_id r; peer_key := peer_key r; started_at_ms := started_at_ms r;
     ended_at_ms := ended_at_ms r;
     peak_tier := if should_advance t r then Some t else peak_tier r;
     total_bytes := total_bytes r |}.

Definition close_record (s : SessionRecordStore) (id ended : N) := update s id (set_ended ended).
Definition update_bytes (s : SessionRecordStore) (id n : N) := update s id (set_bytes n).
Definition update_peak_tier (s : SessionRecordStore) (id : N) (t : Tier) := update s id (advance_peak t).

Definition get (s : SessionRecordStore) (id : N) : option SessionRecord :=
  i ← find_index s id; records s !! i.

(** ** The JSON export *)
Definition dquote : N := 0x22.
Definition quoted (s : str) : str := dquote :: s ++ [dquote].
Definition null : str := lit "null".

Definition peer_key_field (k : option (list byte)) : str :=
  match k with Some k => quoted (hex k) | None => null end.
Definition ended_field (t : option N) : str :=
  match t with Some ms => decimal ms | None => null end.
Definition tier_field (t : option Tier) : str :=
  match t with Some t => quoted (as_str t) | None => null end.

Definition record_to_json (r : SessionRecord) : str :=
  lit "{" ++ quoted (lit "connection_id") ++ lit ":" ++ decimal (connection_id r) ++
  lit "," ++ quoted (lit "peer_key") ++ lit ":" ++ peer_key_field (peer_key r) ++
  lit "," ++ quoted (lit "started_at_ms") ++ lit ":" ++ decimal (started_at_ms r) ++
  lit "," ++ quoted (lit "ended_at_ms") ++ lit ":" ++ ended_field (ended_at_ms r) ++
  lit "," ++ quoted (lit "peak_tier") ++ lit ":" ++ tier_field (peak_tier r) ++
  lit "," ++ quoted (lit "total_bytes") ++ lit ":" ++ decimal (total_bytes r) ++ lit "}".

Fixpoint push_records (first : bool) (rs : list SessionRecord) : str :=
  match rs with
  | [] => []
  | r :: rs => (if first then [] else lit ",") ++ record_to_json r ++ push_records false rs
  end.

Definition export_json (s : SessionRecordStore) : str :=
  lit "{" ++ quoted (lit "session_records") ++ lit ":[" ++ push_records true (records s) ++ lit "]}".

(** ** The observer *)
Record QosSessionObserver := mkObserver { store : SessionRecordStore }.

Definition observer_new : QosSessionObserver := {| store := store_new |}.

Definition on_session_open (o : QosSessionObserver) (id : N) (key : option (list byte)) (started : N) :=
  {| store := open_record (store o) id key started |}.

Definition on_tier_event (o : QosSessionObserver) (id : N) (t : Tier) :=
  {| store := fst (update_peak_tier (store o) id t) |}.

(** The six lanes are [u32]s, added as [u64]s. *)
Definition on_budget_tick (o : QosSessionObserver)
    (id audio input screen_coarse camera screen_refinement xfer : N) :=
  let total_bps := audio + input + screen_coarse + camera + screen_refinement + xfer in
  let bytes_this_tick := total_bps / 80 in
  let current_total := match get (store o) id with Some r => total_bytes r | None => 0 end in
  {| store := fst (update_bytes (store o) id (wrap 64 (current_total + bytes_this_tick))) |}.

Definition on_session_close (o : QosSessionObserver) (id ended : N) :=
  {| store := fst (close_record (store o) id ended) |}.

(** The calls the daemon makes. *)
Inductive Event :=
| Opened (key : option (list byte)) (started : N)
| TierUpdate (t : Tier)
| StreamBudget (audio input screen_coarse camera screen_refinement xfer : N)
| Closed (ended : N).

Definition observe (o : QosSessionObserver) (e : N * Event) : QosSessionObserver :=
  let '(id, e) := e in
  match e with
  | Opened key started => on_session_open o id key started
  | TierUpdate t => on_tier_event o id t
  | StreamBudget a i s c r x => on_budget_tick o id a i s c r x
  | Closed ended => on_session_close o id ended
  end.

Definition observe_all (es : list (N * Event)) : QosSessionObserver := foldl observe observer_new es.

(** ** What a record means: the session's events since it was first opened *)
Definition tiers (es : list Event) : list Tier :=
  omap (fun e => match e with TierUpdate t => Some t | _ => None end) es.
Definition tick_bytes (e : Event) : N :=
  match e with StreamBudget a i s c r x => (a + i + s + c + r + x) / 80 | _ => 0 end.
Definition closings (es : list Event) : list N :=
  omap (fun e => match e with Closed t => Some t | _ => None end) es.

Definition higher (a b : option Tier) : option Tier :=
  match a, b with
  | Some x, Some y => Some (if rank x <? rank y then y else x)
  | None, b => b
  | a, None => a
  end.
Definition highest (ts : list Tier) : option Tier := foldl (fun a t => higher a (Some t)) None ts.

Definition meaning (id : N) (key : option (list byte)) (started : N) (es : list Event) : SessionRecord :=
  {| connection_id := id; peer_key := key; started_at_ms := started;
     ended_at_ms := last (closings es); peak_tier := highest (tiers es);
     total_bytes := wrap 64 (sum_of tick_bytes es) |}.

(** The events of one session after its first opening. *)
Fixpoint session_of (es : list Event) : option (option (list byte) * N * list Event) :=
  match es with
  | [] => None
  | Opened key started :: es => Some (key, started, es)
  | _ :: es => session_of es
  end.

Definition events_of (id : N) (es : list (N * Event)) : list Event :=
  omap (fun e => if fst e =? id then Some (snd e) else None) es.

(** The values the fields of a record range over. *)
Definition record_ok (r : SessionRecord) : Prop :=
  match peer_key r with Some k => length k = 32%nat | None => True end.

(** ** Lemmas: the export *)
#[local] Arguments lit : simpl never.

Section export.
Implicit Types (r : SessionRecord) (t : str).

Lemma decimal_then m n c d t1 t2 :
  (c < 0x30 \/ 0x39 < c) -> (d < 0x30 \/ 0x39 < d) ->
  decimal m ++ c :: t1 = decimal n ++ d :: t2 -> m = n /\ c = d /\ t1 = t2.
Proof.
  intros Hc Hd He.
  assert (Hno : forall x, (x < 0x30 \/ 0x39 < x) -> ~ is_digit 10 x).
  { intros x Hx (v & Hv & ->). unfold digit_char in Hx. destruct (N.ltb_spec v 10); lia. }
  destruct (break_unique (is_digit 10) _ _ _ _ _ _ (decimal_digits m) (decimal_digits n) (Hno c Hc) (Hno d Hd) He)
    as (E & -> & ->). by apply decimal_inj in E as ->.
Qed.

Lemma peer_key_inj a b t1 t2 :
  match a with Some k => length k = 32%nat | None => True end ->
  match b with Some k => length k = 32%nat | None => True end ->
  peer_key_field a ++ t1 = peer_key_field b ++ t2 -> a = b /\ t1 = t2.
Proof.
  destruct a as [a|], b as [b|]; intros Ha Hb; cbn [peer_key_field]; unfold quoted;
    rewrite <- ?app_comm_cons, <- ?app_assoc; intros He; try done.
  - injection He as He. apply hex_inj in He as [-> He]; [|congruence]. by injection He as ->.
  - split; [done|]. by apply app_inv_head in He.
Qed.

Lemma ended_inj a b c d t1 t2 :
  (c < 0x30 \/ 0x39 < c) -> (d < 0x30 \/ 0x39 < d) ->
  ended_field a ++ c :: t1 = ended_field b ++ d :: t2 -> a = b /\ t1 = t2.
Proof.
  intros Hc Hd.
  assert (Hn : forall n e t, decimal n ++ e :: t <> null ++ c :: t1 /\ decimal n ++ e :: t <> null ++ d :: t2).
  { intros n e t. pose proof (format_nonempty 10 n) as Hne. pose proof (decimal_digits n) as Hds.
    fold (decimal n) in Hne. destruct (decimal n) as [|x l]; [done|].
    apply List.Forall_inv in Hds as (v & Hv & ->).
    assert (digit_char v <> 0x6e) by (unfold digit_char; destruct (N.ltb_spec v 10); lia).
    split; intros E; by injection E. }
  destruct a as [a|], b as [b|]; cbn [ended_field]; intros He.
  - by apply decimal_then in He as (-> & -> & ->).
  - by destruct (Hn a c t1) as [_ []].
  - symmetry in He. by destruct (Hn b d t2) as [[] _].
  - split; [done|]. apply app_inv_head in He. by injection He.
Qed.

Lemma tier_inj a b t1 t2 : tier_field a ++ t1 = tier_field b ++ t2 -> a = b /\ t1 = t2.
Proof. destruct a as [[]|], b as [[]|]; intros He; try done; (split; [done|by apply app_inv_head in He]). Qed.

Lemma record_json_inj r1 r2 t1 t2 :
  record_ok r1 -> record_ok r2 -> record_to_json r1 ++ t1 = record_to_json r2 ++ t2 -> r1 = r2 /\ t1 = t2.
Proof.
  intros H1 H2. unfold record_to_json. rewrite <- !app_assoc. intros He.
  do 3 apply app_inv_head in He.
  apply decimal_then in He as (E1 & _ & He); [|by left..].
  do 2 apply app_inv_head in He.
  apply peer_key_inj in He as [E2 He]; [|done..].
  do 3 apply app_inv_head in He.
  apply decimal_then in He as (E3 & _ & He); [|by left..].
  do 2 apply app_inv_head in He.
  apply ended_inj in He as [E4 He]; [|by left..].
  do 2 apply app_inv_head in He.
  apply tier_inj in He as [E5 He].
  do 3 apply app_inv_head in He.
  apply decimal_then in He as (E6 & _ & ->); [|by right..].
  split; [|done]. destruct r1, r2. cbn in *. congruence.
Qed.

Lemma push_records_inj first rs1 rs2 c t :
  Forall record_ok rs1 -> Forall record_ok rs2 -> c = 0x5d ->
  push_records first rs1 ++ c :: t = push_records first rs2 ++ c :: t -> rs1 = rs2.
Proof.
  intros H1. revert first rs2. induction H1 as [|r1 rs1 Hr1 _ IH]; intros first rs2 H2 -> He.
  - destruct H2 as [|r2 rs2 _ _]; [done|]. by destruct first.
  - destruct H2 as [|r2 rs2 Hr2 H2]; [by destruct first|]. cbn [push_records] in He.
    rewrite <- !app_assoc in He. apply app_inv_head in He.
    apply record_json_inj in He as [-> He]; [|done..]. f_equal. by apply (IH false).
Qed.
End export.

(** ** Lemmas: the store *)
Section store_lemmas.
Implicit Types (r : SessionRecord) (l : list SessionRecord) (id : N).

Lemma get_cons r l id :
  get {| records := r :: l |} id = if decide (connection_id r = id) then Some r else get {| records := l |} id.
Proof.
  unfold get, find_index. cbn [records list_find].
  destruct (decide (has_id id r)), (decide (connection_id r = id)); try done. by destruct (list_find _ l) as [[]|].
Qed.

Lemma update_cons r l id g :
  fst (update {| records := r :: l |} id g) =
    if decide (connection_id r = id) then {| records := g r :: l |}
    else {| records := r :: records (fst (update {| records := l |} id g)) |}.
Proof.
  unfold update, find_index. cbn [records list_find].
  destruct (decide (has_id id r)), (decide (connection_id r = id)); try done. by destruct (list_find _ l) as [[]|].
Qed.

Lemma get_update s id g id' :
  (forall r, connection_id (g r) = connection_id r) ->
  get (fst (update s id g)) id' = if decide (id = id') then g <$> get s id else get s id'.
Proof.
  intros Hg. destruct s as [l]. induction l as [|r l IH]; [by destruct (decide _)|].
  rewrite update_cons, !get_cons. destruct (decide (connection_id r = id)) as [<-|Hne].
  - rewrite get_cons, (Hg r). by destruct (decide (connection_id r = id')).
  - rewrite get_cons. destruct (update {| records := l |} id g) as [[l'] ?]. cbn [fst records] in *.
    rewrite IH. by destruct (decide (connection_id r = id')), (decide (id = id')); subst.
Qed.

Lemma get_None s id : get s id = None <-> find_index s id = None.
Proof.
  unfold get. destruct (find_index s id) as [i|] eqn:E; [|done]. split; [|done].
  unfold find_index in E. apply fmap_Some in E as ([j r] & E & ->).
  apply list_find_Some in E as [E _]. cbn [mbind option_bind fst]. by rewrite E.
Qed.

Lemma get_open s id key started id' :
  get (open_record s id key started) id' =
    match get s id' with
    | Some r => Some r
    | None => if decide (id = id') then Some (meaning id key started []) else None
    end.
Proof.
  unfold open_record. destruct (find_index s id) eqn:Ef.
  - destruct (get s id') eqn:E; [done|]. destruct (decide (id = id')) as [->|]; [|done].
    apply get_None in E. congruence.
  - apply get_None in Ef. destruct s as [l]. cbn [records].
    induction l as [|r l IH]; cbn [app]; rewrite get_cons.
    + change (get {| records := [] |} id') with (@None SessionRecord). cbn [connection_id].
      by destruct (decide (id = id')) as [->|].
    + rewrite get_cons in *. destruct (decide (connection_id r = id)); [done|].
      destruct (decide (connection_id r = id')); [done|]. by apply IH.
Qed.

(** The record of a session after one more event of it. *)
Definition after (r : SessionRecord) (e : Event) : SessionRecord :=
  match e with
  | Opened _ _ => r
  | TierUpdate t => advance_peak t r
  | StreamBudget _ _ _ _ _ _ => set_bytes (wrap 64 (total_bytes r + tick_bytes e)) r
  | Closed t => set_ended t r
  end.

Lemma get_observe o id e id' :
  get (store (observe o (id, e))) id' =
    if decide (id = id') then
      match get (store o) id, e with
      | Some r, _ => Some (after r e)
      | None, Opened key started => Some (meaning id key started [])
      | None, _ => None
      end
    else get (store o) id'.
Proof.
  destruct e; cbn [observe store on_session_open on_tier_event on_budget_tick on_session_close].
  - rewrite get_open. destruct (decide (id = id')) as [<-|]; [done|]. by destruct (get _ id').
  - unfold update_peak_tier. rewrite get_update by done. destruct (decide _) as [<-|]; [|done]. by destruct (get _ id).
  - unfold on_budget_tick, update_bytes. cbn [store]. rewrite get_update by done.
    destruct (decide _) as [<-|]; [|done]. by destruct (get _ id).
  - unfold close_record. rewrite get_update by done. destruct (decide _) as [<-|]; [|done]. by destruct (get _ id).
Qed.

Lemma after_meaning id key started es e :
  after (meaning id key started es) e = meaning id key started (es ++ [e]).
Proof.
  unfold meaning, tiers, closings, highest. rewrite !omap_app, foldl_app, last_app, sum_of_app.
  destruct e; cbn [after omap list_omap foldl last tick_bytes sum_of foldr]; rewrite ?N.add_0_r.
  - done.
  - unfold advance_peak, should_advance. cbn [connection_id peer_key started_at_ms ended_at_ms peak_tier total_bytes].
    f_equal. generalize (foldl (fun a t => higher a (Some t)) None
      (omap (fun e => match e with TierUpdate t => Some t | _ => None end) es)).
    intros [c|]; [|done]. cbn [higher]. by destruct (rank c <? rank t).
  - unfold set_bytes. cbn [connection_id peer_key started_at_ms ended_at_ms peak_tier total_bytes]. f_equal.
    unfold wrap. by rewrite N.Div0.add_mod_idemp_l.
  - done.
Qed.
End store_lemmas.

(** ** Properties *)

(** Whatever the daemon reports, in whatever order and for however many
    sessions, the record kept under an id is that of the session's first opening
    with what came after it: the highest tier reported, the bytes of every
    budget, the last closing time; a session never opened has none. *)
Theorem observer_keeps_sessions (es : list (N * Event)) (id : N) :
  get (store (observe_all es)) id =
    match session_of (events_of id es) with
    | Some (key, started, since) => Some (meaning id key started since)
    | None => None
    end.
Proof.
  unfold observe_all. induction es as [|[i e] es IH] using rev_ind; [done|].
  rewrite foldl_app. cbn [foldl]. rewrite get_observe, IH. unfold events_of in *. rewrite omap_app.
  cbn [omap list_omap fst snd].
  destruct (N.eqb_spec i id) as [->|Hne]; [|by rewrite decide_False, app_nil_r].
  rewrite decide_True by done. rewrite IH. set (l := omap _ es). clearbody l. clear.
  induction l as [|e' l IH]; [by destruct e|]. cbn [app]. destruct e' as [key started|t|a i s c r x|t]; cbn [session_of]; [|exact IH..].
  by rewrite after_meaning.
Qed.

(** The export determines the records: two stores with the same JSON hold the
    same records, when their peer keys have 32 bytes. *)
Theorem export_determines_records (s1 s2 : SessionRecordStore) :
  Forall record_ok (records s1) -> Forall record_ok (records s2) ->
  export_json s1 = export_json s2 -> s1 = s2.
Proof.
  intros H1 H2. unfold export_json. intros He. do 3 apply app_inv_head in He.
  apply (push_records_inj true _ _ 0x5d (lit "}") H1 H2 eq_refl) in He.
  destruct s1, s2. by f_equal.
Qed.

Definition sample : SessionRecordStore :=
  store (observe_all [(42, Opened (Some (repeat Byte.xab 32)) 1000); (42, TierUpdate Constrained);
                      (42, StreamBudget 24000 8000 20000 12000 0 0); (42, TierUpdate Survival);
                      (7, Closed 3); (42, Closed 61000)]).

Lemma export_determines_records_witness :
  get sample 42 = Some (mkRecord 42 (Some (repeat Byte.xab 32)) 1000 (Some 61000) (Some Constrained) 800) /\
  sample = sample.
Proof.
  split; [by vm_compute|]. apply export_determines_records; [..|reflexivity];
    (apply List.Forall_cons; [vm_compute; reflexivity|apply List.Forall_nil]).
Defined.

(** A closed session is not sealed: later ticks still change its record. *)
Lemma closed_session_still_counts :
  (total_bytes <$> get (store (observe_all [(1, Opened None 0); (1, Closed 9); (1, StreamBudget 8000 0 0 0 0 0)])) 1) = Some 100.
Proof. by vm_compute. Qed.
