(* ===== verification/KnownPeers.v ===== *)
(** The known-peer store and its JSON export: [core/crypto/src/known_peers.rs].

    Strings are those of [Text]. *)
From Stdlib Require Import Strings.String.
From S2P Require Import Prelude Text Numeral.
From S2P Require Records.
#[local] Open Scope N_scope.

Record KnownPeer := mkPeer {
  id : N; static_pubkey : list byte; display_label : option str;
  first_seen_at_ms : N; last_seen_at_ms : N }.

Record KnownPeerStore := mkStore { peers : list KnownPeer; next_id : N }.

Definition new : KnownPeerStore := {| peers := []; next_id := 1 |}.

(** [iter().position]. *)
Definition position (p : KnownPeer -> bool) (l : list KnownPeer) : option nat :=
  fst <$> list_find (fun x => p x = true) l.

Definition has_key (k : list byte) (p : KnownPeer) : bool := bool_decide (static_pubkey p = k).

Definition find_index (s : KnownPeerStore) (k : list byte) : option nat :=
  position (has_key k) (peers s).

Definition see (now_ms : N) (p : KnownPeer) : KnownPeer :=
  if last_seen_at_ms p <? now_ms
  then {| id := id p; static_pubkey := static_pubkey p; display_label := display_label p;
          first_seen_at_ms := first_seen_at_ms p; last_seen_at_ms := now_ms |}
  else p.

Definition upsert (s : KnownPeerStore) (k : list byte) (now_ms : N) : KnownPeerStore * N :=
  match find_index s k with
  | Some i =>
      ({| peers := alter (see now_ms) i (peers s); next_id := next_id s |},
       match peers s !! i with Some p => id p | None => 0 end)
  | None =>
      ({| peers := peers s ++ [{| id := next_id s; static_pubkey := k; display_label := None;
                                  first_seen_at_ms := now_ms; last_seen_at_ms := now_ms |}];
          next_id := wrap 64 (next_id s + 1) |}, next_id s)
  end.

Definition get (s : KnownPeerStore) (i : N) : option KnownPeer :=
  List.find (fun p => id p =? i) (peers s).

Definition find_by_key (s : KnownPeerStore) (k : list byte) : option KnownPeer :=
  List.find (has_key k) (peers s).

(** [&s[..n]]; [None] where [n] is not a character boundary. *)
Fixpoint prefix_at (s : str) (n : N) : option str :=
  if n =? 0 then Some [] else
  match s with
  | [] => None
  | c :: s =>
      if n <? lenN (enc_char c) then None
      else (fun p => c :: p) <$> prefix_at s (n - lenN (enc_char c))
  end.

(** The walk back from byte [e]. *)
Fixpoint walk_back (s : str) (e : nat) : str :=
  match e with
  | O => []
  | S e' => match prefix_at s (N.of_nat e) with Some p => p | None => walk_back s e' end
  end.

Definition truncate_to_120_bytes (s : str) : str :=
  if str_len s <=? 120 then s else walk_back s 120.

Definition relabel (l : str) (p : KnownPeer) : KnownPeer :=
  {| id := id p; static_pubkey := static_pubkey p; display_label := Some l;
     first_seen_at_ms := first_seen_at_ms p; last_seen_at_ms := last_seen_at_ms p |}.

Definition set_label (s : KnownPeerStore) (i : N) (label : str) : KnownPeerStore * bool :=
  match position (fun p => id p =? i) (peers s) with
  | None => (s, false)
  | Some j =>
      ({| peers := alter (relabel (truncate_to_120_bytes label)) j (peers s);
          next_id := next_id s |}, true)
  end.

(** ** The export *)
Definition BACKSLASH : N := 0x5C.

(** [l.replace(..)]: a backslash before every double quote, and nothing else. *)
Definition escape_quotes (l : str) : str :=
  concat (map (fun c => if c =? Records.dquote then [BACKSLASH; c] else [c]) l).

Definition label_field (l : option str) : str :=
  match l with Some l => Records.quoted (escape_quotes l) | None => Records.null end.

Definition peer_to_json (p : KnownPeer) : str :=
  lit "{" ++ Records.quoted (lit "id") ++ lit ":" ++ decimal (id p) ++
  lit "," ++ Records.quoted (lit "static_pubkey") ++ lit ":" ++ Records.quoted (hex (static_pubkey p)) ++
  lit "," ++ Records.quoted (lit "display_label") ++ lit ":" ++ label_field (display_label p) ++
  lit "," ++ Records.quoted (lit "first_seen_at_ms") ++ lit ":" ++ decimal (first_seen_at_ms p) ++
  lit "," ++ Records.quoted (lit "last_seen_at_ms") ++ lit ":" ++ decimal (last_seen_at_ms p) ++ lit "}".

Fixpoint push_peers (first : bool) (ps : list KnownPeer) : str :=
  match ps with
  | [] => []
  | p :: ps => (if first then [] else lit ",") ++ peer_to_json p ++ push_peers false ps
  end.

Definition export_json (s : KnownPeerStore) : str :=
  lit "{" ++ Records.quoted (lit "known_peers") ++ lit ":[" ++ push_peers true (peers s) ++ lit "]}".

(** ** The life of a store *)
Inductive Op := Upsert (k : list byte) (now_ms : N) | SetLabel (i : N) (label : str).

Definition run_op (s : KnownPeerStore) (o : Op) : KnownPeerStore :=
  match o with
  | Upsert k now => fst (upsert s k now)
  | SetLabel i l => fst (set_label s i l)
  end.

Definition run (s : KnownPeerStore) (ops : list Op) : KnownPeerStore := fold_left run_op ops s.

(** What the table means: the first and the latest contact with a key. *)
Fixpoint contacts (k : list byte) (ops : list Op) : list N :=
  match ops with
  | [] => []
  | Upsert k' now :: ops =>
      if bool_decide (k' = k) then now :: contacts k ops else contacts k ops
  | SetLabel _ _ :: ops => contacts k ops
  end.

Definition seen (k : list byte) (ops : list Op) : option (N * N) :=
  match contacts k ops with [] => None | t :: ts => Some (t, foldl N.max t ts) end.

Definition row_of (s : KnownPeerStore) (k : list byte) : option (N * N) :=
  (fun p => (first_seen_at_ms p, last_seen_at_ms p)) <$> find_by_key s k.

(** ** Lemmas *)
Record store_ok (s : KnownPeerStore) : Prop := {
  keys_unique : NoDup (static_pubkey <$> peers s);
  ids : map id (peers s) = map N.of_nat (seq 1 (length (peers s)));
  next : next_id s = lenN (peers s) + 1;
}.

Section store.
Implicit Types (s : KnownPeerStore) (k : list byte) (l : list KnownPeer).

Lemma position_Some q l i :
  position q l = Some i ->
  exists p, l !! i = Some p /\ q p = true /\ forall j p', l !! j = Some p' -> (j < i)%nat -> q p' = false.
Proof.
  unfold position. intros ([j p] & Hf & ->)%fmap_Some_1. cbn.
  apply list_find_Some in Hf as (Hl & Hq & Hb). exists p. split; [done|]. split; [done|].
  intros j' p' Hj Hlt. specialize (Hb _ _ Hj Hlt). by apply not_true_is_false.
Qed.

Lemma position_None q l : position q l = None -> forall p, p ∈ l -> q p = false.
Proof.
  unfold position. intros Hf%fmap_None. apply list_find_None in Hf. intros p Hp.
  rewrite Forall_forall in Hf. apply not_true_is_false. by apply Hf.
Qed.

Lemma alter_fmap_id {B} (g : KnownPeer -> B) f l i :
  (forall p, g (f p) = g p) -> g <$> alter f i l = g <$> l.
Proof.
  intros Hg. revert i. induction l as [|p l IH]; intros [|i]; cbn; try done.
  - by rewrite Hg.
  - f_equal. apply IH.
Qed.

Lemma see_fields now p :
  static_pubkey (see now p) = static_pubkey p /\ id (see now p) = id p /\
  first_seen_at_ms (see now p) = first_seen_at_ms p /\
  last_seen_at_ms (see now p) = N.max (last_seen_at_ms p) now.
Proof. unfold see. case_ifs; split_and!; cbn; lia || done. Qed.

(** Changing fields other than the key, at one position. *)
Lemma find_alter f l i k p :
  (forall q, static_pubkey (f q) = static_pubkey q) -> NoDup (static_pubkey <$> l) ->
  l !! i = Some p ->
  List.find (has_key k) (alter f i l) =
    if bool_decide (static_pubkey p = k) then Some (f p) else List.find (has_key k) l.
Proof.
  intros Hf. revert i. induction l as [|q l IH]; intros i Hn Hi; [done|].
  rewrite fmap_cons in Hn. apply NoDup_cons in Hn as [Hq Hn].
  destruct i as [|i]; cbn [alter list_alter List.find].
  - injection Hi as ->. unfold has_key. rewrite Hf. by case_bool_decide.
  - cbn in Hi. rewrite (IH i Hn Hi). unfold has_key at 1 3.
    destruct (decide (static_pubkey q = k)) as [E|E].
    + rewrite (bool_decide_true (static_pubkey q = k)) by done.
      rewrite bool_decide_false; [done|]. intros E'. apply Hq. rewrite E, <- E'.
      by apply list_elem_of_fmap_2, list_elem_of_lookup_2 with i.
    + by rewrite (bool_decide_false (static_pubkey q = k)) by done.
Qed.

Lemma find_app_key l k p :
  List.find (has_key k) (l ++ [p]) =
    match List.find (has_key k) l with
    | Some q => Some q
    | None => if bool_decide (static_pubkey p = k) then Some p else None
    end.
Proof. induction l as [|q l IH]; cbn; [done|]. by destruct (has_key k q). Qed.

Lemma find_None_key l k : (forall p, p ∈ l -> has_key k p = false) -> List.find (has_key k) l = None.
Proof.
  intros Hl. induction l as [|p l IH]; [done|]. cbn.
  rewrite Hl by (left; done). apply IH. intros q Hq. apply Hl. by right.
Qed.

Lemma find_position l k i p :
  NoDup (static_pubkey <$> l) -> l !! i = Some p -> static_pubkey p = k ->
  List.find (has_key k) l = Some p.
Proof.
  intros Hn Hi Hk. pose proof (find_alter (fun q => q) l i k p (fun _ => eq_refl) Hn Hi) as Hf.
  rewrite bool_decide_true in Hf by done. rewrite <- Hf. f_equal.
  symmetry. by apply list_alter_id.
Qed.

Lemma store_op_ok s o :
  store_ok s -> lenN (peers (run_op s o)) < 2 ^ 64 - 1 -> store_ok (run_op s o).
Proof.
  intros [Hk Hi Hn] Hb. destruct o as [k now|i label]; cbn [run_op] in *.
  - unfold upsert in *. destruct (find_index s k) as [j|] eqn:Hf; cbn [fst] in *.
    + split; cbn [peers next_id]; rewrite ?length_alter.
      * rewrite alter_fmap_id by apply see_fields. done.
      * change (map id) with (fmap (M:=list) id). rewrite alter_fmap_id by apply see_fields. done.
      * rewrite Hn. unfold lenN. by rewrite length_alter.
    + cbn [peers] in Hb. rewrite lenN_app in Hb. change (lenN [_]) with 1 in Hb.
      split; cbn [peers next_id].
      * rewrite fmap_app. apply NoDup_app. split; [done|]. split; [|apply NoDup_singleton].
        intros x Hx Hx'. apply list_elem_of_singleton in Hx'. cbn in Hx'. subst x.
        apply list_elem_of_fmap in Hx as (p & -> & Hp).
        pose proof (position_None _ _ Hf p Hp) as Hq. unfold has_key in Hq.
        by rewrite bool_decide_true in Hq.
      * rewrite map_app, Hi, length_app. cbn [length map id].
        rewrite seq_app, map_app. cbn [seq map]. f_equal. rewrite Hn. unfold lenN. f_equal. lia.
      * rewrite wrap_small by lia. rewrite lenN_app, Hn. change (lenN [_]) with 1. lia.
  - unfold set_label in *. destruct (position _ _) as [j|]; cbn [fst] in *; [|done].
    split; cbn [peers next_id]; rewrite ?length_alter.
    + by rewrite alter_fmap_id.
    + change (map id) with (fmap (M:=list) id). by rewrite alter_fmap_id.
    + rewrite Hn. unfold lenN. by rewrite length_alter.
Qed.

Lemma peers_grow s o : lenN (peers (run_op s o)) <= lenN (peers s) + 1.
Proof.
  destruct o as [k now|i label]; cbn [run_op].
  - unfold upsert. destruct (find_index s k); cbn [fst peers]; unfold lenN.
    + rewrite length_alter. lia.
    + rewrite length_app. cbn. lia.
  - unfold set_label. destruct (position _ _); cbn [fst peers]; unfold lenN; rewrite ?length_alter; lia.
Qed.

Lemma row_of_op s o k :
  store_ok s ->
  row_of (run_op s o) k =
    match o with
    | Upsert k' now =>
        if bool_decide (k' = k)
        then Some (match row_of s k with Some (f, l) => (f, N.max l now) | None => (now, now) end)
        else row_of s k
    | SetLabel _ _ => row_of s k
    end.
Proof.
  intros [Hk _ _]. unfold row_of, find_by_key. destruct o as [k' now|i label]; cbn [run_op].
  - unfold upsert. destruct (find_index s k') as [j|] eqn:Hf; cbn [fst peers].
    + apply position_Some in Hf as (p & Hj & Hp & _). unfold has_key in Hp.
      apply bool_decide_eq_true in Hp.
      rewrite (find_alter (see now) _ j k p) by (done || apply see_fields). rewrite Hp.
      case_bool_decide as E; [|done]. subst k'.
      rewrite (find_position _ _ j p) by done. cbn.
      destruct (see_fields now p) as (_ & _ & -> & ->). done.
    + pose proof (position_None _ _ Hf) as Hno. rewrite find_app_key. cbn [static_pubkey].
      case_bool_decide as E; [|by destruct (List.find _ _)]. subst k'.
      by rewrite find_None_key.
  - unfold set_label. destruct (position _ _) as [j|] eqn:Hf; cbn [fst peers]; [|done].
    apply position_Some in Hf as (p & Hj & _).
    rewrite (find_alter _ _ j k p) by done.
    case_bool_decide as E; [|done]. by rewrite (find_position _ _ j p).
Qed.

Lemma store_new_ok : store_ok new.
Proof. split; [constructor|done|done]. Qed.

Lemma run_facts ops :
  lenN ops < 2 ^ 64 - 1 ->
  store_ok (run new ops) /\ lenN (peers (run new ops)) <= lenN ops.
Proof.
  unfold run. induction ops as [|o ops IH] using rev_ind; intros Hb; [split; [apply store_new_ok|done]|].
  rewrite lenN_app in *. change (lenN [o]) with 1 in *. rewrite fold_left_app. cbn [fold_left].
  destruct IH as [Hok Hl]; [lia|]. pose proof (peers_grow (fold_left run_op ops new) o).
  split; [apply store_op_ok; [done|lia]|lia].
Qed.

Lemma contacts_app k ops ops' : contacts k (ops ++ ops') = contacts k ops ++ contacts k ops'.
Proof.
  induction ops as [|[k' now|i l] ops IH]; cbn; [done| |done]. case_bool_decide; by rewrite IH.
Qed.
End store.

Section labels.
Implicit Types (s p q : str) (n : N).

Lemma str_len_cons c s : str_len (c :: s) = lenN (enc_char c) + str_len s.
Proof. unfold str_len, as_bytes. cbn. by rewrite lenN_app. Qed.

Lemma enc_char_pos c : 0 < lenN (enc_char c).
Proof. unfold enc_char. case_ifs; vm_compute; done. Qed.

(** [prefix_at] finds exactly the prefix that encodes to [n] bytes. *)
Lemma prefix_at_iff s n p : prefix_at s n = Some p <-> p `prefix_of` s /\ str_len p = n.
Proof.
  revert n p. induction s as [|c s IH]; intros n p; cbn [prefix_at].
  - destruct (N.eqb_spec n 0) as [->|Hn]; split.
    + by intros [= <-].
    + by intros [->%prefix_nil_inv _].
    + done.
    + intros [->%prefix_nil_inv H]. by change (0 = n) in H.
  - pose proof (enc_char_pos c). destruct (N.eqb_spec n 0) as [->|Hn].
    { split; [intros [= <-]; split; [apply prefix_nil|done]|]. intros [Hp Hl].
      destruct p as [|d p]; [done|]. apply prefix_cons_inv_1 in Hp as ->.
      rewrite str_len_cons in Hl. lia. }
    destruct (N.ltb_spec n (lenN (enc_char c))).
    + split; [done|]. intros [Hp Hl]. destruct p as [|d p]; [by change (0 = n) in Hl|].
      apply prefix_cons_inv_1 in Hp as ->. rewrite str_len_cons in Hl. lia.
    + rewrite fmap_Some. split.
      * intros (q & Hq & ->). apply IH in Hq as [Hp Hl]. split; [by apply prefix_cons|].
        rewrite str_len_cons. lia.
      * intros [Hp Hl]. destruct p as [|d p]; [by change (0 = n) in Hl|].
        pose proof (prefix_cons_inv_1 _ _ _ _ Hp) as ->. apply prefix_cons_inv_2 in Hp.
        rewrite str_len_cons in Hl. exists p. split; [|done]. apply IH. split; [done|lia].
Qed.

Lemma str_len_prefix p s : p `prefix_of` s -> str_len p <= str_len s.
Proof.
  intros [q ->]. unfold str_len, as_bytes. rewrite map_app, concat_app, lenN_app. lia.
Qed.

Lemma walk_back_spec s e :
  walk_back s e `prefix_of` s /\ str_len (walk_back s e) <= N.of_nat e /\
  forall q, q `prefix_of` s -> str_len q <= N.of_nat e -> q `prefix_of` walk_back s e.
Proof.
  induction e as [|e (IHp & IHl & IHm)]; cbn [walk_back].
  - split; [apply prefix_nil|]. split; [done|]. intros [|c q] _ Hl; [apply prefix_nil|].
    rewrite str_len_cons in Hl. pose proof (enc_char_pos c). lia.
  - destruct (prefix_at s (N.of_nat (S e))) as [p|] eqn:Hp.
    + apply prefix_at_iff in Hp as [Hp Hl]. split; [done|]. split; [lia|]. intros q Hq Hlq.
      destruct (prefix_weak_total q p s Hq Hp) as [?|Hpq]; [done|].
      destruct Hpq as [r ->]. destruct r as [|c r]; [by rewrite app_nil_r|]. exfalso.
      unfold str_len, as_bytes in *. rewrite map_app, concat_app, lenN_app in Hlq.
      cbn [map concat] in Hlq. rewrite lenN_app in Hlq. pose proof (enc_char_pos c). lia.
    + split; [done|]. split; [lia|]. intros q Hq Hlq. apply IHm; [done|].
      destruct (decide (str_len q = N.of_nat (S e))); [|lia].
      assert (prefix_at s (N.of_nat (S e)) = Some q) by (by apply prefix_at_iff). congruence.
Qed.

Lemma truncate_spec s :
  truncate_to_120_bytes s `prefix_of` s /\ str_len (truncate_to_120_bytes s) <= 120 /\
  forall q, q `prefix_of` s -> str_len q <= 120 -> q `prefix_of` truncate_to_120_bytes s.
Proof.
  unfold truncate_to_120_bytes. case_ifs; [|apply (walk_back_spec s 120)].
  split; [done|]. split; [done|]. done.
Qed.
End labels.

(** * Properties *)

(** The store remembers exactly the contacts: after any sequence of upserts and
    labels (fewer than 2^64 - 1), keys and identifiers are unique (the
    identifiers are 1, 2, ... in order of first contact), and the row of a key
    holds the time of its first upsert and the latest time of any. *)
Theorem store_remembers_contacts (ops : list Op) (k : list byte) (Hops : lenN ops < 2 ^ 64 - 1) :
  store_ok (run new ops) /\ row_of (run new ops) k = seen k ops.
Proof.
  split; [by apply run_facts|]. induction ops as [|o ops IH] using rev_ind; [done|].
  rewrite lenN_app in Hops. change (lenN [o]) with 1 in Hops.
  unfold run. rewrite fold_left_app. cbn [fold_left]. fold (run new ops).
  rewrite row_of_op by (apply run_facts; lia). rewrite IH by lia. unfold seen.
  rewrite contacts_app. destruct o as [k' now|i l]; cbn [contacts]; [|by rewrite app_nil_r].
  case_bool_decide; [|by rewrite app_nil_r].
  destruct (contacts k ops) as [|t ts]; [done|]. cbn. by rewrite foldl_app.
Qed.

Lemma store_remembers_contacts_witness :
  row_of (run new [Upsert [Byte.x01] 7; SetLabel 1 [97]; Upsert [Byte.x02] 9; Upsert [Byte.x01] 3;
                   Upsert [Byte.x01] 12]) [Byte.x01] = Some (7, 12).
Proof.
  set (ops := [Upsert [Byte.x01] 7; SetLabel 1 [97]; Upsert [Byte.x02] 9; Upsert [Byte.x01] 3;
               Upsert [Byte.x01] 12]).
  assert (lenN ops < 2 ^ 64 - 1) as Hb by (vm_compute; reflexivity).
  destruct (store_remembers_contacts ops [Byte.x01] Hb) as [_ Hr]. rewrite Hr. reflexivity.
Defined.

(** A label is cut to the longest prefix of whole characters that fits in 120
    bytes. *)
Theorem label_is_longest_prefix (s : str) :
  let t := truncate_to_120_bytes s in
  t `prefix_of` s /\ str_len t <= 120 /\
  forall q, q `prefix_of` s -> str_len q <= 120 -> q `prefix_of` t.
Proof. apply truncate_spec. Qed.

(** ** The label in the export *)

(** A JSON string after its opening quote: what a reader of RFC 8259 takes from
    it, and what follows the closing quote. *)
Definition short_escape (c : N) : option N :=
  if c =? Records.dquote then Some Records.dquote
  else if c =? BACKSLASH then Some BACKSLASH
  else if c =? 0x2F then Some 0x2F
  else if c =? 0x62 then Some 0x08
  else if c =? 0x66 then Some 0x0C
  else if c =? 0x6E then Some 0x0A
  else if c =? 0x72 then Some 0x0D
  else if c =? 0x74 then Some 0x09
  else None.

Definition hex4 (h1 h2 h3 h4 : N) : option N :=
  d1 ← to_digit 16 h1; d2 ← to_digit 16 h2; d3 ← to_digit 16 h3; d4 ← to_digit 16 h4;
  Some (((d1 * 16 + d2) * 16 + d3) * 16 + d4).

Fixpoint read_string (s : str) : option (str * str) :=
  match s with
  | [] => None
  | c :: s =>
      if c =? Records.dquote then Some ([], s)
      else if c <? 0x20 then None
      else if c =? BACKSLASH then
        match s with
        | [] => None
        | d :: s =>
            if d =? 0x75 then
              match s with
              | h1 :: h2 :: h3 :: h4 :: s =>
                  x ← hex4 h1 h2 h3 h4; '(l, t) ← read_string s; Some (x :: l, t)
              | _ => None
              end
            else x ← short_escape d; '(l, t) ← read_string s; Some (x :: l, t)
        end
      else '(l, t) ← read_string s; Some (c :: l, t)
  end.

Definition plain (c : N) : Prop := c <> BACKSLASH /\ 0x20 <= c.

(** The characters that a string must escape. *)
Definition special (c : N) : bool := (c =? Records.dquote) || (c =? BACKSLASH) || (c <? 0x20).
Definition specials (l : str) : N := sum_of (fun c => if special c then 1 else 0) l.
Definition quotes (l : str) : N := sum_of (fun c => if c =? Records.dquote then 1 else 0) l.

Lemma specials_cons c l : specials (c :: l) = (if special c then 1 else 0) + specials l.
Proof. reflexivity. Qed.

Lemma special_le c : (if special c then 1 else 0) <= 1.
Proof. by destruct (special c). Qed.

(** A special character read was written with two characters at least. *)
Lemma read_string_length s l t : read_string s = Some (l, t) -> lenN l + specials l + 1 + lenN t <= lenN s.
Proof.
  remember (length s) as n eqn:Hn. revert s l t Hn. induction n as [n IH] using lt_wf_ind.
  intros s l t -> He. destruct s as [|c s]; [done|]. cbn [read_string] in He.
  assert (Hrec : forall s' l' t', (length s' < length (c :: s))%nat -> read_string s' = Some (l', t') ->
    lenN l' + specials l' + 1 + lenN t' <= lenN s') by (intros s' l' t' Hlt; by apply (IH (length s') Hlt)).
  clear IH. destruct (N.eqb_spec c Records.dquote) as [->|Hq].
  { injection He as <- <-. rewrite lenN_cons. change (specials []) with 0. change (lenN (@nil N)) with 0. lia. }
  destruct (N.ltb_spec c 0x20) as [|Hc]; [done|].
  destruct (N.eqb_spec c BACKSLASH) as [->|Hb].
  - destruct s as [|d s]; [done|].
    assert (Hshort : forall x l' t', read_string s = Some (l', t') -> l = x :: l' -> t = t' ->
      lenN l + specials l + 1 + lenN t <= lenN (BACKSLASH :: d :: s)).
    { intros x l' t' Hr -> ->. apply Hrec in Hr; [|cbn; lia]. rewrite specials_cons, !lenN_cons.
      pose proof (special_le x). lia. }
    destruct (decide (d = 0x75)) as [->|Hd].
    + rewrite N.eqb_refl in He. destruct s as [|h1 [|h2 [|h3 [|h4 s]]]]; try done.
      destruct (hex4 h1 h2 h3 h4) as [x|]; [|done]. cbn [mbind option_bind] in He.
      destruct (read_string s) as [[l' t']|] eqn:Hr; [|done]. injection He as <- <-.
      apply Hrec in Hr; [|cbn; lia]. rewrite specials_cons, !lenN_cons. pose proof (special_le x). lia.
    + rewrite (proj2 (N.eqb_neq _ _) Hd) in He. destruct (short_escape d) as [x|]; [|done].
      cbn [mbind option_bind] in He.
      destruct (read_string s) as [[l' t']|] eqn:Hr; [|done]. injection He as <- <-. by apply (Hshort x l' t').
  - destruct (read_string s) as [[l' t']|] eqn:Hr; [|done]. injection He as <- <-.
    apply Hrec in Hr; [|cbn; lia]. rewrite specials_cons, !lenN_cons. unfold special.
    rewrite (proj2 (N.eqb_neq _ _) Hq), (proj2 (N.eqb_neq _ _) Hb), (proj2 (N.ltb_ge _ _) Hc). cbn [orb]. lia.
Qed.

Lemma escape_cons c l :
  escape_quotes (c :: l) = (if c =? Records.dquote then [BACKSLASH; c] else [c]) ++ escape_quotes l.
Proof. reflexivity. Qed.

Lemma escape_length l : lenN (escape_quotes l) = lenN l + quotes l.
Proof.
  induction l as [|c l IH]; [done|]. rewrite escape_cons, lenN_app, IH, lenN_cons.
  unfold quotes. rewrite sum_of_cons. destruct (c =? Records.dquote); rewrite ?lenN_cons; change (lenN (@nil N)) with 0; lia.
Qed.

Lemma quotes_le_specials l : quotes l <= specials l /\ (specials l <= quotes l -> Forall plain l).
Proof.
  unfold quotes, specials. induction l as [|c l [IH1 IH2]]; [done|]. rewrite !sum_of_cons. unfold special at 1 3.
  destruct (N.eqb_spec c Records.dquote) as [->|Hq]; cbn [orb].
  { split; [lia|]. intros H. constructor; [split; [done|by vm_compute]|]. apply IH2. lia. }
  destruct (N.eqb_spec c BACKSLASH); cbn [orb]; [split; lia|].
  destruct (N.ltb_spec c 0x20); [split; lia|]. split; [lia|]. intros H'. constructor; [by split|]. apply IH2. lia.
Qed.

(** A reader takes the label back from the export exactly when the label has
    neither a backslash nor a control character: the export escapes the quotes
    alone. *)
Theorem label_reads_back (l t : str) :
  read_string (escape_quotes l ++ Records.dquote :: t) = Some (l, t) <-> Forall plain l.
Proof.
  split.
  - intros Hr%read_string_length. rewrite lenN_app, lenN_cons, escape_length in Hr.
    apply quotes_le_specials. lia.
  - induction 1 as [|c l [Hb Hc] _ IH]; [done|]. rewrite escape_cons.
    destruct (N.eqb_spec c Records.dquote) as [->|Hq].
    + cbn [app]. change (read_string (BACKSLASH :: Records.dquote :: ?s)) with
        ('(l, t) ← read_string s; Some (Records.dquote :: l, t)). by rewrite IH.
    + cbn [app read_string]. rewrite (proj2 (N.eqb_neq _ _) Hq), (proj2 (N.eqb_neq _ _) Hb), (proj2 (N.ltb_ge _ _) Hc).
      by rewrite IH.
Qed.

(** A label that ends in a backslash swallows the quote that should close it. *)
Example backslash_swallows_the_quote :
  read_string (escape_quotes (lit "C:\") ++ Records.dquote :: lit ",") = None.
Proof. reflexivity. Qed.
