(* ===== verification/SigClient.v ===== *)
(** The signaling client: [core/signaling/src/client.rs].

    The text of a response is parsed as the code parses it: the HTTP head, the
    chunked body, and the fields of a JSON text found by scanning for their
    name.  A string is a list of characters, so an offset into it is the suffix
    that starts there.  The TCP exchange itself is not modelled. *)
From Stdlib Require Import Strings.String.
From S2P Require Import Prelude Text Numeral.
#[local] Open Scope N_scope.

Inductive ClientError := Io | Status (s : N) | Malformed (what : str).

Record RoomParticipant := mkParticipant { id : str; pubkey : str; candidates : list str }.
Record JoinInfo := mkJoinInfo { offer : option str; join_candidates : list str }.

(** [RoomRoster::peers]. *)
Definition peers (me : str) (participants : list RoomParticipant) : list RoomParticipant :=
  filter (fun p => id p <> me) participants.

Definition dquote : N := 0x22.
Definition backslash : N := 0x5C.
Definition nl : N := 0x0A.
Definition cr : N := 0x0D.
Definition tab : N := 0x09.
Definition comma : N := 0x2C.
Definition colon : N := 0x3A.
Definition lbracket : N := 0x5B.
Definition rbracket : N := 0x5D.
Definition lbrace : N := 0x7B.
Definition rbrace : N := 0x7D.

(** ** Writing a flat object *)
Definition escape_char (c : N) : str :=
  if c =? dquote then [backslash; dquote]
  else if c =? backslash then [backslash; backslash]
  else if c =? nl then lit "\n"
  else if c =? cr then lit "\r"
  else if c =? tab then lit "\t"
  else [c].

Definition json_escape (s : str) : str := concat (map escape_char s).

Definition json_string (s : str) : str := dquote :: json_escape s ++ [dquote].
Definition json_key (k : str) : str := dquote :: k ++ [dquote; colon].

Fixpoint json_fields (first : bool) (fields : list (str * str)) : str :=
  match fields with
  | [] => []
  | (k, v) :: fields =>
      (if first then [] else [comma]) ++ json_key k ++ json_string v ++ json_fields false fields
  end.

Definition json_obj (fields : list (str * str)) : str := lbrace :: json_fields true fields ++ [rbrace].

(** ** Reading *)
Definition unescape (c : N) : N :=
  if c =? 0x6E then nl else if c =? 0x72 then cr else if c =? 0x74 then tab else c.

(** Past the opening quote; the result is the text and what follows it. *)
Fixpoint scan_loop (out : str) (s : str) : option (str * str) :=
  match s with
  | [] => None
  | c :: s' =>
      if c =? dquote then Some (out, s')
      else if c =? backslash then
        match s' with [] => None | c' :: s'' => scan_loop (out ++ [unescape c']) s'' end
      else scan_loop (out ++ [c]) s'
  end.

Definition scan_json_string (s : str) : option (str * str) :=
  match s with
  | c :: s' => if c =? dquote then scan_loop [] s' else None
  | [] => None
  end.

(** The search for [needle]; [skip] characters of a match that no colon follows
    are stepped over. *)
Fixpoint find_field (needle : str) (skip : nat) (s : str) : option str :=
  match s with
  | [] => None
  | _ :: s' =>
      match skip with
      | S skip => find_field needle skip s'
      | O =>
          match strip_prefix needle s with
          | Some after =>
              match trim_start after with
              | c :: v => if c =? colon then Some (trim_start v) else find_field needle (length needle - 1) s'
              | [] => find_field needle (length needle - 1) s'
              end
          | None => find_field needle 0 s'
          end
      end
  end.

Definition needle_of (key : str) : str := dquote :: key ++ [dquote].

Definition field_value_start (body key : str) : option str := find_field (needle_of key) 0 body.

Definition json_string_field (body key : str) : option str :=
  rest ← field_value_start body key;
  if starts_with (lit "null") rest then None else fst <$> scan_json_string rest.

Fixpoint take_digits (s : str) : str :=
  match s with c :: s => if in_range 0x30 0x39 c then c :: take_digits s else [] | [] => [] end.

Definition json_u64_field (body key : str) : option N :=
  rest ← field_value_start body key; from_str_radix 64 10 (take_digits rest).

(** Every turn consumes a character, so the length bounds the turns. *)
Fixpoint array_loop (fuel : nat) (s : str) : list str :=
  match fuel, s with
  | S fuel, c :: s' =>
      if (c =? 0x20) || (c =? tab) || (c =? nl) || (c =? cr) || (c =? comma) then array_loop fuel s'
      else if c =? rbracket then []
      else if c =? dquote then
        match scan_json_string s with
        | Some (x, rest) => x :: array_loop fuel rest
        | None => []
        end
      else []
  | _, _ => []
  end.

Definition json_string_array_field (body key : str) : list str :=
  match field_value_start body key with
  | Some (c :: rest) => if c =? lbracket then array_loop (length rest) rest else []
  | _ => []
  end.

(** ** The members of a room *)
Definition participant_of (obj : str) : RoomParticipant :=
  {| id := default [] (json_string_field obj (lit "id"));
     pubkey := default [] (json_string_field obj (lit "pubkey"));
     candidates := json_string_array_field obj (lit "candidates") |}.

(** [cur] is the text of the object since [obj_start], the last character
    first. *)
Fixpoint objects_loop (depth : Z) (cur : option str) (in_str escaped : bool) (s : str) : list str :=
  match s with
  | [] => []
  | c :: s' =>
      let cur' := match cur with Some l => Some (c :: l) | None => None end in
      if in_str then
        if escaped then objects_loop depth cur' true false s'
        else if c =? backslash then objects_loop depth cur' true true s'
        else if c =? dquote then objects_loop depth cur' false false s'
        else objects_loop depth cur' true false s'
      else if c =? dquote then objects_loop depth cur' true escaped s'
      else if c =? lbrace then
        objects_loop (depth + 1) (if (depth =? 0)%Z then Some [c] else cur') false escaped s'
      else if c =? rbrace then
        if (depth - 1 =? 0)%Z then
          match cur' with
          | Some l => reverse l :: objects_loop (depth - 1) None false escaped s'
          | None => objects_loop (depth - 1) None false escaped s'
          end
        else objects_loop (depth - 1) cur' false escaped s'
      else if (c =? rbracket) && (depth =? 0)%Z then []
      else objects_loop depth cur' false escaped s'
  end.

Definition parse_participants (body : str) : list RoomParticipant :=
  match field_value_start body (lit "participants") with
  | Some (c :: rest) =>
      if c =? lbracket then map participant_of (objects_loop 0 None false false (c :: rest)) else []
  | _ => []
  end.

(** ** The HTTP response *)

(** [str::lines] and [str::split_whitespace]. *)
Fixpoint lines_loop (cur : str) (s : str) : list str :=
  match s with
  | [] => match cur with [] => [] | _ => [reverse cur] end
  | c :: s =>
      if c =? nl then
        reverse (match cur with x :: cur' => if x =? cr then cur' else cur | [] => [] end) :: lines_loop [] s
      else lines_loop (c :: cur) s
  end.

Definition lines (s : str) : list str := lines_loop [] s.

Fixpoint words_loop (cur : str) (s : str) : list str :=
  match s with
  | [] => match cur with [] => [] | _ => [reverse cur] end
  | c :: s =>
      if is_whitespace c then
        match cur with [] => words_loop [] s | _ => reverse cur :: words_loop [] s end
      else words_loop (c :: cur) s
  end.

Definition split_whitespace (s : str) : list str := words_loop [] s.

(** [to_ascii_lowercase]. *)
Definition lower_char (c : N) : N := if in_range 0x41 0x5A c then c + 0x20 else c.

(** [windows(n).position(|w| w == needle)], with what is before and after the
    match. *)
Fixpoint find_bytes (needle : list byte) (s : list byte) : option (list byte * list byte) :=
  if bool_decide (take (length needle) s = needle) then Some ([], drop (length needle) s)
  else
    match s with
    | [] => None
    | b :: s =>
        match find_bytes needle s with Some (before, after) => Some (b :: before, after) | None => None end
    end.

Definition CRLF : list byte := [Byte.x0d; Byte.x0a].

Definition find_header_end (raw : list byte) : option (list byte * list byte) :=
  find_bytes (CRLF ++ CRLF) raw.

Definition header_is_chunked (head : str) : bool :=
  existsb (fun l => let l := map lower_char l in
                    starts_with (lit "transfer-encoding:") l && contains (lit "chunked") l)
    (lines head).

(** [s.split(';').next()]. *)
Fixpoint before_semicolon (s : str) : str :=
  match s with c :: s => if c =? 0x3B then [] else c :: before_semicolon s | [] => [] end.

(** Every turn consumes its size line, so the length bounds the turns. *)
Fixpoint dechunk_loop (fuel : nat) (out body : list byte) : result ClientError (list byte) :=
  match fuel with
  | O => Err (Malformed (lit "chunk size line"))
  | S fuel =>
      match find_bytes CRLF body with
      | None => Err (Malformed (lit "chunk size line"))
      | Some (line, body) =>
          match from_utf8 line with
          | None => Err (Malformed (lit "chunk size utf8"))
          | Some size_str =>
              match from_str_radix 64 16 (before_semicolon (trim size_str)) with
              | None => Err (Malformed (lit "chunk size hex"))
              | Some size =>
                  if size =? 0 then Ok out
                  else if lenN body <? size then Err (Malformed (lit "truncated chunk"))
                  else
                    let out := out ++ take (N.to_nat size) body in
                    let body := drop (N.to_nat size) body in
                    let body := if bool_decide (take 2 body = CRLF) then drop 2 body else body in
                    dechunk_loop fuel out body
              end
          end
      end
  end.

Definition dechunk (body : list byte) : result ClientError str :=
  match dechunk_loop (S (length body)) [] body with
  | Err e => Err e
  | Ok out => ok_or (Malformed (lit "non-utf8 body")) (from_utf8 out)
  end.

Definition parse_response (raw : list byte) : result ClientError (N * str) :=
  match find_header_end raw with
  | None => Err (Malformed (lit "no header terminator"))
  | Some (head, body) =>
      match from_utf8 head with
      | None => Err (Malformed (lit "non-utf8 headers"))
      | Some head =>
          match lines head with
          | [] => Err (Malformed (lit "no status line"))
          | status_line :: _ =>
              match (w ← split_whitespace status_line !! 1%nat; from_str_radix 16 10 w) with
              | None => Err (Malformed (lit "no status code"))
              | Some code =>
                  let text :=
                    if header_is_chunked head then dechunk body
                    else ok_or (Malformed (lit "non-utf8 body")) (from_utf8 body) in
                  match text with Ok text => Ok (code, text) | Err e => Err e end
              end
          end
      end
  end.

Definition expect (status want : N) : result ClientError unit :=
  if status =? want then Ok tt else Err (Status status).

(** ** The requests, given the response *)
Definition create_session (resp : N * str) : result ClientError str :=
  match expect (fst resp) 201 with
  | Err e => Err e
  | Ok _ => ok_or (Malformed (lit "missing session_code")) (json_string_field (snd resp) (lit "session_code"))
  end.

Definition post_offer_body (code sdp : str) : str :=
  json_obj [(lit "session_code", code); (lit "sdp", sdp)].

Definition post_candidate_body (code candidate : str) : str :=
  json_obj [(lit "session_code", code); (lit "candidate", candidate)].

Definition join (resp : N * str) : result ClientError JoinInfo :=
  match expect (fst resp) 200 with
  | Err e => Err e
  | Ok _ =>
      Ok {| offer := json_string_field (snd resp) (lit "offer");
            join_candidates := json_string_array_field (snd resp) (lit "candidates") |}
  end.

Definition poll_answer (resp : N * str) : result ClientError (option str) :=
  match expect (fst resp) 200 with
  | Err e => Err e
  | Ok _ => Ok (json_string_field (snd resp) (lit "answer"))
  end.

Definition room_roster (resp : N * str) : result ClientError (list RoomParticipant) :=
  match expect (fst resp) 200 with
  | Err e => Err e
  | Ok _ => Ok (parse_participants (snd resp))
  end.

(** ** Examples: the cases of the code's own tests *)
Example chunked_body :
  parse_response (as_bytes (lit "HTTP/1.1 200 OK" ++ [cr; nl] ++ lit "Transfer-Encoding: chunked" ++ [cr; nl; cr; nl]
    ++ lit "4" ++ [cr; nl] ++ lit "{'a'" ++ [cr; nl] ++ lit "3" ++ [cr; nl] ++ lit ":1}" ++ [cr; nl] ++ lit "0" ++ [cr; nl; cr; nl]))
  = Ok (200, lit "{'a':1}").
Proof. by vm_compute. Qed.

(** ** The text of the service's responses

    The service writes its bodies with a third-party JSON library: compactly,
    the keys of an object in alphabetical order.  The definitions below are that
    text for strings whose control characters are among newline, carriage return
    and tab, where its escapes are those of [json_escape]. *)
Fixpoint json_strings (first : bool) (xs : list str) : str :=
  match xs with
  | [] => []
  | x :: xs => (if first then [] else [comma]) ++ json_string x ++ json_strings false xs
  end.

Definition json_array (xs : list str) : str := lbracket :: json_strings true xs ++ [rbracket].

Definition json_option (o : option str) : str :=
  match o with Some s => json_string s | None => lit "null" end.

Definition join_text (code : str) (i : JoinInfo) : str :=
  [lbrace] ++ json_key (lit "candidates") ++ json_array (join_candidates i) ++ [comma] ++
  json_key (lit "offer") ++ json_option (offer i) ++ [comma] ++
  json_key (lit "session_code") ++ json_string code ++ [rbrace].

Definition participant_text (p : RoomParticipant) : str :=
  [lbrace] ++ json_key (lit "candidates") ++ json_array (candidates p) ++ [comma] ++
  json_key (lit "id") ++ json_string (id p) ++ [comma] ++
  json_key (lit "pubkey") ++ json_string (pubkey p) ++ [rbrace].

Fixpoint participants_text (first : bool) (ps : list RoomParticipant) : str :=
  match ps with
  | [] => []
  | p :: ps => (if first then [] else [comma]) ++ participant_text p ++ participants_text false ps
  end.

Definition roster_text (code : str) (ps : list RoomParticipant) : str :=
  [lbrace] ++ json_key (lit "participants") ++ [lbracket] ++ participants_text true ps ++ [rbracket; comma] ++
  json_key (lit "room_code") ++ json_string code ++ [rbrace].

(** ** Lemmas: strings *)
#[local] Arguments lit : simpl never.
#[local] Arguments N.eqb : simpl never.

Section strings.
Implicit Types (s t r k : str) (c : N).

Lemma scan_escape out s r : scan_loop out (json_escape s ++ dquote :: r) = Some (out ++ s, r).
Proof.
  revert out. induction s as [|c s IH]; intros out; [by rewrite app_nil_r|].
  unfold json_escape. cbn [map concat]. fold (json_escape s). rewrite <- app_assoc.
  assert (Hc : forall x, scan_loop out (escape_char c ++ x) = scan_loop (out ++ [c]) x).
  { intros x. unfold escape_char.
    destruct (N.eqb_spec c dquote) as [->|]; [done|]. destruct (N.eqb_spec c backslash) as [->|]; [done|].
    destruct (N.eqb_spec c nl) as [->|]; [done|]. destruct (N.eqb_spec c cr) as [->|]; [done|].
    destruct (N.eqb_spec c tab) as [->|]; [done|]. cbn [app scan_loop].
    by rewrite (proj2 (N.eqb_neq _ _)), (proj2 (N.eqb_neq _ _)). }
  rewrite Hc, IH. by rewrite <- app_assoc.
Qed.

Lemma scan_string s r : scan_json_string (json_string s ++ r) = Some (s, r).
Proof.
  unfold json_string, scan_json_string. cbn [app]. rewrite N.eqb_refl, <- app_assoc. apply scan_escape.
Qed.

(** A field name: not empty, no quote, no backslash, no leading separator. *)
Definition plain_char c : Prop := c <> dquote /\ c <> backslash.
Definition plain k : Prop :=
  Forall plain_char k /\ match k with [] => False | c :: _ => c ∉ [comma; colon; rbracket; rbrace] end.

(** The escaped text before its closing quote is a plain string only as a whole. *)
Lemma escape_break s t k after :
  Forall plain_char k -> json_escape s ++ dquote :: t = k ++ dquote :: after -> json_escape s = k /\ t = after.
Proof.
  intros Hk. revert s. induction Hk as [|x k [Hx1 Hx2] _ IH]; intros s.
  - destruct s as [|c s]; [cbn; by intros [= ->]|].
    unfold json_escape. cbn [map concat]. unfold escape_char.
    destruct (N.eqb_spec c dquote); [done|]. destruct (N.eqb_spec c backslash); [done|].
    destruct (N.eqb_spec c nl); [done|]. destruct (N.eqb_spec c cr); [done|]. destruct (N.eqb_spec c tab); [done|].
    cbn. by intros [= ->].
  - destruct s as [|c s]; [cbn; intros He; by injection He as <- _|].
    unfold json_escape. cbn [map concat]. unfold escape_char.
    destruct (N.eqb_spec c dquote) as [->|]; [intros He; by injection He as <- _|]. destruct (N.eqb_spec c backslash) as [->|]; [intros He; by injection He as <- _|].
    destruct (N.eqb_spec c nl); [intros He; by injection He as <- _|]. destruct (N.eqb_spec c cr); [intros He; by injection He as <- _|].
    destruct (N.eqb_spec c tab); [intros He; by injection He as <- _|].
    cbn. intros He. injection He as -> He. apply IH in He as [<- ->]. done.
Qed.

Lemma plain_escape k : Forall plain_char k -> forall c, c ∈ k -> c <> dquote.
Proof. intros Hk c Hc. rewrite List.Forall_forall in Hk. apply list_elem_of_In, Hk in Hc. by destruct Hc. Qed.
End strings.

(** ** Lemmas: the search for a field *)
Section search.
Implicit Types (s t r k : str) (c : N).

Lemma find_skip needle l r : find_field needle (length l) (l ++ r) = find_field needle 0 r.
Proof. induction l as [|x l IH]; [done|]. cbn [length app find_field]. exact IH. Qed.

Lemma find_other needle c r :
  c <> dquote -> head needle = Some dquote -> find_field needle 0 (c :: r) = find_field needle 0 r.
Proof.
  intros Hc Hn. cbn [find_field]. destruct (strip_prefix needle (c :: r)) eqn:E; [|done].
  apply strip_prefix_Some in E. destruct needle as [|y needle]; [done|]. injection Hn as ->. by injection E.
Qed.

Definition separator c : Prop := c ∈ [comma; rbracket; rbrace].

(** A closing quote does not start a match. *)
Lemma find_closing k c r :
  plain k -> separator c \/ c = colon -> find_field (needle_of k) 0 (dquote :: c :: r) = find_field (needle_of k) 0 (c :: r).
Proof.
  intros [_ Hk] Hc. cbn [find_field]. destruct (strip_prefix _ _) eqn:E; [|done].
  apply strip_prefix_Some in E. unfold needle_of in E. destruct k as [|x k]; [done|].
  injection E as -> _. exfalso. apply Hk. unfold separator in Hc. set_solver.
Qed.

Lemma not_contains c l : contains_char c l = false -> c ∉ l.
Proof.
  intros Hb Hin. apply list_elem_of_In in Hin. assert (Ht : contains_char c l = true); [|congruence].
  apply List.existsb_exists. exists c. by rewrite N.eqb_refl.
Qed.

(** A quote followed by the rest of a string value starts no match either. *)
Lemma find_opening k s c r :
  plain k -> separator c ->
  find_field (needle_of k) 0 (json_escape s ++ dquote :: c :: r) = find_field (needle_of k) 0 (c :: r) ->
  find_field (needle_of k) 0 (dquote :: json_escape s ++ dquote :: c :: r) = find_field (needle_of k) 0 (c :: r).
Proof.
  intros [Hp _] Hc IH. cbn [find_field]. destruct (strip_prefix _ _) as [after|] eqn:E; [|exact IH].
  apply strip_prefix_Some in E. unfold needle_of in E. cbn [app] in E. injection E as E.
  rewrite <- app_assoc in E. apply escape_break in E as [E <-]; [|done].
  assert (Hs : find_field (needle_of k) (length (needle_of k) - 1) (json_escape s ++ dquote :: c :: r) =
               find_field (needle_of k) 0 (c :: r)).
  { unfold needle_of at 2. rewrite E. change (k ++ dquote :: c :: r) with (k ++ [dquote] ++ c :: r).
    rewrite app_assoc, <- (find_skip _ (k ++ [dquote])). f_equal. cbn. lia. }
  cbn [trim_start]. unfold separator in Hc. apply list_elem_of_In in Hc. cbn in Hc.
  by destruct Hc as [<-|[<-|[<-|[]]]].
Qed.

Lemma find_no_quote k l r :
  dquote ∉ l -> find_field (needle_of k) 0 (l ++ r) = find_field (needle_of k) 0 r.
Proof.
  induction l as [|y l IH]; [done|]. intros Hl. cbn [app].
  rewrite find_other; [apply IH; set_solver|set_solver|done].
Qed.

Lemma find_value_tail k s c r :
  plain k -> separator c ->
  find_field (needle_of k) 0 (json_escape s ++ dquote :: c :: r) = find_field (needle_of k) 0 (c :: r).
Proof.
  intros Hk Hc. induction s as [|x s IH]; [apply find_closing; [done|by left]|].
  unfold json_escape. cbn [map concat]. fold (json_escape s). rewrite <- app_assoc. unfold escape_char.
  destruct (N.eqb_spec x dquote) as [->|Hx].
  { cbn [app]. rewrite find_other by done. by apply find_opening. }
  repeat (case_match; [rewrite find_no_quote; [done|by apply not_contains]|]).
  rewrite find_no_quote; [done|]. set_solver.
Qed.

(** No match in a string that is a value, nor in an array of them. *)
Lemma find_string k s c r :
  plain k -> separator c ->
  find_field (needle_of k) 0 (json_string s ++ c :: r) = find_field (needle_of k) 0 (c :: r).
Proof.
  intros Hk Hc. unfold json_string. cbn [app]. rewrite <- app_assoc.
  apply find_opening; [done..|]. by apply find_value_tail.
Qed.

Lemma find_char k c r : c <> dquote -> find_field (needle_of k) 0 (c :: r) = find_field (needle_of k) 0 r.
Proof. intros Hc. by apply find_other. Qed.

Lemma find_strings k first xs r :
  plain k -> find_field (needle_of k) 0 (json_strings first xs ++ rbracket :: r) = find_field (needle_of k) 0 r.
Proof.
  intros Hk. revert first. induction xs as [|x xs IH]; intros first; [by apply find_char|].
  cbn [json_strings]. rewrite <- !app_assoc.
  assert (Hx : find_field (needle_of k) 0 (json_string x ++ json_strings false xs ++ rbracket :: r) =
               find_field (needle_of k) 0 (json_strings false xs ++ rbracket :: r)).
  { destruct xs as [|y xs]; cbn [json_strings app]; (apply find_string; [done|]); unfold separator; set_solver. }
  destruct first; cbn [app]; [|rewrite find_char by done]; by rewrite Hx.
Qed.

Lemma find_array k xs r :
  plain k -> find_field (needle_of k) 0 (json_array xs ++ r) = find_field (needle_of k) 0 r.
Proof.
  intros Hk. unfold json_array. cbn [app]. rewrite find_char by done. rewrite <- app_assoc. by apply find_strings.
Qed.

Lemma find_key_same k r : find_field (needle_of k) 0 (json_key k ++ r) = Some (trim_start r).
Proof.
  unfold json_key, needle_of. cbn [app find_field].
  replace (dquote :: (k ++ [dquote; colon]) ++ r) with ((dquote :: k ++ [dquote]) ++ colon :: r)
    by (cbn [app]; by rewrite <- !app_assoc).
  by rewrite strip_prefix_app.
Qed.

Lemma find_key_other k k' r :
  plain k -> plain k' -> k' <> k ->
  find_field (needle_of k) 0 (json_key k' ++ r) = find_field (needle_of k) 0 r.
Proof.
  intros Hk [Hk' _] Hne. unfold json_key. cbn [app]. rewrite <- app_assoc. cbn [find_field app].
  destruct (strip_prefix _ _) as [after|] eqn:E.
  { apply strip_prefix_Some in E. unfold needle_of in E. cbn [app] in E. injection E as E. rewrite <- app_assoc in E.
    destruct Hk as [Hk _]. assert (Hq : ~ plain_char dquote) by (by intros []).
    by destruct (break_unique plain_char k' dquote (colon :: r) k dquote after Hk' Hk Hq Hq E). }
  rewrite find_no_quote by (intros Hin; by apply (plain_escape _ Hk') in Hin).
  rewrite find_closing; [|done|by right]. by apply find_char.
Qed.
End search.

Definition plainb (k : str) : bool :=
  forallb (fun c => negb (c =? dquote) && negb (c =? backslash)) k &&
  match k with
  | [] => false
  | c :: _ => negb ((c =? comma) || (c =? colon) || (c =? rbracket) || (c =? rbrace))
  end.

Lemma plainb_plain k : plainb k = true -> plain k.
Proof.
  unfold plainb. rewrite andb_true_iff, List.forallb_forall. intros [H1 H2]. split.
  - apply List.Forall_forall. intros c Hc. apply H1 in Hc. apply andb_true_iff in Hc as [Ha Hb].
    split; intros ->; done.
  - destruct k as [|c k]; [done|]. intros Hin. apply list_elem_of_In in Hin. cbn in Hin.
    by destruct Hin as [<-|[<-|[<-|[<-|[]]]]].
Qed.

(** ** Lemmas: arrays and objects *)
Section objects.
Implicit Types (s t r k : str) (c : N) (cur : option str).

Lemma array_strings fuel first xs r :
  (length (json_strings first xs) < fuel)%nat ->
  array_loop fuel (json_strings first xs ++ rbracket :: r) = xs.
Proof.
  revert fuel first. induction xs as [|x xs IH]; intros fuel first Hf.
  { destruct fuel; [cbn in Hf; lia|done]. }
  cbn [json_strings] in *. rewrite !length_app in Hf.
  assert (Hx : forall fuel, (length (json_string x) + length (json_strings false xs) < fuel)%nat ->
    array_loop fuel (json_string x ++ json_strings false xs ++ rbracket :: r) = x :: xs).
  { intros [|fl] Hl; [lia|]. cbn [array_loop]. unfold json_string at 1. cbn [app].
    change (dquote :: (json_escape x ++ [dquote]) ++ json_strings false xs ++ rbracket :: r)
      with (json_string x ++ json_strings false xs ++ rbracket :: r).
    rewrite scan_string. cbn. f_equal. apply IH. unfold json_string in Hl. cbn [length] in Hl. lia. }
  rewrite <- !app_assoc. destruct first; cbn [app length] in *; [apply Hx; lia|].
  destruct fuel as [|fuel]; [lia|]. cbn [array_loop]. cbn. apply Hx. lia.
Qed.

Lemma array_field xs r : trim_start (json_array xs ++ r) = json_array xs ++ r /\
  match json_array xs ++ r with
  | c :: rest => if c =? lbracket then array_loop (length rest) rest else []
  | [] => []
  end = xs.
Proof.
  split; [done|]. unfold json_array. cbn [app]. rewrite N.eqb_refl, <- app_assoc.
  apply array_strings. rewrite length_app. cbn. lia.
Qed.

(** The characters of the object being read. *)
Definition push t cur : option str := match cur with Some l => Some (reverse t ++ l) | None => None end.

Lemma push_push t1 t2 cur : push t2 (push t1 cur) = push (t1 ++ t2) cur.
Proof. destruct cur; [|done]. cbn. by rewrite reverse_app, <- app_assoc. Qed.

Lemma objects_in_string d cur s r :
  objects_loop d cur true false (json_escape s ++ dquote :: r) =
  objects_loop d (push (json_escape s ++ [dquote]) cur) false false r.
Proof.
  revert cur. induction s as [|x s IH]; intros cur; [by destruct cur|].
  unfold json_escape. cbn [map concat]. fold (json_escape s). rewrite <- !app_assoc.
  assert (Hx : objects_loop d cur true false (escape_char x ++ json_escape s ++ dquote :: r) =
               objects_loop d (push (escape_char x) cur) true false (json_escape s ++ dquote :: r)).
  { unfold escape_char. repeat (case_match; [by destruct cur|]). cbn [app objects_loop].
    repeat match goal with H : (x =? _) = false |- _ => rewrite H end. by destruct cur. }
  by rewrite Hx, IH, push_push.
Qed.

(** Text inside an object that opens and closes none. *)
Definition inert t : Prop :=
  forall d cur r, (0 < d)%Z -> objects_loop d cur false false (t ++ r) = objects_loop d (push t cur) false false r.

Lemma inert_app t1 t2 : inert t1 -> inert t2 -> inert (t1 ++ t2).
Proof. intros H1 H2 d cur r Hd. by rewrite <- app_assoc, H1, H2, push_push. Qed.

Lemma inert_nil : inert [].
Proof. intros d cur r _. by destruct cur. Qed.

Lemma inert_char c : c <> dquote -> c <> lbrace -> c <> rbrace -> inert [c].
Proof.
  intros H1 H2 H3 d cur r Hd. cbn [app objects_loop].
  rewrite !(proj2 (N.eqb_neq _ _)), (proj2 (Z.eqb_neq d 0)), andb_false_r by (done || lia). by destruct cur.
Qed.

Lemma inert_string s : inert (json_string s).
Proof.
  intros d cur r _. unfold json_string. cbn [app objects_loop]. rewrite N.eqb_refl, <- app_assoc.
  destruct cur as [l|]; cbn [app]; rewrite objects_in_string; [|done]. cbn [push]. do 2 f_equal.
  change (dquote :: json_escape s ++ [dquote]) with ([dquote] ++ json_escape s ++ [dquote]).
  by rewrite (reverse_app [dquote]), <- app_assoc.
Qed.

Lemma inert_key k : Forall plain_char k -> contains_char nl k || contains_char cr k || contains_char tab k = false ->
  inert (json_key k).
Proof.
  intros Hk Hc. assert (He : json_escape k = k).
  { apply orb_false_iff in Hc as [[Hn Hr]%orb_false_iff Ht]. apply not_contains in Hn, Hr, Ht.
    induction Hk as [|x k [Hx1 Hx2] _ IH]; [done|]. unfold json_escape. cbn [map concat]. fold (json_escape k).
    rewrite IH by set_solver. unfold escape_char.
    by rewrite !(proj2 (N.eqb_neq _ _)) by set_solver. }
  replace (json_key k) with (json_string k ++ [colon]).
  - apply inert_app; [apply inert_string|]. by apply inert_char.
  - unfold json_string, json_key. rewrite He. cbn [app]. by rewrite <- app_assoc.
Qed.

Lemma inert_strings first xs : inert (json_strings first xs).
Proof.
  revert first. induction xs as [|x xs IH]; intros first; [apply inert_nil|]. cbn [json_strings].
  apply inert_app; [destruct first; [apply inert_nil|by apply inert_char]|].
  apply inert_app; [apply inert_string|apply IH].
Qed.

Lemma inert_array xs : inert (json_array xs).
Proof.
  change (json_array xs) with ([lbracket] ++ json_strings true xs ++ [rbracket]).
  apply inert_app; [by apply inert_char|]. apply inert_app; [apply inert_strings|by apply inert_char].
Qed.

Lemma objects_participant p r :
  objects_loop 0 None false false (participant_text p ++ r) = participant_text p :: objects_loop 0 None false false r.
Proof.
  set (inner := json_key (lit "candidates") ++ json_array (candidates p) ++ [comma] ++
    json_key (lit "id") ++ json_string (id p) ++ [comma] ++ json_key (lit "pubkey") ++ json_string (pubkey p)).
  assert (Hi : inert inner).
  { repeat apply inert_app; try apply inert_string; try apply inert_array; try (by apply inert_char);
      (apply inert_key; [apply plainb_plain|]; by vm_compute). }
  assert (Ht : participant_text p = [lbrace] ++ inner ++ [rbrace]).
  { unfold participant_text, inner. by rewrite <- !app_assoc. }
  rewrite Ht at 1. cbn [app]. rewrite <- app_assoc. cbn [app].
  cbn [objects_loop]. cbn -[objects_loop app]. rewrite Hi by done. cbn [push objects_loop].
  cbn -[objects_loop app reverse]. f_equal. rewrite Ht. cbn [app].
  by rewrite reverse_cons, reverse_app, reverse_involutive.
Qed.

Lemma objects_participants first ps r :
  objects_loop 0 None false false (participants_text first ps ++ rbracket :: r) = map participant_text ps.
Proof.
  revert first. induction ps as [|p ps IH]; intros first; [done|]. cbn [participants_text map].
  rewrite <- !app_assoc.
  assert (Hc : forall x, objects_loop 0 None false false (comma :: x) = objects_loop 0 None false false x) by done.
  destruct first; cbn [app]; rewrite ?Hc, objects_participant; f_equal; apply IH.
Qed.
End objects.

(** ** Lemmas: the chunked body *)
Section chunks.
Implicit Types (b : list byte).

(** One chunk and its size line, and a whole body. *)
Definition chunk_bytes (c : list byte) : list byte := as_bytes (format_radix 16 (lenN c)) ++ CRLF ++ c ++ CRLF.
Definition chunked_bytes (cs : list (list byte)) : list byte :=
  concat (map chunk_bytes cs) ++ as_bytes (lit "0") ++ CRLF ++ CRLF.

Definition no_cr b : Prop := Byte.x0d ∉ b.

Lemma find_crlf b rest : no_cr b -> find_bytes CRLF (b ++ CRLF ++ rest) = Some (b, rest).
Proof.
  unfold no_cr. induction b as [|x b IH]; intros Hb; [done|]. cbn [app find_bytes].
  rewrite bool_decide_false.
  - rewrite IH by set_solver. done.
  - cbn. intros [= ->]. set_solver.
Qed.

Lemma digit_chars_ascii s : Forall (is_digit 16) s -> no_cr (as_bytes s) /\ Forall (fun c => is_whitespace c = false /\ c <> 0x3B) s.
Proof.
  induction 1 as [|c s (d & Hd & ->) _ [IH1 IH2]]; [split; [unfold no_cr; set_solver|constructor]|].
  pose proof (digit_small d Hd) as Hs. split.
  - unfold no_cr in *. rewrite as_bytes_cons. unfold enc_char. rewrite (proj2 (N.ltb_lt _ _)) by done. cbn [app].
    intros [E|Hin]%elem_of_cons; [|done]. apply (f_equal Byte.to_N) in E. rewrite to_N_byte_of, N.mod_small in E by lia.
    unfold digit_char in E. destruct (N.ltb_spec d 10); cbn in E; lia.
  - constructor; [|done]. clear IH1 IH2 Hs. unfold digit_char. 
    split; [|destruct (N.ltb_spec d 10); lia]. unfold is_whitespace, in_range.
    destruct (N.ltb_spec d 10); repeat (apply orb_false_iff; split); rewrite ?andb_false_iff, ?N.eqb_neq, ?N.leb_gt; lia.
Qed.

Lemma trim_start_id s : Forall (fun c => is_whitespace c = false) s -> trim_start s = s.
Proof. destruct 1 as [|c s Hc _]; [done|]. cbn. by rewrite Hc. Qed.

Lemma trim_id s : Forall (fun c => is_whitespace c = false) s -> trim s = s.
Proof.
  intros Hs. unfold trim. rewrite (trim_start_id s), trim_start_id by (done || by apply Forall_reverse).
  apply reverse_involutive.
Qed.

Lemma before_semicolon_id s : Forall (fun c => c <> 0x3B) s -> before_semicolon s = s.
Proof. induction 1 as [|c s Hc _ IH]; [done|]. cbn. by rewrite (proj2 (N.eqb_neq _ _)), IH. Qed.

(** What a size line of hexadecimal digits reads as. *)
Lemma size_line n :
  n < 2 ^ 64 ->
  exists line, from_utf8 (as_bytes (format_radix 16 n)) = Some line /\ no_cr (as_bytes (format_radix 16 n)) /\
    from_str_radix 64 16 (before_semicolon (trim line)) = Some n.
Proof.
  intros Hn. exists (format_radix 16 n).
  assert (Hd : Forall (is_digit 16) (format_radix 16 n)) by (by apply format_are_digits).
  destruct (digit_chars_ascii _ Hd) as [H1 H2]. split; [apply from_utf8_as_bytes; by eapply (is_digit_ok 16)|].
  split; [done|]. rewrite trim_id, before_semicolon_id; [by apply hex_parse|..];
    apply (List.Forall_impl _ (fun c Hc => Hc)) in H2; eapply List.Forall_impl; try exact H2; by intros c [].
Qed.

Lemma dechunk_last fuel out : dechunk_loop (S fuel) out (as_bytes (lit "0") ++ CRLF ++ CRLF) = Ok out.
Proof. by vm_compute. Qed.

Lemma dechunk_chunks cs fuel out :
  Forall (fun c => 0 < lenN c < 2 ^ 64) cs -> (length (chunked_bytes cs) < fuel)%nat ->
  dechunk_loop fuel out (chunked_bytes cs) = Ok (out ++ concat cs).
Proof.
  intros Hcs. revert fuel out. induction Hcs as [|c cs [Hpos Hc] _ IH]; intros fuel out Hf.
  { destruct fuel; [lia|]. rewrite app_nil_r. apply dechunk_last. }
  destruct fuel as [|fuel]; [lia|].
  assert (E : chunked_bytes (c :: cs) = as_bytes (format_radix 16 (lenN c)) ++ CRLF ++ (c ++ CRLF ++ chunked_bytes cs)).
  { unfold chunked_bytes, chunk_bytes. cbn [map concat]. by rewrite <- !app_assoc. }
  rewrite E in *. cbn [dechunk_loop]. destruct (size_line (lenN c) Hc) as (line & H1 & H2 & H3).
  rewrite find_crlf, H1, H3 by done.
  rewrite (proj2 (N.eqb_neq _ _)) by lia. rewrite (proj2 (N.ltb_ge _ _)) by (rewrite lenN_app; lia).
  rewrite to_nat_lenN, take_app_length, drop_app_length. rewrite bool_decide_true by done.
  change (drop 2 (CRLF ++ chunked_bytes cs)) with (chunked_bytes cs). rewrite IH.
  - cbn [concat]. by rewrite app_assoc.
  - rewrite !length_app in Hf. cbn in Hf. lia.
Qed.
End chunks.

(** ** Lemmas: fields *)
Section fields.
Implicit Types (fields : list (str * str)) (k v r : str).

Lemma field_found k t r :
  find_field (needle_of k) 0 r = Some t -> json_string_field r k = if starts_with (lit "null") t then None else fst <$> scan_json_string t.
Proof. intros E. unfold json_string_field, field_value_start. by rewrite E. Qed.

Lemma string_value k v r t :
  find_field (needle_of k) 0 t = Some (json_string v ++ r) -> json_string_field t k = Some v.
Proof. intros E. rewrite (field_found _ _ _ E), scan_string. done. Qed.

Lemma null_value k r t : find_field (needle_of k) 0 t = Some (lit "null" ++ r) -> json_string_field t k = None.
Proof. intros E. by rewrite (field_found _ _ _ E). Qed.

Lemma array_value k xs r t :
  find_field (needle_of k) 0 t = Some (json_array xs ++ r) -> json_string_array_field t k = xs.
Proof.
  intros E. unfold json_string_array_field, field_value_start. rewrite E. apply (proj2 (array_field xs r)).
Qed.

Lemma find_fields first k v fields :
  NoDup (map fst fields) -> Forall (fun f => plain (fst f)) fields -> (k, v) ∈ fields ->
  exists r, find_field (needle_of k) 0 (json_fields first fields ++ [rbrace]) = Some (json_string v ++ r).
Proof.
  intros Hn Hp. revert first Hn. induction Hp as [|[k' v'] fields Hk' Hp IH]; intros first Hn Hin; [set_solver|].
  cbn [fst map] in *. apply NoDup_cons in Hn as [Hk Hn]. cbn [json_fields]. rewrite <- !app_assoc.
  assert (Hc : forall x, find_field (needle_of k) 0 ((if first then [] else [comma]) ++ x) = find_field (needle_of k) 0 x).
  { intros x. destruct first; [done|]. by apply find_char. }
  rewrite Hc. apply elem_of_cons in Hin as [[= -> ->]|Hin].
  { rewrite find_key_same. eexists. by unfold json_string. }
  assert (Hpk : plain k). { rewrite List.Forall_forall in Hp. apply list_elem_of_In in Hin. exact (Hp _ Hin). }
  rewrite find_key_other; [|done|done|].
  2: { intros ->. apply Hk. apply list_elem_of_In, in_map_iff. exists (k, v). split; [done|by apply list_elem_of_In]. }
  destruct (IH false Hn Hin) as [r Hr]. exists r. rewrite <- Hr.
  destruct fields as [|[k2 v2] fields]; cbn [json_fields app]; (apply find_string; [done|]); unfold separator; set_solver.
Qed.
End fields.

(** Steps over the text before a field. *)
Ltac plain_name := apply plainb_plain; by vm_compute.

Ltac walk :=
  cbn [app];
  repeat first
    [ rewrite find_char by done | rewrite find_key_same
    | rewrite find_key_other by (plain_name || done)
    | rewrite find_array by plain_name
    | rewrite find_string by (plain_name || (unfold separator; set_solver)) ].

Lemma participant_survives p : participant_of (participant_text p) = p.
Proof.
  destruct p as [pid key cs]. unfold participant_of, participant_text. cbn [id pubkey candidates]. f_equal.
  - erewrite string_value; [done|]. walk. reflexivity.
  - erewrite string_value; [done|]. walk. reflexivity.
  - eapply array_value. walk. reflexivity.
Qed.

(** ** Properties *)

(** The client reads back the objects it writes: every field of an object of
    string fields with distinct plain names is found again under its name with
    its value, whatever characters the values have - quotes, backslashes, braces,
    or the text of another field. *)
Theorem fields_read_back (fields : list (str * str)) (k v : str) :
  NoDup (map fst fields) -> Forall (fun f => plain (fst f)) fields -> (k, v) ∈ fields ->
  json_string_field (json_obj fields) k = Some v.
Proof.
  intros Hn Hp Hin. destruct (find_fields true k v fields Hn Hp Hin) as [r Hr].
  apply (string_value k v r). unfold json_obj. by rewrite find_char.
Qed.

Lemma fields_read_back_witness :
  json_string_field (json_obj [(lit "session_code", lit "100000001"); (lit "sdp", needle_of (lit "session_code") ++ [colon; nl])])
    (lit "sdp") = Some (needle_of (lit "session_code") ++ [colon; nl]).
Proof.
  apply fields_read_back; [by apply (bool_decide_unpack _); vm_compute| |set_solver].
  repeat (apply List.Forall_cons; [apply plainb_plain; by vm_compute|]). apply List.Forall_nil.
Defined.

(** What the service answers is what the client sees: the offer and the
    candidates of a join, and the whole roster of a room, come out of the text of
    the response unchanged and in order. *)
Theorem responses_survive (code : str) (i : JoinInfo) (ps : list RoomParticipant) :
  join (200, join_text code i) = Ok i /\ room_roster (200, roster_text code ps) = Ok ps.
Proof.
  split.
  - unfold join. cbn [expect fst snd N.eqb]. f_equal. destruct i as [o cs]. f_equal; cbn [offer join_candidates].
    + destruct o as [s|]; [eapply string_value|eapply null_value]; unfold join_text; walk; reflexivity.
    + eapply array_value. unfold join_text. walk. reflexivity.
  - unfold room_roster. cbn [expect fst snd N.eqb]. f_equal. unfold parse_participants, field_value_start, roster_text.
    walk. cbn [app trim_start]. change (is_whitespace lbracket) with false. cbn iota. rewrite N.eqb_refl.
    assert (Hb : forall x, objects_loop 0 None false false (lbracket :: x) = objects_loop 0 None false false x) by done.
    rewrite Hb, objects_participants, map_map. rewrite <- (map_id ps) at 2. apply map_ext. apply participant_survives.
Qed.

(** The body of a response does not depend on how the server cut it into chunks. *)
Theorem chunking_invisible (cs : list (list byte)) :
  Forall (fun c => 0 < lenN c < 2 ^ 64) cs ->
  dechunk (chunked_bytes cs) = ok_or (Malformed (lit "non-utf8 body")) (from_utf8 (concat cs)).
Proof. intros Hc. unfold dechunk. by rewrite dechunk_chunks by (done || lia). Qed.

Lemma chunking_invisible_witness :
  dechunk (chunked_bytes [as_bytes (lit "{'a'"); as_bytes (lit ":"); as_bytes (lit "1}")]) = Ok (lit "{'a':1}").
Proof.
  rewrite chunking_invisible; [by vm_compute|]. repeat (apply List.Forall_cons; [split; by vm_compute|]). apply List.Forall_nil.
Defined.

(** An escape the client does not know loses its meaning: the JSON text of the
    control character 1 reads as five characters. *)
Lemma unicode_escape_mangled :
  scan_json_string (dquote :: lit "\u0001" ++ [dquote]) = Some (lit "u0001", []).
Proof. by vm_compute. Qed.
