(* ===== verification/Establish.v ===== *)
(** From a join code to a session: [core/lowbandd/src/session.rs], over the
    mailboxes of Signaling and the handshake of SecureChannel.

    Each side is a program that asks the signaling service one request after the
    other; a run interleaves the requests of the two sides and of everybody else.
    The service is the specification that Signaling proves of the handlers.  The
    socket is its address: what the system bound it to and, when a STUN server
    answered, the reflexive one.  A wait polls as often as its deadline leaves
    time for, a number that is an argument. *)
From Stdlib Require Import Strings.String.
From stdpp Require Import relations.
From S2P Require Import Prelude Text Numeral Signaling Crypto NoiseIk RelayGuard SecureChannel.
#[local] Open Scope N_scope.

(** ** The text of socket addresses

    The sockets are IPv4.  The text of an IPv6 address is not modelled: what
    reads one is a parameter, about which nothing is assumed. *)
Abbreviation addr_v4 := (list N * N)%type (only parsing).

Inductive SocketAddr := V4 (a : addr_v4) | V6 (segments : list N) (port flowinfo scope : N).

#[global] Instance SocketAddr_eq_dec : EqDecision SocketAddr.
Proof. solve_decision. Defined.

Definition dot : N := 0x2E.

Fixpoint join_octets (os : list N) : str :=
  match os with [] => [] | [o] => decimal o | o :: os => decimal o ++ dot :: join_octets os end.

Definition show_v4 (a : addr_v4) : str := join_octets (fst a) ++ colon :: decimal (snd a).

(** The longest prefix of digits, and the number it is: at most [max] digits, and
    no leading zero unless [zero_prefix]. *)
Fixpoint span_digits (s : str) : str * str :=
  match s with
  | c :: s' =>
      if in_range 0x30 0x39 c then let '(ds, rest) := span_digits s' in (c :: ds, rest) else ([], s)
  | [] => ([], [])
  end.

Definition read_number (w : N) (max : option nat) (zero_prefix : bool) (s : str) : option (N * str) :=
  let '(ds, rest) := span_digits s in
  if bool_decide (ds = []) then None
  else if match max with Some m => (m <? length ds)%nat | None => false end then None
  else if negb zero_prefix && bool_decide (head ds = Some 0x30) && (1 <? length ds)%nat then None
  else match parse_loop w 10 0 ds with Some n => Some (n, rest) | None => None end.

Definition read_char (c : N) (s : str) : option str :=
  match s with x :: s => if x =? c then Some s else None | [] => None end.

Definition read_v4 (s : str) : option (addr_v4 * str) :=
  '(a, s) ← read_number 8 (Some 3%nat) false s; s ← read_char dot s;
  '(b, s) ← read_number 8 (Some 3%nat) false s; s ← read_char dot s;
  '(c, s) ← read_number 8 (Some 3%nat) false s; s ← read_char dot s;
  '(d, s) ← read_number 8 (Some 3%nat) false s; s ← read_char colon s;
  '(p, s) ← read_number 16 None true s;
  Some (([a; b; c; d], p), s).

Definition v4_ok (a : addr_v4) : Prop :=
  length (fst a) = 4%nat /\ Forall (fun o => o < 256) (fst a) /\ snd a < 2 ^ 16.

(** ** Keys in hexadecimal *)
Definition encode_key (key : list byte) : str := hex key.

Fixpoint decode_pairs (bytes : list byte) : option (list byte) :=
  match bytes with
  | x :: y :: bytes =>
      hi ← to_digit 16 (Byte.to_N x); lo ← to_digit 16 (Byte.to_N y);
      out ← decode_pairs bytes; Some (byte_of (16 * hi + lo) :: out)
  | _ => Some []
  end.

Definition decode_key (s : str) : option (list byte) :=
  let bytes := as_bytes s in
  if negb (lenN bytes =? 64) then None else decode_pairs bytes.

(** ** Programs of requests *)
Inductive EstablishError :=
| SignalingStatus (status : N)
| SignalingMalformed
| SessionFailed (e : SessionError)
| Timeout (what : str).

Inductive Prog (A : Type) :=
| Ret (a : A)
| Ask (r : Request) (k : Response -> Prog A).
Arguments Ret {A}.
Arguments Ask {A}.

Fixpoint bind {A B} (p : Prog A) (f : A -> Prog B) : Prog B :=
  match p with
  | Ret a => f a
  | Ask r k => Ask r (fun resp => bind (k resp) f)
  end.

(** [p?] and then [f]. *)
Definition attempt {A B} (p : Prog (result EstablishError A)) (f : A -> Prog (result EstablishError B)) :
    Prog (result EstablishError B) :=
  bind p (fun r => match r with Ok a => f a | Err e => Ret (Err e) end).

Definition status_of (resp : Response) : N :=
  match resp with
  | Status c => c
  | Created _ => 201
  | Joined _ _ | Answered _ | RosterOf _ => 200
  end.

(** The calls of the signaling client that the two sides make. *)
Definition post (r : Request) (want : N) : Prog (result EstablishError unit) :=
  Ask r (fun resp => Ret (if status_of resp =? want then Ok tt else Err (SignalingStatus (status_of resp)))).

Definition post_candidate_text (code text : str) := post (PostCandidate code text) 202.

Definition create_session : Prog (result EstablishError str) :=
  Ask PostSession (fun resp =>
    Ret (match resp with
         | Created code => Ok code
         | _ => if status_of resp =? 201 then Err SignalingMalformed else Err (SignalingStatus (status_of resp))
         end)).

Definition join (code : str) : Prog (result EstablishError (option str * list str)) :=
  Ask (GetJoin code) (fun resp =>
    Ret (match resp with
         | Joined offer candidates => Ok (offer, candidates)
         | _ => if status_of resp =? 200 then Ok (None, []) else Err (SignalingStatus (status_of resp))
         end)).

Section establish.
Context (parse_v6 : str -> option SocketAddr).

(** [v.parse::<SocketAddr>()]. *)
Definition parse_addr (s : str) : option SocketAddr :=
  match read_v4 s with
  | Some (a, []) => Some (V4 a)
  | Some (_, _ :: _) => None
  | None => parse_v6 s
  end.

Definition UDP : str := lit "udp:".
Definition KEY : str := lit "key:".

(** The addresses published: the local one, and a reflexive one that differs. *)
Definition own_addrs (local : addr_v4) (reflexive : option addr_v4) : list addr_v4 :=
  local :: match reflexive with Some r => if bool_decide (r = local) then [] else [r] | None => [] end.

Fixpoint publish (code : str) (addrs own : list addr_v4) : Prog (result EstablishError (list addr_v4)) :=
  match addrs with
  | [] => Ret (Ok own)
  | a :: addrs => attempt (post_candidate_text code (UDP ++ show_v4 a)) (fun _ => publish code addrs own)
  end.

Definition publish_local_candidates (code : str) (local : addr_v4) (reflexive : option addr_v4) :
    Prog (result EstablishError (list addr_v4)) :=
  publish code (own_addrs local reflexive) (own_addrs local reflexive).

(** The first candidate with [prefix] that [parse] accepts. *)
Definition find_candidate {A} (prefix : str) (parse : str -> option A) (candidates : list str) : option A :=
  head (omap (fun c => v ← strip_prefix prefix c; parse v) candidates).

Definition peer_candidate {A} (code prefix : str) (parse : str -> option A) : Prog (option A) :=
  bind (join code) (fun r =>
    Ret (match r with Ok (_, candidates) => find_candidate prefix parse candidates | Err _ => None end)).

(** [more] polls after the first. *)
Fixpoint wait_for {A} (more : nat) (what : str) (poll : Prog (option A)) : Prog (result EstablishError A) :=
  bind poll (fun r =>
    match r with
    | Some v => Ret (Ok v)
    | None => match more with O => Ret (Err (Timeout what)) | S more => wait_for more what poll end
    end).

Definition not_own (own : list addr_v4) (s : str) : option SocketAddr :=
  a ← parse_addr s; if bool_decide (a ∈ map V4 own) then None else Some a.

(** The host up to its handshake, the code created and told to the user. *)
Definition host_offer (code : str) (local : addr_v4) (reflexive : option addr_v4) :
    Prog (result EstablishError (list addr_v4)) :=
  attempt (post (PostOffer code (lit "lowband/1 offer")) 200) (fun _ =>
  publish_local_candidates code local reflexive).

Definition host_wait (code : str) (own : list addr_v4) (polls : nat * nat) :
    Prog (result EstablishError (list byte * SocketAddr)) :=
  attempt (wait_for (fst polls) (lit "joiner static key") (peer_candidate code KEY decode_key)) (fun peer_pub =>
  attempt (wait_for (snd polls) (lit "joiner address") (peer_candidate code UDP (not_own own))) (fun peer_addr =>
  Ret (Ok (peer_pub, peer_addr)))).

Definition host_meet (code : str) (local : addr_v4) (reflexive : option addr_v4) (polls : nat * nat) :
    Prog (result EstablishError (list byte * SocketAddr)) :=
  attempt (host_offer code local reflexive) (fun own => host_wait code own polls).

(** [connect] is the handshake over the socket. *)
Definition establish_host {S} (local : addr_v4) (reflexive : option addr_v4) (polls : nat * nat)
    (connect : SocketAddr -> list byte -> str -> result SessionError S) : Prog (result EstablishError (str * S)) :=
  attempt create_session (fun code =>
  attempt (host_meet code local reflexive polls) (fun '(peer_pub, peer_addr) =>
  match connect peer_addr peer_pub code with
  | Err e => Ret (Err (SessionFailed e))
  | Ok session => attempt (post (PostConnected code) 200) (fun _ => Ret (Ok (code, session)))
  end)).

(** The joiner up to the arrival of message 1. *)
Definition join_meet (code : str) (public_key : list byte) (local : addr_v4) (reflexive : option addr_v4) :
    Prog (result EstablishError unit) :=
  attempt (join code) (fun _ =>
  attempt (post_candidate_text code (KEY ++ encode_key public_key)) (fun _ =>
  attempt (publish_local_candidates code local reflexive) (fun _ =>
  post (PostAnswer code (Some (lit "lowband/1 answer"))) 200))).

Definition establish_join {S} (code : str) (public_key : list byte) (local : addr_v4)
    (reflexive : option addr_v4) (accept : str -> result SessionError S) : Prog (result EstablishError S) :=
  attempt (join_meet code public_key local reflexive) (fun _ =>
  Ret (match accept code with Ok s => Ok s | Err e => Err (SessionFailed e) end)).

(** ** Running *)

(** One side alone, from a time on. *)
Fixpoint run {A} (a : Service) (now : N) (p : Prog A) : Service * A :=
  match p with
  | Ret v => (a, v)
  | Ask r k => let '(a, resp) := spec_serve a now r in run a now (k resp)
  end.

Definition names (c : str) (r : Request) : Prop :=
  match r with
  | PostSession => False
  | GetJoin c' | GetAnswer c' | PostOffer c' _ | PostAnswer c' _ | PostCandidate c' _ | PostConnected c' => c' = c
  end.

(** The two sides and everybody else, in any order, at any time.  The others do
    not know the code, and the service does not hand it out again. *)
Inductive step {A B} (c : str) : Service * Prog A * Prog B -> Service * Prog A * Prog B -> Prop :=
| step_host a now r k j :
    step c (a, Ask r k, j) (fst (spec_serve a now r), k (snd (spec_serve a now r)), j)
| step_join a now h r k :
    step c (a, h, Ask r k) (fst (spec_serve a now r), h, k (snd (spec_serve a now r)))
| step_other a now h j r :
    ~ names c r -> (r = PostSession -> dec9 (next_code a) <> c) ->
    step c (a, h, j) (fst (spec_serve a now r), h, j).
End establish.

(** ** Lemmas: texts *)
Section texts.
Implicit Types (s rest : str) (a : addr_v4).

Definition ends_number rest : Prop := match rest with c :: _ => in_range 0x30 0x39 c = false | [] => True end.

Lemma span_app s rest :
  Forall (fun c => in_range 0x30 0x39 c = true) s -> ends_number rest -> span_digits (s ++ rest) = (s, rest).
Proof.
  intros Hs Hr. induction Hs as [|c s Hc _ IH].
  - destruct rest as [|c rest]; [done|]. cbn. unfold ends_number in Hr. by rewrite Hr.
  - cbn [app span_digits]. by rewrite Hc, IH.
Qed.

Lemma decimal_in_range n : Forall (fun c => in_range 0x30 0x39 c = true) (decimal n).
Proof.
  eapply List.Forall_impl, (decimal_digits n). intros c (d & Hd & ->). apply in_range_true.
  unfold digit_char. destruct (N.ltb_spec d 10); lia.
Qed.

(** The shape of an octet's text. *)
Lemma octet_shape n :
  n < 256 -> (length (decimal n) <= 3)%nat /\ (head (decimal n) = Some 0x30 -> length (decimal n) = 1%nat).
Proof.
  intros Hn. assert (Hall : forallb (fun k => (length (decimal k) <=? 3)%nat &&
    (negb (bool_decide (head (decimal k) = Some 0x30)) || (length (decimal k) =? 1)%nat)) (map N.of_nat (seq 0 256)) = true)
    by (by vm_compute).
  rewrite List.forallb_forall in Hall. specialize (Hall n). rewrite andb_true_iff, orb_true_iff, negb_true_iff in Hall.
  destruct Hall as [H1 H2]; [apply in_map_iff; exists (N.to_nat n); split; [lia|apply in_seq; lia]|].
  split; [by apply Nat.leb_le|]. intros Hh. destruct H2 as [H2|H2]; [|by apply Nat.eqb_eq].
  apply bool_decide_eq_false in H2. done.
Qed.

Lemma read_octet n rest :
  n < 256 -> ends_number rest -> read_number 8 (Some 3%nat) false (decimal n ++ rest) = Some (n, rest).
Proof.
  intros Hn Hr. unfold read_number. rewrite span_app by (apply decimal_in_range || done).
  rewrite bool_decide_false by apply format_nonempty. destruct (octet_shape n Hn) as [H1 H2].
  rewrite (proj2 (Nat.ltb_ge 3 _)) by done. cbn [negb andb].
  replace (bool_decide (head (decimal n) = Some 0x30) && (1 <? length (decimal n))%nat) with false.
  - unfold decimal. by rewrite (parse_format_digits 8 10 n).
  - symmetry. case_bool_decide as Hh; [|done]. rewrite (H2 Hh). done.
Qed.

Lemma read_port n rest :
  n < 2 ^ 16 -> ends_number rest -> read_number 16 None true (decimal n ++ rest) = Some (n, rest).
Proof.
  intros Hn Hr. unfold read_number. rewrite span_app by (apply decimal_in_range || done).
  rewrite bool_decide_false by apply format_nonempty. cbn [negb andb]. unfold decimal. by rewrite (parse_format_digits 16 10 n).
Qed.

Lemma read_show a : v4_ok a -> read_v4 (show_v4 a) = Some (a, []).
Proof.
  destruct a as [os p]. intros (Hl & Ho & Hp). cbn [fst snd] in *.
  destruct os as [|a [|b [|c [|d [|? ?]]]]]; try done. clear Hl.
  apply Forall_cons in Ho as [Ha Ho]. apply Forall_cons in Ho as [Hb Ho]. apply Forall_cons in Ho as [Hc Ho].
  apply Forall_cons in Ho as [Hd _].
  unfold show_v4, read_v4. cbn [fst snd join_octets]. rewrite <- !app_assoc. cbn [app]. rewrite <- !app_assoc. cbn [app].
  rewrite <- !app_assoc. cbn [app].
  rewrite read_octet by done. cbn [mbind option_bind read_char]. rewrite N.eqb_refl. cbn [mbind option_bind].
  rewrite read_octet by done. cbn [mbind option_bind read_char]. rewrite N.eqb_refl. cbn [mbind option_bind].
  rewrite read_octet by done. cbn [mbind option_bind read_char]. rewrite N.eqb_refl. cbn [mbind option_bind].
  rewrite read_octet by done. cbn [mbind option_bind read_char]. rewrite N.eqb_refl. cbn [mbind option_bind].
  rewrite <- (app_nil_r (decimal p)). by rewrite read_port.
Qed.

Lemma parse_show parse_v6 a : v4_ok a -> parse_addr parse_v6 (show_v4 a) = Some (V4 a).
Proof. intros Ha. unfold parse_addr. by rewrite read_show. Qed.

Lemma hex_pair (b : byte) : exists x y,
  as_bytes (digits 16 2 (Byte.to_N b)) = [x; y] /\
  exists hi lo, to_digit 16 (Byte.to_N x) = Some hi /\ to_digit 16 (Byte.to_N y) = Some lo /\ byte_of (16 * hi + lo) = b.
Proof. destruct b; eexists _, _; (split; [vm_compute; reflexivity|]); eexists _, _; (split; [vm_compute; reflexivity|]); (split; [vm_compute; reflexivity|]); vm_compute; reflexivity. Qed.

Lemma decode_encode_key (key : list byte) : length key = 32%nat -> decode_key (encode_key key) = Some key.
Proof.
  intros Hl. unfold decode_key, encode_key.
  assert (Hb : forall k, length (as_bytes (hex k)) = (2 * length k)%nat /\ decode_pairs (as_bytes (hex k)) = Some k).
  { induction k as [|b k [IH1 IH2]]; [done|]. unfold hex. cbn [map concat]. fold (hex k). rewrite as_bytes_app.
    destruct (hex_pair b) as (x & y & -> & hi & lo & H1 & H2 & H3). cbn [app length decode_pairs]. split; [lia|].
    rewrite H1, H2. cbn [mbind option_bind]. rewrite IH2. cbn [mbind option_bind]. by rewrite H3. }
  destruct (Hb key) as [H1 H2]. unfold lenN. rewrite H1, Hl. exact H2.
Qed.
End texts.

(** ** Lemmas: what the host makes of the candidates it sees *)
Section meeting.
Context (parse_v6 : str -> option SocketAddr) (c : str) (own theirs : list addr_v4) (pk : list byte).
Context (Hown : Forall v4_ok own) (Htheirs : Forall v4_ok theirs) (Hpk : length pk = 32%nat).

Definition udp_texts (addrs : list addr_v4) : list str := map (fun a => UDP ++ show_v4 a) addrs.
Definition key_text : str := KEY ++ encode_key pk.
Definition join_texts : list str := key_text :: udp_texts theirs.

(** The candidates that are not the host's own, and those the joiner has posted
    so far. *)
Definition visible (cs : list str) : list str := filter (fun t => t ∉ udp_texts own) cs.
Definition seen (cs : list str) : Prop := visible cs `prefix_of` visible join_texts.

(** What the host is to find. *)
Definition target : option addr_v4 := head (filter (fun a => a ∉ own) theirs).

Lemma omap_visible {A} (g : str -> option A) cs :
  (forall t, t ∈ udp_texts own -> g t = None) -> omap g cs = omap g (visible cs).
Proof.
  intros Hg. unfold visible. induction cs as [|t cs IH]; [done|]. rewrite filter_cons. cbn [omap list_omap].
  destruct (decide (t ∉ udp_texts own)) as [Hn|Hn].
  - cbn [omap list_omap]. by rewrite IH.
  - assert (Ht : t ∈ udp_texts own) by (by apply dec_stable). rewrite (Hg t Ht). exact IH.
Qed.

Lemma omap_prefix {A} (g : str -> option A) l1 l2 : l1 `prefix_of` l2 -> omap g l1 `prefix_of` omap g l2.
Proof. intros [l ->]. rewrite omap_app. by exists (omap g l). Qed.

Lemma head_prefix {A} (l1 l2 : list A) : l1 `prefix_of` l2 -> head l1 = None \/ head l1 = head l2.
Proof. intros [l ->]. destruct l1; [by left|by right]. Qed.

Lemma find_seen {A} prefix (parse : str -> option A) cs :
  (forall t, t ∈ udp_texts own -> (v ← strip_prefix prefix t; parse v) = None) -> seen cs ->
  find_candidate prefix parse cs = None \/ find_candidate prefix parse cs = find_candidate prefix parse join_texts.
Proof.
  intros Hg Hs. unfold find_candidate. rewrite (omap_visible _ cs Hg), (omap_visible _ join_texts Hg).
  apply head_prefix. by apply omap_prefix.
Qed.

Lemma key_not_udp (s : str) : strip_prefix KEY (UDP ++ s) = None /\ strip_prefix UDP (KEY ++ s) = None.
Proof. split; done. Qed.

Lemma find_key cs : seen cs ->
  find_candidate KEY decode_key cs = None \/ find_candidate KEY decode_key cs = Some pk.
Proof.
  intros Hs. destruct (find_seen KEY decode_key cs) as [H|H]; [|done|by left|].
  - intros t [a [-> _]]%list_elem_of_fmap. by rewrite (proj1 (key_not_udp _)).
  - right. rewrite H. unfold find_candidate, join_texts, key_text. cbn [omap list_omap].
    rewrite strip_prefix_app. cbn [mbind option_bind]. by rewrite decode_encode_key.
Qed.

Lemma not_own_show a : v4_ok a ->
  not_own parse_v6 own (show_v4 a) = if decide (a ∈ own) then None else Some (V4 a).
Proof.
  intros Ha. unfold not_own. rewrite parse_show by done. cbn [mbind option_bind].
  destruct (decide (a ∈ own)) as [Hin|Hin].
  - rewrite bool_decide_true; [done|]. by apply list_elem_of_fmap_2.
  - rewrite bool_decide_false; [done|]. intros (a' & [= ->] & Hin')%list_elem_of_fmap. done.
Qed.

Lemma find_theirs addrs : Forall v4_ok addrs ->
  omap (fun t => v ← strip_prefix UDP t; not_own parse_v6 own v) (udp_texts addrs) = map V4 (filter (fun a => a ∉ own) addrs).
Proof.
  induction 1 as [|a addrs Ha _ IH]; [done|]. unfold udp_texts in *. cbn [map omap list_omap].
  rewrite strip_prefix_app. cbn [mbind option_bind]. rewrite not_own_show, filter_cons by done.
  destruct (decide (a ∈ own)) as [Hin|Hin].
  - rewrite decide_False; [exact IH|]. intros Hn. by apply Hn.
  - rewrite decide_True by done. cbn [map]. f_equal. exact IH.
Qed.

Lemma find_addr cs : seen cs ->
  find_candidate UDP (not_own parse_v6 own) cs = None \/
  exists a, target = Some a /\ find_candidate UDP (not_own parse_v6 own) cs = Some (V4 a).
Proof.
  intros Hs. destruct (find_seen UDP (not_own parse_v6 own) cs) as [H|H]; [|done|by left|].
  - intros t [a [-> Ha]]%list_elem_of_fmap. rewrite strip_prefix_app. cbn [mbind option_bind].
    rewrite Forall_forall in Hown. rewrite not_own_show by auto. by rewrite decide_True.
  - unfold find_candidate in H at 2. unfold join_texts, key_text in H. cbn [omap list_omap] in H.
    rewrite (proj2 (key_not_udp _)) in H. cbn [mbind option_bind] in H.
    pose proof (find_theirs theirs Htheirs) as Ht. rewrite Ht in H. unfold target.
    destruct (filter _ theirs) as [|a l]; [by left|]. right. by exists a.
Qed.
End meeting.

(** ** Lemmas: the interleaving, by what each side relies on and guarantees *)
Section rely_guarantee.
Context (parse_v6 : str -> option SocketAddr) (c : str) (own theirs : list addr_v4) (pk : list byte).
Context (Hown : Forall v4_ok own) (Htheirs : Forall v4_ok theirs) (Hpk : length pk = 32%nat).

#[local] Abbreviation seen := (seen own theirs pk).
#[local] Abbreviation visible := (visible own).
#[local] Abbreviation join_texts := (join_texts theirs pk).

(** The host asks only for its own posts and for the candidates; whatever it is
    told of them that is the joiner's, its result satisfies [Q]. *)
Inductive safe {A} (Q : A -> Prop) : Prog A -> Prop :=
| safe_ret a : Q a -> safe Q (Ret a)
| safe_offer sdp k : (forall resp, safe Q (k resp)) -> safe Q (Ask (PostOffer c sdp) k)
| safe_candidate t k : t ∈ udp_texts own -> (forall resp, safe Q (k resp)) -> safe Q (Ask (PostCandidate c t) k)
| safe_join k :
    (forall resp, match resp with Joined _ cs => seen cs | _ => True end -> safe Q (k resp)) ->
    safe Q (Ask (GetJoin c) k).

Lemma safe_bind {A B} (Q : A -> Prop) (R : B -> Prop) p (f : A -> Prog B) :
  safe Q p -> (forall a, Q a -> safe R (f a)) -> safe R (bind p f).
Proof.
  intros Hp Hf. induction Hp; cbn [bind]; [by apply Hf|..].
  - apply safe_offer. auto.
  - apply safe_candidate; auto.
  - apply safe_join. auto.
Qed.

Lemma safe_impl {A} (Q R : A -> Prop) p : (forall a, Q a -> R a) -> safe Q p -> safe R p.
Proof. intros HQ. induction 1; [apply safe_ret; auto|apply safe_offer; auto|apply safe_candidate; auto|apply safe_join; auto]. Qed.

Definition ok_is {A} (Q : A -> Prop) (r : result EstablishError A) : Prop := match r with Ok a => Q a | Err _ => True end.

Lemma safe_attempt {A B} (Q : A -> Prop) (R : B -> Prop) p (f : A -> Prog (result EstablishError B)) :
  safe (ok_is Q) p -> (forall a, Q a -> safe (ok_is R) (f a)) -> safe (ok_is R) (attempt p f).
Proof. intros Hp Hf. eapply safe_bind; [exact Hp|]. intros [a|e] Ha; [by apply Hf|by apply safe_ret]. Qed.

Lemma safe_publish addrs o :
  (forall a, a ∈ addrs -> a ∈ own) -> safe (ok_is (fun x => x = o)) (publish c addrs o).
Proof.
  induction addrs as [|a addrs IH]; intros Ha; cbn [publish]; [by apply safe_ret|].
  eapply (safe_attempt (fun _ => True)).
  - apply safe_candidate; [apply list_elem_of_fmap; exists a; split; [done|apply Ha; set_solver]|].
    intros resp. apply safe_ret. by case_match.
  - intros _ _. apply IH. intros. apply Ha. set_solver.
Qed.

Lemma safe_wait {A} (Q : A -> Prop) prefix parse more what :
  (forall cs, seen cs -> find_candidate prefix parse cs = None \/ exists a, Q a /\ find_candidate prefix parse cs = Some a) ->
  safe (ok_is Q) (wait_for more what (peer_candidate c prefix parse)).
Proof.
  intros Hf. assert (Hpoll : safe (fun r => match r with Some a => Q a | None => True end) (@peer_candidate A c prefix parse)).
  { unfold peer_candidate, join. apply safe_join. intros resp Hr. apply safe_ret.
    assert (Hno : match find_candidate prefix parse [] with Some a => Q a | None => True end) by done.
    destruct resp; try (case_match; [done|by case_ifs]). destruct (Hf _ Hr) as [->|(a & Ha & ->)]; done. }
  induction more as [|more IH]; cbn [wait_for]; (eapply safe_bind; [exact Hpoll|]); intros [a|] Ha; try (by apply safe_ret); exact IH.
Qed.

Lemma safe_host local reflexive polls :
  own = own_addrs local reflexive ->
  safe (ok_is (fun r => fst r = pk /\ exists a, target own theirs = Some a /\ snd r = V4 a))
    (host_meet parse_v6 c local reflexive polls).
Proof.
  intros Ho. unfold host_meet, host_offer, publish_local_candidates, host_wait.
  eapply (safe_attempt (fun o => o = own)).
  - eapply (safe_attempt (fun _ => True)).
    { apply safe_offer. intros resp. apply safe_ret. by case_match. }
    intros _ _. rewrite <- Ho. by apply safe_publish.
  - intros o ->. eapply (safe_attempt (fun k => k = pk)).
    { apply safe_wait. intros cs Hs. destruct (find_key own theirs pk Hpk cs Hs) as [->| ->]; [by left|]. right. by exists pk. }
    intros k ->. eapply (safe_attempt (fun x => exists a, target own theirs = Some a /\ x = V4 a)).
    { apply safe_wait. intros cs Hs. destruct (find_addr parse_v6 own theirs pk Hown Htheirs cs Hs) as [->|(a & Ha & ->)]; [by left|].
      right. exists (V4 a). split; [|done]. by exists a. }
    intros x Hx. apply safe_ret. by split.
Qed.

(** The joiner posts its texts in order, and stops at the first refusal. *)
Inductive posts {A} : list str -> Prog A -> Prop :=
| posts_ret ts a : posts ts (Ret a)
| posts_candidate t ts k :
    (forall resp, resp = ACCEPTED -> posts ts (k resp)) ->
    (forall resp, resp <> ACCEPTED -> exists a, k resp = Ret a) ->
    posts (t :: ts) (Ask (PostCandidate c t) k)
| posts_join ts k : (forall resp, posts ts (k resp)) -> posts ts (Ask (GetJoin c) k)
| posts_answer ts sdp k : (forall resp, posts ts (k resp)) -> posts ts (Ask (PostAnswer c sdp) k).

Lemma posts_publish {B} addrs o ts (f : list addr_v4 -> Prog (result EstablishError B)) :
  posts ts (f o) -> posts (udp_texts addrs ++ ts) (attempt (publish c addrs o) f).
Proof.
  intros Hf. induction addrs as [|a addrs IH]; [exact Hf|]. cbn [udp_texts map app publish].
  unfold post_candidate_text, post, attempt. cbn [bind]. apply posts_candidate.
  - intros resp ->. exact IH.
  - intros resp Hne. destruct (N.eqb_spec (status_of resp) 202) as [He|He]; [|by eexists].
    destruct resp; try done. cbn in He. by subst.
Qed.

Lemma posts_join_meet local reflexive :
  theirs = own_addrs local reflexive -> posts join_texts (join_meet c pk local reflexive).
Proof.
  intros Ht. unfold join_meet, join, attempt at 1. cbn [bind]. apply posts_join. intros resp.
  assert (Hgo : posts join_texts (attempt (post_candidate_text c (KEY ++ encode_key pk)) (fun _ =>
    attempt (publish_local_candidates c local reflexive) (fun _ => post (PostAnswer c (Some (lit "lowband/1 answer"))) 200)))).
  { unfold post_candidate_text, post at 1, attempt at 1. cbn [bind]. apply posts_candidate.
    - intros r ->. unfold publish_local_candidates. rewrite <- Ht, <- (app_nil_r (udp_texts theirs)).
      apply posts_publish. apply posts_answer. intros. apply posts_ret.
    - intros r Hne. destruct (N.eqb_spec (status_of r) 202) as [He|He]; [|by eexists].
      destruct r; try done. cbn in He. by subst. }
  destruct resp; cbn -[attempt]; try exact Hgo; case_ifs; exact Hgo || apply posts_ret.
Qed.

(** ** The invariant of a run *)
Record inv {A B} (Q : A -> Prop) (cfg : Service * Prog A * Prog B) : Prop := {
  inv_host : safe Q (snd (fst cfg));
  inv_join : exists sent ts, join_texts = sent ++ ts /\ posts ts (snd cfg) /\
    forall m, boxes (fst (fst cfg)) !! c = Some m -> visible (box_candidates m) = visible sent }.

Lemma visible_app l1 l2 : visible (l1 ++ l2) = visible l1 ++ visible l2.
Proof. apply filter_app. Qed.

Lemma visible_own t : t ∈ udp_texts own -> visible [t] = [].
Proof. intros Ht. unfold visible, Establish.visible. rewrite filter_cons, decide_False; [done|]. intros Hn. by apply Hn. Qed.

(** A request that posts no candidate leaves the candidates of the box alone. *)
Lemma serve_candidates a now r m' :
  (r = PostSession -> dec9 (next_code a) <> c) ->
  boxes (fst (spec_serve a now r)) !! c = Some m' ->
  exists m, boxes a !! c = Some m /\
    box_candidates m' = box_candidates m ++
      match r with
      | PostCandidate c' t => if decide (c' = c) then match live_box a now c with Some _ => [t] | None => [] end else []
      | _ => []
      end.
Proof.
  intros Hs Hm.
  assert (Hput : forall c' m0 m1, live_box a now c' = Some m0 -> (boxes (put_box a c' m1) !! c) = Some m' ->
    (c' = c /\ m' = m1 /\ boxes a !! c = Some m0) \/ (c' <> c /\ boxes a !! c = Some m')).
  { intros c' m0 m1 Hl. apply live_box_Some in Hl. cbn [put_box boxes].
    intros [[<- <-]|[Hne H]]%lookup_insert_Some; [by left|by right]. }
  destruct r as [|c'|c'|c' sdp|c' sdp|c' t|c']; cbn [spec_serve] in Hm.
  - cbn [fst boxes] in Hm. apply lookup_insert_Some in Hm as [[He _]|[_ Hm]]; [by apply Hs in He|].
    exists m'. by rewrite app_nil_r.
  - exists m'. rewrite app_nil_r. destruct (live_box a now c'); [done|]. cbn [fst drop_box boxes] in Hm.
    apply lookup_delete_Some in Hm as [_ Hm]. done.
  - exists m'. rewrite app_nil_r. by destruct (live_box a now c').
  - destruct (live_box a now c') as [m0|] eqn:Hl; [|exists m'; by rewrite app_nil_r].
    destruct (Hput _ _ _ Hl Hm) as [(-> & -> & Hb)|[_ Hb]]; [exists m0|exists m']; by rewrite app_nil_r.
  - destruct (live_box a now c') as [m0|] eqn:Hl; [|exists m'; by rewrite app_nil_r].
    destruct sdp as [sdp|]; [|exists m'; by rewrite app_nil_r].
    destruct (Hput _ _ _ Hl Hm) as [(-> & -> & Hb)|[_ Hb]]; [exists m0|exists m']; by rewrite app_nil_r.
  - destruct (live_box a now c') as [m0|] eqn:Hl.
    + destruct (Hput _ _ _ Hl Hm) as [(-> & -> & Hb)|[Hne Hb]].
      * exists m0. split; [done|]. rewrite decide_True, Hl by done. done.
      * exists m'. by rewrite decide_False, app_nil_r.
    + exists m'. split; [done|]. destruct (decide (c' = c)) as [->|]; [rewrite Hl|]; by rewrite app_nil_r.
  - exists m'. rewrite app_nil_r. destruct (live_box a now c') as [m0|]; [|done]. cbn [fst drop_box boxes] in Hm.
    apply lookup_delete_Some in Hm as [_ Hm]. done.
Qed.

Lemma live_seen a now m sent ts :
  join_texts = sent ++ ts -> live_box a now c = Some m -> visible (box_candidates m) = visible sent ->
  seen (box_candidates m).
Proof.
  intros Hj _ Hv. unfold Establish.seen. rewrite Hv, Hj, visible_app. by eexists.
Qed.

Lemma inv_step {A B} (Q : A -> Prop) (x y : Service * Prog A * Prog B) : step c x y -> inv Q x -> inv Q y.
Proof.
  intros Hstep [Hh (sent & ts & Hj & Hp & Hb)].
  destruct Hstep as [a now r k j|a now h r k|a now h j r Hn Hs]; cbn [fst snd] in *.
  - inversion Hh as [|sdp k' Hk|t k' Ht Hk|k' Hk]; subst; clear Hh.
    + split; cbn [fst snd]; [apply Hk|]. exists sent, ts. split; [done|]. split; [done|]. intros m Hm.
      apply serve_candidates in Hm as (m0 & Hm0 & ->); [|done]. rewrite app_nil_r. by apply Hb.
    + split; cbn [fst snd]; [apply Hk|]. exists sent, ts. split; [done|]. split; [done|]. intros m Hm.
      apply serve_candidates in Hm as (m0 & Hm0 & ->); [|done]. rewrite visible_app, (Hb _ Hm0).
      rewrite decide_True by done. destruct (live_box a now c); [rewrite visible_own by done|]; apply app_nil_r.
    + split; cbn [fst snd].
      * apply Hk. cbn [spec_serve]. destruct (live_box a now c) as [m|] eqn:Hl; [|done]. cbn [snd].
        eapply live_seen; [exact Hj|exact Hl|]. apply Hb. by eapply live_box_Some.
      * exists sent, ts. split; [done|]. split; [done|]. intros m Hm.
        apply serve_candidates in Hm as (m0 & Hm0 & ->); [|done]. rewrite app_nil_r. by apply Hb.
  - split; cbn [fst snd]; [done|]. inversion Hp as [|t ts' k' Hk Hk'|ts' k' Hk|ts' sdp k' Hk]; subst; clear Hp.
    + destruct (live_box a now c) as [m0|] eqn:Hl; cbn [spec_serve]; rewrite Hl; cbn [fst snd].
      * exists (sent ++ [t]), ts'. rewrite <- app_assoc. split; [done|]. split; [by apply Hk|]. intros m Hm.
        apply live_box_Some in Hl. cbn [put_box boxes] in Hm. rewrite lookup_insert_eq in Hm. injection Hm as <-.
        cbn [box_candidates]. by rewrite !visible_app, (Hb _ Hl).
      * exists sent, (t :: ts'). split; [done|]. split; [|done].
        destruct (Hk' NOT_FOUND ltac:(done)) as [v ->]. apply posts_ret.
    + exists sent, ts. split; [done|]. split; [apply Hk|]. intros m Hm.
      apply serve_candidates in Hm as (m0 & Hm0 & ->); [|done]. rewrite app_nil_r. by apply Hb.
    + exists sent, ts. split; [done|]. split; [apply Hk|]. intros m Hm.
      apply serve_candidates in Hm as (m0 & Hm0 & ->); [|done]. rewrite app_nil_r. by apply Hb.
  - split; cbn [fst snd]; [done|]. exists sent, ts. split; [done|]. split; [done|]. intros m Hm.
    apply serve_candidates in Hm as (m0 & Hm0 & ->); [|done].
    destruct r; rewrite ?app_nil_r; try by apply Hb.
    rewrite decide_False by (intros ->; by apply Hn). rewrite app_nil_r. by apply Hb.
Qed.

Lemma inv_run {A B} (Q : A -> Prop) (x y : Service * Prog A * Prog B) : rtc (step c) x y -> inv Q x -> inv Q y.
Proof. induction 1; [done|]. eauto using inv_step. Qed.
End rely_guarantee.

(** ** Lemmas: a run in which nobody interferes *)
Section undisturbed.
Context (c : str) (now : N).

(** The box is open and holds these candidates. *)
Definition holds (a : Service) (cs : list str) : Prop :=
  exists m, live_box a now c = Some m /\ box_candidates m = cs.

Lemma holds_put a m m' cs :
  live_box a now c = Some m -> expires m' = expires m -> box_candidates m' = cs -> holds (put_box a c m') cs.
Proof.
  intros Hl He Hc. exists m'. split; [|done]. unfold live_box in *. cbn [put_box boxes].
  rewrite lookup_insert_eq. cbn [mbind option_bind]. destruct (boxes a !! c) as [m0|] eqn:Hm; [|done].
  cbn [mbind option_bind] in Hl. destruct (now <? expires m0) eqn:Hlt; [|done]. injection Hl as ->. by rewrite He, Hlt.
Qed.

Lemma run_attempt {A B} a (p : Prog (result EstablishError A)) (f : A -> Prog (result EstablishError B)) a' v :
  run a now p = (a', Ok v) -> run a now (attempt p f) = run a' now (f v).
Proof.
  revert a. induction p as [x|r k IH]; intros a; cbn [run attempt bind].
  - by intros [= -> ->].
  - destruct (spec_serve a now r) as [a1 resp]. apply IH.
Qed.

Lemma run_publish a cs addrs o :
  holds a cs -> exists a', run a now (publish c addrs o) = (a', Ok o) /\ holds a' (cs ++ udp_texts addrs).
Proof.
  revert a cs. induction addrs as [|x addrs IH]; intros a cs Hh; [exists a; by rewrite app_nil_r|].
  destruct Hh as (m & Hl & Hc). cbn [publish].
  assert (Hp : exists a', run a now (post_candidate_text c (UDP ++ show_v4 x)) = (a', Ok tt) /\ holds a' (cs ++ [UDP ++ show_v4 x])).
  { unfold post_candidate_text, post. cbn [run spec_serve]. rewrite Hl. eexists. split; [reflexivity|].
    eapply holds_put; [exact Hl|done|by rewrite <- Hc]. }
  destruct Hp as (a1 & Hp & H1). rewrite (run_attempt _ _ _ _ _ Hp).
  destruct (IH a1 _ H1) as (a2 & H2 & H3). exists a2. split; [exact H2|]. cbn [udp_texts map]. by rewrite <- app_assoc in H3.
Qed.

Lemma run_host_offer a cs local reflexive :
  holds a cs -> exists a', run a now (host_offer c local reflexive) = (a', Ok (own_addrs local reflexive)) /\
    holds a' (cs ++ udp_texts (own_addrs local reflexive)).
Proof.
  intros (m & Hl & Hc). unfold host_offer.
  assert (Hp : exists a', run a now (post (PostOffer c (lit "lowband/1 offer")) 200) = (a', Ok tt) /\ holds a' cs).
  { unfold post. cbn [run spec_serve]. rewrite Hl. eexists. split; [reflexivity|]. by eapply holds_put. }
  destruct Hp as (a1 & Hp & H1). rewrite (run_attempt _ _ _ _ _ Hp). by apply run_publish.
Qed.

Lemma run_join_meet a cs pk local reflexive :
  holds a cs -> exists a', run a now (join_meet c pk local reflexive) = (a', Ok tt) /\
    holds a' (cs ++ key_text pk :: udp_texts (own_addrs local reflexive)).
Proof.
  intros (m & Hl & Hc). unfold join_meet.
  assert (H0 : exists v, run a now (join c) = (a, Ok v)).
  { unfold join. cbn [run spec_serve]. rewrite Hl. by eexists. }
  destruct H0 as (v & H0). rewrite (run_attempt _ _ _ _ _ H0).
  assert (Hp : exists a', run a now (post_candidate_text c (KEY ++ encode_key pk)) = (a', Ok tt) /\ holds a' (cs ++ [key_text pk])).
  { unfold post_candidate_text, post. cbn [run spec_serve]. rewrite Hl. eexists. split; [reflexivity|].
    eapply holds_put; [exact Hl|done|by rewrite <- Hc]. }
  destruct Hp as (a1 & Hp & H1). rewrite (run_attempt _ _ _ _ _ Hp).
  destruct (run_publish a1 _ (own_addrs local reflexive) (own_addrs local reflexive) H1) as (a2 & H2 & H3).
  unfold publish_local_candidates. rewrite (run_attempt _ _ _ _ _ H2).
  destruct H3 as (m3 & Hl3 & Hc3). unfold post. cbn [run spec_serve]. rewrite Hl3. eexists. split; [reflexivity|].
  eapply holds_put; [exact Hl3|done|]. cbn [box_candidates]. rewrite Hc3, <- app_assoc. done.
Qed.

Lemma run_wait {A} a cs prefix (parse : str -> option A) v more what :
  holds a cs -> find_candidate prefix parse cs = Some v ->
  run a now (wait_for more what (peer_candidate c prefix parse)) = (a, Ok v).
Proof.
  intros (m & Hl & <-) Hf.
  destruct more; cbn [wait_for]; unfold peer_candidate, join; cbn [bind run spec_serve]; rewrite Hl; cbn [run bind];
    by rewrite Hf.
Qed.
End undisturbed.

(** ** A whole call: the host opens, the joiner enters the code, the host finds
    the joiner and the handshake runs.

    [reaches a]: a datagram the host sends to [a] arrives at the joiner's socket,
    whose reply goes back to where it came from.  A message that does not arrive
    leaves both ends to their read timeouts. *)
Section call.
Context `{Primitives} (parse_v6 : str -> option SocketAddr) (reaches : SocketAddr -> bool).

Definition handshake (ki kr : StaticKeypair) (peer_pub ei er : list byte) (code : str) (now : N) :
    result SessionError (SecureSession * SecureSession) :=
  let '(i, msg1) := connect_send ki peer_pub code ei in
  '(r, msg2) ← accept kr code msg1 er now;
  i ← connect_recv i ki msg2 now;
  Ok (i, r).

Definition call (a : Service) (now : N) (si sr ei er : list byte) (lh lj : addr_v4) (rh rj : option addr_v4)
    (polls : nat * nat) : Service * result EstablishError (str * SocketAddr * (SecureSession * SecureSession)) :=
  let kr := generate sr in
  let '(a, code) := run a now create_session in
  match code with
  | Err e => (a, Err e)
  | Ok code =>
      let '(a, own) := run a now (host_offer code lh rh) in
      let '(a, joined) := run a now (join_meet code (public kr) lj rj) in
      match own, joined with
      | Ok own, Ok _ =>
          let '(a, met) := run a now (host_wait parse_v6 code own polls) in
          match met with
          | Err e => (a, Err e)
          | Ok (peer_pub, peer_addr) =>
              match (if reaches peer_addr then handshake (generate si) kr peer_pub ei er code now else Err Io) with
              | Err e => (a, Err (SessionFailed e))
              | Ok sessions =>
                  let '(a, evicted) := run a now (post (PostConnected code) 200) in
                  match evicted with Ok _ => (a, Ok (code, peer_addr, sessions)) | Err e => (a, Err e) end
              end
          end
      | Err e, _ => (a, Err e)
      | _, Err e => (a, Err e)
      end
  end.
End call.

Lemma target_local own local reflexive :
  local ∉ own -> target own (own_addrs local reflexive) = Some local.
Proof. intros Hn. unfold target, own_addrs. by rewrite filter_cons, decide_True. Qed.

(** ** Properties *)

(** C22: In every interleaving of the host, the joiner and everybody else who does not
    know the code, whatever the clocks and however often the host polls: the key
    the host takes is the joiner's, and the address the joiner's first published
    one that is not also the host's - its local address, so that a reflexive
    address gathered from a STUN server is used only when the local addresses of
    the two ends have the same text. *)
Theorem host_meets_the_joiner (parse_v6 : str -> option SocketAddr) (c : str) (pk : list byte)
    (lh lj : addr_v4) (rh rj : option addr_v4) (polls : nat * nat) (a a' : Service) (m : Mailbox)
    (key : list byte) (addr : SocketAddr) (j : Prog (result EstablishError unit)) :
  Forall v4_ok (own_addrs lh rh) -> Forall v4_ok (own_addrs lj rj) -> length pk = 32%nat ->
  boxes a !! c = Some m -> box_candidates m = [] ->
  rtc (step c) (a, host_meet parse_v6 c lh rh polls, join_meet c pk lj rj) (a', Ret (Ok (key, addr)), j) ->
  key = pk /\
  (exists x, head (filter (fun x => x ∉ own_addrs lh rh) (own_addrs lj rj)) = Some x /\ addr = V4 x) /\
  (lj ∉ own_addrs lh rh -> addr = V4 lj).
Proof.
  intros Hh Hj Hpk Hm Hc Hrun.
  assert (Hstart : inv c (own_addrs lh rh) (own_addrs lj rj) pk
    (ok_is (fun r => fst r = pk /\ exists x, target (own_addrs lh rh) (own_addrs lj rj) = Some x /\ snd r = V4 x))
    (a, host_meet parse_v6 c lh rh polls, join_meet c pk lj rj)).
  { split; cbn [fst snd].
    - by apply (safe_host parse_v6 c _ (own_addrs lj rj) pk Hh Hj Hpk lh rh polls).
    - exists [], (join_texts (own_addrs lj rj) pk). split; [done|]. split; [by eapply posts_join_meet|].
      intros m' Hm'. rewrite Hm in Hm'. injection Hm' as <-. by rewrite Hc. }
  destruct (inv_run _ _ _ _ _ _ _ Hrun Hstart) as [Hsafe _]. cbn [fst snd] in Hsafe.
  inversion Hsafe as [x Hq| | |]; subst. destruct Hq as [Hk (x & Hx & He)]. cbn [fst snd] in *.
  split; [exact Hk|]. split; [by exists x|].
  intros Hn. rewrite He. f_equal. rewrite (target_local _ _ _ Hn) in Hx. by injection Hx.
Qed.

(** A run of the two sides one after the other, with 10.0.0.1:5000 for the host
    and 10.0.0.2:6000 for the joiner. *)
Definition code0 : str := dec9 100000000.
Definition addr_of (last port : N) : addr_v4 := ([10; 0; 0; last], port).
Definition service0 : Service := fst (run service_new 5 create_session).
Definition key0 : list byte := repeat Byte.x2a 32.
Definition meet0 := host_meet (fun _ => None) code0 (addr_of 1 5000) None (0%nat, 0%nat).
Definition join0 := join_meet code0 key0 (addr_of 2 6000) (Some (addr_of 9 7000)).

Lemma rtc_run_host {A B} c a now (p : Prog A) (j : Prog B) : rtc (step c) (a, p, j) (fst (run a now p), Ret (snd (run a now p)), j).
Proof.
  revert a. induction p as [v|r k IH]; intros a; cbn [run]; [done|].
  eapply rtc_l; [apply (step_host c a now)|]. destruct (spec_serve a now r) as [a1 resp]. apply IH.
Qed.

Lemma rtc_run_join {A B} c a now (h : Prog A) (p : Prog B) : rtc (step c) (a, h, p) (fst (run a now p), h, Ret (snd (run a now p))).
Proof.
  revert a. induction p as [v|r k IH]; intros a; cbn [run]; [done|].
  eapply rtc_l; [apply (step_join c a now)|]. destruct (spec_serve a now r) as [a1 resp]. apply IH.
Qed.

Lemma rtc_bind_host {A B C} c a now (p : Prog A) (f : A -> Prog B) (j : Prog C) :
  rtc (step c) (a, bind p f, j) (fst (run a now p), f (snd (run a now p)), j).
Proof.
  revert a. induction p as [v|r k IH]; intros a; cbn [run bind]; [done|].
  eapply rtc_l; [apply (step_host c a now)|]. destruct (spec_serve a now r) as [a1 resp]. apply IH.
Qed.

Lemma host_meets_the_joiner_witness :
  key0 = key0 /\ (exists x, head (filter (fun x => x ∉ own_addrs (addr_of 1 5000) None) (own_addrs (addr_of 2 6000) (Some (addr_of 9 7000)))) = Some x /\ V4 (addr_of 2 6000) = V4 x) /\
  (addr_of 2 6000 ∉ own_addrs (addr_of 1 5000) None -> V4 (addr_of 2 6000) = V4 (addr_of 2 6000)).
Proof.
  eapply (host_meets_the_joiner (fun _ => None) code0 key0 (addr_of 1 5000) (addr_of 2 6000) None (Some (addr_of 9 7000))
    (0%nat, 0%nat) service0 _ (mkMailbox 305 None None []) key0 (V4 (addr_of 2 6000)) _).
  - repeat (apply Forall_cons; split; [repeat split; repeat constructor|]). by apply Forall_nil.
  - repeat (apply Forall_cons; split; [repeat split; repeat constructor|]). by apply Forall_nil.
  - reflexivity.
  - vm_compute. reflexivity.
  - reflexivity.
  - etransitivity; [apply (rtc_bind_host code0 service0 6)|].
    etransitivity; [apply (rtc_run_join code0 _ 7)|]. etransitivity; [apply (rtc_run_host code0 _ 8)|].
    match goal with |- rtc _ ?x ?y => replace y with x; [reflexivity|] end. vm_compute. reflexivity.
Defined.

(** C23: From a join code to a session: with nobody in the way, and when the joiner
    publishes an address that is not also the host's, the call takes one poll of
    each kind on any service, and it is the network that decides.  If it carries
    what the host sends to the first such address to the joiner, the two ends hold
    sessions with the same transcript, know each other's static keys, open with the
    key the other seals with, and the code is withdrawn; if it does not, as with
    the unspecified address a socket bound to every interface publishes, the
    handshake times out and the code stays good. *)
Theorem join_code_to_session `{PrimitiveLaws} (parse_v6 : str -> option SocketAddr) (reaches : SocketAddr -> bool)
    (a : Service) (now : N)
    (si sr ei er : list byte) (lh lj x : addr_v4) (rh rj : option addr_v4) (polls : nat * nat) :
  Forall v4_ok (own_addrs lh rh) -> Forall v4_ok (own_addrs lj rj) ->
  head (filter (fun x => x ∉ own_addrs lh rh) (own_addrs lj rj)) = Some x ->
  let c := dec9 (next_code a) in
  let outcome := call parse_v6 reaches a now si sr ei er lh lj rh rj polls in
  (reaches (V4 x) = true ->
   exists a' host joiner,
    outcome = (a', Ok (c, V4 x, (host, joiner))) /\
    s_transcript_hash host = s_transcript_hash joiner /\
    s_remote_static_pubkey host = public (generate sr) /\ s_remote_static_pubkey joiner = public (generate si) /\
    RelayGuard.key (send_cipher host) = RelayGuard.key (recv_cipher joiner) /\
    RelayGuard.key (send_cipher joiner) = RelayGuard.key (recv_cipher host) /\
    boxes a' !! c = None) /\
  (reaches (V4 x) = false ->
   exists a', outcome = (a', Err (SessionFailed Io)) /\ is_Some (live_box a' now c)).
Proof.
  intros Hh Hj Hx c outcome. unfold outcome, call. clear outcome. cbn [run spec_serve create_session]. fold c.
  set (a0 := {| boxes := _; next_code := _ |}).
  assert (Hop : holds c now a0 []).
  { exists (mkMailbox (now + SESSION_TTL) None None []). split; [|done]. unfold live_box, a0. cbn [boxes].
    rewrite lookup_insert_eq. cbn [mbind option_bind expires].
    by rewrite (proj2 (N.ltb_lt now _)) by (unfold SESSION_TTL; lia). }
  destruct (run_host_offer c now a0 [] lh rh Hop) as (a1 & -> & Ho1).
  assert (Hpk : length (public (generate sr)) = 32%nat) by apply x25519_length.
  destruct (run_join_meet c now a1 _ (public (generate sr)) lj rj Ho1) as (a2 & -> & Ho2). cbn [app] in Ho2.
  set (cs := udp_texts (own_addrs lh rh) ++ key_text (public (generate sr)) :: udp_texts (own_addrs lj rj)) in *.
  assert (Hk : find_candidate KEY decode_key cs = Some (public (generate sr))).
  { unfold find_candidate, cs. rewrite omap_app. replace (omap _ (udp_texts _)) with (@nil (list byte)).
    - unfold key_text. cbn [app omap list_omap]. rewrite strip_prefix_app. cbn [mbind option_bind]. by rewrite decode_encode_key.
    - symmetry. generalize (own_addrs lh rh). intros l. by induction l as [|y l IH]. }
  assert (Ha : find_candidate UDP (not_own parse_v6 (own_addrs lh rh)) cs = Some (V4 x)).
  { unfold find_candidate, cs. rewrite omap_app, (find_theirs parse_v6 _ _ Hh).
    replace (filter _ (own_addrs lh rh)) with (@nil addr_v4).
    2: { symmetry. apply elem_of_nil_inv. intros y [Hn Hy]%list_elem_of_filter. by apply Hn. }
    cbn [map app]. cbn [omap list_omap]. unfold key_text. rewrite (proj2 (key_not_udp _)). cbn [mbind option_bind].
    pose proof (find_theirs parse_v6 (own_addrs lh rh) _ Hj) as Ht. cbn [omap] in Ht. rewrite Ht.
    destruct (filter _ (own_addrs lj rj)); [done|]. by injection Hx as ->. }
  unfold host_wait. rewrite (run_attempt _ _ _ _ _ _ (run_wait c now a2 cs KEY decode_key _ _ _ Ho2 Hk)).
  rewrite (run_attempt _ _ _ _ _ _ (run_wait c now a2 cs UDP _ _ _ _ Ho2 Ha)). cbn [run].
  destruct Ho2 as (m & Hl & _). split; intros Hreach; rewrite Hreach.
  - destruct (establish_keys si sr ei er c now now) as (sa & sb & He & E1 & E5 & _ & _ & E2 & E3 & E4).
    change (handshake (generate si) (generate sr) (public (generate sr)) ei er c now) with (establish si sr ei er c now now).
    rewrite He. unfold post. cbn [run spec_serve]. rewrite Hl. cbn -[drop_box].
    exists (drop_box a2 c), sa, sb. split_and!; try done. cbn [drop_box boxes]. apply lookup_delete_eq.
  - exists a2. split; [done|]. by exists m.
Qed.

(** A network on which the joiner's socket has that address. *)
Definition only (a : addr_v4) (x : SocketAddr) : bool := bool_decide (x = V4 a).

Lemma join_code_to_session_witness :
  exists a' host joiner,
    call (fun _ => None) (only (addr_of 2 6000)) service_new 5 (repeat Byte.x01 32) (repeat Byte.x02 32) (repeat Byte.x03 32)
      (repeat Byte.x04 32) (addr_of 1 5000) (addr_of 2 6000) None None (0%nat, 0%nat) =
      (a', Ok (code0, V4 (addr_of 2 6000), (host, joiner))) /\
    s_transcript_hash host = s_transcript_hash joiner.
Proof.
  destruct (join_code_to_session (fun _ => None) (only (addr_of 2 6000)) service_new 5 (repeat Byte.x01 32) (repeat Byte.x02 32)
    (repeat Byte.x03 32) (repeat Byte.x04 32) (addr_of 1 5000) (addr_of 2 6000) (addr_of 2 6000) None None (0%nat, 0%nat)) as [Hyes _].
  - repeat (apply Forall_cons; split; [repeat split; repeat constructor|]). by apply Forall_nil.
  - repeat (apply Forall_cons; split; [repeat split; repeat constructor|]). by apply Forall_nil.
  - vm_compute. reflexivity.
  - destruct Hyes as (a' & sa & sb & Hc & Ht & _); [by apply bool_decide_eq_true_2|].
    exists a', sa, sb. split; [exact Hc|exact Ht].
Defined.
