(* ===== verification/Mesh.v ===== *)
(** Group calls: [core/lowbandd/src/mesh.rs], on the rosters of the signaling
    client.

    The phases of [establish_mesh] are functions of the roster they see: who the
    peers are, what is published for each, where a peer is found, which side of a
    pair opens the handshake.  The threads that run the handshakes of the pairs
    share nothing, so they are not modelled; one handshake is that of
    SecureChannel. *)
From Stdlib Require Import Strings.String.
From S2P Require Import Prelude Text Numeral Signaling SigClient Establish.
#[local] Open Scope N_scope.

(** The derived [Ord] of strings is that of their bytes. *)
Definition str_lt (a b : str) : bool := key_lt (as_bytes a) (as_bytes b).

(** ** The phases of [establish_mesh] *)
Definition roster_full (group_size : N) (roster : list RoomParticipant) : bool := group_size <=? lenN roster.

Definition mesh_peers (me : str) (roster : list RoomParticipant) : list RoomParticipant :=
  sort_by (fun p => as_bytes (id p)) (peers me roster).

Definition want (me : str) : str := lit "mesh:" ++ me ++ lit ":udp:".

(** One socket per peer, its address published under the peer's name. *)
Definition mesh_posts (peers : list RoomParticipant) (sockets : list addr_v4) : list str :=
  zip_with (fun p a => want (id p) ++ show_v4 a) peers sockets.

Section resolve.
Context (parse_v6 : str -> option SocketAddr).

Definition peer_address (me pid : str) (roster : list RoomParticipant) : option SocketAddr :=
  pp ← head (filter (fun p => id p = pid) roster);
  find_candidate (want me) (parse_addr parse_v6) (candidates pp).
End resolve.

Definition peer_key (p : RoomParticipant) : result EstablishError (list byte) :=
  ok_or (Timeout (lit "peer static key (malformed)")) (decode_key (pubkey p)).

(** [true]: this side connects; the other accepts. *)
Definition initiator (me : str) (p : RoomParticipant) : bool := str_lt me (id p).

(** ** Voice *)
Definition per_peer_budget (total_bps peers : N) : N :=
  if peers =? 0 then total_bps else total_bps / peers.

Section mixing.
#[local] Open Scope Z_scope.

Definition clamp_i16 (z : Z) : Z := clampZ z (-32768) 32767.

Fixpoint mix_into (out s : list Z) : list Z :=
  match out, s with
  | o :: out, x :: s => clamp_i16 (o + x) :: mix_into out s
  | _, _ => out
  end.

Definition longest (streams : list (list Z)) : nat := foldr Nat.max 0%nat (map length streams).

Definition mix (streams : list (list Z)) : list Z :=
  foldl mix_into (repeat 0 (longest streams)) streams.

(** Sample [i] of a stream, silence past its end, and the plain sum. *)
Definition sample (s : list Z) (i : nat) : Z := nth i s 0.
Definition total (streams : list (list Z)) (i : nat) : Z := foldr Z.add 0 (map (fun s => sample s i) streams).

(** What one sample goes through: clamped after each stream. *)
Definition clamped_total (streams : list (list Z)) (i : nat) : Z :=
  foldl (fun acc s => clamp_i16 (acc + sample s i)) 0 streams.

Definition is_i16 (z : Z) : Prop := -32768 <= z <= 32767.
End mixing.

(** ** Lemmas: mixing *)
Section mix_lemmas.
#[local] Open Scope Z_scope.
Implicit Types (s out : list Z) (streams : list (list Z)).

Lemma clamp_i16_id z : is_i16 z -> clamp_i16 z = z.
Proof. unfold is_i16, clamp_i16, clampZ. intros. destruct (Z.ltb_spec z (-32768)), (Z.ltb_spec 32767 z); lia. Qed.

Lemma clamp_i16_is z : is_i16 (clamp_i16 z).
Proof. unfold is_i16, clamp_i16, clampZ. destruct (Z.ltb_spec z (-32768)), (Z.ltb_spec 32767 z); lia. Qed.

Lemma mix_into_length out s : length (mix_into out s) = length out.
Proof. revert s. induction out as [|o out IH]; intros [|x s]; cbn; auto. Qed.

Lemma mix_into_sample out s i :
  Forall is_i16 out -> (i < length out)%nat -> sample (mix_into out s) i = clamp_i16 (sample out i + sample s i).
Proof.
  unfold sample. intros Ho. revert s i. induction Ho as [|o out Hoo Ho IH]; intros s i Hi; [cbn in Hi; lia|].
  destruct s as [|x s].
  - cbn [mix_into]. rewrite (nth_overflow [] 0) by (cbn; lia). rewrite Z.add_0_r, clamp_i16_id; [done|].
    destruct i as [|i]; [done|]. cbn [nth]. rewrite List.Forall_forall in Ho. apply Ho, nth_In. cbn in Hi. lia.
  - destruct i as [|i]; [done|]. cbn [mix_into nth]. apply IH. cbn in Hi. lia.
Qed.

Lemma mix_into_is out s : Forall is_i16 out -> Forall is_i16 (mix_into out s).
Proof.
  intros Ho. revert s. induction Ho as [|o out Hoo Ho IH]; intros [|x s]; cbn [mix_into]; constructor; auto using clamp_i16_is.
Qed.

Lemma foldl_mix_sample streams out i :
  Forall is_i16 out -> (i < length out)%nat ->
  Forall is_i16 (foldl mix_into out streams) /\ length (foldl mix_into out streams) = length out /\
  sample (foldl mix_into out streams) i = foldl (fun acc s => clamp_i16 (acc + sample s i)) (sample out i) streams.
Proof.
  revert out. induction streams as [|s streams IH]; intros out Ho Hi; [done|]. cbn [foldl].
  destruct (IH (mix_into out s)) as (H1 & H2 & H3); [by apply mix_into_is|by rewrite mix_into_length|].
  rewrite H2, H3, mix_into_length, mix_into_sample by done. done.
Qed.

Lemma mix_sample streams i : (i < longest streams)%nat -> sample (mix streams) i = clamped_total streams i.
Proof.
  intros Hi. unfold mix, clamped_total.
  destruct (foldl_mix_sample streams (repeat 0 (longest streams)) i) as (_ & _ & ->).
  - apply List.Forall_forall. intros x ->%repeat_spec. unfold is_i16. lia.
  - by rewrite repeat_length.
  - by replace (sample (repeat 0 (longest streams)) i) with 0 by (symmetry; unfold sample; apply nth_repeat).
Qed.

Lemma total_app l1 l2 i : total (l1 ++ l2) i = total l1 i + total l2 i.
Proof. unfold total. induction l1 as [|s l1 IH]; cbn in *; lia. Qed.

(** No prefix of the streams clips: the clamps do nothing. *)
Lemma clamped_exact streams i :
  (forall k, is_i16 (total (take k streams) i)) -> clamped_total streams i = total streams i.
Proof.
  unfold clamped_total. induction streams as [|s streams IH] using rev_ind; [done|]. intros Hk.
  rewrite foldl_app. cbn [foldl]. rewrite IH.
  - specialize (Hk (length (streams ++ [s]))). rewrite take_ge in Hk by lia. rewrite total_app in *.
    assert (Ht : total [s] i = sample s i) by (unfold total; cbn; lia). rewrite Ht in *. by apply clamp_i16_id.
  - intros k. destruct (Nat.le_gt_cases k (length streams)).
    + specialize (Hk k). by rewrite take_app_le in Hk.
    + specialize (Hk (length streams)). rewrite take_app_length in Hk. by rewrite take_ge by lia.
Qed.
End mix_lemmas.

(** ** Lemmas: names *)
Section names.
Implicit Types (me q : str).

(** A name without a colon is read back from a tag. *)
Lemma want_other me q rest : colon ∉ me -> colon ∉ q -> q <> me -> strip_prefix (want me) (want q ++ rest) = None.
Proof.
  intros Hm Hq Hne. destruct (strip_prefix _ _) as [t|] eqn:E; [|done]. apply strip_prefix_Some in E.
  unfold want in E. rewrite <- !app_assoc in E. apply app_inv_head in E.
  destruct (break_unique (fun x => x <> colon) q colon (lit "udp:" ++ rest) me colon (lit "udp:" ++ t)) as [-> _]; try done.
  - apply List.Forall_forall. intros x Hx%list_elem_of_In ->. done.
  - apply List.Forall_forall. intros x Hx%list_elem_of_In ->. done.
  - intros Hc. by apply Hc.
  - intros Hc. by apply Hc.
Qed.

(** Of all that a peer posts, a node finds what was posted for it. *)
Lemma find_mine parse_v6 me ps sockets a :
  Forall (fun p => colon ∉ id p) ps -> Forall v4_ok sockets -> colon ∉ me -> length ps = length sockets ->
  (exists i p, ps !! i = Some p /\ id p = me /\ sockets !! i = Some a /\ forall j p', ps !! j = Some p' -> id p' = me -> j = i) ->
  find_candidate (want me) (parse_addr parse_v6) (mesh_posts ps sockets) = Some (V4 a).
Proof.
  intros Hp Hs Hme. revert sockets Hs. induction Hp as [|p ps Hc _ IH]; intros sockets Hs Hl (i & p0 & Hi & Hid & Ha & Hu); [done|].
  destruct Hs as [|x sockets Hx Hs]; [done|]. unfold find_candidate, mesh_posts. cbn [zip_with omap list_omap].
  destruct (decide (id p = me)) as [He|He].
  - assert (i = 0%nat) as -> by (symmetry; eapply Hu; [|exact He]; done). injection Ha as <-. rewrite He, strip_prefix_app. cbn [mbind option_bind].
    by rewrite parse_show.
  - rewrite want_other by done. cbn [mbind option_bind]. destruct i as [|i]; [cbn in Hi; congruence|].
    apply IH; [done|by injection Hl|]. exists i, p0. split_and!; try done.
    intros j p' Hj Hj'. specialize (Hu (S j) p' Hj Hj'). congruence.
Qed.

Lemma str_lt_total a b : str_ok a -> str_ok b -> a <> b -> str_lt a b = negb (str_lt b a).
Proof.
  intros Ha Hb Hne. unfold str_lt. destruct (key_lt (as_bytes a) (as_bytes b)) eqn:E1, (key_lt (as_bytes b) (as_bytes a)) eqn:E2; try done.
  - pose proof (key_lt_trans _ _ _ E1 E2) as E. by rewrite key_lt_irrefl in E.
  - pose proof (key_lt_total _ _ E1 E2) as E. by apply as_bytes_inj in E.
Qed.
End names.

(** ** Lemmas: peers *)
Section peers.
Implicit Types (roster : list RoomParticipant).

Lemma mesh_peers_perm me roster : mesh_peers me roster ≡ₚ peers me roster.
Proof. apply sort_by_perm. Qed.

Lemma mesh_peers_elem me roster p : p ∈ mesh_peers me roster <-> p ∈ roster /\ id p <> me.
Proof. rewrite mesh_peers_perm. unfold peers. rewrite list_elem_of_filter. tauto. Qed.

Lemma mesh_peers_nodup me roster : NoDup (map id roster) -> NoDup (map id (mesh_peers me roster)).
Proof.
  intros Hn. rewrite mesh_peers_perm. unfold peers. eapply sublist_NoDup; [exact Hn|].
  apply (fmap_sublist id), sublist_filter.
Qed.

Lemma lookup_id roster i j p q :
  NoDup (map id roster) -> roster !! i = Some p -> roster !! j = Some q -> id p = id q -> i = j.
Proof.
  intros Hn Hi Hj He. eapply NoDup_lookup; [exact Hn| |]; apply list_lookup_fmap_Some; eexists; (split; [|eassumption]); done.
Qed.

Lemma find_by_id roster pid p :
  NoDup (map id roster) -> p ∈ roster -> id p = pid -> head (filter (fun p => id p = pid) roster) = Some p.
Proof.
  intros Hn Hp <-. induction roster as [|q roster IH]; [set_solver|]. cbn [map] in Hn. apply NoDup_cons in Hn as [Hq Hn].
  rewrite filter_cons. destruct (decide (id q = id p)) as [He|He].
  - apply elem_of_cons in Hp as [->|Hp]; [done|]. exfalso. apply Hq. rewrite He. apply list_elem_of_fmap. by exists p.
  - apply elem_of_cons in Hp as [->|Hp]; [done|]. by apply IH.
Qed.
End peers.

(** The roster while the participants publish: each has posted the first
    [progress] of its candidates. *)
Definition published (roster : list RoomParticipant) (sockets : str -> str -> addr_v4) (progress : str -> nat) :
    list RoomParticipant :=
  map (fun p =>
    let ps := mesh_peers (id p) roster in
    {| id := id p; pubkey := pubkey p;
       candidates := take (progress (id p)) (mesh_posts ps (map (fun q => sockets (id p) (id q)) ps)) |}) roster.

(** ** Properties *)

(** C26: A full mesh: when all participants work from the same roster, and their
    identifiers are distinct and hold no colon (which the rooms do not check), of
    any two of them each finds the address of the socket the other bound for it, or
    nothing while the other has not published it yet, and exactly one of the two
    opens the handshake. *)
Theorem mesh_pairs_meet (parse_v6 : str -> option SocketAddr) (roster : list RoomParticipant)
    (sockets : str -> str -> addr_v4) (progress : str -> nat) (p q : RoomParticipant) :
  NoDup (map id roster) -> Forall (fun p => colon ∉ id p /\ str_ok (id p)) roster ->
  (forall a b, v4_ok (sockets a b)) -> p ∈ roster -> q ∈ roster -> id p <> id q ->
  let found := peer_address parse_v6 (id q) (id p) (published roster sockets progress) in
  (found = None \/ found = Some (V4 (sockets (id p) (id q)))) /\
  ((length roster <= progress (id p))%nat -> found = Some (V4 (sockets (id p) (id q)))) /\
  initiator (id p) q = negb (initiator (id q) p).
Proof.
  intros Hn Hr Hs Hp Hq Hne found.
  pose proof (proj1 (List.Forall_forall _ _) Hr) as Hr'.
  assert (Hcp := Hr' p (proj1 (list_elem_of_In _ _) Hp)). assert (Hcq := Hr' q (proj1 (list_elem_of_In _ _) Hq)).
  set (ps := mesh_peers (id p) roster). set (posts := mesh_posts ps (map (fun q => sockets (id p) (id q)) ps)).
  assert (Hfound : found = find_candidate (want (id q)) (parse_addr parse_v6) (take (progress (id p)) posts)).
  { unfold found, peer_address.
    rewrite (find_by_id _ (id p) {| id := id p; pubkey := pubkey p; candidates := take (progress (id p)) posts |}); [done|..].
    - unfold published. rewrite map_map. cbn [id]. exact Hn.
    - unfold published. apply list_elem_of_fmap. by exists p.
    - done. }
  assert (Hall : find_candidate (want (id q)) (parse_addr parse_v6) posts = Some (V4 (sockets (id p) (id q)))).
  { apply find_mine; [|apply List.Forall_forall; by intros x (y & <- & _)%in_map_iff|apply Hcq|by rewrite length_map|].
    - apply List.Forall_forall. intros x Hx%list_elem_of_In%mesh_peers_elem. destruct Hx as [Hx _].
      apply (Hr' x). by apply list_elem_of_In.
    - assert (Hin : q ∈ ps) by (apply mesh_peers_elem; by split). apply list_elem_of_lookup in Hin as [i Hi].
      exists i, q. split; [done|]. split; [done|]. split.
      + apply list_lookup_fmap_Some. by exists q.
      + intros j p' Hj He. symmetry. eapply lookup_id; [by apply (mesh_peers_nodup (id p))|exact Hi|exact Hj|done]. }
  split; [|split].
  - rewrite Hfound, <- Hall. unfold find_candidate. apply head_prefix, omap_prefix. exists (drop (progress (id p)) posts).
    by rewrite take_drop.
  - intros Hl. rewrite Hfound, take_ge; [exact Hall|]. unfold posts, mesh_posts. rewrite length_zip_with, length_map.
    unfold ps. rewrite mesh_peers_perm. unfold peers.
    pose proof (length_filter (fun p0 => id p0 <> id p) roster). lia.
  - unfold initiator. apply str_lt_total; [apply Hcp|apply Hcq|done].
Qed.

Definition member (name : N) : RoomParticipant := {| id := [name]; pubkey := []; candidates := [] |}.
Definition socket_of (a b : str) : addr_v4 := ([10; 0; 0; 1], 5000 + match a, b with x :: _, y :: _ => 10 * (x mod 10) + y mod 10 | _, _ => 0 end).

Lemma mesh_pairs_meet_witness :
  peer_address (fun _ => None) [0x62] [0x61] (published [member 0x61; member 0x62; member 0x63] socket_of (fun _ => 3%nat)) =
    Some (V4 (socket_of [0x61] [0x62])).
Proof.
  apply (mesh_pairs_meet (fun _ => None) [member 0x61; member 0x62; member 0x63] socket_of (fun _ => 3%nat) (member 0x61) (member 0x62)).
  - by apply (bool_decide_unpack _); vm_compute.
  - repeat (apply List.Forall_cons; [split; [by apply (bool_decide_unpack _); vm_compute|by repeat constructor]|]). apply List.Forall_nil.
  - intros a b. unfold socket_of. split; [done|]. split; [repeat constructor|]. cbn [snd].
    destruct a as [|x ?], b as [|y ?]; try (vm_compute; reflexivity).
    pose proof (N.mod_lt x 10 ltac:(lia)). pose proof (N.mod_lt y 10 ltac:(lia)). lia.
  - set_solver.
  - set_solver.
  - done.
  - cbn. lia.
Defined.

(** The conference mix: as long as the longest stream, every sample a 16-bit one;
    where no running sum leaves the 16-bit range it is the sum of the streams, a
    stream that has ended counting as silence. *)
Theorem mix_is_sum (streams : list (list Z)) (i : nat) :
  (i < longest streams)%nat ->
  length (mix streams) = longest streams /\ is_i16 (sample (mix streams) i) /\
  ((forall k, is_i16 (total (take k streams) i)) -> sample (mix streams) i = total streams i).
Proof.
  intros Hi. unfold mix.
  assert (H0 : Forall is_i16 (repeat 0%Z (longest streams))) by (apply List.Forall_forall; intros x ->%repeat_spec; unfold is_i16; lia).
  destruct (foldl_mix_sample streams (repeat 0%Z (longest streams)) i H0) as (H1 & H2 & _); [by rewrite repeat_length|].
  rewrite repeat_length in H2. split; [done|]. split.
  - rewrite List.Forall_forall in H1. apply H1, nth_In. rewrite H2. exact Hi.
  - intros Hk. fold (mix streams). rewrite mix_sample by done. by apply clamped_exact.
Qed.

Lemma mix_is_sum_witness : mix [[100; 200]; [-30]; [5; 5; 5]]%Z = [75; 205; 5]%Z /\ sample (mix [[100; 200]; [-30]; [5; 5; 5]]%Z) 1 = 205%Z.
Proof.
  split; [by vm_compute|].
  pose proof (mix_is_sum [[100; 200]; [-30]; [5; 5; 5]]%Z 1 ltac:(cbn; lia)) as (_ & _ & Hs).
  rewrite Hs; [by vm_compute|]. intros k. do 4 (destruct k as [|k]; [vm_compute; split; discriminate|]). vm_compute. split; discriminate.
Defined.

(** Clamping after each stream makes the mix depend on their order: two loud
    streams and one opposed to them give silence or full scale. *)
Theorem mix_order_matters : mix [[32767]; [32767]; [-32767]]%Z = [0]%Z /\ mix [[32767]; [-32767]; [32767]]%Z = [32767]%Z.
Proof. by vm_compute. Qed.

Lemma budget_within total n : per_peer_budget total n * N.max 1 n <= total.
Proof.
  unfold per_peer_budget. destruct (N.eqb_spec n 0) as [->|Hn]; [cbn; lia|].
  rewrite N.max_r by lia. rewrite N.mul_comm. by apply N.Div0.mul_div_le.
Qed.
