(* ===== verification/TileDiff.v ===== *)
(** The tile change detector of [core/platform/src/screen_encoder.rs]: xxHash3-64
    and the digests of the last frame's tiles.

    Words are 64-bit; reads of a message longer than 64 bytes stay inside it, so
    its slices are [take] and [drop]. *)
From S2P Require Import Prelude Palette Tiles.
#[local] Open Scope N_scope.

(** ** xxHash3-64, the path for long inputs *)
Definition XXH3_SECRET : list byte :=
  [Byte.xb8; Byte.xfe; Byte.x6c; Byte.x39; Byte.x23; Byte.xa4; Byte.x4b; Byte.xbe; Byte.x7c; Byte.x01; Byte.x81; Byte.x2c; Byte.xf7; Byte.x21; Byte.xad; Byte.x1c;
   Byte.xde; Byte.xd4; Byte.x6d; Byte.xe9; Byte.x83; Byte.x90; Byte.x97; Byte.xdb; Byte.x72; Byte.x40; Byte.xa4; Byte.xa4; Byte.xb7; Byte.xb3; Byte.x67; Byte.x1f;
   Byte.xcb; Byte.x79; Byte.xe6; Byte.x4e; Byte.xcc; Byte.xc0; Byte.xe5; Byte.x78; Byte.x82; Byte.x5a; Byte.xd0; Byte.x7d; Byte.xcc; Byte.xff; Byte.x72; Byte.x21;
   Byte.xb8; Byte.x08; Byte.x46; Byte.x74; Byte.xf7; Byte.x43; Byte.x24; Byte.x8e; Byte.xe0; Byte.x35; Byte.x90; Byte.xec; Byte.xd7; Byte.xd7; Byte.x34; Byte.xbf;
   Byte.x52; Byte.x1c; Byte.xe9; Byte.x8f; Byte.x46; Byte.xd6; Byte.x5c; Byte.x6e; Byte.xeb; Byte.x9e; Byte.xc5; Byte.x04; Byte.xf0; Byte.xe7; Byte.xc4; Byte.x47;
   Byte.x55; Byte.x4b; Byte.x77; Byte.xad; Byte.x4b; Byte.xcf; Byte.x09; Byte.xf2; Byte.x9b; Byte.x6e; Byte.x04; Byte.x5f; Byte.x49; Byte.xc3; Byte.xd5; Byte.xf6;
   Byte.xae; Byte.x30; Byte.x6e; Byte.x2c; Byte.x9e; Byte.x0e; Byte.x1a; Byte.x75; Byte.xf0; Byte.xd1; Byte.x0c; Byte.x22; Byte.xfa; Byte.x7c; Byte.x39; Byte.xeb;
   Byte.x62; Byte.x2a; Byte.xdc; Byte.x6d; Byte.x1f; Byte.x0f; Byte.xf6; Byte.xf7; Byte.x96; Byte.xf2; Byte.x76; Byte.x7b; Byte.x5e; Byte.xa0; Byte.x3a; Byte.x07;
   Byte.x05; Byte.x08; Byte.x73; Byte.x78; Byte.xe8; Byte.x20; Byte.xdc; Byte.xc6; Byte.x82; Byte.xad; Byte.xc5; Byte.x25; Byte.xc2; Byte.x58; Byte.xdc; Byte.x59;
   Byte.x7f; Byte.xc6; Byte.xeb; Byte.x5b; Byte.x10; Byte.xb6; Byte.x3f; Byte.x38; Byte.xc1; Byte.xef; Byte.x10; Byte.x9a; Byte.xca; Byte.x20; Byte.x82; Byte.xdb;
   Byte.x29; Byte.x76; Byte.x38; Byte.x3e; Byte.xe5; Byte.xf3; Byte.x1d; Byte.xe3; Byte.x20; Byte.x9e; Byte.x40; Byte.x97; Byte.x3a; Byte.x63; Byte.x99; Byte.x22;
   Byte.x7e; Byte.xc6; Byte.x79; Byte.x2e; Byte.xc6; Byte.x5b; Byte.x1a; Byte.xe2; Byte.x15; Byte.xe2; Byte.xa3; Byte.x14; Byte.x61; Byte.xef; Byte.x3c; Byte.xb9].

Definition XXH3_PRIME64_1 : N := 0x9E3779B185EBCA87.
Definition XXH3_PRIME64_2 : N := 0xC2B2AE3D27D4EB4F.
Definition XXH3_PRIME64_3 : N := 0x165667B19E3779F9.
Definition XXH3_PRIME64_4 : N := 0x85EBCA77C2B2AE63.
Definition XXH3_PRIME64_5 : N := 0x27D4EB2F165667C5.
Definition XXH3_PRIME32_1 : N := 0x9E3779B1.
Definition XXH3_PRIME32_2 : N := 0x85EBCA77.
Definition XXH3_PRIME32_3 : N := 0xC2B2AE3D.

Definition wrapping_mul (a b : N) : N := wrap 64 (a * b).

Definition xxh3_read_u64 (src : list byte) (off : nat) : N := le_value (take 8 (drop off src)).

Definition xxh3_mul128_fold64 (lhs rhs : N) : N :=
  let p := lhs * rhs in N.lxor (wrap 64 (N.shiftr p 64)) (wrap 64 p).

Definition xxh3_avalanche (h : N) : N :=
  let h := N.lxor h (N.shiftr h 37) in
  let h := wrapping_mul h 0x165667919E3779F9 in
  N.lxor h (N.shiftr h 32).

(** One lane: [dv] goes to the neighbour, the product of its keyed halves to the
    lane itself. *)
Definition accumulate_lane (data : list byte) (d_off s_off : nat) (acc : list N) (i : nat) : list N :=
  let dv := xxh3_read_u64 data (d_off + i * 8) in
  let dk := N.lxor dv (xxh3_read_u64 XXH3_SECRET (s_off + i * 8)) in
  let acc := alter (fun a => wrapping_add 64 a dv) (Nat.lxor i 1) acc in
  alter (fun a => wrapping_add 64 a (wrapping_mul (N.land dk 0xFFFFFFFF) (N.shiftr dk 32))) i acc.

Definition xxh3_accumulate_stripe (acc : list N) (data : list byte) (d_off s_off : nat) : list N :=
  foldl (accumulate_lane data d_off s_off) acc (List.seq 0 8).

Definition xxh3_scramble (acc : list N) (s_off : nat) : list N :=
  imap (fun i a =>
    let a := N.lxor a (N.shiftr a 47) in
    let a := N.lxor a (xxh3_read_u64 XXH3_SECRET (s_off + i * 8)) in
    wrapping_mul a XXH3_PRIME32_1) acc.

Definition xxh3_merge_accs (acc : list N) (len : N) : N :=
  let at_ (i : nat) : N := nth i acc 0 in
  xxh3_avalanche
    (foldl (fun result i =>
       wrapping_add 64 result
         (xxh3_mul128_fold64
            (N.lxor (at_ (2 * i)%nat) (xxh3_read_u64 XXH3_SECRET (88 + i * 16)))
            (N.lxor (at_ (2 * i + 1)%nat) (xxh3_read_u64 XXH3_SECRET (96 + i * 16)))))
       (wrapping_mul len XXH3_PRIME64_1) (List.seq 0 4)).

Definition BLOCK_LEN : nat := 1024.
Definition STRIPES_PER_BLOCK : nat := 16.
Definition SECRET_STEP : nat := 8.
Definition SCRAMBLE_OFF : nat := 128.
Definition LAST_STRIPE_OFF : nat := 121.

(** [n] stripes from an offset on. *)
Definition stripes (data : list byte) (start n : nat) (acc : list N) : list N :=
  foldl (fun acc s => xxh3_accumulate_stripe acc data (start + s * 64) (s * SECRET_STEP)) acc (List.seq 0 n).

Definition initial_acc : list N :=
  [XXH3_PRIME32_3; XXH3_PRIME64_1; XXH3_PRIME64_2; XXH3_PRIME64_3;
   XXH3_PRIME64_4; XXH3_PRIME32_2; XXH3_PRIME64_5; XXH3_PRIME32_1].

Definition xxhash3_64 (data : list byte) : N :=
  let len := length data in
  let nb_blocks := ((len - 1) / BLOCK_LEN)%nat in
  let acc := foldl (fun acc block =>
    xxh3_scramble (stripes data (block * BLOCK_LEN) STRIPES_PER_BLOCK acc) SCRAMBLE_OFF)
    initial_acc (List.seq 0 nb_blocks) in
  let block_start := (nb_blocks * BLOCK_LEN)%nat in
  let n_stripes := ((len - 1 - block_start) / 64)%nat in
  let acc := stripes data block_start n_stripes acc in
  let acc := xxh3_accumulate_stripe acc data (len - 64) LAST_STRIPE_OFF in
  xxh3_merge_accs acc (N.of_nat len).

(** ** The detector *)
Record TileDiffDetector := mkDetector {
  prev_hashes : list N; d_cols : N; d_rows : N; d_frame_width : N; d_frame_height : N }.

Definition detector_new (frame_width frame_height : N) : TileDiffDetector :=
  let grid := grid_new frame_width frame_height in
  {| prev_hashes := replicate (N.to_nat (wrap 32 (cols grid * rows grid))) 0;
     d_cols := cols grid; d_rows := rows grid;
     d_frame_width := frame_width; d_frame_height := frame_height |}.

(** The two loops over the grid, row by row. *)
Definition coords (cols rows : N) : list TileCoord :=
  row ← rangeN 0 rows; map (fun col => {| col := col; row := row |}) (rangeN 0 cols).

Definition index_of (cols : N) (c : TileCoord) : N := wrap 32 (wrap 32 (row c * cols) + col c).

Definition rect_of (c : TileCoord) : DirtyRect :=
  {| x := to_i32 (wrap 32 (col c * TILE_SIZE_PX)); y := to_i32 (wrap 32 (row c * TILE_SIZE_PX));
     width := TILE_SIZE_PX; height := TILE_SIZE_PX |}.

(** The digest of a tile; [None] when a slice of the frame is out of range. *)
Definition digest (g : TileGrid) (pixels : list byte) (stride : N) (c : TileCoord) : option N :=
  tile ← extract_tile g pixels stride c; Some (xxhash3_64 tile).

Fixpoint detect_loop (g : TileGrid) (cols : N) (pixels : list byte) (stride : N)
    (hashes : list N) (cs : list TileCoord) : option (list N * list DirtyRect) :=
  match cs with
  | [] => Some (hashes, [])
  | c :: cs =>
      hash ← digest g pixels stride c;
      let idx := N.to_nat (index_of cols c) in
      old ← hashes !! idx;
      if old =? hash then detect_loop g cols pixels stride hashes cs
      else
        '(hashes, dirty) ← detect_loop g cols pixels stride (<[idx := hash]> hashes) cs;
        Some (hashes, rect_of c :: dirty)
  end.

Definition with_hashes (d : TileDiffDetector) (hashes : list N) : TileDiffDetector :=
  {| prev_hashes := hashes; d_cols := d_cols d; d_rows := d_rows d;
     d_frame_width := d_frame_width d; d_frame_height := d_frame_height d |}.

Definition detect (d : TileDiffDetector) (pixels : list byte) (stride : N) :
    option (TileDiffDetector * list DirtyRect) :=
  let grid := grid_new (d_frame_width d) (d_frame_height d) in
  '(hashes, dirty) ← detect_loop grid (d_cols d) pixels stride (prev_hashes d) (coords (d_cols d) (d_rows d));
  Some (with_hashes d hashes, dirty).

Fixpoint update_loop (g : TileGrid) (cols : N) (pixels : list byte) (stride : N)
    (hashes : list N) (cs : list TileCoord) : option (list N) :=
  match cs with
  | [] => Some hashes
  | c :: cs =>
      hash ← digest g pixels stride c;
      let idx := N.to_nat (index_of cols c) in
      _ ← hashes !! idx;
      update_loop g cols pixels stride (<[idx := hash]> hashes) cs
  end.

Definition update_hashes (d : TileDiffDetector) (pixels : list byte) (stride : N) : option TileDiffDetector :=
  let grid := grid_new (d_frame_width d) (d_frame_height d) in
  hashes ← update_loop grid (d_cols d) pixels stride (prev_hashes d) (coords (d_cols d) (d_rows d));
  Some (with_hashes d hashes).

Definition reset (d : TileDiffDetector) : TileDiffDetector :=
  with_hashes d (map (fun _ => 0) (prev_hashes d)).

#[export] Instance rect_eq_dec : EqDecision DirtyRect.
Proof. solve_decision. Defined.

(** ** What it is for: a mirror that takes over the tiles reported *)
Definition tiles_of (g : TileGrid) (pixels : list byte) (stride : N) : option (list (list byte)) :=
  mapM (extract_tile g pixels stride) (coords (cols g) (rows g)).

(** The mirror's tiles after the reported ones are replaced. *)
Definition patch (cs : list TileCoord) (reported : list DirtyRect) (mirror fresh : list (list byte)) :
    list (list byte) :=
  zip_with (fun c '(old, new) => if bool_decide (rect_of c ∈ reported) then new else old) cs (zip mirror fresh).

(** ** Lemmas: the grid's order *)
Section grid.
Implicit Types (cols rows : N).

Lemma rangeN_snoc n : rangeN 0 (N.of_nat (S n)) = rangeN 0 (N.of_nat n) ++ [N.of_nat n].
Proof.
  unfold rangeN. rewrite !Nat2N.id. change (N.to_nat 0) with 0%nat. rewrite List.seq_S, map_app. done.
Qed.

Lemma length_rangeN n : length (rangeN 0 (N.of_nat n)) = n.
Proof. unfold rangeN. by rewrite length_map, length_seq, Nat2N.id. Qed.

Lemma lookup_rangeN n i k : rangeN 0 (N.of_nat n) !! i = Some k -> k = N.of_nat i /\ (i < n)%nat.
Proof.
  unfold rangeN. rewrite Nat2N.id. intros H. apply list_lookup_fmap_Some in H as (j & -> & Hj).
  apply lookup_seq in Hj as [-> Hlt]. done.
Qed.

Lemma coords_snoc cols m :
  coords cols (N.of_nat (S m)) =
  coords cols (N.of_nat m) ++ map (fun col => {| col := col; row := N.of_nat m |}) (rangeN 0 cols).
Proof. unfold coords. rewrite rangeN_snoc, bind_app. cbn. by rewrite app_nil_r. Qed.

Lemma coords_length n m : length (coords (N.of_nat n) (N.of_nat m)) = (m * n)%nat.
Proof.
  induction m as [|m IH]; [done|]. rewrite coords_snoc, length_app, IH, length_map, length_rangeN. lia.
Qed.

Lemma coords_lookup n m i c :
  coords (N.of_nat n) (N.of_nat m) !! i = Some c ->
  (N.to_nat (row c) * n + N.to_nat (col c) = i)%nat /\ (N.to_nat (col c) < n)%nat /\ (N.to_nat (row c) < m)%nat.
Proof.
  revert i. induction m as [|m IH]; intros i; [done|]. rewrite coords_snoc.
  intros [H|[Hl H]]%lookup_app_Some; [apply IH in H; lia|].
  apply list_lookup_fmap_Some in H as (k & -> & Hk). apply lookup_rangeN in Hk as [-> Hlt].
  rewrite coords_length in *. cbn [row col]. lia.
Qed.

Lemma coords_index cols rows i c :
  cols * rows < 2 ^ 32 -> coords cols rows !! i = Some c -> N.to_nat (index_of cols c) = i.
Proof.
  intros Hb. rewrite <- (N2Nat.id cols), <- (N2Nat.id rows) in *. intros H.
  apply coords_lookup in H as (H1 & H2 & H3). unfold index_of.
  set (n := N.to_nat cols) in *. set (m := N.to_nat rows) in *.
  pose proof (Nat.mul_le_mono_r (S (N.to_nat (row c))) m n ltac:(lia)) as Hmul. cbn [Nat.mul] in Hmul.
  assert (Hi : (i < m * n)%nat) by lia.
  assert (E : row c * N.of_nat n + col c = N.of_nat i) by lia.
  assert (row c * N.of_nat n <= N.of_nat i) by lia.
  assert (Hw : N.of_nat i < 2 ^ 32) by (rewrite <- Nat2N.inj_mul in Hb; lia).
  rewrite (wrap_small 32 (row c * _)) by lia. rewrite wrap_small by lia. lia.
Qed.

Lemma coords_nodup cols rows : NoDup (coords cols rows).
Proof.
  rewrite <- (N2Nat.id cols), <- (N2Nat.id rows). apply NoDup_alt. intros i j c Hi Hj.
  apply coords_lookup in Hi as (Hi & _), Hj as (Hj & _). lia.
Qed.
End grid.

(** ** Lemmas: the loops *)
Section loops.
Context (g : TileGrid) (cols : N) (pixels : list byte) (stride : N).

(** The rectangles of the tiles whose digest differs. *)
Definition changed (cs : list TileCoord) (old new : list N) : list DirtyRect :=
  concat (zip_with (fun c '(o, n) => if o =? n then [] else [rect_of c]) cs (zip old new)).

Lemma detect_loop_spec cs k hashes new :
  length hashes = (k + length cs)%nat ->
  (forall i c, cs !! i = Some c -> N.to_nat (index_of cols c) = (k + i)%nat) ->
  mapM (digest g pixels stride) cs = Some new ->
  detect_loop g cols pixels stride hashes cs = Some (take k hashes ++ new, changed cs (drop k hashes) new).
Proof.
  revert k hashes new. induction cs as [|c cs IH]; intros k hashes new Hl Hi Hm.
  { injection Hm as <-. cbn in Hl. rewrite take_ge, app_nil_r by lia. done. }
  cbn [mapM option_fmap] in Hm. apply bind_Some in Hm as (h & Hh & Hm). apply bind_Some in Hm as (hs & Hhs & Hm).
  injection Hm as <-. cbn [detect_loop]. rewrite Hh. cbn [mbind option_bind].
  assert (Hk : N.to_nat (index_of cols c) = k) by (rewrite (Hi 0%nat c eq_refl); lia). rewrite Hk.
  cbn [length] in Hl. destruct (lookup_lt_is_Some_2 hashes k ltac:(lia)) as [old Hold]. rewrite Hold. cbn [mbind option_bind].
  assert (Hnext : forall i c', cs !! i = Some c' -> N.to_nat (index_of cols c') = (S k + i)%nat).
  { intros i c' Hc. rewrite (Hi (S i) c' Hc). lia. }
  rewrite (drop_S _ _ _ Hold). unfold changed. cbn [zip zip_with concat]. fold (changed cs (drop (S k) hashes) hs).
  destruct (N.eqb_spec old h) as [->|Hne].
  - rewrite (IH (S k) hashes hs) by (lia || done). by rewrite (take_S_r _ _ _ Hold), <- app_assoc.
  - rewrite (IH (S k) (<[k:=h]> hashes) hs); [|rewrite length_insert; lia|done|done]. cbn [mbind option_bind].
    rewrite (take_S_r _ _ h) by (apply list_lookup_insert_eq; lia).
    rewrite take_insert_ge, drop_insert_lt by lia. by rewrite <- app_assoc.
Qed.

Lemma update_loop_spec cs k hashes new :
  length hashes = (k + length cs)%nat ->
  (forall i c, cs !! i = Some c -> N.to_nat (index_of cols c) = (k + i)%nat) ->
  mapM (digest g pixels stride) cs = Some new ->
  update_loop g cols pixels stride hashes cs = Some (take k hashes ++ new).
Proof.
  revert k hashes new. induction cs as [|c cs IH]; intros k hashes new Hl Hi Hm.
  { injection Hm as <-. cbn in Hl. by rewrite take_ge, app_nil_r by lia. }
  cbn [mapM option_fmap] in Hm. apply bind_Some in Hm as (h & Hh & Hm). apply bind_Some in Hm as (hs & Hhs & Hm).
  injection Hm as <-. cbn [update_loop]. rewrite Hh. cbn [mbind option_bind].
  assert (Hk : N.to_nat (index_of cols c) = k) by (rewrite (Hi 0%nat c eq_refl); lia). rewrite Hk.
  cbn [length] in Hl. destruct (lookup_lt_is_Some_2 hashes k ltac:(lia)) as [old Hold]. rewrite Hold. cbn [mbind option_bind].
  rewrite (IH (S k) (<[k:=h]> hashes) hs); [|rewrite length_insert; lia| |done].
  - rewrite (take_S_r _ _ h) by (apply list_lookup_insert_eq; lia).
    rewrite take_insert_ge by lia. by rewrite <- app_assoc.
  - intros i c' Hc. rewrite (Hi (S i) c' Hc). lia.
Qed.
End loops.

(** ** Lemmas: the detector *)
Section detector.
Implicit Types (d : TileDiffDetector) (p : list byte).

Definition grid_of d : TileGrid := grid_new (d_frame_width d) (d_frame_height d).

(** A detector as [detector_new] makes it, of a grid that has fewer than [2^32]
    tiles and less than [2^31] pixels across and down. *)
Definition well_formed d : Prop :=
  d_cols d = cols (grid_of d) /\ d_rows d = rows (grid_of d) /\ d_cols d * d_rows d < 2 ^ 32 /\
  d_cols d * TILE_SIZE_PX < 2 ^ 31 /\ d_rows d * TILE_SIZE_PX < 2 ^ 31 /\
  lenN (prev_hashes d) = d_cols d * d_rows d.

(** It remembers the digests of this frame. *)
Definition remembers d p (stride : N) : Prop :=
  mapM (digest (grid_of d) p stride) (coords (d_cols d) (d_rows d)) = Some (prev_hashes d).

Lemma coords_len d : well_formed d -> length (coords (d_cols d) (d_rows d)) = length (prev_hashes d).
Proof.
  intros (_ & _ & _ & _ & _ & Hl). rewrite <- (N2Nat.id (d_cols d)), <- (N2Nat.id (d_rows d)), coords_length.
  unfold lenN in Hl. nia.
Qed.

Lemma digest_tiles g p stride cs tiles :
  mapM (extract_tile g p stride) cs = Some tiles -> mapM (digest g p stride) cs = Some (map xxhash3_64 tiles).
Proof.
  revert tiles. induction cs as [|c cs IH]; intros tiles; cbn [mapM]; [by intros [= <-]|].
  intros H. apply bind_Some in H as (t & Ht & H). apply bind_Some in H as (ts & Hts & [= <-]).
  assert (Hd : digest g p stride c = Some (xxhash3_64 t)) by (unfold digest; by rewrite Ht).
  rewrite Hd. cbn [mbind option_bind]. by rewrite (IH ts Hts).
Qed.

Lemma detect_spec d p stride new :
  well_formed d -> mapM (digest (grid_of d) p stride) (coords (d_cols d) (d_rows d)) = Some new ->
  detect d p stride = Some (with_hashes d new, changed (coords (d_cols d) (d_rows d)) (prev_hashes d) new).
Proof.
  intros Hw Hm. unfold detect. pose proof (coords_len d Hw) as Hl. destruct Hw as (_ & _ & Hb & _).
  fold (grid_of d). rewrite (detect_loop_spec _ _ _ _ _ 0 _ new); [|lia| |done].
  - cbn [mbind option_bind]. by rewrite take_0, drop_0.
  - intros i c Hc. by apply coords_index in Hc.
Qed.

Lemma update_spec d p stride new :
  well_formed d -> mapM (digest (grid_of d) p stride) (coords (d_cols d) (d_rows d)) = Some new ->
  update_hashes d p stride = Some (with_hashes d new).
Proof.
  intros Hw Hm. unfold update_hashes. pose proof (coords_len d Hw) as Hl. destruct Hw as (_ & _ & Hb & _).
  fold (grid_of d). rewrite (update_loop_spec _ _ _ _ _ 0 _ new); [|lia| |done].
  - cbn [mbind option_bind]. by rewrite take_0.
  - intros i c Hc. by apply coords_index in Hc.
Qed.

Lemma well_formed_with d hashes : well_formed d -> length hashes = length (prev_hashes d) -> well_formed (with_hashes d hashes).
Proof. intros (H1 & H2 & H3 & H4 & H5 & H6) Hl. unfold well_formed, with_hashes, grid_of, lenN in *. cbn. rewrite Hl. done. Qed.

(** Tiles of one frame report distinct rectangles. *)
Lemma rect_of_inj d c c' :
  well_formed d -> c ∈ coords (d_cols d) (d_rows d) -> c' ∈ coords (d_cols d) (d_rows d) -> rect_of c = rect_of c' -> c = c'.
Proof.
  intros (_ & _ & _ & H4 & H5 & _) Hc Hc' He.
  assert (Hin : forall k, k ∈ coords (d_cols d) (d_rows d) -> col k < d_cols d /\ row k < d_rows d).
  { intros k [i Hk]%list_elem_of_lookup. rewrite <- (N2Nat.id (d_cols d)), <- (N2Nat.id (d_rows d)) in Hk.
    apply coords_lookup in Hk. lia. }
  assert (Hs : forall k, k * TILE_SIZE_PX < 2 ^ 31 -> to_i32 (wrap 32 (k * TILE_SIZE_PX)) = Z.of_N (k * TILE_SIZE_PX)).
  { intros k Hk. unfold to_i32, as_signed. rewrite (wrap_small 32 (k * _)) by lia. rewrite wrap_small by lia.
    change (2 ^ (32 - 1)) with (2 ^ 31). by rewrite (proj2 (N.ltb_lt _ _)). }
  apply Hin in Hc as [A1 A2]. apply Hin in Hc' as [B1 B2]. unfold rect_of in He. unfold TILE_SIZE_PX in *.
  rewrite !Hs in He by lia. injection He as Hx Hy. destruct c, c'. cbn in *. f_equal; lia.
Qed.

Lemma elem_changed cs old new r :
  r ∈ changed cs old new <-> exists i c o n, cs !! i = Some c /\ old !! i = Some o /\ new !! i = Some n /\ o <> n /\ r = rect_of c.
Proof.
  revert old new. induction cs as [|c cs IH]; intros old new.
  { split; [by intros ?%elem_of_nil|]. intros (i & c & _ & _ & Hc & _). done. }
  destruct old as [|o old]; [split; [by intros ?%elem_of_nil|]; intros (i & ? & ? & ? & _ & Ho & _); done|].
  destruct new as [|n new]; [split; [by intros ?%elem_of_nil|]; intros (i & ? & ? & ? & _ & _ & Hn & _); done|].
  unfold changed. cbn [zip zip_with concat]. fold (changed cs old new). rewrite elem_of_app, IH. split.
  - intros [Hr|(i & c' & o' & n' & H1 & H2 & H3 & H4 & H5)].
    + destruct (N.eqb_spec o n); [by apply elem_of_nil in Hr|]. apply list_elem_of_singleton in Hr as ->. by exists 0%nat, c, o, n.
    + by exists (S i), c', o', n'.
  - intros ([|i] & c' & o' & n' & H1 & H2 & H3 & H4 & H5).
    + injection H1 as <-. injection H2 as <-. injection H3 as <-. left.
      rewrite (proj2 (N.eqb_neq _ _)) by done. by apply list_elem_of_singleton.
    + right. by exists i, c', o', n'.
Qed.

Lemma changed_nodup cs old new :
  NoDup cs -> (forall c c', c ∈ cs -> c' ∈ cs -> rect_of c = rect_of c' -> c = c') -> NoDup (changed cs old new).
Proof.
  revert old new. induction cs as [|c cs IH]; intros old new Hn Hinj; [constructor|].
  apply NoDup_cons in Hn as [Hc Hn]. destruct old as [|o old]; [constructor|]. destruct new as [|n new]; [constructor|].
  unfold changed. cbn [zip zip_with concat]. fold (changed cs old new).
  assert (Hrest : NoDup (changed cs old new)) by (apply IH; [done|]; intros; apply Hinj; set_solver).
  destruct (o =? n); [done|]. apply NoDup_cons. split; [|done].
  intros (i & c' & _ & _ & Hi & _ & _ & _ & He)%elem_changed. apply list_elem_of_lookup_2 in Hi.
  apply Hinj in He; [by subst|set_solver..].
Qed.
End detector.

(** ** Properties *)

(** C30: The mirror is kept: a detector that remembers a frame reports, for the next
    one, unless a tile changed to another of the same digest, the rectangles of the
    tiles that changed, of those only and no rectangle twice, and a mirror of the
    old frame that takes over the reported tiles is the new frame.  It then
    remembers the new one. *)
Theorem reported_tiles_update_mirror (d : TileDiffDetector) (p q : list byte) (stride : N)
    (old new : list (list byte)) :
  well_formed d -> remembers d p stride ->
  tiles_of (grid_of d) p stride = Some old -> tiles_of (grid_of d) q stride = Some new ->
  (forall i a b, old !! i = Some a -> new !! i = Some b -> xxhash3_64 a = xxhash3_64 b -> a = b) ->
  exists d' dirty, detect d q stride = Some (d', dirty) /\
    patch (coords (d_cols d) (d_rows d)) dirty old new = new /\
    (forall r, r ∈ dirty <-> exists i c a b, coords (d_cols d) (d_rows d) !! i = Some c /\
       old !! i = Some a /\ new !! i = Some b /\ a <> b /\ r = rect_of c) /\
    NoDup dirty /\
    well_formed d' /\ remembers d' q stride.
Proof.
  intros Hw Hr Hold Hnew Hcol. pose proof Hw as (Hc & Hrw & _). unfold tiles_of in *. rewrite <- Hc, <- Hrw in *.
  set (cs := coords (d_cols d) (d_rows d)) in *.
  pose proof (digest_tiles _ _ _ _ _ Hold) as Do. pose proof (digest_tiles _ _ _ _ _ Hnew) as Dn.
  unfold remembers in Hr. fold cs in Hr. rewrite Do in Hr. injection Hr as Hr.
  exists (with_hashes d (map xxhash3_64 new)), (changed cs (prev_hashes d) (map xxhash3_64 new)).
  pose proof (length_mapM _ _ _ Hold) as Lo. pose proof (length_mapM _ _ _ Hnew) as Ln.
  assert (Hdirty : forall r, r ∈ changed cs (prev_hashes d) (map xxhash3_64 new) <->
    exists i c a b, cs !! i = Some c /\ old !! i = Some a /\ new !! i = Some b /\ a <> b /\ r = rect_of c).
  { intros r. rewrite elem_changed, <- Hr. split.
    - intros (i & c & o & n & H1 & H2 & H3 & H4 & ->).
      apply list_lookup_fmap_Some in H2 as (a & -> & H2). apply list_lookup_fmap_Some in H3 as (b & -> & H3).
      exists i, c, a, b. split_and!; try done. intros ->. done.
    - intros (i & c & a & b & H1 & H2 & H3 & H4 & ->). exists i, c, (xxhash3_64 a), (xxhash3_64 b).
      split_and!; try done; [apply list_lookup_fmap_Some; by exists a|apply list_lookup_fmap_Some; by exists b|].
      intros He. apply H4. by eapply Hcol. }
  split; [by apply detect_spec|]. split; [|split; [exact Hdirty|split; [|split]]].
  - unfold patch. apply list_eq. intros i. destruct (cs !! i) as [c|] eqn:Hci.
    2: { apply lookup_ge_None in Hci. rewrite (proj2 (lookup_ge_None _ _)), (proj2 (lookup_ge_None new _)); [done|lia|].
         rewrite length_zip_with. lia. }
    pose proof (lookup_lt_Some _ _ _ Hci) as Hlt.
    destruct (lookup_lt_is_Some_2 old i ltac:(lia)) as [a Ha]. destruct (lookup_lt_is_Some_2 new i ltac:(lia)) as [b Hb].
    rewrite Hb. apply lookup_zip_with_Some. exists c, (a, b). split; [|split; [done|by apply lookup_zip_Some]].
    case_bool_decide as Hin; [done|]. destruct (decide (a = b)) as [->|Hne]; [done|].
    exfalso. apply Hin, Hdirty. by exists i, c, a, b.
  - apply changed_nodup; [apply coords_nodup|]. intros c c'. by apply rect_of_inj.
  - apply well_formed_with; [done|]. rewrite <- Hr, !length_map. lia.
  - unfold remembers, with_hashes, grid_of. cbn [d_cols d_rows d_frame_width d_frame_height prev_hashes]. exact Dn.
Qed.

(** One pixel that changes, in a frame of one tile. *)
Definition frame_a : list byte := [Byte.x10; Byte.x20; Byte.x30; Byte.xff].
Definition frame_b : list byte := [Byte.x10; Byte.x20; Byte.x31; Byte.xff].
Definition tile_of (p : list byte) : list byte := p ++ repeat Byte.x00 4092.
Definition detector_a : TileDiffDetector := with_hashes (detector_new 1 1) [xxhash3_64 (tile_of frame_a)].

Lemma digests_differ : xxhash3_64 (tile_of frame_a) <> xxhash3_64 (tile_of frame_b).
Proof. by vm_compute. Qed.

Lemma tiles_of_frame p :
  length p = 4%nat -> tiles_of (grid_new 1 1) p 4 = Some [tile_of p].
Proof.
  intros Hl. destruct p as [|a [|b [|c [|e [|? ?]]]]]; try done.
Qed.

Lemma reported_tiles_update_mirror_witness :
  exists d' dirty, detect detector_a frame_b 4 = Some (d', dirty) /\
    patch (coords 1 1) dirty [tile_of frame_a] [tile_of frame_b] = [tile_of frame_b] /\ NoDup dirty.
Proof.
  destruct (reported_tiles_update_mirror detector_a frame_a frame_b 4 [tile_of frame_a] [tile_of frame_b])
    as (d' & dirty & Hd & Hp & _ & Hn & _).
  - repeat split.
  - unfold remembers. apply (digest_tiles _ _ _ _ [tile_of frame_a]). by apply (tiles_of_frame frame_a).
  - by apply (tiles_of_frame frame_a).
  - by apply (tiles_of_frame frame_b).
  - intros [|i] a b; [|done]. cbn [lookup list_lookup]. intros [= <-] [= <-] He. exfalso. by apply digests_differ.
  - exists d', dirty. split; [exact Hd|]. split; [exact Hp|exact Hn].
Defined.

(** The first frame is reported whole: no digest is zero by accident on it. *)
Lemma first_frame_reported :
  (snd <$> detect (detector_new 1 1) frame_a 4) = Some [rect_of {| col := 0; row := 0 |}].
Proof. by vm_compute. Qed.
