(* ===== verification/Quality.v ===== *)
(** What the user is shown of the quality of a call: the trackers of
    [quality_indicator.rs] and [quality_bar_lag.rs] and the trace of
    [metrics_trace.rs], all in [core/obs/src].

    The two trackers are the same code over two types of value, the tier and the
    four fields of the quality bar; they are modelled once, in the type of the
    value.  [Instant::now()] is an argument, in nanoseconds; an [f32] is its
    bits, which is what the sources compare. *)
From S2P Require Import Prelude Tier.
#[local] Open Scope N_scope.

(** ** The display trackers *)
Definition MAX_DISPLAY_LAG : N := 1000000000.
Definition MAX_QUALITY_BAR_LAG : N := 1000000000.

Record QualityBarSnapshot := mkSnapshot {
  snap_tier : TierState; snap_total_kbps : N; snap_rtt_ms : N; snap_loss_pct : N }.

#[global] Instance snapshot_eq_dec : EqDecision QualityBarSnapshot.
Proof. solve_decision. Defined.

(** [Instant::elapsed]. *)
Definition elapsed (now t : N) : N := now - t.

Record Tracker (V : Type) := mkTracker {
  governor : option V; governor_changed_at : option N;
  displayed : option V; display_updated_at : option N }.
#[global] Arguments mkTracker {V}.
#[global] Arguments governor {V}.
#[global] Arguments governor_changed_at {V}.
#[global] Arguments displayed {V}.
#[global] Arguments display_updated_at {V}.

Definition tracker_new {V} : Tracker V := mkTracker None None None None.

Definition on_governor_update {V} `{EqDecision V} (q : Tracker V) (snap : V) (now : N) : Tracker V :=
  if decide (governor q = Some snap) then q
  else mkTracker (Some snap) (Some now) (displayed q) (display_updated_at q).

Definition on_displayed {V} (q : Tracker V) (snap : V) (now : N) : Tracker V :=
  mkTracker (governor q) (governor_changed_at q) (Some snap) (Some now).

Definition is_in_sync {V} `{EqDecision V} (q : Tracker V) (now : N) : bool :=
  match governor q with
  | None => true
  | Some gov =>
      if match governor_changed_at q with
         | None => true
         | Some t => elapsed now t <=? MAX_QUALITY_BAR_LAG
         end
      then true
      else
        match displayed q with
        | None => false
        | Some disp =>
            if decide (disp = gov) then
              match governor_changed_at q, display_updated_at q with
              | Some changed, Some updated => changed <=? updated
              | _, _ => false
              end
            else false
        end
  end.

Definition display_lag {V} `{EqDecision V} (q : Tracker V) (now : N) : option N :=
  if is_in_sync q now then None else elapsed now <$> governor_changed_at q.

Definition QualityBarLag : Type := Tracker QualityBarSnapshot.
Definition bar_governor_update (q : QualityBarLag) (tier : TierState) (total_kbps rtt_ms loss_pct now : N) :
    QualityBarLag :=
  on_governor_update q (mkSnapshot tier total_kbps rtt_ms loss_pct) now.
Definition bar_displayed (q : QualityBarLag) (tier : TierState) (total_kbps rtt_ms loss_pct now : N) :
    QualityBarLag :=
  on_displayed q (mkSnapshot tier total_kbps rtt_ms loss_pct) now.

Definition QualityIndicator : Type := Tracker TierState.
Definition indicator_new : QualityIndicator := tracker_new.
Definition indicator_governor_update (q : QualityIndicator) (tier : TierState) (now : N) : QualityIndicator :=
  on_governor_update q tier now.
Definition indicator_displayed (q : QualityIndicator) (tier : TierState) (now : N) : QualityIndicator :=
  on_displayed q tier now.
Definition indicator_in_sync (q : QualityIndicator) (now : N) : bool := is_in_sync q now.
Definition indicator_lag (q : QualityIndicator) (now : N) : option N := display_lag q now.

(** ** The metrics trace *)
Definition METRICS_TRACE_CAPACITY : nat := 1800.

Record MetricsSample := mkSample {
  session_ms : N; sample_tier : TierState; sample_total_kbps : N; sample_rtt_ms : N; sample_loss_pct : N }.

Record MetricsTrace := mkTrace { capacity : nat; samples : list MetricsSample }.

Definition with_capacity (c : nat) : MetricsTrace := {| capacity := c; samples := [] |}.
Definition trace_new : MetricsTrace := with_capacity METRICS_TRACE_CAPACITY.

Definition record (t : MetricsTrace) (sample : MetricsSample) : MetricsTrace :=
  if decide (capacity t = 0%nat) then t
  else
    let kept := if decide (length (samples t) = capacity t) then tail (samples t) else samples t in
    {| capacity := capacity t; samples := kept ++ [sample] |}.

Definition last_sample (t : MetricsTrace) : option MetricsSample := last (samples t).

(** ** Histories *)
Section history.
Context {V : Type} `{EqDecision V}.

Inductive Event := Emitted (v : V) | Rendered (v : V).

Definition step (q : Tracker V) (e : N * Event) : Tracker V :=
  match e with
  | (now, Emitted v) => on_governor_update q v now
  | (now, Rendered v) => on_displayed q v now
  end.

Definition run (es : list (N * Event)) : Tracker V := foldl step tracker_new es.

Definition emitted (e : N * Event) : option V := match snd e with Emitted v => Some v | _ => None end.
Definition rendered (e : N * Event) : option (N * V) := match e with (t, Rendered v) => Some (t, v) | _ => None end.

(** The governor has said [v], and nothing else, since it first did at [t]. *)
Definition settled (es : list (N * Event)) (t : N) (v : V) : Prop :=
  exists pre post, es = pre ++ (t, Emitted v) :: post /\
    last (omap emitted pre) <> Some v /\ Forall (fun w => w = v) (omap emitted post).

Lemma quality_run_snoc es e : run (es ++ [e]) = step (run es) e.
Proof. unfold run. by rewrite foldl_app. Qed.

Lemma run_shown es :
  (t ← display_updated_at (run es); v ← displayed (run es); Some (t, v)) = last (omap rendered es).
Proof.
  induction es as [|e es IH] using rev_ind; [done|].
  rewrite quality_run_snoc, omap_app. destruct e as [t [v|v]]; cbn [omap list_omap rendered step].
  - rewrite app_nil_r, <- IH. unfold on_governor_update. by case_decide.
  - rewrite last_app. done.
Qed.

Lemma run_governor es : governor (run es) = last (omap emitted es).
Proof.
  induction es as [|e es IH] using rev_ind; [done|].
  rewrite quality_run_snoc, omap_app. destruct e as [t [v|v]]; cbn [omap list_omap emitted snd step].
  - rewrite last_app. cbn [last]. unfold on_governor_update. by case_decide.
  - by rewrite app_nil_r.
Qed.

Lemma settled_snoc_other es e t v :
  emitted e = None -> settled es t v -> settled (es ++ [e]) t v.
Proof.
  intros He (pre & post & -> & Hp & Hq). exists pre, (post ++ [e]). split_and!; [by rewrite <- app_assoc|done|].
  rewrite omap_app. cbn [omap list_omap]. by rewrite He, app_nil_r.
Qed.

Lemma run_settled es v :
  governor (run es) = Some v -> exists t, governor_changed_at (run es) = Some t /\ settled es t v.
Proof.
  revert v. induction es as [|e es IH] using rev_ind; intros v; [done|].
  rewrite quality_run_snoc. destruct e as [t [w|w]]; cbn [step].
  - unfold on_governor_update. case_decide as Hd.
    + intros Hv. assert (w = v) as -> by congruence. destruct (IH v Hv) as (s & Hs & pre & post & -> & Hp & Hq).
      exists s. split; [done|]. exists pre, (post ++ [(t, Emitted v)]). split_and!; [by rewrite <- app_assoc|done|].
      rewrite omap_app. apply Forall_app. split; [done|]. by repeat constructor.
    + intros [= ->]. exists t. split; [done|]. exists es, []. split_and!; [done| |constructor].
      by rewrite <- run_governor.
  - intros Hv. destruct (IH v Hv) as (s & Hs & Hset). exists s. split; [done|]. by apply settled_snoc_other.
Qed.

Lemma last_of_constant (l : list V) v : Forall (fun w => w = v) l -> last (v :: l) = Some v.
Proof. induction 1 as [|w l -> _ IH]; [done|]. by rewrite last_cons, IH. Qed.

(** At most one value is settled, since one moment. *)
Lemma settled_unique es t v t' v' : settled es t v -> settled es t' v' -> t = t' /\ v = v'.
Proof.
  intros (p1 & q1 & E1 & H1 & F1) (p2 & q2 & -> & H2 & F2).
  assert (Hlast : forall q w s (a : list (N * Event)), Forall (fun x => x = w) (omap emitted q) ->
            last (omap emitted (a ++ (s, Emitted w) :: q)) = Some w).
  { intros q w s a Hq. rewrite omap_app. cbn [omap list_omap emitted snd]. rewrite last_app_cons.
    apply last_of_constant. exact Hq. }
  assert (Hv : v = v').
  { pose proof (Hlast q1 v t p1 F1) as L1. pose proof (Hlast q2 v' t' p2 F2) as L2. congruence. }
  subst v'. split; [|done].
  apply app_eq_inv in E1 as [(k & E1 & E2)|(k & E1 & E2)].
  - destruct k as [|x k]; [by injection E2|]. injection E2 as <- E2. exfalso. subst p2 q1.
    rewrite omap_app in F1. cbn [omap list_omap emitted snd] in F1. apply Forall_app in F1 as [F1 _].
    by apply H2, Hlast.
  - destruct k as [|x k]; [by injection E2|]. injection E2 as <- E2. exfalso. subst p1 q2.
    rewrite omap_app in F2. cbn [omap list_omap emitted snd] in F2. apply Forall_app in F2 as [F2 _].
    by apply H1, Hlast.
Qed.

Lemma changed_when es t v :
  settled es t v -> governor (run es) = Some v /\ governor_changed_at (run es) = Some t.
Proof.
  intros Hs. pose proof Hs as (pre & post & E & _ & F).
  assert (Hg : governor (run es) = Some v).
  { rewrite run_governor, E, omap_app. cbn [omap list_omap emitted snd]. rewrite last_app_cons.
    by apply last_of_constant. }
  split; [done|]. destruct (run_settled es v Hg) as (t' & Ht' & Hs').
  by destruct (settled_unique _ _ _ _ _ Hs Hs') as [<- _].
Qed.

(** ** Properties *)

(** What the tracker reports: before the governor's first value everything is in
    sync; afterwards, with [v] the value the governor holds since [t], it is in
    sync within a second of [t], and from then on exactly if the last rendering
    showed [v] and is not older than [t]. *)
Theorem in_sync_iff (es : list (N * Event)) (now : N) :
  is_in_sync (run es) now = true <->
    omap emitted es = [] \/
    exists t v, settled es t v /\
      (now - t <= MAX_QUALITY_BAR_LAG \/ exists u, last (omap rendered es) = Some (u, v) /\ t <= u).
Proof.
  unfold is_in_sync. pose proof (run_governor es) as Hg. pose proof (run_shown es) as Hr.
  destruct (governor (run es)) as [v|] eqn:Ev; cycle 1.
  { split; [intros _; left|done]. symmetry in Hg. by apply last_None in Hg. }
  destruct (run_settled es v Ev) as (t & Ht & Hset). rewrite Ht. unfold elapsed.
  destruct (N.leb_spec (now - t) MAX_QUALITY_BAR_LAG) as [Hle|Hgt].
  { split; [|done]. intros _. right. exists t, v. auto. }
  assert (Hes : omap emitted es <> []) by (intros E; by rewrite E in Hg).
  split.
  - intros Hs. right. exists t, v. split; [done|]. right.
    destruct (displayed (run es)) as [d|]; [|done]. case_decide; [subst d|done].
    destruct (display_updated_at (run es)) as [u|]; [|done]. apply N.leb_le in Hs. by exists u.
  - intros [?|(t' & v' & Hset' & H)]; [done|]. destruct (settled_unique _ _ _ _ _ Hset Hset') as [<- <-].
    destruct H as [?|(u & Hu & Hle)]; [lia|]. rewrite Hu in Hr.
    destruct (display_updated_at (run es)) as [u'|], (displayed (run es)) as [d|]; try done.
    injection Hr as -> ->. rewrite decide_True by done. by apply N.leb_le.
Qed.
End history.
#[global] Arguments Event : clear implicits.

(** A governor that changes its mind every second is never reported, whatever
    was rendered: each change opens a new second of grace. *)
Definition flapping (n : nat) : list (N * Event TierState) :=
  map (fun i => (N.of_nat i * 1000000000, Emitted (if Nat.even i then Full else Survival))) (seq 0 n).

Lemma flapping_settled n :
  settled (flapping (S n)) (N.of_nat n * 1000000000) (if Nat.even n then Full else Survival).
Proof.
  unfold flapping. rewrite seq_S, map_app. cbn [map plus].
  eexists _, []. split_and!; [done| |constructor].
  destruct n as [|n]; [done|]. rewrite seq_S, map_app, omap_app. cbn [map plus omap list_omap emitted snd].
  rewrite last_app. cbn [last]. rewrite Nat.even_succ, <- Nat.negb_even. by destruct (Nat.even n).
Qed.

Theorem flapping_hides_staleness (n : nat) (now : N) :
  now <= N.of_nat (S n) * 1000000000 -> is_in_sync (run (flapping (S n))) now = true.
Proof.
  intros Hn. unfold is_in_sync. destruct (changed_when _ _ _ (flapping_settled n)) as [-> ->].
  unfold elapsed, MAX_QUALITY_BAR_LAG. rewrite (proj2 (N.leb_le _ _)) by lia. done.
Qed.

Lemma flapping_hides_staleness_witness :
  is_in_sync (run (flapping 3600)) 3600000000000 = true /\
  displayed (run (flapping 3)) = None.
Proof. split; [apply (flapping_hides_staleness 3599); lia|done]. Defined.

(** The trace is the most recent samples, in order. *)
Lemma trace_is_the_latest (c : nat) (xs : list MetricsSample) :
  samples (foldl record (with_capacity c) xs) = drop (length xs - c) xs /\
  capacity (foldl record (with_capacity c) xs) = c.
Proof.
  induction xs as [|x xs [IH1 IH2]] using rev_ind; [done|].
  rewrite foldl_app. cbn [foldl]. set (t := foldl record (with_capacity c) xs) in *.
  unfold record. rewrite IH2. case_decide as Hc.
  { split; [|done]. rewrite IH1, Hc, !Nat.sub_0_r, !drop_ge by lia. done. }
  cbn [samples capacity]. split; [|done]. rewrite IH1, length_drop, length_app. cbn [length].
  case_decide as Hl.
  - rewrite drop_app_le by lia. f_equal. replace (length xs + 1 - c)%nat with (S (length xs - c)) by lia.
    destruct (drop (length xs - c) xs) as [|y l] eqn:E; cbn [tail].
    + by rewrite drop_ge by (apply (f_equal length) in E; rewrite length_drop in E; cbn in E; lia).
    + replace (S (length xs - c)) with (length xs - c + 1)%nat by lia.
      by rewrite <- drop_drop, E.
  - replace (length xs + 1 - c)%nat with 0%nat by lia. replace (length xs - c)%nat with 0%nat by lia. done.
Qed.
