(* ===== verification/Telemetry.v ===== *)
(** The opt-in telemetry: the aggregate of [telemetry.rs] and the HTTP request of
    [sender.rs], both in [core/obs/src], over the session records.

    The TCP exchange is the argument [exchange]: from the address and the request
    to the text of the response, [None] for an I/O error. *)
From Stdlib Require Import Strings.String.
From S2P Require Import Prelude Text Numeral SigClient Records.
#[local] Open Scope N_scope.
#[local] Arguments lit : simpl never.

(** ** The batch *)
Record QosTelemetryConfig := mkConfig { enabled : bool; endpoint : str }.

Definition config_new (url : str) : QosTelemetryConfig := {| enabled := false; endpoint := url |}.
Definition with_opt_in (c : QosTelemetryConfig) : QosTelemetryConfig :=
  {| enabled := true; endpoint := endpoint c |}.

Record TierCounts := mkCounts { survival : N; constrained : N; comfortable : N; full : N }.

Definition counts_default : TierCounts := mkCounts 0 0 0 0.

Record QosTelemetryBatch := mkBatch {
  session_count : N; total_bytes_sum : N; duration_sum_ms : N; peak_tier_counts : TierCounts }.

Definition batch_empty : QosTelemetryBatch := mkBatch 0 0 0 counts_default.

Definition count_tier (c : TierCounts) (t : option Tier) : TierCounts :=
  match t with
  | Some Survival => mkCounts (wrapping_add 32 (survival c) 1) (constrained c) (comfortable c) (full c)
  | Some Constrained => mkCounts (survival c) (wrapping_add 32 (constrained c) 1) (comfortable c) (full c)
  | Some Comfortable => mkCounts (survival c) (constrained c) (wrapping_add 32 (comfortable c) 1) (full c)
  | Some Full => mkCounts (survival c) (constrained c) (comfortable c) (wrapping_add 32 (full c) 1)
  | None => c
  end.

(** One turn of the loop of [from_store]; [N.sub] saturates. *)
Definition add_record (b : QosTelemetryBatch) (r : SessionRecord) : QosTelemetryBatch :=
  match ended_at_ms r with
  | None => b
  | Some ended_at =>
      {| session_count := wrapping_add 32 (session_count b) 1;
         total_bytes_sum := wrapping_add 64 (total_bytes_sum b) (total_bytes r);
         duration_sum_ms := wrapping_add 64 (duration_sum_ms b) (ended_at - started_at_ms r);
         peak_tier_counts := count_tier (peak_tier_counts b) (peak_tier r) |}
  end.

Definition from_store (s : SessionRecordStore) : QosTelemetryBatch :=
  foldl add_record batch_empty (records s).

Definition to_json (b : QosTelemetryBatch) : str :=
  lit "{" ++ quoted (lit "schema_version") ++ lit ":" ++ quoted (lit "1") ++
  lit "," ++ quoted (lit "session_count") ++ lit ":" ++ decimal (session_count b) ++
  lit "," ++ quoted (lit "total_bytes_sum") ++ lit ":" ++ decimal (total_bytes_sum b) ++
  lit "," ++ quoted (lit "duration_sum_ms") ++ lit ":" ++ decimal (duration_sum_ms b) ++
  lit "," ++ quoted (lit "peak_tier_counts") ++ lit ":{" ++
  quoted (lit "survival") ++ lit ":" ++ decimal (survival (peak_tier_counts b)) ++
  lit "," ++ quoted (lit "constrained") ++ lit ":" ++ decimal (constrained (peak_tier_counts b)) ++
  lit "," ++ quoted (lit "comfortable") ++ lit ":" ++ decimal (comfortable (peak_tier_counts b)) ++
  lit "," ++ quoted (lit "full") ++ lit ":" ++ decimal (full (peak_tier_counts b)) ++ lit "}}".

(** ** The request *)
Inductive TelemetryError :=
| Disabled | InvalidEndpoint (url : str) | ParseError | IoError | HttpError (code : N).

(** What is before and after the first [c] ([str::find]), and the last one
    ([str::rfind]). *)
Fixpoint split_char (c : N) (s : str) : option (str * str) :=
  match s with
  | [] => None
  | x :: s =>
      if x =? c then Some ([], s)
      else match split_char c s with Some (before, after) => Some (x :: before, after) | None => None end
  end.

Definition rsplit_char (c : N) (s : str) : option (str * str) :=
  match split_char c (reverse s) with
  | Some (after, before) => Some (reverse before, reverse after)
  | None => None
  end.

Definition slash : N := 0x2F.

Definition parse_http_endpoint (url : str) : result TelemetryError (str * N * str) :=
  match strip_prefix (lit "http://") url with
  | None => Err (InvalidEndpoint url)
  | Some rest =>
      let '(authority, path) :=
        match split_char slash rest with
        | Some (before, after) => (before, slash :: after)
        | None => (rest, [slash])
        end in
      match rsplit_char colon authority with
      | Some (host, port) =>
          match from_str_radix 16 10 port with
          | Some port => Ok (host, port, path)
          | None => Err (InvalidEndpoint url)
          end
      | None => Ok (authority, 80, path)
      end
  end.

Definition parse_status_code (response : str) : result TelemetryError N :=
  ok_or ParseError
    (w ← split_whitespace (default [] (head (lines response))) !! 1%nat; from_str_radix 16 10 w).

Definition crlf : str := [cr; nl].

Definition http_request (path host body : str) : str :=
  lit "POST " ++ path ++ lit " HTTP/1.1" ++ crlf ++ lit "Host: " ++ host ++ crlf ++
  lit "Content-Type: application/json" ++ crlf ++
  lit "Content-Length: " ++ decimal (str_len body) ++ crlf ++
  lit "Connection: close" ++ crlf ++ crlf ++ body.

Definition send (exchange : str -> str -> option str) (config : QosTelemetryConfig)
    (batch : QosTelemetryBatch) : result TelemetryError unit :=
  if negb (enabled config) then Err Disabled
  else
    match parse_http_endpoint (endpoint config) with
    | Err e => Err e
    | Ok (host, port, path) =>
        let body := to_json batch in
        match exchange (host ++ colon :: decimal port) (http_request path host body) with
        | None => Err IoError
        | Some response =>
            match parse_status_code response with
            | Err e => Err e
            | Ok status => if (200 <=? status) && (status <? 300) then Ok tt else Err (HttpError status)
            end
        end
    end.

(** ** The aggregate *)
Definition completed (s : SessionRecordStore) : list (N * SessionRecord) :=
  omap (fun r => (fun ended => (ended, r)) <$> ended_at_ms r) (records s).

Definition peaked (s : SessionRecordStore) (t : Tier) : N :=
  lenN (filter (fun x => peak_tier (snd x) = Some t) (completed s)).

Lemma wrapping_add_wrap w a b : wrapping_add w (wrap w a) b = wrap w (a + b).
Proof. unfold wrapping_add, wrap. by rewrite N.Div0.add_mod_idemp_l. Qed.

(** What [from_store] computes of the completed records. *)
Definition aggregate (s : SessionRecordStore) : QosTelemetryBatch :=
  {| session_count := wrap 32 (lenN (completed s));
     total_bytes_sum := wrap 64 (sum_of (fun x => total_bytes (snd x)) (completed s));
     duration_sum_ms := wrap 64 (sum_of (fun x => fst x - started_at_ms (snd x)) (completed s));
     peak_tier_counts :=
       mkCounts (wrap 32 (peaked s Survival)) (wrap 32 (peaked s Constrained))
                (wrap 32 (peaked s Comfortable)) (wrap 32 (peaked s Full)) |}.

Definition pushed (s : SessionRecordStore) (r : SessionRecord) : SessionRecordStore :=
  {| records := records s ++ [r] |}.

Lemma completed_pushed s r :
  completed (pushed s r) = completed s ++ match ended_at_ms r with Some e => [(e, r)] | None => [] end.
Proof. unfold completed, pushed. cbn [records]. rewrite omap_app. cbn. by destruct (ended_at_ms r). Qed.

Lemma peaked_pushed s r t :
  peaked (pushed s r) t =
    peaked s t + (if bool_decide (is_Some (ended_at_ms r) /\ peak_tier r = Some t) then 1 else 0).
Proof.
  unfold peaked. rewrite completed_pushed, filter_app, lenN_app. destruct (ended_at_ms r) as [e|].
  - rewrite filter_cons, filter_nil. cbn [snd]. case_decide as Hp.
    + rewrite bool_decide_true by eauto. done.
    + rewrite bool_decide_false by naive_solver. done.
  - rewrite bool_decide_false by (by intros [[] _]). done.
Qed.

Lemma add_record_aggregate s r : add_record (aggregate s) r = aggregate (pushed s r).
Proof.
  unfold add_record, aggregate. rewrite !peaked_pushed, completed_pushed. destruct (ended_at_ms r) as [e|] eqn:He.
  - rewrite lenN_app, !sum_of_app. cbn [session_count total_bytes_sum duration_sum_ms peak_tier_counts sum_of foldr fst snd].
    rewrite !wrapping_add_wrap, !N.add_0_r. f_equal.
    destruct (peak_tier r) as [[]|]; cbn [count_tier survival constrained comfortable full];
      rewrite ?wrapping_add_wrap; f_equal;
      (rewrite bool_decide_true by eauto; done) || (rewrite bool_decide_false by naive_solver; by rewrite N.add_0_r).
  - rewrite app_nil_r, !bool_decide_false by (by intros [[] _]). by rewrite !N.add_0_r.
Qed.

Lemma from_store_aggregate s : from_store s = aggregate s.
Proof.
  unfold from_store. destruct s as [l]. cbn [records].
  induction l as [|r l IH] using rev_ind; [done|].
  rewrite foldl_app. cbn [foldl]. rewrite IH. apply add_record_aggregate.
Qed.

(** ** The text *)
Lemma split_char_app c s t : c ∉ s -> split_char c (s ++ c :: t) = Some (s, t).
Proof.
  induction s as [|x s IH]; intros Hc; cbn [app split_char]; [by rewrite N.eqb_refl|].
  rewrite (proj2 (N.eqb_neq _ _)) by set_solver. rewrite IH by set_solver. done.
Qed.

Lemma split_char_None c s : c ∉ s -> split_char c s = None.
Proof.
  induction s as [|x s IH]; intros Hc; cbn [split_char]; [done|].
  rewrite (proj2 (N.eqb_neq _ _)) by set_solver. rewrite IH by set_solver. done.
Qed.

Lemma rsplit_char_app c s t : c ∉ t -> rsplit_char c (s ++ c :: t) = Some (s, t).
Proof.
  intros Hc. unfold rsplit_char. rewrite reverse_app, reverse_cons, <- app_assoc. cbn [app].
  rewrite split_char_app by (by rewrite elem_of_reverse). by rewrite !reverse_involutive.
Qed.

Lemma rsplit_char_None c s : c ∉ s -> rsplit_char c s = None.
Proof. intros Hc. unfold rsplit_char. by rewrite split_char_None by (by rewrite elem_of_reverse). Qed.

(** [path] as the request has it. *)
Definition path_of (path : str) : str := match path with [] => [slash] | _ => path end.

Definition path_ok (path : str) : Prop := path = [] \/ head path = Some slash.

Lemma parse_endpoint host port path :
  slash ∉ host -> port < 2 ^ 16 -> path_ok path ->
  parse_http_endpoint (lit "http://" ++ host ++ colon :: decimal port ++ path) = Ok (host, port, path_of path).
Proof.
  intros Hh Hp Hpath. unfold parse_http_endpoint. rewrite strip_prefix_app.
  assert (Hno : slash ∉ host ++ colon :: decimal port).
  { pose proof (decimal_no_char port slash ltac:(unfold slash; lia)). apply not_elem_of_app. split; [done|].
    apply not_elem_of_cons. split; [by compute|done]. }
  assert (Ha : rsplit_char colon (host ++ colon :: decimal port) = Some (host, decimal port)).
  { apply rsplit_char_app, decimal_no_char. unfold colon. lia. }
  destruct Hpath as [->|Hs].
  - rewrite app_nil_r, split_char_None by done. by rewrite Ha, decimal_parse.
  - destruct path as [|c path]; [done|]. injection Hs as ->.
    replace (host ++ colon :: decimal port ++ slash :: path)
      with ((host ++ colon :: decimal port) ++ slash :: path) by (by rewrite <- app_assoc).
    rewrite split_char_app by done. by rewrite Ha, decimal_parse.
Qed.

Lemma parse_endpoint_80 host path :
  slash ∉ host -> colon ∉ host -> path_ok path ->
  parse_http_endpoint (lit "http://" ++ host ++ path) = Ok (host, 80, path_of path).
Proof.
  intros Hh Hc Hpath. unfold parse_http_endpoint. rewrite strip_prefix_app.
  destruct Hpath as [->|Hs].
  - by rewrite app_nil_r, split_char_None, rsplit_char_None by done.
  - destruct path as [|c path]; [done|]. injection Hs as ->.
    by rewrite split_char_app, rsplit_char_None by done.
Qed.

Lemma lines_loop_app cur s t : nl ∉ s -> lines_loop cur (s ++ t) = lines_loop (reverse s ++ cur) t.
Proof.
  revert cur. induction s as [|c s IH]; intros cur Hs; [done|]. cbn [app lines_loop].
  rewrite (proj2 (N.eqb_neq _ _)) by set_solver. rewrite IH by set_solver. by rewrite reverse_cons, <- app_assoc.
Qed.

(** The first line starts as the text does, up to a character that is no line end. *)
Lemma first_line_prefix c cur s :
  c <> cr -> exists tl, default [] (head (lines_loop (c :: cur) s)) = reverse (c :: cur) ++ tl.
Proof.
  intros Hc. enough (H : forall k, exists tl, default [] (head (lines_loop (k ++ c :: cur) s)) = reverse (c :: cur) ++ tl)
    by apply (H []).
  induction s as [|x s IH]; intros k; cbn [lines_loop].
  - destruct (k ++ c :: cur) as [|y l] eqn:E; [by destruct k|]. rewrite <- E. cbn [head default].
    rewrite reverse_app. by eexists.
  - destruct (x =? nl).
    + cbn [head default]. destruct k as [|y k]; cbn [app].
      * rewrite (proj2 (N.eqb_neq _ _)) by done. exists []. by rewrite app_nil_r.
      * destruct (y =? cr); [exists (reverse k)|exists (reverse (y :: k))]; by rewrite <- reverse_app.
    + apply (IH (x :: k)).
Qed.

Lemma words_loop_app cur s t :
  Forall (fun c => is_whitespace c = false) s -> words_loop cur (s ++ t) = words_loop (reverse s ++ cur) t.
Proof.
  intros Hs. revert cur. induction Hs as [|c s Hc _ IH]; intros cur; [done|]. cbn [app words_loop].
  rewrite Hc, IH. by rewrite reverse_cons, <- app_assoc.
Qed.

Definition space : N := 0x20.

Lemma words_word w c rest :
  w <> [] -> Forall (fun x => is_whitespace x = false) w -> is_whitespace c = true ->
  words_loop [] (w ++ c :: rest) = w :: words_loop [] rest.
Proof.
  intros Hw Hs Hc. rewrite words_loop_app, app_nil_r by done. cbn [words_loop]. rewrite Hc.
  destruct (reverse w) as [|x l] eqn:E; [|by rewrite <- E, reverse_involutive].
  exfalso. apply Hw. apply (f_equal reverse) in E. by rewrite reverse_involutive in E.
Qed.

Lemma decimal_not_space n : Forall (fun c => is_whitespace c = false) (decimal n).
Proof.
  assert (H16 : Forall (is_digit 16) (decimal n)).
  { apply (Forall_impl _ _ _ (decimal_digits n)). intros c (d & Hd & ->). exists d. split; [lia|done]. }
  apply digit_chars_ascii in H16 as [_ H16]. apply (Forall_impl _ _ _ H16). by intros c [? _].
Qed.

Lemma parse_status code rest :
  code < 2 ^ 16 -> parse_status_code (lit "HTTP/1.1 " ++ decimal code ++ space :: rest) = Ok code.
Proof.
  intros Hc. unfold parse_status_code, lines.
  replace (lit "HTTP/1.1 " ++ decimal code ++ space :: rest)
    with ((lit "HTTP/1.1 " ++ decimal code ++ [space]) ++ rest) by (by rewrite <- !app_assoc).
  rewrite lines_loop_app.
  2: { rewrite !not_elem_of_app. split_and!; [by compute; set_solver|apply decimal_no_char; unfold nl; lia|by compute; set_solver]. }
  rewrite app_nil_r, !reverse_app. change (reverse [space]) with [space]. cbn [app].
  destruct (first_line_prefix space (reverse (decimal code) ++ reverse (lit "HTTP/1.1 ")) rest) as [tl Ht]; [done|].
  cbn [app] in Ht. rewrite Ht, reverse_cons, reverse_app, !reverse_involutive.
  rewrite <- !app_assoc. change (lit "HTTP/1.1 ") with (lit "HTTP/1.1" ++ [space]). rewrite <- app_assoc.
  unfold split_whitespace. cbn [app].
  rewrite words_word by (try done; by repeat constructor).
  rewrite words_word by (done || apply format_nonempty || apply decimal_not_space).
  cbn [lookup list_lookup mbind option_bind]. by rewrite decimal_parse.
Qed.

(** The batch can be read back from its text. *)
Lemma to_json_inj b1 b2 : to_json b1 = to_json b2 -> b1 = b2.
Proof.
  destruct b1 as [n1 t1 d1 [s1 c1 k1 f1]], b2 as [n2 t2 d2 [s2 c2 k2 f2]].
  unfold to_json. cbn [session_count total_bytes_sum duration_sum_ms peak_tier_counts survival constrained comfortable full].
  intros He.
  repeat match type of He with
    | lit _ ++ _ = lit _ ++ _ => apply app_inv_head in He
    | quoted _ ++ _ = quoted _ ++ _ => apply app_inv_head in He
    | decimal _ ++ _ = decimal _ ++ _ => apply decimal_then in He as (-> & _ & He); [|by compute; auto..]
    end.
  done.
Qed.

(** ** Properties *)

(** Nothing is sent before the user opts in; once opted in, the endpoint's host
    and port are connected to, whatever form the address has (a host with
    colons, a path or none), with a request whose body tells the sums over the
    completed sessions and nothing else: two stores with the same sums give the
    same request.  The status of the response decides. *)
Theorem telemetry_is_the_aggregate (exchange : str -> str -> option str) (s : SessionRecordStore)
    (host path rest : str) (port code : N) :
  slash ∉ host -> path_ok path -> port < 2 ^ 16 -> code < 2 ^ 16 ->
  let config := config_new (lit "http://" ++ host ++ colon :: decimal port ++ path) in
  let request := http_request (path_of path) host (to_json (aggregate s)) in
  send exchange config (from_store s) = Err Disabled /\
  (exchange (host ++ colon :: decimal port) request = None ->
   send exchange (with_opt_in config) (from_store s) = Err IoError) /\
  (exchange (host ++ colon :: decimal port) request = Some (lit "HTTP/1.1 " ++ decimal code ++ space :: rest) ->
   send exchange (with_opt_in config) (from_store s) =
     if (200 <=? code) && (code <? 300) then Ok tt else Err (HttpError code)) /\
  (forall s', to_json (from_store s') = to_json (from_store s) <-> aggregate s' = aggregate s).
Proof.
  intros Hh Hpath Hp Hc config request. rewrite from_store_aggregate.
  unfold send, config, with_opt_in. cbn [enabled endpoint config_new negb].
  rewrite parse_endpoint by done. fold request. split_and!; [done| | |].
  - by intros ->.
  - intros ->. by rewrite parse_status.
  - intros s'. rewrite from_store_aggregate. split; [apply to_json_inj|by intros ->].
Qed.

Definition finished : SessionRecord :=
  {| connection_id := 7; peer_key := None; started_at_ms := 1000; ended_at_ms := Some 61000;
     peak_tier := Some Full; total_bytes := 123456 |}.

Lemma telemetry_is_the_aggregate_witness :
  send (fun _ _ => Some (lit "HTTP/1.1 " ++ decimal 204 ++ space :: lit "No Content"))
    (with_opt_in (config_new (lit "http://" ++ lit "[::1]" ++ colon :: decimal 8080 ++ lit "/qos")))
    (from_store {| records := [finished] |}) = Ok tt.
Proof.
  refine (proj1 (proj2 (proj2 (telemetry_is_the_aggregate
    (fun _ _ => Some (lit "HTTP/1.1 " ++ decimal 204 ++ space :: lit "No Content"))
    {| records := [finished] |} (lit "[::1]") (lit "/qos") (lit "No Content") 8080 204 _ _ _ _))) _).
  - by apply (bool_decide_unpack _); vm_compute.
  - by right.
  - done.
  - done.
  - done.
Defined.

(** Without a port an address with colons is refused. *)
Lemma bare_v6_refused :
  parse_http_endpoint (lit "http://[::1]/qos") = Err (InvalidEndpoint (lit "http://[::1]/qos")).
Proof. by vm_compute. Qed.
