(* ===== verification/CpuCeiling.v ===== *)
(** The processor ceiling and the processor telemetry: [cpu_ceiling.rs] and
    [cpu_telemetry.rs] of [core/platform/src], with the reading of Linux's
    [/proc/self/stat].

    [Instant::now()], the text of the file and the number of cores are arguments;
    times are nanoseconds, [u64]. *)
From Stdlib Require Import Strings.String.
From S2P Require Import Prelude F64 F64Bounds Text Numeral SigClient Telemetry Tier.
#[local] Open Scope N_scope.
#[local] Arguments lit : simpl never.

(** ** The processor time of the process *)
Definition rparen : N := 0x29.
Definition LINUX_CLK_TCK : N := 100.

(** Both files have this function; a sum of ticks that overflows wraps. *)
Definition read_linux_process_cpu_ns (stat : str) : option N :=
  '(_, rest) ← rsplit_char rparen stat;
  let fields := split_whitespace (trim_start rest) in
  utime ← (w ← fields !! 11%nat; from_str_radix 64 10 w);
  stime ← (w ← fields !! 12%nat; from_str_radix 64 10 w);
  Some (wrap 64 (wrapping_add 64 utime stime * 1000000000) / LINUX_CLK_TCK).

(** ** The sampler *)
Record CpuSampler := mkSampler { last_wall : N; last_cpu_ns : N; initialized : bool }.

(** [read] is what [read_process_cpu_ns] answers at this moment. *)
Definition sampler_new (now : N) (read : option N) : CpuSampler := mkSampler now (default 0 read) false.

Definition sampler_reset (s : CpuSampler) (now : N) (read : option N) : CpuSampler :=
  mkSampler now (default 0 read) false.

Definition delta_ns (s : CpuSampler) (now : N) (read : option N) : CpuSampler * option (N * N) :=
  match read with
  | None => (s, None)
  | Some now_cpu =>
      let wall_ns := wrap 64 (now - last_wall s) in
      let cpu_ns := now_cpu - last_cpu_ns s in
      (mkSampler now now_cpu true, if initialized s then Some (cpu_ns, wall_ns) else None)
  end.

(** ** The ceiling *)
Inductive ThrottleAction := Continue | Sleep (ns : N).

Record CpuCeiling := mkCeiling {
  ceiling_pct : f64; tier : TierState; logical_cpus : N; sampler : CpuSampler }.

Definition CONSTRAINED_CPU_CEILING_PCT : f64 := f_of_N 35.

(** The assertion of [new] panics outside of [0, 100]. *)
Definition ceiling_new (pct : f64) (cpus now : N) (read : option N) : option CpuCeiling :=
  if (f_zero <=? pct)%f64 && (pct <=? f_of_N 100)%f64
  then Some (mkCeiling pct Full cpus (sampler_new now read)) else None.

Definition ceiling_constrained (cpus now : N) (read : option N) : option CpuCeiling :=
  ceiling_new CONSTRAINED_CPU_CEILING_PCT cpus now read.

Definition set_tier (c : CpuCeiling) (t : TierState) (now : N) (read : option N) : CpuCeiling :=
  let was_active := cpu_ceiling_active (tier c) in
  let now_active := cpu_ceiling_active t in
  mkCeiling (ceiling_pct c) t (logical_cpus c)
    (if now_active && negb was_active then sampler_reset (sampler c) now read else sampler c).

Definition saturating_mul (w a b : N) : N := N.min (a * b) (u_max w).

(** The decision, given the sample. *)
Definition throttle_action (pct : f64) (cpus cpu_ns wall_ns : N) : ThrottleAction :=
  if wall_ns =? 0 then Continue
  else
    let total_capacity_ns := saturating_mul 64 wall_ns cpus in
    let usage := (f_of_N cpu_ns / f_of_N total_capacity_ns)%f64 in
    let ceiling := (pct / f_of_N 100)%f64 in
    if (usage <=? ceiling)%f64 then Continue
    else
      let ratio := (usage / ceiling - f_one)%f64 in
      Sleep (f_to_uN 64 (f_of_N wall_ns * ratio)%f64).

Definition throttle (c : CpuCeiling) (now : N) (read : option N) : CpuCeiling * ThrottleAction :=
  if negb (cpu_ceiling_active (tier c)) then (c, Continue)
  else
    let '(s, delta) := delta_ns (sampler c) now read in
    let c := mkCeiling (ceiling_pct c) (tier c) (logical_cpus c) s in
    match delta with
    | None => (c, Continue)
    | Some (cpu_ns, wall_ns) => (c, throttle_action (ceiling_pct c) (logical_cpus c) cpu_ns wall_ns)
    end.

(** ** The telemetry *)
Record CpuTelemetry := mkTelemetry {
  t_sampler : CpuSampler; t_logical_cpus : N; last_usage_pct : f64 }.

Definition telemetry_new (cpus now : N) (read : option N) : CpuTelemetry :=
  mkTelemetry (sampler_new now read) cpus f_zero.

Definition telemetry_reset (t : CpuTelemetry) (now : N) (read : option N) : CpuTelemetry :=
  mkTelemetry (sampler_reset (t_sampler t) now read) (t_logical_cpus t) (last_usage_pct t).

Definition cpu_usage_pct (t : CpuTelemetry) (now : N) (read : option N) : CpuTelemetry * f64 :=
  let '(s, delta) := delta_ns (t_sampler t) now read in
  let same := (mkTelemetry s (t_logical_cpus t) (last_usage_pct t), last_usage_pct t) in
  match delta with
  | None => same
  | Some (cpu_ns, wall_ns) =>
      if wall_ns =? 0 then same
      else
        let total_capacity_ns := saturating_mul 64 wall_ns (t_logical_cpus t) in
        let usage_pct :=
          f_clamp (f_of_N cpu_ns / f_of_N total_capacity_ns * f_of_N 100)%f64 f_zero (f_of_N 100) in
        (mkTelemetry s (t_logical_cpus t) usage_pct, usage_pct)
  end.

(** ** The error of the decision, in exact arithmetic *)
Section algebra.
#[local] Open Scope Z_scope.
Context (S E0 E1 c k n wall U Q P W d : Z).
Hypothesis (HS : 0 < S) (HE0 : 0 < E0) (HE1 : E1 = E0 + 1).
Hypothesis (Hc : 0 <= c) (Hk : 0 <= k) (Hn : 0 <= n) (Hwall : 1 <= wall).
Hypothesis (HU : 0 <= U) (HQ : 0 <= Q) (HP : 0 <= P) (HW : 0 <= W) (Hd : 0 <= d).

Ltac scaled H m := 
  let Hm := fresh in assert (Hm : 0 <= m) by (repeat apply Z.mul_nonneg_nonneg; lia);
  apply (Z.mul_le_mono_nonneg_r _ _ _ Hm) in H; clear Hm.

Ltac cancel m := apply (Z.mul_le_mono_pos_r _ _ m); [repeat apply Z.mul_pos_pos; lia|].

Lemma average_upper :
  c * S * E0 <= U * (wall * n) * E1 -> U * S * E0 <= Q * P * E1 -> P * 100 * E0 <= k * S * E1 ->
  c * 100 * S * (E0 * E0 * E0) <= Q * wall * n * k * (E1 * E1 * E1).
Proof.
  intros H1 H2 H3. cancel S.
  scaled H1 (E0 * E0 * 100 * S). scaled H2 (wall * n * E1 * E0 * 100). scaled H3 (Q * wall * n * E1 * E1). lia.
Qed.

Lemma average_lower :
  U * (wall * n) * E0 <= c * S * E1 -> Q * P * E0 <= U * S * E1 -> k * S * E0 <= P * 100 * E1 ->
  Q * wall * n * k * (E0 * E0 * E0) <= c * 100 * S * (E1 * E1 * E1).
Proof.
  intros H1 H2 H3. cancel S.
  scaled H1 (E1 * E1 * 100 * S). scaled H2 (wall * n * E1 * E0 * 100). scaled H3 (Q * wall * n * E0 * E0). lia.
Qed.

Lemma sleep_upper (T : Z) :
  0 <= T -> T * E0 <= S -> wall * (Q - S) * E0 <= W * E1 + T * E0 -> W <= (d + 1) * S ->
  wall * Q * E0 <= (wall + d + 1) * S * E1.
Proof.
  intros HT HTS H4 H5. scaled H5 E1. assert (S <= wall * S) by nia. subst E1. lia.
Qed.

Lemma sleep_lower (T : Z) :
  0 <= T -> T <= S -> W * E0 <= wall * (Q - S) * E1 + T * E0 -> d * S <= W ->
  (wall + d - 1) * S * E0 <= wall * Q * E1.
Proof.
  intros HT HTS H4 H5. scaled H5 E0. scaled HTS E0.
  assert (0 <= wall * S) by nia. subst E1. lia.
Qed.

Lemma total_upper :
  c * 100 * S * (E0 * E0 * E0) <= Q * wall * n * k * (E1 * E1 * E1) ->
  wall * Q * E0 <= (wall + d + 1) * S * E1 ->
  c * 100 * (E0 * E0 * E0 * E0) <= (wall + d + 1) * n * k * (E1 * E1 * E1 * E1).
Proof.
  intros H1 H2. cancel S. scaled H1 E0. scaled H2 (n * k * E1 * E1 * E1). lia.
Qed.

Lemma total_lower :
  Q * wall * n * k * (E0 * E0 * E0) <= c * 100 * S * (E1 * E1 * E1) ->
  (wall + d - 1) * S * E0 <= wall * Q * E1 ->
  (wall + d - 1) * n * k * (E0 * E0 * E0 * E0) <= c * 100 * (E1 * E1 * E1 * E1).
Proof.
  intros H1 H2. cancel S. scaled H1 E1. scaled H2 (n * k * E0 * E0 * E0). lia.
Qed.

Lemma continue_upper :
  c * S * E0 <= U * (wall * n) * E1 -> U <= P -> P * 100 * E0 <= k * S * E1 ->
  c * 100 * (E0 * E0) <= wall * n * k * (E1 * E1).
Proof.
  intros H1 H2 H3. cancel S. scaled H1 (E0 * 100). scaled H2 (wall * n * E1 * E0 * 100).
  scaled H3 (wall * n * E1). lia.
Qed.
End algebra.

(** Four roundings are within one part in [2^49]. *)
Lemma four_roundings x y :
  (0 <= x)%Z -> (0 <= y)%Z ->
  (x * (EPS0 * EPS0 * EPS0 * EPS0) <= y * (EPS1 * EPS1 * EPS1 * EPS1))%Z ->
  (x * 2 ^ 49 <= y * (2 ^ 49 + 1))%Z.
Proof. unfold EPS0, EPS1. lia. Qed.

Lemma two_roundings x y :
  (0 <= x)%Z -> (0 <= y)%Z ->
  (x * (EPS0 * EPS0) <= y * (EPS1 * EPS1))%Z -> (x * 2 ^ 49 <= y * (2 ^ 49 + 1))%Z.
Proof. unfold EPS0, EPS1. lia. Qed.

(** ** The floats of the decision *)
Section floats.
#[local] Open Scope Z_scope.

Lemma scale_big : 2 ^ 200 <= scale.
Proof. apply Z.pow_le_mono_r; lia. Qed.

Lemma top_big : 2 ^ 200 * scale < top.
Proof. rewrite <- pow_scale by lia. apply Z.pow_lt_mono_r; lia. Qed.

Lemma finite_below x : good x -> fz x <= 2 ^ 200 * scale -> is_finite x = true.
Proof. intros Hg Hx. rewrite good_finite by done. apply Z.ltb_lt. pose proof top_big. lia. Qed.

(** A quotient of positive integers below [2^44]. *)
Lemma int_quotient a b :
  (1 <= a < 2 ^ 44)%N -> (1 <= b < 2 ^ 44)%N ->
  let r := (f_of_N a / f_of_N b)%f64 in
  good r /\ is_finite r = true /\ fz r <= 2 ^ 45 * scale /\
  Z.of_N a * scale * EPS0 <= fz r * Z.of_N b * EPS1 /\ fz r * Z.of_N b * EPS0 <= Z.of_N a * scale * EPS1.
Proof.
  intros Ha Hb r. destruct (f_of_N_spec a ltac:(lia)) as (Ga & Fa & Ia).
  destruct (f_of_N_spec b ltac:(lia)) as (Gb & Fb & Ib). pose proof scale_big as HS. pose proof top_big as HT.
  destruct (div_normal (f_of_N a) (f_of_N b) Ga Gb Ia Ib) as (Gr & H1 & H2).
  - rewrite Fb. nia.
  - rewrite Fa, Fb. unfold TINY.
    assert (2 ^ 96 * scale <= scale * scale) by (apply Z.mul_le_mono_nonneg_r; lia).
    assert (1 * (scale * scale) <= Z.of_N a * (scale * scale)) by (apply Z.mul_le_mono_nonneg_r; lia).
    assert (Z.of_N a * (scale * scale) <= 2 ^ 44 * (scale * scale)) by (apply Z.mul_le_mono_nonneg_r; lia).
    assert (Z.of_N b * scale <= 2 ^ 44 * scale) by (apply Z.mul_le_mono_nonneg_r; lia).
    assert (2 ^ 200 * scale * scale < top * scale) by (apply Z.mul_lt_mono_pos_r; lia).
    assert (top * scale * 1 <= top * scale * Z.of_N b) by (apply Z.mul_le_mono_nonneg_l; lia).
    split; lia.
  - rewrite Fa, Fb in H1, H2. fold r in H1, H2, Gr.
    assert (H3 : Z.of_N a * scale * EPS0 <= fz r * Z.of_N b * EPS1).
    { apply (Z.mul_le_mono_pos_r _ _ scale); [lia|]. lia. }
    assert (H4 : fz r * Z.of_N b * EPS0 <= Z.of_N a * scale * EPS1).
    { apply (Z.mul_le_mono_pos_r _ _ scale); [lia|]. lia. }
    assert (H5 : fz r <= 2 ^ 45 * scale).
    { pose proof (good_nonneg r Gr). unfold EPS0, EPS1 in *. 
      assert (fz r * 1 <= fz r * Z.of_N b) by (apply Z.mul_le_mono_nonneg_l; lia).
      assert (Z.of_N a * scale <= 2 ^ 44 * scale) by (apply Z.mul_le_mono_nonneg_r; lia). lia. }
    split_and!; try done. apply finite_below; [done|]. lia.
Qed.

(** The quotient of two quotients, the second below one and not below the
    hundredth. *)
Lemma ratio_float u p :
  good u -> good p -> is_finite u = true -> is_finite p = true ->
  fz u <= 2 ^ 45 * scale -> fz p <= fz u -> fz p <= scale -> scale * EPS0 <= fz p * 100 * EPS1 ->
  let q := (u / p)%f64 in
  good q /\ is_finite q = true /\ scale <= fz q /\ fz q < 2 ^ 53 * scale /\
  fz u * scale * EPS0 <= fz q * fz p * EPS1 /\ fz q * fz p * EPS0 <= fz u * scale * EPS1.
Proof.
  intros Gu Gp Iu Ip Hu Hpu Hp1 Hp q. pose proof scale_big as HS. pose proof top_big as HT.
  assert (Hp0 : scale <= fz p * 128) by (unfold EPS0, EPS1 in *; lia).
  destruct (div_normal u p Gu Gp Iu Ip) as (Gq & H1 & H2); [lia| |].
  - unfold TINY. split.
    + apply Z.le_trans with (fz u * 2 ^ 52); [lia|]. apply Z.mul_le_mono_nonneg_l; lia.
    + assert (fz u * scale <= 2 ^ 45 * scale * scale) by (apply Z.mul_le_mono_nonneg_r; lia).
      assert (2 ^ 45 * scale * scale <= 2 ^ 45 * scale * (fz p * 128)) by (apply Z.mul_le_mono_nonneg_l; lia).
      assert (2 ^ 200 * scale * fz p < top * fz p) by (apply Z.mul_lt_mono_pos_r; lia).
      assert (0 < scale * fz p) by (apply Z.mul_pos_pos; lia). lia.
  - fold q in Gq, H1, H2. pose proof (f_div_rounds u p Gu Gp Iu Ip ltac:(lia)) as (_ & _ & Hlo).
    destruct (f_of_Z_spec 1) as (G1 & F1 & _); [done|].
    assert (H3 : scale <= fz q).
    { rewrite <- (Z.mul_1_l scale), <- F1. apply Hlo; [done|]. rewrite F1, Z.mul_1_l, Z.mul_comm.
      apply Z.mul_le_mono_nonneg_r; lia. }
    assert (H4 : fz q < 2 ^ 53 * scale).
    { apply Z.nle_gt. intros Hge. assert (fz q * scale <= fz q * (fz p * 128)) by (apply Z.mul_le_mono_nonneg_l; lia).
      assert (fz u * scale <= 2 ^ 45 * scale * scale) by (apply Z.mul_le_mono_nonneg_r; lia).
      assert (2 ^ 53 * scale * scale <= fz q * scale) by (apply Z.mul_le_mono_nonneg_r; lia).
      assert (0 < scale * scale) by (apply Z.mul_pos_pos; lia). unfold EPS0, EPS1 in *. lia. }
    split_and!; try done. apply finite_below; [done|]. lia.
Qed.
End floats.

(** ** The decision *)
Definition ceil_float (k : N) : f64 := (f_of_N k / f_of_N 100)%f64.
Definition usage_float (used capacity : N) : f64 := (f_of_N used / f_of_N capacity)%f64.

Section decision.
#[local] Open Scope Z_scope.
Context (k cpus c wall : N).
Hypothesis (Hk : (1 <= k <= 100)%N) (Hw : (1 <= wall)%N) (Hn : (1 <= cpus)%N).
Hypothesis (HC : (wall * cpus < 2 ^ 44)%N) (Hc : (c < 2 ^ 44)%N).
Let p := ceil_float k.
Let u := usage_float c (wall * cpus).

Lemma percent_float :
  good p /\ is_finite p = true /\ fz p <= scale /\
  fz p * 100 * EPS0 <= Z.of_N k * scale * EPS1 /\ Z.of_N k * scale * EPS0 <= fz p * 100 * EPS1.
Proof.
  destruct (int_quotient k 100 ltac:(lia) ltac:(lia)) as (Gp & Ip & _ & H1 & H2).
  unfold p, ceil_float. split_and!; try done.
  destruct (f_of_N_spec k ltac:(lia)) as (Gk & Fk & Ik).
  destruct (f_of_N_spec 100 ltac:(lia)) as (G & F & I). destruct (f_of_Z_spec 1) as (G1 & F1 & _); [done|].
  pose proof scale_pos. destruct (f_div_rounds _ _ Gk G Ik I ltac:(lia)) as (_ & Hup & _).
  rewrite <- (Z.mul_1_l scale), <- F1. apply Hup; [done|]. rewrite Fk, F, F1.
  assert (Z.of_N k * (scale * scale) <= 100 * (scale * scale)) by (apply Z.mul_le_mono_nonneg_r; lia). lia.
Qed.

Lemma usage_spec :
  good u /\ (c = 0%N -> fz u = 0) /\
  (c <> 0%N -> is_finite u = true /\ fz u <= 2 ^ 45 * scale /\
     Z.of_N c * scale * EPS0 <= fz u * (Z.of_N wall * Z.of_N cpus) * EPS1 /\
     fz u * (Z.of_N wall * Z.of_N cpus) * EPS0 <= Z.of_N c * scale * EPS1).
Proof.
  assert (H1C : (1 <= wall * cpus)%N) by lia.
  destruct (decide (c = 0%N)) as [E|Hc0].
  - destruct (f_of_N_spec c ltac:(lia)) as (Ga & Fa & Ia).
    destruct (f_of_N_spec (wall * cpus) ltac:(lia)) as (Gb & Fb & Ib). pose proof scale_pos.
    destruct (f_div_rounds _ _ Ga Gb Ia Ib) as (Gu & Hup & _); [rewrite Fb; nia|].
    split; [done|]. split; [intros _|done]. pose proof (good_nonneg u Gu).
    assert (Hz : fz (f_of_N c / f_of_N (wall * cpus))%f64 <= fz f_zero).
    { apply Hup; [done|]. rewrite Fa, E. change (fz f_zero) with 0. lia. }
    change (fz f_zero) with 0 in Hz. unfold u, usage_float in *. lia.
  - destruct (int_quotient c (wall * cpus)) as (Gu & Iu & Hu & H1 & H2); [lia..|].
    rewrite N2Z.inj_mul in H1, H2. unfold u, usage_float. by split_and!.
Qed.

Lemma throttle_action_eq :
  throttle_action (f_of_N k) cpus c wall =
    if (u <=? p)%f64 then Continue else Sleep (f_to_uN 64 (f_of_N wall * (u / p - f_one))%f64).
Proof.
  unfold throttle_action, saturating_mul, u_max. rewrite (proj2 (N.eqb_neq _ _)) by lia.
  by rewrite N.min_l by lia.
Qed.

Lemma continue_ok :
  throttle_action (f_of_N k) cpus c wall = Continue ->
  Z.of_N c * 100 * 2 ^ 49 <= Z.of_N wall * Z.of_N cpus * Z.of_N k * (2 ^ 49 + 1).
Proof.
  rewrite throttle_action_eq. destruct percent_float as (Gp & Ip & _ & Hp & _). pose proof scale_pos.
  destruct usage_spec as (Gu & _ & Hu). destruct (decide (c = 0%N)) as [->|Hc0]; [intros _; rewrite Z.mul_0_l; lia|].
  destruct (Hu Hc0) as (_ & _ & H1 & _). rewrite f_leb_good by done.
  destruct (Z.leb_spec (fz u) (fz p)) as [Hle|]; [|done]. intros _. apply two_roundings; [lia..|].
  pose proof (good_nonneg _ Gu). pose proof (good_nonneg _ Gp).
  by apply (continue_upper scale _ _ _ _ _ _ (fz u) (fz p)); try (unfold EPS0, EPS1; lia).
Qed.

(** The sleep, in units of [2^-1074]. *)
Lemma sleep_float :
  fz p < fz u ->
  exists Q W, 0 <= Q /\ 0 <= W /\
    fz u * scale * EPS0 <= Q * fz p * EPS1 /\ Q * fz p * EPS0 <= fz u * scale * EPS1 /\
    Z.of_N wall * (Q - scale) * EPS0 <= W * EPS1 + TINY * EPS0 /\
    W * EPS0 <= Z.of_N wall * (Q - scale) * EPS1 + TINY * EPS0 /\
    let d := f_to_uN 64 (f_of_N wall * (u / p - f_one))%f64 in
    Z.of_N d * scale <= W /\ (W <= (Z.of_N d + 1) * scale \/ d = u_max 64).
Proof.
  intros Hlt. destruct percent_float as (Gp & Ip & Hp1 & _ & Hp). destruct usage_spec as (Gu & H0 & Hu).
  pose proof (good_nonneg _ Gp) as Hp0. destruct (decide (c = 0%N)) as [E|Hc0]; [specialize (H0 E); lia|].
  destruct (Hu Hc0) as (Iu & Hu1 & _). pose proof scale_big as HS. pose proof top_big as HT.
  assert (HkS : scale * EPS0 <= Z.of_N k * scale * EPS0).
  { apply Z.mul_le_mono_nonneg_r; [unfold EPS0; lia|]. rewrite <- (Z.mul_1_l scale) at 1. apply Z.mul_le_mono_nonneg_r; lia. }
  destruct (ratio_float u p) as (Gq & Iq & Hq1 & Hq2 & H1 & H2); [done..|lia|done|lia|].
  set (q := (u / p)%f64) in *.
  destruct (f_sub_exact q 1) as (Gr & Fr); [done|exact Hq2|lia|].
  change (Z.of_N 1) with 1 in Fr. rewrite Z.mul_1_l in Fr. change (f_of_N 1) with f_one in *.
  destruct (f_of_N_spec wall) as (Gw & Fw & Iw); [nia|].
  assert (Hw44 : Z.of_N wall < 2 ^ 44) by nia.
  assert (HR : Z.of_N wall * (fz q - scale) <= 2 ^ 44 * (2 ^ 53 * scale)) by (apply Z.mul_le_mono_nonneg; lia).
  assert (HR0 : 0 <= Z.of_N wall * (fz q - scale)) by (apply Z.mul_nonneg_nonneg; lia).
  destruct (mul_rel (f_of_N wall) (q - f_one)%f64) as (Gm & H3 & H4); try done.
  { apply finite_below; [done|]. lia. }
  { rewrite Fw, Fr. assert (Z.of_N wall * (fz q - scale) * scale < top * scale) by (apply Z.mul_lt_mono_pos_r; lia). lia. }
  rewrite Fw, Fr in H3, H4. destruct (to_u64_spec _ Gm) as [Hd1 Hd2].
  pose proof (good_nonneg _ Gq). pose proof (good_nonneg _ Gm).
  exists (fz q), (fz (f_of_N wall * (q - f_one))%f64). split_and!; try done; try lia.
  - apply (Z.mul_le_mono_pos_r _ _ scale); lia.
  - apply (Z.mul_le_mono_pos_r _ _ scale); lia.
Qed.

Lemma sleep_ok d :
  throttle_action (f_of_N k) cpus c wall = Sleep d ->
  Z.of_N c * 100 * 2 ^ 49 <= (Z.of_N wall + Z.of_N d + 1) * Z.of_N cpus * Z.of_N k * (2 ^ 49 + 1) /\
  (Z.of_N wall + Z.of_N d - 1) * Z.of_N cpus * Z.of_N k * 2 ^ 49 <= Z.of_N c * 100 * (2 ^ 49 + 1).
Proof.
  rewrite throttle_action_eq. destruct percent_float as (Gp & Ip & _ & Hp & Hp'). destruct usage_spec as (Gu & H0 & Hu).
  rewrite f_leb_good by done. destruct (Z.leb_spec (fz u) (fz p)) as [|Hlt]; [done|]. intros [= <-].
  destruct (sleep_float Hlt) as (Q & W & HQ & HW & H1 & H2 & H3 & H4 & Hd1 & Hd2).
  set (d := f_to_uN 64 _) in *. pose proof (good_nonneg _ Gp). pose proof scale_big as HS.
  destruct (decide (c = 0%N)) as [E|Hc0]; [specialize (H0 E); lia|].
  destruct (Hu Hc0) as (_ & _ & Hu1 & Hu2). split.
  - destruct Hd2 as [Hd2|Hd2].
    + apply four_roundings; [lia..|].
      eapply total_upper with (S := scale) (Q := Q); try (unfold EPS0, EPS1; lia).
      * eapply average_upper with (U := fz u) (P := fz p); try (unfold EPS0, EPS1; lia); lia.
      * eapply sleep_upper with (W := W) (T := TINY); unfold TINY, EPS0, EPS1 in *; lia.
    + rewrite Hd2. assert (1 <= Z.of_N cpus * Z.of_N k) by nia. change (Z.of_N (u_max 64)) with (2 ^ 64 - 1).
      assert ((Z.of_N wall + (2 ^ 64 - 1) + 1) * 1 <= (Z.of_N wall + (2 ^ 64 - 1) + 1) * (Z.of_N cpus * Z.of_N k))
        by (apply Z.mul_le_mono_nonneg_l; lia). lia.
  - apply four_roundings; [nia|lia|].
    eapply total_lower with (S := scale) (Q := Q); try (unfold EPS0, EPS1; lia).
    + eapply average_lower with (U := fz u) (P := fz p); try (unfold EPS0, EPS1; lia); lia.
    + eapply sleep_lower with (W := W) (T := TINY); unfold TINY, EPS0, EPS1 in *; lia.
Qed.
End decision.

(** ** Reading the statistics *)
Definition spaced (ws : list str) : str := concat (map (fun w => w ++ [space]) ws).

Definition is_word (w : str) : Prop :=
  w <> [] /\ Forall (fun c => is_whitespace c = false) w /\ rparen ∉ w.

Lemma words_spaced ws rest :
  Forall is_word ws -> words_loop [] (spaced ws ++ rest) = ws ++ words_loop [] rest.
Proof.
  induction 1 as [|w ws (Hw & Hs & _) _ IH]; [done|]. unfold spaced in *. cbn [map concat].
  rewrite <- !app_assoc. cbn [app]. by rewrite words_word, IH.
Qed.

Lemma decimal_word n : is_word (decimal n).
Proof.
  split; [apply format_nonempty|]. split; [apply decimal_not_space|].
  apply decimal_no_char. unfold rparen. lia.
Qed.

Lemma spaced_no_paren ws : Forall is_word ws -> rparen ∉ spaced ws.
Proof.
  induction 1 as [|w ws (_ & _ & Hw) _ IH]; [by apply not_elem_of_nil|].
  unfold spaced in *. cbn [map concat]. rewrite !not_elem_of_app. split; [split; [done|]|done].
  by intros ?%list_elem_of_singleton.
Qed.

(** The name of the program may hold anything, spaces and parentheses included. *)
Lemma stat_reads_any_name (before comm tail : str) (ws : list str) (utime stime : N) :
  Forall is_word ws -> length ws = 11%nat -> rparen ∉ tail -> utime + stime < 2 ^ 34 ->
  read_linux_process_cpu_ns
    (before ++ comm ++ rparen :: space :: spaced (ws ++ [decimal utime; decimal stime]) ++ tail) =
  Some ((utime + stime) * 10000000).
Proof.
  intros Hws Hl Ht Hsum. assert (Hall : Forall is_word (ws ++ [decimal utime; decimal stime])).
  { apply Forall_app. split; [done|]. repeat constructor; apply decimal_word. }
  unfold read_linux_process_cpu_ns. rewrite app_assoc, rsplit_char_app.
  2: { apply not_elem_of_cons. split; [done|]. rewrite not_elem_of_app. by split; [apply spaced_no_paren|]. }
  cbn [mbind option_bind]. set (rest := spaced _ ++ tail).
  assert (Hts : trim_start (space :: rest) = rest).
  { change (trim_start (space :: rest)) with (trim_start rest). unfold rest.
    destruct ws as [|w ws]; [done|]. apply Forall_app in Hall as [Hall _]. apply Forall_cons in Hall as [(Hn & Hs & _) _].
    destruct w as [|c w]; [done|]. apply Forall_cons in Hs as [Hc _].
    unfold spaced. cbn [map concat app trim_start]. by rewrite Hc. }
  rewrite Hts. unfold split_whitespace, rest. rewrite words_spaced by done. rewrite <- app_assoc.
  rewrite (lookup_app_r ws _ 11), (lookup_app_r ws _ 12), Hl by lia. cbn [app lookup list_lookup Nat.sub mbind option_bind].
  rewrite !decimal_parse by lia. cbn [mbind option_bind]. f_equal.
  unfold wrapping_add, wrap. rewrite (N.mod_small (utime + stime)), N.mod_small by lia. unfold LINUX_CLK_TCK.
  replace ((utime + stime) * 1000000000) with ((utime + stime) * 10000000 * 100) by lia. by apply N.div_mul.
Qed.

(** ** Properties *)

(** C37: Sleeping as told keeps the ceiling: at a tier where the ceiling is active, with
    a baseline taken, a percentage from 1 to 100 and times below 2^44 nanoseconds
    (almost five hours, over the processors together), the processor time used since the last call over the time
    since then plus the sleep stays within the percentage, up to one part in
    [2^49] and a nanosecond, whether the answer is to go on or to sleep; and the
    sleep is no longer than that, up to as much.  The other tiers never sleep. *)
Theorem obeying_keeps_the_ceiling (t : CpuCeiling) (k now cpu : N) :
  let s := sampler t in
  let used := cpu - last_cpu_ns s in
  let wall := now - last_wall s in
  let cpus := logical_cpus t in
  ceiling_pct t = f_of_N k -> 1 <= k <= 100 ->
  initialized s = true -> 1 <= wall -> 1 <= cpus -> wall * cpus < 2 ^ 44 -> used < 2 ^ 44 ->
  if cpu_ceiling_active (tier t) then
    match snd (throttle t now (Some cpu)) with
    | Continue => used * 100 * 2 ^ 49 <= wall * cpus * k * (2 ^ 49 + 1)
    | Sleep d =>
        used * 100 * 2 ^ 49 <= (wall + d + 1) * cpus * k * (2 ^ 49 + 1) /\
        (wall + d - 1) * cpus * k * 2 ^ 49 <= used * 100 * (2 ^ 49 + 1)
    end
  else throttle t now (Some cpu) = (t, Continue).
Proof.
  cbv zeta. intros Hp Hk Hi Hw Hn HC Hc. unfold throttle. destruct (cpu_ceiling_active (tier t)); [|done].
  cbn [negb delta_ns]. rewrite Hi. cbn [snd ceiling_pct logical_cpus]. rewrite Hp.
  assert (Hw64 : now - last_wall (sampler t) < 2 ^ 64) by nia.
  unfold wrap. rewrite N.mod_small by done.
  destruct (throttle_action _ _ _ _) as [|d] eqn:E.
  - apply continue_ok in E; [lia|done..].
  - apply sleep_ok in E as [H1 H2]; [|done..]. lia.
Qed.

(** A tenth of a second on four cores, half of their time used. *)
Definition busy : CpuCeiling :=
  {| ceiling_pct := f_of_N 35; tier := Constrained; logical_cpus := 4;
     sampler := {| last_wall := 1000000000; last_cpu_ns := 5000000; initialized := true |} |}.

Lemma obeying_keeps_the_ceiling_witness :
  snd (throttle busy 1100000000 (Some 205000000)) = Sleep 42857142 /\
  200000000 * 100 * 2 ^ 49 <= (100000000 + 42857142 + 1) * 4 * 35 * (2 ^ 49 + 1).
Proof.
  assert (E : snd (throttle busy 1100000000 (Some 205000000)) = Sleep 42857142) by (by vm_compute).
  split; [exact E|].
  pose proof (obeying_keeps_the_ceiling busy 35 1100000000 205000000) as H. cbv zeta in H.
  change (cpu_ceiling_active (tier busy)) with true in H. cbn iota in H. rewrite E in H.
  assert (Hr : 1 <= 35 <= 100) by lia.
  specialize (H ltac:(reflexivity) Hr ltac:(reflexivity)).
  do 4 (match type of H with ?A -> _ => assert (Ha : A) by (by vm_compute); specialize (H Ha); clear Ha end).
  destruct H as [H _]. vm_compute in H |- *. exact H.
Defined.

(** A ceiling of zero per cent, which [new] accepts, asks for a sleep of 584 years. *)
Lemma zero_ceiling_sleeps_forever :
  ceiling_new f_zero 4 0 None <> None /\ throttle_action f_zero 4 1000 1000000 = Sleep (u_max 64).
Proof. by split; vm_compute. Qed.

(** The telemetry stays a percentage, whatever is read. *)
Definition percentage (x : f64) : Prop := good x /\ (fz x <= 100 * scale)%Z.

Lemma usage_is_a_percentage (t : CpuTelemetry) (now : N) (read : option N) :
  1 <= t_logical_cpus t -> default 0 read < 2 ^ 64 -> percentage (last_usage_pct t) ->
  percentage (snd (cpu_usage_pct t now read)) /\
  last_usage_pct (fst (cpu_usage_pct t now read)) = snd (cpu_usage_pct t now read).
Proof.
  intros Hn Hr Hl. unfold cpu_usage_pct. destruct read as [cpu|]; [|done]. cbn [delta_ns default] in *.
  destruct (initialized (t_sampler t)); [|done]. set (wall := wrap 64 _).
  destruct (N.eqb_spec wall 0) as [|Hw]; [done|]. cbn [fst snd last_usage_pct]. split; [|done].
  change (cpu < 2 ^ 64) in Hr. set (cap := saturating_mul 64 wall (t_logical_cpus t)).
  assert (Hcap : 1 <= cap < 2 ^ 64).
  { unfold cap, saturating_mul. change (u_max 64) with (2 ^ 64 - 1). nia. }
  destruct (f_of_N_u64 (cpu - last_cpu_ns (t_sampler t))) as (Gc & Ic & _); [lia|].
  destruct (f_of_N_u64 cap) as (Gb & Ib & Hb); [lia|]. specialize (Hb ltac:(lia)).
  destruct (div_bound _ _ _ Gc Ic Gb Ib Hb Gc Ic ltac:(lia)) as (Gd & _ & Id).
  destruct (f_of_N_spec 100) as (G & F & I); [done|].
  pose proof (f_mul_rounds _ _ Gd G Id I) as [Gm _].
  assert (G0 : good f_zero) by done.
  destruct (f_clamp_spec _ f_zero (f_of_N 100) Gm G0 G) as [Gx Fx].
  { rewrite F. change (fz f_zero) with 0%Z. scale_lia. }
  split; [done|]. rewrite Fx, F. change (fz f_zero) with 0%Z. scale_lia.
Qed.
