(* ===== verification/Guardrail.v ===== *)
(** The integrity guardrails of Gear A: [fallback_detector.rs] of
    [core/platform/src].

    [Instant]s are nanoseconds, an argument; a [Duration] is an [N]. *)
From S2P Require Import Prelude F64.
#[local] Open Scope N_scope.

(** ** One frame *)
Definition KEYPOINT_CONFIDENCE_THRESHOLD : f32 := s_lit 5 10.
Definition NON_FACE_PIXEL_RATIO_THRESHOLD : f32 := s_lit 4 10.
Definition FORCE_GEAR_B_DEADLINE_MS : N := 200.

Record FrameAnalysis := mkAnalysis {
  keypoint_confidences : list f32; hand_occlusion : bool; face_count : N; non_face_pixel_ratio : f32 }.

Inductive GuardrailTrip :=
| LowKeypointConfidence (mean_confidence : f32)
| HandOcclusion
| SecondFace (face_count : N)
| NonFacePixelRatio (ratio : f32).

Record FallbackDetector := mkFallback {
  keypoint_confidence_threshold : f32; non_face_pixel_ratio_threshold : f32 }.

Definition fallback_new : FallbackDetector :=
  mkFallback KEYPOINT_CONFIDENCE_THRESHOLD NON_FACE_PIXEL_RATIO_THRESHOLD.

Definition mean_confidence (confidences : list f32) : f32 :=
  match confidences with
  | [] => s_zero
  | _ => (s_sum confidences / s_of_Z (Z.of_nat (length confidences)))%f32
  end.

Definition check (d : FallbackDetector) (a : FrameAnalysis) : option GuardrailTrip :=
  let mean_conf := mean_confidence (keypoint_confidences a) in
  if (mean_conf <? keypoint_confidence_threshold d)%f32 then Some (LowKeypointConfidence mean_conf)
  else if hand_occlusion a then Some HandOcclusion
  else if 1 <? face_count a then Some (SecondFace (face_count a))
  else if (non_face_pixel_ratio a >? non_face_pixel_ratio_threshold d)%f32
  then Some (NonFacePixelRatio (non_face_pixel_ratio a))
  else None.

(** ** The latch *)
Record GuardrailDetector := mkGuardrail {
  detector : FallbackDetector; trip_start : option N; deadline : N }.

Definition with_deadline (d : FallbackDetector) (deadline : N) : GuardrailDetector :=
  mkGuardrail d None deadline.

Definition guardrail_new : GuardrailDetector :=
  with_deadline fallback_new (FORCE_GEAR_B_DEADLINE_MS * 1000000).

Definition update (g : GuardrailDetector) (a : FrameAnalysis) (now : N) :
    GuardrailDetector * option GuardrailTrip :=
  match check (detector g) a with
  | None => (mkGuardrail (detector g) None (deadline g), None)
  | Some trip =>
      let start := match trip_start g with None => Some now | Some t => Some t end in
      (mkGuardrail (detector g) start (deadline g), Some trip)
  end.

Definition is_gear_b_required (g : GuardrailDetector) : bool :=
  match trip_start g with Some _ => true | None => false end.

Definition trip_duration (g : GuardrailDetector) (now : N) : option N :=
  (fun t => now - t) <$> trip_start g.

Definition deadline_exceeded (g : GuardrailDetector) (now : N) : bool :=
  match trip_duration g now with Some d => deadline g <? d | None => false end.

Definition clear_trip (g : GuardrailDetector) : GuardrailDetector :=
  mkGuardrail (detector g) None (deadline g).

(** ** Histories *)
Inductive Event := Frame (a : FrameAnalysis) (now : N) | Cleared.

Definition step (g : GuardrailDetector) (e : Event) : GuardrailDetector :=
  match e with Frame a now => fst (update g a now) | Cleared => clear_trip g end.

Definition run (d : FallbackDetector) (limit : N) (es : list Event) : GuardrailDetector :=
  foldl step (with_deadline d limit) es.

(** The frame trips a guardrail. *)
Definition unsafe (d : FallbackDetector) (e : Event) : bool :=
  match e with Frame a _ => match check d a with Some _ => true | None => false end | Cleared => false end.

(** The moment the present run of unsafe frames began. *)
Definition run_since (d : FallbackDetector) (es : list Event) (t : N) : Prop :=
  exists pre a post, es = pre ++ Frame a t :: post /\
    Forall (fun e => unsafe d e = true) (Frame a t :: post) /\
    match last pre with Some e => unsafe d e = false | None => True end.

Section history.
Context (d : FallbackDetector) (limit : N).

Lemma guard_run_snoc es e : run d limit (es ++ [e]) = step (run d limit es) e.
Proof. unfold run. by rewrite foldl_app. Qed.

Lemma run_config es : detector (run d limit es) = d /\ deadline (run d limit es) = limit.
Proof.
  induction es as [|e es [IH1 IH2]] using rev_ind; [done|]. rewrite guard_run_snoc.
  destruct e as [a now|]; [|done]. cbn [step]. unfold update. by destruct (check _ a).
Qed.

Lemma step_safe es e : unsafe d e = false -> trip_start (run d limit (es ++ [e])) = None.
Proof.
  rewrite guard_run_snoc. destruct e as [a now|]; [|done]. cbn [step unsafe]. unfold update.
  rewrite (proj1 (run_config es)). by destruct (check d a).
Qed.

Lemma step_unsafe es a now :
  unsafe d (Frame a now) = true ->
  trip_start (run d limit (es ++ [Frame a now])) = Some (default now (trip_start (run d limit es))).
Proof.
  rewrite guard_run_snoc. cbn [step unsafe]. unfold update. rewrite (proj1 (run_config es)).
  destruct (check d a); [|done]. intros _. cbn [fst trip_start]. by destruct (trip_start (run d limit es)).
Qed.

Lemma trip_start_spec es t : trip_start (run d limit es) = Some t <-> run_since d es t.
Proof.
  revert t. induction es as [|e es IH] using rev_ind; intros t.
  { split; [done|]. by intros ([] & ? & ? & ? & _). }
  assert (Hlast : forall t, run_since d (es ++ [e]) t -> unsafe d e = true).
  { intros s (pre & a & post & E & F & _). destruct post as [|e' post _] using rev_ind.
    - apply app_inj_tail in E as [_ ->]. by apply Forall_cons in F as [? _].
    - rewrite app_comm_cons, app_assoc in E. apply app_inj_tail in E as [_ ->].
      rewrite app_comm_cons in F. apply Forall_app in F as [_ F]. by apply Forall_cons in F as [? _]. }
  destruct (unsafe d e) eqn:He.
  2: { rewrite step_safe by done. split; [done|]. intros Ht. by apply Hlast in Ht. }
  destruct e as [a now|]; [|done]. rewrite step_unsafe by done.
  destruct (trip_start (run d limit es)) as [s|] eqn:Es; cbn [default].
  - clear Es. pose proof (proj1 (IH s) eq_refl) as Es. split.
    + intros [= ->]. destruct Es as (pre & b & post & -> & F & Hp). exists pre, b, (post ++ [Frame a now]).
      split_and!; [by rewrite <- app_assoc| |done]. rewrite app_comm_cons. apply Forall_app. split; [done|]. by constructor.
    + intros (pre & b & post & E & F & Hp). f_equal.
      destruct post as [|e' post _] using rev_ind.
      * apply app_inj_tail in E as [-> [= -> ->]]. destruct Es as (pre' & c & post' & -> & F' & _).
        rewrite last_app_cons in Hp. destruct (last (Frame c s :: post')) as [x|] eqn:El; [|rewrite last_cons in El; by destruct (last post')].
        apply last_Some in El as [l El]. rewrite El in F'. apply Forall_app in F' as [_ F'].
        apply Forall_cons in F' as [F' _]. by rewrite F' in Hp.
      * rewrite app_comm_cons, app_assoc in E. apply app_inj_tail in E as [-> _].
        rewrite app_comm_cons in F. apply Forall_app in F as [F _].
        assert (Ht : run_since d (pre ++ Frame b t :: post) t) by (by exists pre, b, post).
        apply IH in Ht. by injection Ht.
  - split.
    + intros [= <-]. exists es, a, []. split_and!; [done|by repeat constructor|].
      destruct (last es) as [x|] eqn:El; [|done]. destruct (unsafe d x) eqn:Hx; [|done].
      apply last_Some in El as [l ->]. destruct x as [c s|]; [|done]. by rewrite step_unsafe in Es.
    + intros (pre & b & post & E & F & Hp). f_equal. destruct post as [|e' post _] using rev_ind.
      * by apply app_inj_tail in E as [_ [= _ ->]].
      * rewrite app_comm_cons, app_assoc in E. apply app_inj_tail in E as [-> _].
        rewrite app_comm_cons in F. apply Forall_app in F as [F _].
        assert (Ht : run_since d (pre ++ Frame b t :: post) t) by (by exists pre, b, post).
        apply IH in Ht. congruence.
Qed.

(** ** Properties *)

(** What the guardrail remembers: the moment the present run of unsafe frames
    began, whatever came before.  Gear B is required exactly when the last event
    is an unsafe frame, and the deadline is missed exactly when that run is older
    than it. *)
Theorem guardrail_tracks_the_run (es : list Event) (now : N) :
  (forall t, trip_start (run d limit es) = Some t <-> run_since d es t) /\
  (is_gear_b_required (run d limit es) = true <-> exists e, last es = Some e /\ unsafe d e = true) /\
  (deadline_exceeded (run d limit es) now = true <-> exists t, run_since d es t /\ limit < now - t).
Proof.
  split; [apply trip_start_spec|]. split.
  - unfold is_gear_b_required. destruct es as [|e es _] using rev_ind; [split; [done|by intros (? & ? & _)]|].
    rewrite last_snoc. destruct (unsafe d e) eqn:He.
    + destruct e as [a t|]; [|done]. rewrite step_unsafe by done. split; [by eexists|done].
    + rewrite step_safe by done. split; [done|]. intros (? & [= <-] & ?). congruence.
  - unfold deadline_exceeded, trip_duration. rewrite (proj2 (run_config es)).
    destruct (trip_start (run d limit es)) as [t|] eqn:Et; cbn [fmap option_fmap option_map].
    + rewrite N.ltb_lt. pose proof (proj1 (trip_start_spec _ _) Et) as Hs. split; [by exists t|].
      intros (t' & Ht' & Hl). apply trip_start_spec in Ht'. by assert (t = t') as -> by congruence.
    + split; [done|]. intros (t & Ht & _). apply trip_start_spec in Ht. congruence.
Qed.
End history.

(** A confidence that is not a number passes the first guardrail. *)
Lemma nan_confidence_passes d a :
  S754_nan ∈ keypoint_confidences a -> hand_occlusion a = false -> face_count a <= 1 ->
  (non_face_pixel_ratio a >? non_face_pixel_ratio_threshold d)%f32 = false ->
  check d a = None.
Proof.
  intros Hn Hh Hf Hr. unfold check, mean_confidence. destruct (keypoint_confidences a) as [|x l] eqn:E.
  { by apply not_elem_of_nil in Hn. }
  rewrite s_sum_nan by done. cbn [s_div SFdiv]. rewrite Hh, Hr, (proj2 (N.ltb_ge _ _)) by done. done.
Qed.

(** A good frame clears the latch by itself. *)
Definition confident : FrameAnalysis := mkAnalysis [s_lit 9 10] false 1 s_zero.
Definition occluded : FrameAnalysis := mkAnalysis [s_lit 9 10] true 1 s_zero.

Lemma good_frame_unlatches :
  is_gear_b_required (run fallback_new 200000000 [Frame occluded 0]) = true /\
  is_gear_b_required (run fallback_new 200000000 [Frame occluded 0; Frame confident 40000000]) = false.
Proof. by split; vm_compute. Qed.
