(* ===== verification/Compress.v ===== *)
(** The users of zstd: the chunk compressor of [core/xfer/src/compress.rs] and the
    reliable channel of [core/messaging/src/channel.rs].

    The library is third-party code: [Zstd] is its interface, [ZstdLaws] the
    behaviour the code relies on, [stored] an instance of the laws.  An error is
    its message. *)
From S2P Require Import Prelude Text.
#[local] Open Scope N_scope.

(** ** zstd *)
Class Zstd := {
  zstd_compress : option (list byte) -> Z -> list byte -> result str (list byte);
  zstd_decompress : option (list byte) -> list byte -> N -> result str (list byte) }.

(** What was compressed with a dictionary decompresses with it, if it fits the
    capacity; nothing longer than the capacity comes out. *)
Class ZstdLaws `{Zstd} : Prop := {
  decompress_compress d level x y cap :
    zstd_compress d level x = Ok y -> lenN x <= cap -> zstd_decompress d y cap = Ok x;
  decompress_bounded d y cap x : zstd_decompress d y cap = Ok x -> lenN x <= cap }.

Definition stored : Zstd := {|
  zstd_compress _ _ x := Ok x;
  zstd_decompress _ y cap := if lenN y <=? cap then Ok y else Err [] |}.

Lemma stored_laws : @ZstdLaws stored.
Proof.
  split; cbn.
  - intros _ _ x y cap [= <-] Hx. by rewrite (proj2 (N.leb_le _ _)).
  - intros _ y cap x. destruct (N.leb_spec (lenN y) cap); [by intros [= <-]|done].
Qed.

(** ** The chunk compressor *)
Definition LEVEL_FOREGROUND : Z := 3.
Definition LEVEL_BACKGROUND : Z := 19.
Definition DECOMPRESS_CAPACITY : N := 64 * 1024 * 1024.

Inductive CompressionMode := Foreground | Background.

Definition level (m : CompressionMode) : Z :=
  match m with Foreground => LEVEL_FOREGROUND | Background => LEVEL_BACKGROUND end.

Record XferCompressor := mkCompressor { mode : CompressionMode; dictionary : option (list byte) }.

Definition compressor_new (m : CompressionMode) : XferCompressor := mkCompressor m None.
Definition with_dictionary (m : CompressionMode) (dict : list byte) : XferCompressor :=
  mkCompressor m (Some dict).

Record FileChunk := mkChunk { chunk_id : list byte; chunk_offset : N; chunk_data : list byte }.
Record CompressedChunk := mkCompressed { c_id : list byte; c_offset : N; compressed : list byte }.

Section zstd.
Context `{Zstd}.

Definition compress (c : XferCompressor) (data : list byte) : result str (list byte) :=
  zstd_compress (dictionary c) (level (mode c)) data.

Definition compress_chunk (c : XferCompressor) (k : FileChunk) : result str CompressedChunk :=
  y ← compress c (chunk_data k); Ok (mkCompressed (chunk_id k) (chunk_offset k) y).

Definition compress_chunks (chunks : list FileChunk) (c : XferCompressor) : result str (list CompressedChunk) :=
  foldr (fun k rest => y ← compress_chunk c k; ys ← rest; Ok (y :: ys)) (Ok []) chunks.

Definition decompress (data : list byte) (dict : option (list byte)) : result str (list byte) :=
  zstd_decompress dict data DECOMPRESS_CAPACITY.

(** ** The reliable channel *)
Definition TYPE_CLIPBOARD : N := 0x01.
Definition TYPE_CHAT : N := 0x02.
Definition ZSTD_LEVEL : Z := 3.
Definition MAX_BODY_LEN : N := 64 * 1024 * 1024.

Inductive Message := Clipboard (text : str) | Chat (text : str).

Inductive ChannelError :=
| FrameTooShort | UnknownType (t : N) | BodyTooLarge (n : N)
| LengthMismatch (expected actual : N) | ZstdError (msg : str) | InvalidUtf8.

Definition encode (msg_type : N) (text : str) : result ChannelError (list byte) :=
  match zstd_compress None ZSTD_LEVEL (as_bytes text) with
  | Err e => Err (ZstdError e)
  | Ok y => Ok (byte_of msg_type :: be_bytes 4 (wrap 32 (lenN y)) ++ y)
  end.

Definition encode_clipboard (text : str) := encode TYPE_CLIPBOARD text.
Definition encode_chat (text : str) := encode TYPE_CHAT text.

Definition decode (frame : list byte) : result ChannelError Message :=
  match frame with
  | t :: b0 :: b1 :: b2 :: b3 :: payload =>
      let body_len := be_value [b0; b1; b2; b3] in
      if MAX_BODY_LEN <? body_len then Err (BodyTooLarge body_len)
      else if negb (lenN payload =? body_len) then Err (LengthMismatch body_len (lenN payload))
      else
        match zstd_decompress None payload MAX_BODY_LEN with
        | Err e => Err (ZstdError e)
        | Ok decompressed =>
            match from_utf8 decompressed with
            | None => Err InvalidUtf8
            | Some text =>
                if Byte.to_N t =? TYPE_CLIPBOARD then Ok (Clipboard text)
                else if Byte.to_N t =? TYPE_CHAT then Ok (Chat text)
                else Err (UnknownType (Byte.to_N t))
            end
        end
  | _ => Err FrameTooShort
  end.

Definition encode_message (m : Message) : result ChannelError (list byte) :=
  match m with Clipboard text => encode_clipboard text | Chat text => encode_chat text end.

Definition text_of (m : Message) : str := match m with Clipboard text | Chat text => text end.

(** ** Lemmas *)
Definition framed (t : N) (payload : list byte) : list byte :=
  byte_of t :: be_bytes 4 (lenN payload) ++ payload.

Lemma decode_framed t payload :
  t < 256 -> lenN payload < 2 ^ 32 ->
  decode (framed t payload) =
    if MAX_BODY_LEN <? lenN payload then Err (BodyTooLarge (lenN payload))
    else
      match zstd_decompress None payload MAX_BODY_LEN with
      | Err e => Err (ZstdError e)
      | Ok y =>
          match from_utf8 y with
          | None => Err InvalidUtf8
          | Some text =>
              if t =? TYPE_CLIPBOARD then Ok (Clipboard text)
              else if t =? TYPE_CHAT then Ok (Chat text) else Err (UnknownType t)
          end
      end.
Proof.
  intros Ht Hl. unfold framed.
  destruct (be_bytes 4 (lenN payload)) as [|b0 [|b1 [|b2 [|b3 [|? ?]]]]] eqn:E;
    try (apply (f_equal length) in E; rewrite be_bytes_length in E; discriminate E).
  cbn [app decode]. rewrite <- E. unfold be_value, be_bytes. rewrite reverse_involutive.
  rewrite le_value_bytes_small by (change (256 ^ N.of_nat 4) with (2 ^ 32); lia).
  rewrite N.eqb_refl. cbn [negb]. by rewrite to_N_byte_of, N.mod_small.
Qed.
End zstd.

Section laws.
Context `{ZstdLaws}.

Definition type_of (m : Message) : N := match m with Clipboard _ => TYPE_CLIPBOARD | Chat _ => TYPE_CHAT end.

Lemma encode_framed m frame :
  encode_message m = Ok frame -> lenN frame < 2 ^ 32 ->
  exists y, zstd_compress None ZSTD_LEVEL (as_bytes (text_of m)) = Ok y /\
    frame = framed (type_of m) y /\ lenN frame = lenN y + 5.
Proof.
  assert (He : forall t text, encode t text = Ok frame -> lenN frame < 2 ^ 32 ->
    exists y, zstd_compress None ZSTD_LEVEL (as_bytes text) = Ok y /\ frame = framed t y /\ lenN frame = lenN y + 5).
  { intros t text. unfold encode. destruct (zstd_compress _ _ _) as [y|e]; [|done]. intros Heq Hl.
    assert (E0 : frame = byte_of t :: be_bytes 4 (wrap 32 (lenN y)) ++ y) by congruence.
    assert (E : lenN frame = lenN y + 5) by (rewrite E0, lenN_cons, lenN_app, lenN_be_bytes; lia).
    rewrite E in Hl. exists y. split; [done|]. split; [|done]. rewrite E0. unfold framed. by rewrite wrap_small by lia. }
  destruct m; cbn [encode_message text_of type_of]; apply He.
Qed.

Lemma decode_ok_bounded frame m : decode frame = Ok m -> str_len (text_of m) <= MAX_BODY_LEN.
Proof.
  destruct frame as [|t [|b0 [|b1 [|b2 [|b3 y]]]]]; try done. cbn [decode].
  destruct (MAX_BODY_LEN <? _); [done|]. destruct (negb _); [done|].
  destruct (zstd_decompress None y MAX_BODY_LEN) as [x|e] eqn:Ex; [|done]. apply decompress_bounded in Ex.
  destruct (from_utf8 x) as [text|] eqn:Et; [|done]. apply as_bytes_from_utf8 in Et as [<- _].
  destruct (_ =? _); [by intros [= <-]|]. destruct (_ =? _); [by intros [= <-]|done].
Qed.

(** ** Properties *)

(** A message that was encoded decodes to itself as long as neither its text nor
    its compressed body exceeds 64 MiB; beyond that the encoder still succeeds and
    the other end never gets the message back. *)
Theorem channel_roundtrip (m : Message) (frame : list byte) :
  str_ok (text_of m) -> encode_message m = Ok frame -> lenN frame < 2 ^ 32 ->
  (str_len (text_of m) <= MAX_BODY_LEN -> lenN frame - 5 <= MAX_BODY_LEN -> decode frame = Ok m) /\
  (MAX_BODY_LEN < lenN frame - 5 -> decode frame = Err (BodyTooLarge (lenN frame - 5))) /\
  (MAX_BODY_LEN < str_len (text_of m) -> decode frame <> Ok m).
Proof.
  intros Hok He Hl. destruct (encode_framed m frame He Hl) as (y & Hy & -> & Hly).
  assert (Ht : type_of m < 256) by (by destruct m). rewrite Hly, N.add_sub. split_and!.
  - intros Htext Hbody. rewrite decode_framed by (done || lia). rewrite (proj2 (N.ltb_ge _ _)) by done.
    rewrite (decompress_compress _ _ _ _ _ Hy) by done. rewrite from_utf8_as_bytes by done. by destruct m.
  - intros Hbody. rewrite decode_framed by (done || lia). by rewrite (proj2 (N.ltb_lt _ _)).
  - intros Htext Hd. apply decode_ok_bounded in Hd. lia.
Qed.

(** Chunks keep their order, identity and offset through compression, and each
    decompresses, with the dictionary it was compressed with, to its data. *)
Theorem chunks_survive (c : XferCompressor) (chunks : list FileChunk) (out : list CompressedChunk) :
  compress_chunks chunks c = Ok out ->
  Forall (fun k => lenN (chunk_data k) <= DECOMPRESS_CAPACITY) chunks ->
  map (fun z => (c_id z, c_offset z, decompress (compressed z) (dictionary c))) out =
  map (fun k => (chunk_id k, chunk_offset k, Ok (chunk_data k))) chunks.
Proof.
  revert out. induction chunks as [|k chunks IH]; intros out; cbn [compress_chunks foldr]; [by intros [= <-]|].
  fold (compress_chunks chunks c). unfold compress_chunk at 1.
  destruct (compress c (chunk_data k)) as [y|e] eqn:Ey; [|done]. cbn [mbind result_bind].
  destruct (compress_chunks chunks c) as [ys|e] eqn:Eys; [|done]. intros [= <-] Hf.
  apply Forall_cons in Hf as [Hk Hf]. cbn [map c_id c_offset compressed]. rewrite (IH ys) by done.
  unfold decompress. by rewrite (decompress_compress _ _ _ _ _ Ey).
Qed.
End laws.

Lemma channel_roundtrip_witness :
  @decode stored (Byte.x02 :: be_bytes 4 2 ++ [Byte.x68; Byte.x69]) = Ok (Chat [0x68; 0x69]).
Proof.
  apply (proj1 (@channel_roundtrip stored stored_laws (Chat [0x68; 0x69])
    (Byte.x02 :: be_bytes 4 2 ++ [Byte.x68; Byte.x69]) ltac:(by repeat constructor) ltac:(reflexivity)
    ltac:(by vm_compute))); by vm_compute.
Defined.

Lemma chunks_survive_witness :
  @decompress stored [Byte.x07] None = Ok [Byte.x07].
Proof.
  pose proof (@chunks_survive stored stored_laws (compressor_new Background)
    [mkChunk [Byte.x01] 0 [Byte.x07]] [mkCompressed [Byte.x01] 0 [Byte.x07]] ltac:(reflexivity)) as Hs.
  specialize (Hs ltac:(by repeat constructor)).
  exact (f_equal (fun l => match l with [(_, _, d)] => d | _ => Err [] end) Hs).
Defined.
