(* ===== verification/Repair.v ===== *)
(** The FEC encoder and the repair-symbol sender: [core/xfer/src/fec.rs], feeding
    the bulk scheduler.

    RaptorQ is third-party code: [RaptorQ] is its interface, [RaptorQLaws] the
    behaviour the code relies on (a repair packet is determined by its number,
    and numbered from the source symbols on), [numbered] an instance of the
    laws.  The decoder hands packets to the library and has no state of its
    own. *)
From S2P Require Import Prelude Scheduler.
#[local] Open Scope N_scope.

(** ** RaptorQ *)
Class RaptorQ := {
  SourceBlockEncoder : Type;
  EncodingPacket : Type;
  block_encoder : list byte -> SourceBlockEncoder;
  source_packets : SourceBlockEncoder -> list EncodingPacket;
  repair_packets : SourceBlockEncoder -> N -> N -> list EncodingPacket;
  encoding_symbol_id : EncodingPacket -> N;
  serialize : EncodingPacket -> list byte }.

(** The numbers [start], ..., [start + count - 1]. *)
Definition numbers (start count : N) : list N :=
  map (fun i => start + N.of_nat i) (seq 0 (N.to_nat count)).

Class RaptorQLaws `{RaptorQ} := {
  repair_packet : SourceBlockEncoder -> N -> EncodingPacket;
  repair_packets_numbered b start count :
    repair_packets b start count = map (repair_packet b) (numbers start count);
  repair_symbol_id b i : encoding_symbol_id (repair_packet b i) = lenN (source_packets b) + i }.

Definition numbered : RaptorQ := {|
  SourceBlockEncoder := list byte;
  EncodingPacket := N * list byte;
  block_encoder d := d;
  source_packets d := [(0, d)];
  repair_packets d start count := map (fun i => (1 + i, d)) (numbers start count);
  encoding_symbol_id := fst;
  serialize := snd |}.

Definition numbered_laws : @RaptorQLaws numbered.
Proof. exact (@Build_RaptorQLaws numbered (fun (d : list byte) (i : N) => (1 + i, d)) (fun _ _ _ => eq_refl) (fun _ _ => eq_refl)). Defined.

(** ** The sender *)
Section raptorq.
Context `{RaptorQ}.

Definition SYMBOL_SIZE : N := 1180.

Record FecEncoder := mkEncoder { block : SourceBlockEncoder; enc_object_id : N }.

Definition encoder_new (data : list byte) (id : N) : FecEncoder := mkEncoder (block_encoder data) id.

Definition packet_to_frame (e : FecEncoder) (p : EncodingPacket) : XferFrame :=
  mkFrame (serialize p) (enc_object_id e) (encoding_symbol_id p).

Record RepairSender := mkRepair { encoder : FecEncoder; next_repair_esi : N; acked : bool }.

Definition repair_new (e : FecEncoder) : RepairSender := mkRepair e 0 false.

Definition ack (s : RepairSender) : RepairSender := mkRepair (encoder s) (next_repair_esi s) true.

Definition is_done (s : RepairSender) : bool := acked s.

Definition feed (s : RepairSender) (scheduler : BulkTransferScheduler) (batch : N) :
    RepairSender * BulkTransferScheduler * N :=
  if acked s then (s, scheduler, 0)
  else
    let packets := repair_packets (block (encoder s)) (next_repair_esi s) batch in
    let count := wrap 32 (lenN packets) in
    let scheduler := foldl (fun q p => enqueue q (packet_to_frame (encoder s) p)) scheduler packets in
    (mkRepair (encoder s) (wrapping_add 32 (next_repair_esi s) count) (acked s), scheduler, count).

(** ** What happens to a sender *)
Inductive RepairOp := Fed (batch : N) | Acked | Scheduled (op : Op).

Definition repair_step (st : RepairSender * BulkTransferScheduler * list XferFrame) (op : RepairOp) :
    RepairSender * BulkTransferScheduler * list XferFrame :=
  let '(s, q, sent) := st in
  match op with
  | Fed batch => let '(s, q, _) := feed s q batch in (s, q, sent)
  | Acked => (ack s, q, sent)
  | Scheduled o => let '(q, fs) := run q [o] in (s, q, sent ++ fs)
  end.

Definition repair_run (e : FecEncoder) (ops : list RepairOp) :
    RepairSender * BulkTransferScheduler * list XferFrame :=
  foldl repair_step (repair_new e, new, []) ops.

(** The repair symbols asked for before the acknowledgement. *)
Fixpoint asked (ops : list RepairOp) : N :=
  match ops with
  | [] => 0
  | Acked :: _ => 0
  | Fed batch :: ops => batch + asked ops
  | Scheduled _ :: ops => asked ops
  end.

(** The transport enqueues nothing else. *)
Definition only_repair (op : RepairOp) : bool :=
  match op with Scheduled (Enqueue _) => false | _ => true end.

(** ** Lemmas *)
Lemma numbers_app start a b : numbers start (a + b) = numbers start a ++ numbers (start + a) b.
Proof.
  unfold numbers. rewrite N2Nat.inj_add, seq_app, map_app. f_equal. cbn [plus].
  rewrite <- (Nat.add_0_r (N.to_nat a)) at 1. rewrite <- fmap_add_seq. unfold fmap. change list_fmap with @map.
  rewrite map_map. apply map_ext. intros i. lia.
Qed.

Lemma numbers_length start count : lenN (numbers start count) = count.
Proof. unfold numbers, lenN. rewrite length_map, length_seq. lia. Qed.

Lemma enqueue_all e q packets :
  foldl (fun q p => enqueue q (packet_to_frame e p)) q packets =
    {| queue := queue q ++ map (packet_to_frame e) packets; headroom_remaining := headroom_remaining q |}.
Proof.
  revert q. induction packets as [|p ps IH]; intros q; cbn [foldl map].
  - rewrite app_nil_r. by destruct q.
  - rewrite IH. cbn [enqueue queue headroom_remaining]. by rewrite <- app_assoc.
Qed.

Context `{!RaptorQLaws}.

(** The frames of [count] repair symbols from [start] on. *)
Definition repair_frames (e : FecEncoder) (start count : N) : list XferFrame :=
  map (fun i => packet_to_frame e (repair_packet (block e) i)) (numbers start count).

Lemma repair_frames_app e start a b :
  repair_frames e start (a + b) = repair_frames e start a ++ repair_frames e (start + a) b.
Proof. unfold repair_frames. by rewrite numbers_app, map_app. Qed.

Lemma feed_spec s q batch :
  acked s = false -> next_repair_esi s + batch < 2 ^ 32 ->
  feed s q batch =
    (mkRepair (encoder s) (next_repair_esi s + batch) false,
     {| queue := queue q ++ repair_frames (encoder s) (next_repair_esi s) batch;
        headroom_remaining := headroom_remaining q |}, batch).
Proof.
  intros Ha Hb. unfold feed. rewrite Ha, enqueue_all, repair_packets_numbered.
  assert (Hl : lenN (map (repair_packet (block (encoder s))) (numbers (next_repair_esi s) batch)) = batch).
  { unfold lenN. rewrite length_map. apply numbers_length. }
  rewrite Hl. unfold wrapping_add. rewrite (wrap_small _ batch), wrap_small by lia.
  unfold repair_frames. by rewrite map_map.
Qed.

Lemma repair_steps ops s q sent :
  forallb only_repair ops = true ->
  acked s = true \/ next_repair_esi s + asked ops < 2 ^ 32 ->
  let '(s', q', sent') := foldl repair_step (s, q, sent) ops in
  encoder s' = encoder s /\
  sent' ++ queue q' =
    sent ++ queue q ++ (if acked s then [] else repair_frames (encoder s) (next_repair_esi s) (asked ops)) /\
  acked s' = acked s || existsb (fun o => match o with Acked => true | _ => false end) ops.
Proof.
  revert s q sent. induction ops as [|o ops IH]; intros s q sent Ho Hn; cbn [foldl].
  { split; [done|]. split; [|by rewrite orb_false_r]. destruct (acked s); by rewrite !app_nil_r. }
  cbn [forallb] in Ho. apply andb_true_iff in Ho as [Ho Hos]. cbn [existsb].
  destruct o as [batch| |o]; cbn [repair_step asked] in *.
  - destruct (acked s) eqn:Ha.
    + unfold feed. rewrite Ha. specialize (IH s q sent Hos (or_introl Ha)). rewrite Ha in IH. exact IH.
    + destruct Hn as [?|Hn]; [done|]. rewrite feed_spec by (done || lia).
      specialize (IH (mkRepair (encoder s) (next_repair_esi s + batch) false)
        {| queue := queue q ++ repair_frames (encoder s) (next_repair_esi s) batch;
           headroom_remaining := headroom_remaining q |} sent Hos).
      cbn [encoder next_repair_esi acked queue] in IH. specialize (IH ltac:(right; lia)).
      destruct (foldl _ _ ops) as [[s' q'] sent']. destruct IH as (E1 & E2 & E3). split; [done|]. split; [|done].
      rewrite E2, repair_frames_app, <- !app_assoc. done.
  - specialize (IH (ack s) q sent Hos (or_introl eq_refl)). cbn [ack next_repair_esi acked encoder] in IH.
    destruct (foldl _ _ ops) as [[s' q'] sent']. destruct IH as (E1 & E2 & E3). split; [done|].
    rewrite E3, orb_true_r. split; [|done]. rewrite E2. by destruct (acked s).
  - pose proof (run_fifo q [o]) as Hf. destruct (run q [o]) as [q1 fs] eqn:Er.
    assert (Heq : enqueued [o] = []) by (by destruct o). rewrite Heq, app_nil_r in Hf.
    specialize (IH s q1 (sent ++ fs) Hos Hn). destruct (foldl _ _ ops) as [[s' q'] sent'].
    destruct IH as (E1 & E2 & E3). split; [done|]. split; [|done]. by rewrite E2, <- Hf, <- !app_assoc.
Qed.

(** ** Properties *)

(** The repair stream has no gaps: however the feeds interleave with the
    governor's grants and the scheduler's ticks, the frames sent and the frames
    queued are, in order, the repair symbols number 0, 1, 2, ... of the object,
    as many as were asked for before the acknowledgement and none after it, and
    their symbol ids continue those of the source symbols. *)
Theorem repair_stream_gap_free (e : FecEncoder) (ops : list RepairOp) :
  forallb only_repair ops = true -> asked ops < 2 ^ 32 ->
  let '(s, q, sent) := repair_run e ops in
  sent ++ queue q = repair_frames e 0 (asked ops) /\
  map esi (sent ++ queue q) = map (fun i => lenN (source_packets (block e)) + i) (numbers 0 (asked ops)) /\
  Forall (fun f => object_id f = enc_object_id e) (sent ++ queue q) /\
  is_done s = existsb (fun o => match o with Acked => true | _ => false end) ops.
Proof.
  intros Ho Hn. pose proof (repair_steps ops (repair_new e) new [] Ho (or_intror Hn)) as Hr.
  unfold repair_run. destruct (foldl _ _ ops) as [[s q] sent]. destruct Hr as (_ & Hq & Hd).
  cbn [app repair_new acked encoder next_repair_esi new queue] in Hq. rewrite Hq. split; [done|]. split.
  - unfold repair_frames. rewrite map_map. apply map_ext. intros i. cbn [packet_to_frame esi]. apply repair_symbol_id.
  - split; [|done]. unfold repair_frames. apply Forall_fmap. by apply Forall_true.
Qed.
End raptorq.

Lemma repair_stream_gap_free_witness :
  let '(_, q, sent) := @repair_run numbered (mkEncoder ([Byte.x01] : @SourceBlockEncoder numbered) 9)
    [Fed 2; Scheduled (Grant 100); Scheduled (Tick (mkDemand 0 0)); Fed 1; Acked; Fed 5] in
  map esi (sent ++ queue q) = [1; 2; 3] /\ queue q <> [].
Proof.
  pose proof (@repair_stream_gap_free numbered numbered_laws (mkEncoder ([Byte.x01] : @SourceBlockEncoder numbered) 9)
    [Fed 2; Scheduled (Grant 100); Scheduled (Tick (mkDemand 0 0)); Fed 1; Acked; Fed 5] eq_refl ltac:(by vm_compute)) as Hs.
  split; [exact (proj1 (proj2 Hs))|by vm_compute].
Defined.
