(* ===== verification/WarmPool.v ===== *)
(** Readiness of the neural gears: [warm_pool.rs], [gear_availability.rs],
    [model_watchdog.rs], the probe's result of [capability_probe.rs] and the
    registry of models of [eval_card.rs], all in [core/nn/src].

    The pool is an array of five entries indexed by model.  A supervised
    inference is the time it takes and its result; the thread is not
    modelled. *)
From Stdlib Require Import Strings.String.
From S2P Require Import Prelude F64 Text Numeral.
#[local] Open Scope N_scope.

Inductive ModelId := NoiseSuppressor | NeuralVocoder | NeuralPlc | KeypointExtractor | SynthesisNetwork.

#[global] Instance model_eq_dec : EqDecision ModelId.
Proof. solve_decision. Defined.

Definition ALL : list ModelId :=
  [NoiseSuppressor; NeuralVocoder; NeuralPlc; KeypointExtractor; SynthesisNetwork].

(** ** The registry *)
Record EvalCard := mkCard {
  name : str; version : str; sha256 : str; onnx_opset : N; primary_metric : str; primary_value : f64;
  metric_dataset : str; inference_p50_ms : f64; reference_hw : str; raw_toml : str }.

Definition newline : str := [0x0A].
Definition quoted (s : str) : str := [0x22] ++ s ++ [0x22].

Definition no_digest : str := replicate 64 0x30.
Definition i5 : str := lit "Intel Core i5-5200U @ 2.7 GHz (2015-class, 1 thread)".
Definition providers : str :=
  lit "[" ++ quoted (lit "CoreML") ++ lit ", " ++ quoted (lit "NNAPI") ++ lit ", " ++ quoted (lit "DirectML") ++ lit ", " ++
  quoted (lit "CPU") ++ lit "]".

(** [include_str!] of the cards: the files of [models/], which differ in five
    values. *)
Definition toml_file (name metric value dataset p50 : str) : str :=
  concat (map (fun l => l ++ newline)
    [lit "[model]";
     lit "name = " ++ quoted name; lit "version = " ++ quoted (lit "1.0.0");
     lit "sha256 = " ++ quoted (lit "0000000000000000000000000000000000000000000000000000000000000000");
     lit "onnx_opset = 17"; [];
     lit "[eval]";
     lit "primary_metric = " ++ quoted metric; lit "primary_value = " ++ value; lit "dataset = " ++ quoted dataset;
     lit "inference_p50_ms = " ++ p50; lit "reference_hw = " ++ quoted i5; [];
     lit "[providers]"; lit "supported = " ++ providers]).

Definition NOISE_SUPPRESSOR : EvalCard :=
  mkCard (lit "noise_suppressor") (lit "1.0.0") no_digest 17 (lit "snr_improvement_db") (f_lit 123 10)
    (lit "NOIZEUS-16k") (f_lit 15 100) i5
    (toml_file (lit "noise_suppressor") (lit "snr_improvement_db") (lit "12.3") (lit "NOIZEUS-16k") (lit "0.15")).
Definition NEURAL_VOCODER : EvalCard :=
  mkCard (lit "neural_vocoder") (lit "1.0.0") no_digest 17 (lit "pesq_mos") (f_lit 34 10)
    (lit "ITU-T P.863 multilingual") (f_lit 80 10) i5
    (toml_file (lit "neural_vocoder") (lit "pesq_mos") (lit "3.4") (lit "ITU-T P.863 multilingual") (lit "8.0")).
Definition NEURAL_PLC : EvalCard :=
  mkCard (lit "neural_plc") (lit "1.0.0") no_digest 17 (lit "plcmos") (f_lit 38 10)
    (lit "DNS Challenge 2020") (f_lit 25 10) i5
    (toml_file (lit "neural_plc") (lit "plcmos") (lit "3.8") (lit "DNS Challenge 2020") (lit "2.5")).
Definition KEYPOINT_EXTRACTOR : EvalCard :=
  mkCard (lit "keypoint_extractor") (lit "1.0.0") no_digest 17 (lit "nme_percentage") (f_lit 31 10)
    (lit "300W") (f_lit 120 10) i5
    (toml_file (lit "keypoint_extractor") (lit "nme_percentage") (lit "3.1") (lit "300W") (lit "12.0")).
Definition SYNTHESIS_NETWORK : EvalCard :=
  mkCard (lit "synthesis_network") (lit "1.0.0") no_digest 17 (lit "fvd") (f_lit 452 10)
    (lit "VoxCeleb2") (f_lit 180 10) i5
    (toml_file (lit "synthesis_network") (lit "fvd") (lit "45.2") (lit "VoxCeleb2") (lit "18.0")).

Definition MODEL_REGISTRY : list EvalCard :=
  [NOISE_SUPPRESSOR; NEURAL_VOCODER; NEURAL_PLC; KEYPOINT_EXTRACTOR; SYNTHESIS_NETWORK].

(** [None]: the index panics. *)
Definition eval_card (id : ModelId) : option EvalCard :=
  let idx := match id with
             | NoiseSuppressor => 0 | NeuralVocoder => 1 | NeuralPlc => 2 | KeypointExtractor => 3 | SynthesisNetwork => 4
             end%nat in
  MODEL_REGISTRY !! idx.

(** A reader of the cards' TOML: the value of the first line [key = value]. *)
Fixpoint lines_of (acc s : str) : list str :=
  match s with
  | [] => match acc with [] => [] | _ => [acc] end
  | c :: s => if c =? 0x0A then acc :: lines_of [] s else lines_of (acc ++ [c]) s
  end.

Definition toml_value (key raw : str) : option str :=
  head (omap (strip_prefix (key ++ lit " = ")) (lines_of [] raw)).

(** A decimal number with a point: its digits, and how many follow the point. *)
Fixpoint decimal_loop (acc : Z) (after : option nat) (s : str) : option (Z * nat) :=
  match s with
  | [] => Some (acc, default 0%nat after)
  | c :: s =>
      if c =? 0x2E then match after with None => decimal_loop acc (Some 0%nat) s | Some _ => None end
      else d ← to_digit 10 c; decimal_loop (10 * acc + Z.of_N d) (S <$> after) s
  end.

Definition decimal_f64 (s : str) : option f64 :=
  '(n, k) ← decimal_loop 0 None s; Some (f_lit n (10 ^ Z.of_nat k)).

(** The constants are those of the embedded file. *)
Definition agrees (c : EvalCard) : bool :=
  let says key v := bool_decide (toml_value (lit key) (raw_toml c) = Some v) in
  let reads key v := match toml_value (lit key) (raw_toml c) ≫= decimal_f64 with Some x => (x =? v)%f64 | None => false end in
  says "name"%string (quoted (name c)) && says "version"%string (quoted (version c)) && says "sha256"%string (quoted (sha256 c)) &&
  says "onnx_opset"%string (decimal (onnx_opset c)) && says "primary_metric"%string (quoted (primary_metric c)) &&
  reads "primary_value"%string (primary_value c) && says "dataset"%string (quoted (metric_dataset c)) &&
  reads "inference_p50_ms"%string (inference_p50_ms c) && says "reference_hw"%string (quoted (reference_hw c)).

(** ** The warm pool *)
Inductive WarmState := Cold | Warm.

#[global] Instance warm_eq_dec : EqDecision WarmState.
Proof. solve_decision. Defined.

Record WarmEntry := mkEntry { model_id : ModelId; state_of : WarmState }.

Definition GEAR_A_MODELS : list ModelId := [KeypointExtractor; SynthesisNetwork].

Record WarmPool := mkPool { entries : list WarmEntry }.

Definition pool_new : WarmPool :=
  mkPool [mkEntry NoiseSuppressor Cold; mkEntry NeuralVocoder Cold; mkEntry NeuralPlc Cold;
          mkEntry KeypointExtractor Cold; mkEntry SynthesisNetwork Cold].

Definition index (m : ModelId) : nat :=
  match m with
  | NoiseSuppressor => 0 | NeuralVocoder => 1 | NeuralPlc => 2 | KeypointExtractor => 3 | SynthesisNetwork => 4
  end%nat.

Definition set_state (w : WarmState) (e : WarmEntry) : WarmEntry := mkEntry (model_id e) w.

(** [entry_mut]; the index is in the array. *)
Definition entry_set (p : WarmPool) (m : ModelId) (w : WarmState) : WarmPool :=
  mkPool (alter (set_state w) (index m) (entries p)).

Definition warm (p : WarmPool) (m : ModelId) : WarmPool := entry_set p m Warm.
Definition evict (p : WarmPool) (m : ModelId) : WarmPool := entry_set p m Cold.
Definition warm_all (p : WarmPool) : WarmPool := mkPool (map (set_state Warm) (entries p)).

Definition entry (p : WarmPool) (m : ModelId) : option WarmEntry := entries p !! index m.
Definition state (p : WarmPool) (m : ModelId) : option WarmState := state_of <$> entry p m.
Definition is_warm (p : WarmPool) (m : ModelId) : bool := bool_decide (state p m = Some Warm).
Definition is_cold (p : WarmPool) (m : ModelId) : bool := bool_decide (state p m = Some Cold).

Definition warm_count (p : WarmPool) : nat :=
  length (filter (fun e => state_of e = Warm) (entries p)).

Definition is_gear_a_ready (p : WarmPool) : bool := forallb (is_warm p) GEAR_A_MODELS.

Definition gear_a_entries (p : WarmPool) : option (WarmEntry * WarmEntry) :=
  k ← entry p KeypointExtractor; s ← entry p SynthesisNetwork; Some (k, s).

(** ** What exists on the device *)
Inductive ExecutionProvider := CoreMl | Nnapi | DirectMl | Cpu.

Record CapabilityProbeResult := mkProbe { provider : ExecutionProvider; has_neural_accelerator : bool }.

Record GearAvailability := mkAvailability { neural_vocoder : bool; talking_head : bool; neural_plc : bool }.

Definition from_probe (r : CapabilityProbeResult) : GearAvailability :=
  {| neural_vocoder := has_neural_accelerator r; talking_head := true; neural_plc := true |}.

(** ** The watchdog *)
Definition INFERENCE_DEADLINE_MS : N := 50.

Record InferenceTimeout := mkTimeout { t_model_id : ModelId; deadline_ms : N }.

(** [deadline] and the time [f] takes, [None] if it never ends, in nanoseconds;
    [recv_timeout] takes a result that is there at the deadline. *)
Definition watchdog_run {T} (deadline : N) (m : ModelId) (f : option (N * T)) : result InferenceTimeout T :=
  match f with
  | Some (taken, r) =>
      if taken <=? deadline then Ok r else Err (mkTimeout m (wrap 64 (deadline / 1000000)))
  | None => Err (mkTimeout m (wrap 64 (deadline / 1000000)))
  end.

(** When the transport loop goes on. *)
Definition returns_after {T} (deadline : N) (f : option (N * T)) : N :=
  match f with Some (taken, _) => N.min taken deadline | None => deadline end.

(** ** Histories of the pool *)
Inductive PoolOp := Warmed (m : ModelId) | Evicted (m : ModelId) | WarmedAll.

Definition pool_step (p : WarmPool) (o : PoolOp) : WarmPool :=
  match o with Warmed m => warm p m | Evicted m => evict p m | WarmedAll => warm_all p end.

Definition pool_run (os : list PoolOp) : WarmPool := foldl pool_step pool_new os.

(** What an operation says of a model. *)
Definition says (m : ModelId) (o : PoolOp) : option WarmState :=
  match o with
  | Warmed m' => if decide (m' = m) then Some Warm else None
  | Evicted m' => if decide (m' = m) then Some Cold else None
  | WarmedAll => Some Warm
  end.

Lemma index_inj m m' : index m = index m' -> m = m'.
Proof. by destruct m, m'. Qed.

Lemma entry_after p o m :
  entry (pool_step p o) m = (fun e => set_state (default (state_of e) (says m o)) e) <$> entry p m.
Proof.
  assert (Hsame : forall e, set_state (state_of e) e = e) by (by intros []).
  assert (Hset : forall m' w, entry (entry_set p m' w) m =
    (fun e => set_state (if decide (m' = m) then w else state_of e) e) <$> entry p m).
  { intros m' w. unfold entry, entry_set. cbn [entries]. case_decide as Hm.
    - subst m'. by rewrite list_lookup_alter_eq.
    - rewrite list_lookup_alter_ne by (intros E; by apply Hm, index_inj).
      destruct (_ !! index m) as [e|]; cbn; [by rewrite Hsame|done]. }
  destruct o as [m'|m'|]; cbn [pool_step says].
  - unfold warm. rewrite Hset. by case_decide.
  - unfold evict. rewrite Hset. by case_decide.
  - unfold entry, warm_all. cbn [entries]. by rewrite list_lookup_fmap.
Qed.

(** ** Properties *)

(** A model's state is what was last said of it, cold before anything was; the
    array always holds the five models at their places; and Gear A is ready
    exactly when both of its models are warm. *)
Theorem pool_remembers (os : list PoolOp) :
  (forall m, entry (pool_run os) m = Some (mkEntry m (default Cold (last (omap (says m) os))))) /\
  map model_id (entries (pool_run os)) = ALL /\
  (is_gear_a_ready (pool_run os) = true <->
     last (omap (says KeypointExtractor) os) = Some Warm /\ last (omap (says SynthesisNetwork) os) = Some Warm).
Proof.
  assert (He : forall m, entry (pool_run os) m = Some (mkEntry m (default Cold (last (omap (says m) os))))).
  { intros m. induction os as [|o os IH] using rev_ind; [by destruct m|].
    unfold pool_run in *. rewrite foldl_app. cbn [foldl]. rewrite entry_after, IH. cbn [fmap option_fmap option_map].
    rewrite omap_app. cbn [omap list_omap]. unfold set_state. cbn [model_id state_of].
    destruct (says m o) as [w|]; [by rewrite last_app|]. by rewrite app_nil_r. }
  split; [exact He|]. split.
  - clear He. induction os as [|o os IH] using rev_ind; [done|]. unfold pool_run in *. rewrite foldl_app. cbn [foldl].
    assert (Hids : forall p, map model_id (entries (pool_step p o)) = map model_id (entries p)).
    { intros p. assert (Hs : forall w l i, map model_id (alter (set_state w) i l) = map model_id l).
      { intros w l. induction l as [|e l IHl]; intros [|i]; [done..| |]; cbn; f_equal. apply IHl. }
      destruct o; cbn [pool_step warm evict entry_set warm_all entries]; [apply Hs..|]. by rewrite map_map. }
    rewrite Hids. exact IH.
  - unfold is_gear_a_ready, is_warm, state. cbn [GEAR_A_MODELS forallb]. rewrite !He. cbn [fmap option_fmap option_map state_of].
    rewrite andb_true_r, andb_true_iff, !bool_decide_eq_true.
    destruct (last (omap (says KeypointExtractor) os)) as [[]|], (last (omap (says SynthesisNetwork) os)) as [[]|];
      cbn [default]; naive_solver.
Qed.

(** The registry keeps its invariants: each model has the card at its place in
    [ALL], no two cards share a name, the opset is at least 17, the digest has 64
    hexadecimal digits, the reference latency is positive and within the
    watchdog's deadline; the constants are those read from the embedded TOML; and
    the two models of Gear A, one after the other, are within one deadline. *)
Theorem registry_is_sound (m : ModelId) :
  exists c, eval_card m = Some c /\ ALL !! index m = Some m /\ MODEL_REGISTRY !! index m = Some c /\
    17 <= onnx_opset c /\ length (sha256 c) = 64%nat /\ Forall (fun d => is_Some (to_digit 16 d)) (sha256 c) /\
    (f_zero <? inference_p50_ms c)%f64 = true /\ (inference_p50_ms c <? f_of_N INFERENCE_DEADLINE_MS)%f64 = true /\
    agrees c = true /\
    forall m' c', eval_card m' = Some c' -> name c' = name c -> m' = m.
Proof.
  assert (Hinj : forall m1 m2 c1 c2, eval_card m1 = Some c1 -> eval_card m2 = Some c2 -> name c1 = name c2 -> m1 = m2).
  { intros m1 m2 c1 c2 H1 H2. destruct m1, m2; try done; injection H1 as <-; injection H2 as <-; vm_compute; discriminate. }
  assert (Hhex : Forall (fun d => is_Some (to_digit 16 d)) no_digest).
  { apply Forall_replicate. by exists 0. }
  destruct m; (eexists; split; [reflexivity|]; split_and!; try reflexivity; try exact Hhex; try (vm_compute; discriminate)).
  all: intros m' c' H Hn; symmetry; by eapply (Hinj _ m'); [reflexivity|exact H|].
Qed.

Example gear_a_fits_the_deadline :
  (inference_p50_ms KEYPOINT_EXTRACTOR + inference_p50_ms SYNTHESIS_NETWORK <? f_of_N INFERENCE_DEADLINE_MS)%f64 = true.
Proof. reflexivity. Qed.
