(* ===== verification/Motion.v ===== *)
(** Gear A motion latents on the wire: [core/platform/src/motion_encoder.rs].

    Quantisation in [f32], absolute keyframes in [i16], delta frames in zigzag
    Exp-Golomb codes over a bit stream written from the high bit.  The fixed
    arrays of the source are lists of their length; indices within it. *)
From S2P Require Import Prelude F64.
#[local] Open Scope N_scope.

Definition KEYPOINT_COUNT : nat := 20.
Definition EXPRESSION_DIM : nat := 64.

(** ** The latents *)
Record Keypoint3D := mkKeypoint { pt_x : f32; pt_y : f32; pt_z : f32; confidence : f32 }.
Record HeadPose := mkPose { yaw : f32; pitch : f32; roll : f32; tx : f32; ty : f32; tz : f32 }.
Record ExpressionLatents := mkExpression { values : list f32 }.
Record MotionLatents := mkLatents {
  keypoints : list Keypoint3D; pose : HeadPose; expression : ExpressionLatents }.

Definition SCALE_KP_XY : f32 := s_of_Z 256.
Definition SCALE_KP_Z : f32 := s_of_Z 256.
Definition SCALE_POSE_ANGLE : f32 := s_of_Z 512.
Definition SCALE_POSE_TRANS : f32 := s_of_Z 128.
Definition SCALE_EXPR : f32 := s_of_Z 8.

Definition TAG_KEYFRAME : byte := Byte.x01.
Definition TAG_DELTA : byte := Byte.x00.
Definition KEYFRAME_PAYLOAD_LEN : N := N.of_nat (KEYPOINT_COUNT * 3 * 2 + 6 * 2 + EXPRESSION_DIM * 2).

Inductive MotionCodecError := MissingKeyframe | EmptyPayload | Truncated | UnknownTag (tag : byte).

(** ** The quantised state *)
Record QuantisedState := mkState {
  kp_x : list Z; kp_y : list Z; kp_z : list Z;
  q_yaw : Z; q_pitch : Z; q_roll : Z; q_tx : Z; q_ty : Z; q_tz : Z;
  expr : list Z }.

Definition quant (v scale : f32) : Z := round_i32 (v * scale)%f32.
Definition dequant (q : Z) (scale : f32) : f32 := (s_of_Z q / scale)%f32.

(** An array of [n] zeros whose first entries are set from [vs]. *)
Definition fill (n : nat) (vs : list Z) : list Z := take n vs ++ repeat 0%Z (n - length vs).

Definition quantise (l : MotionLatents) : QuantisedState := {|
  kp_x := fill KEYPOINT_COUNT (map (fun kp => quant (pt_x kp) SCALE_KP_XY) (keypoints l));
  kp_y := fill KEYPOINT_COUNT (map (fun kp => quant (pt_y kp) SCALE_KP_XY) (keypoints l));
  kp_z := fill KEYPOINT_COUNT (map (fun kp => quant (pt_z kp) SCALE_KP_Z) (keypoints l));
  q_yaw := quant (yaw (pose l)) SCALE_POSE_ANGLE;
  q_pitch := quant (pitch (pose l)) SCALE_POSE_ANGLE;
  q_roll := quant (roll (pose l)) SCALE_POSE_ANGLE;
  q_tx := quant (tx (pose l)) SCALE_POSE_TRANS;
  q_ty := quant (ty (pose l)) SCALE_POSE_TRANS;
  q_tz := quant (tz (pose l)) SCALE_POSE_TRANS;
  expr := fill EXPRESSION_DIM (map (fun v => quant v SCALE_EXPR) (values (expression l))) |}.

Definition dequantise (s : QuantisedState) : MotionLatents := {|
  keypoints := map (fun i => mkKeypoint (dequant (kp_x s !!! i) SCALE_KP_XY) (dequant (kp_y s !!! i) SCALE_KP_XY)
                               (dequant (kp_z s !!! i) SCALE_KP_Z) (s_of_Z 1)) (seq 0 KEYPOINT_COUNT);
  pose := mkPose (dequant (q_yaw s) SCALE_POSE_ANGLE) (dequant (q_pitch s) SCALE_POSE_ANGLE)
            (dequant (q_roll s) SCALE_POSE_ANGLE) (dequant (q_tx s) SCALE_POSE_TRANS)
            (dequant (q_ty s) SCALE_POSE_TRANS) (dequant (q_tz s) SCALE_POSE_TRANS);
  expression := mkExpression (map (fun i => dequant (expr s !!! i) SCALE_EXPR) (seq 0 EXPRESSION_DIM)) |}.

(** ** Bit streams *)
Record BitWriter := mkWriter { bytes : list byte; pending : N; bits : N }.

Definition writer_new : BitWriter := mkWriter [] 0 0.

Definition write_bit (w : BitWriter) (b : bool) : BitWriter :=
  let p := if b then N.lor (pending w) (N.shiftl 1 (7 - bits w)) else pending w in
  if bits w + 1 =? 8 then mkWriter (bytes w ++ [byte_of p]) 0 0 else mkWriter (bytes w) p (bits w + 1).

(** The bits of [value] below [n], from the highest. *)
Fixpoint write_bits (w : BitWriter) (value : N) (n : nat) : BitWriter :=
  match n with
  | O => w
  | S i => write_bits (write_bit w (negb (N.land (N.shiftr value (N.of_nat i)) 1 =? 0))) value i
  end.

Definition finish (w : BitWriter) : list byte :=
  if 0 <? bits w then bytes w ++ [byte_of (pending w)] else bytes w.

Record BitReader := mkReader { data : list byte; at_byte : nat; at_bit : N }.

Definition reader_new (data : list byte) : BitReader := mkReader data 0 0.

Definition read_bit (r : BitReader) : result MotionCodecError (BitReader * bool) :=
  match data r !! at_byte r with
  | None => Err Truncated
  | Some x =>
      let b := negb (N.land (N.shiftr (Byte.to_N x) (7 - at_bit r)) 1 =? 0) in
      Ok (if at_bit r + 1 =? 8 then mkReader (data r) (S (at_byte r)) 0
          else mkReader (data r) (at_byte r) (at_bit r + 1), b)
  end.

(** ** Exp-Golomb and zigzag codes *)
Definition leading_zeros (v : N) : N := 32 - N.size v.

Definition write_exp_golomb (w : BitWriter) (n : N) : BitWriter :=
  let v := wrap 32 (n + 1) in
  let m := wrapping_sub 32 31 (leading_zeros v) in
  let w := N.iter m (fun w => write_bit w false) w in
  write_bits w v (N.to_nat (wrap 8 (wrap 32 (m + 1)))).

(** The zeros before the first one: at most thirty, so the 32 rounds of
    [read_exp_golomb] suffice. *)
Fixpoint read_zeros (rounds : nat) (r : BitReader) (m : N) : result MotionCodecError (BitReader * N) :=
  match rounds with
  | O => Err Truncated
  | S rounds =>
      '(r, b) ← read_bit r;
      if b : bool then Ok (r, m)
      else if 30 <? m + 1 then Err Truncated else read_zeros rounds r (m + 1)
  end.

Fixpoint read_value (m : nat) (r : BitReader) (val : N) : result MotionCodecError (BitReader * N) :=
  match m with
  | O => Ok (r, val)
  | S m => '(r, b) ← read_bit r; read_value m r (N.lor (wrap 32 (N.shiftl val 1)) (N.b2n b))
  end.

Definition read_exp_golomb (r : BitReader) : result MotionCodecError (BitReader * N) :=
  '(r, m) ← read_zeros 32 r 0;
  '(r, val) ← read_value (N.to_nat m) r 1;
  Ok (r, val - 1).

Definition zigzag_encode (n : Z) : N := as_u32 (Z.lxor (i32 (Z.shiftl n 1)) (Z.shiftr n 31)).

Definition zigzag_decode (n : N) : Z :=
  Z.lxor (i32 (Z.of_N (N.shiftr n 1))) (i32 (- Z.of_N (N.land n 1))).

(** ** Delta frames *)
Definition put (w : BitWriter) (curr prev : Z) : BitWriter := write_exp_golomb w (zigzag_encode (i32 (curr - prev))).

Definition put_point (prev curr : QuantisedState) (w : BitWriter) (i : nat) : BitWriter :=
  let w := put w (kp_x curr !!! i) (kp_x prev !!! i) in
  let w := put w (kp_y curr !!! i) (kp_y prev !!! i) in
  put w (kp_z curr !!! i) (kp_z prev !!! i).

Definition encode_delta (w : BitWriter) (prev curr : QuantisedState) : BitWriter :=
  let w := foldl (put_point prev curr) w (seq 0 KEYPOINT_COUNT) in
  let w := put w (q_yaw curr) (q_yaw prev) in
  let w := put w (q_pitch curr) (q_pitch prev) in
  let w := put w (q_roll curr) (q_roll prev) in
  let w := put w (q_tx curr) (q_tx prev) in
  let w := put w (q_ty curr) (q_ty prev) in
  let w := put w (q_tz curr) (q_tz prev) in
  foldl (fun w i => put w (expr curr !!! i) (expr prev !!! i)) w (seq 0 EXPRESSION_DIM).

Definition get (r : BitReader) (prev : Z) : result MotionCodecError (BitReader * Z) :=
  '(r, n) ← read_exp_golomb r; Ok (r, i32 (prev + zigzag_decode n)).

Fixpoint get_points (prev : QuantisedState) (ix : list nat) (r : BitReader) (xs ys zs : list Z) :
    result MotionCodecError (BitReader * (list Z * list Z * list Z)) :=
  match ix with
  | [] => Ok (r, (xs, ys, zs))
  | i :: ix =>
      '(r, vx) ← get r (kp_x prev !!! i);
      '(r, vy) ← get r (kp_y prev !!! i);
      '(r, vz) ← get r (kp_z prev !!! i);
      get_points prev ix r (<[i := vx]> xs) (<[i := vy]> ys) (<[i := vz]> zs)
  end.

Fixpoint get_exprs (prev : QuantisedState) (ix : list nat) (r : BitReader) (vs : list Z) :
    result MotionCodecError (BitReader * list Z) :=
  match ix with
  | [] => Ok (r, vs)
  | i :: ix => '(r, v) ← get r (expr prev !!! i); get_exprs prev ix r (<[i := v]> vs)
  end.

(** The state starts as a copy of the previous one. *)
Definition decode_delta (r : BitReader) (prev : QuantisedState) : result MotionCodecError QuantisedState :=
  '(r, (xs, ys, zs)) ← get_points prev (seq 0 KEYPOINT_COUNT) r (kp_x prev) (kp_y prev) (kp_z prev);
  '(r, vyaw) ← get r (q_yaw prev);
  '(r, vpitch) ← get r (q_pitch prev);
  '(r, vroll) ← get r (q_roll prev);
  '(r, vtx) ← get r (q_tx prev);
  '(r, vty) ← get r (q_ty prev);
  '(r, vtz) ← get r (q_tz prev);
  '(r, es) ← get_exprs prev (seq 0 EXPRESSION_DIM) r (expr prev);
  Ok (mkState xs ys zs vyaw vpitch vroll vtx vty vtz es).

(** ** Keyframes *)
Definition clamp16 (v : Z) : Z := clampZ v (- 2 ^ 15) (2 ^ 15 - 1).
Definition push_i16 (v : Z) : list byte := i16_bytes (clamp16 v).

Definition encode_keyframe (s : QuantisedState) : list byte :=
  [TAG_KEYFRAME] ++
  concat (map (fun i => push_i16 (kp_x s !!! i) ++ push_i16 (kp_y s !!! i) ++ push_i16 (kp_z s !!! i))
    (seq 0 KEYPOINT_COUNT)) ++
  push_i16 (q_yaw s) ++ push_i16 (q_pitch s) ++ push_i16 (q_roll s) ++
  push_i16 (q_tx s) ++ push_i16 (q_ty s) ++ push_i16 (q_tz s) ++
  concat (map (fun i => push_i16 (expr s !!! i)) (seq 0 EXPRESSION_DIM)).

(** The [k]-th [i16] of the payload, whose length is checked before. *)
Definition read_i16 (payload : list byte) (k : nat) : Z := i16_value (take 2 (drop (2 * k) payload)).

Definition decode_keyframe (payload : list byte) : result MotionCodecError QuantisedState :=
  if lenN payload <? KEYFRAME_PAYLOAD_LEN then Err Truncated
  else
    let p := (3 * KEYPOINT_COUNT)%nat in
    Ok (mkState (map (fun i => read_i16 payload (3 * i)) (seq 0 KEYPOINT_COUNT))
          (map (fun i => read_i16 payload (3 * i + 1)) (seq 0 KEYPOINT_COUNT))
          (map (fun i => read_i16 payload (3 * i + 2)) (seq 0 KEYPOINT_COUNT))
          (read_i16 payload p) (read_i16 payload (p + 1)) (read_i16 payload (p + 2))
          (read_i16 payload (p + 3)) (read_i16 payload (p + 4)) (read_i16 payload (p + 5))
          (map (fun i => read_i16 payload (p + 6 + i)) (seq 0 EXPRESSION_DIM))).

(** ** Encoder and decoder *)
Record MotionEncoder := mkEncoder { e_prev : option QuantisedState }.

Definition encoder_new : MotionEncoder := mkEncoder None.
Definition encoder_reset (e : MotionEncoder) : MotionEncoder := mkEncoder None.

Definition encode (e : MotionEncoder) (l : MotionLatents) : MotionEncoder * list byte :=
  let curr := quantise l in
  (mkEncoder (Some curr),
   match e_prev e with
   | Some prev => TAG_DELTA :: finish (encode_delta writer_new prev curr)
   | None => encode_keyframe curr
   end).

Record MotionDecoder := mkDecoder { d_prev : option QuantisedState }.

Definition decoder_new : MotionDecoder := mkDecoder None.
Definition decoder_reset (d : MotionDecoder) : MotionDecoder := mkDecoder None.

Definition decode_state (d : MotionDecoder) (frame : list byte) : result MotionCodecError QuantisedState :=
  match frame with
  | [] => Err EmptyPayload
  | tag :: payload =>
      if bool_decide (tag = TAG_KEYFRAME) then decode_keyframe payload
      else if bool_decide (tag = TAG_DELTA) then
        prev ← ok_or MissingKeyframe (d_prev d); decode_delta (reader_new payload) prev
      else Err (UnknownTag tag)
  end.

(** A failure leaves the decoder as it was. *)
Definition decode (d : MotionDecoder) (frame : list byte) : MotionDecoder * result MotionCodecError MotionLatents :=
  match decode_state d frame with
  | Ok state => (mkDecoder (Some state), Ok (dequantise state))
  | Err e => (d, Err e)
  end.

(** ** Lemmas: bits *)
Fixpoint msb_bits (n : nat) (v : N) : list bool :=
  match n with O => [] | S i => N.testbit v (N.of_nat i) :: msb_bits i v end.

Definition stream_bits (l : list byte) : list bool := concat (map (fun b => msb_bits 8 (Byte.to_N b)) l).

Definition writer_ok (w : BitWriter) : Prop :=
  bits w < 8 /\ pending w < 256 /\ forall j, j < 8 - bits w -> N.testbit (pending w) j = false.

Definition written (w : BitWriter) : list bool :=
  stream_bits (bytes w) ++ take (N.to_nat (bits w)) (msb_bits 8 (pending w)).

Definition reader_ok (r : BitReader) : Prop := at_bit r < 8.

Definition unread (r : BitReader) : list bool :=
  drop (8 * at_byte r + N.to_nat (at_bit r)) (stream_bits (data r)).

Lemma isolated v i : negb (N.land (N.shiftr v i) 1 =? 0) = N.testbit v i.
Proof.
  rewrite N.testbit_eqb, N.shiftr_div_pow2. change (N.land (v / 2 ^ i) 1) with (N.land (v / 2 ^ i) (N.ones 1)).
  rewrite N.land_ones. change (2 ^ 1) with 2. pose proof (N.mod_lt (v / 2 ^ i) 2 ltac:(done)) as Hm.
  revert Hm. generalize ((v / 2 ^ i) mod 2). intros a Hm.
  destruct (N.eqb_spec a 0) as [->|?]; [done|].
  destruct (N.eqb_spec a 1); [done|lia].
Qed.

Lemma msb_bits_length n v : length (msb_bits n v) = n.
Proof. induction n as [|n IH]; cbn [msb_bits length]; congruence. Qed.

Lemma stream_bits_snoc l b : stream_bits (l ++ [b]) = stream_bits l ++ msb_bits 8 (Byte.to_N b).
Proof. unfold stream_bits. rewrite map_app, concat_app. cbn [map concat]. by rewrite app_nil_r. Qed.

Lemma eight (P : N -> Prop) : (forall n, (n < 8)%nat -> P (N.of_nat n)) -> forall n, n < 8 -> P n.
Proof. intros H n Hn. specialize (H (N.to_nat n)). rewrite N2Nat.id in H. apply H. lia. Qed.

Lemma msb_stream_lookup l p q x :
  l !! p = Some x -> q < 8 -> stream_bits l !! (8 * p + N.to_nat q)%nat = Some (N.testbit (Byte.to_N x) (7 - q)).
Proof.
  intros Hl Hq. revert p Hl. induction l as [|y l IH]; intros p Hl; [done|]. cbn [stream_bits map concat].
  destruct p as [|p].
  - injection Hl as ->. rewrite lookup_app_l by (rewrite msb_bits_length; lia).
    clear IH. revert q Hq. apply eight.
    intros n Hn. do 8 (destruct n as [|n]; [done|]). lia.
  - rewrite lookup_app_r by (rewrite msb_bits_length; lia). rewrite msb_bits_length.
    replace (8 * S p + N.to_nat q - 8)%nat with (8 * p + N.to_nat q)%nat by lia. by apply IH.
Qed.

Lemma msb_stream_length l : length (stream_bits l) = (8 * length l)%nat.
Proof.
  unfold stream_bits. induction l as [|b l IH]; [done|]. cbn [map concat length].
  rewrite length_app, IH, msb_bits_length. lia.
Qed.

Lemma empty_writer_ok : writer_ok writer_new.
Proof. split_and!; [done|done|]. intros. apply N.bits_0. Qed.

Lemma write_bit_msb w b : writer_ok w -> writer_ok (write_bit w b) /\ written (write_bit w b) = written w ++ [b].
Proof.
  intros (Hb & Hp & Hlow). unfold write_bit. set (p := if b then _ else _).
  assert (Hset : forall j, N.testbit p j = N.testbit (pending w) j || (b && (j =? 7 - bits w))).
  { intros j. unfold p. destruct b; [|by rewrite orb_false_r]. rewrite N.lor_spec, N.shiftl_1_l, N.pow2_bits_eqb.
    by rewrite (N.eqb_sym j). }
  assert (Hp' : p < 256).
  { unfold p. destruct b; [|done]. change 256 with (2 ^ 8). rewrite N.shiftl_1_l.
    destruct (N.eq_dec (N.lor (pending w) (2 ^ (7 - bits w))) 0) as [->|Hnz]; [done|].
    apply N.log2_lt_pow2; [lia|]. rewrite N.log2_lor, N.log2_pow2 by lia.
    destruct (N.eq_dec (pending w) 0) as [->|]; [cbn; lia|].
    pose proof (proj1 (N.log2_lt_pow2 (pending w) 8 ltac:(lia)) Hp). lia. }
  assert (Htake : take (S (N.to_nat (bits w))) (msb_bits 8 p) =
      take (N.to_nat (bits w)) (msb_bits 8 (pending w)) ++ [b]).
  { clear Hp'. pose proof (Hlow (7 - bits w) ltac:(lia)) as Hz. revert Hset Hz. clearbody p.
    clear Hlow. generalize (bits w) Hb.
    intros n Hn. revert n Hn. apply (eight (fun n => _ -> _ -> _)). intros n Hn Hset Hz.
    cbn [msb_bits]. revert Hset Hz. generalize (N.testbit p), (N.testbit (pending w)). intros g f Hset Hz.
    do 8 (destruct n as [|n];
      [vm_compute in Hz; vm_compute; rewrite !Hset; vm_compute; rewrite ?Hz; destruct b;
       repeat match goal with |- context [f ?j] => destruct (f j) end; done|]).
    lia. }
  destruct (N.eqb_spec (bits w + 1) 8) as [E|E].
  - split; [split_and!; [done|done|]; intros; apply N.bits_0|].
    unfold written. cbn [bytes bits pending]. rewrite stream_bits_snoc, to_N_byte_of, N.mod_small, <- app_assoc by done.
    change (N.to_nat 0) with 0%nat. cbn [take].
    rewrite app_nil_r, <- app_assoc, <- Htake. replace (S (N.to_nat (bits w))) with 8%nat by lia. done.
  - split.
    + unfold writer_ok. cbn [bits pending]. split_and!; [lia|done|]. intros j Hj. rewrite Hset, Hlow by lia.
      rewrite (proj2 (N.eqb_neq j _)) by lia. by rewrite andb_false_r.
    + unfold written. cbn [bytes bits pending]. rewrite <- app_assoc. f_equal.
      by replace (N.to_nat (bits w + 1)) with (S (N.to_nat (bits w))) by lia.
Qed.

Lemma write_bits_msb n w v :
  writer_ok w -> writer_ok (write_bits w v n) /\ written (write_bits w v n) = written w ++ msb_bits n v.
Proof.
  revert w. induction n as [|n IH]; intros w Hw; cbn [write_bits msb_bits]; [by rewrite app_nil_r|].
  rewrite isolated. destruct (write_bit_msb w (N.testbit v (N.of_nat n)) Hw) as [Hw' E].
  destruct (IH _ Hw') as [Hw'' E']. split; [done|]. by rewrite E', E, <- app_assoc.
Qed.

Lemma write_zeros_spec m w :
  writer_ok w -> writer_ok (N.iter m (fun w => write_bit w false) w) /\
    written (N.iter m (fun w => write_bit w false) w) = written w ++ repeat false (N.to_nat m).
Proof.
  intros Hw. induction m as [|m [IH1 IH2]] using N.peano_ind; [by rewrite app_nil_r|].
  rewrite N.iter_succ, N2Nat.inj_succ. destruct (write_bit_msb _ false IH1) as [H1 H2]. split; [done|].
  rewrite H2, IH2, <- app_assoc. f_equal. cbn [repeat]. symmetry. apply repeat_cons.
Qed.

Lemma finish_msb w : writer_ok w -> exists pad, stream_bits (finish w) = written w ++ pad.
Proof.
  intros (Hb & Hp & _). unfold finish, written. destruct (N.ltb_spec 0 (bits w)).
  - exists (drop (N.to_nat (bits w)) (msb_bits 8 (pending w))).
    by rewrite stream_bits_snoc, to_N_byte_of, N.mod_small, <- app_assoc, take_drop by done.
  - exists []. replace (bits w) with 0 by lia. by rewrite !app_nil_r.
Qed.

Lemma read_bit_spec r b rest :
  reader_ok r -> unread r = b :: rest -> exists r', read_bit r = Ok (r', b) /\ reader_ok r' /\ unread r' = rest.
Proof.
  unfold reader_ok, unread, read_bit. intros Hb Hu. set (k := (8 * at_byte r + N.to_nat (at_bit r))%nat) in *.
  assert (Hk : stream_bits (data r) !! k = Some b).
  { pose proof (lookup_drop (stream_bits (data r)) k 0) as E. rewrite Hu, Nat.add_0_r in E. by rewrite <- E. }
  rewrite (drop_S _ _ _ Hk) in Hu. injection Hu as Hu.
  destruct (data r !! at_byte r) as [x|] eqn:Hx; cycle 1.
  { apply lookup_lt_Some in Hk. rewrite msb_stream_length in Hk. apply lookup_ge_None in Hx. lia. }
  rewrite isolated. unfold k in Hk. rewrite (msb_stream_lookup _ _ _ _ Hx Hb) in Hk. injection Hk as ->.
  eexists. split; [done|]. destruct (N.eqb_spec (at_bit r + 1) 8); cbn [at_bit at_byte data].
  - split; [lia|]. rewrite <- Hu. f_equal. lia.
  - split; [lia|]. rewrite <- Hu. f_equal. lia.
Qed.

(** ** Lemmas: codes *)
Definition code_bits (n : N) : list bool :=
  let v := n + 1 in let m := N.to_nat (N.log2 v) in repeat false m ++ msb_bits (S m) v.

Lemma write_exp_golomb_spec w n :
  writer_ok w -> n + 1 < 2 ^ 31 ->
  writer_ok (write_exp_golomb w n) /\ written (write_exp_golomb w n) = written w ++ code_bits n.
Proof.
  intros Hw Hn. unfold write_exp_golomb, code_bits. rewrite wrap_small by lia.
  assert (Hl : N.log2 (n + 1) < 31) by (apply N.log2_lt_pow2; lia).
  assert (Hm : wrapping_sub 32 31 (leading_zeros (n + 1)) = N.log2 (n + 1)).
  { unfold wrapping_sub, leading_zeros. rewrite N.size_log2 by lia. rewrite (N.mod_small (32 - _)) by lia.
    unfold wrap. replace (31 + 2 ^ 32 - (32 - N.succ (N.log2 (n + 1)))) with (N.log2 (n + 1) + 1 * 2 ^ 32) by lia.
    rewrite N.Div0.mod_add, N.mod_small by lia. done. }
  cbv zeta. rewrite Hm. rewrite (wrap_small 32), (wrap_small 8) by lia.
  destruct (write_zeros_spec (N.log2 (n + 1)) w Hw) as [Hz Ez].
  destruct (write_bits_msb (N.to_nat (N.log2 (n + 1) + 1)) _ (n + 1) Hz) as [Hb Eb].
  split; [exact Hb|]. rewrite Eb, Ez, <- app_assoc. do 3 f_equal. lia.
Qed.

Lemma read_zeros_spec j rounds r m rest :
  reader_ok r -> unread r = repeat false j ++ true :: rest -> (j < rounds)%nat -> m + N.of_nat j <= 30 ->
  exists r', read_zeros rounds r m = Ok (r', m + N.of_nat j) /\ reader_ok r' /\ unread r' = rest.
Proof.
  revert rounds r m. induction j as [|j IH]; intros [|rounds] r m Hr Hu Hj Hm; try lia; cbn [read_zeros repeat app] in *.
  - destruct (read_bit_spec r true _ Hr Hu) as (r' & -> & ? & ?). exists r'. by rewrite N.add_0_r.
  - destruct (read_bit_spec r false _ Hr Hu) as (r1 & -> & Hr1 & Hu1). cbn [mbind result_bind].
    rewrite (proj2 (N.ltb_ge _ _)) by lia.
    destruct (IH rounds r1 (m + 1) Hr1 Hu1) as (r' & -> & ? & ?); [lia|lia|]. exists r'. split; [|done]. do 2 f_equal. lia.
Qed.

Lemma append_bit val b : N.lor (2 * val) (N.b2n b) = 2 * val + N.b2n b.
Proof.
  destruct val as [|p], b; done.
Qed.

Lemma read_value_spec m r v val rest :
  reader_ok r -> unread r = msb_bits m v ++ rest -> (val + 1) * 2 ^ N.of_nat m <= 2 ^ 32 ->
  exists r', read_value m r val = Ok (r', val * 2 ^ N.of_nat m + v mod 2 ^ N.of_nat m) /\ reader_ok r' /\ unread r' = rest.
Proof.
  revert r val. induction m as [|m IH]; intros r val Hr Hu Hv; cbn [read_value msb_bits app] in *.
  - exists r. rewrite N.mod_1_r, N.mul_1_r, N.add_0_r. done.
  - destruct (read_bit_spec r _ _ Hr Hu) as (r1 & -> & Hr1 & Hu1). cbn [mbind result_bind].
    pose proof (pow2_pos (N.of_nat m)). rewrite Nat2N.inj_succ, N.pow_succ_r' in *.
    rewrite N.shiftl_mul_pow2, wrap_small by (change (2 ^ 1) with 2; nia). change (2 ^ 1) with 2.
    rewrite (N.mul_comm val 2), append_bit.
    destruct (IH r1 (2 * val + N.b2n (N.testbit v (N.of_nat m))) Hr1 Hu1) as (r' & -> & Hr' & Hu').
    { destruct (N.testbit v (N.of_nat m)); cbn [N.b2n]; nia. }
    exists r'. split; [|done]. do 2 f_equal. rewrite (N.mul_comm 2 (2 ^ N.of_nat m)), N.Div0.mod_mul_r.
    rewrite <- N.testbit_spec'. lia.
Qed.

Lemma read_exp_golomb_spec r n rest :
  reader_ok r -> unread r = code_bits n ++ rest -> n + 1 < 2 ^ 31 ->
  exists r', read_exp_golomb r = Ok (r', n) /\ reader_ok r' /\ unread r' = rest.
Proof.
  intros Hr Hu Hn. unfold read_exp_golomb, code_bits in *. cbv zeta in Hu. set (k := N.log2 (n + 1)) in *.
  assert (Hk : k < 31) by (apply N.log2_lt_pow2; lia).
  pose proof (N.log2_spec (n + 1) ltac:(lia)) as Hs. fold k in Hs. rewrite N.pow_succ_r' in Hs.
  cbn [msb_bits] in Hu. rewrite N2Nat.id in Hu. unfold k in Hu at 2. rewrite N.bit_log2 in Hu by lia.
  rewrite <- app_assoc in Hu. cbn [app] in Hu.
  destruct (read_zeros_spec _ 32 r 0 _ Hr Hu) as (r1 & -> & Hr1 & Hu1); [lia|lia|]. cbn [mbind result_bind].
  rewrite N.add_0_l, Nat2N.id.
  destruct (read_value_spec _ r1 _ 1 _ Hr1 Hu1) as (r2 & -> & Hr2 & Hu2).
  { rewrite N2Nat.id. pose proof (N.pow_le_mono_r 2 k 30). change (2 ^ 32) with (4 * 2 ^ 30). lia. }
  cbn [mbind result_bind]. exists r2. split; [|done]. do 2 f_equal. rewrite N2Nat.id.
  assert (E : (n + 1) mod 2 ^ k = n + 1 - 2 ^ k).
  { symmetry. apply (N.mod_unique _ _ 1); lia. }
  rewrite E. lia.
Qed.

(** Deltas the code carries. *)
Definition small_delta (d : Z) : Prop := (- 2 ^ 30 < d < 2 ^ 30)%Z.

Lemma zigzag_encode_spec d :
  small_delta d -> zigzag_encode d = Z.to_N (if (d <? 0)%Z then - 2 * d - 1 else 2 * d)%Z.
Proof.
  unfold small_delta, zigzag_encode, as_u32. intros Hd. rewrite Z.shiftl_mul_pow2 by lia. change (2 ^ 1)%Z with 2%Z.
  rewrite i32_small by lia. rewrite Z.shiftr_div_pow2 by lia. destruct (Z.ltb_spec d 0).
  - rewrite <- (Z.div_unique d (2 ^ 31) (-1) (d + 2 ^ 31)) by lia. rewrite Z.lxor_m1_r. unfold Z.lnot.
    rewrite Z.mod_small by lia. f_equal. lia.
  - rewrite Z.div_small, Z.lxor_0_r, Z.mod_small by lia. f_equal. lia.
Qed.

Lemma zigzag_decode_spec n :
  n < 2 ^ 32 -> zigzag_decode n = (if N.odd n then - Z.of_N (n / 2) - 1 else Z.of_N (n / 2))%Z.
Proof.
  intros Hn. unfold zigzag_decode. rewrite N.shiftr_div_pow2. change (2 ^ 1) with 2.
  assert (n / 2 < 2 ^ 31) by (apply N.Div0.div_lt_upper_bound; lia).
  set (q := n / 2) in *. clearbody q. rewrite (i32_small (Z.of_N q)) by lia.
  assert (E : N.land n 1 = N.b2n (N.odd n)).
  { change 1 with (N.ones 1). rewrite N.land_ones, <- N.bit0_odd. symmetry. apply N.bit0_mod. }
  rewrite E. destruct (N.odd n).
  - change (i32 (- Z.of_N (N.b2n true))) with (-1)%Z. rewrite Z.lxor_m1_r. unfold Z.lnot. lia.
  - change (i32 (- Z.of_N (N.b2n false))) with 0%Z. apply Z.lxor_0_r.
Qed.

Lemma zigzag_roundtrip d : small_delta d -> zigzag_decode (zigzag_encode d) = d /\ zigzag_encode d + 1 < 2 ^ 31.
Proof.
  intros Hd. rewrite zigzag_encode_spec by done. unfold small_delta in Hd. destruct (Z.ltb_spec d 0).
  - split; [|lia]. rewrite zigzag_decode_spec by lia.
    replace (Z.to_N (- 2 * d - 1)) with (2 * Z.to_N (- d - 1) + 1) by lia.
    rewrite N.odd_add, N.odd_mul. change (N.odd 2) with false. change (N.odd 1) with true. cbn [andb xorb].
    rewrite (N.mul_comm 2), N.div_add_l by lia. change (1 / 2) with 0. lia.
  - split; [|lia]. rewrite zigzag_decode_spec by lia. replace (Z.to_N (2 * d)) with (2 * Z.to_N d) by lia.
    rewrite N.odd_mul. change (N.odd 2) with false. cbn [andb]. rewrite (N.mul_comm 2), N.div_mul by lia. lia.
Qed.

(** ** Lemmas: one scalar *)
Definition near1 (p c : Z) : Prop := small_delta (i32 (c - p)).
Definition delta_bits (p c : Z) : list bool := code_bits (zigzag_encode (i32 (c - p))).

Lemma put_spec w p c :
  writer_ok w -> near1 p c -> writer_ok (put w c p) /\ written (put w c p) = written w ++ delta_bits p c.
Proof. intros Hw Hn. apply write_exp_golomb_spec; [done|]. by apply zigzag_roundtrip. Qed.

Lemma i32_add_l a b : i32 (i32 a + b) = i32 (a + b).
Proof.
  rewrite <- (i32_shift (i32 a + b) ((a + 2 ^ 31) / 2 ^ 32)). f_equal. unfold i32.
  pose proof (Z.div_mod (a + 2 ^ 31) (2 ^ 32)). lia.
Qed.

Lemma get_spec r p c o rest :
  reader_ok r -> near1 p c -> unread r = delta_bits p c ++ rest ->
  exists r', get r (i32 (p + o)) = Ok (r', i32 (c + o)) /\ reader_ok r' /\ unread r' = rest.
Proof.
  intros Hr Hn Hu. destruct (zigzag_roundtrip _ Hn) as [Hz Hlt].
  destruct (read_exp_golomb_spec r _ rest Hr Hu Hlt) as (r' & E & Hr' & Hu'). exists r'. split; [|done].
  unfold get. rewrite E. cbn [mbind result_bind]. rewrite Hz, i32_add_l, Z.add_comm, i32_add_l. do 3 f_equal. lia.
Qed.

(** ** Lemmas: tables *)
Definition table (n : nat) (f : nat -> Z) : list Z := map f (seq 0 n).

Lemma table_lookup n f i : (i < n)%nat -> table n f !!! i = f i.
Proof.
  intros Hi. unfold table. apply list_lookup_total_correct. rewrite list_lookup_fmap, lookup_seq_lt by done. done.
Qed.

Lemma table_ext n f g : (forall i, (i < n)%nat -> f i = g i) -> table n f = table n g.
Proof. intros H. apply map_ext_in. intros i Hi. apply in_seq in Hi. apply H. lia. Qed.

Lemma table_self n l : length l = n -> table n (fun i => l !!! i) = l.
Proof.
  intros Hl. apply list_eq. intros i. unfold table. rewrite list_lookup_fmap.
  destruct (decide (i < n)%nat) as [Hi|Hi].
  - rewrite lookup_seq_lt by done. cbn. symmetry. apply list_lookup_lookup_total_lt. lia.
  - rewrite lookup_seq_ge, (proj2 (lookup_ge_None l i)) by lia. done.
Qed.

Definition stores (f : nat -> Z) (l : list Z) (ix : list nat) : list Z := foldl (fun l i => <[i := f i]> l) l ix.

Lemma stores_all f l : stores f l (seq 0 (length l)) = table (length l) f.
Proof.
  assert (Hg : forall k, (k <= length l)%nat -> stores f l (seq 0 k) = table k f ++ drop k l).
  { induction k as [|k IH]; intros Hk; [done|]. rewrite seq_S. unfold stores in *. rewrite foldl_app, IH by lia.
    cbn [foldl plus]. assert (Hlen : length (table k f) = k) by (unfold table; by rewrite length_map, length_seq).
    rewrite insert_app_r_alt by lia. rewrite Hlen, Nat.sub_diag.
    destruct (lookup_lt_is_Some_2 l k ltac:(lia)) as [x Hx]. rewrite (drop_S _ _ _ Hx). cbn [insert list_insert].
    unfold table. rewrite seq_S, map_app, <- app_assoc. done. }
  rewrite Hg by done. by rewrite drop_all, app_nil_r.
Qed.

(** ** Lemmas: states *)
(** The receiver's state: the sender's, moved by a constant offset. *)
Definition shift (o s : QuantisedState) : QuantisedState := {|
  kp_x := table KEYPOINT_COUNT (fun i => i32 (kp_x s !!! i + kp_x o !!! i));
  kp_y := table KEYPOINT_COUNT (fun i => i32 (kp_y s !!! i + kp_y o !!! i));
  kp_z := table KEYPOINT_COUNT (fun i => i32 (kp_z s !!! i + kp_z o !!! i));
  q_yaw := i32 (q_yaw s + q_yaw o); q_pitch := i32 (q_pitch s + q_pitch o); q_roll := i32 (q_roll s + q_roll o);
  q_tx := i32 (q_tx s + q_tx o); q_ty := i32 (q_ty s + q_ty o); q_tz := i32 (q_tz s + q_tz o);
  expr := table EXPRESSION_DIM (fun i => i32 (expr s !!! i + expr o !!! i)) |}.

(** What the keyframe cuts off. *)
Definition cut (v : Z) : Z := (clamp16 v - v)%Z.
Definition excess (s : QuantisedState) : QuantisedState := {|
  kp_x := table KEYPOINT_COUNT (fun i => cut (kp_x s !!! i));
  kp_y := table KEYPOINT_COUNT (fun i => cut (kp_y s !!! i));
  kp_z := table KEYPOINT_COUNT (fun i => cut (kp_z s !!! i));
  q_yaw := cut (q_yaw s); q_pitch := cut (q_pitch s); q_roll := cut (q_roll s);
  q_tx := cut (q_tx s); q_ty := cut (q_ty s); q_tz := cut (q_tz s);
  expr := table EXPRESSION_DIM (fun i => cut (expr s !!! i)) |}.

(** Every scalar moved by a step the delta code carries. *)
Definition near (p c : QuantisedState) : Prop :=
  (forall i, (i < KEYPOINT_COUNT)%nat ->
     near1 (kp_x p !!! i) (kp_x c !!! i) /\ near1 (kp_y p !!! i) (kp_y c !!! i) /\
     near1 (kp_z p !!! i) (kp_z c !!! i)) /\
  (near1 (q_yaw p) (q_yaw c) /\ near1 (q_pitch p) (q_pitch c) /\ near1 (q_roll p) (q_roll c) /\
   near1 (q_tx p) (q_tx c) /\ near1 (q_ty p) (q_ty c) /\ near1 (q_tz p) (q_tz c)) /\
  (forall i, (i < EXPRESSION_DIM)%nat -> near1 (expr p !!! i) (expr c !!! i)).

Definition point_bits (p c : QuantisedState) (i : nat) : list bool :=
  delta_bits (kp_x p !!! i) (kp_x c !!! i) ++ delta_bits (kp_y p !!! i) (kp_y c !!! i) ++
  delta_bits (kp_z p !!! i) (kp_z c !!! i).

Definition expr_bits (p c : QuantisedState) (i : nat) : list bool := delta_bits (expr p !!! i) (expr c !!! i).

Definition state_bits (p c : QuantisedState) : list bool :=
  concat (map (point_bits p c) (seq 0 KEYPOINT_COUNT)) ++
  delta_bits (q_yaw p) (q_yaw c) ++ delta_bits (q_pitch p) (q_pitch c) ++ delta_bits (q_roll p) (q_roll c) ++
  delta_bits (q_tx p) (q_tx c) ++ delta_bits (q_ty p) (q_ty c) ++ delta_bits (q_tz p) (q_tz c) ++
  concat (map (expr_bits p c) (seq 0 EXPRESSION_DIM)).

(** A loop of writes appends the bits of its turns. *)
Lemma writes_spec (step : BitWriter -> nat -> BitWriter) (out : nat -> list bool) ix w :
  writer_ok w ->
  (forall w i, In i ix -> writer_ok w -> writer_ok (step w i) /\ written (step w i) = written w ++ out i) ->
  writer_ok (foldl step w ix) /\ written (foldl step w ix) = written w ++ concat (map out ix).
Proof.
  revert w. induction ix as [|i ix IH]; intros w Hw Hs; cbn [foldl map concat]; [by rewrite app_nil_r|].
  destruct (Hs w i (or_introl eq_refl) Hw) as [Hw1 E1].
  destruct (IH (step w i) Hw1) as [Hw2 E2]; [intros; apply Hs; [by right|done]|].
  split; [done|]. by rewrite E2, E1, <- app_assoc.
Qed.

Lemma encode_delta_spec w p c :
  writer_ok w -> near p c ->
  writer_ok (encode_delta w p c) /\ written (encode_delta w p c) = written w ++ state_bits p c.
Proof.
  intros Hw (Hp & (H1 & H2 & H3 & H4 & H5 & H6) & He). unfold encode_delta, state_bits. cbv zeta.
  destruct (writes_spec (put_point p c) (point_bits p c) (seq 0 KEYPOINT_COUNT) w Hw) as [Hw0 E0].
  { intros w0 i Hi Hw0. apply in_seq in Hi. destruct (Hp i ltac:(lia)) as (Hx & Hy & Hz). unfold put_point, point_bits.
    destruct (put_spec w0 _ _ Hw0 Hx) as [Ha Ea]. destruct (put_spec _ _ _ Ha Hy) as [Hb Eb].
    destruct (put_spec _ _ _ Hb Hz) as [Hc Ec]. split; [done|]. by rewrite Ec, Eb, Ea, <- !app_assoc. }
  destruct (put_spec _ _ _ Hw0 H1) as [Hw1 E1]. destruct (put_spec _ _ _ Hw1 H2) as [Hw2 E2].
  destruct (put_spec _ _ _ Hw2 H3) as [Hw3 E3]. destruct (put_spec _ _ _ Hw3 H4) as [Hw4 E4].
  destruct (put_spec _ _ _ Hw4 H5) as [Hw5 E5]. destruct (put_spec _ _ _ Hw5 H6) as [Hw6 E6].
  destruct (writes_spec (fun w i => put w (expr c !!! i) (expr p !!! i)) (expr_bits p c) (seq 0 EXPRESSION_DIM) _ Hw6)
    as [Hw7 E7].
  { intros w0 i Hi Hw'. apply in_seq in Hi. apply put_spec; [done|]. apply He. lia. }
  split; [done|]. by rewrite E7, E6, E5, E4, E3, E2, E1, E0, <- !app_assoc.
Qed.

Lemma get_points_spec p c o ix r xs ys zs rest :
  (forall i, In i ix -> (i < KEYPOINT_COUNT)%nat) -> reader_ok r -> near p c ->
  unread r = concat (map (point_bits p c) ix) ++ rest ->
  exists r', get_points (shift o p) ix r xs ys zs =
      Ok (r', (stores (fun i => i32 (kp_x c !!! i + kp_x o !!! i)) xs ix,
               stores (fun i => i32 (kp_y c !!! i + kp_y o !!! i)) ys ix,
               stores (fun i => i32 (kp_z c !!! i + kp_z o !!! i)) zs ix)) /\
    reader_ok r' /\ unread r' = rest.
Proof.
  intros Hix Hr Hn. revert r xs ys zs Hr. induction ix as [|i ix IH]; intros r xs ys zs Hr Hu; cbn [get_points].
  { by exists r. }
  cbn [map concat] in Hu. unfold point_bits at 1 in Hu. rewrite <- !app_assoc in Hu.
  pose proof (Hix i (or_introl eq_refl)) as Hi. destruct Hn as [Hp Hn']. destruct (Hp i Hi) as (Hx & Hy & Hz).
  cbn [shift kp_x kp_y kp_z]. rewrite !table_lookup by done.
  destruct (get_spec r _ _ (kp_x o !!! i) _ Hr Hx Hu) as (r1 & -> & Hr1 & Hu1). cbn [mbind result_bind].
  destruct (get_spec r1 _ _ (kp_y o !!! i) _ Hr1 Hy Hu1) as (r2 & -> & Hr2 & Hu2). cbn [mbind result_bind].
  destruct (get_spec r2 _ _ (kp_z o !!! i) _ Hr2 Hz Hu2) as (r3 & -> & Hr3 & Hu3). cbn [mbind result_bind].
  apply (IH (fun j Hj => Hix j (or_intror Hj))); done.
Qed.

Lemma get_exprs_spec p c o ix r vs rest :
  (forall i, In i ix -> (i < EXPRESSION_DIM)%nat) -> reader_ok r -> near p c ->
  unread r = concat (map (expr_bits p c) ix) ++ rest ->
  exists r', get_exprs (shift o p) ix r vs =
      Ok (r', stores (fun i => i32 (expr c !!! i + expr o !!! i)) vs ix) /\ reader_ok r' /\ unread r' = rest.
Proof.
  intros Hix Hr Hn. revert r vs Hr. induction ix as [|i ix IH]; intros r vs Hr Hu; cbn [get_exprs].
  { by exists r. }
  cbn [map concat] in Hu. unfold expr_bits at 1 in Hu. rewrite <- !app_assoc in Hu.
  pose proof (Hix i (or_introl eq_refl)) as Hi. cbn [shift expr]. rewrite !table_lookup by done.
  destruct (get_spec r _ _ (expr o !!! i) _ Hr (proj2 (proj2 Hn) i Hi) Hu) as (r1 & -> & Hr1 & Hu1).
  cbn [mbind result_bind]. apply (IH (fun j Hj => Hix j (or_intror Hj))); done.
Qed.

Lemma table_length n f : length (table n f) = n.
Proof. unfold table. by rewrite length_map, length_seq. Qed.

Lemma stores_table n f g : stores f (table n g) (seq 0 n) = table n f.
Proof. pose proof (stores_all f (table n g)) as E. by rewrite table_length in E. Qed.

(** A delta frame takes the receiver from the shifted old state to the shifted
    new one. *)
Lemma decode_delta_spec p c o pad r :
  reader_ok r -> near p c -> unread r = state_bits p c ++ pad -> decode_delta r (shift o p) = Ok (shift o c).
Proof.
  intros Hr Hn Hu. unfold state_bits in Hu. rewrite <- !app_assoc in Hu. unfold decode_delta.
  assert (Hix : forall n i, In i (seq 0 n) -> (i < n)%nat) by (intros n i Hi; apply in_seq in Hi; lia).
  destruct (get_points_spec p c o _ r (kp_x (shift o p)) (kp_y (shift o p)) (kp_z (shift o p)) _ (Hix _) Hr Hn Hu)
    as (r0 & -> & Hr0 & Hu0).
  cbn [mbind result_bind]. cbn [shift kp_x kp_y kp_z]. rewrite !stores_table.
  pose proof Hn as (Hp & (H1 & H2 & H3 & H4 & H5 & H6) & He).
  cbn [shift q_yaw q_pitch q_roll q_tx q_ty q_tz].
  destruct (get_spec _ _ _ (q_yaw o) _ Hr0 H1 Hu0) as (r1 & -> & Hr1 & Hu1). cbn [mbind result_bind].
  destruct (get_spec _ _ _ (q_pitch o) _ Hr1 H2 Hu1) as (r2 & -> & Hr2 & Hu2). cbn [mbind result_bind].
  destruct (get_spec _ _ _ (q_roll o) _ Hr2 H3 Hu2) as (r3 & -> & Hr3 & Hu3). cbn [mbind result_bind].
  destruct (get_spec _ _ _ (q_tx o) _ Hr3 H4 Hu3) as (r4 & -> & Hr4 & Hu4). cbn [mbind result_bind].
  destruct (get_spec _ _ _ (q_ty o) _ Hr4 H5 Hu4) as (r5 & -> & Hr5 & Hu5). cbn [mbind result_bind].
  destruct (get_spec _ _ _ (q_tz o) _ Hr5 H6 Hu5) as (r6 & -> & Hr6 & Hu6). cbn [mbind result_bind].
  destruct (get_exprs_spec p c o _ r6 (expr (shift o p)) _ (Hix _) Hr6 Hn Hu6) as (r7 & E & _ & _).
  rewrite E. cbn [mbind result_bind]. change (expr (shift o p)) with
    (table EXPRESSION_DIM (fun i => i32 (expr p !!! i + expr o !!! i))). by rewrite stores_table.
Qed.

(** ** Lemmas: keyframes *)
Definition flat (s : QuantisedState) : list Z :=
  concat (map (fun i => [kp_x s !!! i; kp_y s !!! i; kp_z s !!! i]) (seq 0 KEYPOINT_COUNT)) ++
  [q_yaw s; q_pitch s; q_roll s; q_tx s; q_ty s; q_tz s] ++
  map (fun i => expr s !!! i) (seq 0 EXPRESSION_DIM).

Lemma clamp16_ok v : i16_ok (clamp16 v).
Proof.
  unfold clamp16, i16_ok, clampZ. destruct (Z.ltb_spec v (- 2 ^ 15)), (Z.ltb_spec (2 ^ 15 - 1) v); lia.
Qed.

Lemma clamp16_id v : i16_ok v -> clamp16 v = v.
Proof.
  unfold clamp16, i16_ok, clampZ. intros Hv.
  destruct (Z.ltb_spec v (- 2 ^ 15)), (Z.ltb_spec (2 ^ 15 - 1) v); lia.
Qed.

Lemma push_i16_length l : length (concat (map push_i16 l)) = (2 * length l)%nat.
Proof.
  induction l as [|v l IH]; [done|]. cbn [map concat length]. rewrite length_app, IH. unfold push_i16.
  rewrite i16_bytes_length. lia.
Qed.

Lemma read_pushed l k : (k < length l)%nat -> read_i16 (concat (map push_i16 l)) k = clamp16 (l !!! k).
Proof.
  unfold read_i16. revert k. induction l as [|v l IH]; intros k Hk; cbn [length] in Hk; [lia|].
  assert (Hv : length (push_i16 v) = 2%nat) by apply i16_bytes_length. cbn [map concat]. destruct k as [|k].
  - change (2 * 0)%nat with 0%nat. rewrite drop_0, take_app_length' by done. apply i16_roundtrip, clamp16_ok.
  - replace (2 * S k)%nat with (2 + 2 * k)%nat by lia. rewrite <- drop_drop, drop_app_length' by done. apply IH. lia.
Qed.

Lemma encode_keyframe_flat s : encode_keyframe s = TAG_KEYFRAME :: concat (map push_i16 (flat s)).
Proof. reflexivity. Qed.

Lemma flat_lookups s :
  (forall i, (i < KEYPOINT_COUNT)%nat ->
     flat s !!! (3 * i)%nat = kp_x s !!! i /\ flat s !!! (3 * i + 1)%nat = kp_y s !!! i /\
     flat s !!! (3 * i + 2)%nat = kp_z s !!! i) /\
  (forall i, (i < EXPRESSION_DIM)%nat -> flat s !!! (3 * KEYPOINT_COUNT + 6 + i)%nat = expr s !!! i).
Proof.
  split; intros i Hi.
  - unfold KEYPOINT_COUNT in Hi. do 20 (destruct i as [|i]; [done|]). lia.
  - unfold EXPRESSION_DIM in Hi. do 64 (destruct i as [|i]; [done|]). lia.
Qed.

Lemma i32_cut v : i32 (v + cut v) = clamp16 v.
Proof.
  unfold cut. replace (v + (clamp16 v - v))%Z with (clamp16 v) by lia. apply i32_small.
  pose proof (clamp16_ok v) as H. unfold i16_ok in H. lia.
Qed.

(** A keyframe sets the receiver to what it could carry of the sender's state. *)
Lemma decode_keyframe_spec s : decode_keyframe (concat (map push_i16 (flat s))) = Ok (shift (excess s) s).
Proof.
  assert (Hlen : length (flat s) = 130%nat) by done. unfold decode_keyframe. unfold lenN.
  rewrite push_i16_length, Hlen. change (_ <? _) with false. cbv iota zeta.
  destruct (flat_lookups s) as [Hp He].
  assert (Hr : forall k v, (k < 130)%nat -> flat s !!! k = v ->
      read_i16 (concat (map push_i16 (flat s))) k = i32 (v + cut v)).
  { intros k v Hk <-. rewrite read_pushed by lia. by rewrite i32_cut. }
  unfold shift, excess. cbn [kp_x kp_y kp_z q_yaw q_pitch q_roll q_tx q_ty q_tz expr]. f_equal. f_equal.
  - apply map_ext_in. intros i Hi. apply in_seq in Hi. unfold KEYPOINT_COUNT in *. rewrite table_lookup by lia.
    apply Hr; [lia|]. apply Hp. lia.
  - apply map_ext_in. intros i Hi. apply in_seq in Hi. unfold KEYPOINT_COUNT in *. rewrite table_lookup by lia.
    apply Hr; [lia|]. apply Hp. lia.
  - apply map_ext_in. intros i Hi. apply in_seq in Hi. unfold KEYPOINT_COUNT in *. rewrite table_lookup by lia.
    apply Hr; [lia|]. apply Hp. lia.
  - apply Hr; [unfold KEYPOINT_COUNT; lia|done].
  - apply Hr; [unfold KEYPOINT_COUNT; lia|done].
  - apply Hr; [unfold KEYPOINT_COUNT; lia|done].
  - apply Hr; [unfold KEYPOINT_COUNT; lia|done].
  - apply Hr; [unfold KEYPOINT_COUNT; lia|done].
  - apply Hr; [unfold KEYPOINT_COUNT; lia|done].
  - apply map_ext_in. intros i Hi. apply in_seq in Hi. unfold KEYPOINT_COUNT, EXPRESSION_DIM in *.
    rewrite table_lookup by lia. apply Hr; [lia|]. apply He. unfold EXPRESSION_DIM. lia.
Qed.

(** ** A stream of frames *)
Inductive MotionOp := Latents (l : MotionLatents) | EncoderReset.

Fixpoint encode_all (e : MotionEncoder) (ops : list MotionOp) : list (list byte) :=
  match ops with
  | [] => []
  | Latents l :: ops => let '(e, frame) := encode e l in frame :: encode_all e ops
  | EncoderReset :: ops => encode_all (encoder_reset e) ops
  end.

Fixpoint decode_all (d : MotionDecoder) (frames : list (list byte)) :
    list (result MotionCodecError MotionLatents) :=
  match frames with
  | [] => []
  | f :: frames => let '(d, r) := decode d f in r :: decode_all d frames
  end.

Definition latents_of (ops : list MotionOp) : list MotionLatents :=
  omap (fun op => match op with Latents l => Some l | EncoderReset => None end) ops.

(** What arrives, with [key] the state of the last keyframe: every frame moved by
    what that keyframe cut off. *)
Fixpoint arrives (key : option QuantisedState) (ops : list MotionOp) : list MotionLatents :=
  match ops with
  | [] => []
  | Latents l :: ops =>
      let k := default (quantise l) key in dequantise (shift (excess k) (quantise l)) :: arrives (Some k) ops
  | EncoderReset :: ops => arrives None ops
  end.

(** No scalar moves by [2^30] steps or more between two frames. *)
Fixpoint in_reach (prev : option QuantisedState) (ops : list MotionOp) : Prop :=
  match ops with
  | [] => True
  | Latents l :: ops =>
      match prev with Some p => near p (quantise l) | None => True end /\ in_reach (Some (quantise l)) ops
  | EncoderReset :: ops => in_reach None ops
  end.

(** Both ends between two frames. *)
Definition in_step (key : option QuantisedState) (e : MotionEncoder) (d : MotionDecoder) : Prop :=
  match key with
  | None => e_prev e = None
  | Some k => exists q, e_prev e = Some q /\ d_prev d = Some (shift (excess k) q)
  end.

Lemma decode_key d s : decode_state d (encode_keyframe s) = Ok (shift (excess s) s).
Proof. rewrite encode_keyframe_flat. cbn [decode_state]. rewrite bool_decide_true by done. apply decode_keyframe_spec. Qed.

Lemma decode_step d p c o :
  d_prev d = Some (shift o p) -> near p c ->
  decode_state d (TAG_DELTA :: finish (encode_delta writer_new p c)) = Ok (shift o c).
Proof.
  intros Hd Hn. cbn [decode_state]. rewrite bool_decide_false, bool_decide_true, Hd by done.
  cbn [ok_or mbind result_bind]. destruct (encode_delta_spec writer_new p c empty_writer_ok Hn) as [Hw Ew].
  destruct (finish_msb _ Hw) as [pad Ep]. apply (decode_delta_spec p c o pad); [done|done|].
  unfold unread, reader_new. cbn [at_byte at_bit data]. rewrite Ep, Ew. done.
Qed.

Lemma stream_arrives ops key e d :
  in_step key e d -> in_reach (e_prev e) ops -> decode_all d (encode_all e ops) = map Ok (arrives key ops).
Proof.
  revert key e d. induction ops as [|[l|] ops IH]; intros key e d Hs Hr; [done| |].
  - cbn [in_reach] in Hr. destruct Hr as [Hn Hr]. unfold in_step in Hs.
    assert (Hstep : exists k, k = default (quantise l) key /\
        decode_state d (snd (encode e l)) = Ok (shift (excess k) (quantise l))).
    { unfold encode. cbn [snd]. destruct key as [k|].
      - destruct Hs as (q & Hq & Hd). exists k. split; [done|]. rewrite Hq in *. by apply decode_step.
      - exists (quantise l). rewrite Hs. split; [done|apply decode_key]. }
    destruct Hstep as (k & Hk & Hd). cbn [encode_all arrives]. rewrite <- Hk.
    change (encode e l) with (mkEncoder (Some (quantise l)), snd (encode e l)). cbv beta iota.
    cbn [decode_all]. unfold decode. rewrite Hd. cbn [map]. f_equal.
    apply (IH (Some k)); [|done]. by exists (quantise l).
  - cbn [encode_all arrives in_reach] in *. by apply IH.
Qed.

(** Quantised latents that a keyframe carries whole. *)
Definition carried (s : QuantisedState) : Prop :=
  (forall i, (i < KEYPOINT_COUNT)%nat -> i16_ok (kp_x s !!! i) /\ i16_ok (kp_y s !!! i) /\ i16_ok (kp_z s !!! i)) /\
  (i16_ok (q_yaw s) /\ i16_ok (q_pitch s) /\ i16_ok (q_roll s) /\
   i16_ok (q_tx s) /\ i16_ok (q_ty s) /\ i16_ok (q_tz s)) /\
  (forall i, (i < EXPRESSION_DIM)%nat -> i16_ok (expr s !!! i)).

Lemma near1_carried p c : i16_ok p -> i16_ok c -> near1 p c.
Proof. unfold i16_ok, near1, small_delta. intros Hp Hc. rewrite i32_small; lia. Qed.

Lemma near_carried p c : carried p -> carried c -> near p c.
Proof.
  intros (Pp & Pq & Pe) (Cp & Cq & Ce). split; [|split].
  - intros i Hi. destruct (Pp i Hi) as (?&?&?), (Cp i Hi) as (?&?&?). split_and!; by apply near1_carried.
  - destruct Pq as (?&?&?&?&?&?), Cq as (?&?&?&?&?&?). split_and!; by apply near1_carried.
  - intros i Hi. apply near1_carried; auto.
Qed.

Lemma fill_length n vs : length (fill n vs) = n.
Proof. unfold fill. rewrite length_app, length_take, repeat_length. lia. Qed.

Lemma i32_uncut k v : i16_ok k -> i16_ok v -> i32 (v + cut k) = v.
Proof.
  intros Hk Hv. unfold cut. rewrite clamp16_id by done. unfold i16_ok in Hv. rewrite i32_small; lia.
Qed.

Lemma table_uncut n l f :
  length l = n -> (forall i, (i < n)%nat -> i16_ok (l !!! i) /\ i16_ok (f i)) ->
  table n (fun i => i32 (l !!! i + table n (fun i => cut (f i)) !!! i)) = l.
Proof.
  intros Hl Hok. transitivity (table n (fun i => l !!! i)); [|by apply table_self]. apply table_ext. intros i Hi.
  rewrite table_lookup by done. destruct (Hok i Hi). by apply i32_uncut.
Qed.

Lemma shift_carried k l : carried k -> carried (quantise l) -> shift (excess k) (quantise l) = quantise l.
Proof.
  intros (Kp & (K1 & K2 & K3 & K4 & K5 & K6) & Ke) (Cp & (C1 & C2 & C3 & C4 & C5 & C6) & Ce).
  unfold shift, excess. cbn [kp_x kp_y kp_z q_yaw q_pitch q_roll q_tx q_ty q_tz expr].
  rewrite (table_uncut KEYPOINT_COUNT (kp_x (quantise l)) (fun i => kp_x k !!! i) (fill_length _ _)
             (fun i Hi => conj (proj1 (Cp i Hi)) (proj1 (Kp i Hi)))).
  rewrite (table_uncut KEYPOINT_COUNT (kp_y (quantise l)) (fun i => kp_y k !!! i) (fill_length _ _)
             (fun i Hi => conj (proj1 (proj2 (Cp i Hi))) (proj1 (proj2 (Kp i Hi))))).
  rewrite (table_uncut KEYPOINT_COUNT (kp_z (quantise l)) (fun i => kp_z k !!! i) (fill_length _ _)
             (fun i Hi => conj (proj2 (proj2 (Cp i Hi))) (proj2 (proj2 (Kp i Hi))))).
  rewrite (table_uncut EXPRESSION_DIM (expr (quantise l)) (fun i => expr k !!! i) (fill_length _ _)
             (fun i Hi => conj (Ce i Hi) (Ke i Hi))).
  rewrite !i32_uncut by done. done.
Qed.

Lemma carried_reach ops prev :
  match prev with Some p => carried p | None => True end ->
  Forall (fun l => carried (quantise l)) (latents_of ops) -> in_reach prev ops.
Proof.
  revert prev. induction ops as [|[l|] ops IH]; intros prev Hp Hc; [done| |].
  - apply Forall_cons in Hc as [Hl Hc]. cbn [in_reach]. split; [|by apply IH].
    destruct prev as [p|]; [by apply near_carried|done].
  - by apply IH.
Qed.

Lemma carried_arrives ops key :
  match key with Some k => carried k | None => True end ->
  Forall (fun l => carried (quantise l)) (latents_of ops) ->
  arrives key ops = map (fun l => dequantise (quantise l)) (latents_of ops).
Proof.
  revert key. induction ops as [|[l|] ops IH]; intros key Hk Hc; [done| |].
  - apply Forall_cons in Hc as [Hl Hc]. cbn [arrives]. cbn [latents_of omap list_omap map].
    assert (Hd : carried (default (quantise l) key)) by (by destruct key).
    rewrite shift_carried by done. f_equal. by apply IH.
  - by apply IH.
Qed.

(** ** Properties *)

(** C10: The motion stream is lossless past the quantiser: frames received in order
    decode, each, to the dequantised latents the sender quantised, keyframes and
    deltas alike and whatever the resets of the encoder, when every quantised
    scalar is within 16 bits. *)
Theorem motion_roundtrip (ops : list MotionOp) (d : MotionDecoder) :
  Forall (fun l => carried (quantise l)) (latents_of ops) ->
  decode_all d (encode_all encoder_new ops) = map (fun l => Ok (dequantise (quantise l))) (latents_of ops).
Proof.
  intros Hc. rewrite (stream_arrives ops None) by (done || by apply carried_reach).
  rewrite carried_arrives by done. by rewrite map_map.
Qed.

(** What a keyframe cuts off is never sent: all frames up to the next keyframe
    arrive moved by it. *)
Theorem clamped_keyframe_offsets_stream (ops : list MotionOp) (d : MotionDecoder) :
  in_reach None ops -> decode_all d (encode_all encoder_new ops) = map Ok (arrives None ops).
Proof. intros Hr. by apply stream_arrives. Qed.

(** ** Witnesses *)
Lemma flat_check (P : Z -> Prop) (b : Z -> bool) s :
  (forall v, b v = true -> P v) -> forallb b (flat s) = true ->
  (forall i, (i < KEYPOINT_COUNT)%nat -> P (kp_x s !!! i) /\ P (kp_y s !!! i) /\ P (kp_z s !!! i)) /\
  (P (q_yaw s) /\ P (q_pitch s) /\ P (q_roll s) /\ P (q_tx s) /\ P (q_ty s) /\ P (q_tz s)) /\
  (forall i, (i < EXPRESSION_DIM)%nat -> P (expr s !!! i)).
Proof.
  intros Hb Hf. assert (HP : forall k, (k < 130)%nat -> P (flat s !!! k)).
  { intros k Hk. apply Hb. rewrite forallb_forall in Hf. apply Hf. apply list_elem_of_In.
    apply list_elem_of_lookup_total. exists k. split; [exact Hk|done]. }
  destruct (flat_lookups s) as [Hp He]. split; [|split].
  - intros i Hi. destruct (Hp i Hi) as (Hx & Hy & Hz). unfold KEYPOINT_COUNT in Hi. rewrite <- Hx, <- Hy, <- Hz.
    split_and!; apply HP; lia.
  - split_and!; [apply (HP 60%nat)|apply (HP 61%nat)|apply (HP 62%nat)|apply (HP 63%nat)|apply (HP 64%nat)|
                 apply (HP 65%nat)]; lia.
  - intros i Hi. pose proof (He i Hi) as E. unfold EXPRESSION_DIM in Hi. rewrite <- E. apply HP.
    unfold KEYPOINT_COUNT. lia.
Qed.

Definition face (yaw_rad : f32) (x : f32) : MotionLatents := {|
  keypoints := repeat (mkKeypoint x x s_zero (s_of_Z 1)) 20;
  pose := mkPose yaw_rad s_zero s_zero x x x;
  expression := mkExpression [s_of_Z 1; s_lit (-1) 2] |}.

Definition fits16 (v : Z) : bool := (- 2 ^ 15 <=? v)%Z && (v <? 2 ^ 15)%Z.

Lemma carried_check s : forallb fits16 (flat s) = true -> carried s.
Proof. apply flat_check. unfold fits16, i16_ok. intros v Hv. lia. Qed.

Lemma all_carried ls :
  forallb (fun l => forallb fits16 (flat (quantise l))) ls = true -> Forall (fun l => carried (quantise l)) ls.
Proof. rewrite forallb_forall. intros H. apply List.Forall_forall. intros l Hl. by apply carried_check, H. Qed.

Lemma near_check p c :
  forallb (fun v => (Z.abs v <? 2 ^ 29)%Z) (flat p) = true -> forallb (fun v => (Z.abs v <? 2 ^ 29)%Z) (flat c) = true ->
  near p c.
Proof.
  assert (Hn : forall a b, (Z.abs a < 2 ^ 29)%Z -> (Z.abs b < 2 ^ 29)%Z -> near1 a b).
  { intros a b Ha Hb. unfold near1, small_delta. rewrite i32_small; lia. }
  intros Hp Hc. apply (flat_check (fun v => (Z.abs v < 2 ^ 29)%Z)) in Hp as (P1 & P2 & P3); [|intros; lia].
  apply (flat_check (fun v => (Z.abs v < 2 ^ 29)%Z)) in Hc as (C1 & C2 & C3); [|intros; lia]. split; [|split].
  - intros i Hi. destruct (P1 i Hi) as (?&?&?), (C1 i Hi) as (?&?&?). auto.
  - destruct P2 as (?&?&?&?&?&?), C2 as (?&?&?&?&?&?). split_and!; auto.
  - intros i Hi. auto.
Qed.

Lemma motion_roundtrip_witness :
  let ops := [Latents (face s_zero (s_lit 1 2)); Latents (face (s_lit 1 4) (s_lit 1 3)); EncoderReset;
              Latents (face (s_of_Z 1) s_zero)] in
  decode_all decoder_new (encode_all encoder_new ops) = map (fun l => Ok (dequantise (quantise l))) (latents_of ops).
Proof.
  cbv zeta. apply motion_roundtrip, all_carried. vm_compute. reflexivity.
Defined.

(** A head turned by a hundred radians in the keyframe, and back to zero: the
    receiver sees it turned by -36. *)
Lemma clamped_keyframe_offsets_stream_witness :
  let ops := [Latents (face (s_of_Z 100) s_zero); Latents (face s_zero s_zero)] in
  decode_all decoder_new (encode_all encoder_new ops) = map Ok (arrives None ops) /\
  map (fun l => yaw (pose l)) (arrives None ops) = [s_lit 32767 512; s_lit (-18433) 512].
Proof.
  cbv zeta. split; [|vm_compute; reflexivity]. apply clamped_keyframe_offsets_stream. cbn [in_reach].
  split; [done|]. split; [|done]. apply near_check; vm_compute; reflexivity.
Defined.
