(* ===== verification/Ipc.v ===== *)
(** The socket between the daemon and its user interface shells:
    [core/platform/src/ipc.rs], with the reasons and outcomes of
    [core/platform/src/elevation.rs].

    The FlatBuffers builder is a parameter with the documented layout of its
    tables; the reader is the source's own.  A [usize] has 64 bits; an [f32] is
    only carried, as its bit pattern.  A slice out of range panics: the outer
    [option].  The threads are the steps of a server: accept, broadcast, one
    write, one hang-up. *)
From S2P Require Import Prelude F64 Tier Gears.
#[local] Open Scope N_scope.

Inductive EscalationReason := ScreenCapture | InputInjection | ServiceInstall | ProtectedWrite.
Inductive ElevationOutcome := Granted | Denied | Unavailable.

Definition KIND_TIER : N := 0.
Definition KIND_BUDGET : N := 1.
Definition KIND_GEAR : N := 2.
Definition KIND_ELEV_REQ : N := 3.
Definition KIND_ELEV_RESP : N := 4.
Definition KIND_PANIC : N := 5.

Inductive IpcEvent :=
| TierUpdate (tier : TierState) (cpu_percent : N) (thermal : ThermalPressure)
| StreamBudget (budgets : StreamBudgets) (rtt_ms : N) (loss_pct : N)
| GearUpdate (constraints : GearConstraints)
| ElevationRequested (reason : EscalationReason)
| ElevationResponse (reason : EscalationReason) (outcome : ElevationOutcome)
| PanicFired (seq : N).

(** ** Enumerations as bytes *)
Definition tier_to_u8 (t : TierState) : N :=
  match t with Survival => 0 | Constrained => 1 | Comfortable => 2 | Full => 3 end.

Definition tier_from_u8 (v : N) : TierState :=
  if v =? 1 then Constrained else if v =? 2 then Comfortable else if v =? 3 then Full else Survival.

Definition thermal_to_u8 (t : ThermalPressure) : N :=
  match t with Nominal => 0 | Fair => 1 | Serious => 2 | Critical => 3 end.

Definition thermal_from_u8 (v : N) : ThermalPressure :=
  if v =? 1 then Fair else if v =? 2 then Serious else if v =? 3 then Critical else Nominal.

Definition camera_gear_to_pair (g : CameraGear) : N * N :=
  match g with GearA => (0, 0) | GearB svt_preset => (1, svt_preset) | Off => (2, 0) | GearC => (3, 0) end.

Definition camera_gear_from_pair (kind preset : N) : CameraGear :=
  if kind =? 0 then GearA else if kind =? 1 then GearB preset else if kind =? 3 then GearC else Off.

Definition av1_cap_to_u8 (cap : Av1EncodeCapability) : N := match cap with Capable => 0 | Legacy => 1 end.
Definition av1_cap_from_u8 (v : N) : Av1EncodeCapability := if v =? 1 then Legacy else Capable.

Definition reason_to_u8 (r : EscalationReason) : N :=
  match r with ScreenCapture => 0 | InputInjection => 1 | ServiceInstall => 2 | ProtectedWrite => 3 end.

Definition reason_from_u8 (v : N) : EscalationReason :=
  if v =? 1 then InputInjection else if v =? 2 then ServiceInstall else if v =? 3 then ProtectedWrite
  else ScreenCapture.

Definition outcome_to_u8 (o : ElevationOutcome) : N := match o with Granted => 0 | Denied => 1 | Unavailable => 2 end.

Definition outcome_from_u8 (v : N) : ElevationOutcome :=
  if v =? 0 then Granted else if v =? 1 then Denied else Unavailable.

(** ** The builder *)

(** A value pushed into a slot of a table; its default is zero, [false] or 0.0. *)
Inductive Scalar := U8 (v : N) | U32 (v : N) | F32 (bits : N) | Bool (b : bool).

Definition scalar_bytes (x : Scalar) : list byte :=
  match x with U8 v => [byte_of v] | U32 v | F32 v => le_bytes 4 v | Bool b => [byte_of (N.b2n b)] end.

Definition scalar_ok (x : Scalar) : Prop :=
  match x with U8 v => v < 2 ^ 8 | U32 v | F32 v => v < 2 ^ 32 | Bool _ => True end.

(** [x == default]: 0.0 and -0.0 are equal. *)
Definition is_default (x : Scalar) : bool :=
  match x with U8 v | U32 v => v =? 0 | F32 v => (v =? 0) || (v =? 2 ^ 31) | Bool b => negb b end.

(** [VOffsetT] of the [n]-th slot. *)
Definition voff (n : N) : N := 4 + 2 * n.

(** [buf[a..b]]. *)
Definition slice (buf : list byte) (a b : N) : option (list byte) :=
  if (a <=? b) && (b <=? lenN buf) then Some (take (N.to_nat (b - a)) (drop (N.to_nat a) buf)) else None.

(** [finish] writes the table of the fields pushed between [start_table] and
    [end_table]. *)
Class FlatBuffers := finished : list (N * Scalar) -> list byte.

(** The layout of a finished buffer: the offset of the root table, at the table
    the distance to its vtable, in the vtable its size and the offset of each
    field, 0 or out of the vtable for a field left out because it is the default. *)
Definition holds (buf : list byte) (fields : list (N * Scalar)) : Prop :=
  exists obj vtab vt_size root soffset size,
    slice buf 0 4 = Some root /\ le_value root = obj /\
    slice buf obj (obj + 4) = Some soffset /\ as_signed 32 (le_value soffset) = (Z.of_N obj - Z.of_N vtab)%Z /\
    slice buf vtab (vtab + 2) = Some size /\ le_value size = vt_size /\ 4 <= vt_size /\
    vtab + vt_size <= lenN buf /\ lenN buf < 2 ^ 31 /\ 8 <= lenN buf /\
    forall n x, (n, x) ∈ fields ->
      if is_default x then
        vt_size < voff n + 2 \/ exists e, slice buf (vtab + voff n) (vtab + voff n + 2) = Some e /\ le_value e = 0
      else exists e, voff n + 2 <= vt_size /\
        slice buf (vtab + voff n) (vtab + voff n + 2) = Some e /\ le_value e <> 0 /\
        slice buf (obj + le_value e) (obj + le_value e + lenN (scalar_bytes x)) = Some (scalar_bytes x).

Definition fields_ok (fields : list (N * Scalar)) : Prop :=
  NoDup (map fst fields) /\ Forall (fun f => fst f < 8 /\ scalar_ok (snd f)) fields.

(** Tables of up to eight fields, as many as the schema has. *)
Class FlatBufferLaws `{FlatBuffers} : Prop :=
  finished_holds fields : fields_ok fields -> holds (finished fields) fields.

Section builder.
Context `{FlatBuffers}.

Definition encode_tier (tier : TierState) (cpu_percent : N) (thermal : ThermalPressure) : list byte :=
  finished [(0, U8 (tier_to_u8 tier)); (1, F32 cpu_percent); (2, U8 (thermal_to_u8 thermal))].

Definition encode_budget (budgets : StreamBudgets) (rtt_ms loss_pct : N) : list byte :=
  finished [(0, U32 (audio_bps budgets)); (1, U32 (input_bps budgets)); (2, U32 (screen_coarse_bps budgets));
            (3, U32 (camera_bps budgets)); (4, U32 (screen_refinement_bps budgets)); (5, U32 (xfer_bps budgets));
            (6, U32 rtt_ms); (7, F32 loss_pct)].

Definition encode_gear (constraints : GearConstraints) : list byte :=
  let '(cam_kind, svt_preset) := camera_gear_to_pair (max_camera_gear constraints) in
  finished [(0, U8 cam_kind); (1, U8 svt_preset); (2, Bool (screen_refinement_allowed constraints));
            (3, U8 (thermal_to_u8 (thermal_level constraints))); (4, U8 (av1_cap_to_u8 (av1_encode constraints)))].

Definition encode_panic (seq : N) : list byte := finished [(0, U32 seq)].

Definition encode_elev_req (reason : EscalationReason) : list byte := finished [(0, U8 (reason_to_u8 reason))].

Definition encode_elev_resp (reason : EscalationReason) (outcome : ElevationOutcome) : list byte :=
  finished [(0, U8 (reason_to_u8 reason)); (1, U8 (outcome_to_u8 outcome))].

Definition encode_event (event : IpcEvent) : list byte :=
  let '(kind, fb) :=
    match event with
    | TierUpdate tier cpu_percent thermal => (KIND_TIER, encode_tier tier cpu_percent thermal)
    | StreamBudget budgets rtt_ms loss_pct => (KIND_BUDGET, encode_budget budgets rtt_ms loss_pct)
    | GearUpdate constraints => (KIND_GEAR, encode_gear constraints)
    | ElevationRequested reason => (KIND_ELEV_REQ, encode_elev_req reason)
    | ElevationResponse reason outcome => (KIND_ELEV_RESP, encode_elev_resp reason outcome)
    | PanicFired seq => (KIND_PANIC, encode_panic seq)
    end in
  le_bytes 4 (wrap 32 (1 + lenN fb)) ++ byte_of kind :: fb.
End builder.

(** ** The reader *)
Record FbTable := mkTable { buf : list byte; obj : N; vtab : N }.

Definition from_bytes (buf : list byte) : option (option FbTable) :=
  if lenN buf <? 8 then Some None
  else
    root ← slice buf 0 4;
    let obj := le_value root in
    if lenN buf <? obj + 4 then Some None
    else
      soffset ← slice buf obj (obj + 4);
      let vtab := Z.to_N ((Z.of_N obj - as_signed 32 (le_value soffset)) mod 2 ^ 64) in
      if lenN buf <? wrapping_add 64 vtab 4 then Some None else Some (Some (mkTable buf obj vtab)).

Definition field_pos (t : FbTable) (idx : N) : option (option N) :=
  size ← slice (buf t) (vtab t) (wrapping_add 64 (vtab t) 2);
  let slot := 4 + idx * 2 in
  if le_value size <? slot + 2 then Some None
  else
    entry ← slice (buf t) (wrapping_add 64 (vtab t) slot) (wrapping_add 64 (vtab t) (slot + 2));
    let off := le_value entry in
    Some (if off =? 0 then None else Some (obj t + off)).

Definition u8_at (t : FbTable) (idx : N) : option N :=
  pos ← field_pos t idx;
  match pos with
  | Some p => if p <? lenN (buf t) then le_value <$> slice (buf t) p (p + 1) else Some 0
  | None => Some 0
  end.

Definition u32_at (t : FbTable) (idx : N) : option N :=
  pos ← field_pos t idx;
  match pos with
  | Some p => if p + 4 <=? lenN (buf t) then le_value <$> slice (buf t) p (p + 4) else Some 0
  | None => Some 0
  end.

Definition f32_at (t : FbTable) (idx : N) : option N := u32_at t idx.

Definition bool_at (t : FbTable) (idx : N) : option bool := v ← u8_at t idx; Some (negb (v =? 0)).

Definition decode_fields (kind : N) (t : FbTable) : option (option IpcEvent) :=
  if kind =? KIND_TIER then
    tier ← u8_at t 0; cpu ← f32_at t 1; thermal ← u8_at t 2;
    Some (Some (TierUpdate (tier_from_u8 tier) cpu (thermal_from_u8 thermal)))
  else if kind =? KIND_BUDGET then
    coarse ← u32_at t 2; audio ← u32_at t 0; input ← u32_at t 1; camera ← u32_at t 3;
    refinement ← u32_at t 4; xfer ← u32_at t 5; rtt ← u32_at t 6; loss ← f32_at t 7;
    Some (Some (StreamBudget
      {| audio_bps := audio; input_bps := input; screen_coarse_bps := coarse; camera_bps := camera;
         screen_refinement_bps := refinement; xfer_bps := xfer; display_resolution := select_resolution coarse;
         per_frame_byte_cap := 0; roi_delta_qp := 0 |} rtt loss))
  else if kind =? KIND_GEAR then
    cam_kind ← u8_at t 0; preset ← u8_at t 1; allowed ← bool_at t 2; thermal ← u8_at t 3; av1 ← u8_at t 4;
    Some (Some (GearUpdate
      {| max_camera_gear := camera_gear_from_pair cam_kind preset; screen_refinement_allowed := allowed;
         audio_floor_bps := AUDIO_FLOOR_BPS; thermal_level := thermal_from_u8 thermal;
         av1_encode := av1_cap_from_u8 av1 |}))
  else if kind =? KIND_ELEV_REQ then
    reason ← u8_at t 0; Some (Some (ElevationRequested (reason_from_u8 reason)))
  else if kind =? KIND_ELEV_RESP then
    reason ← u8_at t 0; outcome ← u8_at t 1;
    Some (Some (ElevationResponse (reason_from_u8 reason) (outcome_from_u8 outcome)))
  else if kind =? KIND_PANIC then
    seq ← u32_at t 0; Some (Some (PanicFired seq))
  else Some None.

Definition decode_fb (kind : N) (fb : list byte) : option (option IpcEvent) :=
  t ← from_bytes fb;
  match t with Some t => decode_fields kind t | None => Some None end.

Definition decode_frame (frame_body : list byte) : option (option IpcEvent) :=
  match frame_body with
  | [] => Some None
  | kind :: fb => decode_fb (Byte.to_N kind) fb
  end.

(** ** The streams *)

(** [Read::read_exact] on what the peer will have written: [None] at its end. *)
Definition read_exact (s : list byte) (n : N) : option (list byte * list byte) := split_at_checked n s.

(** [None]: an error, the end of the stream or a frame of length zero. *)
Definition read_frame (s : list byte) : option (list byte * list byte) :=
  '(len_buf, s) ← read_exact s 4;
  let body_len := le_value len_buf in
  if body_len =? 0 then None else read_exact s body_len.

(** The events handed on, and whether the thread ended by a panic.  A frame takes
    five bytes of the stream, so as many rounds as it has bytes suffice. *)
Fixpoint read_loop (rounds : nat) (s : list byte) : list IpcEvent * bool :=
  match rounds with
  | O => ([], false)
  | S rounds =>
      match read_frame s with
      | None => ([], false)
      | Some (body, s) =>
          match decode_frame body with
          | None => ([], true)
          | Some None => read_loop rounds s
          | Some (Some event) => let '(events, panicked) := read_loop rounds s in (event :: events, panicked)
          end
      end
  end.

Definition received (s : list byte) : list IpcEvent * bool := read_loop (length s) s.

(** ** The server *)

(** A connected shell: whether the server's list still holds its sender, whether
    its write thread runs, the frames in its channel of 32, the frames written to
    its socket. *)
Record Client := mkClient { listed : bool; running : bool; pending : list (list byte); sent : list (list byte) }.

Definition CHANNEL_CAPACITY : N := 32.

Definition client_new : Client := mkClient true true [] [].

Section server.
Context `{FlatBuffers}.

(** [try_send] to one client, and [retain]. *)
Definition offer (frame : list byte) (c : Client) : Client :=
  if negb (listed c) then c
  else if negb (running c) then mkClient false false (pending c) (sent c)
  else if lenN (pending c) <? CHANNEL_CAPACITY
    then mkClient true true (pending c ++ [frame]) (sent c)
    else c.

Definition broadcast (s : list Client) (event : IpcEvent) : list Client := map (offer (encode_event event)) s.

Definition client_count (s : list Client) : N := lenN (filter (fun c => listed c = true) s).

(** One turn of the write loop; when the write fails the thread ends and its
    channel is gone. *)
Definition write_one (ok : bool) (c : Client) : Client :=
  match running c, pending c with
  | true, frame :: rest =>
      if ok then mkClient (listed c) true rest (sent c ++ [frame]) else mkClient (listed c) false [] (sent c)
  | _, _ => c
  end.

Inductive Step := Accepted | Broadcast (event : IpcEvent) | Wrote (i : nat) | WriteFailed (i : nat).

Definition step (s : list Client) (o : Step) : list Client :=
  match o with
  | Accepted => s ++ [client_new]
  | Broadcast event => broadcast s event
  | Wrote i => alter (write_one true) i s
  | WriteFailed i => alter (write_one false) i s
  end.

Definition run (steps : list Step) : list Client := foldl step [] steps.
End server.

Definition accepted (steps : list Step) : nat :=
  length (omap (fun o => match o with Accepted => Some tt | _ => None end) steps).

Definition broadcasts (steps : list Step) : list IpcEvent :=
  omap (fun o => match o with Broadcast e => Some e | _ => None end) steps.

(** What the wire keeps of an event: the derived fields of a budget are computed
    again or left at zero, the audio floor is the constant, -0.0 is 0.0. *)
Definition plain_f32 (v : N) : N := if v =? 2 ^ 31 then 0 else v.

Definition wire_view (e : IpcEvent) : IpcEvent :=
  match e with
  | TierUpdate tier cpu thermal => TierUpdate tier (plain_f32 cpu) thermal
  | StreamBudget b rtt loss =>
      StreamBudget
        {| audio_bps := audio_bps b; input_bps := input_bps b; screen_coarse_bps := screen_coarse_bps b;
           camera_bps := camera_bps b; screen_refinement_bps := screen_refinement_bps b; xfer_bps := xfer_bps b;
           display_resolution := select_resolution (screen_coarse_bps b);
           per_frame_byte_cap := 0; roi_delta_qp := 0 |} rtt (plain_f32 loss)
  | GearUpdate c =>
      GearUpdate
        {| max_camera_gear := max_camera_gear c; screen_refinement_allowed := screen_refinement_allowed c;
           audio_floor_bps := AUDIO_FLOOR_BPS; thermal_level := thermal_level c; av1_encode := av1_encode c |}
  | e => e
  end.

(** The fields have their widths. *)
Definition event_ok (e : IpcEvent) : Prop :=
  match e with
  | TierUpdate _ cpu _ => cpu < 2 ^ 32
  | StreamBudget b rtt loss =>
      (audio_bps b < 2 ^ 32 /\ input_bps b < 2 ^ 32 /\ screen_coarse_bps b < 2 ^ 32 /\ camera_bps b < 2 ^ 32 /\
       screen_refinement_bps b < 2 ^ 32 /\ xfer_bps b < 2 ^ 32) /\ rtt < 2 ^ 32 /\ loss < 2 ^ 32
  | GearUpdate c => match max_camera_gear c with GearB preset => preset < 2 ^ 8 | _ => True end
  | PanicFired seq => seq < 2 ^ 32
  | _ => True
  end.

(** ** Lemmas: tables *)
Lemma slice_length b i j l : slice b i j = Some l -> lenN l = j - i.
Proof.
  unfold slice. destruct (N.leb_spec i j), (N.leb_spec j (lenN b)); cbn [andb]; intros [= <-].
  unfold lenN in *. rewrite length_take, length_drop. lia.
Qed.

Lemma slice_within b i j l : slice b i j = Some l -> i <= j <= lenN b.
Proof. unfold slice. destruct (N.leb_spec i j), (N.leb_spec j (lenN b)); cbn [andb]; intros [= <-]. lia. Qed.

Lemma two_bytes_lt l : lenN l = 2 -> le_value l < 2 ^ 16.
Proof. unfold lenN. intros Hl. pose proof (le_value_lt l) as H. replace (length l) with 2%nat in H by lia. exact H. Qed.

Lemma table_of fb fields :
  holds fb fields ->
  exists t, from_bytes fb = Some (Some t) /\ buf t = fb /\
    forall n x, (n, x) ∈ fields -> n < 8 ->
      if is_default x then field_pos t n = Some None
      else exists p, field_pos t n = Some (Some p) /\
        slice fb p (p + lenN (scalar_bytes x)) = Some (scalar_bytes x).
Proof.
  intros (ob & vt & vt_size & root & soffset & size & Hroot & Hobj & Hsoff & Hv & Hsize & Hvt & H4 & Hin & Hlen & H8 & Hf).
  exists (mkTable fb ob vt). unfold from_bytes. rewrite (proj2 (N.ltb_ge _ _)) by lia. rewrite Hroot.
  cbn [mbind option_bind]. rewrite Hobj. pose proof (slice_within _ _ _ _ Hsoff).
  rewrite (proj2 (N.ltb_ge _ _)) by lia. rewrite Hsoff. cbn [mbind option_bind]. rewrite Hv.
  replace (Z.of_N ob - (Z.of_N ob - Z.of_N vt))%Z with (Z.of_N vt) by lia. rewrite Z.mod_small, N2Z.id by lia.
  assert (Hw : forall k, k < 2 ^ 32 -> wrapping_add 64 vt k = vt + k).
  { intros k Hk. unfold wrapping_add. apply wrap_small. lia. }
  rewrite Hw by lia. rewrite (proj2 (N.ltb_ge _ _)) by lia. split; [done|]. split; [done|]. intros n x Hx Hn.
  specialize (Hf n x Hx). unfold field_pos. cbn [buf vtab obj].
  rewrite (Hw 2) by lia. rewrite Hsize. cbn [mbind option_bind]. rewrite Hvt.
  replace (4 + n * 2) with (voff n) by (unfold voff; lia). assert (Hvo : voff n < 24) by (unfold voff; lia).
  rewrite !Hw by lia. rewrite N.add_assoc. destruct (is_default x).
  - destruct Hf as [Hs|(e & He & He0)].
    + by rewrite (proj2 (N.ltb_lt _ _)).
    + destruct (vt_size <? voff n + 2); [done|]. rewrite He. cbn [mbind option_bind]. by rewrite He0.
  - destruct Hf as (e & Hs & He & Hnz & Hb). rewrite (proj2 (N.ltb_ge _ _)), He by lia. cbn [mbind option_bind].
    rewrite (proj2 (N.eqb_neq _ _)) by done. eexists. split; [done|]. exact Hb.
Qed.

(** The value a field reads as. *)
Definition scalar_value (x : Scalar) : N :=
  match x with U8 v | U32 v => v | F32 v => plain_f32 v | Bool b => N.b2n b end.

Lemma default_value x : is_default x = true -> scalar_value x = 0.
Proof.
  destruct x as [v|v|v|b]; cbn [is_default scalar_value]; intros Hd.
  - by apply N.eqb_eq.
  - by apply N.eqb_eq.
  - unfold plain_f32. destruct (v =? 2 ^ 31); [done|]. rewrite orb_false_r in Hd. by apply N.eqb_eq.
  - by destruct b.
Qed.

Lemma stored_value x : scalar_ok x -> is_default x = false -> le_value (scalar_bytes x) = scalar_value x.
Proof.
  destruct x as [v|v|v|b]; cbn [scalar_ok is_default scalar_bytes scalar_value]; intros Ho Hd.
  - cbn [le_value]. rewrite to_N_byte_of, N.mod_small by done. lia.
  - by apply le_value_bytes_small.
  - unfold plain_f32. apply orb_false_iff in Hd as [_ ->]. by apply le_value_bytes_small.
  - by destruct b.
Qed.

Section reads.
Variables (fb : list byte) (fields : list (N * Scalar)) (t : FbTable).
Hypothesis Hbuf : buf t = fb.
Hypothesis Hread : forall n x, (n, x) ∈ fields -> n < 8 ->
  if is_default x then field_pos t n = Some None
  else exists p, field_pos t n = Some (Some p) /\ slice fb p (p + lenN (scalar_bytes x)) = Some (scalar_bytes x).

Lemma u8_read n x :
  (n, x) ∈ fields -> n < 8 -> scalar_ok x -> lenN (scalar_bytes x) = 1 -> u8_at t n = Some (scalar_value x).
Proof.
  intros Hin Hn Ho Hl. pose proof (Hread n x Hin Hn) as Hr. unfold u8_at. destruct (is_default x) eqn:Hd.
  - rewrite Hr. cbn [mbind option_bind]. by rewrite default_value.
  - destruct Hr as (p & -> & Hs). cbn [mbind option_bind]. rewrite Hl in Hs. rewrite Hbuf.
    pose proof (slice_within _ _ _ _ Hs). rewrite (proj2 (N.ltb_lt _ _)), Hs by lia. cbn. by rewrite stored_value.
Qed.

Lemma u32_read n x :
  (n, x) ∈ fields -> n < 8 -> scalar_ok x -> lenN (scalar_bytes x) = 4 -> u32_at t n = Some (scalar_value x).
Proof.
  intros Hin Hn Ho Hl. pose proof (Hread n x Hin Hn) as Hr. unfold u32_at. destruct (is_default x) eqn:Hd.
  - rewrite Hr. cbn [mbind option_bind]. by rewrite default_value.
  - destruct Hr as (p & -> & Hs). cbn [mbind option_bind]. rewrite Hl in Hs. rewrite Hbuf.
    pose proof (slice_within _ _ _ _ Hs). rewrite (proj2 (N.leb_le _ _)), Hs by lia. cbn. by rewrite stored_value.
Qed.
End reads.

Definition reads (t : FbTable) (f : N * Scalar) : Prop :=
  match snd f with
  | U8 _ | Bool _ => u8_at t (fst f) = Some (scalar_value (snd f))
  | U32 _ | F32 _ => u32_at t (fst f) = Some (scalar_value (snd f))
  end.

Lemma table_reads fb fields :
  holds fb fields -> Forall (fun f => fst f < 8 /\ scalar_ok (snd f)) fields ->
  exists t, from_bytes fb = Some (Some t) /\ Forall (reads t) fields.
Proof.
  intros Hh Hok. destruct (table_of fb fields Hh) as (t & Ht & Hb & Hr). exists t. split; [done|].
  apply Forall_forall. intros [n x] Hin. destruct (proj1 (Forall_forall _ _) Hok _ Hin) as [Hn Hx]. cbn [fst snd] in *.
  unfold reads. cbn [fst snd]. destruct x as [v|v|v|b].
  - by apply (u8_read fb fields t Hb Hr).
  - apply (u32_read fb fields t Hb Hr); [done..|]. apply lenN_le_bytes.
  - apply (u32_read fb fields t Hb Hr); [done..|]. apply lenN_le_bytes.
  - by apply (u8_read fb fields t Hb Hr).
Qed.

Lemma tier_u8 t : tier_to_u8 t < 256 /\ tier_from_u8 (tier_to_u8 t) = t.
Proof. by destruct t. Qed.
Lemma thermal_u8 t : thermal_to_u8 t < 256 /\ thermal_from_u8 (thermal_to_u8 t) = t.
Proof. by destruct t. Qed.
Lemma reason_u8 r : reason_to_u8 r < 256 /\ reason_from_u8 (reason_to_u8 r) = r.
Proof. by destruct r. Qed.
Lemma outcome_u8 o : outcome_to_u8 o < 256 /\ outcome_from_u8 (outcome_to_u8 o) = o.
Proof. by destruct o. Qed.
Lemma av1_u8 c : av1_cap_to_u8 c < 256 /\ av1_cap_from_u8 (av1_cap_to_u8 c) = c.
Proof. by destruct c. Qed.
Lemma gear_u8 g :
  (match g with GearB preset => preset < 2 ^ 8 | _ => True end) ->
  fst (camera_gear_to_pair g) < 256 /\ snd (camera_gear_to_pair g) < 256 /\
  camera_gear_from_pair (fst (camera_gear_to_pair g)) (snd (camera_gear_to_pair g)) = g.
Proof. by destruct g. Qed.

Section roundtrip.
Context `{FlatBufferLaws}.

Lemma finished_reads fields :
  NoDup (map fst fields) -> Forall (fun f => fst f < 8 /\ scalar_ok (snd f)) fields ->
  lenN (finished fields) < 2 ^ 31 /\
  exists t, from_bytes (finished fields) = Some (Some t) /\ Forall (reads t) fields.
Proof.
  intros Hn Hok. pose proof (finished_holds fields (conj Hn Hok)) as Hh. split; [|by apply table_reads].
  destruct Hh as (?&?&?&?&?&?&?&?&?&?&?&?&?&?&?&?&?). done.
Qed.

(** The frame of an event, and what its body decodes to. *)
Definition framed (frame : list byte) (kind : N) (fb : list byte) : Prop :=
  frame = le_bytes 4 (wrap 32 (1 + lenN fb)) ++ byte_of kind :: fb /\ kind < 256 /\ lenN fb < 2 ^ 31.

Ltac table fields :=
  let Hl := fresh "Hl" in let t := fresh "t" in let Ht := fresh "Ht" in let Hr := fresh "Hr" in
  destruct (finished_reads fields) as (Hl & t & Ht & Hr);
  [refine (bool_decide_unpack _ _); vm_compute; exact I
  |rewrite !Forall_cons; cbn [fst snd scalar_ok]; split_and!;
   solve [done|apply Forall_nil_2|apply tier_u8|apply thermal_u8|apply reason_u8|apply outcome_u8|apply av1_u8
         |naive_solver]
  |eexists _, (finished fields); split; [split; [reflexivity|split; [done|exact Hl]]|];
   unfold decode_fb; rewrite Ht; cbn [mbind option_bind]; unfold reads in Hr; cbn [fst snd scalar_value] in Hr;
   repeat (apply Forall_cons in Hr as [? Hr])].

Lemma event_framed e :
  event_ok e -> exists kind fb, framed (encode_event e) kind fb /\ decode_fb kind fb = Some (Some (wire_view e)).
Proof.
  intros He. destruct e as [tier cpu th|b rtt loss|c|reason|reason outcome|seq]; cbn [event_ok] in He.
  - table [(0, U8 (tier_to_u8 tier)); (1, F32 cpu); (2, U8 (thermal_to_u8 th))].
    change (decode_fields KIND_TIER t) with
      (tier ← u8_at t 0; cpu ← f32_at t 1; thermal ← u8_at t 2;
       Some (Some (TierUpdate (tier_from_u8 tier) cpu (thermal_from_u8 thermal)))).
    unfold f32_at. simplify_option_eq. by rewrite (proj2 (tier_u8 _)), (proj2 (thermal_u8 _)).
  - table [(0, U32 (audio_bps b)); (1, U32 (input_bps b)); (2, U32 (screen_coarse_bps b)); (3, U32 (camera_bps b));
           (4, U32 (screen_refinement_bps b)); (5, U32 (xfer_bps b)); (6, U32 rtt); (7, F32 loss)].
    unfold decode_fields. change (KIND_BUDGET =? KIND_TIER) with false. change (KIND_BUDGET =? KIND_BUDGET) with true.
    cbv iota. unfold f32_at. simplify_option_eq. done.
  - destruct (gear_u8 _ He) as (Hk & Hp & Hg). unfold encode_event, encode_gear.
    destruct (camera_gear_to_pair (max_camera_gear c)) as [k p]. cbn [fst snd] in *.
    table [(0, U8 k); (1, U8 p); (2, Bool (screen_refinement_allowed c)); (3, U8 (thermal_to_u8 (thermal_level c)));
           (4, U8 (av1_cap_to_u8 (av1_encode c)))].
    unfold decode_fields. change (KIND_GEAR =? KIND_TIER) with false. change (KIND_GEAR =? KIND_BUDGET) with false.
    change (KIND_GEAR =? KIND_GEAR) with true. cbv iota. unfold bool_at. simplify_option_eq.
    rewrite Hg, (proj2 (thermal_u8 _)), (proj2 (av1_u8 _)). by destruct (screen_refinement_allowed c).
  - table [(0, U8 (reason_to_u8 reason))]. unfold decode_fields. simplify_option_eq. by rewrite (proj2 (reason_u8 _)).
  - table [(0, U8 (reason_to_u8 reason)); (1, U8 (outcome_to_u8 outcome))]. unfold decode_fields. simplify_option_eq.
    by rewrite (proj2 (reason_u8 _)), (proj2 (outcome_u8 _)).
  - table [(0, U32 seq)]. unfold decode_fields. simplify_option_eq. done.
Qed.

Lemma read_framed frame kind fb rest :
  framed frame kind fb -> read_frame (frame ++ rest) = Some (byte_of kind :: fb, rest).
Proof.
  intros (-> & Hk & Hl). unfold read_frame, read_exact. rewrite wrap_small by lia. rewrite <- app_assoc.
  rewrite split_at_checked_app by (by rewrite lenN_le_bytes). cbn [mbind option_bind].
  rewrite le_value_bytes_small by (change (256 ^ N.of_nat 4) with (2 ^ 32); lia).
  rewrite (proj2 (N.eqb_neq _ _)) by lia. cbn [app]. rewrite app_comm_cons.
  rewrite split_at_checked_app by (rewrite lenN_cons; lia). done.
Qed.

Lemma framed_length frame kind fb : framed frame kind fb -> (5 <= length frame)%nat.
Proof. intros (-> & _). rewrite length_app, le_bytes_length. cbn [length]. lia. Qed.

Lemma read_events es rounds :
  Forall event_ok es -> (length es <= rounds)%nat ->
  read_loop rounds (concat (map encode_event es)) = (map wire_view es, false).
Proof.
  intros Hok. revert rounds. induction Hok as [|e es He Hes IH]; intros [|rounds] Hr; cbn [length] in Hr; try lia; try done.
  cbn [map concat read_loop]. destruct (event_framed e He) as (kind & fb & Hf & Hd).
  rewrite (read_framed _ kind fb) by done. cbn [decode_frame]. destruct Hf as (_ & Hk & _).
  rewrite to_N_byte_of, N.mod_small, Hd by done. rewrite IH by lia. done.
Qed.

Lemma received_events es : Forall event_ok es -> received (concat (map encode_event es)) = (map wire_view es, false).
Proof.
  intros Hok. unfold received. apply read_events; [done|]. induction Hok as [|e es He _ IH]; [done|].
  cbn [map concat length]. destruct (event_framed e He) as (kind & fb & Hf & _). rewrite length_app.
  pose proof (framed_length _ _ _ Hf). lia.
Qed.

(** ** Lemmas: the server *)

(** What the [i]-th client sees of a step. *)
Definition client_step (i : nat) (c : Client) (o : Step) : Client :=
  match o with
  | Accepted => c
  | Broadcast e => offer (encode_event e) c
  | Wrote j => if decide (j = i) then write_one true c else c
  | WriteFailed j => if decide (j = i) then write_one false c else c
  end.

Lemma client_step_lookup s o i c : s !! i = Some c -> step s o !! i = Some (client_step i c o).
Proof.
  intros Hc. destruct o as [|e|j|j]; cbn [step client_step].
  - by apply lookup_app_l_Some.
  - unfold broadcast. by rewrite list_lookup_fmap, Hc.
  - destruct (decide (j = i)) as [->|Hne]; [by rewrite list_lookup_alter_eq, Hc|by rewrite list_lookup_alter_ne].
  - destruct (decide (j = i)) as [->|Hne]; [by rewrite list_lookup_alter_eq, Hc|by rewrite list_lookup_alter_ne].
Qed.

Lemma steps_lookup os s i c : s !! i = Some c -> foldl step s os !! i = Some (foldl (client_step i) c os).
Proof. revert s c. induction os as [|o os IH]; intros s c Hc; [done|]. cbn [foldl]. by apply IH, client_step_lookup. Qed.

Lemma run_length os : length (run os) = accepted os.
Proof.
  unfold run, accepted. assert (Hg : forall s, length (foldl step s os) =
      (length s + length (omap (fun o => match o with Accepted => Some tt | _ => None end) os))%nat).
  { induction os as [|o os IH]; intros s; cbn [foldl omap list_omap length]; [lia|]. rewrite IH.
    destruct o as [|e|j|j]; cbn [step length].
    - rewrite length_app. cbn [length]. lia.
    - unfold broadcast. by rewrite length_map.
    - by rewrite length_alter.
    - by rewrite length_alter. }
  apply Hg.
Qed.

(** The frames of a client against the events broadcast since its accept. *)
Definition follows (c : Client) (bs : list IpcEvent) : Prop :=
  (exists es, sent c ++ pending c = map encode_event es /\ sublist es bs /\
     (running c = true -> (length bs <= 32)%nat -> es = bs)) /\
  (running c = true -> listed c = true).

Lemma follows_new : follows client_new [].
Proof. split; [|done]. exists []. split_and!; [done|constructor|done]. Qed.

Lemma sublist_snoc_r {A} (l k : list A) x : sublist l k -> sublist l (k ++ [x]).
Proof. intros Hs. apply sublist_inserts_r. exact Hs. Qed.

Lemma follows_offer c bs e : follows c bs -> follows (offer (encode_event e) c) (bs ++ [e]).
Proof.
  intros [(es & He & Hs & Hall) Hl]. unfold offer. destruct (listed c) eqn:El; cbn [negb].
  - destruct (running c) eqn:Er; cbn [negb].
    + destruct (N.ltb_spec (lenN (pending c)) CHANNEL_CAPACITY) as [Hroom|Hfull].
      * split; [|done]. exists (es ++ [e]). cbn [sent pending running].
        rewrite app_assoc, He, map_app. split_and!; [done|apply sublist_app; [done|reflexivity]|].
        intros _ Hb. rewrite length_app in Hb. cbn in Hb. rewrite Hall by (done || lia). done.
      * split; [|done]. exists es. split_and!; [done|by apply sublist_snoc_r|]. intros _ Hb.
        rewrite length_app in Hb. cbn in Hb. unfold CHANNEL_CAPACITY, lenN in Hfull.
        assert (Hlen : length (sent c ++ pending c) = length es) by (rewrite He; apply length_map).
        rewrite length_app in Hlen. apply sublist_length in Hs. lia.
    + split; [|done]. exists es. cbn [sent pending running]. split_and!; [done|by apply sublist_snoc_r|done].
  - destruct (running c) eqn:Er; [specialize (Hl eq_refl); congruence|]. split; [|by rewrite Er].
    exists es. split_and!; [done|by apply sublist_snoc_r|by rewrite Er].
Qed.

Lemma first_frames fs rest es :
  fs ++ rest = map encode_event es -> fs = map encode_event (take (length fs) es).
Proof.
  intros He. change (map encode_event (take (length fs) es)) with (encode_event <$> take (length fs) es).
  rewrite fmap_take. change (encode_event <$> es) with (map encode_event es). rewrite <- He. by rewrite take_app_length.
Qed.

Lemma follows_write ok c bs : follows c bs -> follows (write_one ok c) bs.
Proof.
  intros Hf. pose proof Hf as [(es & He & Hs & Hall) Hl]. unfold write_one.
  destruct (running c) eqn:Er; [|done]. destruct (pending c) as [|frame rest] eqn:Ep; [done|].
  destruct ok.
  - split; [|done]. exists es. cbn [sent pending running]. rewrite <- app_assoc. done.
  - split; [|done]. cbn [sent pending running]. exists (take (length (sent c)) es). split_and!.
    + rewrite app_nil_r. by apply first_frames in He.
    + etrans; [apply sublist_take|done].
    + done.
Qed.

Lemma follows_step i c bs o :
  follows c bs ->
  follows (client_step i c o) (bs ++ match o with Broadcast e => [e] | _ => [] end).
Proof.
  intros Hf. destruct o as [|e|j|j]; cbn [client_step].
  - by rewrite app_nil_r.
  - by apply follows_offer.
  - rewrite app_nil_r. destruct (decide (j = i)); [by apply follows_write|done].
  - rewrite app_nil_r. destruct (decide (j = i)); [by apply follows_write|done].
Qed.

Lemma follows_steps i c bs os : follows c bs -> follows (foldl (client_step i) c os) (bs ++ broadcasts os).
Proof.
  revert c bs. induction os as [|o os IH]; intros c bs Hf; [by rewrite app_nil_r|]. cbn [foldl].
  pose proof (IH _ _ (follows_step i c bs o Hf)) as H1. rewrite <- app_assoc in H1.
  destruct o; exact H1.
Qed.

Lemma Forall_sublist {A} (P : A -> Prop) l k : sublist l k -> Forall P k -> Forall P l.
Proof.
  induction 1 as [|x l k _ IH|x l k _ IH]; [done| |]; intros Hk; apply Forall_cons in Hk as [Hx Hk]; [|by apply IH].
  constructor; [done|by apply IH].
Qed.

(** ** Properties *)

(** C25: What a shell sees: whatever the accepts, broadcasts, writes and broken
    connections, the bytes written to a client decode, without a panic, to events
    broadcast after its accept, in their order and none twice (up to what the
    wire keeps of an event); and to all of them if its connection holds, its
    channel is drained and at most 32 were broadcast. *)
Theorem shells_follow_the_daemon (before after : list Step) (c : Client) :
  Forall event_ok (broadcasts after) ->
  run (before ++ Accepted :: after) !! accepted before = Some c ->
  exists es, received (concat (sent c)) = (map wire_view es, false) /\ sublist es (broadcasts after) /\
    (running c = true -> pending c = [] -> (length (broadcasts after) <= 32)%nat -> es = broadcasts after).
Proof.
  intros Hok Hc. unfold run in Hc. rewrite foldl_app in Hc. cbn [foldl] in Hc.
  assert (Hnew : step (foldl step [] before) Accepted !! accepted before = Some client_new).
  { cbn [step]. rewrite <- run_length. unfold run. rewrite lookup_app_r, Nat.sub_diag by done. done. }
  rewrite (steps_lookup _ _ _ _ Hnew) in Hc. injection Hc as Hc.
  pose proof (follows_steps (accepted before) _ [] after follows_new) as Hf. rewrite Hc in Hf. cbn [app] in Hf.
  destruct Hf as [(es & He & Hs & Hall) _]. exists (take (length (sent c)) es).
  pose proof (first_frames _ _ _ He) as Hsent.
  assert (Hsub : sublist (take (length (sent c)) es) (broadcasts after)) by (etrans; [apply sublist_take|done]).
  split; [|split; [done|]].
  - rewrite Hsent at 1. apply received_events. by eapply Forall_sublist.
  - intros Hr Hp Hb. rewrite Hall by done. rewrite Hp, app_nil_r in He. apply take_ge.
    rewrite He, length_map, Hall by done. done.
Qed.
End roundtrip.

(** ** An instance of the builder *)

(** Every table with a vtable of eight entries and eight cells of four bytes. *)
Definition SLOTS : list N := [0; 1; 2; 3; 4; 5; 6; 7].

Definition field_of (fields : list (N * Scalar)) (n : N) : option Scalar :=
  snd <$> List.find (fun f => fst f =? n) fields.

Definition entry_bytes (fields : list (N * Scalar)) (n : N) : list byte :=
  le_bytes 2 (match field_of fields n with
              | Some x => if is_default x then 0 else 4 + 4 * n
              | None => 0
              end).

Definition cell_bytes (fields : list (N * Scalar)) (n : N) : list byte :=
  match field_of fields n with
  | Some x => scalar_bytes x ++ repeat Byte.x00 (4 - length (scalar_bytes x))
  | None => repeat Byte.x00 4
  end.

Definition eight_slots : FlatBuffers := fun fields =>
  le_bytes 4 24 ++ (le_bytes 2 20 ++ le_bytes 2 36 ++ concat (map (entry_bytes fields) SLOTS)) ++
  le_bytes 4 20 ++ concat (map (cell_bytes fields) SLOTS).

Lemma slice_mid p l q a b : lenN p = a -> lenN p + lenN l = b -> slice (p ++ l ++ q) a b = Some l.
Proof.
  intros <- <-. unfold slice. rewrite (proj2 (N.leb_le _ _)), (proj2 (N.leb_le _ _)) by (rewrite ?lenN_app; lia).
  cbn [andb]. replace (lenN p + lenN l - lenN p) with (lenN l) by lia.
  rewrite !to_nat_lenN, drop_app_length, take_app_length. done.
Qed.

Lemma uniform_length {A} (f : A -> list byte) k l :
  (forall x, lenN (f x) = k) -> lenN (concat (map f l)) = k * lenN l.
Proof.
  intros Hf. induction l as [|x l IH]; [unfold lenN; cbn [map concat length]; lia|]. cbn [map concat].
  rewrite lenN_app, Hf, IH, lenN_cons. lia.
Qed.

Lemma slots_split (f : N -> list byte) k n :
  (forall x, lenN (f x) = k) -> n < 8 ->
  exists p q, concat (map f SLOTS) = p ++ f n ++ q /\ lenN p = k * n.
Proof.
  intros Hf Hn. exists (concat (map f (take (N.to_nat n) SLOTS))), (concat (map f (drop (S (N.to_nat n)) SLOTS))).
  assert (Hl : SLOTS !! N.to_nat n = Some n).
  { revert n Hn. assert (forall m, (m < 8)%nat -> SLOTS !! m = Some (N.of_nat m)) as Hm.
    { intros m Hm. do 8 (destruct m as [|m]; [done|]). lia. }
    intros n Hn. rewrite Hm by lia. by rewrite N2Nat.id. }
  split.
  - rewrite <- (take_drop_middle _ _ _ Hl) at 1. by rewrite map_app, concat_app.
  - rewrite (uniform_length f k) by done. unfold lenN. rewrite length_take_le by (cbn [length SLOTS]; lia). lia.
Qed.

Lemma entry_length fields n : lenN (entry_bytes fields n) = 2.
Proof. apply lenN_le_bytes. Qed.

Lemma cell_length fields n : lenN (cell_bytes fields n) = 4.
Proof.
  unfold cell_bytes, lenN. destruct (field_of fields n) as [[v|v|v|b]|]; cbn [scalar_bytes]; [done| | |done|done];
    rewrite length_app, repeat_length, le_bytes_length; done.
Qed.

Lemma field_of_elem fields n x : NoDup (map fst fields) -> (n, x) ∈ fields -> field_of fields n = Some x.
Proof.
  unfold field_of. induction fields as [|[m y] fields IH]; intros Hn Hin; [by apply not_elem_of_nil in Hin|].
  cbn [map fst List.find] in *. apply NoDup_cons in Hn as [Hm Hn]. apply elem_of_cons in Hin as [[= <- <-]|Hin].
  - by rewrite N.eqb_refl.
  - destruct (N.eqb_spec m n) as [->|_]; [|by apply IH]. exfalso. apply Hm.
    change (map fst fields) with (fst <$> fields). apply list_elem_of_fmap. by exists (n, x).
Qed.

Lemma eight_slots_laws : @FlatBufferLaws eight_slots.
Proof.
  intros fields [Hnd Hok]. set (es := concat (map (entry_bytes fields) SLOTS)).
  set (cs := concat (map (cell_bytes fields) SLOTS)).
  assert (Hes : lenN es = 16) by (unfold es; by rewrite (uniform_length _ 2) by apply entry_length).
  assert (Hcs : lenN cs = 32) by (unfold cs; by rewrite (uniform_length _ 4) by apply cell_length).
  unfold finished, eight_slots. fold es cs.
  assert (Hlen : lenN (le_bytes 4 24 ++ (le_bytes 2 20 ++ le_bytes 2 36 ++ es) ++ le_bytes 4 20 ++ cs) = 60).
  { by rewrite !lenN_app, !lenN_le_bytes, Hes, Hcs. }
  exists 24, 4, 20, (le_bytes 4 24), (le_bytes 4 20), (le_bytes 2 20). rewrite Hlen. split_and!; try done.
  - by apply (slice_mid []).
  - rewrite app_assoc. apply slice_mid; rewrite !lenN_app, !lenN_le_bytes, Hes; done.
  - rewrite <- !app_assoc. apply slice_mid; rewrite !lenN_le_bytes; done.
  - intros n x Hin. destruct (proj1 (Forall_forall _ _) Hok _ Hin) as [Hn Hx]. cbn [fst snd] in Hn, Hx.
    destruct (slots_split (entry_bytes fields) 2 n (entry_length fields) Hn) as (p & q & Ee & Hp).
    destruct (slots_split (cell_bytes fields) 4 n (cell_length fields) Hn) as (p' & q' & Ec & Hp').
    fold es in Ee. fold cs in Ec.
    assert (Hentry : slice (le_bytes 4 24 ++ (le_bytes 2 20 ++ le_bytes 2 36 ++ es) ++ le_bytes 4 20 ++ cs)
        (4 + voff n) (4 + voff n + 2) = Some (entry_bytes fields n)).
    { rewrite Ee. replace (le_bytes 4 24 ++ (le_bytes 2 20 ++ le_bytes 2 36 ++ p ++ entry_bytes fields n ++ q) ++
        le_bytes 4 20 ++ cs) with ((le_bytes 4 24 ++ le_bytes 2 20 ++ le_bytes 2 36 ++ p) ++ entry_bytes fields n ++
        (q ++ le_bytes 4 20 ++ cs)) by (by rewrite <- !app_assoc).
      unfold voff. apply slice_mid; rewrite !lenN_app, !lenN_le_bytes, Hp, ?entry_length; lia. }
    pose proof (field_of_elem _ _ _ Hnd Hin) as Hfield. destruct (is_default x) eqn:Hd.
    + right. eexists. split; [exact Hentry|]. unfold entry_bytes. by rewrite Hfield, Hd.
    + exists (entry_bytes fields n). split; [unfold voff; lia|]. split; [exact Hentry|].
      assert (Hv : le_value (entry_bytes fields n) = 4 + 4 * n).
      { unfold entry_bytes. rewrite Hfield, Hd. apply le_value_bytes_small. change (256 ^ N.of_nat 2) with 65536. lia. }
      rewrite Hv. split; [lia|]. rewrite Ec. unfold cell_bytes. rewrite Hfield.
      replace (le_bytes 4 24 ++ (le_bytes 2 20 ++ le_bytes 2 36 ++ es) ++ le_bytes 4 20 ++ p' ++
          (scalar_bytes x ++ repeat Byte.x00 (4 - length (scalar_bytes x))) ++ q')
        with ((le_bytes 4 24 ++ (le_bytes 2 20 ++ le_bytes 2 36 ++ es) ++ le_bytes 4 20 ++ p') ++ scalar_bytes x ++
          (repeat Byte.x00 (4 - length (scalar_bytes x)) ++ q')) by (by rewrite <- !app_assoc).
      apply slice_mid; rewrite !lenN_app, !lenN_le_bytes, Hes, Hp'; lia.
Qed.

Lemma shells_follow_the_daemon_witness :
  let es := [TierUpdate Comfortable 1102053376 Fair;
             StreamBudget (allocate 100000 (from_thermal Nominal)) 42 (2 ^ 31);
             GearUpdate (from_thermal Serious); ElevationRequested InputInjection; PanicFired 7] in
  let steps := [Wrote 1; Wrote 1; Broadcast (PanicFired 8); WriteFailed 0; Wrote 1; Wrote 1; Wrote 1; Wrote 1] in
  exists c, @run eight_slots ([Accepted; Broadcast (PanicFired 6)] ++ Accepted :: map Broadcast es ++ steps) !! 1%nat = Some c /\
    exists seen, received (concat (sent c)) = (map wire_view seen, false) /\ seen = es ++ [PanicFired 8].
Proof.
  cbv zeta. eexists. split; [vm_compute; reflexivity|].
  match goal with |- context [received (concat (sent ?c))] => set (cl := c) end.
  destruct (@shells_follow_the_daemon eight_slots eight_slots_laws [Accepted; Broadcast (PanicFired 6)]
    (map Broadcast [TierUpdate Comfortable 1102053376 Fair;
             StreamBudget (allocate 100000 (from_thermal Nominal)) 42 (2 ^ 31);
             GearUpdate (from_thermal Serious); ElevationRequested InputInjection; PanicFired 7] ++
     [Wrote 1; Wrote 1; Broadcast (PanicFired 8); WriteFailed 0; Wrote 1; Wrote 1; Wrote 1; Wrote 1]) cl)
    as (seen & Hr & _ & Hall).
  - repeat (apply Forall_cons; split; [vm_compute; repeat split; reflexivity|]). apply Forall_nil. exact I.
  - vm_compute. reflexivity.
  - exists seen. split; [exact Hr|]. rewrite Hall; [reflexivity|reflexivity|reflexivity|]. vm_compute. lia.
Defined.

(** ** Malformed frames *)

(** Reading a field panics only if the vtable is cut off by the end of the buffer:
    its size field, or the entry that its size announces. *)
Lemma panic_past_the_vtable t idx :
  vtab t < 2 ^ 63 -> idx < 8 -> field_pos t idx = None ->
  lenN (buf t) < vtab t + 2 \/
  exists size, slice (buf t) (vtab t) (vtab t + 2) = Some size /\ voff idx + 2 <= le_value size /\
    lenN (buf t) < vtab t + voff idx + 2.
Proof.
  intros Hv Hi. unfold field_pos.
  assert (Hw : forall k, k < 2 ^ 32 -> wrapping_add 64 (vtab t) k = vtab t + k) by (intros; apply wrap_small; lia).
  rewrite (Hw 2) by lia. destruct (slice (buf t) (vtab t) (vtab t + 2)) as [size|] eqn:Hs; cbn [mbind option_bind].
  - replace (4 + idx * 2) with (voff idx) by (unfold voff; lia). assert (voff idx < 24) by (unfold voff; lia).
    destruct (N.ltb_spec (le_value size) (voff idx + 2)) as [|Hsz]; [done|]. rewrite !Hw by lia.
    destruct (slice (buf t) (vtab t + voff idx) (vtab t + (voff idx + 2))) as [e|] eqn:He; [done|].
    intros _. right. exists size. split_and!; [done|done|]. revert He. unfold slice.
    rewrite (proj2 (N.leb_le _ _)) by lia. destruct (N.leb_spec (vtab t + (voff idx + 2)) (lenN (buf t))); [done|lia].
  - intros _. left. revert Hs. unfold slice. rewrite (proj2 (N.leb_le _ _)) by lia.
    destruct (N.leb_spec (vtab t + 2) (lenN (buf t))); [done|lia].
Qed.

(** A tier update whose vtable claims 65535 bytes of the four the buffer has. *)
Definition hostile_frame : list byte :=
  le_bytes 4 13 ++ byte_of KIND_TIER :: le_bytes 4 8 ++ le_bytes 2 65535 ++ le_bytes 2 8 ++ le_bytes 4 4.

Lemma read_panics rounds s body rest :
  read_frame s = Some (body, rest) -> decode_frame body = None -> read_loop (S rounds) s = ([], true).
Proof. intros Hf Hd. cbn [read_loop]. by rewrite Hf, Hd. Qed.

Lemma hostile_body : hostile_frame = le_bytes 4 13 ++ drop 4 hostile_frame /\ lenN (drop 4 hostile_frame) = 13 /\
  decode_frame (drop 4 hostile_frame) = None.
Proof. split_and!; vm_compute; reflexivity. Qed.

(** One such frame ends the thread that reads it by a panic: what the shell sends
    after it is never handed on. *)
Lemma hostile_frame_panics (s : list byte) : received (hostile_frame ++ s) = ([], true).
Proof.
  destruct hostile_body as (Hb & Hl & Hd). unfold received. rewrite length_app.
  change (length hostile_frame) with 17%nat. cbn [plus].
  apply (read_panics _ _ (drop 4 hostile_frame) s); [|exact Hd]. rewrite Hb. generalize dependent (drop 4 hostile_frame).
  intros body _ Hl _. unfold read_frame, read_exact. rewrite <- app_assoc, split_at_checked_app by reflexivity.
  cbn [mbind option_bind]. change (le_value (le_bytes 4 13)) with 13. change (13 =? 0) with false. cbv iota.
  by apply split_at_checked_app.
Qed.

(** A full channel loses: of 33 events broadcast before the first write, the last
    is never sent, and nothing tells the shell. *)
Lemma full_channel_loses :
  exists c, @run eight_slots (Accepted :: repeat (Broadcast (PanicFired 1)) 32 ++
      Broadcast (PanicFired 2) :: repeat (Wrote 0) 33) = [c] /\
    running c = true /\ pending c = [] /\
    received (concat (sent c)) = (repeat (PanicFired 1) 32, false).
Proof. eexists. split; [vm_compute; reflexivity|]. split_and!; vm_compute; reflexivity. Qed.
