(* ===== verification/Scroll.v ===== *)
(** Scroll detection and the blit command of
    [core/platform/src/screen_encoder.rs].

    The phase correlation is modelled down to the FFT, in [f32]; the cosine and
    the sine of the platform's mathematical library are parameters.  The sides of
    a frame are assumed below [2^16] where a product of two [u32] counts blocks;
    byte offsets keep their wrap-around.  An index or a slice out of range
    panics: the outer [option]. *)
From S2P Require Import Prelude F64 Palette Tiles Damage.
#[local] Open Scope N_scope.

Fixpoint foldM {A S} (f : S -> A -> option S) (s : S) (l : list A) : option S :=
  match l with [] => Some s | a :: l => s ← f s a; foldM f s l end.

(** ** The blit command *)
Record BlitCommand := mkBlit {
  region_x : Z; region_y : Z; region_w : N; region_h : N; dx : Z; dy : Z; strip_w : N; strip_h : N }.

Definition to_bytes (c : BlitCommand) : list byte :=
  i16_bytes (region_x c) ++ i16_bytes (region_y c) ++ le_bytes 2 (region_w c) ++ le_bytes 2 (region_h c) ++
  i16_bytes (dx c) ++ i16_bytes (dy c) ++ le_bytes 2 (strip_w c) ++ le_bytes 2 (strip_h c).

(** The argument has 16 bytes. *)
Definition from_bytes (b : list byte) : BlitCommand :=
  let two i := take 2 (drop i b) in
  mkBlit (i16_value (two 0%nat)) (i16_value (two 2%nat)) (le_value (two 4%nat)) (le_value (two 6%nat))
    (i16_value (two 8%nat)) (i16_value (two 10%nat)) (le_value (two 12%nat)) (le_value (two 14%nat)).

Definition strip_origin (c : BlitCommand) : Z * Z :=
  if (dy c <? 0)%Z then (region_x c, (region_y c + Z.of_N (region_h c) + dy c)%Z)
  else if (0 <? dy c)%Z then (region_x c, region_y c)
  else if (dx c <? 0)%Z then ((region_x c + Z.of_N (region_w c) + dx c)%Z, region_y c)
  else (region_x c, region_y c).

Record BlitResult := mkResult { command : BlitCommand; exposed_strip : list byte }.

(** ** The luma at an eighth of the scale *)
Definition SCROLL_MAX_SMALL_SHIFT : Z := 16.
Definition SCROLL_MIN_REGION_PX : N := 64.
Definition SCROLL_CONFIDENCE_THRESHOLD : f64 := f_lit 30 100.

Record SmallFrame := mkSmall { luma : list N; s_w : N; s_h : N; orig_w : N; orig_h : N }.

Definition pixel_luma (pixels : list byte) (off : N) : option N :=
  b ← pixels !! N.to_nat off; g ← pixels !! N.to_nat (off + 1); r ← pixels !! N.to_nat (off + 2);
  Some (N.shiftr (2 * Byte.to_N r + 5 * Byte.to_N g + Byte.to_N b) 3).

(** The coordinates of block [s] along an axis of [n] pixels. *)
Definition block_range (s n : N) : list N := filter (fun f => f < n) (rangeN (s * 8) 8).

Definition block_luma (pixels : list byte) (frame_w frame_h stride sx sy : N) : option N :=
  values ← mapM (fun fy =>
    mapM (fun fx => pixel_luma pixels (wrap 32 (wrap 32 (fy * stride) + wrap 32 (fx * 4)))) (block_range sx frame_w))
    (block_range sy frame_h);
  let sum := sum_of (fun v => v) (concat values) in
  let count := lenN (concat values) in
  Some (if 0 <? count then wrap 8 (sum / count) else 0).

Definition compute_luma_small (pixels : list byte) (frame_w frame_h stride : N) : option SmallFrame :=
  let w := div_ceil frame_w 8 in
  let h := div_ceil frame_h 8 in
  rows ← mapM (fun sy => mapM (fun sx => block_luma pixels frame_w frame_h stride sx sy) (rangeN 0 w)) (rangeN 0 h);
  Some (mkSmall (concat rows) w h frame_w frame_h).

Definition slice_of {A} (l : list A) (from len : N) : option (list A) :=
  if from + len <=? lenN l then Some (take (N.to_nat len) (drop (N.to_nat from) l)) else None.

Definition extract_roi (luma : list N) (luma_w rx ry rw rh : N) : option (list N) :=
  rows ← mapM (fun y => slice_of luma ((ry + y) * luma_w + rx) rw) (rangeN 0 rh);
  Some (concat rows).

(** ** The FFT *)
Record C32 := mkC { re : f32; im : f32 }.

Definition c_zero : C32 := mkC s_zero s_zero.
Definition c_mul (a b : C32) : C32 :=
  mkC (re a * re b - im a * im b)%f32 (re a * im b + im a * re b)%f32.
Definition c_add (a b : C32) : C32 := mkC (re a + re b)%f32 (im a + im b)%f32.
Definition c_sub (a b : C32) : C32 := mkC (re a - re b)%f32 (im a - im b)%f32.
Definition c_conj (a : C32) : C32 := mkC (re a) (SFopp (im a)).
Definition c_mag (a : C32) : f32 := SFsqrt 24 128 (re a * re a + im a * im a)%f32.

Definition PI : f32 := S754_finite false 13176795 (-22).
Definition s_one : f32 := s_of_Z 1.

(** [u32::reverse_bits]. *)
Definition reverse_bits (i : N) : N :=
  foldl (fun acc k => 2 * acc + N.b2n (N.testbit i k)) 0 (rangeN 0 32).

Definition swap (data : list C32) (i j : nat) : option (list C32) :=
  a ← data !! i; b ← data !! j; Some (<[j := a]> (<[i := b]> data)).

Definition bit_reverse (bits : N) (data : list C32) : option (list C32) :=
  foldM (fun data i =>
    let j := N.to_nat (N.shiftr (reverse_bits (N.of_nat i)) ((32 - bits) mod 32)) in
    if (i <? j)%nat then swap data i j else Some data) data (List.seq 0 (length data)).

Section fft.
Context (cosf sinf : f32 -> f32).

Definition butterfly (base half : nat) (st : list C32 * C32 * C32) (k : nat) : option (list C32 * C32 * C32) :=
  let '(data, w, wlen) := st in
  u ← data !! (base + k)%nat; v ← data !! (base + k + half)%nat;
  let v := c_mul v w in
  Some (<[(base + k + half)%nat := c_sub u v]> (<[(base + k)%nat := c_add u v]> data), c_mul w wlen, wlen).

(** One pass of the outer loop, over the blocks of length [2 * half]. *)
Definition fft_pass (sign : f32) (half : nat) (data : list C32) : option (list C32) :=
  let ang := (sign * PI / s_of_Z (Z.of_nat half))%f32 in
  let wlen := mkC (cosf ang) (sinf ang) in
  foldM (fun data b =>
    '(data, _, _) ← foldM (butterfly (b * (2 * half)) half) (data, mkC s_one s_zero, wlen) (List.seq 0 half);
    Some data) data (List.seq 0 (length data / (2 * half))).

(** [half] doubles until it reaches [n]. *)
Fixpoint fft_passes (fuel : nat) (sign : f32) (half : nat) (data : list C32) : option (list C32) :=
  match fuel with
  | O => Some data
  | S fuel =>
      if (half <? length data)%nat
      then data ← fft_pass sign half data; fft_passes fuel sign (2 * half) data
      else Some data
  end.

Definition fft_inplace (data : list C32) (inverse : bool) : option (list C32) :=
  let n := length data in
  let bits := N.log2 (N.of_nat n) in
  data ← bit_reverse bits data;
  let sign := if inverse then s_one else SFopp s_one in
  data ← fft_passes n sign 1 data;
  Some (if inverse then
          let scale := (s_one / s_of_Z (Z.of_nat n))%f32 in
          map (fun x => mkC (re x * scale)%f32 (im x * scale)%f32) data
        else data).

(** The least power of two that is not below [n]. *)
Definition next_pow2 (n : N) : N := 2 ^ N.log2_up n.

(** ** Phase correlation *)
Definition project_cols (data : list N) (w h : N) : option (list f32) :=
  mapM (fun y =>
    values ← mapM (fun x => data !! N.to_nat (y * w + x)) (rangeN 0 w);
    Some (s_of_Z (Z.of_N (sum_of (fun v => v) values)) / s_of_Z (Z.of_N w))%f32) (rangeN 0 h).

Definition project_rows (data : list N) (w h : N) : option (list f32) :=
  mapM (fun x =>
    values ← mapM (fun y => data !! N.to_nat (y * w + x)) (rangeN 0 h);
    Some (s_of_Z (Z.of_N (sum_of (fun v => v) values)) / s_of_Z (Z.of_N h))%f32) (rangeN 0 w).

Definition padded (signal : list f32) (pad_n : nat) : list C32 :=
  map (fun x => mkC x s_zero) signal ++ repeat c_zero (pad_n - length signal).

(** A bin of the normalised cross-power spectrum; [None] for a degenerate one. *)
Definition cross_power (f1 f2 : C32) : option C32 :=
  let c := c_mul f1 (c_conj f2) in
  let m := c_mag c in
  if (m >? s_lit 1 1000000000)%f32 then Some (mkC (re c / m)%f32 (im c / m)%f32) else None.

(** [as f32] of an [f64]. *)
Definition to_f32 (x : f64) : f32 :=
  match x with S754_finite s m e => binary_round 24 128 s m e | _ => x end.

(** One turn of the search for the peak. *)
Definition peak_step (f1 : list C32) (pad_n : nat) (scale : f32) (best : f32 * Z) (d : Z) : option (f32 * Z) :=
  if (d =? 0)%Z then Some best
  else
    c ← f1 !! Z.to_nat (d mod Z.of_nat pad_n);
    let val := (re c * scale)%f32 in
    Some (if (val >? fst best)%f32 then (val, d) else best).

Definition shifts (max_shift : Z) : list Z :=
  map (fun i => (Z.of_nat i - max_shift)%Z) (List.seq 0 (Z.to_nat (2 * max_shift + 1))).

Definition correlate_1d (prev curr : list f32) (max_shift : Z) : option (option (Z * f32)) :=
  let n := lenN prev in
  let ms := Z.to_N max_shift in
  let pad_n := N.to_nat (next_pow2 (N.max (n + ms) 2)) in
  f1 ← fft_inplace (padded prev pad_n) false;
  f2 ← fft_inplace (padded (take (length prev) curr) pad_n) false;
  let bins := zip_with cross_power f1 f2 in
  let active := length (filter is_Some bins) in
  if (active =? 0)%nat then Some None
  else
    f1 ← fft_inplace (map (default c_zero) bins) true;
    let scale := (s_of_Z (Z.of_nat pad_n) / s_of_Z (Z.of_nat active))%f32 in
    best ← foldM (peak_step f1 pad_n scale) (S754_infinity true, 0%Z) (shifts max_shift);
    if (fst best <? to_f32 SCROLL_CONFIDENCE_THRESHOLD)%f32 then Some None
    else Some (Some (snd best, fst best)).

Definition phase_correlate (prev curr : list N) (w h : N) (max_shift : Z) : option (option (Z * Z)) :=
  prev_v ← project_cols prev w h; curr_v ← project_cols curr w h;
  prev_h ← project_rows prev w h; curr_h ← project_rows curr w h;
  v ← correlate_1d prev_v curr_v max_shift;
  u ← correlate_1d prev_h curr_h max_shift;
  Some (match u, v with
        | Some (du, cu), Some (dv, cv) => if (cv <=? cu)%f32 then Some (du, 0%Z) else Some (0%Z, dv)
        | Some (du, _), None => Some (du, 0%Z)
        | None, Some (dv, _) => Some (0%Z, dv)
        | None, None => None
        end).

(** ** The strip *)
Definition compute_strip (rx ry : Z) (rw rh : N) (dx dy : Z) : Z * Z * N * N :=
  if (dy <? 0)%Z then (rx, i32 (i32 (ry + to_i32 rh) + dy), rw, as_u32 (- dy))
  else if (0 <? dy)%Z then (rx, ry, rw, as_u32 dy)
  else if (dx <? 0)%Z then (i32 (i32 (rx + to_i32 rw) + dx), ry, as_u32 (- dx), rh)
  else (rx, ry, as_u32 dx, rh).

(** A pixel of the strip: zero outside the frame. *)
Definition strip_pixel (pixels : list byte) (frame_w frame_h stride : N) (strip_x strip_y : Z) (row col : N) :
    option (list byte) :=
  let src_y := i32 (strip_y + to_i32 row) in
  let src_x := i32 (strip_x + to_i32 col) in
  if (src_y <? 0)%Z || (to_i32 frame_h <=? src_y)%Z then Some (repeat Byte.x00 4)
  else if (src_x <? 0)%Z || (to_i32 frame_w <=? src_x)%Z then Some (repeat Byte.x00 4)
  else slice4 pixels (wrap 32 (wrap 32 (as_u32 src_y * stride) + wrap 32 (as_u32 src_x * 4))).

Definition extract_strip_pixels (pixels : list byte) (frame_w frame_h stride : N) (strip_x strip_y : Z)
    (strip_w strip_h : N) : option (list byte) :=
  rows ← mapM (fun row =>
    cells ← mapM (strip_pixel pixels frame_w frame_h stride strip_x strip_y row) (rangeN 0 strip_w);
    Some (concat cells)) (rangeN 0 strip_h);
  Some (concat rows).

(** ** The detector *)
Definition to_i16 (n : N) : Z := as_signed 16 (wrap 16 n).
Definition z_to_i16 (z : Z) : Z := as_signed 16 (Z.to_N (z mod 2 ^ 16)).

(** The region within the frame: [rx], [ry], [rw], [rh]. *)
Definition clamp_region (frame_w frame_h : N) (region : DirtyRect) : N * N * N * N :=
  let rx := max0 (x region) in
  let ry := max0 (y region) in
  let x1 := Z.to_N (Z.min (Z.max (i32 (x region + to_i32 (width region))) 0) (to_i32 frame_w)) in
  let y1 := Z.to_N (Z.min (Z.max (i32 (y region + to_i32 (height region))) 0) (to_i32 frame_h)) in
  (rx, ry, x1 - rx, y1 - ry).

(** The displacement in full-scale pixels, projected onto the dominant axis. *)
Definition displacement (su sv : Z) : Z * Z :=
  if (Z.abs sv <=? Z.abs su)%Z then ((- (su * 8))%Z, 0%Z) else (0%Z, (- (sv * 8))%Z).

(** What is sent for a displacement that was found. *)
Definition blit_result (pixels : list byte) (frame_w frame_h stride rx ry rw rh : N) (dx dy : Z) :
    option (option BlitResult) :=
  if (dx =? 0)%Z && (dy =? 0)%Z then Some None
  else
    let '(strip_x, strip_y, strip_w, strip_h) := compute_strip (to_i32 rx) (to_i32 ry) rw rh dx dy in
    if (strip_w =? 0) || (strip_h =? 0) then Some None
    else
      exposed ← extract_strip_pixels pixels frame_w frame_h stride strip_x strip_y strip_w strip_h;
      Some (Some (mkResult (mkBlit (to_i16 rx) (to_i16 ry) (wrap 16 rw) (wrap 16 rh) (z_to_i16 dx) (z_to_i16 dy)
                              (wrap 16 strip_w) (wrap 16 strip_h)) exposed)).

Definition detect_scroll (prev curr : SmallFrame) (pixels : list byte) (frame_w frame_h stride : N)
    (region : DirtyRect) : option (option BlitResult) :=
  if negb ((orig_w prev =? frame_w) && (orig_h prev =? frame_h)) then Some None
  else
    let '(rx, ry, rw, rh) := clamp_region frame_w frame_h region in
    if (rw <? SCROLL_MIN_REGION_PX) || (rh <? SCROLL_MIN_REGION_PX) then Some None
    else
      let sx := rx / 8 in
      let sy := ry / 8 in
      let sw := N.min (N.min (div_ceil rw 8) (s_w prev - sx)) (s_w curr - sx) in
      let sh := N.min (N.min (div_ceil rh 8) (s_h prev - sy)) (s_h curr - sy) in
      if (sw <? 4) || (sh <? 4) then Some None
      else
        prev_roi ← extract_roi (luma prev) (s_w prev) sx sy sw sh;
        curr_roi ← extract_roi (luma curr) (s_w curr) sx sy sw sh;
        shift ← phase_correlate prev_roi curr_roi sw sh SCROLL_MAX_SMALL_SHIFT;
        match shift with
        | None => Some None
        | Some (su, sv) =>
            let '(dx, dy) := displacement su sv in
            blit_result pixels frame_w frame_h stride rx ry rw rh dx dy
        end.

Record ScrollDetector := mkScroll { prev_frame : option SmallFrame }.

Definition scroll_new : ScrollDetector := mkScroll None.

Definition detect (d : ScrollDetector) (pixels : list byte) (frame_w frame_h stride : N) (region : DirtyRect) :
    option (ScrollDetector * option BlitResult) :=
  curr ← compute_luma_small pixels frame_w frame_h stride;
  result ← match prev_frame d with
           | None => Some None
           | Some prev => detect_scroll prev curr pixels frame_w frame_h stride region
           end;
  Some (mkScroll (Some curr), result).
End fft.

(** ** What the far end draws *)

(** A rectangle of the screen: its left and top edge and its size. *)
Definition covers (rx ry : Z) (rw rh : N) (px py : Z) : Prop :=
  (rx <= px < rx + Z.of_N rw)%Z /\ (ry <= py < ry + Z.of_N rh)%Z.

Definition in_region (c : BlitCommand) (px py : Z) : Prop :=
  covers (region_x c) (region_y c) (region_w c) (region_h c) px py.

Definition in_strip (c : BlitCommand) (px py : Z) : Prop :=
  covers (fst (strip_origin c)) (snd (strip_origin c)) (strip_w c) (strip_h c) px py.

(** The pixel of the strip that is painted at a place of the screen. *)
Definition painted (r : BlitResult) (px py : Z) : option (list byte) :=
  let c := command r in
  slice4 (exposed_strip r)
    (Z.to_N ((py - snd (strip_origin c)) * Z.of_N (strip_w c) + (px - fst (strip_origin c))) * 4).

(** The pixel of the captured frame. *)
Definition captured (pixels : list byte) (stride : N) (px py : Z) : option (list byte) :=
  slice4 pixels (Z.to_N py * stride + Z.to_N px * 4).

(** A frame the capture delivers: its rows fit the stride, its bytes are there. *)
Definition frame_ok (pixels : list byte) (frame_w frame_h stride : N) : Prop :=
  frame_w < 2 ^ 15 /\ frame_h < 2 ^ 15 /\ 4 * frame_w <= stride /\ stride * frame_h <= lenN pixels /\
  stride * frame_h < 2 ^ 32.

(** ** Lemmas: the wire format *)
Definition command_ok (c : BlitCommand) : Prop :=
  (forall z, z = region_x c \/ z = region_y c \/ z = dx c \/ z = dy c -> i16_ok z) /\
  (forall n, n = region_w c \/ n = region_h c \/ n = strip_w c \/ n = strip_h c -> n < 2 ^ 16).

Lemma command_roundtrip c : command_ok c -> length (to_bytes c) = 16%nat /\ from_bytes (to_bytes c) = c.
Proof.
  intros [Hz Hn]. split; [unfold to_bytes, i16_bytes; by rewrite !length_app, !le_bytes_length|].
  destruct c as [rx ry rw rh cx cy sw sh]. cbn [region_x region_y region_w region_h dx dy strip_w strip_h] in *.
  assert (H2 : forall n, n < 2 ^ 16 -> le_value (le_bytes 2 n) = n) by (intros; by apply le_value_bytes_small).
  change (mkBlit (i16_value (i16_bytes rx)) (i16_value (i16_bytes ry)) (le_value (le_bytes 2 rw))
    (le_value (le_bytes 2 rh)) (i16_value (i16_bytes cx)) (i16_value (i16_bytes cy)) (le_value (le_bytes 2 sw))
    (le_value (le_bytes 2 sh)) = mkBlit rx ry rw rh cx cy sw sh).
  rewrite !i16_roundtrip, !H2 by auto. done.
Qed.

(** ** Lemmas: the strip *)
Section strip.
Context (pixels : list byte) (frame_w frame_h stride : N) (strip_x strip_y : Z).
Hypothesis (Hf : frame_ok pixels frame_w frame_h stride).
Hypothesis (Hx : (- 2 ^ 16 <= strip_x < 2 ^ 16)%Z) (Hy : (- 2 ^ 16 <= strip_y < 2 ^ 16)%Z).

Lemma captured_some px py :
  (0 <= px < Z.of_N frame_w)%Z -> (0 <= py < Z.of_N frame_h)%Z ->
  exists q, captured pixels stride px py = Some q /\ length q = 4%nat /\
    Z.to_N py * stride + Z.to_N px * 4 < 2 ^ 32.
Proof.
  intros Hpx Hpy. destruct Hf as (Hw & Hh & Hs & Hl & H32). unfold captured, slice4.
  assert (Hle : Z.to_N py * stride + Z.to_N px * 4 + 4 <= stride * frame_h).
  { assert ((Z.to_N py + 1) * stride <= frame_h * stride) by (apply N.mul_le_mono_r; lia). lia. }
  rewrite (proj2 (N.leb_le _ _)) by lia. eexists. split; [done|]. split; [|lia].
  rewrite length_take, length_drop. unfold lenN in Hl. lia.
Qed.

Lemma strip_pixel_spec row col :
  row < 2 ^ 16 -> col < 2 ^ 16 ->
  let py := (strip_y + Z.of_N row)%Z in
  let px := (strip_x + Z.of_N col)%Z in
  exists q, strip_pixel pixels frame_w frame_h stride strip_x strip_y row col = Some q /\ length q = 4%nat /\
    ((0 <= px < Z.of_N frame_w)%Z -> (0 <= py < Z.of_N frame_h)%Z -> captured pixels stride px py = Some q).
Proof.
  intros Hr Hc py px. pose proof Hf as (Hw & Hh & _). unfold strip_pixel.
  rewrite !to_i32_small, !i32_small by lia. fold py px.
  destruct ((py <? 0)%Z || (Z.of_N frame_h <=? py)%Z) eqn:Ey.
  { apply orb_true_iff in Ey. rewrite Z.ltb_lt, Z.leb_le in Ey. eexists. split; [done|]. split; [done|]. lia. }
  destruct ((px <? 0)%Z || (Z.of_N frame_w <=? px)%Z) eqn:Ex.
  { apply orb_true_iff in Ex. rewrite Z.ltb_lt, Z.leb_le in Ex. eexists. split; [done|]. split; [done|]. lia. }
  apply orb_false_iff in Ey, Ex. rewrite Z.ltb_ge, Z.leb_gt in Ey, Ex.
  destruct (captured_some px py ltac:(lia) ltac:(lia)) as (q & Hq & Hl & H32).
  exists q. split; [|by split]. unfold as_u32. rewrite !Z.mod_small by lia.
  rewrite (wrap_small 32 (Z.to_N py * stride)), (wrap_small 32 (Z.to_N px * 4)), wrap_small by lia. exact Hq.
Qed.

End strip.

Lemma concat_slice {A} (k : nat) (ls : list (list A)) i l :
  Forall (fun l : list A => length l = k) ls -> ls !! i = Some l -> take k (drop (k * i) (concat ls)) = l.
Proof.
  intros Hk. revert i. induction Hk as [|m ls Hm Hk IH]; intros i Hi; [done|]. cbn [concat]. destruct i as [|i].
  - injection Hi as ->. rewrite Nat.mul_0_r, drop_0, take_app_le, take_ge by lia. done.
  - replace (k * S i)%nat with (length m + k * i)%nat by lia. rewrite drop_app_add'. by apply IH. done.
Qed.

Lemma length_concat_uniform {A} (k : nat) (ls : list (list A)) :
  Forall (fun l : list A => length l = k) ls -> length (concat ls) = (k * length ls)%nat.
Proof. induction 1 as [|m ls Hm _ IH]; cbn [concat length]; [lia|]. rewrite length_app, IH. lia. Qed.

(** The cells of a grid of [w] by [h], row after row, each of four bytes. *)
Lemma grid_cells (f : N -> N -> option (list byte)) (w h : N) :
  (forall row col, row < h -> col < w -> exists q, f row col = Some q /\ length q = 4%nat) ->
  exists rows, mapM (fun row => cells ← mapM (f row) (rangeN 0 w); Some (concat cells)) (rangeN 0 h) = Some rows /\
    lenN (concat rows) = w * h * 4 /\
    (forall row col, row < h -> col < w -> slice4 (concat rows) ((row * w + col) * 4) = f row col).
Proof.
  intros Hcell. set (g row col := default [] (f row col)).
  assert (Hg : forall row col, row < h -> col < w -> f row col = Some (g row col) /\ length (g row col) = 4%nat).
  { intros row col Hr Hc. destruct (Hcell row col Hr Hc) as (q & E & Hl). unfold g. by rewrite E. }
  assert (Hin : forall n k, n ∈ rangeN 0 k -> n < k).
  { intros n k Hn. unfold rangeN in Hn. apply list_elem_of_fmap in Hn as (j & -> & Hj).
    apply list_elem_of_In, in_seq in Hj. lia. }
  assert (Hlen : forall k, length (rangeN 0 k) = N.to_nat k) by (intros; unfold rangeN; by rewrite length_map, length_seq).
  assert (Hat : forall k n, n < k -> rangeN 0 k !! N.to_nat n = Some n).
  { intros k n Hn. unfold rangeN. rewrite list_lookup_fmap, lookup_seq_lt by lia. cbn. f_equal. lia. }
  assert (Hmap : forall {B C} (p : B -> option C) (p' : B -> C) l, (forall b, b ∈ l -> p b = Some (p' b)) -> mapM p l = Some (map p' l)).
  { intros B C p p' l Hp. induction l as [|b l IH]; [done|]. cbn [mapM map]. rewrite Hp by (by left).
    cbn [mbind option_bind]. rewrite IH by (intros; apply Hp; by right). done. }
  set (line row := concat (map (g row) (rangeN 0 w))).
  assert (H4 : forall row, row < h -> Forall (fun l : list byte => length l = 4%nat) (map (g row) (rangeN 0 w))).
  { intros row Hr. apply List.Forall_forall. intros l Hl. apply in_map_iff in Hl as (c & <- & Hc).
    apply list_elem_of_In, Hin in Hc. by apply Hg. }
  exists (map line (rangeN 0 h)). split.
  { apply Hmap. intros row Hr. apply Hin in Hr. rewrite (Hmap _ _ _ (g row)); [done|].
    intros col Hc. apply Hin in Hc. by apply Hg. }
  assert (Hline : Forall (fun l : list byte => length l = (4 * N.to_nat w)%nat) (map line (rangeN 0 h))).
  { apply List.Forall_forall. intros l Hl. apply in_map_iff in Hl as (r & <- & Hr). apply list_elem_of_In, Hin in Hr.
    unfold line. rewrite (length_concat_uniform 4) by (by apply H4). by rewrite length_map, Hlen. }
  assert (Hsize : lenN (concat (map line (rangeN 0 h))) = w * h * 4).
  { unfold lenN. rewrite (length_concat_uniform (4 * N.to_nat w)) by done. rewrite length_map, Hlen. lia. }
  split; [done|]. intros row col Hr Hc. destruct (Hg row col Hr Hc) as [-> _].
  unfold slice4. rewrite Hsize, (proj2 (N.leb_le _ _)) by nia. f_equal.
  rewrite <- (concat_slice 4 (map (g row) (rangeN 0 w)) (N.to_nat col) (g row col)).
  2: by apply H4. 2: by rewrite list_lookup_fmap, Hat.
  fold (line row).
  rewrite <- (concat_slice (4 * N.to_nat w) (map line (rangeN 0 h)) (N.to_nat row) (line row)).
  2: done. 2: by rewrite list_lookup_fmap, Hat.
  replace (4 * N.to_nat w)%nat with (4 * N.to_nat col + (4 * N.to_nat w - 4 * N.to_nat col))%nat at 1 by lia.
  rewrite <- take_drop_commute, take_take, drop_drop. f_equal; [lia|]. f_equal. lia.
Qed.

(** ** Lemmas: the displacement *)
Section shift.
Context (cosf sinf : f32 -> f32).

Lemma foldM_invariant {A S} (f : S -> A -> option S) (P : S -> Prop) (l : list A) s s' :
  P s -> (forall a s s', a ∈ l -> P s -> f s a = Some s' -> P s') -> foldM f s l = Some s' -> P s'.
Proof.
  revert s. induction l as [|a l IH]; intros s Hs Hstep; cbn [foldM]; [by intros [= <-]|].
  intros Hf. apply bind_Some in Hf as (s1 & H1 & Hf). apply (IH s1); [|intros; eapply Hstep; [by right|done..]|done].
  eapply Hstep; [by left|done..].
Qed.

(** A shift that is reported is not zero and within the range searched. *)
Lemma correlate_range prev curr max_shift d v :
  correlate_1d cosf sinf prev curr max_shift = Some (Some (d, v)) -> d <> 0%Z /\ (- max_shift <= d <= max_shift)%Z.
Proof.
  unfold correlate_1d. intros Hc.
  apply bind_Some in Hc as (f1 & _ & Hc). apply bind_Some in Hc as (f2 & _ & Hc).
  destruct (_ =? 0)%nat; [done|]. apply bind_Some in Hc as (f & _ & Hc).
  apply bind_Some in Hc as ([bv bd] & Hb & Hc). cbn [fst snd] in Hc.
  destruct (bv <? to_f32 SCROLL_CONFIDENCE_THRESHOLD)%f32 eqn:Ht; [done|]. injection Hc as -> ->.
  apply (foldM_invariant _ (fun b => b = (S754_infinity true, 0%Z) \/
    (snd b <> 0%Z /\ (- max_shift <= snd b <= max_shift)%Z))) in Hb.
  - destruct Hb as [[= -> ->]|Hb]; [|exact Hb]. by vm_compute in Ht.
  - by left.
  - intros a s s' Ha Hs. unfold peak_step. destruct (Z.eqb_spec a 0) as [|Hne]; [by intros [= <-]|].
    intros Hp. apply bind_Some in Hp as (c & _ & Hp). injection Hp as <-.
    match goal with |- context [if ?b then _ else _] => destruct b end; [|exact Hs]. right. cbn [snd]. split; [done|]. apply list_elem_of_fmap in Ha as (i & -> & Hi). apply list_elem_of_In, in_seq in Hi. lia.
Qed.

(** One of the two components is zero, the other is not. *)
Definition one_axis (bound du dv : Z) : Prop :=
  (du <> 0 /\ dv = 0 /\ - bound <= du <= bound)%Z \/ (du = 0 /\ dv <> 0 /\ - bound <= dv <= bound)%Z.

Lemma phase_range prev curr w h max_shift su sv :
  phase_correlate cosf sinf prev curr w h max_shift = Some (Some (su, sv)) -> one_axis max_shift su sv.
Proof.
  unfold phase_correlate. intros Hp.
  apply bind_Some in Hp as (pv & _ & Hp). apply bind_Some in Hp as (cv & _ & Hp).
  apply bind_Some in Hp as (ph & _ & Hp). apply bind_Some in Hp as (ch & _ & Hp).
  apply bind_Some in Hp as (v & Hv & Hp). apply bind_Some in Hp as (u & Hu & Hp).
  unfold one_axis. destruct u as [[du cu]|], v as [[dv c]|]; try discriminate.
  - apply correlate_range in Hu. apply correlate_range in Hv.
    destruct (SFleb c cu); injection Hp as <- <-; tauto.
  - apply correlate_range in Hu. injection Hp as <- <-. tauto.
  - apply correlate_range in Hv. injection Hp as <- <-. tauto.
Qed.

Lemma displacement_range su sv cx cy :
  one_axis 16 su sv -> displacement su sv = (cx, cy) -> one_axis 128 cx cy.
Proof.
  unfold displacement, one_axis. intros H. destruct (Z.leb_spec (Z.abs sv) (Z.abs su)); intros [= <- <-]; lia.
Qed.
End shift.

(** ** What a blit does *)

(** The blit and the strip account for the region, and only for it as long as the
    displacement is not longer than the region. *)
Definition completes (pixels : list byte) (frame_w frame_h stride : N) (r : BlitResult) : Prop :=
  let c := command r in
  (length (to_bytes c) = 16%nat /\ from_bytes (to_bytes c) = c) /\
  lenN (exposed_strip r) = strip_w c * strip_h c * 4 /\
  one_axis 128 (dx c) (dy c) /\
  (0 <= region_x c /\ 0 <= region_y c /\ region_x c + Z.of_N (region_w c) <= Z.of_N frame_w /\
   region_y c + Z.of_N (region_h c) <= Z.of_N frame_h)%Z /\
  (forall px py, in_region c px py ->
     (in_strip c px py <-> ~ in_region c (px - dx c) (py - dy c)) /\
     (in_strip c px py -> exists q, painted r px py = Some q /\ captured pixels stride px py = Some q)).

Section blit.
Context (pixels : list byte) (frame_w frame_h stride rx ry rw rh : N) (cx cy : Z).
Hypothesis (Hf : frame_ok pixels frame_w frame_h stride).
Hypothesis (Hrx : rx + rw <= frame_w) (Hry : ry + rh <= frame_h) (Hrw : 0 < rw) (Hrh : 0 < rh).
Hypothesis (Hd : one_axis 128 cx cy).

Lemma compute_strip_eq :
  compute_strip (to_i32 rx) (to_i32 ry) rw rh cx cy =
    if (cy <? 0)%Z then (Z.of_N rx, (Z.of_N ry + Z.of_N rh + cy)%Z, rw, Z.to_N (- cy))
    else if (0 <? cy)%Z then (Z.of_N rx, Z.of_N ry, rw, Z.to_N cy)
    else if (cx <? 0)%Z then ((Z.of_N rx + Z.of_N rw + cx)%Z, Z.of_N ry, Z.to_N (- cx), rh)
    else (Z.of_N rx, Z.of_N ry, Z.to_N cx, rh).
Proof.
  destruct Hf as (Hw & Hh & _). unfold one_axis in Hd. unfold compute_strip, as_u32.
  rewrite !to_i32_small by lia.
  destruct (Z.ltb_spec cy 0).
  { by rewrite (i32_small (Z.of_N ry + Z.of_N rh)), i32_small, Z.mod_small by lia. }
  destruct (Z.ltb_spec 0 cy); [by rewrite Z.mod_small by lia|].
  destruct (Z.ltb_spec cx 0); [|by rewrite Z.mod_small by lia].
  by rewrite (i32_small (Z.of_N rx + Z.of_N rw)), i32_small, Z.mod_small by lia.
Qed.

Lemma blit_result_completes :
  exists r, blit_result pixels frame_w frame_h stride rx ry rw rh cx cy = Some (Some r) /\
    completes pixels frame_w frame_h stride r.
Proof.
  pose proof Hf as (Hw & Hh & _). pose proof Hd as Hd'. unfold one_axis in Hd'.
  unfold blit_result. rewrite compute_strip_eq.
  assert (E : (cx =? 0)%Z && (cy =? 0)%Z = false) by (apply andb_false_iff; rewrite !Z.eqb_neq; lia).
  rewrite E. clear E.
  set (strip := if (cy <? 0)%Z then _ else _). destruct strip as [[[sx sy] sw] sh] eqn:Es. subst strip.
  assert (Hs : 0 < sw < 2 ^ 15 /\ 0 < sh < 2 ^ 15 /\ (- 2 ^ 16 <= sx < 2 ^ 16)%Z /\ (- 2 ^ 16 <= sy < 2 ^ 16)%Z).
  { destruct (Z.ltb_spec cy 0); [injection Es as <- <- <- <-; lia|].
    destruct (Z.ltb_spec 0 cy); [injection Es as <- <- <- <-; lia|].
    destruct (Z.ltb_spec cx 0); injection Es as <- <- <- <-; lia. }
  rewrite (proj2 (N.eqb_neq sw 0)), (proj2 (N.eqb_neq sh 0)) by lia. cbn [orb].
  destruct (grid_cells (strip_pixel pixels frame_w frame_h stride sx sy) sw sh) as (rows & Hrows & Hlen & Hcell).
  { intros row col Hr Hc. destruct (strip_pixel_spec pixels frame_w frame_h stride sx sy Hf ltac:(lia) ltac:(lia) row col
      ltac:(lia) ltac:(lia)) as (q & Hq & Hl & _). by exists q. }
  unfold extract_strip_pixels. rewrite Hrows. cbn [mbind option_bind]. eexists. split; [done|].
  set (c := mkBlit _ _ _ _ _ _ _ _).
  assert (Ec : c = mkBlit (Z.of_N rx) (Z.of_N ry) rw rh cx cy sw sh).
  { unfold c, to_i16, z_to_i16. rewrite !(wrap_small 16) by lia. rewrite !as_signed_16 by lia.
    rewrite !(proj2 (N.ltb_lt _ _)) by lia. rewrite !i16_round by (unfold i16_ok; lia). done. }
  clearbody c. subst c.
  assert (Eo : strip_origin (mkBlit (Z.of_N rx) (Z.of_N ry) rw rh cx cy sw sh) = (sx, sy)).
  { unfold strip_origin. cbn [dx dy region_x region_y region_w region_h].
    destruct (cy <? 0)%Z; [by injection Es as <- <- _ _|]. destruct (0 <? cy)%Z; [by injection Es as <- <- _ _|].
    by destruct (cx <? 0)%Z; injection Es as <- <- _ _. }
  unfold completes, in_region, in_strip, painted. cbn [command exposed_strip]. rewrite Eo.
  cbn [dx dy region_x region_y region_w region_h strip_w strip_h fst snd]. unfold covers.
  split; [apply command_roundtrip; unfold command_ok, i16_ok; split; cbn; naive_solver lia|]. split; [done|]. split; [done|]. split; [lia|].
  intros px py Hp. split.
  - destruct (Z.ltb_spec cy 0); [injection Es as <- <- <- <-; lia|].
    destruct (Z.ltb_spec 0 cy); [injection Es as <- <- <- <-; lia|].
    destruct (Z.ltb_spec cx 0); injection Es as <- <- <- <-; lia.
  - intros Hin. set (row := Z.to_N (py - sy)). set (col := Z.to_N (px - sx)).
    destruct (strip_pixel_spec pixels frame_w frame_h stride sx sy Hf ltac:(lia) ltac:(lia) row col
      ltac:(lia) ltac:(lia)) as (q & Hq & _ & Hc).
    replace (sy + Z.of_N row)%Z with py in Hc by lia. replace (sx + Z.of_N col)%Z with px in Hc by lia.
    exists q. split; [|apply Hc; lia]. rewrite <- Hq, <- Hcell by lia. f_equal.
    assert (E : Z.to_N ((py - sy) * Z.of_N sw + (px - sx)) = row * sw + col); [|by rewrite E].
    apply N2Z.inj. rewrite Z2N.id by (assert (0 <= (py - sy) * Z.of_N sw)%Z by (apply Z.mul_nonneg_nonneg; lia); lia).
    unfold row, col. rewrite N2Z.inj_add, N2Z.inj_mul, !Z2N.id by lia. done.
Qed.
End blit.

(** ** Properties *)

(** C31: A blit completes the screen: when a scroll is reported, the far end that
    moves the region by the displacement and paints the strip where it belongs
    leaves no pixel of the region behind: a pixel is painted exactly if the blit
    has no source for it inside the region, with the captured pixel.  The command
    survives its 16 bytes, the region lies in the frame, and the displacement is
    along one axis, of at most 128 pixels.  (Whether the content did move that way
    is the correlation's estimate.) *)
Theorem reported_scroll_completes (cosf sinf : f32 -> f32) (prev curr : SmallFrame) (pixels : list byte)
    (frame_w frame_h stride : N) (region : DirtyRect) (r : BlitResult) :
  frame_ok pixels frame_w frame_h stride ->
  detect_scroll cosf sinf prev curr pixels frame_w frame_h stride region = Some (Some r) ->
  completes pixels frame_w frame_h stride r.
Proof.
  intros Hf. unfold detect_scroll. destruct (negb _); [done|].
  destruct (clamp_region frame_w frame_h region) as [[[rx ry] rw] rh] eqn:Er.
  destruct ((rw <? SCROLL_MIN_REGION_PX) || (rh <? SCROLL_MIN_REGION_PX)) eqn:Em; [done|].
  apply orb_false_iff in Em as [Hrw Hrh]. apply N.ltb_ge in Hrw, Hrh. unfold SCROLL_MIN_REGION_PX in *.
  destruct (_ || _); [done|]. intros Hd.
  apply bind_Some in Hd as (proi & _ & Hd). apply bind_Some in Hd as (croi & _ & Hd).
  apply bind_Some in Hd as ([[su sv]|] & Hs & Hd); [|done].
  apply phase_range in Hs. destruct (displacement su sv) as [cx cy] eqn:Ed.
  apply (displacement_range _ _ _ _ Hs) in Ed. pose proof Hf as (Hw & Hh & _).
  assert (Hxy : rx + rw <= frame_w /\ ry + rh <= frame_h).
  { unfold clamp_region in Er. rewrite (to_i32_small frame_w), (to_i32_small frame_h) in Er by lia.
    injection Er as <- <- <- <-. lia. }
  destruct (blit_result_completes pixels frame_w frame_h stride rx ry rw rh cx cy Hf) as (r' & Hr' & Hc);
    [lia|lia|lia|lia|done|]. rewrite Hr' in Hd. injection Hd as <-. done.
Qed.

(** A cosine and a sine, rounded, at the angles an FFT of 32 points uses. *)
Definition circle : list (f32 * f32 * f32) :=
  [(S754_finite false 13176795 (-22), S754_finite true 8388608 (-23), S754_finite true 12303662 (-47));
   (S754_finite false 13176795 (-23), S754_finite true 12303662 (-48), S754_finite false 8388608 (-23));
   (S754_finite false 13176795 (-24), S754_finite false 11863283 (-24), S754_finite false 11863283 (-24));
   (S754_finite false 13176795 (-25), S754_finite false 15500126 (-24), S754_finite false 12840726 (-25));
   (S754_finite false 13176795 (-26), S754_finite false 16454846 (-24), S754_finite false 13092290 (-26));
   (S754_finite true 13176795 (-22), S754_finite true 8388608 (-23), S754_finite false 12303662 (-47));
   (S754_finite true 13176795 (-23), S754_finite true 12303662 (-48), S754_finite true 8388608 (-23));
   (S754_finite true 13176795 (-24), S754_finite false 11863283 (-24), S754_finite true 11863283 (-24));
   (S754_finite true 13176795 (-25), S754_finite false 15500126 (-24), S754_finite true 12840726 (-25));
   (S754_finite true 13176795 (-26), S754_finite false 16454846 (-24), S754_finite true 13092290 (-26))].

Definition on_circle (g : f32 * f32 * f32 -> f32) (a : f32) : f32 :=
  default s_zero (g <$> List.find (fun p => SFeqb (fst (fst p)) a) circle).
Definition circle_cos : f32 -> f32 := on_circle (fun p => snd (fst p)).
Definition circle_sin : f32 -> f32 := on_circle snd.

(** Eight rows of blocks, each of one luma. *)
Definition banded (l : list N) : SmallFrame := mkSmall (concat (map (fun v => repeat v 8) l)) 8 8 64 64.
Definition bands : list N := [10; 200; 30; 90; 250; 5; 60; 120].
Definition blank : list byte := repeat Byte.x00 (64 * 256).
Definition whole : DirtyRect := mkRect 0 0 64 64.

(** The bands one block further down. *)
Definition bands_down : list N := [77; 10; 200; 30; 90; 250; 5; 60].

Lemma bands_moved_down :
  phase_correlate circle_cos circle_sin (luma (banded bands)) (luma (banded bands_down)) 8 8 16 = Some (Some (0%Z, (-1)%Z)).
Proof. by vm_compute. Qed.

Lemma whole_roi l : length l = 8%nat -> extract_roi (luma (banded l)) 8 0 0 8 8 = Some (luma (banded l)).
Proof. do 9 (destruct l as [|? l]; [by try discriminate|]); discriminate. Qed.

Lemma scrolled_down pixels :
  detect_scroll circle_cos circle_sin (banded bands) (banded bands_down) pixels 64 64 256 whole =
  blit_result pixels 64 64 256 0 0 64 64 0 8.
Proof.
  unfold detect_scroll. change (clamp_region 64 64 whole) with (0, 0, 64, 64). cbv beta iota.
  change (negb ((orig_w (banded bands) =? 64) && (orig_h (banded bands) =? 64))) with false. cbv beta iota zeta.
  change ((64 <? SCROLL_MIN_REGION_PX) || (64 <? SCROLL_MIN_REGION_PX)) with false. cbv beta iota.
  change (N.min (N.min (div_ceil 64 8) (s_w (banded bands) - 0 / 8)) (s_w (banded bands_down) - 0 / 8)) with 8.
  change (N.min (N.min (div_ceil 64 8) (s_h (banded bands) - 0 / 8)) (s_h (banded bands_down) - 0 / 8)) with 8.
  change ((8 <? 4) || (8 <? 4)) with false. cbv beta iota. change (0 / 8) with 0.
  change (s_w (banded bands)) with 8. change (s_w (banded bands_down)) with 8.
  rewrite !whole_roi by done. cbn [mbind option_bind].
  change SCROLL_MAX_SMALL_SHIFT with 16%Z. rewrite bands_moved_down. reflexivity.
Qed.

Lemma blank_ok : frame_ok blank 64 64 256.
Proof. unfold frame_ok, blank, lenN. rewrite repeat_length. lia. Qed.

Lemma reported_scroll_completes_witness :
  exists r,
    detect_scroll circle_cos circle_sin (banded bands) (banded bands_down) blank 64 64 256 whole = Some (Some r) /\
    completes blank 64 64 256 r.
Proof.
  destruct (blit_result_completes blank 64 64 256 0 0 64 64 0 8 blank_ok) as (r & Hr & _);
    [lia|lia|lia|lia|by right|].
  exists r. rewrite <- (scrolled_down blank) in Hr. split; [exact Hr|]. revert Hr.
  apply reported_scroll_completes. exact blank_ok.
Defined.

(** In the smallest region, content that moved up by exactly two blocks is
    reported as moved down by one. *)
Lemma small_scroll_misjudged :
  phase_correlate circle_cos circle_sin (luma (banded bands)) (luma (banded [30; 90; 250; 5; 60; 120; 10; 33])) 8 8 16 =
    Some (Some (0%Z, (-1)%Z)).
Proof. by vm_compute. Qed.
