(* ===== verification/AuditExport.v ===== *)
(** The exports of the audit log: [export_json], the document signed with the
    daemon's ed25519 key and its check, the second half of
    [core/messaging/src/audit.rs].

    The ed25519 crate is the class [Ed25519]; strings are those of [Text].  The
    two functions that write an export to a path are [std::fs::write] of the
    strings built here. *)
From Stdlib Require Import Strings.String.
From S2P Require Import Prelude Text Numeral AuditLog.
From S2P Require Records.
#[local] Open Scope N_scope.

Abbreviation quoted := Records.quoted.

(** ** The JSON of the entries *)
Definition cap_field (c : option str) : str :=
  match c with Some c => quoted c | None => Records.null end.

Definition entry_to_json (e : AuditEntry) : str :=
  lit "{" ++ quoted (lit "event_type") ++ lit ":" ++ quoted (event_type e) ++
  lit "," ++ quoted (lit "capability") ++ lit ":" ++ cap_field (capability e) ++
  lit "," ++ quoted (lit "identity_key") ++ lit ":" ++ Records.peer_key_field (identity_key e) ++
  lit "," ++ quoted (lit "occurred_at_ms") ++ lit ":" ++ decimal (occurred_at_ms e) ++
  lit "," ++ quoted (lit "signature") ++ lit ":" ++ quoted (hex (signature e)) ++ lit "}".

Fixpoint push_entries (first : bool) (es : list AuditEntry) : str :=
  match es with
  | [] => []
  | e :: es => (if first then [] else lit ",") ++ entry_to_json e ++ push_entries false es
  end.

Definition export_json (l : AuditLog) : str :=
  lit "{" ++ quoted (lit "entries") ++ lit ":[" ++ push_entries true (entries l) ++ lit "]}".

(** ** String searches of the standard library *)

(** [rfind] at a non-empty pattern: the text before the last occurrence and the
    text after it. *)
Fixpoint rfind (p s : str) : option (str * str) :=
  match s with
  | [] => None
  | c :: t =>
      match rfind p t with
      | Some (a, b) => Some (c :: a, b)
      | None => (fun b => ([], b)) <$> strip_prefix p s
      end
  end.

Definition strip_suffix (p s : str) : option str :=
  reverse <$> strip_prefix (reverse p) (reverse s).

(** ** The ed25519 crate *)
Class Ed25519 := {
  verifying_key : list byte -> list byte;
  from_bytes_ok : list byte -> bool;
  sign : list byte -> list byte -> list byte;
  verify_strictly : list byte -> list byte -> list byte -> bool;
}.

(** [verify_strictly key message signature]; keys have 32 bytes, signatures 64. *)
Class Ed25519Laws `{Ed25519} : Prop := {
  verifying_key_length k : length (verifying_key k) = 32%nat;
  verifying_key_ok k : from_bytes_ok (verifying_key k) = true;
  sign_length k m : length (sign k m) = 64%nat;
  sign_verifies k m : verify_strictly (verifying_key k) m (sign k m) = true;
}.

(** ** The signed document *)
Definition SIG_MARKER : str := lit "," ++ quoted (lit "signature") ++ lit ":" ++ [Records.dquote].
Definition KEY_MARKER : str := quoted (lit "signer_pubkey") ++ lit ":" ++ [Records.dquote].
Definition END_MARKER : str := [Records.dquote; 0x7d].

(** [payload.truncate(payload.len() - 1)] drops the closing brace. *)
Definition signed_payload `{Ed25519} (l : AuditLog) (signing_key : list byte) : str :=
  let json := export_json l in
  take (length json - 1) json ++ lit "," ++ quoted (lit "signer_pubkey") ++ lit ":" ++
  quoted (hex (verifying_key signing_key)).

Definition export_signed_json `{Ed25519} (l : AuditLog) (signing_key : list byte) : str :=
  let payload := signed_payload l signing_key in
  let sig := sign signing_key (as_bytes payload) in
  payload ++ SIG_MARKER ++ hex sig ++ END_MARKER.

(** [hex_decode::<N>]: the characters taken in pairs.  A string that passes the
    two tests has one byte per character. *)
Fixpoint hex_pairs (s : str) : option (list byte) :=
  match s with
  | a :: b :: s =>
      hi ← to_digit 16 a;
      lo ← to_digit 16 b;
      rest ← hex_pairs s;
      Some (byte_of (N.lor (N.shiftl hi 4) lo) :: rest)
  | _ => Some []
  end.

Definition is_ascii (s : str) : bool := forallb (fun c => c <? 0x80) s.

Definition hex_decode (n : nat) (s : str) : option (list byte) :=
  if negb (str_len s =? N.of_nat n * 2) || negb (is_ascii s) then None else hex_pairs s.

Definition verify_signed_export `{Ed25519} (document : str) (expected : option (list byte)) : bool :=
  match rfind SIG_MARKER document with
  | None => false
  | Some (payload, sig_hex) =>
  match strip_suffix END_MARKER sig_hex with
  | None => false
  | Some sig_hex =>
  match rfind KEY_MARKER payload with
  | None => false
  | Some (_, key_hex) =>
  match strip_suffix [Records.dquote] key_hex with
  | None => false
  | Some key_hex =>
  match hex_decode 64 sig_hex, hex_decode 32 key_hex with
  | Some sig_bytes, Some key_bytes =>
      if match expected with Some e => negb (bool_decide (e = key_bytes)) | None => false end then false
      else if negb (from_bytes_ok key_bytes) then false
      else verify_strictly key_bytes (as_bytes payload) sig_bytes
  | _, _ => false
  end end end end end.

(** ** Searches, suffixes and hexadecimal *)
Section text.
Implicit Types (p s t a b : str).

Lemma rfind_Some p s a b : rfind p s = Some (a, b) -> s = a ++ p ++ b.
Proof.
  revert a. induction s as [|c s IH]; intros a; cbn [rfind]; [done|].
  destruct (rfind p s) as [[a' b']|].
  - intros [= <- ->]. cbn. f_equal. by apply IH.
  - destruct (strip_prefix p (c :: s)) as [t|] eqn:E; [|done]. intros [= <- <-].
    by apply strip_prefix_Some in E.
Qed.

(** Nothing after the occurrence starts another one: this is the one found. *)
Lemma rfind_at p a b : p <> [] -> rfind p (tail (p ++ b)) = None -> rfind p (a ++ p ++ b) = Some (a, b).
Proof.
  intros Hp Hn. destruct p as [|c p]; [done|]. cbn [app tail] in Hn.
  induction a as [|d a IH]; cbn [app rfind].
  - rewrite Hn. change (c :: p ++ b) with ((c :: p) ++ b). by rewrite strip_prefix_app.
  - change (c :: p ++ b) with ((c :: p) ++ b). by rewrite IH.
Qed.

Lemma rfind_no_head c p s : c ∉ s -> rfind (c :: p) s = None.
Proof.
  induction s as [|d s IH]; intros Hn; [done|]. cbn [rfind]. rewrite not_elem_of_cons in Hn.
  destruct Hn as [Hc Hn]. rewrite IH by done. unfold strip_prefix. rewrite bool_decide_false; [done|].
  cbn. congruence.
Qed.

Lemma strip_suffix_Some p s t : strip_suffix p s = Some t <-> s = t ++ p.
Proof.
  unfold strip_suffix. split.
  - destruct (strip_prefix _ _) as [r|] eqn:E; [|done]. intros [= <-].
    apply strip_prefix_Some in E. apply (f_equal reverse) in E. by rewrite reverse_involutive, reverse_app, reverse_involutive in E.
  - intros ->. rewrite reverse_app, strip_prefix_app. cbn. by rewrite reverse_involutive.
Qed.

(** The characters that are hexadecimal digits. *)
Definition is_hex (c : N) : Prop := is_Some (to_digit 16 c).

Lemma not_hex c : ~ is_hex c -> forall s, Forall is_hex s -> c ∉ s.
Proof. intros Hc s Hs Hin. rewrite Forall_forall in Hs. by apply Hc, Hs. Qed.

Lemma hex_ascii c : is_hex c -> c < 0x80.
Proof.
  intros [d Hd]. unfold to_digit, in_range in Hd.
  destruct (N.lt_ge_cases c 0x80) as [|Hc]; [done|].
  rewrite !(proj2 (N.leb_gt c _)), !andb_false_r in Hd by lia. done.
Qed.

Lemma ascii_bytes s : Forall (fun c => c < 0x80) s -> length (as_bytes s) = length s.
Proof.
  induction 1 as [|c s Hc _ IH]; [done|]. rewrite as_bytes_cons, length_app, IH.
  unfold enc_char. by rewrite (proj2 (N.ltb_lt _ _)).
Qed.

Lemma hex_pairs_hex s l : hex_pairs s = Some l -> Nat.even (length s) = true -> Forall is_hex s.
Proof.
  revert l. induction s as [s IH] using (induction_ltof1 _ (@length N)). unfold ltof in IH.
  intros l. destruct s as [|x [|y s]]; [constructor|done|]. cbn [hex_pairs].
  destruct (to_digit 16 x) eqn:Ex; [|done]. cbn [mbind option_bind].
  destruct (to_digit 16 y) eqn:Ey; [|done]. cbn [mbind option_bind].
  destruct (hex_pairs s) as [r|] eqn:Es; [|done]. intros _ Hl. repeat constructor; [by eexists..|].
  eapply IH; [cbn; lia|done|done].
Qed.

Lemma hex_decode_hex n s l : hex_decode n s = Some l -> Forall is_hex s.
Proof.
  unfold hex_decode. destruct (negb _ || negb _)%bool eqn:E; [done|].
  apply orb_false_iff in E as [E1 E2]. apply negb_false_iff in E1, E2. apply N.eqb_eq in E1.
  intros H. eapply hex_pairs_hex; [exact H|].
  assert (Ha : Forall (fun c => c < 0x80) s).
  { rewrite List.Forall_forall. intros c Hc. unfold is_ascii in E2. rewrite forallb_forall in E2.
    by apply N.ltb_lt, E2. }
  unfold str_len, lenN in E1. rewrite ascii_bytes in E1 by done.
  replace (length s) with (2 * n)%nat by lia. by rewrite Nat.even_mul.
Qed.

Lemma byte_nibbles (b : byte) :
  exists h l, digits 16 2 (Byte.to_N b) = [digit_char h; digit_char l] /\ h < 16 /\ l < 16 /\
    byte_of (N.lor (N.shiftl h 4) l) = b.
Proof.
  exists (Byte.to_N b / 16), (Byte.to_N b mod 16). destruct b; vm_compute; auto.
Qed.

Lemma hex_pairs_of l : hex_pairs (hex l) = Some l.
Proof.
  induction l as [|b l IH]; [done|]. unfold hex in *. cbn [map concat].
  destruct (byte_nibbles b) as (x & y & -> & Hx & Hy & Hb). cbn [app hex_pairs].
  rewrite !to_digit_char by lia. cbn [mbind option_bind]. rewrite IH. cbn [mbind option_bind]. by rewrite Hb.
Qed.

Lemma hex_is_hex l : Forall is_hex (hex l).
Proof.
  eapply hex_pairs_hex; [apply hex_pairs_of|]. unfold hex. induction l as [|b l IH]; [done|].
  cbn [map concat]. by rewrite length_app, digits_count.
Qed.

Lemma hex_length l : length (hex l) = (length l * 2)%nat.
Proof. induction l as [|b l IH]; [done|]. unfold hex in *. cbn [map concat]. rewrite length_app, digits_count, IH. cbn. lia. Qed.

(** Encoding and decoding a key or a signature. *)
Lemma hex_decode_of n l : length l = n -> hex_decode n (hex l) = Some l.
Proof.
  intros <-. unfold hex_decode. pose proof (hex_is_hex l) as Hh.
  assert (Ha : Forall (fun c => c < 0x80) (hex l)) by (eapply Forall_impl; [exact Hh|apply hex_ascii]).
  assert (E1 : (str_len (hex l) =? N.of_nat (length l) * 2) = true).
  { apply N.eqb_eq. unfold str_len, lenN. rewrite ascii_bytes, hex_length by done. lia. }
  assert (E2 : is_ascii (hex l) = true).
  { unfold is_ascii. rewrite forallb_forall. rewrite List.Forall_forall in Ha. intros c Hc. by apply N.ltb_lt, Ha. }
  rewrite E1, E2. apply hex_pairs_of.
Qed.
End text.

(** ** The markers *)
#[local] Opaque hex decimal.

Lemma sig_marker_found a h :
  Forall is_hex h -> rfind SIG_MARKER (a ++ SIG_MARKER ++ h ++ END_MARKER) = Some (a, h ++ END_MARKER).
Proof.
  intros Hh. apply rfind_at; [done|]. unfold SIG_MARKER.
  apply (rfind_no_head 0x2c). intros Hin.
  change (0x2c ∈ quoted (lit "signature") ++ lit ":" ++ [Records.dquote] ++ h ++ END_MARKER) in Hin.
  rewrite !elem_of_app in Hin. destruct Hin as [H|[H|[H|[H|H]]]].
  1-3,5: revert H; apply (bool_decide_unpack _); vm_compute; done.
  refine (not_hex 0x2c _ h Hh H). by intros [? ?].
Qed.

Lemma key_marker_found a h :
  Forall is_hex h -> rfind KEY_MARKER (a ++ KEY_MARKER ++ h ++ [Records.dquote]) = Some (a, h ++ [Records.dquote]).
Proof.
  intros Hh. apply rfind_at; [done|].
  assert (Hs : rfind KEY_MARKER (h ++ [Records.dquote]) = None).
  { clear a. induction Hh as [|c h Hc Hh IH]; [done|]. cbn [app rfind]. rewrite IH.
    unfold strip_prefix. rewrite bool_decide_false; [done|]. intros [= ->]. by destruct Hc. }
  set (r := h ++ [Records.dquote]) in *.
  assert (Hq : rfind KEY_MARKER (Records.dquote :: r) = None).
  { cbn [rfind]. rewrite Hs. unfold strip_prefix. rewrite bool_decide_false; [done|].
    subst r. destruct h as [|c h]; [done|]. intros [= ->].
    apply Forall_cons in Hh as [Hc _]. by destruct Hc. }
  change (tail (KEY_MARKER ++ r)) with (lit "signer_pubkey" ++ Records.dquote :: lit ":" ++ Records.dquote :: r).
  generalize dependent (Records.dquote :: r). intros r' Hq. revert Hq. cbn. intros Hq. by rewrite Hq.
Qed.

(** What [verify_signed_export] accepts: a payload that ends with the signer's
    key, a signature of that payload, and nothing else. *)
Section document.
Context `{Ed25519}.

Definition document_of (body key_hex sig_hex : str) : str :=
  (body ++ KEY_MARKER ++ key_hex ++ [Records.dquote]) ++ SIG_MARKER ++ sig_hex ++ END_MARKER.

Definition accepted (body key_hex sig_hex : str) (expected : option (list byte)) : Prop :=
  exists key_bytes sig_bytes,
    hex_decode 32 key_hex = Some key_bytes /\ hex_decode 64 sig_hex = Some sig_bytes /\
    match expected with Some e => e = key_bytes | None => True end /\
    from_bytes_ok key_bytes = true /\
    verify_strictly key_bytes (as_bytes (body ++ KEY_MARKER ++ key_hex ++ [Records.dquote])) sig_bytes = true.

Lemma verify_document body kh sh expected :
  Forall is_hex kh -> Forall is_hex sh ->
  verify_signed_export (document_of body kh sh) expected = true <-> accepted body kh sh expected.
Proof.
  intros Hk Hs. unfold verify_signed_export, document_of, accepted.
  rewrite sig_marker_found by done.
  rewrite (proj2 (strip_suffix_Some END_MARKER _ sh)) by done.
  rewrite key_marker_found by done.
  rewrite (proj2 (strip_suffix_Some [Records.dquote] _ kh)) by done.
  destruct (hex_decode 64 sh) as [sb|]; [|split; [done|]; by intros (? & ? & _ & ? & _)].
  destruct (hex_decode 32 kh) as [kb|]; [|split; [done|]; by intros (? & ? & ? & _)].
  split.
  - intros Hv. exists kb, sb. destruct (match expected with Some _ => _ | None => _ end) eqn:E; [done|].
    destruct (from_bytes_ok kb) eqn:Ek; [|done]. split_and!; try done.
    destruct expected as [e|]; [|done]. apply negb_false_iff in E. by apply bool_decide_eq_true in E.
  - intros (? & ? & [= <-] & [= <-] & He & Ho & Hv). rewrite Ho, Hv.
    destruct expected as [e|]; [|done]. subst e. by rewrite bool_decide_true.
Qed.

Lemma verify_splits doc expected :
  verify_signed_export doc expected = true ->
  exists body kh sh, doc = document_of body kh sh /\ Forall is_hex kh /\ Forall is_hex sh.
Proof.
  unfold verify_signed_export.
  destruct (rfind SIG_MARKER doc) as [[p s]|] eqn:E1; [|done].
  destruct (strip_suffix END_MARKER s) as [sh|] eqn:E2; [|done].
  destruct (rfind KEY_MARKER p) as [[body k]|] eqn:E3; [|done].
  destruct (strip_suffix [Records.dquote] k) as [kh|] eqn:E4; [|done].
  destruct (hex_decode 64 sh) as [sb|] eqn:E5; [|done].
  destruct (hex_decode 32 kh) as [kb|] eqn:E6; [|done].
  intros _. apply rfind_Some in E1, E3. apply strip_suffix_Some in E2, E4. subst.
  exists body, kh, sh. split_and!; [done|by eapply hex_decode_hex..].
Qed.

(** The payload an export signs is the export up to its closing brace. *)
Definition open_export (l : AuditLog) : str :=
  lit "{" ++ quoted (lit "entries") ++ lit ":[" ++ push_entries true (entries l) ++ lit "],".

Lemma signed_payload_eq l k :
  signed_payload l k = open_export l ++ KEY_MARKER ++ hex (verifying_key k) ++ [Records.dquote].
Proof.
  unfold signed_payload, export_json, open_export. set (b := push_entries true (entries l)).
  replace (lit "{" ++ quoted (lit "entries") ++ lit ":[" ++ b ++ lit "]}")
    with ((lit "{" ++ quoted (lit "entries") ++ lit ":[" ++ b ++ lit "]") ++ lit "}")
    by (by rewrite <- !app_assoc).
  rewrite length_app. cbn [length lit]. rewrite take_app_le by (cbn; lia).
  rewrite Nat.add_sub, take_ge by done. rewrite <- !app_assoc. done.
Qed.

Lemma export_signed_eq l k :
  export_signed_json l k =
  document_of (open_export l) (hex (verifying_key k)) (hex (sign k (as_bytes (signed_payload l k)))).
Proof. unfold export_signed_json, document_of. by rewrite signed_payload_eq. Qed.
End document.

(** ** The JSON determines the entries *)

(** Entries whose strings hold no quotation mark; keys and signatures are
    arrays of 32 bytes. *)
Definition clean (e : AuditEntry) : Prop :=
  (Records.dquote ∉ event_type e) /\ (Records.dquote ∉ default [] (capability e)) /\
  match identity_key e with Some k => length k = 32%nat | None => True end /\
  length (signature e) = 32%nat.

Section json.
Implicit Types (e : AuditEntry) (es : list AuditEntry) (s t : str).

Lemma quoted_inj s1 s2 t1 t2 :
  Records.dquote ∉ s1 -> Records.dquote ∉ s2 -> quoted s1 ++ t1 = quoted s2 ++ t2 -> s1 = s2 /\ t1 = t2.
Proof.
  intros H1 H2. unfold quoted. rewrite <- !app_comm_cons, <- !app_assoc. intros [= He].
  assert (Hf : forall s, Records.dquote ∉ s -> Forall (fun c => c <> Records.dquote) s).
  { intros s Hs. rewrite Forall_forall. by intros x Hx ->. }
  by destruct (break_unique _ _ _ _ _ _ _ (Hf _ H1) (Hf _ H2) (fun n => n eq_refl) (fun n => n eq_refl) He)
    as (-> & _ & ->).
Qed.

Lemma cap_field_inj a b t1 t2 :
  Records.dquote ∉ default [] a -> Records.dquote ∉ default [] b ->
  cap_field a ++ t1 = cap_field b ++ t2 -> a = b /\ t1 = t2.
Proof.
  destruct a as [a|], b as [b|]; cbn [cap_field default]; intros Ha Hb He; try done.
  - by apply quoted_inj in He as [-> ->].
  - by apply app_inv_head in He as ->.
Qed.

Lemma hex_no_quote l : Records.dquote ∉ hex l.
Proof. refine (not_hex _ _ _ (hex_is_hex l)). by intros [? ?]. Qed.

Lemma entry_json_inj e1 e2 t1 t2 :
  clean e1 -> clean e2 -> entry_to_json e1 ++ t1 = entry_to_json e2 ++ t2 -> e1 = e2 /\ t1 = t2.
Proof.
  intros (H1 & H2 & H3 & H4) (K1 & K2 & K3 & K4). unfold entry_to_json. rewrite <- !app_assoc. intros He.
  do 3 apply app_inv_head in He. apply quoted_inj in He as [E1 He]; [|done..].
  do 3 apply app_inv_head in He. apply cap_field_inj in He as [E2 He]; [|done..].
  do 3 apply app_inv_head in He. apply Records.peer_key_inj in He as [E3 He]; [|done..].
  do 3 apply app_inv_head in He. apply Records.decimal_then in He as (E4 & _ & He); [|by left..].
  do 2 apply app_inv_head in He. apply quoted_inj in He as [E5 He]; [|apply hex_no_quote..].
  apply app_inv_head in He as ->. split; [|done].
  destruct (hex_inj (signature e1) (signature e2) [] []) as [E6 _]; [congruence|by rewrite E5|].
  destruct e1, e2. cbn in *. congruence.
Qed.

Lemma push_entries_inj first es1 es2 t :
  Forall clean es1 -> Forall clean es2 ->
  push_entries first es1 ++ 0x5d :: t = push_entries first es2 ++ 0x5d :: t -> es1 = es2.
Proof.
  intros H1. revert first es2. induction H1 as [|e1 es1 He1 _ IH]; intros first es2 H2 He.
  - destruct H2 as [|e2 es2 _ _]; [done|]. by destruct first.
  - destruct H2 as [|e2 es2 He2 H2]; [by destruct first|]. cbn [push_entries] in He.
    rewrite <- !app_assoc in He. apply app_inv_head in He.
    apply entry_json_inj in He as [-> He]; [|done..]. f_equal. by apply (IH false).
Qed.
End json.

(** ** Properties *)

(** Two logs with the same export have the same entries, signatures included,
    as long as no event name and no capability holds a quotation mark. *)
Theorem export_json_injective (l l' : AuditLog) :
  Forall clean (entries l) -> Forall clean (entries l') ->
  export_json l = export_json l' -> entries l = entries l'.
Proof.
  intros H H'. unfold export_json. intros He. do 3 apply app_inv_head in He.
  by apply push_entries_inj in He.
Qed.

Lemma export_json_injective_witness :
  let l := append (new zeros) (lit "view_granted") (Some (lit "view")) 5 in
  entries l = entries l.
Proof.
  cbn zeta. refine (export_json_injective _ _ _ _ eq_refl);
    (apply Forall_singleton; split_and!;
      [apply (bool_decide_unpack _); vm_compute; exact I|apply (bool_decide_unpack _); vm_compute; exact I
      |exact I|apply kh256_length]).
Defined.

(** The strings are not escaped: for any two entries there is one entry whose
    JSON is that of the two, so a log of one entry exports as a log of two. *)
Theorem one_entry_exports_as_two (e1 e2 : AuditEntry) (k c : list byte) :
  exists e,
    capability e = capability e2 /\ identity_key e = identity_key e2 /\
    occurred_at_ms e = occurred_at_ms e2 /\ signature e = signature e2 /\
    export_json (mkLog k c [e]) = export_json (mkLog k c [e1; e2]).
Proof.
  exists {|
    event_type := event_type e1 ++ [Records.dquote] ++
      lit "," ++ quoted (lit "capability") ++ lit ":" ++ cap_field (capability e1) ++
      lit "," ++ quoted (lit "identity_key") ++ lit ":" ++ Records.peer_key_field (identity_key e1) ++
      lit "," ++ quoted (lit "occurred_at_ms") ++ lit ":" ++ decimal (occurred_at_ms e1) ++
      lit "," ++ quoted (lit "signature") ++ lit ":" ++ quoted (hex (signature e1)) ++
      lit "}," ++ lit "{" ++ quoted (lit "event_type") ++ lit ":" ++ [Records.dquote] ++ event_type e2;
    capability := capability e2; identity_key := identity_key e2;
    occurred_at_ms := occurred_at_ms e2; signature := signature e2 |}.
  do 4 (split; [done|]). unfold export_json. cbn [entries push_entries]. do 3 f_equal.
  rewrite !app_nil_r. unfold entry_to_json, Records.quoted.
  cbn [event_type capability identity_key occurred_at_ms signature].
  repeat (rewrite <- app_comm_cons || rewrite <- app_assoc || rewrite app_nil_l). done.
Qed.

(** C33: a document is accepted exactly when it is a body, the hexadecimal of 32
    key bytes, the marker, the hexadecimal of 64 signature bytes and the closing
    text, the key is valid and is the expected one if one is expected, and
    the signature verifies on everything before its marker; and the document
    [export_signed_json] makes is accepted, whatever the log says, exactly when
    no signer or its own is expected. *)
Theorem signed_export_checked `{Ed25519Laws} (l : AuditLog) (signing_key : list byte) (document : str)
    (expected : option (list byte)) :
  (verify_signed_export document expected = true <->
   exists body key_hex sig_hex,
     document = document_of body key_hex sig_hex /\ accepted body key_hex sig_hex expected) /\
  (verify_signed_export (export_signed_json l signing_key) expected = true <->
   expected = None \/ expected = Some (verifying_key signing_key)).
Proof.
  split.
  - split.
    + intros Hv. destruct (verify_splits _ _ Hv) as (body & kh & sh & -> & Hk & Hs).
      exists body, kh, sh. split; [done|]. by apply verify_document.
    + intros (body & kh & sh & -> & Ha). apply verify_document; [| |done];
        destruct Ha as (kb & sb & Hk & Hs & _); by eapply hex_decode_hex.
  - rewrite export_signed_eq, verify_document by apply hex_is_hex. unfold accepted.
    rewrite !hex_decode_of by (apply verifying_key_length || apply sign_length).
    rewrite <- signed_payload_eq. split.
    + intros (? & ? & [= <-] & _ & He & _). destruct expected as [e|]; [right; by rewrite He|by left].
    + intros Hx. exists (verifying_key signing_key), (sign signing_key (as_bytes (signed_payload l signing_key))).
      split_and!; [done|done|by destruct Hx as [-> | ->]|apply verifying_key_ok|apply sign_verifies].
Qed.

(** ** A signature scheme for the examples *)
Definition toy_public (k : list byte) : list byte := take 32 (k ++ zeros).

#[local] Instance toy_ed25519 : Ed25519 := {
  verifying_key := toy_public;
  from_bytes_ok k := bool_decide (length k = 32%nat);
  sign k m := kh256 (toy_public k) m ++ kh256 (toy_public k) (m ++ m);
  verify_strictly p m s := bool_decide (s = kh256 p m ++ kh256 p (m ++ m));
}.

#[local] Instance toy_ed25519_laws : Ed25519Laws.
Proof.
  assert (Hl : forall k, length (toy_public k) = 32%nat).
  { intros k. unfold toy_public. rewrite length_take, length_app. change (length zeros) with 32%nat. lia. }
  split; cbn [verifying_key from_bytes_ok sign verify_strictly toy_ed25519].
  - done.
  - intros k. by rewrite bool_decide_true.
  - intros k m. by rewrite length_app, !kh256_length.
  - intros k m. by rewrite bool_decide_true.
Qed.

Lemma signed_export_checked_witness :
  let l := append (new zeros) (lit "view_granted") (Some (lit "view")) 5 in
  let doc := export_signed_json l (repeat Byte.x07 32) in
  verify_signed_export doc (Some (repeat Byte.x07 32)) = true /\
  (verify_signed_export doc None = true <->
   exists body key_hex sig_hex, doc = document_of body key_hex sig_hex /\ accepted body key_hex sig_hex None).
Proof.
  cbn zeta. split.
  - refine (proj2 (proj2 (signed_export_checked (append (new zeros) (lit "view_granted") (Some (lit "view")) 5)
      (repeat Byte.x07 32) [] (Some (repeat Byte.x07 32)))) (or_intror eq_refl)).
  - refine (proj1 (signed_export_checked (new zeros) zeros _ None)).
Defined.

(** An edit under the signature is seen. *)
Example edits_are_seen :
  let doc := export_signed_json (new zeros) (repeat Byte.x07 32) in
  verify_signed_export (take 11 doc ++ [0x20] ++ drop 11 doc) None = false.
Proof. vm_compute. done. Qed.
