(* ===== verification/Ledger.v ===== *)
(** Calls that obtain and give back operating-system objects: a result with the
    trace of what was obtained and freed, and what is left after a trace.  The
    capture back ends ([MicCapture], [ScreenCapture]) are written in it; it also
    has [LibPw::load] of both. *)
From S2P Require Import Prelude.

Inductive Op (R : Type) := Obtain (r : R) | Use (r : R) | Free (r : R).
Arguments Obtain {R} r.
Arguments Use {R} r.
Arguments Free {R} r.

(** ** The monad *)
Definition Os (R E A : Type) : Type := list (Op R) * result E A.

Definition ret {R E A} (a : A) : Os R E A := ([], Ok a).
Definition throw {R E A} (e : E) : Os R E A := ([], Err e).
Definition tell {R E} (o : Op R) : Os R E unit := ([o], Ok tt).

Definition bind {R E A B} (m : Os R E A) (f : A -> Os R E B) : Os R E B :=
  match m with
  | (t, Ok a) => let '(t', r) := f a in (t ++ t', r)
  | (t, Err e) => (t, Err e)
  end.

Declare Scope os_scope.
Delimit Scope os_scope with os.
Notation "m ;; k" := (bind m (fun _ => k)) (at level 100, k at level 200, right associativity) : os_scope.
Notation "'let!' x := m 'in' k" := (bind m (fun x => k)) (at level 200, x binder, k at level 200) : os_scope.

(** A call that fills an out-pointer when it succeeds. *)
Definition obtain {R E} (succeeded : bool) (r : R) : Os R E unit :=
  if succeeded then tell (Obtain r) else ret tt.

(** [if failed { return Err(e) }]. *)
Definition ensure {R E} (ok : bool) (e : E) : Os R E unit := if ok then ret tt else throw e.

(** A library opened with [dlopen] and its symbols: a missing one closes it. *)
Fixpoint load_symbols {R E} (lib : R) (syms : list bool) : Os R E bool :=
  match syms with
  | [] => ret true
  | true :: syms => load_symbols lib syms
  | false :: _ => (tell (Free lib) ;; ret false)%os
  end.

Definition load_library {R E} (lib : R) (dlopen : bool) (dlsym : list bool) : Os R E bool :=
  if negb dlopen then ret false
  else (tell (Obtain lib) ;; load_symbols lib dlsym)%os.

Lemma load_library_eq {R E} (lib : R) dlopen dlsym :
  load_library (E := E) lib dlopen dlsym =
    if dlopen
    then if forallb id dlsym then ([Obtain lib], Ok true) else ([Obtain lib; Free lib], Ok false)
    else ([], Ok false).
Proof.
  unfold load_library. destruct dlopen; [|done]. cbn [negb].
  induction dlsym as [|[] l IH]; [done|apply IH|done].
Qed.

(** ** What a trace leaves *)
Section ledger.
Context {R : Type} `{EqDecision R}.
Implicit Types (l : list R) (t : list (Op R)).

Fixpoint remove_one (r : R) (l : list R) : list R :=
  match l with
  | [] => []
  | x :: l => if decide (r = x) then l else x :: remove_one r l
  end.

(** The objects live after a trace; [None] when it uses or frees one that is not. *)
Fixpoint live_after (l : list R) (t : list (Op R)) : option (list R) :=
  match t with
  | [] => Some l
  | Obtain r :: t => live_after (r :: l) t
  | Use r :: t => if decide (r ∈ l) then live_after l t else None
  | Free r :: t => if decide (r ∈ l) then live_after (remove_one r l) t else None
  end.

(** The trace and what is live when the call returns. *)
Definition leaves {E A} (m : Os R E A) (l : list R) : option (list R) := live_after l (fst m).

Lemma live_after_app l t1 t2 : live_after l (t1 ++ t2) = (l' ← live_after l t1; live_after l' t2).
Proof.
  revert l. induction t1 as [|[r|r|r] t1 IH]; intros l; cbn [app live_after]; [done|apply IH|case_decide..];
    first [apply IH | done].
Qed.
End ledger.
