(* ===== verification/MicCapture.v ===== *)
(** The microphone: [core/platform/src/mic_capture.rs].

    The three back ends, each in a Module: [Wasapi] (Windows), [CoreAudio]
    (macOS) and [PipeWire] (Linux).  The operating system is what it answers: a
    list of packets, of callbacks, of results; the objects obtained and released
    are a trace of [Ledger].  The ring buffer the last two share is in [Ring]; a
    [usize] index into it is a [nat]. *)
From S2P Require Import Prelude Ledger.
#[local] Open Scope N_scope.

Definition MIC_SAMPLE_RATE : N := 48000.
Definition MIC_CHANNELS : N := 1.
Definition MIC_FRAME_MS : N := 10.
Definition MIC_FRAME_SAMPLES : nat := N.to_nat (MIC_SAMPLE_RATE / 1000 * MIC_FRAME_MS).

Record MicFrame := mkFrame { samples : list Z; sequence : N }.

Inductive MicCaptureError :=
| PermissionDenied
| DeviceUnavailable
| Underrun
| OsError (code : Z).

#[export] Instance MicCaptureError_eq_dec : EqDecision MicCaptureError.
Proof. solve_decision. Defined.

(** ** The ring of samples *)
Module Ring.
Record RingBuf := mkRing { buf : list Z; head : nat; tail : nat; cap : nat }.

Definition new (capacity : nat) : RingBuf :=
  {| buf := repeat 0%Z capacity; head := 0; tail := 0; cap := capacity |}.

(** One round of the loop of [push_slice]: the head does not move. *)
Definition push_sample (r : RingBuf) (s : Z) : RingBuf :=
  {| buf := <[tail r := s]> (buf r); head := head r; tail := (tail r + 1) mod cap r; cap := cap r |}.

Definition push_slice (r : RingBuf) (data : list Z) : RingBuf := fold_left push_sample data r.

Definition available (r : RingBuf) : nat := (tail r + cap r - head r) mod cap r.

Fixpoint drain_into (r : RingBuf) (dst : list Z) (n : nat) : RingBuf * list Z :=
  match n with
  | O => (r, dst)
  | S n =>
      drain_into {| buf := buf r; head := (head r + 1) mod cap r; tail := tail r; cap := cap r |}
        (dst ++ [nth (head r) (buf r) 0%Z]) n
  end.

(** The samples between the head and the tail. *)
Definition slot (r : RingBuf) (i : nat) : Z := nth ((head r + i) mod cap r) (buf r) 0%Z.
Definition content (r : RingBuf) : list Z := map (slot r) (seq 0 (available r)).

Definition ok (r : RingBuf) : Prop :=
  length (buf r) = cap r /\ (head r < cap r)%nat /\ (tail r < cap r)%nat.

(** What a push does to the samples held: the one that fills the ring empties it. *)
Definition fifo_push (capacity : nat) (q : list Z) (s : Z) : list Z :=
  if decide (S (length q) = capacity) then [] else q ++ [s].

Section ring.
Implicit Types (r : RingBuf).

Lemma ring_new_ok n : (0 < n)%nat -> ok (new n).
Proof. intros Hn. unfold ok, new. cbn. rewrite repeat_length. lia. Qed.

Lemma wrapped a n : (0 < n)%nat -> (a < 2 * n)%nat -> (a mod n = if decide (a < n) then a else a - n)%nat.
Proof.
  intros Hn Ha. case_decide; [by apply Nat.mod_small|].
  rewrite <- (Nat.mod_small (a - n) n) by lia. rewrite <- (Nat.Div0.mod_add (a - n) 1 n). f_equal. lia.
Qed.

(** The tail is the head plus what is available. *)
Lemma available_spec r : ok r -> (available r < cap r)%nat /\ tail r = ((head r + available r) mod cap r)%nat.
Proof.
  intros (_ & Hh & Ht). unfold available. rewrite (wrapped (tail r + cap r - head r)) by lia.
  case_decide; (split; [lia|]); rewrite wrapped by lia; case_decide; lia.
Qed.

Lemma push_ok r s : ok r -> ok (push_sample r s).
Proof.
  intros (Hb & Hh & Ht). unfold ok, push_sample. cbn. rewrite length_insert. split_and!; [done|done|].
  apply Nat.mod_upper_bound. lia.
Qed.

Lemma content_length r : length (content r) = available r.
Proof. unfold content. by rewrite length_map, length_seq. Qed.

Lemma push_available r s :
  ok r -> available (push_sample r s) = if decide (S (available r) = cap r) then O else S (available r).
Proof.
  intros Ho. destruct (available_spec r Ho) as [Ha Et]. destruct Ho as (Hb & Hh & Ht).
  unfold available at 1. cbn [push_sample head tail cap]. rewrite Et in Ht |- *. clear Et.
  rewrite (wrapped (head r + available r)) in * by lia.
  rewrite (wrapped (_ + 1)) by (case_decide; lia).
  rewrite wrapped by (repeat case_decide; lia). repeat case_decide; lia.
Qed.

(** A push appends, or empties the ring when it fills it. *)
Lemma push_content r s : ok r -> content (push_sample r s) = fifo_push (cap r) (content r) s.
Proof.
  intros Ho. unfold fifo_push. rewrite content_length. unfold content at 1.
  rewrite push_available by done. destruct (decide (S (available r) = cap r)); [done|].
  rewrite seq_S, map_app. cbn [map]. destruct (available_spec r Ho) as [Ha Et].
  destruct Ho as (Hb & Hh & Ht). f_equal.
  - apply map_ext_in. intros i Hi%in_seq. unfold slot. cbn [push_sample head tail buf cap].
    rewrite !nth_lookup, list_lookup_insert_ne; [done|]. rewrite Et.
    rewrite !wrapped by lia. repeat case_decide; lia.
  - unfold slot. cbn [push_sample head tail buf cap Nat.add]. rewrite <- Et, nth_lookup, list_lookup_insert_eq by lia. done.
Qed.

Lemma push_slice_ok r d : ok r -> ok (push_slice r d).
Proof. revert r. induction d as [|s d IH]; intros r Ho; [done|]. by apply IH, push_ok. Qed.

Lemma push_slice_cap r d : cap (push_slice r d) = cap r.
Proof. revert r. induction d as [|s d IH]; intros r; [done|]. unfold push_slice in *. cbn. by rewrite IH. Qed.

Lemma push_slice_content r d :
  ok r -> content (push_slice r d) = fold_left (fifo_push (cap r)) d (content r).
Proof.
  revert r. induction d as [|s d IH]; intros r Ho; [done|]. unfold push_slice in *. cbn [fold_left].
  rewrite IH by (by apply push_ok). by rewrite push_content.
Qed.

Lemma drain_spec r dst n :
  ok r -> (n <= available r)%nat ->
  let '(r', out) := drain_into r dst n in
  ok r' /\ cap r' = cap r /\ out = dst ++ take n (content r) /\ content r' = drop n (content r).
Proof.
  revert r dst. induction n as [|n IH]; intros r dst Ho Hn; cbn [drain_into].
  { rewrite take_0, app_nil_r, drop_0. done. }
  set (r1 := {| buf := buf r; head := (head r + 1) mod cap r; tail := tail r; cap := cap r |}).
  destruct (available_spec r Ho) as [Ha Et]. pose proof Ho as (Hb & Hh & Ht).
  assert (Ho1 : ok r1) by (unfold ok, r1; cbn; split_and!; [done|apply Nat.mod_upper_bound; lia|done]).
  assert (Ea : S (available r1) = available r).
  { unfold available at 1. cbn [r1 head tail cap]. rewrite Et in Ht |- *. clear Et.
    rewrite (wrapped (head r + available r)) in * by lia. rewrite (wrapped (head r + 1)) by lia.
    rewrite wrapped by (repeat case_decide; lia). repeat case_decide; lia. }
  assert (Ec : content r = nth (head r) (buf r) 0%Z :: content r1).
  { unfold content at 1. rewrite <- Ea. cbn [seq map]. f_equal.
    - unfold slot. by rewrite Nat.add_0_r, Nat.mod_small.
    - rewrite <- seq_shift, map_map. apply map_ext_in. intros i Hi%in_seq. unfold slot, r1. cbn [head cap buf].
      f_equal. rewrite (wrapped (head r + 1)) by lia. rewrite !wrapped by (repeat case_decide; lia).
      repeat case_decide; lia. }
  specialize (IH r1 (dst ++ [nth (head r) (buf r) 0%Z]) Ho1 ltac:(lia)).
  destruct (drain_into r1 _ n) as [r' out]. destruct IH as (H1 & H2 & H3 & H4).
  split; [done|]. split; [done|]. rewrite Ec. cbn [take drop]. by rewrite H3, <- app_assoc, H4.
Qed.
End ring.
End Ring.

(** A back end with a ring: the frames are taken off it under a lock. *)
Record RingBackend := mkRingBackend { ring : Ring.RingBuf; next_seq : N }.

Definition ring_backend_new : RingBackend :=
  {| ring := Ring.new (MIC_FRAME_SAMPLES * 16); next_seq := 0 |}.

(** The frame, when the ring has enough samples; [self.sequence += 1] wraps. *)
Definition take_frame (b : RingBackend) : option (RingBackend * MicFrame) :=
  if (Ring.available (ring b) <? MIC_FRAME_SAMPLES)%nat then None
  else
    let '(r, out) := Ring.drain_into (ring b) [] MIC_FRAME_SAMPLES in
    Some ({| ring := r; next_seq := wrapping_add 64 (next_seq b) 1 |},
          {| samples := out; sequence := next_seq b |}).

Definition captured (b : RingBackend) (data : list Z) : RingBackend :=
  {| ring := Ring.push_slice (ring b) data; next_seq := next_seq b |}.

(** ** macOS: the audio unit and its callback *)
Module CoreAudio.
Inductive Handle := AudioUnit.

#[global] Instance Handle_eq_dec : EqDecision Handle.
Proof. solve_decision. Defined.

(** What the calls of [open] answer, in their order; the two that enable and
    disable the buses are not looked at. *)
Record Answers := mkAnswers {
  component_found : bool; instance_new : Z; set_format : Z; set_callback : Z; initialize : Z; start : Z }.

Definition dispose_unless (ok : bool) (e : MicCaptureError) : Os Handle MicCaptureError unit :=
  if ok then ret tt else (tell (Free AudioUnit) ;; throw e)%os.

Definition open (a : Answers) : Os Handle MicCaptureError RingBackend :=
  (ensure (component_found a) DeviceUnavailable ;;
   obtain (instance_new a =? 0)%Z AudioUnit ;;
   ensure (instance_new a =? 0)%Z DeviceUnavailable ;;
   dispose_unless (set_format a =? 0)%Z (OsError (-1)) ;;
   dispose_unless (set_callback a =? 0)%Z (OsError (-2)) ;;
   dispose_unless ((initialize a =? 0)%Z && (start a =? 0)%Z) (OsError (-3)) ;;
   ret ring_backend_new)%os.

Definition drop_backend : Os Handle MicCaptureError unit := tell (Free AudioUnit).

(** The samples of the buffer list's first buffer go into the ring. *)
Definition capture_callback (b : RingBackend) (data : list Z) : RingBackend := captured b data.

Definition acquire_frame (b : RingBackend) : RingBackend * result MicCaptureError MicFrame :=
  match take_frame b with
  | None => (b, Err Underrun)
  | Some (b, f) => (b, Ok f)
  end.
End CoreAudio.

(** ** Linux: the PipeWire stream and its thread *)
Module PipeWire.
Inductive Handle := Library | MainLoop | Context | Stream.

#[global] Instance Handle_eq_dec : EqDecision Handle.
Proof. solve_decision. Defined.

Record Answers := mkAnswers {
  dlopen : bool; dlsym : list bool; main_loop_new : bool; stream_new : bool; stream_connect : Z }.

(** [LibPw::load]. *)
Definition load (a : Answers) : Os Handle MicCaptureError bool :=
  load_library Library (dlopen a) (dlsym a).

Definition open (a : Answers) : Os Handle MicCaptureError RingBackend :=
  (let! loaded := load a in
   ensure loaded DeviceUnavailable ;;
   obtain (main_loop_new a) MainLoop ;;
   ensure (main_loop_new a) DeviceUnavailable ;;
   tell (Obtain Context) ;;
   obtain (stream_new a) Stream ;;
   (if stream_new a then ret tt
    else tell (Free Context) ;; tell (Free MainLoop) ;; throw DeviceUnavailable) ;;
   (if (stream_connect a <? 0)%Z
    then tell (Free Stream) ;; tell (Free Context) ;; tell (Free MainLoop) ;;
         throw (OsError (stream_connect a))
    else ret tt) ;;
   ret ring_backend_new)%os.

(** [Drop] quits the main loop and frees nothing. *)
Definition drop_backend : Os Handle MicCaptureError unit := ret tt.

(** What [pw_stream_dequeue_buffer] answers: no buffer, or one with its data
    blocks, each with its mapped memory and the chunk's [size] in bytes. *)
Record SpaData := mkSpa { data : option (list byte); chunk_size : N }.

Inductive Dequeued := NoBuffer | Buffer (spa : option (list SpaData)).

(** [from_raw_parts(data as *const i16, n)]. *)
Fixpoint i16s (n : nat) (l : list byte) : list Z :=
  match n, l with
  | S n, a :: b :: l => i16_value [a; b] :: i16s n l
  | _, _ => []
  end.

Record Processed := mkProcessed { backend : RingBackend; notified : bool; requeued : bool }.

Definition on_process (b : RingBackend) (d : Dequeued) : Processed :=
  match d with
  | NoBuffer => {| backend := b; notified := false; requeued := false |}
  | Buffer (None | Some []) => {| backend := b; notified := false; requeued := true |}
  | Buffer (Some (d :: _)) =>
      match data d with
      | None => {| backend := b; notified := false; requeued := true |}
      | Some mem =>
          if chunk_size d =? 0 then {| backend := b; notified := false; requeued := true |}
          else {| backend := captured b (i16s (N.to_nat (chunk_size d / 2)) mem);
                  notified := true; requeued := true |}
      end
  end.

(** The wait loop of [acquire_frame]: the condition is looked at first, and after
    each notification; [None] while it waits for more than the buffers given. *)
Fixpoint acquire_frame (b : RingBackend) (coming : list Dequeued) :
    option (RingBackend * MicFrame * list Dequeued) :=
  match take_frame b with
  | Some (b, f) => Some (b, f, coming)
  | None =>
      match coming with
      | [] => None
      | d :: coming => acquire_frame (backend (on_process b d)) coming
      end
  end.
End PipeWire.

(** ** Windows: WASAPI *)
Module Wasapi.
Inductive Handle := Enumerator | Device | AudioClient | CaptureClient.

#[global] Instance Handle_eq_dec : EqDecision Handle.
Proof. solve_decision. Defined.

(** The [HRESULT]s of [open]; a negative one is a failure. *)
Record Answers := mkAnswers {
  create : Z; get_default : Z; activate : Z; initialize : Z; get_service : Z; start : Z }.

Definition failed (hr : Z) : bool := (hr <? 0)%Z.
Definition E_ACCESSDENIED : Z := i32 0x80070005.

Definition open (a : Answers) : Os Handle MicCaptureError N :=
  (obtain (negb (failed (create a))) Enumerator ;;
   ensure (negb (failed (create a))) (OsError (create a)) ;;
   obtain (negb (failed (get_default a))) Device ;;
   tell (Free Enumerator) ;;
   ensure (negb (failed (get_default a)))
     (if (get_default a =? E_ACCESSDENIED)%Z then PermissionDenied else DeviceUnavailable) ;;
   obtain (negb (failed (activate a))) AudioClient ;;
   tell (Free Device) ;;
   ensure (negb (failed (activate a))) (OsError (activate a)) ;;
   (if failed (initialize a) then tell (Free AudioClient) ;; throw (OsError (initialize a)) else ret tt) ;;
   obtain (negb (failed (get_service a))) CaptureClient ;;
   (if failed (get_service a) then tell (Free AudioClient) ;; throw (OsError (get_service a)) else ret tt) ;;
   (if failed (start a)
    then tell (Free CaptureClient) ;; tell (Free AudioClient) ;; throw (OsError (start a)) else ret tt) ;;
   ret 0)%os.

Definition drop_backend : Os Handle MicCaptureError unit :=
  (tell (Free CaptureClient) ;; tell (Free AudioClient))%os.

(** A round of [acquire_frame]: what [GetNextPacketSize] and [GetBuffer] answer. *)
Record Packet := mkPacket {
  hr_next : Z; packet_frames : N; hr_get : Z; frames : list Z; flags : N }.

(** [AUDCLNT_BUFFERFLAGS_SILENT]. *)
Definition silent (p : Packet) : bool := negb (N.land (flags p) 2 =? 0).

Definition audible (p : Packet) (need : nat) : list Z :=
  if silent p then repeat 0%Z need else take need (frames p).

(** [None]: the packets run out before the call returns. *)
Fixpoint acquire_loop (out : list Z) (seq : N) (ps : list Packet) :
    option (N * result MicCaptureError MicFrame * list Packet) :=
  if (MIC_FRAME_SAMPLES <=? length out)%nat
  then Some (wrapping_add 64 seq 1, Ok {| samples := out; sequence := seq |}, ps)
  else
    match ps with
    | [] => None
    | p :: ps =>
        if failed (hr_next p) then Some (seq, Err (OsError (hr_next p)), ps)
        else if packet_frames p =? 0 then Some (seq, Err Underrun, ps)
        else if failed (hr_get p) then Some (seq, Err (OsError (hr_get p)), ps)
        else
          let need := Nat.min (MIC_FRAME_SAMPLES - length out) (length (frames p)) in
          acquire_loop (out ++ audible p need) seq ps
    end.

Definition acquire_frame (seq : N) (ps : list Packet) := acquire_loop [] seq ps.
End Wasapi.

(** ** Handles *)
Section handles.

(** Windows: whatever the calls answer, [open] that fails has released what it
    obtained, and [drop] releases what [open] kept. *)
Theorem wasapi_handles_balance (a : Wasapi.Answers) :
  leaves (Wasapi.open a) [] =
    Some match snd (Wasapi.open a) with
         | Ok _ => [Wasapi.CaptureClient; Wasapi.AudioClient] | Err _ => [] end /\
  leaves Wasapi.drop_backend [Wasapi.CaptureClient; Wasapi.AudioClient] = Some [].
Proof.
  split; [|done]. unfold Wasapi.open.
  destruct (Wasapi.failed (Wasapi.create a)); [done|].
  destruct (Wasapi.failed (Wasapi.get_default a)); [done|].
  destruct (Wasapi.failed (Wasapi.activate a)); [done|].
  destruct (Wasapi.failed (Wasapi.initialize a)); [done|].
  destruct (Wasapi.failed (Wasapi.get_service a)); [done|].
  by destruct (Wasapi.failed (Wasapi.start a)).
Qed.

(** macOS: the same of the audio unit. *)
Theorem core_audio_handles_balance (a : CoreAudio.Answers) :
  leaves (CoreAudio.open a) [] =
    Some match snd (CoreAudio.open a) with Ok _ => [CoreAudio.AudioUnit] | Err _ => [] end /\
  leaves CoreAudio.drop_backend [CoreAudio.AudioUnit] = Some [].
Proof.
  split; [|done]. unfold CoreAudio.open.
  destruct (CoreAudio.component_found a); [|done].
  destruct (CoreAudio.instance_new a =? 0)%Z; [|done].
  destruct (CoreAudio.set_format a =? 0)%Z; [|done].
  destruct (CoreAudio.set_callback a =? 0)%Z; [|done].
  by destruct (CoreAudio.initialize a =? 0)%Z, (CoreAudio.start a =? 0)%Z.
Qed.

(** Linux: [open] that fails once the library is loaded leaves it loaded, and
    [drop] leaves everything [open] obtained. *)
Theorem pipewire_handles_leak (a : PipeWire.Answers) :
  leaves (PipeWire.open a) [] =
    Some match snd (PipeWire.open a) with
         | Ok _ => [PipeWire.Stream; PipeWire.Context; PipeWire.MainLoop; PipeWire.Library]
         | Err _ => if PipeWire.dlopen a && forallb id (PipeWire.dlsym a) then [PipeWire.Library] else []
         end /\
  forall l, leaves PipeWire.drop_backend l = Some l.
Proof.
  split; [|done]. unfold PipeWire.open. unfold PipeWire.load. rewrite load_library_eq.
  destruct (PipeWire.dlopen a); [|done]. destruct (forallb id (PipeWire.dlsym a)); [|done].
  destruct (PipeWire.main_loop_new a); [|done]. destruct (PipeWire.stream_new a); [|done].
  by destruct (PipeWire.stream_connect a <? 0)%Z.
Qed.
End handles.

(** ** The frames of a ring *)

(** The callback's captures and the consumer's calls, in the order of the lock. *)
Inductive Event := Captured (data : list Z) | Acquire.

Fixpoint run (b : RingBackend) (es : list Event) : RingBackend * list MicFrame :=
  match es with
  | [] => (b, [])
  | Captured d :: es => run (CoreAudio.capture_callback b d) es
  | Acquire :: es =>
      match CoreAudio.acquire_frame b with
      | (b, Ok f) => let '(b, fs) := run b es in (b, f :: fs)
      | (b, Err _) => run b es
      end
  end.

Definition capacity : nat := MIC_FRAME_SAMPLES * 16.

Definition data_of (e : Event) : list Z := match e with Captured d => d | Acquire => [] end.

(** The ring, holding [n] samples, is never filled. *)
Fixpoint fits (n : nat) (es : list Event) : Prop :=
  match es with
  | [] => True
  | Captured d :: es => (n + length d < capacity)%nat /\ fits (n + length d) es
  | Acquire :: es => fits (if decide (MIC_FRAME_SAMPLES <= n)%nat then n - MIC_FRAME_SAMPLES else n)%nat es
  end.

#[local] Opaque MIC_FRAME_SAMPLES.

Section frames.
Implicit Types (b : RingBackend) (es : list Event) (d : list Z).

Definition backend_ok b : Prop := Ring.ok (ring b) /\ Ring.cap (ring b) = capacity.

Lemma frame_samples : MIC_FRAME_SAMPLES = 480%nat.
Proof. reflexivity. Qed.

Lemma backend_new_ok : backend_ok ring_backend_new.
Proof. split; [|done]. apply Ring.ring_new_ok. rewrite frame_samples. lia. Qed.

Lemma captured_ok b d : backend_ok b -> backend_ok (captured b d).
Proof.
  intros [Ho Hc]. split; [by apply Ring.push_slice_ok|]. cbn [captured ring]. by rewrite Ring.push_slice_cap.
Qed.

Lemma fifo_fits c q d : (length q + length d < c)%nat -> fold_left (Ring.fifo_push c) d q = q ++ d.
Proof.
  revert q. induction d as [|s d IH]; intros q Hl; cbn [fold_left length] in *; [by rewrite app_nil_r|].
  unfold Ring.fifo_push at 2. rewrite decide_False by lia.
  rewrite IH by (rewrite length_app; cbn; lia). by rewrite <- app_assoc.
Qed.

(** A capture that fills the ring to its last slot empties it. *)
Lemma fifo_fills c q d :
  d <> [] -> (length q + length d = c)%nat -> fold_left (Ring.fifo_push c) d q = [].
Proof.
  destruct d as [|s d _] using rev_ind; [done|]. intros _. rewrite length_app. cbn. intros Hl.
  rewrite fold_left_app, (fifo_fits c q d) by lia. cbn. unfold Ring.fifo_push. rewrite decide_True; [done|].
  rewrite length_app. lia.
Qed.

Lemma captured_content b d :
  backend_ok b -> Ring.content (ring (captured b d)) =
  fold_left (Ring.fifo_push capacity) d (Ring.content (ring b)).
Proof. intros [Ho Hc]. cbn [captured ring]. by rewrite Ring.push_slice_content, Hc. Qed.

Lemma take_frame_spec b :
  backend_ok b ->
  match take_frame b with
  | None => (length (Ring.content (ring b)) < MIC_FRAME_SAMPLES)%nat
  | Some (b', f) =>
      (MIC_FRAME_SAMPLES <= length (Ring.content (ring b)))%nat /\ backend_ok b' /\
      samples f = take MIC_FRAME_SAMPLES (Ring.content (ring b)) /\
      Ring.content (ring b') = drop MIC_FRAME_SAMPLES (Ring.content (ring b)) /\
      sequence f = next_seq b /\ next_seq b' = wrapping_add 64 (next_seq b) 1
  end.
Proof.
  intros [Ho Hc]. unfold take_frame. rewrite Ring.content_length.
  destruct (Nat.ltb_spec (Ring.available (ring b)) MIC_FRAME_SAMPLES); [done|].
  pose proof (Ring.drain_spec (ring b) [] MIC_FRAME_SAMPLES Ho H) as Hd.
  destruct (Ring.drain_into _ _ _) as [r out]. destruct Hd as (H1 & H2 & H3 & H4).
  split; [done|]. split; [split; [done|cbn; congruence]|done].
Qed.

Lemma wrapping_succ k i : wrap 64 (wrapping_add 64 k 1 + i) = wrap 64 (k + (1 + i)).
Proof. unfold wrapping_add, wrap. rewrite N.Div0.add_mod_idemp_l. f_equal. lia. Qed.

Lemma run_frames b es :
  backend_ok b ->
  forall i f, snd (run b es) !! i = Some f ->
    length (samples f) = MIC_FRAME_SAMPLES /\ wrap 64 (sequence f) = wrap 64 (next_seq b + N.of_nat i).
Proof.
  revert b. induction es as [|[d|] es IH]; intros b Ho i f; cbn [run]; [done| |].
  { apply (IH (captured b d)). by apply captured_ok. }
  unfold CoreAudio.acquire_frame. pose proof (take_frame_spec b Ho) as Ht.
  destruct (take_frame b) as [[b' f']|]; [|by apply IH].
  destruct Ht as (Hl & Ho' & Hs & Hc & Hq & Hn). specialize (IH b' Ho'). destruct (run b' es) as [b2 fs].
  destruct i as [|i]; cbn [snd lookup list_lookup] in *.
  - intros [= <-]. rewrite Hs, length_take, Hq. split; [lia|]. f_equal. lia.
  - intros Hi. destruct (IH i f Hi) as [H1 H2]. split; [done|]. rewrite H2, Hn, wrapping_succ. f_equal. lia.
Qed.

Lemma run_stream b es :
  backend_ok b -> fits (length (Ring.content (ring b))) es ->
  concat (map samples (snd (run b es))) ++ Ring.content (ring (fst (run b es))) =
  Ring.content (ring b) ++ concat (map data_of es).
Proof.
  revert b. induction es as [|[d|] es IH]; intros b Ho Hf; cbn [run fits map concat data_of] in *.
  - by rewrite app_nil_r.
  - destruct Hf as [Hl Hf].
    assert (Hc : Ring.content (ring (captured b d)) = Ring.content (ring b) ++ d)
      by (rewrite captured_content by done; by apply fifo_fits).
    unfold CoreAudio.capture_callback. rewrite IH by (first [by apply captured_ok | by rewrite Hc, length_app]).
    by rewrite Hc, <- app_assoc.
  - unfold CoreAudio.acquire_frame. pose proof (take_frame_spec b Ho) as Ht.
    destruct (take_frame b) as [[b' f']|].
    + destruct Ht as (Hl & Ho' & Hs & Hc & _ & _). specialize (IH b' Ho').
      destruct (run b' es) as [b2 fs]. cbn [fst snd map concat] in *. rewrite <- app_assoc, IH.
      * rewrite Hs, Hc, app_assoc. by rewrite take_drop.
      * rewrite Hc, length_drop. by rewrite decide_True in Hf by done.
    + rewrite decide_False in Hf by lia. by apply IH.
Qed.
End frames.

(** C32: in any interleaving of captures and calls every frame has 480 samples
    and the frames are numbered from zero without a gap, so a number never tells
    of an overrun; and as long as the ring is not filled, the frames delivered,
    one after the other, followed by what is still in the ring, are exactly the
    samples captured. *)
Theorem microphone_frames (es : list Event) :
  let '(b, fs) := run ring_backend_new es in
  (forall i f, fs !! i = Some f ->
     length (samples f) = MIC_FRAME_SAMPLES /\ wrap 64 (sequence f) = wrap 64 (N.of_nat i)) /\
  (fits 0 es -> concat (map samples fs) ++ Ring.content (ring b) = concat (map data_of es)).
Proof.
  pose proof (run_frames ring_backend_new es backend_new_ok) as Hf.
  pose proof (run_stream ring_backend_new es backend_new_ok) as Hs.
  change (Ring.content (ring ring_backend_new)) with (@nil Z) in Hs.
  destruct (run ring_backend_new es) as [b fs]. split; [exact Hf|exact Hs].
Qed.

Lemma microphone_frames_witness :
  concat (map samples (snd (run ring_backend_new [Captured (repeat 7%Z 700); Acquire; Acquire]))) ++
    Ring.content (ring (fst (run ring_backend_new [Captured (repeat 7%Z 700); Acquire; Acquire])))
  = repeat 7%Z 700 ++ [].
Proof.
  pose proof (microphone_frames [Captured (repeat 7%Z 700); Acquire; Acquire]) as H.
  destruct (run _ _) as [b fs]. refine (proj2 H _). vm_compute. split; [lia|exact I].
Defined.

(** When the callback fills the ring, everything in it is lost: the next call
    answers [Underrun], and the frames after it go on from the same number. *)
Theorem overrun_is_silent (d d' : list Z) :
  length d = capacity -> (length d' < capacity)%nat ->
  let b := fst (run ring_backend_new [Captured d; Acquire; Captured d']) in
  snd (run ring_backend_new [Captured d; Acquire; Captured d']) = [] /\
  Ring.content (ring b) = d' /\ next_seq b = 0.
Proof.
  intros Hd Hd'. cbn [run]. unfold CoreAudio.capture_callback, CoreAudio.acquire_frame.
  assert (Ho := captured_ok _ d backend_new_ok).
  assert (Hc : Ring.content (ring (captured ring_backend_new d)) = []).
  { rewrite captured_content by apply backend_new_ok. apply fifo_fills; [|done]. intros ->.
    unfold capacity in Hd. rewrite frame_samples in Hd. cbn in Hd. lia. }
  pose proof (take_frame_spec _ Ho) as Ht. destruct (take_frame _) as [[b' f]|].
  { rewrite Hc, frame_samples in Ht. cbn in Ht. lia. }
  cbn [fst snd]. split; [done|]. split; [|done].
  rewrite captured_content, Hc by done. by apply fifo_fits.
Qed.

Lemma overrun_is_silent_witness :
  Ring.content (ring (fst (run ring_backend_new [Captured (repeat 1%Z capacity); Acquire; Captured [2%Z]]))) = [2%Z].
Proof.
  refine (proj1 (proj2 (overrun_is_silent (repeat 1%Z capacity) [2%Z] _ _))).
  - apply repeat_length.
  - apply Nat.ltb_lt. reflexivity.
Defined.

(** ** The waiting call of Linux *)
Definition buffer_samples (d : PipeWire.Dequeued) : list Z :=
  match d with
  | PipeWire.Buffer (Some (PipeWire.mkSpa (Some mem) size :: _)) => PipeWire.i16s (N.to_nat (size / 2)) mem
  | _ => []
  end.

Lemma on_process_captures b d :
  PipeWire.backend (PipeWire.on_process b d) = captured b (buffer_samples d).
Proof.
  destruct d as [|[[|[[mem|] size] spas]|]]; destruct b; try done. cbn [PipeWire.on_process buffer_samples PipeWire.data PipeWire.chunk_size].
  destruct (N.eqb_spec size 0) as [->|]; done.
Qed.

(** Every buffer taken from the stream is put back. *)
Theorem buffers_are_requeued (b : RingBackend) (d : PipeWire.Dequeued) :
  PipeWire.requeued (PipeWire.on_process b d) = match d with PipeWire.NoBuffer => false | PipeWire.Buffer _ => true end.
Proof.
  destruct d as [|[[|[[mem|] size] spas]|]]; try done; cbn [PipeWire.on_process PipeWire.data PipeWire.chunk_size].
  by destruct (size =? 0).
Qed.

(** The call returns as soon as the ring holds a frame: it consumes the buffers
    needed for that and no more, and loses no sample of theirs. *)
Theorem pipewire_call_returns (b : RingBackend) (coming : list PipeWire.Dequeued) :
  backend_ok b ->
  let total := (length (Ring.content (ring b)) + length (concat (map buffer_samples coming)))%nat in
  (MIC_FRAME_SAMPLES <= total < capacity)%nat ->
  exists b' f used rest,
    PipeWire.acquire_frame b coming = Some (b', f, rest) /\ coming = used ++ rest /\
    length (samples f) = MIC_FRAME_SAMPLES /\
    samples f ++ Ring.content (ring b') = Ring.content (ring b) ++ concat (map buffer_samples used) /\
    (used <> [] -> (length (Ring.content (ring b)) + length (concat (map buffer_samples (removelast used)))
                    < MIC_FRAME_SAMPLES)%nat).
Proof.
  cbn zeta. revert b. induction coming as [|d coming IH]; intros b Ho Hl; cbn [PipeWire.acquire_frame];
    pose proof (take_frame_spec b Ho) as Ht; destruct (take_frame b) as [[b' f]|].
  1, 3: destruct Ht as (Hn & Ho' & Hs & Hc & _); eexists b', f, [], _; split; [done|]; split; [done|];
    split; [rewrite Hs, length_take; lia|]; split; [|done]; rewrite Hs, Hc, take_drop; cbn; by rewrite app_nil_r.
  { cbn in Hl. lia. }
  rewrite on_process_captures. cbn [map concat] in Hl. rewrite length_app in Hl.
  assert (Hc : Ring.content (ring (captured b (buffer_samples d))) = Ring.content (ring b) ++ buffer_samples d).
  { rewrite captured_content by done. apply fifo_fits. lia. }
  destruct (IH (captured b (buffer_samples d))) as (b' & f & used & rest & Ha & Hr & Hlen & Hs & Hm).
  { by apply captured_ok. }
  { rewrite Hc, length_app. lia. }
  exists b', f, (d :: used), rest. split; [done|]. split; [by rewrite Hr|]. split; [done|].
  split; [rewrite Hs, Hc, <- app_assoc; done|]. intros _.
  destruct used as [|u used]; [cbn; lia|]. cbn [removelast map concat] in *. specialize (Hm ltac:(done)).
  rewrite Hc in Hm. rewrite !length_app in *. lia.
Qed.

Lemma pipewire_call_returns_witness :
  let buf := PipeWire.Buffer (Some [PipeWire.mkSpa (Some (repeat Byte.x01 960)) 960]) in
  exists b' f used rest,
    PipeWire.acquire_frame ring_backend_new [PipeWire.NoBuffer; buf; buf] = Some (b', f, rest) /\
    [PipeWire.NoBuffer; buf; buf] = used ++ rest.
Proof.
  cbn zeta.
  destruct (pipewire_call_returns ring_backend_new
    [PipeWire.NoBuffer; PipeWire.Buffer (Some [PipeWire.mkSpa (Some (repeat Byte.x01 960)) 960]);
     PipeWire.Buffer (Some [PipeWire.mkSpa (Some (repeat Byte.x01 960)) 960])] backend_new_ok)
    as (b' & f & used & rest & H1 & H2 & _).
  - split; [apply Nat.leb_le|apply Nat.ltb_lt]; vm_compute; reflexivity.
  - exists b', f, used, rest. split; [exact H1|exact H2].
Defined.

(** ** The packets of Windows *)
Definition good (p : Wasapi.Packet) : Prop :=
  (0 <= Wasapi.hr_next p)%Z /\ (0 <= Wasapi.hr_get p)%Z /\ Wasapi.packet_frames p <> 0.

(** The samples a packet stands for. *)
Definition heard (p : Wasapi.Packet) : list Z :=
  if Wasapi.silent p then repeat 0%Z (length (Wasapi.frames p)) else Wasapi.frames p.

Lemma heard_length p : length (heard p) = length (Wasapi.frames p).
Proof. unfold heard. case_ifs; [apply repeat_length|done]. Qed.

Lemma take_repeat {A} (x : A) n m : take n (repeat x m) = repeat x (Nat.min n m).
Proof. revert n. induction m as [|m IH]; intros [|n]; try done. cbn. by rewrite IH. Qed.

Lemma audible_take p n : (n <= length (Wasapi.frames p))%nat -> Wasapi.audible p n = take n (heard p).
Proof.
  intros Hn. unfold Wasapi.audible, heard. case_ifs; [|done]. rewrite take_repeat, Nat.min_l; done.
Qed.

Lemma acquire_loop_spec out seq ps :
  Forall good ps -> (length out <= MIC_FRAME_SAMPLES)%nat ->
  (MIC_FRAME_SAMPLES <= length out + length (concat (map heard ps)))%nat ->
  exists used rest,
    ps = used ++ rest /\
    Wasapi.acquire_loop out seq ps =
      Some (wrapping_add 64 seq 1,
            Ok {| samples := take MIC_FRAME_SAMPLES (out ++ concat (map heard used)); sequence := seq |}, rest) /\
    (MIC_FRAME_SAMPLES <= length out + length (concat (map heard used)))%nat /\
    (used <> [] -> (length out + length (concat (map heard (removelast used))) < MIC_FRAME_SAMPLES)%nat).
Proof.
  intros Hg. revert out. induction Hg as [|p ps (H1 & H2 & H3) Hg IH]; intros out Ho Hl; cbn [Wasapi.acquire_loop].
  { cbn in Hl. exists [], []. split; [done|]. rewrite (proj2 (Nat.leb_le _ _)) by lia. cbn [map concat].
    rewrite app_nil_r, take_ge by lia. cbn. split; [done|]. split; [lia|done]. }
  destruct (Nat.leb_spec MIC_FRAME_SAMPLES (length out)) as [Hm|Hm].
  { exists [], (p :: ps). cbn [map concat app]. rewrite app_nil_r, take_ge by lia. cbn. split_and!; try done. lia. }
  unfold Wasapi.failed. rewrite (proj2 (Z.ltb_ge _ _)), (proj2 (N.eqb_neq _ _)), (proj2 (Z.ltb_ge _ _)) by done.
  cbn [map concat] in Hl. rewrite length_app, heard_length in Hl.
  set (need := Nat.min _ _). assert (Hn : (need <= length (Wasapi.frames p))%nat) by lia.
  rewrite audible_take by done.
  assert (Hh : length (take need (heard p)) = need) by (rewrite length_take, heard_length; lia).
  destruct (IH (out ++ take need (heard p))) as (used & rest & E & Ha & Hu & Hmin).
  { rewrite length_app, Hh. lia. }
  { rewrite length_app, Hh. lia. }
  exists (p :: used), rest. split; [by rewrite E|]. rewrite Ha. cbn [map concat]. rewrite length_app in Hu, Hmin.
  rewrite Hh in Hu, Hmin. rewrite !length_app, heard_length.
  destruct (decide (need = length (Wasapi.frames p))) as [En|En].
  - rewrite (take_ge (heard p)) by (rewrite heard_length; lia). rewrite <- app_assoc. split; [done|]. split; [lia|].
    intros _. destruct used as [|u used]; [cbn; lia|]. cbn [removelast map concat] in *. specialize (Hmin ltac:(done)).
    rewrite length_app, heard_length. lia.
  - destruct used as [|u used]; [|exfalso; specialize (Hmin ltac:(done)); lia].
    cbn [map concat removelast length]. rewrite !app_nil_r. split; [|split; [lia|intros _; cbn; lia]].
    rewrite (take_ge (out ++ take need (heard p))) by (rewrite length_app, Hh; lia).
    rewrite take_app, (take_ge out) by lia. replace (MIC_FRAME_SAMPLES - length out)%nat with need by lia. done.
Qed.

(** On Windows a call gathers packets until it has 480 samples, answers the
    first 480 of what they stand for and leaves the later packets; the samples of
    its last packet beyond the 480th are in no frame, so a stream is delivered
    whole when the packets have 480 samples, and not otherwise. *)
Theorem wasapi_frame (seq : N) (ps : list Wasapi.Packet) :
  Forall good ps -> (MIC_FRAME_SAMPLES <= length (concat (map heard ps)))%nat ->
  exists used rest,
    ps = used ++ rest /\ used <> [] /\
    Wasapi.acquire_frame seq ps =
      Some (wrapping_add 64 seq 1,
            Ok {| samples := take MIC_FRAME_SAMPLES (concat (map heard used)); sequence := seq |}, rest) /\
    (length (concat (map heard (removelast used))) < MIC_FRAME_SAMPLES <= length (concat (map heard used)))%nat.
Proof.
  intros Hg Hl. destruct (acquire_loop_spec [] seq ps Hg) as (used & rest & E & Ha & Hu & Hm).
  { cbn. lia. }
  { done. }
  cbn in Hu, Hm. assert (Hn : used <> []) by (intros ->; rewrite frame_samples in Hu; cbn in Hu; lia).
  exists used, rest. split; [done|]. split; [done|]. split; [done|]. split; [by apply Hm|done].
Qed.

Definition packet_of (n : nat) : Wasapi.Packet := Wasapi.mkPacket 0 1 0 (repeat 5%Z n) 0.

Lemma wasapi_frame_witness :
  exists used rest,
    [packet_of 448; packet_of 448] = used ++ rest /\ used <> [] /\
    Wasapi.acquire_frame 0 [packet_of 448; packet_of 448] =
      Some (1, Ok {| samples := take MIC_FRAME_SAMPLES (concat (map heard used)); sequence := 0 |}, rest) /\
    (length (concat (map heard (removelast used))) < MIC_FRAME_SAMPLES <= length (concat (map heard used)))%nat.
Proof.
  refine (wasapi_frame 0 [packet_of 448; packet_of 448] _ _).
  - apply Forall_cons. split; [|apply Forall_cons; split; [|constructor]]; (split; [|split]); done.
  - apply Nat.leb_le. vm_compute. reflexivity.
Defined.

(** An underrun in the middle of a frame loses the samples gathered for it. *)
Theorem underrun_drops_the_partial_frame (seq : N) (p q : Wasapi.Packet) (ps : list Wasapi.Packet) :
  good p -> (length (Wasapi.frames p) < MIC_FRAME_SAMPLES)%nat ->
  (0 <= Wasapi.hr_next q)%Z -> Wasapi.packet_frames q = 0 ->
  Wasapi.acquire_frame seq (p :: q :: ps) = Some (seq, Err Underrun, ps).
Proof.
  intros (H1 & H2 & H3) Hp Hq1 Hq2. unfold Wasapi.acquire_frame. cbn [Wasapi.acquire_loop].
  unfold Wasapi.failed. rewrite (proj2 (Nat.leb_gt _ _)) by (rewrite frame_samples; cbn; lia).
  rewrite (proj2 (Z.ltb_ge _ _)), (proj2 (N.eqb_neq _ _)), (proj2 (Z.ltb_ge _ _)) by done.
  rewrite audible_take by lia. rewrite (proj2 (Nat.leb_gt _ _)).
  { by rewrite (proj2 (Z.ltb_ge _ _)), Hq2 by done. }
  rewrite length_app, length_take, heard_length. cbn [length]. lia.
Qed.

Lemma underrun_drops_the_partial_frame_witness :
  Wasapi.acquire_frame 3 [packet_of 448; Wasapi.mkPacket 0 0 0 [] 0] = Some (3, Err Underrun, []).
Proof.
  refine (underrun_drops_the_partial_frame 3 (packet_of 448) (Wasapi.mkPacket 0 0 0 [] 0) [] _ _ _ _).
  - split; [|split]; done.
  - apply Nat.ltb_lt. reflexivity.
  - done.
  - done.
Defined.
