(* ===== verification/ScreenCapture.v ===== *)
(** Screen capture: [core/platform/src/screen_capture.rs].

    The broker and its three back ends, each in a Module: [Dxgi] (Windows),
    [SCKit] (macOS) and [Portal] (Linux, PipeWire).  The operating system is what
    it answers: booleans for the calls that succeed, a function from addresses to
    bytes for the memory it maps.  Objects obtained, used and freed are a trace of
    [Ledger].  The hasher of the standard library is a parameter. *)
From S2P Require Import Prelude F64 Ledger.
#[local] Open Scope N_scope.

Record DirtyRect := mkRect { x : Z; y : Z; width : N; height : N }.

Record CursorShape := mkShape {
  shape_width : N; shape_height : N; hotspot_x : Z; hotspot_y : Z; shape_pixels : list byte }.

Record CaptureFrame := mkFrame {
  pixels : list byte; frame_width : N; frame_height : N; stride : N;
  dirty_rects : list DirtyRect; cursor_shape : option CursorShape }.

Inductive CaptureError := NotGranted | OsRejected | Unavailable | NoNewFrame.

(** A call panics or fails with an error of the source. *)
Inductive Failure := Panicked | Failed (e : CaptureError).

#[export] Instance CursorShape_eq_dec : EqDecision CursorShape.
Proof. solve_decision. Defined.

(** ** The broker *)

(** [DefaultHasher] over the fields of a shape. *)
Class ShapeHasher := hash_shape : CursorShape -> N.

Section broker.
Context `{ShapeHasher}.

Record CursorShapeCache := mkCache { seen : gset N }.

Definition cache_new : CursorShapeCache := {| seen := ∅ |}.

(** [self.seen.insert(h)]: true when the hash was not there. *)
Definition is_new (c : CursorShapeCache) (s : CursorShape) : CursorShapeCache * bool :=
  ({| seen := {[ hash_shape s ]} ∪ seen c |}, negb (bool_decide (hash_shape s ∈ seen c))).

Definition set_cursor (f : CaptureFrame) (s : option CursorShape) : CaptureFrame :=
  {| pixels := pixels f; frame_width := frame_width f; frame_height := frame_height f;
     stride := stride f; dirty_rects := dirty_rects f; cursor_shape := s |}.

(** The broker's [acquire_frame] after the back end's answer. *)
Definition acquire_frame (c : CursorShapeCache) (answer : result CaptureError CaptureFrame) :
    CursorShapeCache * result CaptureError CaptureFrame :=
  match answer with
  | Err e => (c, Err e)
  | Ok frame =>
      match cursor_shape frame with
      | None => (c, Ok frame)
      | Some shape =>
          let '(c, new) := is_new c shape in
          (c, Ok (if new then frame else set_cursor frame None))
      end
  end.

(** The frames of a session. *)
Fixpoint session (c : CursorShapeCache) (answers : list (result CaptureError CaptureFrame)) :
    list (result CaptureError CaptureFrame) :=
  match answers with
  | [] => []
  | a :: answers => let '(c, r) := acquire_frame c a in r :: session c answers
  end.
End broker.

(** ** Memory the operating system maps *)
Definition Memory : Type := N -> byte.

Definition read (m : Memory) (p : N) (n : nat) : list byte := map (fun i => m (p + N.of_nat i)) (seq 0 n).

Definition read_u32 (m : Memory) (p : N) : N := le_value (read m p 4).
Definition read_i32 (m : Memory) (p : N) : Z := as_signed 32 (read_u32 m p).
Definition read_ptr (m : Memory) (p : N) : N := le_value (read m p 8).

(** Rows of [row_bytes] bytes, [stride] apart, one after the other. *)
Definition pack_rows (m : Memory) (p stride row_bytes : N) (rows : nat) : list byte :=
  concat (map (fun r => read m (p + N.of_nat r * stride) (N.to_nat row_bytes)) (seq 0 rows)).

(** ** Windows: desktop duplication *)
Module Dxgi.
Inductive Handle :=
| Device | DeviceContext | Factory | Adapter | Output | Output1 | Duplication
| AcquiredFrame | Resource | Texture | Staging | Mapping.

#[global] Instance Handle_eq_dec : EqDecision Handle.
Proof. solve_decision. Defined.

Definition DXGI_ERROR_WAIT_TIMEOUT : Z := i32 0x887a0027.
Definition DXGI_ERROR_ACCESS_LOST : Z := i32 0x887a0026.
Definition POINTER_SHAPE_COLOR : N := 2.
Definition POINTER_SHAPE_MASKED_COLOR : N := 4.

(** Each call of [open] succeeds, with a pointer, or fails; the rectangle is
    the desktop's. *)
Record Answers := mkAnswers {
  create_device : bool; create_factory : bool; enum_adapters : bool; enum_outputs : bool;
  left : Z; top : Z; right : Z; bottom : Z; query_output1 : bool; duplicate_output : bool }.

Record Backend := mkBackend { width : N; height : N }.

Definition extent (a b : Z) : N := Z.abs_N (i32 (b - a)).

(** [com_release(context); com_release(device); return Err(e)]. *)
Definition bail (ok : bool) (e : CaptureError) : Os Handle Failure unit :=
  if ok then ret tt
  else (tell (Free DeviceContext) ;; tell (Free Device) ;; throw (Failed e))%os.

Definition open (a : Answers) : Os Handle Failure Backend :=
  (obtain (create_device a) Device ;; obtain (create_device a) DeviceContext ;;
   ensure (create_device a) (Failed Unavailable) ;;
   obtain (create_factory a) Factory ;;
   bail (create_factory a) Unavailable ;;
   obtain (enum_adapters a) Adapter ;;
   tell (Free Factory) ;;
   bail (enum_adapters a) Unavailable ;;
   obtain (enum_outputs a) Output ;;
   tell (Free Adapter) ;;
   bail (enum_outputs a) Unavailable ;;
   obtain (query_output1 a) Output1 ;;
   tell (Free Output) ;;
   bail (query_output1 a) Unavailable ;;
   obtain (duplicate_output a) Duplication ;;
   tell (Free Output1) ;;
   bail (duplicate_output a) NotGranted ;;
   ret {| width := extent (left a) (right a); height := extent (top a) (bottom a) |})%os.

Definition drop_backend : Os Handle Failure unit :=
  (tell (Use Duplication) ;; tell (Free Duplication) ;; tell (Free DeviceContext) ;; tell (Free Device))%os.

(** [RECT]; [GetFrameDirtyRects] fills the buffer and answers the bytes written. *)
Record Rect := mkRECT { r_left : Z; r_top : Z; r_right : Z; r_bottom : Z }.

Definition rect_of (r : Rect) : DirtyRect :=
  {| x := r_left r; y := r_top r;
     ScreenCapture.width := extent (r_left r) (r_right r);
     ScreenCapture.height := extent (r_top r) (r_bottom r) |}.

(** The buffer has room for one rectangle more than [needed] bytes hold;
    [buf[..n_rects]] beyond it panics. *)
Definition dirty_rects (needed : N) (filled : list Rect) (written : N) : result Failure (list DirtyRect) :=
  let n := N.to_nat (needed / 16 + 1) in
  let buf := take n (filled ++ repeat (mkRECT 0 0 0 0) n) in
  let n_rects := N.to_nat (written / 16) in
  if (n <? n_rects)%nat then Err Panicked else Ok (map rect_of (take n_rects buf)).

(** [DXGI_OUTDUPL_POINTER_SHAPE_INFO] and the buffer it describes. *)
Record PointerShapeInfo := mkInfo {
  shape_type : N; info_width : N; info_height : N; pitch : N; info_hot_x : Z; info_hot_y : Z }.

(** A row of the shape, padded with the zeros of the new vector; a row that
    starts past the buffer panics. *)
Definition shape_row (row_bytes pitch : N) (buf : list byte) (row : nat) : option (list byte) :=
  let src := N.of_nat row * pitch in
  let end_ := N.min (src + row_bytes) (lenN buf) in
  if lenN buf <? src then None
  else Some (take (N.to_nat (end_ - src)) (drop (N.to_nat src) buf) ++
             repeat Byte.x00 (N.to_nat (row_bytes - (end_ - src)))).

(** The shape when its buffer is not empty; [get_shape] is the call's result. *)
Definition read_shape (get_shape : Z) (psi : PointerShapeInfo) (buf : list byte) :
    result Failure (option CursorShape) :=
  if bool_decide (buf = []) then Ok None
  else if (0 <=? get_shape)%Z && (0 <? info_width psi) && (0 <? info_height psi) &&
          ((shape_type psi =? POINTER_SHAPE_COLOR) || (shape_type psi =? POINTER_SHAPE_MASKED_COLOR))
  then
    let row_bytes := wrap 32 (info_width psi * 4) in
    match mapM (shape_row row_bytes (pitch psi) buf) (seq 0 (N.to_nat (info_height psi))) with
    | None => Err Panicked
    | Some rows =>
        Ok (Some {| shape_width := info_width psi; shape_height := info_height psi;
                    hotspot_x := info_hot_x psi; hotspot_y := info_hot_y psi;
                    shape_pixels := concat rows |})
    end
  else Ok None.

(** What the calls of [acquire_frame] answer. *)
Record FrameAnswers := mkFrameAnswers {
  acquire_next : Z; resource : bool; metadata_size : N; filled : list Rect; written : N;
  get_shape : Z; shape_info : PointerShapeInfo; shape_buffer : list byte;
  query_texture : bool; create_texture : bool; map_texture : Z; mapped : Memory; row_pitch : N }.

Definition lift {A} (r : result Failure A) : Os Handle Failure A := ([], r).

Definition acquire_frame (b : Backend) (a : FrameAnswers) : Os Handle Failure CaptureFrame :=
  (obtain (0 <=? acquire_next a)%Z AcquiredFrame ;;
   obtain ((0 <=? acquire_next a)%Z && resource a) Resource ;;
   ensure (negb (acquire_next a =? DXGI_ERROR_WAIT_TIMEOUT)%Z) (Failed NoNewFrame) ;;
   ensure (negb (acquire_next a =? DXGI_ERROR_ACCESS_LOST)%Z) (Failed OsRejected) ;;
   ensure ((0 <=? acquire_next a)%Z && resource a) (Failed OsRejected) ;;
   let! rects := lift (dirty_rects (metadata_size a) (filled a) (written a)) in
   let! shape := lift (read_shape (get_shape a) (shape_info a) (shape_buffer a)) in
   obtain (query_texture a) Texture ;;
   tell (Free Resource) ;;
   (if query_texture a then ret tt else tell (Free AcquiredFrame) ;; throw (Failed OsRejected)) ;;
   obtain (create_texture a) Staging ;;
   (if create_texture a then ret tt
    else tell (Free Texture) ;; tell (Free AcquiredFrame) ;; throw (Failed OsRejected)) ;;
   tell (Free Texture) ;;
   tell (Free AcquiredFrame) ;;
   obtain (0 <=? map_texture a)%Z Mapping ;;
   (if (map_texture a <? 0)%Z then tell (Free Staging) ;; throw (Failed OsRejected) else ret tt) ;;
   let row_bytes := wrap 32 (width b * 4) in
   let pixels := pack_rows (mapped a) 0 (row_pitch a) row_bytes (N.to_nat (height b)) in
   tell (Free Mapping) ;; tell (Free Staging) ;;
   ret {| pixels := pixels; frame_width := width b; frame_height := height b; stride := row_bytes;
          ScreenCapture.dirty_rects := rects; cursor_shape := shape |})%os.
End Dxgi.

(** ** macOS: ScreenCaptureKit *)
Module SCKit.
Inductive Handle := Config | Filter | Stream | Delegate | SlotRef | PixelBuf (id : N).

#[global] Instance Handle_eq_dec : EqDecision Handle.
Proof. solve_decision. Defined.

Record Answers := mkAnswers {
  access_granted : bool; config : bool; filter : bool; stream : bool; class : bool; delegate : bool }.

(** A [CVPixelBuffer]; its memory from the base address. *)
Record PixelBuffer := mkPixelBuffer {
  id : N; pb_width : N; pb_height : N; bytes_per_row : N; base : Memory }.

Record FrameSlot := mkSlot {
  pixel_buf : option PixelBuffer; slot_rects : list DirtyRect; fresh : bool; error : bool }.

Definition slot_new : FrameSlot :=
  {| pixel_buf := None; slot_rects := []; fresh := false; error := false |}.

Definition open (a : Answers) : Os Handle Failure FrameSlot :=
  (ensure (access_granted a) (Failed NotGranted) ;;
   obtain (config a) Config ;;
   ensure (config a) (Failed Unavailable) ;;
   obtain (filter a) Filter ;;
   (if filter a then ret tt else tell (Free Config) ;; throw (Failed Unavailable)) ;;
   obtain (stream a) Stream ;;
   tell (Free Filter) ;; tell (Free Config) ;;
   ensure (stream a) (Failed Unavailable) ;;
   (if class a then ret tt else tell (Free Stream) ;; throw (Failed Unavailable)) ;;
   obtain (delegate a) Delegate ;;
   (if delegate a then ret tt else tell (Free Stream) ;; throw (Failed Unavailable)) ;;
   tell (Obtain SlotRef) ;;
   ret slot_new)%os.

Definition release_buffer (s : FrameSlot) : Os Handle Failure unit :=
  match pixel_buf s with Some old => tell (Free (PixelBuf (id old))) | None => ret tt end.

Definition drop_backend (s : FrameSlot) : Os Handle Failure unit :=
  (tell (Free Stream) ;; tell (Free SlotRef) ;; tell (Free Delegate) ;; release_buffer s)%os.

(** *** Dirty rectangles of the frame's attachments *)

(** The numbers of a rectangle's dictionary; a missing one reads as zero. *)
Record RectDict := mkDict { key_X : option f64; key_Y : option f64; key_Width : option f64; key_Height : option f64 }.

Definition cf_dict_f64 (v : option f64) : f64 := default f_zero v.

(** [as i32] of a float. *)
Definition f_to_i32 (v : f64) : Z :=
  match v with
  | S754_nan | S754_zero _ => 0
  | S754_infinity s => if s then - 2 ^ 31 else 2 ^ 31 - 1
  | S754_finite _ _ _ => clampZ (f_trunc_Z v) (- 2 ^ 31) (2 ^ 31 - 1)
  end%Z.

Definition dict_rect (d : option RectDict) : list DirtyRect :=
  match d with
  | None => []
  | Some d =>
      let w := f_to_uN 32 (cf_dict_f64 (key_Width d)) in
      let h := f_to_uN 32 (cf_dict_f64 (key_Height d)) in
      if (0 <? w) && (0 <? h)
      then [mkRect (f_to_i32 (cf_dict_f64 (key_X d))) (f_to_i32 (cf_dict_f64 (key_Y d))) w h] else []
  end.

(** The array of attachments; its first element's dictionary; the array under
    the key of the dirty rectangles. *)
Definition Attachments : Type := option (list (option (option (list (option RectDict))))).

Definition parse_dirty_rects (a : Attachments) : list DirtyRect :=
  match a with
  | Some (Some (Some rects_array) :: _) => concat (map dict_rect rects_array)
  | _ => []
  end.

(** *** The callback and the consumer *)

(** A sample: an image with its attachments, or none. *)
Definition Sample : Type := option (PixelBuffer * Attachments).

Definition stream_output_callback (s : FrameSlot) (sample : Sample) : Os Handle Failure FrameSlot :=
  match sample with
  | None =>
      ret {| pixel_buf := pixel_buf s; slot_rects := slot_rects s; fresh := fresh s; error := true |}
  | Some (pb, a) =>
      (tell (Obtain (PixelBuf (id pb))) ;;
       release_buffer s ;;
       ret {| pixel_buf := Some pb; slot_rects := parse_dirty_rects a; fresh := true; error := error s |})%os
  end.

(** [wait_timeout_while]: the samples that come before the deadline, one by one,
    until a frame is fresh or an error is set; true when neither happened. *)
Fixpoint wait (s : FrameSlot) (coming : list Sample) : Os Handle Failure (FrameSlot * bool * list Sample) :=
  if fresh s || error s then ret (s, false, coming)
  else
    match coming with
    | [] => ret (s, true, [])
    | c :: coming => (let! s := stream_output_callback s c in wait s coming)%os
    end.

(** [raw[src..src + row_bytes]] of each row; a slice out of range panics. *)
Definition raw_row (raw : list byte) (sr row_bytes : N) (row : nat) : option (list byte) :=
  let src := N.of_nat row * sr in
  if lenN raw <? src + row_bytes then None
  else Some (take (N.to_nat row_bytes) (drop (N.to_nat src) raw)).

Definition read_pixels (pb : PixelBuffer) : result Failure CaptureFrame :=
  let w := wrap 32 (pb_width pb) in
  let h := wrap 32 (pb_height pb) in
  let sr := wrap 32 (bytes_per_row pb) in
  let row_bytes := wrap 32 (w * 4) in
  let raw := read (base pb) 0 (N.to_nat (sr * h)) in
  let frame p := {| pixels := p; frame_width := w; frame_height := h; ScreenCapture.stride := row_bytes;
                    ScreenCapture.dirty_rects := []; cursor_shape := None |} in
  if sr =? row_bytes then Ok (frame raw)
  else
    match mapM (raw_row raw sr row_bytes) (seq 0 (N.to_nat h)) with
    | None => Err Panicked
    | Some rows => Ok (frame (concat rows))
    end.

(** The slot after the call, its result, and the samples still to come. *)
Definition acquire_frame (s : FrameSlot) (coming : list Sample) :
    Os Handle Failure (FrameSlot * result Failure CaptureFrame * list Sample) :=
  (let! w := wait s coming in
   let '(s, timed_out, rest) := w in
   ret (if error s then (s, Err (Failed OsRejected), rest)
        else if timed_out then (s, Err (Failed NoNewFrame), rest)
        else
          match pixel_buf s with
          | None => (s, Err (Failed NoNewFrame), rest)
          | Some pb =>
              match read_pixels pb with
              | Err e => (s, Err e, rest)
              | Ok f =>
                  ({| pixel_buf := pixel_buf s; slot_rects := []; fresh := false; error := error s |},
                   Ok {| pixels := pixels f; frame_width := frame_width f; frame_height := frame_height f;
                         ScreenCapture.stride := ScreenCapture.stride f;
                         ScreenCapture.dirty_rects := slot_rects s; cursor_shape := None |}, rest)
              end
          end))%os.
End SCKit.

(** ** Linux: the PipeWire stream of the screen-cast portal *)
Module Portal.
Inductive Handle := Library | MainLoop | Context | Core | Stream | Buffer.

#[global] Instance Handle_eq_dec : EqDecision Handle.
Proof. solve_decision. Defined.

Record Answers := mkAnswers {
  dlopen : bool; dlsym : list bool; main_loop_new : bool; context_new : bool;
  context_connect : bool; stream_new : bool; stream_connect : Z }.

(** [LibPw::load]. *)
Definition load (a : Answers) : Os Handle Failure bool := load_library Library (dlopen a) (dlsym a).

(** An early return frees what the code names; the last reference to the
    library closes it. *)
Definition bail (ok : bool) (named : list Handle) : Os Handle Failure unit :=
  if ok then ret tt
  else (map Free (named ++ [Library]), Err (Failed Unavailable)).

Definition open (pw_fd : Z) (a : Answers) : Os Handle Failure unit :=
  (ensure (0 <=? pw_fd)%Z (Failed Unavailable) ;;
   let! loaded := load a in
   ensure loaded (Failed Unavailable) ;;
   obtain (main_loop_new a) MainLoop ;;
   bail (main_loop_new a) [] ;;
   obtain (context_new a) Context ;;
   bail (context_new a) [MainLoop] ;;
   obtain (context_connect a) Core ;;
   bail (context_connect a) [MainLoop] ;;
   obtain (stream_new a) Stream ;;
   bail (stream_new a) [MainLoop] ;;
   bail (0 <=? stream_connect a)%Z [Stream; MainLoop])%os.

(** What [drop] does, and what the thread does when the loop has quit. *)
Definition drop_backend : list (Op Handle) := [Use MainLoop; Free Stream; Free MainLoop].
Definition thread_exit : list (Op Handle) := [Use Stream].

(** *** The damage of a buffer's metadata *)
Definition SPA_META_VIDEO_DAMAGE : N := 4.

Definition region_at (m : Memory) (r : N) : list DirtyRect :=
  let w := read_u32 m (r + 8) in
  let h := read_u32 m (r + 12) in
  if (0 <? w) && (0 <? h) then [mkRect (read_i32 m r) (read_i32 m (r + 4)) w h] else [].

Definition meta_rects (m : Memory) (meta : N) : list DirtyRect :=
  let meta_type := read_u32 m meta in
  let meta_size := read_u32 m (meta + 4) in
  let meta_data := read_ptr m (meta + 8) in
  if negb (meta_type =? SPA_META_VIDEO_DAMAGE) || (meta_data =? 0) || (meta_size =? 0) then []
  else concat (map (fun j => region_at m (meta_data + N.of_nat j * 16)) (seq 0 (N.to_nat (meta_size / 16)))).

Definition extract_damage_rects (m : Memory) (metas_ptr n_metas : N) : list DirtyRect :=
  if (metas_ptr =? 0) || (n_metas =? 0) then []
  else concat (map (fun i => meta_rects m (metas_ptr + N.of_nat i * 16)) (seq 0 (N.to_nat n_metas))).

(** *** A frame *)

(** [pw_stream_queue_buffer] and an early return. *)
Definition give_back_unless (ok : bool) : Os Handle Failure unit :=
  if ok then ret tt else (tell (Free Buffer) ;; throw (Failed NoNewFrame))%os.

(** [buf] is the dequeued buffer, null when there is none; [error] the slot's
    flag, which the thread sets when the loop ends. *)
Definition acquire_frame (m : Memory) (buf : N) (error : bool) : Os Handle Failure CaptureFrame :=
  (obtain (negb (buf =? 0)) Buffer ;;
   ensure (negb (buf =? 0)) (if error then Failed OsRejected else Failed NoNewFrame) ;;
   let spa_buf := read_ptr m buf in
   give_back_unless (negb (spa_buf =? 0)) ;;
   let n_metas := read_u32 m spa_buf in
   let metas_ptr := read_ptr m (spa_buf + 8) in
   let rects := extract_damage_rects m metas_ptr n_metas in
   let n_datas := read_u32 m (spa_buf + 4) in
   give_back_unless (negb (n_datas =? 0)) ;;
   let datas_ptr := read_ptr m (spa_buf + 16) in
   give_back_unless (negb (datas_ptr =? 0)) ;;
   let data_ptr := read_ptr m (datas_ptr + 24) in
   let chunk := read_ptr m (datas_ptr + 32) in
   give_back_unless (negb ((data_ptr =? 0) || (chunk =? 0))) ;;
   let chunk_size := read_u32 m (chunk + 4) in
   let chunk_stride := read_i32 m (chunk + 8) in
   give_back_unless (negb ((chunk_size =? 0) || (chunk_stride <=? 0)%Z)) ;;
   let stride := Z.to_N chunk_stride in
   let width := stride / 4 in
   let height := chunk_size / stride in
   give_back_unless (negb ((width =? 0) || (height =? 0))) ;;
   let raw := read m data_ptr (N.to_nat chunk_size) in
   tell (Free Buffer) ;;
   ret {| pixels := raw; frame_width := width; frame_height := height; ScreenCapture.stride := stride;
          ScreenCapture.dirty_rects := rects; cursor_shape := None |})%os.
End Portal.

(** ** The broker's shapes *)
Definition shape_of (r : result CaptureError CaptureFrame) : option CursorShape :=
  match r with Ok f => cursor_shape f | Err _ => None end.

Definition hide_shape (r : result CaptureError CaptureFrame) : result CaptureError CaptureFrame :=
  match r with Ok f => Ok (set_cursor f None) | Err e => Err e end.

(** The first occurrences, in order. *)
Fixpoint firsts (known : list CursorShape) (l : list CursorShape) : list CursorShape :=
  match l with
  | [] => []
  | s :: l => if decide (s ∈ known) then firsts known l else s :: firsts (s :: known) l
  end.

Section shapes.
Context `{ShapeHasher}.
Implicit Types (c : CursorShapeCache) (answers : list (result CaptureError CaptureFrame)).

Lemma acquire_frame_eq c a :
  acquire_frame c a =
  match shape_of a with
  | None => (c, a)
  | Some s => ({| seen := {[ hash_shape s ]} ∪ seen c |},
               if decide (hash_shape s ∈ seen c) then hide_shape a else a)
  end.
Proof.
  destruct a as [f|e]; [|done]. cbn [shape_of acquire_frame hide_shape].
  destruct (cursor_shape f) as [s|]; [|done]. cbn [is_new]. f_equal.
  by destruct (decide (hash_shape s ∈ seen c)); [rewrite bool_decide_true|rewrite bool_decide_false].
Qed.

Lemma shape_of_hidden a : shape_of (hide_shape a) = None.
Proof. by destruct a. Qed.

(** Every answer comes back, with its shape or without it. *)
Lemma session_answers c answers :
  Forall2 (fun a r => r = a \/ (is_Some (shape_of a) /\ r = hide_shape a)) answers (session c answers).
Proof.
  revert c. induction answers as [|a answers IH]; intros c; cbn [session]; [constructor|].
  rewrite acquire_frame_eq. destruct (shape_of a) as [s|] eqn:E; constructor; try apply IH; [|by left].
  case_decide; [right; split; [by rewrite E|done]|by left].
Qed.

Lemma session_firsts c known answers :
  (forall s s', s ∈ known ++ omap shape_of answers -> s' ∈ known ++ omap shape_of answers ->
     hash_shape s = hash_shape s' -> s = s') ->
  (forall h, h ∈ seen c <-> exists s, s ∈ known /\ hash_shape s = h) ->
  omap shape_of (session c answers) = firsts known (omap shape_of answers).
Proof.
  revert c known. induction answers as [|a answers IH]; intros c known Hinj Hc; [done|].
  cbn [session omap list_omap]. rewrite acquire_frame_eq.
  destruct (shape_of a) as [s|] eqn:E; cbn [omap list_omap] in *.
  2: { rewrite E in Hinj |- *. by apply IH. }
  cbn [firsts omap list_omap]. rewrite E in Hinj.
  assert (Hs : hash_shape s ∈ seen c <-> s ∈ known).
  { rewrite Hc. split; [|by exists s]. intros (s' & Hs' & Hh).
    rewrite <- (Hinj s' s); [done| | |done]; rewrite elem_of_app; [by left|right; by left]. }
  assert (IH' := IH {| seen := {[ hash_shape s ]} ∪ seen c |}).
  destruct (decide (hash_shape s ∈ seen c)) as [Hd|Hd]; [rewrite decide_True by (by apply Hs)|rewrite decide_False by tauto].
  - rewrite shape_of_hidden. apply IH'.
    + intros s1 s2 H1 H2. apply Hinj; rewrite elem_of_app in *; cbn; rewrite elem_of_cons; tauto.
    + intros h. cbn. rewrite elem_of_union, elem_of_singleton, Hc. split; [|tauto].
      intros [->|?]; [|done]. exists s. split; [by apply Hs|done].
  - rewrite E. f_equal. apply IH'.
    + intros s1 s2 H1 H2. apply Hinj; rewrite ?elem_of_app, ?elem_of_cons, ?elem_of_app in *; tauto.
    + intros h. cbn. rewrite elem_of_union, elem_of_singleton, Hc. setoid_rewrite elem_of_cons. split.
      * intros [->|(s' & ? & ?)]; [exists s|exists s']; tauto.
      * intros (s' & [->|?] & <-); [by left|right; by exists s'].
Qed.
End shapes.

(** ** Rows *)
Section rows.
Implicit Types (m : Memory).

Lemma read_length m p n : length (read m p n) = n.
Proof. unfold read. by rewrite length_map, length_seq. Qed.

Lemma read_lookup m p n i : (i < n)%nat -> read m p n !! i = Some (m (p + N.of_nat i)).
Proof. intros Hi. unfold read. rewrite list_lookup_fmap, lookup_seq_lt by done. cbn. do 2 f_equal. Qed.

(** A concatenation of rows of one length. *)
Lemma concat_rows_length {A} (g : nat -> list A) k w n :
  (forall i, length (g i) = w) -> length (concat (map g (seq k n))) = (n * w)%nat.
Proof.
  intros Hg. revert k. induction n as [|n IH]; intros k; [done|]. cbn [seq map concat].
  rewrite length_app, IH, Hg. lia.
Qed.

Lemma concat_rows_lookup {A} (g : nat -> list A) k w n r i :
  (forall i, length (g i) = w) -> (r < n)%nat -> (i < w)%nat ->
  concat (map g (seq k n)) !! (r * w + i)%nat = g (k + r)%nat !! i.
Proof.
  intros Hg. revert k r. induction n as [|n IH]; intros k r Hr Hi; [lia|]. cbn [seq map concat].
  destruct r as [|r].
  - cbn [Nat.mul Nat.add]. rewrite lookup_app_l by (rewrite Hg; lia). by rewrite Nat.add_0_r.
  - rewrite lookup_app_r by (rewrite Hg; lia). rewrite Hg.
    replace (S r * w + i - w)%nat with (r * w + i)%nat by lia. rewrite IH by lia. f_equal. f_equal. lia.
Qed.

Lemma pack_rows_length m p stride rb rows :
  length (pack_rows m p stride rb rows) = (rows * N.to_nat rb)%nat.
Proof. unfold pack_rows. apply concat_rows_length. intros i. apply read_length. Qed.

Lemma pack_rows_lookup m p stride rb rows r i :
  (r < rows)%nat -> (i < N.to_nat rb)%nat ->
  pack_rows m p stride rb rows !! (r * N.to_nat rb + i)%nat =
  Some (m (p + N.of_nat r * stride + N.of_nat i)).
Proof.
  intros Hr Hi. unfold pack_rows. rewrite concat_rows_lookup; [|intros; apply read_length|done|done].
  by rewrite read_lookup.
Qed.
End rows.

(** ** Handles of the three back ends *)
Section handles.

(** Windows: [open] that fails has released what it obtained; [drop] releases
    what it kept. *)
Theorem dxgi_handles_balance (a : Dxgi.Answers) :
  leaves (Dxgi.open a) [] =
    Some match snd (Dxgi.open a) with
         | Ok _ => [Dxgi.Duplication; Dxgi.DeviceContext; Dxgi.Device] | Err _ => [] end /\
  leaves Dxgi.drop_backend [Dxgi.Duplication; Dxgi.DeviceContext; Dxgi.Device] = Some [].
Proof.
  split; [|done]. unfold Dxgi.open, Dxgi.bail.
  destruct (Dxgi.create_device a); [|done]. destruct (Dxgi.create_factory a); [|done].
  destruct (Dxgi.enum_adapters a); [|done]. destruct (Dxgi.enum_outputs a); [|done].
  destruct (Dxgi.query_output1 a); [|done]. by destruct (Dxgi.duplicate_output a).
Qed.

Lemma dirty_rects_panics needed filled written e :
  Dxgi.dirty_rects needed filled written = Err e -> e = Panicked.
Proof. unfold Dxgi.dirty_rects. case_ifs; congruence. Qed.

Lemma read_shape_panics hr psi buf e : Dxgi.read_shape hr psi buf = Err e -> e = Panicked.
Proof. unfold Dxgi.read_shape. case_bool_decide; [done|]. case_ifs; [|done]. destruct (mapM _ _); congruence. Qed.

(** A call of [acquire_frame] that returns has given back the frame and every
    object made for it; only a call that succeeds without a resource keeps the
    frame, and a panic the frame and the resource. *)
Theorem dxgi_frame_given_back (b : Dxgi.Backend) (a : Dxgi.FrameAnswers) :
  leaves (Dxgi.acquire_frame b a) [] =
    Some match snd (Dxgi.acquire_frame b a) with
         | Err Panicked => [Dxgi.Resource; Dxgi.AcquiredFrame]
         | _ => if (0 <=? Dxgi.acquire_next a)%Z && negb (Dxgi.resource a) then [Dxgi.AcquiredFrame] else []
         end.
Proof.
  unfold Dxgi.acquire_frame, Dxgi.DXGI_ERROR_WAIT_TIMEOUT, Dxgi.DXGI_ERROR_ACCESS_LOST.
  destruct (Z.leb_spec 0 (Dxgi.acquire_next a)) as [Hn|Hn].
  2: { by destruct (_ =? _)%Z, (_ =? _)%Z. }
  assert (Hc : forall z, (z < 0)%Z -> (Dxgi.acquire_next a =? z)%Z = false) by (intros; apply Z.eqb_neq; lia).
  rewrite !Hc by done. destruct (Dxgi.resource a); [|done]. unfold Dxgi.lift.
  destruct (Dxgi.dirty_rects _ _ _) as [rects|e] eqn:E1; [|by apply dirty_rects_panics in E1 as ->].
  destruct (Dxgi.read_shape _ _ _) as [shape|e] eqn:E2; [|by apply read_shape_panics in E2 as ->].
  destruct (Dxgi.query_texture a); [|done]. destruct (Dxgi.create_texture a); [|done].
  destruct (Z.leb_spec 0 (Dxgi.map_texture a)), (Z.ltb_spec (Dxgi.map_texture a) 0); done || lia.
Qed.

(** macOS: the same of the stream, the delegate and the slot's reference. *)
Theorem sckit_handles_balance (a : SCKit.Answers) :
  leaves (SCKit.open a) [] =
    Some match snd (SCKit.open a) with
         | Ok _ => [SCKit.SlotRef; SCKit.Delegate; SCKit.Stream] | Err _ => [] end.
Proof.
  unfold SCKit.open. destruct (SCKit.access_granted a); [|done]. destruct (SCKit.config a); [|done].
  destruct (SCKit.filter a); [|done]. destruct (SCKit.stream a); [|done].
  destruct (SCKit.class a); [|done]. by destruct (SCKit.delegate a).
Qed.

(** Linux: an [open] that fails after the context or its connection was made
    leaves them; one that succeeds leaves them for [drop], which does not free
    them either. *)
Theorem portal_handles_leak (pw_fd : Z) (a : Portal.Answers) :
  leaves (Portal.open pw_fd a) [] =
    Some match snd (Portal.open pw_fd a) with
         | Ok _ => [Portal.Stream; Portal.Core; Portal.Context; Portal.MainLoop; Portal.Library]
         | Err _ =>
             if (0 <=? pw_fd)%Z && Portal.dlopen a && forallb id (Portal.dlsym a) && Portal.main_loop_new a &&
                Portal.context_new a
             then if Portal.context_connect a then [Portal.Core; Portal.Context] else [Portal.Context]
             else []
         end.
Proof.
  unfold Portal.open, Portal.load. rewrite load_library_eq.
  destruct (0 <=? pw_fd)%Z; [|done]. destruct (Portal.dlopen a); [|done].
  destruct (forallb id (Portal.dlsym a)); [|done]. destruct (Portal.main_loop_new a); [|done].
  destruct (Portal.context_new a); [|done]. destruct (Portal.context_connect a); [|done].
  destruct (Portal.stream_new a); [|done]. by destruct (0 <=? Portal.stream_connect a)%Z.
Qed.

(** [drop] does not wait for the thread: when the thread wakes before the stream
    is destroyed all is well, when it wakes after that it uses a freed stream. *)
Theorem drop_races_with_the_thread :
  let held := [Portal.Stream; Portal.Core; Portal.Context; Portal.MainLoop; Portal.Library] in
  live_after held (take 1 Portal.drop_backend ++ Portal.thread_exit ++ drop 1 Portal.drop_backend) =
    Some [Portal.Core; Portal.Context; Portal.Library] /\
  live_after held (take 2 Portal.drop_backend ++ Portal.thread_exit ++ drop 2 Portal.drop_backend) = None.
Proof. split; vm_compute; reflexivity. Qed.

(** Whatever the buffer holds, it is put back on the stream. *)
Theorem portal_buffer_given_back (m : Memory) (buf : N) (error : bool) :
  leaves (Portal.acquire_frame m buf error) [] = Some [].
Proof.
  unfold Portal.acquire_frame. destruct (buf =? 0); [by destruct error|]. cbn [negb].
  unfold Portal.give_back_unless. destruct (negb (read_ptr m buf =? 0)); [|done].
  destruct (negb (read_u32 m (read_ptr m buf + 4) =? 0)); [|done].
  destruct (negb (read_ptr m (read_ptr m buf + 16) =? 0)); [|done].
  destruct (negb (_ || _)); [|done]. destruct (negb (_ || _)); [|done]. by destruct (negb (_ || _)).
Qed.
End handles.

(** ** macOS: the slot and its buffer *)
Section sckit.
Import SCKit.
Implicit Types (s : FrameSlot) (coming : list Sample).

(** The slot holds one reference, to the buffer it shows. *)
Definition held s : list Handle :=
  match pixel_buf s with Some pb => [PixelBuf (id pb)] | None => [] end.

Lemma callback_holds s c l :
  exists s', snd (stream_output_callback s c) = Ok s' /\
    leaves (stream_output_callback s c) (held s ++ l) = Some (held s' ++ l).
Proof.
  destruct c as [[pb a]|]; [|by eexists]. unfold stream_output_callback, release_buffer, leaves, held.
  destruct (pixel_buf s) as [old|]; cbn; eexists; (split; [done|]); [|done]. cbn.
  rewrite decide_True by (right; by left). case_decide as He; [|by rewrite decide_True].
  injection He as ->. done.
Qed.

Lemma wait_holds s coming l :
  exists s' late rest, snd (wait s coming) = Ok (s', late, rest) /\
    leaves (wait s coming) (held s ++ l) = Some (held s' ++ l) /\
    (late = false -> fresh s' = true \/ error s' = true).
Proof.
  revert s. induction coming as [|c coming IH]; intros s; cbn [wait].
  - destruct (fresh s || error s)%bool eqn:E; eexists _, _, _; (split; [done|]); (split; [done|]); [|done].
    intros _. by apply orb_true_iff in E.
  - destruct (fresh s || error s)%bool eqn:E.
    { eexists _, _, _. split; [done|]. split; [done|]. intros _. by apply orb_true_iff in E. }
    destruct (callback_holds s c l) as (s1 & H1 & H2).
    destruct (IH s1) as (s' & late & rest & H3 & H4 & H5). exists s', late, rest.
    unfold leaves in *. destruct (stream_output_callback s c) as [t r]. cbn [fst snd] in *. subst r. cbn [bind].
    destruct (wait s1 coming) as [t' r']. cbn [fst snd] in *. split; [done|]. split; [|done].
    by rewrite live_after_app, H2.
Qed.

Lemma acquire_holds s coming l :
  exists s' r rest, snd (acquire_frame s coming) = Ok (s', r, rest) /\
    leaves (acquire_frame s coming) (held s ++ l) = Some (held s' ++ l).
Proof.
  unfold acquire_frame. destruct (wait_holds s coming l) as (s1 & late & rest & H1 & H2 & _).
  unfold leaves in *. destruct (wait s coming) as [t r]. cbn [fst snd] in *. subst r. cbn [bind].
  destruct (error s1); [|destruct late; [|destruct (pixel_buf s1) as [pb|] eqn:E; [destruct (read_pixels pb)|]]];
    cbn [ret fst snd]; eexists _, _, _; (split; [done|]); rewrite app_nil_r, H2; try done.
  unfold held. cbn. by rewrite E.
Qed.

(** Samples that come while nobody waits, and calls with those that come while
    they wait. *)
Inductive Action := Delivered (c : Sample) | Called (coming : list Sample).

Fixpoint life s (acts : list Action) : Os Handle Failure FrameSlot :=
  match acts with
  | [] => ret s
  | Delivered c :: acts => (let! s := stream_output_callback s c in life s acts)%os
  | Called coming :: acts => (let! r := acquire_frame s coming in life (fst (fst r)) acts)%os
  end.

Lemma life_holds s acts l :
  exists s', snd (life s acts) = Ok s' /\ leaves (life s acts) (held s ++ l) = Some (held s' ++ l).
Proof.
  revert s. induction acts as [|[c|coming] acts IH]; intros s; cbn [life]; [by eexists| |].
  - destruct (callback_holds s c l) as (s1 & H1 & H2). destruct (IH s1) as (s' & H3 & H4). exists s'.
    unfold leaves in *. destruct (stream_output_callback s c) as [t r]. cbn [fst snd] in *. subst r. cbn [bind].
    destruct (life s1 acts) as [t' r']. cbn [fst snd] in *. split; [done|]. by rewrite live_after_app, H2.
  - destruct (acquire_holds s coming l) as (s1 & r1 & rest & H1 & H2). destruct (IH s1) as (s' & H3 & H4). exists s'.
    unfold leaves in *. destruct (acquire_frame s coming) as [t r]. cbn [fst snd] in *. subst r. cbn [bind fst].
    destruct (life s1 acts) as [t' r']. cbn [fst snd] in *. split; [done|]. by rewrite live_after_app, H2.
Qed.

(** From [open] to [drop], whatever samples and calls come between and in
    whatever order, everything obtained is released. *)
Theorem sckit_life_balanced (acts : list Action) :
  exists s', snd (life slot_new acts) = Ok s' /\
    leaves (life slot_new acts) [SlotRef; Delegate; Stream] = Some (held s' ++ [SlotRef; Delegate; Stream]) /\
    leaves (drop_backend s') (held s' ++ [SlotRef; Delegate; Stream]) = Some [].
Proof.
  destruct (life_holds slot_new acts [SlotRef; Delegate; Stream]) as (s' & H1 & H2). exists s'.
  split; [done|]. split; [exact H2|]. unfold drop_backend, release_buffer, leaves, held.
  destruct (pixel_buf s') as [pb|]; cbn; [|done].
  repeat match goal with
  | |- context [decide (?r = ?r)] => rewrite (decide_True (P := r = r)) by done
  | |- context [decide (?r = ?r')] => rewrite (decide_False (P := r = r')) by done
  | _ => progress cbn [remove_one]
  | |- context [decide (?r ∈ ?l)] => rewrite (decide_True (P := r ∈ l)) by (rewrite ?elem_of_cons; tauto)
  end. done.
Qed.

(** Once a sample without an image has come, every later call fails. *)
Theorem error_is_sticky s coming :
  error s = true -> acquire_frame s coming = ([], Ok (s, Err (Failed OsRejected), coming)).
Proof.
  intros He. unfold acquire_frame. destruct coming; cbn [wait]; rewrite He, orb_true_r; cbn; by rewrite He.
Qed.

Lemma error_is_sticky_witness :
  let s := match snd (stream_output_callback slot_new None) with Ok s => s | Err _ => slot_new end in
  snd (acquire_frame s []) = Ok (s, Err (Failed OsRejected), []).
Proof.
  cbn zeta. rewrite (error_is_sticky _ []); [reflexivity|]. reflexivity.
Defined.

(** A call after two samples. *)
Definition take_second s (c c' : Sample) :=
  (let! s1 := stream_output_callback s c in
   let! s2 := stream_output_callback s1 c' in acquire_frame s2 [])%os.

(** A frame delivered before the previous one was taken replaces it, damage
    included: the call answers the rectangles of the last sample only. *)
Theorem skipped_frames_lose_damage s (c c' : PixelBuffer * Attachments) s' fr rest :
  snd (take_second s (Some c) (Some c')) = Ok (s', Ok fr, rest) ->
  ScreenCapture.dirty_rects fr = parse_dirty_rects (snd c').
Proof.
  destruct c as [pb a], c' as [pb' a']. unfold take_second, stream_output_callback, release_buffer. cbn [snd].
  unfold acquire_frame. destruct (pixel_buf s); cbn [bind tell ret app wait fresh error pixel_buf orb snd];
    (destruct (error s); [done|]); (destruct (read_pixels pb'); [|done]); cbn; by intros [= _ <- _].
Qed.

(** A frame two pixels wide and one high, with the damage of one pixel. *)
Definition sample_at (n : N) (at_x : N) : PixelBuffer * Attachments :=
  (mkPixelBuffer n 2 1 8 (fun _ => Byte.x00),
   Some [Some (Some [Some (mkDict (Some (f_of_N at_x)) None (Some f_one) (Some f_one))])]).

Lemma skipped_frames_lose_damage_witness :
  exists s' fr,
    snd (take_second slot_new (Some (sample_at 1 0)) (Some (sample_at 2 1))) = Ok (s', Ok fr, []) /\
    ScreenCapture.dirty_rects fr = [mkRect 1 0 1 1].
Proof.
  eexists _, _. split; [reflexivity|].
  refine (skipped_frames_lose_damage slot_new (sample_at 1 0) (sample_at 2 1) _ _ [] _). reflexivity.
Defined.
End sckit.

(** ** Frames of Windows *)
Section dxgi.

(** A frame that is answered has the rows of the mapped texture, packed: byte [i]
    of row [r] is the byte [i] of the row [r] pitches further. *)
Theorem dxgi_frame_rows (b : Dxgi.Backend) (a : Dxgi.FrameAnswers) (f : CaptureFrame) :
  snd (Dxgi.acquire_frame b a) = Ok f -> Dxgi.width b < 2 ^ 30 ->
  stride f = 4 * frame_width f /\ lenN (pixels f) = stride f * frame_height f /\
  forall r i, (r < N.to_nat (frame_height f))%nat -> (i < N.to_nat (stride f))%nat ->
    pixels f !! (r * N.to_nat (stride f) + i)%nat =
    Some (Dxgi.mapped a (N.of_nat r * Dxgi.row_pitch a + N.of_nat i)).
Proof.
  intros Ha Hw. unfold Dxgi.acquire_frame, Dxgi.lift in Ha.
  destruct (negb (_ =? _)%Z); [|by destruct (_ <=? _)%Z, (Dxgi.resource a)].
  destruct (negb (_ =? _)%Z); [|by destruct (_ <=? _)%Z, (Dxgi.resource a)].
  destruct ((0 <=? Dxgi.acquire_next a)%Z); [|done]. destruct (Dxgi.resource a); [|done].
  destruct (Dxgi.dirty_rects _ _ _); [|done]. destruct (Dxgi.read_shape _ _ _); [|done].
  destruct (Dxgi.query_texture a); [|done]. destruct (Dxgi.create_texture a); [|done].
  assert (E : wrap 32 (Dxgi.width b * 4) = 4 * Dxgi.width b) by (rewrite wrap_small; lia).
  destruct ((0 <=? Dxgi.map_texture a)%Z), ((Dxgi.map_texture a <? 0)%Z); try done; injection Ha as <-;
    cbn [pixels frame_width frame_height stride]; rewrite E;
    (split; [done|]; split;
      [unfold lenN; rewrite pack_rows_length; lia
      |intros r i Hr Hi; by rewrite pack_rows_lookup, N.add_0_l by done]).
Qed.

Definition two_by_one : Dxgi.FrameAnswers :=
  Dxgi.mkFrameAnswers 0 true 0 [] 0 0 (Dxgi.mkInfo 0 0 0 0 0 0) [] true true 0 byte_of 16.

Lemma dxgi_frame_rows_witness :
  exists f, snd (Dxgi.acquire_frame (Dxgi.mkBackend 2 2) two_by_one) = Ok f /\
    stride f = 8 /\ pixels f !! 9%nat = Some (byte_of 17).
Proof.
  eexists. split; [reflexivity|].
  pose proof (dxgi_frame_rows (Dxgi.mkBackend 2 2) two_by_one _ eq_refl ltac:(reflexivity)) as (H1 & _ & H3).
  split; [exact H1|]. apply (H3 1%nat 1%nat); apply Nat.ltb_lt; reflexivity.
Defined.

(** A colour shape whose rows lie in the buffer is read whole, row by row. *)
Theorem shape_read_whole (get_shape : Z) (psi : Dxgi.PointerShapeInfo) (buf : list byte) :
  buf <> [] -> (0 <= get_shape)%Z ->
  0 < Dxgi.info_width psi < 2 ^ 30 -> 0 < Dxgi.info_height psi ->
  Dxgi.shape_type psi = Dxgi.POINTER_SHAPE_COLOR \/ Dxgi.shape_type psi = Dxgi.POINTER_SHAPE_MASKED_COLOR ->
  (Dxgi.info_height psi - 1) * Dxgi.pitch psi + 4 * Dxgi.info_width psi <= lenN buf ->
  Dxgi.read_shape get_shape psi buf =
    Ok (Some {| shape_width := Dxgi.info_width psi; shape_height := Dxgi.info_height psi;
                hotspot_x := Dxgi.info_hot_x psi; hotspot_y := Dxgi.info_hot_y psi;
                shape_pixels := concat (map (fun r => take (N.to_nat (4 * Dxgi.info_width psi))
                                                       (drop (r * N.to_nat (Dxgi.pitch psi)) buf))
                                            (seq 0 (N.to_nat (Dxgi.info_height psi)))) |}).
Proof.
  intros Hb Hg Hw Hh Ht Hl. unfold Dxgi.read_shape. rewrite bool_decide_false by done.
  rewrite (proj2 (Z.leb_le _ _)), !(proj2 (N.ltb_lt _ _)) by lia.
  assert (Et : ((Dxgi.shape_type psi =? Dxgi.POINTER_SHAPE_COLOR) ||
                (Dxgi.shape_type psi =? Dxgi.POINTER_SHAPE_MASKED_COLOR))%bool = true).
  { apply orb_true_iff. by destruct Ht as [-> | ->]; [left|right]. }
  rewrite Et. cbn [andb]. rewrite wrap_small by lia. rewrite (N.mul_comm _ 4).
  erewrite (proj2 (mapM_Some _ _ _)); [done|]. apply Forall2_fmap_r, Forall_Forall2_diag.
  rewrite List.Forall_forall. intros r Hr%in_seq. unfold Dxgi.shape_row.
  set (p := Dxgi.pitch psi) in *. set (w := Dxgi.info_width psi) in *. set (h := Dxgi.info_height psi) in *.
  assert (Hle : N.of_nat r * p <= (h - 1) * p) by (apply N.mul_le_mono_r; lia).
  rewrite (proj2 (N.ltb_ge _ _)) by lia. rewrite N.min_l by lia.
  replace (N.of_nat r * p + 4 * w - N.of_nat r * p) with (4 * w) by lia.
  rewrite N.sub_diag. cbn [N.to_nat repeat]. rewrite app_nil_r, (N2Nat.inj_mul (N.of_nat r)), Nat2N.id. done.
Qed.

Lemma shape_read_whole_witness :
  Dxgi.read_shape 0 (Dxgi.mkInfo 2 1 2 8 0 0) (map byte_of [1; 2; 3; 4; 0; 0; 0; 0; 5; 6; 7; 8]) =
    Ok (Some (mkShape 1 2 0 0 (map byte_of [1; 2; 3; 4; 5; 6; 7; 8]))).
Proof.
  rewrite (shape_read_whole 0 (Dxgi.mkInfo 2 1 2 8 0 0)); [reflexivity|done|done|done|done|by left|done].
Defined.
End dxgi.

(** ** Frames of Linux *)
Section portal.
Implicit Types (m : Memory).

Lemma give_back_ok {A} ok (k : Os Portal.Handle Failure A) r :
  snd (bind (Portal.give_back_unless ok) (fun _ => k)) = Ok r -> ok = true /\ snd k = Ok r.
Proof. destruct ok; [|done]. destruct k as [t s]. cbn. done. Qed.

Lemma tell_ok {A} o (k : Os Portal.Handle Failure A) r : snd (bind (tell o) (fun _ => k)) = Ok r -> snd k = Ok r.
Proof. by destruct k as [t s]. Qed.

Lemma pass_ok {A} e (k : Os Portal.Handle Failure A) r :
  snd (bind (ensure true e) (fun _ => k)) = Ok r -> snd k = Ok r.
Proof. by destruct k as [t s]. Qed.

(** A frame that is answered has a pixel at least, a stride that covers its
    rows, and the bytes of all of them. *)
Theorem portal_frame_geometry m (buf : N) (error : bool) (f : CaptureFrame) :
  snd (Portal.acquire_frame m buf error) = Ok f ->
  0 < frame_width f /\ 0 < frame_height f /\ 4 * frame_width f <= stride f /\
  frame_height f * stride f <= lenN (pixels f) /\ cursor_shape f = None.
Proof.
  unfold Portal.acquire_frame. destruct (buf =? 0); [by destruct error|].
  intros Hk. apply tell_ok, pass_ok in Hk. cbv zeta in Hk.
  do 4 (apply give_back_ok in Hk as [_ Hk]). apply give_back_ok in Hk as [H1 Hk].
  apply give_back_ok in Hk as [H2 Hk]. apply tell_ok in Hk. injection Hk as <-.
  cbn [frame_width frame_height stride pixels cursor_shape].
  apply negb_true_iff, orb_false_iff in H1 as [H1 H1'], H2 as [H2 H2'].
  apply N.eqb_neq in H1, H2, H2'. apply Z.leb_gt in H1'.
  set (s := read_i32 _ _) in *. set (c := read_u32 _ _) in *.
  pose proof (N.Div0.mul_div_le (Z.to_N s) 4). pose proof (N.Div0.mul_div_le c (Z.to_N s)).
  unfold lenN. rewrite read_length, N2Nat.id, (N.mul_comm (c / _)). split_and!; [by apply N.neq_0_lt_0|by apply N.neq_0_lt_0|done|done|done].
Qed.

(** A structure in memory: its fields in order, each aligned to its size, as
    [repr(C)] lays them out. *)
Fixpoint layout (off : nat) (fields : list (nat * N)) : list byte :=
  match fields with
  | [] => []
  | (size, v) :: fields =>
      let pad := ((size - off mod size) mod size)%nat in
      repeat Byte.x00 pad ++ le_bytes size v ++ layout (off + pad + size) fields
  end.

Definition holds m (p : N) (l : list byte) : Prop := read m p (length l) = l.

Lemma holds_field m p a b c :
  holds m p (a ++ b ++ c) -> read m (p + N.of_nat (length a)) (length b) = b.
Proof.
  unfold holds. intros H. apply list_eq. intros i.
  destruct (decide (i < length b)%nat) as [Hi|Hi].
  - rewrite read_lookup by done.
    pose proof (f_equal (fun l => l !! (length a + i)%nat) H) as He. cbn in He.
    rewrite read_lookup in He by (rewrite !length_app; lia).
    rewrite lookup_app_r, Nat.add_comm, Nat.add_sub, lookup_app_l in He by lia. rewrite <- He. do 2 f_equal. lia.
  - rewrite !lookup_ge_None_2; [done|lia|rewrite read_length; lia].
Qed.

Lemma layout_length off fields fields' :
  map fst fields = map fst fields' -> length (layout off fields) = length (layout off fields').
Proof.
  revert off fields'. induction fields as [|[n v] fs IH]; intros off [|[n' v'] fs'] He; try done.
  injection He as <- He. cbn [layout]. rewrite !length_app, !le_bytes_length. by rewrite (IH _ _ He).
Qed.

Lemma layout_app off f1 f2 :
  layout off (f1 ++ f2) = layout off f1 ++ layout (off + length (layout off f1)) f2.
Proof.
  revert off. induction f1 as [|[n v] f1 IH]; intros off; cbn [app layout].
  - cbn [length]. by rewrite Nat.add_0_r.
  - rewrite IH, <- !app_assoc, !length_app, repeat_length, le_bytes_length. do 4 f_equal. lia.
Qed.

(** A field of a structure read at its offset. *)
Lemma read_layout m p f1 size v f2 off :
  holds m p (layout 0 (f1 ++ (size, v) :: f2)) ->
  (let n := length (layout 0 (map (fun f => (fst f, 0)) f1)) in
   N.of_nat (n + (size - n mod size) mod size) = off) -> v < 256 ^ N.of_nat size ->
  le_value (read m (p + off) size) = v.
Proof.
  intros Hl <- Hv. rewrite <- (layout_length 0 f1) by (rewrite map_map; done).
  rewrite layout_app in Hl. cbn [layout Nat.add] in Hl. rewrite app_assoc in Hl.
  apply holds_field in Hl. rewrite length_app, repeat_length, le_bytes_length in Hl. rewrite Hl.
  by apply le_value_bytes_small.
Qed.

(** The structures of PipeWire 0.3, as [mic_capture.rs] declares them. *)
Definition pw_buffer (buffer user_data size requested : N) : list (nat * N) :=
  [(8%nat, buffer); (8%nat, user_data); (8%nat, size); (8%nat, requested)].
Definition spa_buffer (n_metas n_datas metas datas : N) : list (nat * N) :=
  [(4%nat, n_metas); (4%nat, n_datas); (8%nat, metas); (8%nat, datas)].
Definition spa_data (type_ flags fd mapoffset maxsize data chunk : N) : list (nat * N) :=
  [(4%nat, type_); (4%nat, flags); (8%nat, fd); (4%nat, mapoffset); (4%nat, maxsize); (8%nat, data); (8%nat, chunk)].
Definition spa_chunk (offset size stride flags : N) : list (nat * N) :=
  [(4%nat, offset); (4%nat, size); (4%nat, stride); (4%nat, flags)].

(** The fixed offsets of [acquire_frame] are those of the structures: a buffer
    laid out as they say is read as the frame it describes. *)
Theorem portal_reads_the_structures m (buf spa datas chunk metas data : N)
    (user_data bsize requested n_metas n_datas type_ flags fd mapoffset maxsize coffset size stride cflags : N) :
  holds m buf (layout 0 (pw_buffer spa user_data bsize requested)) ->
  holds m spa (layout 0 (spa_buffer n_metas n_datas metas datas)) ->
  holds m datas (layout 0 (spa_data type_ flags fd mapoffset maxsize data chunk)) ->
  holds m chunk (layout 0 (spa_chunk coffset size stride cflags)) ->
  buf <> 0 -> 0 < spa < 2 ^ 64 -> 0 < datas < 2 ^ 64 -> 0 < chunk < 2 ^ 64 -> 0 < data < 2 ^ 64 ->
  metas < 2 ^ 64 -> n_metas < 2 ^ 32 -> 0 < n_datas < 2 ^ 32 -> size < 2 ^ 32 -> 4 <= stride < 2 ^ 31 ->
  stride <= size ->
  snd (Portal.acquire_frame m buf false) =
    Ok {| pixels := read m data (N.to_nat size); frame_width := stride / 4; frame_height := size / stride;
          ScreenCapture.stride := stride; dirty_rects := Portal.extract_damage_rects m metas n_metas;
          cursor_shape := None |}.
Proof.
  intros Hb Hs Hd Hc H0 Hspa Hdatas Hchunk Hdata Hmetas Hnm Hnd Hsize Hstride Hle.
  assert (E1 : read_ptr m buf = spa).
  { unfold read_ptr. rewrite <- (N.add_0_r buf). apply (read_layout m buf [] 8 spa _ 0 Hb); [reflexivity|cbn; lia]. }
  assert (E2 : read_u32 m spa = n_metas).
  { unfold read_u32. rewrite <- (N.add_0_r spa). apply (read_layout m spa [] 4 n_metas _ 0 Hs); [reflexivity|cbn; lia]. }
  assert (E3 : read_u32 m (spa + 4) = n_datas).
  { apply (read_layout m spa [(4%nat, n_metas)] 4 n_datas _ 4 Hs); [reflexivity|cbn; lia]. }
  assert (E4 : read_ptr m (spa + 8) = metas).
  { apply (read_layout m spa [(4%nat, n_metas); (4%nat, n_datas)] 8 metas _ 8 Hs); [reflexivity|cbn; lia]. }
  assert (E5 : read_ptr m (spa + 16) = datas).
  { apply (read_layout m spa [(4%nat, n_metas); (4%nat, n_datas); (8%nat, metas)] 8 datas [] 16 Hs); [reflexivity|cbn; lia]. }
  assert (E6 : read_ptr m (datas + 24) = data).
  { apply (read_layout m datas [(4%nat, type_); (4%nat, flags); (8%nat, fd); (4%nat, mapoffset); (4%nat, maxsize)]
                8 data _ 24 Hd); [reflexivity|cbn; lia]. }
  assert (E7 : read_ptr m (datas + 32) = chunk).
  { apply (read_layout m datas [(4%nat, type_); (4%nat, flags); (8%nat, fd); (4%nat, mapoffset); (4%nat, maxsize);
                                   (8%nat, data)] 8 chunk [] 32 Hd); [reflexivity|cbn; lia]. }
  assert (E8 : read_u32 m (chunk + 4) = size).
  { apply (read_layout m chunk [(4%nat, coffset)] 4 size _ 4 Hc); [reflexivity|cbn; lia]. }
  assert (E9 : read_i32 m (chunk + 8) = Z.of_N stride).
  { unfold read_i32, read_u32. rewrite (read_layout m chunk [(4%nat, coffset); (4%nat, size)] 4 stride _ 8 Hc);
      [|done|cbn; lia]. unfold as_signed. rewrite wrap_small by lia. change (2 ^ (32 - 1)) with (2 ^ 31).
    by rewrite (proj2 (N.ltb_lt _ _)) by lia. }
  unfold Portal.acquire_frame. cbv zeta. rewrite E1, E2, E3, E4, E5, E6, E7, E8, E9, N2Z.id.
  assert (Hw : stride / 4 <> 0) by (pose proof (N.div_str_pos stride 4); lia).
  assert (Hh : size / stride <> 0) by (intros Hz; apply N.div_small_iff in Hz; [clear Hsize|]; lia).
  assert (Hz : forall n, n <> 0 -> (n =? 0) = false) by (intros n; apply N.eqb_neq).
  rewrite !Hz by lia. by rewrite (proj2 (Z.leb_gt _ _)) by lia.
Qed.

(** A memory made of pieces; zero elsewhere. *)
Fixpoint memory_of (pieces : list (N * list byte)) : Memory :=
  match pieces with
  | [] => fun _ => Byte.x00
  | (p, l) :: pieces =>
      fun a => if (p <=? a) && (a <? p + lenN l) then nth (N.to_nat (a - p)) l Byte.x00
               else memory_of pieces a
  end.

Lemma portal_reads_the_structures_witness :
  let m := memory_of [(0x100, layout 0 (pw_buffer 0x200 0 0 0)); (0x200, layout 0 (spa_buffer 0 1 0 0x300));
                      (0x300, layout 0 (spa_data 1 0 7 0 64 0x500 0x400)); (0x400, layout 0 (spa_chunk 0 16 8 0));
                      (0x500, map byte_of [1; 2; 3; 4; 5; 6; 7; 8; 9; 10; 11; 12; 13; 14; 15; 16])] in
  snd (Portal.acquire_frame m 0x100 false) =
    Ok (mkFrame (read m 0x500 16) 2 2 8 (Portal.extract_damage_rects m 0 0) None).
Proof.
  cbn zeta.
  refine (portal_reads_the_structures _ 0x100 0x200 0x300 0x400 0 0x500 0 0 0 0 1 1 0 7 0 64 0 16 8 0
            _ _ _ _ _ _ _ _ _ _ _ _ _ _ _); first [vm_compute; reflexivity | lia].
Defined.
End portal.

(** ** Properties of the broker *)

(** C34: when the hasher tells the session's shapes apart, the shapes the broker
    passes on are the first occurrences of the shapes it is given, in order;
    and every answer of the back end is passed on as it is, or without its shape. *)
Theorem shapes_sent_once `{ShapeHasher} (answers : list (result CaptureError CaptureFrame)) :
  (forall s s', s ∈ omap shape_of answers -> s' ∈ omap shape_of answers ->
     hash_shape s = hash_shape s' -> s = s') ->
  omap shape_of (session cache_new answers) = firsts [] (omap shape_of answers) /\
  Forall2 (fun a r => r = a \/ (is_Some (shape_of a) /\ r = hide_shape a)) answers (session cache_new answers).
Proof.
  intros Hinj. split; [|apply session_answers]. apply session_firsts; [exact Hinj|].
  intros h. cbn. split; [intros Hh; by apply not_elem_of_empty in Hh|intros (s & Hs & _); by apply not_elem_of_nil in Hs].
Qed.

(** A hasher and two cursors: an arrow, a hand, the arrow again.  The viewer is
    left with the hand. *)
#[local] Instance width_hasher : ShapeHasher := fun s => shape_width s.

Definition frame_with (s : CursorShape) : result CaptureError CaptureFrame :=
  Ok (mkFrame [] 1 1 4 [] (Some s)).

Lemma shapes_sent_once_witness :
  let arrow := mkShape 1 1 0 0 [] in
  let hand := mkShape 2 1 0 0 [] in
  omap shape_of (session cache_new [frame_with arrow; frame_with hand; frame_with arrow]) = [arrow; hand].
Proof.
  cbn zeta.
  refine (proj1 (shapes_sent_once [frame_with (mkShape 1 1 0 0 []); frame_with (mkShape 2 1 0 0 []);
    frame_with (mkShape 1 1 0 0 [])] _)).
  intros s s' Hs Hs'. cbn in Hs, Hs'. rewrite !elem_of_cons in Hs, Hs'.
  by destruct Hs as [->|[->|[->|Hs]]], Hs' as [->|[->|[->|Hs']]]; try (by apply not_elem_of_nil in Hs);
    try (by apply not_elem_of_nil in Hs').
Defined.
