(* ===== verification/AudioChain.v ===== *)
(** The capture side of the audio chain, in binary32 with its rounding: the echo
    canceller ([core/platform/src/echo_canceller.rs]) in Module [Aec], the noise
    suppressor ([noise_suppressor.rs]) in Module [Ns], the gain control
    ([agc.rs]) in Module [Agc]; and the governor of its rate on a collapse
    ([collapse_audio.rs]) in Module [Collapse].

    Samples are [i16]s; an index into the canceller's ring is a [nat].  The
    logarithm of the statistics is a parameter. *)
From S2P Require Import Prelude F64.
From S2P Require Senders.
#[local] Open Scope N_scope.

(** ** What the stages share *)

(** [.clamp(i16::MIN as f32, i16::MAX as f32) as i16]. *)
Definition clip (x : f32) : Z := s_to_i16 (s_clamp x (s_of_Z (-32768)) (s_of_Z 32767)).

(** The squares of the samples normalised to one, summed as [f64]s, and their
    mean as an [f32]; the samples are not empty. *)
Definition square_f64 (s : Z) : f64 := let n := f_div (f_of_Z s) (f_of_Z 32768) in f_mul n n.

Definition mean_square (samples : list Z) : f32 :=
  s_of_f64 (f_div (f_sum (map square_f64 samples)) (f_of_N (lenN samples))).

Lemma clip_range x : i16_ok (clip x).
Proof. apply s_to_i16_range. Qed.

(** ** Echo canceller *)
Module Aec.
Definition AEC_FRAME_SAMPLES : nat := 480.
Definition AEC_FRAME_MS : N := 10.
Definition AEC_SAMPLE_RATE : N := 48000.
Definition AEC_FILTER_TAPS : nat := 512.
Definition AEC_STEP_SIZE : f32 := s_lit 1 10.
Definition AEC_REG_FACTOR : f32 := s_lit 1 1000.
Definition AEC_MIN_REF_POWER : f32 := s_lit 1 1000000.

Record AecStats := mkStats { echo_rms : f32; residual_rms : f32; filter_active : bool; filter_updated : bool }.

Record EchoCanceller := mkCanceller {
  weights : list f32; ref_buf : list f32; buf_head : nat; ref_power : f32; frame_count : N }.

Definition new : EchoCanceller :=
  {| weights := repeat s_zero AEC_FILTER_TAPS; ref_buf := repeat s_zero AEC_FILTER_TAPS;
     buf_head := 0; ref_power := s_zero; frame_count := 0 |}.

Definition reset (c : EchoCanceller) : EchoCanceller :=
  {| weights := map (fun _ => s_zero) (weights c); ref_buf := map (fun _ => s_zero) (ref_buf c);
     buf_head := 0; ref_power := s_zero; frame_count := 0 |}.

(** The sample [k] positions ago in the ring of [n]. *)
Definition tap (n : nat) (c : EchoCanceller) (k : nat) : f32 :=
  nth ((buf_head c + n - k) mod n) (ref_buf c) s_zero.

Definition dot_product (n : nat) (c : EchoCanceller) : f32 :=
  fold_left (fun sum k => s_add sum (s_mul (nth k (weights c) s_zero) (tap n c k))) (seq 0 n) s_zero.

(** A sample's statistics, carried through the frame. *)
Record Sums := mkSums { echo_sq : f32; residual_sq : f32; any_updated : bool }.

(** The body of the loop on a reference sample and a microphone sample. *)
Definition process_sample (n : nat) (c : EchoCanceller) (t : Sums) (reference mic : Z) :
    EchoCanceller * Sums * Z :=
  let ref_norm := s_div (s_of_Z reference) (s_of_Z 32768) in
  let mic_norm := s_div (s_of_Z mic) (s_of_Z 32768) in
  let old := nth (buf_head c) (ref_buf c) s_zero in
  let buf := <[buf_head c := ref_norm]> (ref_buf c) in
  let power := s_add (ref_power c) (s_sub (s_mul ref_norm ref_norm) (s_mul old old)) in
  let power := s_max power s_zero in
  let c := {| weights := weights c; ref_buf := buf; buf_head := buf_head c; ref_power := power;
              frame_count := frame_count c |} in
  let echo_est := dot_product n c in
  let error := s_sub mic_norm echo_est in
  let adapt := SFltb AEC_MIN_REF_POWER power in
  let step := s_div AEC_STEP_SIZE (s_add AEC_REG_FACTOR power) in
  let w := if adapt
           then imap (fun k w => s_add w (s_mul (s_mul step error) (tap n c k))) (weights c)
           else weights c in
  ({| weights := w; ref_buf := buf; buf_head := (buf_head c + 1) mod n; ref_power := power;
      frame_count := frame_count c |},
   {| echo_sq := s_add (echo_sq t) (s_mul echo_est echo_est);
      residual_sq := s_add (residual_sq t) (s_mul error error);
      any_updated := adapt || any_updated t |},
   clip (s_mul error (s_of_Z 32768))).

Fixpoint process_loop (n : nat) (c : EchoCanceller) (t : Sums) (pairs : list (Z * Z)) :
    EchoCanceller * Sums * list Z :=
  match pairs with
  | [] => (c, t, [])
  | (r, m) :: pairs =>
      let '(c, t, out) := process_sample n c t r m in
      let '(c, t, rest) := process_loop n c t pairs in
      (c, t, out :: rest)
  end.

Definition stats (count : N) (t : Sums) : AecStats :=
  let nf := s_of_Z (Z.of_nat AEC_FRAME_SAMPLES) in
  {| echo_rms := s_sqrt (s_div (echo_sq t) nf); residual_rms := s_sqrt (s_div (residual_sq t) nf);
     filter_active := 1 <=? count; filter_updated := any_updated t |}.

Definition sums_new : Sums := {| echo_sq := s_zero; residual_sq := s_zero; any_updated := false |}.

(** [mic] and [reference] have a frame's samples each. *)
Definition process_frame (c : EchoCanceller) (mic reference : list Z) : EchoCanceller * list Z * AecStats :=
  let '(c, t, out) := process_loop AEC_FILTER_TAPS c sums_new (zip reference mic) in
  let count := wrapping_add 32 (frame_count c) 1 in
  ({| weights := weights c; ref_buf := ref_buf c; buf_head := buf_head c; ref_power := ref_power c;
      frame_count := count |}, out, stats count t).
End Aec.

(** ** Noise suppressor *)
Module Ns.
Definition NS_FRAME_SAMPLES : nat := 480.
Definition NS_FRAME_MS : N := 10.
Definition NS_SAMPLE_RATE : N := 48000.
Definition NS_FLOOR_ATTACK : f32 := s_lit 8 10.
Definition NS_FLOOR_RELEASE : f32 := s_lit 5 100.
Definition NS_FLOOR_MAX_SNR : f32 := s_of_Z 4.
Definition NS_VAD_SMOOTH : f32 := s_lit 15 100.
Definition NS_ENERGY_FLOOR : f32 := s_lit 1 100000000.
Definition NS_VAD_THRESHOLD : f32 := s_lit 5 10.

Record NsStats := mkStats {
  vad_probability : f32; voice_active : bool; gain_linear : f32; noise_floor_rms : f32 }.

Record NoiseSuppressor := mkSuppressor { noise_floor : f32; smoothed_vad : f32 }.

Definition new : NoiseSuppressor := {| noise_floor := s_zero; smoothed_vad := s_zero |}.

Definition compute_normalised_energy (samples : list Z) : f32 :=
  if bool_decide (samples = []) then s_zero else mean_square samples.

Definition update_noise_floor (s : NoiseSuppressor) (frame_energy : f32) : NoiseSuppressor :=
  let floor := noise_floor s in
  let floor :=
    if SFleb floor NS_ENERGY_FLOOR then
      if SFltb NS_ENERGY_FLOOR frame_energy then frame_energy else floor
    else if SFltb frame_energy floor then
      s_add floor (s_mul NS_FLOOR_ATTACK (s_sub frame_energy floor))
    else
      let snr := s_div frame_energy floor in
      if SFltb snr NS_FLOOR_MAX_SNR
      then s_add floor (s_mul NS_FLOOR_RELEASE (s_sub frame_energy floor)) else floor in
  {| noise_floor := s_max floor NS_ENERGY_FLOOR; smoothed_vad := smoothed_vad s |}.

Definition process_frame (s : NoiseSuppressor) (samples : list Z) : NoiseSuppressor * list Z * NsStats :=
  let frame_energy := compute_normalised_energy samples in
  let s := update_noise_floor s frame_energy in
  let one := s_of_Z 1 in
  let gain := if SFltb NS_ENERGY_FLOOR frame_energy
              then s_max (s_sub one (s_div (noise_floor s) frame_energy)) s_zero else s_zero in
  let out := map (fun x => clip (s_mul (s_of_Z x) gain)) samples in
  let snr := s_div frame_energy (noise_floor s) in
  let vad_raw := s_sub one (s_div one (s_max snr one)) in
  let vad := s_add (s_mul (s_sub one NS_VAD_SMOOTH) (smoothed_vad s)) (s_mul NS_VAD_SMOOTH vad_raw) in
  ({| noise_floor := noise_floor s; smoothed_vad := vad |}, out,
   {| vad_probability := vad; voice_active := SFleb NS_VAD_THRESHOLD vad; gain_linear := gain;
      noise_floor_rms := s_sqrt (noise_floor s) |}).
End Ns.

(** ** Gain control *)
Module Agc.
Definition AGC_TARGET_RMS : f32 := s_lit 125893 1000000.
Definition AGC_MAX_GAIN : f32 := s_lit 31623 1000.
Definition AGC_MIN_GAIN : f32 := s_of_Z 1.
Definition AGC_ENVELOPE_ATTACK : f32 := s_lit 9 10.
Definition AGC_ENVELOPE_RELEASE : f32 := s_lit 2 100.
Definition AGC_GAIN_DECREASE_COEFF : f32 := s_lit 2 10.
Definition AGC_GAIN_INCREASE_COEFF : f32 := s_lit 5 100.
Definition AGC_ENVELOPE_FLOOR : f32 := s_lit 1 10000.

Section agc.
Variable log10 : f32 -> f32.

Record AgcStats := mkStats { gain_linear : f32; gain_db : f32; gain_updated : bool }.

Record AgcProcessor := mkAgc { gain : f32; envelope : f32 }.

Definition new : AgcProcessor := {| gain := AGC_MIN_GAIN; envelope := s_zero |}.

Definition compute_rms_normalised (samples : list Z) : f32 :=
  if bool_decide (samples = []) then s_zero else s_sqrt (mean_square samples).

Definition track (a : AgcProcessor) (rms : f32) : f32 :=
  let coeff := if SFltb (envelope a) rms then AGC_ENVELOPE_ATTACK else AGC_ENVELOPE_RELEASE in
  s_add (envelope a) (s_mul coeff (s_sub rms (envelope a))).

Definition amplify (g : f32) (samples : list Z) : list Z := map (fun x => clip (s_mul (s_of_Z x) g)) samples.

Definition process_frame (a : AgcProcessor) (samples : list Z) (voice_active : bool) :
    AgcProcessor * list Z * AgcStats :=
  let env := track a (compute_rms_normalised samples) in
  let updated := voice_active && SFltb AGC_ENVELOPE_FLOOR env in
  let g :=
    if updated then
      let desired := s_clamp (s_div AGC_TARGET_RMS env) AGC_MIN_GAIN AGC_MAX_GAIN in
      let coeff := if SFltb desired (gain a) then AGC_GAIN_DECREASE_COEFF else AGC_GAIN_INCREASE_COEFF in
      s_add (gain a) (s_mul coeff (s_sub desired (gain a)))
    else gain a in
  ({| gain := g; envelope := env |}, amplify g samples,
   {| gain_linear := g; gain_db := s_mul (s_of_Z 20) (log10 g); gain_updated := updated |}).

(** The frames of a stream, each with its voice flag. *)
Fixpoint process_frames (a : AgcProcessor) (frames : list (list Z * bool)) : AgcProcessor * list (list Z) :=
  match frames with
  | [] => (a, [])
  | (f, v) :: frames =>
      let '(a, out, _) := process_frame a f v in
      let '(a, outs) := process_frames a frames in (a, out :: outs)
  end.
End agc.
End Agc.

(** ** The audio step-down on a collapse *)
Module Collapse.
Definition COLLAPSE_AUDIO_BPS : N := 12000.
Definition COLLAPSE_DRED_DEPTH_FRAMES : N := Senders.Redundancy.MAX_DRED_DEPTH_FRAMES.
Definition COLLAPSE_THRESHOLD_RATIO : f64 := f_lit 70 100.
Definition COLLAPSE_HOLD_TICKS : N := 30.

Inductive CollapseAudioResponse := Normal | Stepped (audio_bps dred_depth_frames : N).

Record CollapseAudioGovernor := mkGovernor { prev_bps : option f64; hold_remaining : N }.

Definition new : CollapseAudioGovernor := {| prev_bps := None; hold_remaining := 0 |}.

Definition collapse (prev : option f64) (current_bps : f64) : bool :=
  match prev with
  | Some prev => SFltb f_zero prev && SFltb current_bps (f_mul prev COLLAPSE_THRESHOLD_RATIO)
  | None => false
  end.

Definition tick (g : CollapseAudioGovernor) (current_bps : f64) : CollapseAudioGovernor * CollapseAudioResponse :=
  let is_collapse := collapse (prev_bps g) current_bps in
  let hold := if is_collapse then COLLAPSE_HOLD_TICKS else hold_remaining g in
  let in_collapse := is_collapse || (0 <? hold) in
  let hold' := if negb is_collapse && (0 <? hold) then hold - 1 else hold in
  ({| prev_bps := Some current_bps; hold_remaining := hold' |},
   if in_collapse then Stepped COLLAPSE_AUDIO_BPS COLLAPSE_DRED_DEPTH_FRAMES else Normal).

Definition is_in_collapse (g : CollapseAudioGovernor) : bool := 0 <? hold_remaining g.
End Collapse.

(** ** The canceller against a delay line *)

(** The reference: the last samples in a list, newest first; the textbook
    normalised least mean squares on it. *)
Record Line := mkLine { taps : list f32; window : list f32; power : f32; count : N }.

Definition line_new : Line :=
  {| taps := repeat s_zero Aec.AEC_FILTER_TAPS; window := repeat s_zero Aec.AEC_FILTER_TAPS;
     power := s_zero; count := 0 |}.

Definition inner (w x : list f32) : f32 :=
  fold_left (fun sum p => s_add sum (s_mul (fst p) (snd p))) (zip w x) s_zero.

Definition line_sample (l : Line) (t : Aec.Sums) (reference mic : Z) : Line * Aec.Sums * Z :=
  let r := s_div (s_of_Z reference) (s_of_Z 32768) in
  let d := s_div (s_of_Z mic) (s_of_Z 32768) in
  let oldest := List.last (window l) s_zero in
  let x := r :: removelast (window l) in
  let p := s_max (s_add (power l) (s_sub (s_mul r r) (s_mul oldest oldest))) s_zero in
  let y := inner (taps l) x in
  let e := s_sub d y in
  let adapt := SFltb Aec.AEC_MIN_REF_POWER p in
  let mu := s_div Aec.AEC_STEP_SIZE (s_add Aec.AEC_REG_FACTOR p) in
  ({| taps := if adapt then zip_with (fun w x => s_add w (s_mul (s_mul mu e) x)) (taps l) x else taps l;
      window := x; power := p; count := count l |},
   {| Aec.echo_sq := s_add (Aec.echo_sq t) (s_mul y y);
      Aec.residual_sq := s_add (Aec.residual_sq t) (s_mul e e);
      Aec.any_updated := adapt || Aec.any_updated t |},
   clip (s_mul e (s_of_Z 32768))).

Fixpoint line_loop (l : Line) (t : Aec.Sums) (pairs : list (Z * Z)) : Line * Aec.Sums * list Z :=
  match pairs with
  | [] => (l, t, [])
  | (r, m) :: pairs =>
      let '(l, t, out) := line_sample l t r m in
      let '(l, t, rest) := line_loop l t pairs in (l, t, out :: rest)
  end.

Definition line_frame (l : Line) (mic reference : list Z) : Line * list Z * Aec.AecStats :=
  let '(l, t, out) := line_loop l Aec.sums_new (zip reference mic) in
  let c := wrapping_add 32 (count l) 1 in
  ({| taps := taps l; window := window l; power := power l; count := c |}, out, Aec.stats c t).

(** A stream of frames through the canceller and through the reference. *)
Fixpoint cancel (c : Aec.EchoCanceller) (frames : list (list Z * list Z)) : list (list Z * Aec.AecStats) :=
  match frames with
  | [] => []
  | (m, r) :: frames => let '(c, out, st) := Aec.process_frame c m r in (out, st) :: cancel c frames
  end.

Fixpoint line_cancel (l : Line) (frames : list (list Z * list Z)) : list (list Z * Aec.AecStats) :=
  match frames with
  | [] => []
  | (m, r) :: frames => let '(l, out, st) := line_frame l m r in (out, st) :: line_cancel l frames
  end.

Section delay_line.
Context (n : nat) (Hn : (0 < n)%nat).
Implicit Types (c : Aec.EchoCanceller) (l : Line).

(** The ring read backwards from its head. *)
Definition unrolled c : list f32 :=
  map (fun k => nth ((Aec.buf_head c + n - 1 - k) mod n) (Aec.ref_buf c) s_zero) (seq 0 n).

Definition represents c l : Prop :=
  taps l = Aec.weights c /\ window l = unrolled c /\ power l = Aec.ref_power c /\
  count l = Aec.frame_count c /\
  length (Aec.weights c) = n /\ length (Aec.ref_buf c) = n /\ (Aec.buf_head c < n)%nat.

Lemma mod_once a : (a < 2 * n)%nat -> (a mod n = if decide (a < n) then a else a - n)%nat.
Proof.
  intros Ha. case_decide; [by apply Nat.mod_small|].
  rewrite <- (Nat.mod_small (a - n) n) by lia. rewrite <- (Nat.Div0.mod_add (a - n) 1 n). f_equal. lia.
Qed.

Lemma fold_left_same {A B} (f g : A -> B -> A) (js : list B) a :
  (forall a i, f a i = g a i) -> fold_left f js a = fold_left g js a.
Proof. intros He. revert a. induction js as [|j js IH]; intros a; [done|]. cbn. by rewrite He, IH. Qed.

(** Sums and maps over two lists, one of them given by position. *)
Lemma fold_zip_seq (w : list f32) (g : nat -> f32) k a :
  fold_left (fun sum i => s_add sum (s_mul (nth (i - k) w s_zero) (g i))) (seq k (length w)) a =
  fold_left (fun sum p => s_add sum (s_mul (fst p) (snd p))) (zip w (map g (seq k (length w)))) a.
Proof.
  revert k a. induction w as [|x w IH]; intros k a; [done|]. cbn [length seq map zip zip_with fold_left fst snd].
  rewrite Nat.sub_diag. cbn [nth]. rewrite <- IH.
  generalize (s_add a (s_mul x (g k))). intros b.
  assert (He : forall (js : list nat) b, (forall i, In i js -> (k < i)%nat) ->
    fold_left (fun sum i => s_add sum (s_mul (nth (i - k) (x :: w) s_zero) (g i))) js b =
    fold_left (fun sum i => s_add sum (s_mul (nth (i - S k) w s_zero) (g i))) js b).
  { induction js as [|i js IHl]; intros b' Hl; [done|]. cbn [fold_left].
    assert (Hi : (k < i)%nat) by (apply Hl; by left). replace (i - k)%nat with (S (i - S k)) by lia. cbn [nth].
    apply IHl. intros j Hj. apply Hl. by right. }
  apply He. intros i Hi%in_seq. lia.
Qed.

Lemma imap_zip_seq (w : list f32) (h : f32 -> f32 -> f32) (g : nat -> f32) k :
  imap (fun i x => h x (g (k + i)%nat)) w = zip_with h w (map g (seq k (length w))).
Proof.
  revert k. induction w as [|x w IH]; intros k; [done|]. cbn [imap length seq map zip_with].
  rewrite Nat.add_0_r. f_equal. rewrite <- (IH (S k)). apply imap_ext. intros i y _. cbn. do 2 f_equal. lia.
Qed.

(** After the new sample is written the taps are the sample and what was there. *)
Lemma taps_after c r p fc w :
  length (Aec.ref_buf c) = n -> (Aec.buf_head c < n)%nat ->
  map (Aec.tap n (Aec.mkCanceller w (<[Aec.buf_head c := r]> (Aec.ref_buf c)) (Aec.buf_head c) p fc)) (seq 0 n) =
  r :: removelast (unrolled c).
Proof.
  intros Hl Hh. unfold unrolled. assert (exists m, n = S m) as [m En] by (exists (n - 1)%nat; lia).
  assert (Es : seq 0 n = seq 0 m ++ [m]) by (rewrite En, seq_S; done).
  rewrite Es at 2. rewrite map_app. cbn [map]. rewrite removelast_last.
  replace (seq 0 n) with (0%nat :: seq 1 m) by (by rewrite En). cbn [map]. f_equal.
  - unfold Aec.tap. cbn. rewrite Nat.sub_0_r, mod_once, decide_False by lia.
    replace (Aec.buf_head c + n - n)%nat with (Aec.buf_head c) by lia.
    rewrite nth_lookup, list_lookup_insert_eq by lia. done.
  - rewrite <- seq_shift, map_map. apply map_ext_in. intros k Hk%in_seq. unfold Aec.tap. cbn [Aec.buf_head Aec.ref_buf].
    replace (Aec.buf_head c + n - S k)%nat with (Aec.buf_head c + n - 1 - k)%nat by lia.
    rewrite !nth_lookup, list_lookup_insert_ne; [done|]. rewrite mod_once by lia. case_decide; lia.
Qed.

Lemma oldest_eq c : (Aec.buf_head c < n)%nat ->
  List.last (unrolled c) s_zero = nth (Aec.buf_head c) (Aec.ref_buf c) s_zero.
Proof.
  intros Hh. unfold unrolled. assert (exists m, n = S m) as [m En] by (exists (n - 1)%nat; lia).
  replace (seq 0 n) with (seq 0 m ++ [m]) by (by rewrite En, seq_S). rewrite map_app. cbn [map]. rewrite List.last_last. f_equal. rewrite mod_once by lia. case_decide; lia.
Qed.

Lemma sample_represents c l t reference mic :
  represents c l ->
  let '(c', t', o) := Aec.process_sample n c t reference mic in
  let '(l', t'', o') := line_sample l t reference mic in
  represents c' l' /\ t' = t'' /\ o = o'.
Proof.
  intros (Ht & Hw & Hp & Hc & Lw & Lb & Hh). unfold Aec.process_sample, line_sample.
  rewrite Ht, Hw, Hp, oldest_eq by done.
  set (r := s_div (s_of_Z reference) _). set (old := nth (Aec.buf_head c) _ _).
  set (p := s_max _ s_zero). set (c1 := {| Aec.weights := Aec.weights c |}).
  assert (Ex : map (Aec.tap n c1) (seq 0 n) = r :: removelast (unrolled c)) by (by apply taps_after).
  assert (Ed : Aec.dot_product n c1 = inner (Aec.weights c) (r :: removelast (unrolled c))).
  { unfold Aec.dot_product, inner. rewrite <- Ex, <- Lw. rewrite <- fold_zip_seq.
    cbn [c1 Aec.weights]. rewrite Lw. apply fold_left_same. intros a i. by rewrite Nat.sub_0_r. }
  rewrite Ed. set (y := inner _ _). set (e := s_sub _ y). set (mu := s_div Aec.AEC_STEP_SIZE _).
  assert (Ei : imap (fun k w => s_add w (s_mul (s_mul mu e) (Aec.tap n c1 k))) (Aec.weights c) =
    zip_with (fun w x => s_add w (s_mul (s_mul mu e) x)) (Aec.weights c) (r :: removelast (unrolled c))).
  { rewrite <- Ex, <- Lw.
    exact (imap_zip_seq (Aec.weights c) (fun w x => s_add w (s_mul (s_mul mu e) x)) (Aec.tap _ c1) 0). }
  split; [|done]. unfold represents. cbn [taps window power count Aec.weights Aec.ref_buf Aec.buf_head
    Aec.ref_power Aec.frame_count]. change (Aec.weights c1) with (Aec.weights c). change (Aec.buf_head c1) with (Aec.buf_head c). rewrite Ei. split; [done|]. split.
  - rewrite <- Ex. unfold unrolled. apply map_ext_in. intros k Hk%in_seq. unfold Aec.tap. cbn [c1 Aec.buf_head Aec.ref_buf].
    f_equal. rewrite (mod_once (Aec.buf_head c + 1)) by lia. rewrite !mod_once by (repeat case_decide; lia).
    repeat case_decide; lia.
  - split; [done|]. split; [done|]. rewrite length_insert. split; [|split; [done|apply Nat.mod_upper_bound; lia]].
    destruct (SFltb _ _); [|done]. rewrite <- Ei. by rewrite length_imap.
Qed.

Lemma loop_represents c l t pairs :
  represents c l ->
  let '(c', t', o) := Aec.process_loop n c t pairs in
  let '(l', t'', o') := line_loop l t pairs in
  represents c' l' /\ t' = t'' /\ o = o'.
Proof.
  revert c l t. induction pairs as [|[r m] pairs IH]; intros c l t Hr; cbn [Aec.process_loop line_loop]; [done|].
  pose proof (sample_represents c l t r m Hr) as Hs.
  destruct (Aec.process_sample n c t r m) as [[c1 t1] o1]. destruct (line_sample l t r m) as [[l1 t2] o2].
  destruct Hs as (Hr1 & <- & <-). specialize (IH c1 l1 t1 Hr1).
  destruct (Aec.process_loop n c1 t1 pairs) as [[c2 t3] o3]. destruct (line_loop l1 t1 pairs) as [[l2 t4] o4].
  by destruct IH as (? & <- & <-).
Qed.
End delay_line.

Lemma new_represents : represents Aec.AEC_FILTER_TAPS Aec.new line_new.
Proof.
  unfold represents, Aec.new, line_new. cbn [taps window power count Aec.weights Aec.ref_buf Aec.buf_head
    Aec.ref_power Aec.frame_count]. rewrite repeat_length.
  assert (Hn : (0 < Aec.AEC_FILTER_TAPS)%nat) by (apply Nat.ltb_lt; reflexivity).
  split_and!; [done|vm_compute; reflexivity|done..].
Qed.

Lemma frame_represents c l mic reference :
  represents Aec.AEC_FILTER_TAPS c l ->
  let '(c', o, st) := Aec.process_frame c mic reference in
  let '(l', o', st') := line_frame l mic reference in
  represents Aec.AEC_FILTER_TAPS c' l' /\ o = o' /\ st = st'.
Proof.
  intros Hr. unfold Aec.process_frame, line_frame.
  assert (Hn : (0 < Aec.AEC_FILTER_TAPS)%nat) by (apply Nat.ltb_lt; reflexivity).
  pose proof (loop_represents _ Hn c l Aec.sums_new (zip reference mic) Hr) as Hl.
  destruct (Aec.process_loop _ c Aec.sums_new (zip reference mic)) as [[c1 t1] o1].
  destruct (line_loop l Aec.sums_new (zip reference mic)) as [[l1 t2] o2].
  destruct Hl as ((H1 & H2 & H3 & H4 & H5 & H6 & H7) & <- & <-).
  rewrite H4. split; [|done]. unfold represents. split; [exact H1|]. split; [exact H2|].
  split; [exact H3|]. split; [done|]. split; [exact H5|]. split; [exact H6|exact H7].
Qed.

(** C15: the echo canceller with its ring buffer and its running power is the
    textbook adaptive filter on a delay line: for every stream of frames, the
    samples and the statistics it answers are, bit for bit, those of the
    reference that keeps the last samples in a list. *)
Theorem canceller_is_a_delay_line (frames : list (list Z * list Z)) :
  cancel Aec.new frames = line_cancel line_new frames.
Proof.
  assert (H : forall c l, represents Aec.AEC_FILTER_TAPS c l -> cancel c frames = line_cancel l frames).
  { induction frames as [|[m r] frames IH]; intros c l Hr; cbn [cancel line_cancel]; [done|].
    pose proof (frame_represents c l m r Hr) as Hf.
    destruct (Aec.process_frame c m r) as [[c' o] st]. destruct (line_frame l m r) as [[l' o'] st'].
    destruct Hf as (Hr' & <- & <-). f_equal. by apply IH. }
  apply H, new_represents.
Qed.

(** ** Noise suppressor *)
Section suppressor.
Implicit Types (s : Ns.NoiseSuppressor).

(** A number not below the energy floor. *)
Definition floored (x : f32) : Prop := s_is_nan x = false /\ SFltb x Ns.NS_ENERGY_FLOOR = false.

(** Whatever the frame, the noise floor is afterwards a number at least the
    energy floor, so that the ratios divide by no zero. *)
Theorem noise_floor_is_floored s (samples : list Z) :
  floored (Ns.noise_floor (fst (fst (Ns.process_frame s samples)))).
Proof.
  unfold Ns.process_frame, Ns.update_noise_floor. cbn [fst Ns.noise_floor].
  match goal with |- floored (s_max ?x _) => set (floor := x) end.
  destruct (s_max_number floor Ns.NS_ENERGY_FLOOR eq_refl) as [Hn [He|[He Hl]]]; split; try done; rewrite He; done.
Qed.

Lemma clip_times_zero x : clip (s_mul x s_zero) = 0%Z.
Proof. by destruct x as [[]|[]| |[]]. Qed.

(** A frame whose energy is not above the floor comes out as silence. *)
Theorem quiet_frames_are_silenced s (samples : list Z) :
  SFltb Ns.NS_ENERGY_FLOOR (Ns.compute_normalised_energy samples) = false ->
  snd (fst (Ns.process_frame s samples)) = map (fun _ => 0%Z) samples /\
  Ns.gain_linear (snd (Ns.process_frame s samples)) = s_zero.
Proof.
  intros Hq. unfold Ns.process_frame. rewrite Hq. cbn [fst snd Ns.gain_linear]. split; [|done].
  apply map_ext. intros x. apply clip_times_zero.
Qed.

Lemma quiet_frames_are_silenced_witness :
  snd (fst (Ns.process_frame Ns.new [1; -1; 2]%Z)) = [0; 0; 0]%Z.
Proof.
  refine (proj1 (quiet_frames_are_silenced Ns.new [1; -1; 2]%Z _)). vm_compute. reflexivity.
Defined.
End suppressor.

(** ** Gain control *)
Section gain.
Context (log10 : f32 -> f32).
Implicit Types (a : Agc.AgcProcessor).

(** While no voice is heard the gain stays what it was: every frame comes out
    amplified by the same gain. *)
Theorem silence_freezes_the_gain a (frames : list (list Z * bool)) :
  Forall (fun f => snd f = false) frames ->
  Agc.gain (fst (Agc.process_frames log10 a frames)) = Agc.gain a /\
  snd (Agc.process_frames log10 a frames) = map (fun f => Agc.amplify (Agc.gain a) (fst f)) frames.
Proof.
  intros Hf. revert a. induction Hf as [|[f v] frames Hv _ IH]; intros a; [done|]. cbn [snd] in Hv. subst v.
  cbn [Agc.process_frames]. unfold Agc.process_frame. cbn [andb].
  set (a1 := {| Agc.gain := Agc.gain a |}). destruct (IH a1) as [H1 H2].
  destruct (Agc.process_frames log10 a1 frames) as [a2 outs]. cbn [fst snd map] in *. by rewrite H1, H2.
Qed.

Lemma silence_freezes_the_gain_witness :
  Agc.gain (fst (Agc.process_frames log10 Agc.new [([1000; -1000]%Z, false)])) = Agc.AGC_MIN_GAIN.
Proof.
  refine (proj1 (silence_freezes_the_gain Agc.new [([1000; -1000]%Z, false)] _)). repeat constructor.
Defined.

(** No frame makes a sample leave the sixteen bits, whatever the gain. *)
Theorem amplified_samples_fit a (samples : list Z) (voice : bool) :
  Forall i16_ok (snd (fst (Agc.process_frame log10 a samples voice))).
Proof.
  unfold Agc.process_frame, Agc.amplify. cbn [fst snd]. rewrite List.Forall_forall. intros z Hz.
  apply in_map_iff in Hz as (x & <- & _). apply clip_range.
Qed.
End gain.

(** ** The step-down *)
Section collapse.
Implicit Types (rates : list f64).

Definition states rates : Collapse.CollapseAudioGovernor :=
  fold_left (fun g b => fst (Collapse.tick g b)) rates Collapse.new.

(** The rate collapsed at a tick: it fell by more than the ratio from the tick
    before. *)
Definition collapsed rates (j : nat) : Prop :=
  exists p c, rates !! j = Some p /\ rates !! S j = Some c /\ Collapse.collapse (Some p) c = true.

(** The response to the last of the rates. *)
Definition response rates : option Collapse.CollapseAudioResponse :=
  match last rates with
  | None => None
  | Some b => Some (snd (Collapse.tick (states (removelast rates)) b))
  end.

Lemma states_prev rates : Collapse.prev_bps (states rates) = last rates.
Proof.
  destruct rates as [|b rates _] using rev_ind; [done|]. unfold states. by rewrite fold_left_app, last_snoc.
Qed.

Lemma collapsed_snoc rates b j :
  collapsed (rates ++ [b]) j <->
  collapsed rates j \/ (S j = length rates /\ Collapse.collapse (last rates) b = true).
Proof.
  unfold collapsed. split.
  - intros (p & c & Hp & Hc & Hk). pose proof (lookup_lt_Some _ _ _ Hc) as Hl. rewrite length_app in Hl. cbn in Hl.
    rewrite lookup_app_l in Hp by lia. destruct (decide (S j < length rates)%nat) as [Hj|Hj].
    + left. exists p, c. rewrite lookup_app_l in Hc by lia. done.
    + right. split; [lia|]. rewrite lookup_app_r in Hc by lia.
      replace (S j - length rates)%nat with O in Hc by lia. injection Hc as ->.
      rewrite last_lookup. replace (pred (length rates)) with j by lia. by rewrite Hp.
  - intros [(p & c & Hp & Hc & Hk)|[Hj Hk]].
    + exists p, c. rewrite !lookup_app_l by (eapply lookup_lt_Some; eassumption). done.
    + rewrite last_lookup in Hk. replace (pred (length rates)) with j in Hk by lia.
      destruct (rates !! j) as [p|] eqn:Hp; [|done]. exists p, b.
      rewrite lookup_app_l by lia. rewrite Hp, lookup_app_r by lia.
      by replace (S j - length rates)%nat with O by lia.
Qed.

(** The ticks held are those that remain of the last collapse. *)
Definition holds_last rates : Prop :=
  let h := N.to_nat (Collapse.hold_remaining (states rates)) in
  (h <= 30)%nat /\
  (forall j, collapsed rates j -> (30 + S (S j) <= h + length rates)%nat) /\
  (h = 0%nat \/ exists j, collapsed rates j /\ (h + length rates = 30 + S (S j))%nat).

Lemma states_hold rates : holds_last rates.
Proof.
  induction rates as [|b rates (Hle & Hall & Hex)] using rev_ind.
  { split; [cbn; lia|]. split; [intros j (p & c & Hp & _); by rewrite lookup_nil in Hp|by left]. }
  unfold holds_last. replace (states (rates ++ [b])) with (fst (Collapse.tick (states rates) b))
    by (unfold states; by rewrite fold_left_app).
  unfold Collapse.tick. rewrite states_prev. cbn [fst Collapse.hold_remaining].
  set (h := Collapse.hold_remaining (states rates)) in *. rewrite length_app. cbn [length].
  setoid_rewrite collapsed_snoc. destruct (Collapse.collapse (last rates) b) eqn:Ec; cbn [negb andb].
  - change (N.to_nat Collapse.COLLAPSE_HOLD_TICKS) with 30%nat. split; [lia|].
    assert (Hr : rates <> []) by (by intros ->). split.
    + intros j [Hj|[Hj _]]; [specialize (Hall j Hj)|]; lia.
    + right. exists (pred (length rates)). destruct rates; [done|]. cbn. split; [right; split; [lia|done]|lia].
  - destruct (N.ltb_spec 0 h).
    + split; [lia|]. split.
      * intros j [Hj|[_ ?]]; [specialize (Hall j Hj); lia|done].
      * destruct Hex as [Hex|(j & Hj & He)]; [lia|]. destruct (decide (h = 1)); [left; lia|].
        right. exists j. split; [by left|lia].
    + split; [lia|]. split; [|left; lia]. intros j [Hj|[_ ?]]; [specialize (Hall j Hj); lia|done].
Qed.

(** The audio is stepped down at a tick exactly when the rate collapsed at that
    tick or at one of the thirty before it. *)
Theorem stepped_for_the_hold rates (b : f64) :
  response (rates ++ [b]) = Some (Collapse.Stepped Collapse.COLLAPSE_AUDIO_BPS Collapse.COLLAPSE_DRED_DEPTH_FRAMES) <->
  exists j, collapsed (rates ++ [b]) j /\ (S j <= length rates <= S j + 30)%nat.
Proof.
  unfold response. rewrite last_snoc, removelast_last. destruct (states_hold rates) as (Hle & Hall & Hex).
  setoid_rewrite collapsed_snoc. unfold Collapse.tick. rewrite states_prev. cbn [snd].
  set (h := Collapse.hold_remaining (states rates)) in *.
  destruct (Collapse.collapse (last rates) b) eqn:Ec; cbn [orb].
  - split; [|done]. intros _. exists (pred (length rates)). destruct rates; [done|]. cbn. split; [right; split; [lia|done]|lia].
  - destruct (N.ltb_spec 0 h) as [Hh|Hh].
    + split; [|done]. intros _. destruct Hex as [?|(j & Hj & He)]; [lia|]. exists j. split; [by left|].
      destruct Hj as (p & c & _ & Hc & _). apply lookup_lt_Some in Hc. lia.
    + split; [done|]. intros (j & [Hj|[_ ?]] & Hb); [|done]. specialize (Hall j Hj). lia.
Qed.
End collapse.
