(* ===== verification/Denoise.v ===== *)
(** The camera pre-filter: [core/platform/src/denoise_prefilter.rs].

    A BGRA frame is a list of bytes, coordinates and offsets are [nat]s.  The
    scratch buffer outlives the call, so it is a state; a slice out of range is
    a panic, [None]. *)
From S2P Require Import Prelude.
#[local] Open Scope nat_scope.

(** [DenoisePrefilter]: its scratch buffer. *)
Definition DenoisePrefilter : Type := list byte.
Definition new : DenoisePrefilter := [].

(** [a..=b] for the rows or the columns about [y], within [h]. *)
Definition box (y h : nat) : list nat :=
  let y0 := y - 1 in
  let y1 := Nat.min (y + 1) (h - 1) in
  seq y0 (S y1 - y0).

(** The offsets of the neighbourhood's pixels, row by row. *)
Definition neighbourhood (w h s : nat) (c : nat * nat) : list nat :=
  flat_map (fun ny => map (fun nx => ny * s + nx * 4) (box (snd c) w)) (box (fst c) h).

(** The mean of the channel [k] over the neighbourhood. *)
Definition channel_mean (src : list byte) (offs : list nat) (k : nat) : option byte :=
  vs ← mapM (fun off => src !! (off + k)) offs;
  Some (byte_of (N.div (sum_of Byte.to_N vs) (lenN offs))).

(** [pixels[i] = v]. *)
Definition set_at (px : list byte) (i : nat) (v : byte) : option (list byte) :=
  if decide (i < length px) then Some (<[i := v]> px) else None.

Definition filter_pixel (w h s : nat) (src : list byte) (px : list byte) (c : nat * nat) : option (list byte) :=
  let offs := neighbourhood w h s c in
  b ← channel_mean src offs 0; g ← channel_mean src offs 1; r ← channel_mean src offs 2;
  let off := fst c * s + snd c * 4 in
  px ← set_at px off b; px ← set_at px (off + 1) g; set_at px (off + 2) r.

(** The two loops: rows, then columns. *)
Definition coords (w h : nat) : list (nat * nat) :=
  flat_map (fun y => map (fun x => (y, x)) (seq 0 w)) (seq 0 h).

Fixpoint filter_pixels (w h s : nat) (src : list byte) (px : list byte) (cs : list (nat * nat)) :
    option (list byte) :=
  match cs with
  | [] => Some px
  | c :: cs => px ← filter_pixel w h s src px c; filter_pixels w h s src px cs
  end.

(** [scratch[..needed].copy_from_slice(&pixels[..needed])] after the resize. *)
Definition load_scratch (scratch pixels : list byte) (needed : nat) : option (list byte) :=
  if decide (needed <= length pixels)
  then Some (take needed pixels ++ drop needed scratch)
  else None.

Definition apply (scratch : DenoisePrefilter) (pixels : list byte) (width height stride : N) :
    option (DenoisePrefilter * list byte) :=
  if ((width =? 0) || (height =? 0))%N then Some (scratch, pixels)
  else
    let w := N.to_nat width in
    let h := N.to_nat height in
    let s := N.to_nat stride in
    scratch ← load_scratch scratch pixels (h * s);
    px ← filter_pixels w h s scratch pixels (coords w h);
    Some (scratch, px).

(** ** Lemmas *)
Section denoise.
Context (w h s : nat) (Hw : 0 < w) (Hh : 0 < h) (Hs : 4 * w <= s).
Implicit Types (src px : list byte) (c : nat * nat).

Definition valid c : Prop := fst c < h /\ snd c < w.
Definition offset c : nat := fst c * s + snd c * 4.

Lemma in_coords c : c ∈ coords w h <-> valid c.
Proof.
  unfold coords, valid. rewrite list_elem_of_In, in_flat_map. destruct c as [y x]. cbn. split.
  - intros (y' & Hy & Hx). apply in_map_iff in Hx as (x' & [= -> ->] & Hx). apply in_seq in Hy, Hx. lia.
  - intros [Hy Hx]. exists y. split; [apply in_seq; lia|]. apply in_map_iff. exists x. split; [done|]. apply in_seq. lia.
Qed.

Lemma in_box y n i : y < n -> i ∈ box y n -> i < n.
Proof. intros Hy. unfold box. rewrite list_elem_of_In, in_seq. lia. Qed.

Lemma box_nonempty y n : y < n -> box y n <> [].
Proof. intros Hy He. apply (f_equal length) in He. unfold box in He. rewrite length_seq in He. cbn in He. lia. Qed.

(** A pixel's bytes lie within its row. *)
Lemma offset_in c k : valid c -> k < 4 -> offset c + k < h * s.
Proof.
  intros [Hy Hx] Hk. unfold offset. assert (fst c * s + s <= h * s) by nia. lia.
Qed.

(** Two pixels share no byte. *)
Lemma offset_inj c c' k k' :
  valid c -> valid c' -> k < 4 -> k' < 4 -> offset c + k = offset c' + k' -> c = c' /\ k = k'.
Proof.
  intros [Hy Hx] [Hy' Hx'] Hk Hk'. unfold offset. destruct c as [y x], c' as [y' x']. cbn in *. intros He.
  assert (y = y') as -> by nia. assert (x = x') as -> by lia. split; [done|lia].
Qed.

Lemma neighbours_valid c off : valid c -> off ∈ neighbourhood w h s c -> exists c', valid c' /\ off = offset c'.
Proof.
  intros [Hy Hx]. unfold neighbourhood. rewrite list_elem_of_In, in_flat_map. intros (y & Hby & Hm).
  apply in_map_iff in Hm as (x & <- & Hbx). exists (y, x). split; [|done]. split; cbn.
  - apply (in_box (fst c)); [done|by apply list_elem_of_In].
  - apply (in_box (snd c)); [done|by apply list_elem_of_In].
Qed.

(** The bytes of the channel over the neighbourhood, when the frame has them. *)
Definition neighbours px c k : list byte := omap (fun off => px !! (off + k)) (neighbourhood w h s c).

Definition mean px c k : byte :=
  byte_of (N.div (sum_of Byte.to_N (neighbours px c k)) (lenN (neighbours px c k))).

Lemma mapM_omap {A B} (g : A -> option B) (l : list A) :
  (forall x, x ∈ l -> is_Some (g x)) -> mapM g l = Some (omap g l) /\ length (omap g l) = length l.
Proof.
  induction l as [|x l IH]; intros Hg; [done|]. destruct (Hg x ltac:(left)) as [y Hy].
  destruct IH as [IH1 IH2]; [intros z Hz; apply Hg; by right|].
  change (mapM g (x :: l)) with (y ← g x; k ← mapM g l; mret (y :: k)). rewrite Hy, IH1. cbn. rewrite Hy. cbn.
  by rewrite IH2.
Qed.

Lemma channel_mean_eq src px c k :
  valid c -> k < 3 -> h * s <= length px -> (forall i, i < h * s -> src !! i = px !! i) ->
  channel_mean src (neighbourhood w h s c) k = Some (mean px c k).
Proof.
  intros Hc Hk Hl He.
  assert (Hin : forall off, off ∈ neighbourhood w h s c -> off + k < h * s).
  { intros off Hoff. destruct (neighbours_valid c off Hc Hoff) as (c' & Hc' & ->). apply offset_in; [done|lia]. }
  assert (Eo : omap (fun off => src !! (off + k)) (neighbourhood w h s c) = neighbours px c k).
  { unfold neighbours. revert Hin. generalize (neighbourhood w h s c). intros l. induction l as [|o l IH]; intros Hin; [done|].
    cbn. rewrite He by (apply Hin; left). rewrite IH; [done|]. intros o' Ho'. apply Hin. by right. }
  destruct (mapM_omap (fun off => src !! (off + k)) (neighbourhood w h s c)) as [Hm Hlen].
  { intros off Hoff. rewrite He by (by apply Hin). apply lookup_lt_is_Some. specialize (Hin off Hoff). lia. }
  unfold channel_mean. rewrite Hm. cbn. rewrite Eo in *. unfold mean, lenN. by rewrite Hlen.
Qed.

Lemma filter_pixel_spec src px0 px c :
  valid c -> h * s <= length px0 -> (forall i, i < h * s -> src !! i = px0 !! i) -> length px = length px0 ->
  exists px', filter_pixel w h s src px c = Some px' /\ length px' = length px0 /\
    (forall k, k < 3 -> px' !! (offset c + k) = Some (mean px0 c k)) /\
    (forall i, (forall k, k < 3 -> i <> offset c + k) -> px' !! i = px !! i).
Proof.
  intros Hc Hl He Hp. unfold filter_pixel. rewrite !(channel_mean_eq src px0) by (done || lia). cbn.
  fold (offset c). unfold set_at. pose proof (offset_in c 3 Hc ltac:(lia)) as Ho.
  rewrite decide_True by lia. cbn. rewrite decide_True by (rewrite length_insert; lia). cbn.
  rewrite decide_True by (rewrite !length_insert; lia). eexists. split; [done|]. rewrite !length_insert.
  split; [done|]. split.
  - intros k Hk. destruct k as [|[|[|k]]]; [| | |lia].
    + rewrite Nat.add_0_r, !list_lookup_insert_ne by lia. apply list_lookup_insert_eq. lia.
    + rewrite list_lookup_insert_ne by lia. apply list_lookup_insert_eq. rewrite length_insert. lia.
    + apply list_lookup_insert_eq. rewrite !length_insert. lia.
  - intros i Hi. pose proof (Hi 0 ltac:(lia)). pose proof (Hi 1 ltac:(lia)). pose proof (Hi 2 ltac:(lia)).
    rewrite !list_lookup_insert_ne by lia. done.
Qed.

Lemma filter_pixels_app src px cs cs' :
  filter_pixels w h s src px (cs ++ cs') = (px ← filter_pixels w h s src px cs; filter_pixels w h s src px cs').
Proof.
  revert px. induction cs as [|c cs IH]; intros px; [done|]. cbn. destruct (filter_pixel w h s src px c); [apply IH|done].
Qed.

Lemma filter_pixels_spec src px cs :
  h * s <= length px -> (forall i, i < h * s -> src !! i = px !! i) -> Forall valid cs ->
  exists px', filter_pixels w h s src px cs = Some px' /\ length px' = length px /\
    (forall c k, c ∈ cs -> k < 3 -> px' !! (offset c + k) = Some (mean px c k)) /\
    (forall i, (forall c k, c ∈ cs -> k < 3 -> i <> offset c + k) -> px' !! i = px !! i).
Proof.
  intros Hl He. induction cs as [|c cs IH] using rev_ind; intros Hv.
  { exists px. split; [done|]. split; [done|]. split; [|done]. intros c k Hc. by apply not_elem_of_nil in Hc. }
  apply Forall_app in Hv as [Hv Hc]. rewrite Forall_singleton in Hc.
  destruct (IH Hv) as (px1 & E1 & L1 & In1 & Out1).
  destruct (filter_pixel_spec src px px1 c Hc Hl He L1) as (px2 & E2 & L2 & In2 & Out2).
  exists px2. rewrite filter_pixels_app, E1. cbn. rewrite E2. split; [done|]. split; [done|]. split.
  - intros c' k Hc' Hk. apply elem_of_app in Hc' as [Hc'|Hc'].
    + destruct (decide (offset c' + k < offset c)); [|destruct (decide (offset c + 3 <= offset c' + k))].
      1,2: rewrite Out2 by lia; by apply In1.
      assert (Hin : exists k', k' < 3 /\ offset c' + k = offset c + k') by (exists (offset c' + k - offset c); lia).
      destruct Hin as (k' & Hk' & Ek). rewrite Ek. rewrite Forall_forall in Hv.
      destruct (offset_inj c' c k k') as [-> ->]; [by apply Hv|done|lia|lia|done|]. by apply In2.
    + apply list_elem_of_singleton in Hc' as ->. by apply In2.
  - intros i Hi. rewrite Out2, Out1; [done| |].
    + intros c' k Hc' Hk. apply Hi; [by apply elem_of_app; left|done].
    + intros k Hk. apply Hi; [apply elem_of_app; right; by apply list_elem_of_singleton|done].
Qed.
End denoise.

(** ** Properties *)

(** On a buffer that holds the frame, every colour channel of every pixel
    becomes the mean, rounded down, of that channel over the pixel and its
    neighbours within the frame, all of them read before any is written; the
    alpha channel, the padding of the rows and what follows the frame stay; and
    what earlier, larger frames left in the scratch buffer has no influence. *)
Theorem apply_is_the_box_filter (scratch pixels : list byte) (width height stride : N) :
  (0 < width)%N -> (0 < height)%N -> (4 * width <= stride)%N ->
  N.to_nat height * N.to_nat stride <= length pixels ->
  let w := N.to_nat width in let h := N.to_nat height in let s := N.to_nat stride in
  exists scratch' out,
    apply scratch pixels width height stride = Some (scratch', out) /\ length out = length pixels /\
    (forall y x k, y < h -> x < w -> k < 3 ->
       out !! (y * s + x * 4 + k) = Some (mean w h s pixels (y, x) k)) /\
    (forall i, (forall y x k, y < h -> x < w -> k < 3 -> i <> y * s + x * 4 + k) -> out !! i = pixels !! i).
Proof.
  intros Hw Hh Hs Hl w h s. unfold apply.
  rewrite (proj2 (N.eqb_neq width 0)), (proj2 (N.eqb_neq height 0)) by lia. cbn [orb]. fold w h s.
  unfold load_scratch. rewrite decide_True by done. cbn [mbind option_bind].
  set (src := take (h * s) pixels ++ drop (h * s) scratch).
  assert (He : forall i, i < h * s -> src !! i = pixels !! i).
  { intros i Hi. unfold src. rewrite lookup_app_l by (rewrite length_take; lia). by apply lookup_take_lt. }
  destruct (filter_pixels_spec w h s ltac:(lia) ltac:(lia) ltac:(lia) src pixels (coords w h) Hl He) as (out & E & L & Hin & Hout).
  { rewrite Forall_forall. intros c Hc. apply (in_coords w h s) in Hc; [exact Hc|lia..]. }
  rewrite E. exists src, out. split; [done|]. split; [done|]. split.
  - intros y x k Hy Hx Hk. apply (Hin (y, x) k); [by apply (in_coords w h s); [lia..|]|done].
  - intros i Hi. apply Hout. intros c k Hc Hk. apply (in_coords w h s) in Hc as [Hy Hx]; [|lia..]. by apply Hi.
Qed.

Lemma apply_is_the_box_filter_witness :
  let px := map byte_of [10; 20; 30; 40; 20; 40; 60; 80; 9; 9]%N in
  exists scratch' out,
    apply [] px 2 1 10 = Some (scratch', out) /\
    out !! 0 = Some (byte_of 15) /\ out !! 3 = Some (byte_of 40) /\ out !! 8 = Some (byte_of 9).
Proof.
  cbn zeta.
  destruct (apply_is_the_box_filter [] (map byte_of [10; 20; 30; 40; 20; 40; 60; 80; 9; 9]%N) 2 1 10)
    as (scratch' & out & E & _ & Hin & Hout); [done|done|done|apply Nat.leb_le; reflexivity|].
  exists scratch', out. split; [exact E|]. split; [|split].
  - rewrite <- (Nat.add_0_r 0). refine (eq_trans (Hin 0 0 0 _ _ _) _); try (apply Nat.ltb_lt; reflexivity). reflexivity.
  - refine (eq_trans (Hout 3 _) _); [|reflexivity]. intros y x k Hy Hx Hk. cbn in Hy, Hx. lia.
  - refine (eq_trans (Hout 8 _) _); [|reflexivity]. intros y x k Hy Hx Hk. cbn in Hy, Hx. lia.
Defined.

(** The mean lies between the least and the greatest of its neighbours. *)
Theorem mean_between (w h s : nat) (px : list byte) (c : nat * nat) (k : nat) (lo hi : N) :
  neighbours w h s px c k <> [] -> (hi < 256)%N ->
  Forall (fun b => (lo <= Byte.to_N b <= hi)%N) (neighbours w h s px c k) ->
  (lo <= Byte.to_N (mean w h s px c k) <= hi)%N.
Proof.
  intros Hn Hhi Hb. unfold mean. set (l := neighbours w h s px c k) in *.
  assert (Hsum : (lo * lenN l <= sum_of Byte.to_N l <= hi * lenN l)%N).
  { clear Hn. clearbody l. induction Hb as [|b l Hb _ IH]; [rewrite lenN_nil, sum_of_nil; lia|]. rewrite lenN_cons, sum_of_cons. nia. }
  assert (Hl : (0 < lenN l)%N) by (destruct l; [done|rewrite lenN_cons; lia]).
  assert (H1 : (lo <= N.div (sum_of Byte.to_N l) (lenN l))%N) by (apply N.div_le_lower_bound; lia).
  assert (H2 : (N.div (sum_of Byte.to_N l) (lenN l) <= hi)%N) by (apply N.Div0.div_le_upper_bound; lia).
  rewrite to_N_byte_of, N.mod_small by lia. lia.
Qed.

(** A pixel on an edge has six neighbours, itself included, and one in a corner
    four, in a frame of at least two rows and three columns. *)
Theorem border_boxes (w h s x : nat) :
  2 <= h -> 3 <= w -> 0 < x < w - 1 ->
  length (neighbourhood w h s (0, x)) = 6 /\ length (neighbourhood w h s (0, 0)) = 4.
Proof.
  intros Hh Hw Hx. unfold neighbourhood, box. cbn [fst snd].
  replace (S (Nat.min (x + 1) (w - 1)) - (x - 1)) with 3 by lia.
  replace (S (Nat.min (0 + 1) (w - 1)) - (0 - 1)) with 2 by lia.
  replace (S (Nat.min (0 + 1) (h - 1)) - (0 - 1)) with 2 by lia. done.
Qed.
