(* ===== verification/Injection.v ===== *)
(** The back ends of input injection: [core/platform/src/input_injection.rs],
    below the gate that [Input.inject] models; and the request for the right to
    inject, [core/platform/src/elevation.rs] (Module [Elevation]).

    Each platform is a Module: the call an event becomes, what the call means
    there, and the objects obtained and released on the way ([Ledger]).  The
    flags of windows-sys are a parameter; the numbers of CoreGraphics and libei
    are the source's. *)
From S2P Require Import Prelude F64 Grants Input Ledger.
From S2P Require Ipc.
#[local] Open Scope N_scope.

(** ** What an event asks for *)
Inductive Action :=
| Key (code : N) (down : bool)
| Button (b : MouseButton) (down : bool)
| Move (dx dy : f64)
| MovePixels (dx dy : Z).

(** ** Windows *)
Class WinFlags := {
  KEYEVENTF_KEYUP : N; MOUSEEVENTF_MOVE : N;
  MOUSEEVENTF_LEFTDOWN : N; MOUSEEVENTF_LEFTUP : N; MOUSEEVENTF_RIGHTDOWN : N;
  MOUSEEVENTF_RIGHTUP : N; MOUSEEVENTF_MIDDLEDOWN : N; MOUSEEVENTF_MIDDLEUP : N;
}.

(** The flags of a mouse event are distinct, and the key-up flag is not zero. *)
Class WinFlagLaws `{WinFlags} : Prop := {
  mouse_flags_distinct :
    NoDup [MOUSEEVENTF_MOVE; MOUSEEVENTF_LEFTDOWN; MOUSEEVENTF_LEFTUP; MOUSEEVENTF_RIGHTDOWN;
           MOUSEEVENTF_RIGHTUP; MOUSEEVENTF_MIDDLEDOWN; MOUSEEVENTF_MIDDLEUP];
  keyup_not_zero : KEYEVENTF_KEYUP <> 0;
}.

Module Windows.
Section windows.
Context `{WinFlags}.

(** [INPUT]: the union's keyboard or mouse member, its other fields zero. *)
Inductive INPUT := KEYBDINPUT (wVk dwFlags : N) | MOUSEINPUT (dx dy : Z) (dwFlags : N).

Definition button_down_flag (b : MouseButton) : N :=
  match b with Left => MOUSEEVENTF_LEFTDOWN | Right => MOUSEEVENTF_RIGHTDOWN | Middle => MOUSEEVENTF_MIDDLEDOWN end.

Definition button_up_flag (b : MouseButton) : N :=
  match b with Left => MOUSEEVENTF_LEFTUP | Right => MOUSEEVENTF_RIGHTUP | Middle => MOUSEEVENTF_MIDDLEUP end.

Definition input_of (e : InputEvent) : INPUT :=
  match e with
  | KeyPress keycode => KEYBDINPUT (wrap 16 keycode) 0
  | KeyRelease keycode => KEYBDINPUT (wrap 16 keycode) KEYEVENTF_KEYUP
  | MouseMove dx dy => MOUSEINPUT (round_i32 dx) (round_i32 dy) MOUSEEVENTF_MOVE
  | MouseButtonPress b => MOUSEINPUT 0 0 (button_down_flag b)
  | MouseButtonRelease b => MOUSEINPUT 0 0 (button_up_flag b)
  end.

(** [SendInput] answers the number of events inserted. *)
Definition inject (SendInput : INPUT -> N) (e : InputEvent) : result InjectionError unit :=
  if SendInput (input_of e) =? 0 then Err OsRejected else Ok tt.

(** What the system does with an [INPUT]. *)
Definition meaning (i : INPUT) : option Action :=
  match i with
  | KEYBDINPUT vk flags =>
      if flags =? 0 then Some (Key vk true)
      else if flags =? KEYEVENTF_KEYUP then Some (Key vk false) else None
  | MOUSEINPUT dx dy flags =>
      if flags =? MOUSEEVENTF_MOVE then Some (MovePixels dx dy)
      else if flags =? MOUSEEVENTF_LEFTDOWN then Some (Button Left true)
      else if flags =? MOUSEEVENTF_LEFTUP then Some (Button Left false)
      else if flags =? MOUSEEVENTF_RIGHTDOWN then Some (Button Right true)
      else if flags =? MOUSEEVENTF_RIGHTUP then Some (Button Right false)
      else if flags =? MOUSEEVENTF_MIDDLEDOWN then Some (Button Middle true)
      else if flags =? MOUSEEVENTF_MIDDLEUP then Some (Button Middle false)
      else None
  end.
End windows.
End Windows.

(** ** macOS *)
Module Mac.
Definition CG_EVENT_LEFT_MOUSE_DOWN : N := 1.
Definition CG_EVENT_LEFT_MOUSE_UP : N := 2.
Definition CG_EVENT_RIGHT_MOUSE_DOWN : N := 3.
Definition CG_EVENT_RIGHT_MOUSE_UP : N := 4.
Definition CG_EVENT_MOUSE_MOVED : N := 5.
Definition CG_EVENT_OTHER_MOUSE_DOWN : N := 25.
Definition CG_EVENT_OTHER_MOUSE_UP : N := 26.
Definition CG_MOUSE_BUTTON_LEFT : N := 0.
Definition CG_MOUSE_BUTTON_RIGHT : N := 1.
Definition CG_MOUSE_BUTTON_CENTER : N := 2.

Record CGPoint := mkPoint { x : f64; y : f64 }.

Inductive CGEvent :=
| KeyboardEvent (keycode : N) (key_down : bool)
| MouseEvent (mouse_type : N) (position : CGPoint) (mouse_button : N).

Inductive Handle := Source | Probe | Created.

#[global] Instance Handle_eq_dec : EqDecision Handle.
Proof. solve_decision. Defined.

Definition open (source : bool) : Os Handle InjectionError unit :=
  (obtain source Source ;; ensure source NotGranted)%os.

Definition drop_backend : Os Handle InjectionError unit := tell (Free Source).

Definition mouse_down (b : MouseButton) : N * N :=
  match b with
  | Left => (CG_EVENT_LEFT_MOUSE_DOWN, CG_MOUSE_BUTTON_LEFT)
  | Right => (CG_EVENT_RIGHT_MOUSE_DOWN, CG_MOUSE_BUTTON_RIGHT)
  | Middle => (CG_EVENT_OTHER_MOUSE_DOWN, CG_MOUSE_BUTTON_CENTER)
  end.

Definition mouse_up (b : MouseButton) : N * N :=
  match b with
  | Left => (CG_EVENT_LEFT_MOUSE_UP, CG_MOUSE_BUTTON_LEFT)
  | Right => (CG_EVENT_RIGHT_MOUSE_UP, CG_MOUSE_BUTTON_RIGHT)
  | Middle => (CG_EVENT_OTHER_MOUSE_UP, CG_MOUSE_BUTTON_CENTER)
  end.

(** The location of a transient event; the origin when none could be made. *)
Definition cursor_pos (cursor : option CGPoint) : Os Handle InjectionError CGPoint :=
  match cursor with
  | None => ret (mkPoint f_zero f_zero)
  | Some pos => (tell (Obtain Probe) ;; tell (Use Probe) ;; tell (Free Probe) ;; ret pos)%os
  end.

(** The event that is created, with the cursor where [cursor] says. *)
Definition event_of (cursor : option CGPoint) (e : InputEvent) : Os Handle InjectionError CGEvent :=
  match e with
  | KeyPress keycode => ret (KeyboardEvent (wrap 16 keycode) true)
  | KeyRelease keycode => ret (KeyboardEvent (wrap 16 keycode) false)
  | MouseMove dx dy =>
      (let! pos := cursor_pos cursor in
       ret (MouseEvent CG_EVENT_MOUSE_MOVED (mkPoint (f_add (x pos) dx) (f_add (y pos) dy)) CG_MOUSE_BUTTON_LEFT))%os
  | MouseButtonPress b =>
      let '(ev_type, btn) := mouse_down b in
      (let! pos := cursor_pos cursor in ret (MouseEvent ev_type pos btn))%os
  | MouseButtonRelease b =>
      let '(ev_type, btn) := mouse_up b in
      (let! pos := cursor_pos cursor in ret (MouseEvent ev_type pos btn))%os
  end.

(** The event posted, when it could be created. *)
Definition inject (cursor : option CGPoint) (created : bool) (e : InputEvent) : Os Handle InjectionError CGEvent :=
  (let! ev := event_of cursor e in
   tell (Use Source) ;;
   obtain created Created ;;
   ensure created OsRejected ;;
   tell (Use Created) ;;
   tell (Free Created) ;;
   ret ev)%os.

(** What the key or button of an event does. *)
Definition meaning (ev : CGEvent) : option Action :=
  match ev with
  | KeyboardEvent k down => Some (Key k down)
  | MouseEvent ty p btn =>
      if ty =? CG_EVENT_MOUSE_MOVED then None
      else if (ty =? CG_EVENT_LEFT_MOUSE_DOWN) && (btn =? CG_MOUSE_BUTTON_LEFT) then Some (Button Left true)
      else if (ty =? CG_EVENT_LEFT_MOUSE_UP) && (btn =? CG_MOUSE_BUTTON_LEFT) then Some (Button Left false)
      else if (ty =? CG_EVENT_RIGHT_MOUSE_DOWN) && (btn =? CG_MOUSE_BUTTON_RIGHT) then Some (Button Right true)
      else if (ty =? CG_EVENT_RIGHT_MOUSE_UP) && (btn =? CG_MOUSE_BUTTON_RIGHT) then Some (Button Right false)
      else if (ty =? CG_EVENT_OTHER_MOUSE_DOWN) && (btn =? CG_MOUSE_BUTTON_CENTER) then Some (Button Middle true)
      else if (ty =? CG_EVENT_OTHER_MOUSE_UP) && (btn =? CG_MOUSE_BUTTON_CENTER) then Some (Button Middle false)
      else None
  end.
End Mac.

(** ** Linux *)
Module Libei.
Definition EI_EVENT_SEAT_ADDED : N := 0.
Definition EI_EVENT_DEVICE_ADDED : N := 2.
Definition EI_DEVICE_CAP_POINTER : N := 0.
Definition EI_DEVICE_CAP_KEYBOARD : N := 2.
Definition EI_DEVICE_CAP_BUTTON : N := 5.
Definition BTN_LEFT : N := 0x110.
Definition BTN_RIGHT : N := 0x111.
Definition BTN_MIDDLE : N := 0x112.
Definition DISPATCH_ITERS : nat := 32.

Inductive Handle := Library | Ei | Device | Event.

#[global] Instance Handle_eq_dec : EqDecision Handle.
Proof. solve_decision. Defined.

(** An event of the context: its type, and its seat or device. *)
Record EiEvent := mkEvent { ty : N; object : N }.

(** [rounds]: the events that each dispatch makes available. *)
Record Answers := mkAnswers {
  dlopen : bool; dlsym : list bool; ei_new : bool; setup_backend_fd : Z; rounds : list (list EiEvent) }.

(** The calls made on the context while waiting. *)
Inductive Call := ConfirmCapability (seat cap : N).

Record Waiting := mkWaiting { device : option N; calls : list Call }.

Definition handle_event (s : Waiting) (ev : EiEvent) : Os Handle InjectionError Waiting :=
  (tell (Obtain Event) ;;
   let! s :=
     (if ty ev =? EI_EVENT_SEAT_ADDED then
        ret {| device := device s;
               calls := calls s ++ [ConfirmCapability (object ev) EI_DEVICE_CAP_KEYBOARD;
                                    ConfirmCapability (object ev) EI_DEVICE_CAP_POINTER;
                                    ConfirmCapability (object ev) EI_DEVICE_CAP_BUTTON] |}
      else if (ty ev =? EI_EVENT_DEVICE_ADDED) && bool_decide (device s = None) then
        tell (Obtain Device) ;; ret {| device := Some (object ev); calls := calls s |}
      else ret s) in
   tell (Free Event) ;; ret s)%os.

Fixpoint drain (s : Waiting) (evs : list EiEvent) : Os Handle InjectionError Waiting :=
  match evs with
  | [] => ret s
  | ev :: evs => (let! s := handle_event s ev in drain s evs)%os
  end.

(** The rounds of the wait, [iters] of them at most. *)
Fixpoint dispatch (iters : nat) (s : Waiting) (rounds : list (list EiEvent)) : Os Handle InjectionError Waiting :=
  match iters with
  | O => ret s
  | S iters =>
      (let! s := drain s (match rounds with [] => [] | r :: _ => r end) in
       match device s with
       | Some _ => ret s
       | None => dispatch iters s (tail rounds)
       end)%os
  end.

Definition load (dlopen : bool) (dlsym : list bool) : Os Handle InjectionError bool :=
  load_library Library dlopen dlsym.

(** An early return drops the library, which closes it. *)
Definition bail {A} (named : list Handle) : Os Handle InjectionError A :=
  (map Free (named ++ [Library]), Err Unavailable).

Definition open (ei_fd : Z) (a : Answers) : Os Handle InjectionError N :=
  if (ei_fd <? 0)%Z then throw Unavailable
  else
    (let! loaded := load (dlopen a) (dlsym a) in
     ensure loaded Unavailable ;;
     obtain (ei_new a) Ei ;;
     if negb (ei_new a) then bail []
     else if negb (setup_backend_fd a =? 0)%Z then bail [Ei]
     else
       let! s := dispatch DISPATCH_ITERS {| device := None; calls := [] |} (rounds a) in
       match device s with
       | None => bail [Ei]
       | Some d => ret d
       end)%os.

Definition drop_backend : Os Handle InjectionError unit :=
  (tell (Free Device) ;; tell (Free Ei) ;; tell (Free Library))%os.

(** The calls on the device. *)
Inductive DeviceCall :=
| KeyboardKey (key : N) (down : bool)
| PointerMotion (dx dy : f64)
| PointerButton (button : N) (down : bool)
| Frame (now : N).

Definition evdev_button (b : MouseButton) : N :=
  match b with Left => BTN_LEFT | Right => BTN_RIGHT | Middle => BTN_MIDDLE end.

Definition inject (now : N) (e : InputEvent) : list DeviceCall * result InjectionError unit :=
  (match e with
   | KeyPress keycode => [KeyboardKey keycode true]
   | KeyRelease keycode => [KeyboardKey keycode false]
   | MouseMove dx dy => [PointerMotion dx dy]
   | MouseButtonPress b => [PointerButton (evdev_button b) true]
   | MouseButtonRelease b => [PointerButton (evdev_button b) false]
   end ++ [Frame now], Ok tt).

(** What the compositor does with the calls before a frame. *)
Definition meaning (c : DeviceCall) : option Action :=
  match c with
  | KeyboardKey k down => Some (Key k down)
  | PointerMotion dx dy => Some (Move dx dy)
  | PointerButton b down =>
      if b =? BTN_LEFT then Some (Button Left down)
      else if b =? BTN_RIGHT then Some (Button Right down)
      else if b =? BTN_MIDDLE then Some (Button Middle down) else None
  | Frame _ => None
  end.
End Libei.


(** ** The broker *)
Definition broker_open {E B} (backend : Os E InjectionError B) (session : Control.ControlSession) :
    Os E InjectionError (B * InputBroker) :=
  (let! inner := backend in ret (inner, mkBroker session))%os.

(** ** Windows: the right call *)
Section windows_theorems.
Context `{WinFlagLaws}.

(** What [SendInput] is asked for each event: the event, a key code modulo
    2{^16} and a motion rounded to pixels. *)
Definition windows_action (e : InputEvent) : Action :=
  match e with
  | KeyPress k => Key (wrap 16 k) true
  | KeyRelease k => Key (wrap 16 k) false
  | MouseMove dx dy => MovePixels (round_i32 dx) (round_i32 dy)
  | MouseButtonPress b => Button b true
  | MouseButtonRelease b => Button b false
  end.

(** The flags tell the actions apart, so the system does what the event says. *)
Theorem windows_injects_the_event (e : InputEvent) :
  Windows.meaning (Windows.input_of e) = Some (windows_action e).
Proof.
  pose proof mouse_flags_distinct as Hd. pose proof keyup_not_zero as Hk.
  rewrite !NoDup_cons, !not_elem_of_cons in Hd. destruct_and! Hd.
  destruct e as [k|k|dx dy|[]|[]]; cbn -[round_i32 wrap];
    rewrite ?N.eqb_refl;
    repeat match goal with |- context [?a =? ?b] => rewrite (proj2 (N.eqb_neq a b)) by congruence end;
    reflexivity.
Qed.

(** The broker on Windows: with a live grant the system is given exactly one
    [INPUT], that of the event, and its refusal is the caller's; without one it is
    given none. *)
Theorem windows_broker (SendInput : Windows.INPUT -> N) (h : Heap) (now : Instant) (b : InputBroker) (e : InputEvent) :
  Input.inject (Windows.inject SendInput) h now b e =
    match Control.apply_event h now (control_session b) with
    | Ok _ => ([e], if SendInput (Windows.input_of e) =? 0 then Err OsRejected else Ok tt)
    | Err r => ([], Err (CapabilityDenied r))
    end.
Proof. unfold Input.inject. by destruct (Control.apply_event _ _ _). Qed.
End windows_theorems.

(** The numbers of windows-sys. *)
Definition win32 : WinFlags :=
  {| KEYEVENTF_KEYUP := 2; MOUSEEVENTF_MOVE := 1; MOUSEEVENTF_LEFTDOWN := 2; MOUSEEVENTF_LEFTUP := 4;
     MOUSEEVENTF_RIGHTDOWN := 8; MOUSEEVENTF_RIGHTUP := 16; MOUSEEVENTF_MIDDLEDOWN := 32; MOUSEEVENTF_MIDDLEUP := 64 |}.

Lemma windows_injects_the_event_witness :
  Windows.meaning (H := win32) (Windows.input_of (H := win32) (MouseButtonRelease Middle)) = Some (Button Middle false).
Proof.
  refine (@windows_injects_the_event win32 _ (MouseButtonRelease Middle)).
  constructor; [apply (bool_decide_unpack _); vm_compute; exact I | discriminate].
Defined.

(** Two key codes that differ by 2{^16} are one key. *)
Example windows_keycodes_alias `{WinFlags} :
  Windows.input_of (KeyPress 0x41) = Windows.input_of (KeyPress 0x10041).
Proof. reflexivity. Qed.

(** ** macOS *)

(** The event created for a press or a release says what was asked, at the
    cursor; that of a motion carries the cursor moved by it, not rounded. *)
Theorem mac_injects_the_event (cursor : option Mac.CGPoint) (e : InputEvent) (ev : Mac.CGEvent) :
  snd (Mac.inject cursor true e) = Ok ev ->
  let pos := default (Mac.mkPoint f_zero f_zero) cursor in
  match e with
  | KeyPress k => Mac.meaning ev = Some (Key (wrap 16 k) true)
  | KeyRelease k => Mac.meaning ev = Some (Key (wrap 16 k) false)
  | MouseMove dx dy =>
      ev = Mac.MouseEvent Mac.CG_EVENT_MOUSE_MOVED
             (Mac.mkPoint (f_add (Mac.x pos) dx) (f_add (Mac.y pos) dy)) Mac.CG_MOUSE_BUTTON_LEFT
  | MouseButtonPress b =>
      Mac.meaning ev = Some (Button b true) /\ exists ty btn, ev = Mac.MouseEvent ty pos btn
  | MouseButtonRelease b =>
      Mac.meaning ev = Some (Button b false) /\ exists ty btn, ev = Mac.MouseEvent ty pos btn
  end.
Proof.
  destruct e as [k|k|dx dy|[]|[]], cursor as [p|]; cbn -[wrap f_add f_zero]; intros [= <-]; eauto.
Qed.

Lemma mac_injects_the_event_witness :
  Mac.meaning (Mac.MouseEvent 4 (Mac.mkPoint f_zero f_zero) 1) = Some (Button Right false).
Proof.
  refine (proj1 (mac_injects_the_event None (MouseButtonRelease Right)
            (Mac.MouseEvent 4 (Mac.mkPoint f_zero f_zero) 1) _)).
  reflexivity.
Defined.

(** Every handle is released, whatever the system answers: [open] keeps the
    source, an injection leaves what it found, [drop] leaves nothing. *)
Theorem mac_handles_balance (source created : bool) (cursor : option Mac.CGPoint) (e : InputEvent) :
  leaves (Mac.open source) [] = Some (if source then [Mac.Source] else []) /\
  leaves (Mac.inject cursor created e) [Mac.Source] = Some [Mac.Source] /\
  leaves Mac.drop_backend [Mac.Source] = Some [].
Proof. by destruct source, created, cursor, e as [k|k|dx dy|[]|[]]. Qed.

(** ** Linux *)

(** One call on the device says what the event does, and a frame commits it. *)
Theorem libei_injects_the_event (now : N) (e : InputEvent) :
  exists c, Libei.inject now e = ([c; Libei.Frame now], Ok tt) /\
    Libei.meaning c = Some match e with
      | KeyPress k => Key k true
      | KeyRelease k => Key k false
      | MouseMove dx dy => Move dx dy
      | MouseButtonPress b => Button b true
      | MouseButtonRelease b => Button b false
      end.
Proof. destruct e as [k|k|dx dy|[]|[]]; eexists; (split; [reflexivity|reflexivity]). Qed.

Section libei_open.
Import Libei.

(** The first device among events, and in the rounds that are waited for. *)
Definition first_device (evs : list EiEvent) : option N :=
  object <$> (list_find (fun ev => ty ev = EI_EVENT_DEVICE_ADDED) evs ≫= fun p => Some (snd p)).

(** A wait that did not fail, from what is live to what is. *)
Definition waits (m : Os Handle InjectionError Waiting) (s : Waiting) (d : option N) : Prop :=
  exists t s', m = (t, Ok s') /\ device s' = d /\
    forall l, live_after ((match device s with Some _ => [Device] | None => [] end) ++ l) t =
      Some ((match d with Some _ => [Device] | None => [] end) ++ l).

Lemma waits_ret s : waits (ret s) s (device s).
Proof. exists [], s. repeat split. Qed.

Lemma waits_bind m f s d d' :
  waits m s d -> (forall s', device s' = d -> waits (f s') s' d') -> waits (bind m f) s d'.
Proof.
  intros (t & s' & -> & Hd & Ht) Hf. destruct (Hf s' Hd) as (t' & s'' & E' & Hd' & Ht').
  exists (t ++ t'), s''. cbn. rewrite E'. split; [done|]. split; [done|]. intros l.
  rewrite live_after_app, Ht. cbn. rewrite <- Hd. apply Ht'.
Qed.

(** An event confirms three capabilities of a seat, or is the device if none is
    held, and is released. *)
Lemma waits_handle_event s ev :
  waits (handle_event s ev) s
    (match device s with
     | Some d => Some d
     | None => if ty ev =? EI_EVENT_DEVICE_ADDED then Some (object ev) else None
     end).
Proof.
  unfold handle_event. destruct (N.eqb_spec (ty ev) EI_EVENT_SEAT_ADDED) as [->|].
  - eexists _, _. split; [reflexivity|]. cbn. destruct (device s); split; done.
  - destruct (device s) as [d|] eqn:Ed, (ty ev =? EI_EVENT_DEVICE_ADDED); cbn;
      (eexists _, _; split; [reflexivity|]; cbn; rewrite ?Ed; split; done).
Qed.

Lemma first_device_cons ev evs :
  first_device (ev :: evs) = if ty ev =? EI_EVENT_DEVICE_ADDED then Some (object ev) else first_device evs.
Proof.
  unfold first_device. cbn. destruct (N.eqb_spec (ty ev) EI_EVENT_DEVICE_ADDED).
  - by rewrite decide_True.
  - rewrite decide_False by done. by destruct (list_find _ evs) as [[]|].
Qed.

Lemma first_device_app evs1 evs2 :
  first_device (evs1 ++ evs2) = match first_device evs1 with Some d => Some d | None => first_device evs2 end.
Proof.
  induction evs1 as [|ev evs IH]; [done|].
  change ((ev :: evs) ++ evs2) with (ev :: (evs ++ evs2)). rewrite !first_device_cons, IH. by destruct (_ =? _).
Qed.

Lemma waits_drain s evs :
  waits (drain s evs) s (match device s with Some d => Some d | None => first_device evs end).
Proof.
  revert s. induction evs as [|ev evs IH]; intros s.
  - replace (match device s with Some d => _ | None => _ end) with (device s) by (by destruct (device s)).
    apply waits_ret.
  - cbn [drain]. eapply waits_bind; [apply waits_handle_event|]. intros s' Hs'.
    rewrite first_device_cons.
    replace (match device s with Some d => _ | None => _ end)
      with (match device s' with Some d => Some d | None => first_device evs end); [apply IH|].
    rewrite Hs'. destruct (device s); [done|]. by destruct (_ =? _).
Qed.

(** The wait takes the first device of its rounds, the later ones unseen. *)
Lemma waits_dispatch n s rs :
  device s = None -> waits (dispatch n s rs) s (first_device (concat (take n rs))).
Proof.
  revert s rs. induction n as [|n IH]; intros s rs Hs; cbn [dispatch].
  { rewrite take_0. cbn. rewrite <- Hs. apply waits_ret. }
  eapply waits_bind; [apply waits_drain|]. rewrite Hs. intros s' Hs'.
  assert (E : first_device (concat (take (S n) rs)) =
    match first_device (match rs with [] => [] | r :: _ => r end) with
    | Some d => Some d | None => first_device (concat (take n (tail rs))) end).
  { destruct rs as [|r rs]; [cbn [tail]; by rewrite !take_nil|]. apply first_device_app. }
  rewrite E. rewrite Hs'.
  destruct (first_device (match rs with [] => [] | r :: _ => r end)) as [d|].
  - rewrite <- Hs'. apply waits_ret.
  - by apply IH.
Qed.
End libei_open.

(** [open] on Linux succeeds exactly when the library loads, the context is made
    and connected, and a device is added within 32 rounds; it keeps the library,
    the context and the first device, and a failure keeps nothing; [drop] releases
    the three. *)
Theorem libei_opens_on_a_device (fd : Z) (a : Libei.Answers) :
  snd (Libei.open fd a) =
    match first_device (concat (take 32 (Libei.rounds a))) with
    | Some d =>
        if (0 <=? fd)%Z && Libei.dlopen a && forallb id (Libei.dlsym a) && Libei.ei_new a
           && (Libei.setup_backend_fd a =? 0)%Z
        then Ok d else Err Unavailable
    | None => Err Unavailable
    end /\
  leaves (Libei.open fd a) [] =
    Some match snd (Libei.open fd a) with
         | Ok _ => [Libei.Device; Libei.Ei; Libei.Library] | Err _ => [] end /\
  leaves Libei.drop_backend [Libei.Device; Libei.Ei; Libei.Library] = Some [].
Proof.
  apply Logic.and_assoc. split; [|done]. unfold Libei.open.
  destruct (Z.ltb_spec fd 0); [rewrite (proj2 (Z.leb_gt 0 fd)) by lia; by destruct (first_device _)|].
  rewrite (proj2 (Z.leb_le 0 fd)) by lia. unfold Libei.load. rewrite load_library_eq.
  destruct (Libei.dlopen a); [|by destruct (first_device _)].
  destruct (forallb id (Libei.dlsym a)); [|by destruct (first_device _)].
  destruct (Libei.ei_new a); [|by destruct (first_device _)]. cbn [negb andb].
  destruct (Libei.setup_backend_fd a =? 0)%Z; [|by destruct (first_device _)]. cbn [negb].
  destruct (waits_dispatch 32 {| Libei.device := None; Libei.calls := [] |} (Libei.rounds a) eq_refl)
    as (t & s' & E & Hd & Ht).
  unfold Libei.DISPATCH_ITERS. specialize (Ht [Libei.Ei; Libei.Library]).
  unfold leaves. cbn -[Libei.dispatch first_device take]. rewrite E. cbn -[first_device take]. rewrite Hd.
  destruct (first_device _) as [d|]; cbn in *; (split; [done|]); rewrite live_after_app, Ht; done.
Qed.

(** The broker opens as its backend does, and holds the session it was given. *)
Lemma broker_opens_as_its_backend {R B} `{EqDecision R} (backend : Os R InjectionError B) session l :
  leaves (broker_open backend session) l = leaves backend l /\
  snd (broker_open backend session) =
    match snd backend with Ok i => Ok (i, mkBroker session) | Err e => Err e end.
Proof.
  destruct backend as [t [i|e]]; cbn; [|done]. split; [|done]. unfold leaves. cbn. by rewrite app_nil_r.
Qed.

(** A device of the thirty-third round is not waited for. *)
Example libei_waits_32_rounds :
  let a := fun n => Libei.mkAnswers true [true] true 0 (repeat [Libei.mkEvent 0 1] n ++ [[Libei.mkEvent 2 7]]) in
  snd (Libei.open 3 (a 31%nat)) = Ok 7 /\ snd (Libei.open 3 (a 32%nat)) = Err Unavailable.
Proof. by vm_compute. Qed.

(** ** Elevation

    [elevation.rs]: what [InputBroker::request_grant] asks.  Only Windows has a
    mechanism: a bridge of two channels of one message each, between the threads
    that ask and the one that forwards to the shell. *)
Module Elevation.
Import Ipc.

Inductive ElevationKind := WindowsUac | MacosTcc | LinuxPolkit | DaemonDrop.
Inductive Platform := OnWindows | OnMac | OnLinux | OnOther.

Definition platform_kind (p : Platform) : ElevationKind :=
  match p with OnWindows => WindowsUac | OnMac => MacosTcc | OnLinux => LinuxPolkit | OnOther => DaemonDrop end.

Definition is_granted (o : ElevationOutcome) : bool := match o with Granted => true | _ => false end.

Record ElevationRequest := mkRequest { reason : EscalationReason; kind : ElevationKind }.

Definition request_new (p : Platform) (r : EscalationReason) : ElevationRequest := mkRequest r (platform_kind p).

Definition request_grant (p : Platform) : ElevationRequest := request_new p InputInjection.

(** What is written to [stderr] before and after. *)
Inductive Line := Requested (r : EscalationReason) (k : ElevationKind)
                | Outcome (r : EscalationReason) (k : ElevationKind) (o : ElevationOutcome).

(** [bridge]: what asking over the bridge answers, when one is registered. *)
Definition platform_execute (p : Platform) (bridge : option (EscalationReason -> ElevationOutcome))
    (r : EscalationReason) : ElevationOutcome :=
  match p with
  | OnWindows => match bridge with None => Unavailable | Some ask => ask r end
  | _ => Unavailable
  end.

Definition execute (p : Platform) (bridge : option (EscalationReason -> ElevationOutcome)) (q : ElevationRequest) :
    list Line * ElevationOutcome :=
  let outcome := platform_execute p bridge (reason q) in
  ([Requested (reason q) (kind q); Outcome (reason q) (kind q) outcome], outcome).

(** *** The bridge *)
Inductive Thread := Idle | Sending (r : EscalationReason) | Waiting (r : EscalationReason)
                  | Done (r : EscalationReason) (o : ElevationOutcome).

(** [taken]: the request the forwarding thread holds; [hung_up]: it has dropped
    its ends of the channels. *)
Record WinElevationBridge := mkBridge {
  threads : list Thread; req : list EscalationReason; taken : option EscalationReason;
  resp : list ElevationOutcome; hung_up : bool }.

Definition bridge_new (n : nat) : WinElevationBridge := mkBridge (replicate n Idle) [] None [] false.

Definition set_thread (b : WinElevationBridge) (i : nat) (t : Thread) : list Thread := <[i := t]> (threads b).

(** [decide_]: the user's answer to the prompt for a reason. *)
Inductive step (decide_ : EscalationReason -> ElevationOutcome) (b : WinElevationBridge) : WinElevationBridge -> Prop :=
| Step_start i r :
    threads b !! i = Some Idle ->
    step decide_ b (mkBridge (set_thread b i (Sending r)) (req b) (taken b) (resp b) (hung_up b))
| Step_send i r :
    threads b !! i = Some (Sending r) -> hung_up b = false -> req b = [] ->
    step decide_ b (mkBridge (set_thread b i (Waiting r)) [r] (taken b) (resp b) (hung_up b))
| Step_send_fails i r :
    threads b !! i = Some (Sending r) -> hung_up b = true ->
    step decide_ b (mkBridge (set_thread b i (Done r Unavailable)) (req b) (taken b) (resp b) (hung_up b))
| Step_take r :
    req b = [r] -> taken b = None -> hung_up b = false ->
    step decide_ b (mkBridge (threads b) [] (Some r) (resp b) (hung_up b))
| Step_answer r :
    taken b = Some r -> resp b = [] -> hung_up b = false ->
    step decide_ b (mkBridge (threads b) (req b) None [decide_ r] (hung_up b))
| Step_recv i r o :
    threads b !! i = Some (Waiting r) -> resp b = [o] ->
    step decide_ b (mkBridge (set_thread b i (Done r o)) (req b) (taken b) [] (hung_up b))
| Step_recv_fails i r :
    threads b !! i = Some (Waiting r) -> resp b = [] -> hung_up b = true ->
    step decide_ b (mkBridge (set_thread b i (Done r Unavailable)) (req b) (taken b) (resp b) (hung_up b))
| Step_hang_up :
    step decide_ b (mkBridge (threads b) [] None (resp b) true).

Inductive reach (decide_ : EscalationReason -> ElevationOutcome) (n : nat) : WinElevationBridge -> Prop :=
| Reach_new : reach decide_ n (bridge_new n)
| Reach_step b b' : reach decide_ n b -> step decide_ b b' -> reach decide_ n b'.

Definition active (t : Thread) : bool := match t with Sending _ | Waiting _ => true | _ => false end.

(** At most one thread has a request under way. *)
Definition calm (b : WinElevationBridge) : Prop :=
  forall i j t t', threads b !! i = Some t -> threads b !! j = Some t' -> active t = true -> active t' = true -> i = j.

(** The runs in which the threads take turns. *)
Inductive turns (decide_ : EscalationReason -> ElevationOutcome) (n : nat) : WinElevationBridge -> Prop :=
| Turns_new : turns decide_ n (bridge_new n)
| Turns_step b b' : turns decide_ n b -> step decide_ b b' -> calm b' -> turns decide_ n b'.

Section bridge.
Context (decide_ : EscalationReason -> ElevationOutcome).

(** What is under way belongs to the thread that waits. *)
Definition in_flight (b : WinElevationBridge) : list ElevationOutcome :=
  map decide_ (req b) ++ map decide_ (option_list (taken b)) ++ resp b.

Definition turn_ok (b : WinElevationBridge) : Prop :=
  (forall i r o, threads b !! i = Some (Done r o) -> o = decide_ r \/ o = Unavailable) /\
  (forall i r, threads b !! i = Some (Waiting r) -> in_flight b = [decide_ r] \/ (hung_up b = true /\ in_flight b = [])) /\
  ((forall i r, threads b !! i <> Some (Waiting r)) -> in_flight b = []).

Lemma lookup_set b i j t t0 :
  threads b !! i = Some t0 -> set_thread b i t !! j = (if decide (i = j) then Some t else threads b !! j).
Proof.
  intros Hi. unfold set_thread. case_decide as E; [subst; apply list_lookup_insert_eq; by apply lookup_lt_Some in Hi|].
  by apply list_lookup_insert_ne.
Qed.

Lemma set_waiting b i j t t0 r :
  threads b !! i = Some t0 -> (forall r', t <> Waiting r') ->
  set_thread b i t !! j = Some (Waiting r) -> threads b !! j = Some (Waiting r) /\ i <> j.
Proof. intros Hi Ht. rewrite (lookup_set _ _ _ _ _ Hi). case_decide; [intros [= ->]; by destruct (Ht r)|done]. Qed.

Lemma turn_init n : turn_ok (bridge_new n).
Proof.
  split; [|split; [|done]]; intros i r.
  - intros o H. apply lookup_replicate in H as [H _]. done.
  - intros H. apply lookup_replicate in H as [H _]. done.
Qed.

Lemma calm_init n : calm (bridge_new n).
Proof. intros i j t t' H _ Ha _. apply lookup_replicate in H as [-> _]. done. Qed.

(** Only the thread whose turn it is waits. *)
Lemma alone b i j t r :
  calm b -> threads b !! i = Some t -> active t = true -> threads b !! j = Some (Waiting r) -> i = j.
Proof. intros Hc Hi Ha Hj. by apply (Hc i j t (Waiting r)). Qed.

Definition quiet (b : WinElevationBridge) : Prop := hung_up b = true -> req b = [] /\ taken b = None.

Lemma in_flight_nil b : in_flight b = [] -> req b = [] /\ taken b = None /\ resp b = [].
Proof.
  unfold in_flight. destruct (req b); [|done]. destruct (taken b); [done|]. done.
Qed.

Lemma turn_step b b' : turn_ok b -> quiet b -> calm b -> step decide_ b b' -> turn_ok b' /\ quiet b'.
Proof.
  intros (Hd & Hw & Hn) Hq Hc Hs.
  assert (Hdone : forall i t t0, threads b !! i = Some t0 ->
    (forall r o, t = Done r o -> o = decide_ r \/ o = Unavailable) ->
    forall j r o, set_thread b i t !! j = Some (Done r o) -> o = decide_ r \/ o = Unavailable).
  { intros i t t0 Hi Ht j r o. rewrite (lookup_set _ _ _ _ _ Hi). case_decide; [intros [= E]; by apply Ht|apply Hd]. }
  assert (Hgone : forall i t r j r', threads b !! i = Some (Waiting r) -> (forall r', t <> Waiting r') ->
    set_thread b i t !! j <> Some (Waiting r')).
  { intros i t r j r' Hi Ht H. destruct (set_waiting b i j t _ r' Hi Ht H) as [Hj Hij]. apply Hij.
    by apply (alone b i j (Waiting r) r'). }
  destruct Hs as [i r Hi|i r Hi Hu Hr|i r Hi Hu|r Hr Ht Hu|r Ht Hr Hu|i r o Hi Hr|i r Hi Hr Hu|]; unfold turn_ok;
    cbn [threads req taken resp hung_up].
  - split; [|exact Hq]. split; [by apply (Hdone i _ Idle)|]. split.
    + intros j r' [H _]%(set_waiting b i j _ Idle); [|done..]. exact (Hw j r' H).
    + intros H. apply Hn. intros j r' Hj. apply (H j r'). rewrite (lookup_set _ _ _ _ _ Hi).
      case_decide; [subst; congruence|done].
  - assert (Hnone : forall j r', threads b !! j <> Some (Waiting r')).
    { intros j r' Hj. assert (i = j) as <- by (by apply (alone b i j (Sending r) r')). congruence. }
    destruct (in_flight_nil b (Hn Hnone)) as (_ & Ht & Hp). split; [|intros H; cbn in H; congruence].
    split; [by apply (Hdone i _ (Sending r))|]. split.
    + intros j r' H. left. unfold in_flight. cbn [req taken resp]. rewrite Ht, Hp. cbn.
      rewrite (lookup_set _ _ _ _ _ Hi) in H. case_decide; [by injection H as ->|by destruct (Hnone j r')].
    + intros H. destruct (H i r). rewrite (lookup_set _ _ _ _ _ Hi). by rewrite decide_True.
  - split; [|exact Hq]. split; [apply (Hdone i _ (Sending r)); [done|]; intros r' o [= <- <-]; by right|]. split.
    + intros j r' [H _]%(set_waiting b i j _ (Sending r)); [|done..]. exact (Hw j r' H).
    + intros H. apply Hn. intros j r' Hj. apply (H j r'). rewrite (lookup_set _ _ _ _ _ Hi).
      case_decide; [subst; congruence|done].
  - assert (E : in_flight (mkBridge (threads b) [] (Some r) (resp b) (hung_up b)) = in_flight b).
    { unfold in_flight. cbn [req taken resp]. by rewrite Hr, Ht. }
    split; [|intros H; cbn in H; congruence]. rewrite E. done.
  - assert (E : in_flight (mkBridge (threads b) (req b) None [decide_ r] (hung_up b)) = in_flight b).
    { unfold in_flight. cbn [req taken resp]. by rewrite Hr, Ht. }
    split; [|intros H; cbn in H; congruence]. rewrite E. done.
  - assert (Ho : o = decide_ r /\ req b = [] /\ taken b = None).
    { destruct (Hw i r Hi) as [E|[_ E]]; unfold in_flight in E; rewrite Hr in E.
      - destruct (req b) as [|x l]; [|exfalso; cbn in E; injection E as _ E; by apply app_eq_nil in E as [_ [_ ?]%app_eq_nil]].
        destruct (taken b); [exfalso; by cbn in E; injection E|]. cbn in E. by injection E as ->.
      - by apply app_eq_nil in E as [_ [_ ?]%app_eq_nil]. }
    destruct Ho as (-> & Hrq & Ht). split; [|intros _; done].
    split; [apply (Hdone i _ (Waiting r)); [done|]; intros r' o' [= <- <-]; by left|]. split.
    + intros j r' H. by destruct (Hgone i (Done r (decide_ r)) r j r' Hi).
    + intros _. unfold in_flight. cbn [req taken resp]. by rewrite Hrq, Ht.
  - destruct (Hq Hu) as [Hrq Ht]. split; [|intros _; done].
    split; [apply (Hdone i _ (Waiting r)); [done|]; intros r' o' [= <- <-]; by right|]. split.
    + intros j r' H. by destruct (Hgone i (Done r Unavailable) r j r' Hi).
    + intros _. unfold in_flight. cbn [req taken resp]. by rewrite Hrq, Ht, Hr.
  - split; [|done]. split; [exact Hd|]. unfold in_flight. cbn [req taken resp hung_up]. cbn [map option_list app]. split.
    + intros j r Hj. destruct (Hw j r Hj) as [E|[_ E]].
      * unfold in_flight in E. destruct (resp b) as [|o l]; [by right|]. left.
        destruct (req b) as [|x k]; [|exfalso; cbn in E; injection E as _ E; by apply app_eq_nil in E as [_ [_ ?]%app_eq_nil]].
        destruct (taken b); [exfalso; by cbn in E; injection E|]. exact E.
      * right. split; [done|]. by apply in_flight_nil in E as (_ & _ & ->).
    + intros H. by destruct (in_flight_nil b (Hn H)) as (_ & _ & ->).
Qed.

(** Threads that take turns get their own answers: the outcome of a request is
    the user's decision about its reason, or that no answer could be had, the
    shell having gone. *)
Theorem turns_get_their_answers (n : nat) (b : WinElevationBridge) (i : nat) (r : EscalationReason) (o : ElevationOutcome) :
  turns decide_ n b -> threads b !! i = Some (Done r o) -> o = decide_ r \/ o = Unavailable.
Proof.
  intros Ht. assert (H : turn_ok b /\ quiet b /\ calm b).
  { induction Ht as [|b b' Ht (H1 & H2 & H3) Hs Hc]; [split; [apply turn_init|split; [done|apply calm_init]]|].
    destruct (turn_step b b' H1 H2 H3 Hs). done. }
  destruct H as [(Hd & _ & _) _]. apply Hd.
Qed.

(** *** Threads that do not *)
Definition asked (t : Thread) : option EscalationReason :=
  match t with Waiting r | Done r _ => Some r | _ => None end.
Definition answered (t : Thread) : option ElevationOutcome := match t with Done _ o => Some o | _ => None end.

Lemma omap_set {A} (f : Thread -> option A) b i t t0 :
  threads b !! i = Some t0 ->
  exists rest, omap f (threads b) ≡ₚ option_list (f t0) ++ rest /\ omap f (set_thread b i t) ≡ₚ option_list (f t) ++ rest.
Proof.
  intros Hi. exists (omap f (delete i (threads b))).
  assert (G : forall l x, l !! i = Some x -> omap f l ≡ₚ option_list (f x) ++ omap f (delete i l)).
  { intros l x Hx. rewrite (delete_Permutation l i x Hx) at 1. cbn. by destruct (f x). }
  split; [by apply G|]. unfold set_thread.
  rewrite insert_take_drop by (by apply lookup_lt_Some in Hi).
  rewrite <- Permutation_middle, delete_take_drop. cbn. by destruct (f t).
Qed.

(** However requests interleave, while the shell is there no answer is lost or
    invented: the answers given and under way are those to the requests made. *)
Theorem answers_are_conserved (n : nat) (b : WinElevationBridge) :
  reach decide_ n b -> hung_up b = false ->
  map decide_ (omap asked (threads b)) ≡ₚ in_flight b ++ omap answered (threads b).
Proof.
  induction 1 as [|b b' Hr IH Hs]; intros Hu.
  { cbn. assert (E : forall A (f : Thread -> option A), f Idle = None -> omap f (replicate n Idle) = []).
    { intros A f Hf. induction n as [|m IHm]; [done|]. cbn. rewrite Hf. by apply IHm. }
    unfold bridge_new. cbn [threads]. by rewrite !E. }
  destruct Hs as [i r Hi|i r Hi Hu' Hrq|i r Hi Hu'|r Hrq Ht Hu'|r Ht Hrp Hu'|i r o Hi Hrp|i r Hi Hrp Hu'|];
    cbn [threads req taken resp hung_up] in *; try congruence; specialize (IH Hu).
  - destruct (omap_set asked b i (Sending r) Idle Hi) as (k1 & E1 & ->).
    destruct (omap_set answered b i (Sending r) Idle Hi) as (k2 & E2 & ->). rewrite E1, E2 in IH. exact IH.
  - destruct (omap_set asked b i (Waiting r) _ Hi) as (k1 & E1 & ->).
    destruct (omap_set answered b i (Waiting r) _ Hi) as (k2 & E2 & ->). rewrite E1, E2 in IH.
    unfold in_flight in *. rewrite Hrq in IH. cbn in IH |- *. by rewrite IH.
  - unfold in_flight in *. cbn [req taken resp] in *. rewrite Hrq, Ht in IH. exact IH.
  - unfold in_flight in *. cbn [req taken resp] in *. rewrite Ht, Hrp in IH. cbn [option_list map app] in *.
    by rewrite app_nil_r in IH || exact IH.
  - destruct (omap_set asked b i (Done r o) _ Hi) as (k1 & E1 & ->).
    destruct (omap_set answered b i (Done r o) _ Hi) as (k2 & E2 & ->). rewrite E1, E2 in IH.
    unfold in_flight in *. rewrite Hrp in IH. cbn in IH |- *. rewrite IH.
    rewrite app_nil_r. rewrite <- !app_assoc. done.
Qed.
End bridge.

Lemma turns_get_their_answers_witness :
  exists b, turns (fun _ => Denied) 1 b /\ threads b !! 0%nat = Some (Done InputInjection Denied) /\
    (Denied = Denied \/ Denied = Unavailable).
Proof.
  assert (Hc : forall t q k p u, calm (mkBridge [t] q k p u)).
  { intros t q k p u i j t1 t2 Hi Hj _ _. apply lookup_lt_Some in Hi, Hj. cbn in Hi, Hj. lia. }
  eexists (mkBridge [Done InputInjection Denied] [] None [] false).
  assert (Ht : turns (fun _ => Denied) 1 (mkBridge [Done InputInjection Denied] [] None [] false)).
  { eapply Turns_step; [|apply (Step_recv (fun _ => Denied) (mkBridge [Waiting InputInjection] [] None [Denied] false) 0); reflexivity|apply Hc].
    eapply Turns_step; [|apply (Step_answer (fun _ => Denied) (mkBridge [Waiting InputInjection] [] (Some InputInjection) [] false) InputInjection); reflexivity|apply Hc].
    eapply Turns_step; [|apply (Step_take _ (mkBridge [Waiting InputInjection] [InputInjection] None [] false)); reflexivity|apply Hc].
    eapply Turns_step; [|apply (Step_send _ (mkBridge [Sending InputInjection] [] None [] false) 0); reflexivity|apply Hc].
    eapply Turns_step; [|apply (Step_start _ (bridge_new 1) 0); reflexivity|apply Hc]. apply Turns_new. }
  split; [exact Ht|]. split; [reflexivity|].
  exact (turns_get_their_answers (fun _ => Denied) 1 _ 0 InputInjection Denied Ht eq_refl).
Defined.

Lemma answers_are_conserved_witness :
  map (fun _ => Denied) (omap asked (threads (bridge_new 2))) ≡ₚ
    in_flight (fun _ => Denied) (bridge_new 2) ++ omap answered (threads (bridge_new 2)).
Proof. apply (answers_are_conserved (fun _ => Denied) 2); [apply Reach_new|reflexivity]. Defined.

(** The channels do not say which request an answer is to, and two threads that
    ask at once can get each other's: input injection is granted though the user
    granted the capture of the screen and denied it. *)
Theorem two_requests_can_swap_answers :
  let user r := match r with ScreenCapture => Granted | _ => Denied end in
  exists b, reach user 2 b /\
    threads b = [Done ScreenCapture Denied; Done InputInjection Granted].
Proof.
  intros user. exists (mkBridge [Done ScreenCapture Denied; Done InputInjection Granted] [] None [] false).
  split; [|done]. set (s := ScreenCapture). set (i := InputInjection).
  eapply Reach_step; [|apply (Step_recv user (mkBridge [Waiting s; Done i Granted] [] None [Denied] false) 0 s); reflexivity].
  eapply Reach_step; [|apply (Step_answer user (mkBridge [Waiting s; Done i Granted] [] (Some i) [] false) i); reflexivity].
  eapply Reach_step; [|apply (Step_take _ (mkBridge [Waiting s; Done i Granted] [i] None [] false)); reflexivity].
  eapply Reach_step; [|apply (Step_recv _ (mkBridge [Waiting s; Waiting i] [i] None [Granted] false) 1 i); reflexivity].
  eapply Reach_step; [|apply (Step_answer user (mkBridge [Waiting s; Waiting i] [i] (Some s) [] false) s); reflexivity].
  eapply Reach_step; [|apply (Step_send _ (mkBridge [Waiting s; Sending i] [] (Some s) [] false) 1 i); reflexivity].
  eapply Reach_step; [|apply (Step_take _ (mkBridge [Waiting s; Sending i] [s] None [] false)); reflexivity].
  eapply Reach_step; [|apply (Step_send _ (mkBridge [Sending s; Sending i] [] None [] false) 0 s); reflexivity].
  eapply Reach_step; [|apply (Step_start _ (mkBridge [Sending s; Idle] [] None [] false) 1 i); reflexivity].
  eapply Reach_step; [|apply (Step_start _ (bridge_new 2) 0 s); reflexivity]. apply Reach_new.
Qed.

(** Every request is logged before and after, and only Windows, with a bridge, can
    grant. *)
Theorem never_silent (p : Platform) (bridge : option (EscalationReason -> ElevationOutcome)) (q : ElevationRequest) :
  let '(lines, o) := execute p bridge q in
  lines = [Requested (reason q) (kind q); Outcome (reason q) (kind q) o] /\
  (is_granted o = true -> p = OnWindows /\ exists ask, bridge = Some ask /\ ask (reason q) = Granted).
Proof.
  cbn. split; [done|]. destruct p; cbn; try done. destruct bridge as [ask|]; [|done].
  intros H. split; [done|]. exists ask. split; [done|]. by destruct (ask (reason q)).
Qed.
End Elevation.
