(* ===== verification/Head.v ===== *)
(** The talking head of Gear A: [keypoint_extractor.rs] and
    [synthesis_network.rs] of [core/platform/src], without a neural model (the
    path these files have).

    [f32] is binary32 ([F64]); sine and cosine are parameters.  A panic is
    [None]; casts between integers and their overflow are those of a release
    build. *)
From Stdlib Require Import Strings.String.
From S2P Require Import Prelude F64 Senders Guardrail Motion.
#[local] Open Scope N_scope.

(** ** [f32] *)
Definition s_one : f32 := s_of_Z 1.
Definition s_half : f32 := s_lit 1 2.
Definition FRAC_PI_4 : f32 := S754_finite false 13176795 (-24).

(** [as i32] and [as u8]: truncate, saturate, a NaN gives 0. *)
Definition s_to_i32 (x : f32) : Z :=
  match x with
  | S754_infinity s => if s then - 2 ^ 31 else 2 ^ 31 - 1
  | _ => clampZ (f_trunc_Z x) (- 2 ^ 31) (2 ^ 31 - 1)
  end%Z.
Definition s_to_u8 (x : f32) : byte :=
  match x with
  | S754_infinity s => if s then Byte.x00 else Byte.xff
  | _ => byte_of (Z.to_N (clampZ (f_trunc_Z x) 0 255))
  end.

Definition s_byte (b : byte) : f32 := s_of_Z (Z.of_N (Byte.to_N b)).
Definition s_of_N (n : N) : f32 := s_of_Z (Z.of_N n).

(** ** Loops *)
Definition upto (n : N) : list N := map N.of_nat (seq 0 (N.to_nat n)).

(** [for row in 0..height { for col in 0..width { … } }]. *)
Definition raster (width height : N) : list (N * N) :=
  flat_map (fun row => map (fun col => (row, col)) (upto width)) (upto height).

(** A loop whose body may panic. *)
Fixpoint each {S C} (f : S -> C -> option S) (s : S) (cs : list C) : option S :=
  match cs with
  | [] => Some s
  | c :: cs => s ← f s c; each f s cs
  end.

(** ** The extractor *)
Definition CANONICAL_GRID : list (f32 * f32) :=
  map (fun p => (s_lit (fst p) 100, s_lit (snd p) 100))
    [(25, 12); (42, 10); (58, 10); (75, 12);
     (20, 30); (38, 28); (50, 29); (62, 28); (80, 30);
     (35, 48); (50, 46); (65, 48);
     (28, 64); (40, 63); (50, 65); (60, 63); (72, 64);
     (33, 80); (50, 84); (67, 80)]%Z.

Inductive ExtractionError := InvalidFrame.

Record KeypointExtractorConfig := mkConfig { keypoint_count : nat; expression_dim : nat }.

Definition config_default : KeypointExtractorConfig := mkConfig KEYPOINT_COUNT EXPRESSION_DIM.

Record ExtractionResult := mkResult { motion_latents : MotionLatents; confidences : list f32 }.

Definition to_frame_analysis (r : ExtractionResult) (hand : bool) (faces : N) (ratio : f32) : FrameAnalysis :=
  mkAnalysis (confidences r) hand faces ratio.

Definition luma_at (px : list byte) (i : nat) : option f32 :=
  r ← px !! (i * 3)%nat; g ← px !! (i * 3 + 1)%nat; b ← px !! (i * 3 + 2)%nat;
  Some (s_lit 299 1000 * s_byte r + s_lit 587 1000 * s_byte g + s_lit 114 1000 * s_byte b)%f32.

Definition compute_luma (f : Reference.Frame) : option (list f32) :=
  mapM (luma_at (Reference.pixels f)) (seq 0 (N.to_nat (wrap 32 (Reference.width f * Reference.height f)))).

(** [luma[(row * width + col) as usize]]. *)
Definition luma_pixel (luma : list f32) (width : N) (c : N * N) : option f32 :=
  luma !! N.to_nat (wrap 32 (wrap 32 (fst c * width) + snd c)).

(** [(col as f32 + 0.5) / w]. *)
Definition centre (i n : N) : f32 := ((s_of_N i + s_half) / s_of_N n)%f32.

Definition centroid_step (luma : list f32) (width height : N) (s : f32 * f32 * f32) (c : N * N) :
    option (f32 * f32 * f32) :=
  l ← luma_pixel luma width c;
  let '(sum_w, sum_x, sum_y) := s in
  let nx := centre (snd c) width in
  let ny := centre (fst c) height in
  Some (sum_w + l, sum_x + l * nx, sum_y + l * ny)%f32.

Definition luminance_centroid (luma : list f32) (width height : N) : option (f32 * f32) :=
  '(sum_w, sum_x, sum_y) ← each (centroid_step luma width height) (s_zero, s_zero, s_zero) (raster width height);
  Some (if (sum_w <? s_one)%f32 then (s_half, s_half) else (sum_x / sum_w, sum_y / sum_w)%f32).

Definition moments_step (luma : list f32) (width height : N) (cx cy : f32) (s : f32 * f32 * f32 * f32) (c : N * N) :
    option (f32 * f32 * f32 * f32) :=
  l ← luma_pixel luma width c;
  let '(m20, m02, m11, total) := s in
  let nx := (centre (snd c) width - cx)%f32 in
  let ny := (centre (fst c) height - cy)%f32 in
  Some (m20 + l * nx * nx, m02 + l * ny * ny, m11 + l * nx * ny, total + l)%f32.

Definition quarter (x : f32) : f32 := s_clamp x (SFopp FRAC_PI_4) FRAC_PI_4.

Definition estimate_pose (luma : list f32) (width height : N) (cx cy : f32) : option HeadPose :=
  let tx := ((cx - s_half) * s_of_Z 2)%f32 in
  let ty := ((cy - s_half) * s_of_Z 2)%f32 in
  '(m20, m02, m11, total) ← each (moments_step luma width height cx cy) (s_zero, s_zero, s_zero, s_zero) (raster width height);
  let '(m20, m02, m11) :=
    if (total >? s_one)%f32 then (m20 / total, m02 / total, m11 / total)%f32 else (m20, m02, m11) in
  Some (mkPose (quarter (m20 - s_lit 8 100)%f32) (quarter (m02 - s_lit 8 100)%f32) (quarter m11)
          (s_clamp tx (s_of_Z (-1)) s_one) (s_clamp ty (s_of_Z (-1)) s_one) s_zero).

(** [Ord::clamp] panics when the bounds are crossed. *)
Definition clamp_i32 (x lo hi : Z) : option Z := if (lo <=? hi)%Z then Some (clampZ x lo hi) else None.

Definition window (radius : nat) : list Z := map (fun i => Z.of_nat i - Z.of_nat radius)%Z (seq 0 (2 * radius + 1)).

Definition variance_step (luma : list f32) (wi hi px py : Z) (s : f32 * f32 * N) (d : Z * Z) : option (f32 * f32 * N) :=
  qx ← clamp_i32 (i32 (px + snd d)) 0 (i32 (wi - 1));
  qy ← clamp_i32 (i32 (py + fst d)) 0 (i32 (hi - 1));
  let idx := i32 (i32 (qy * wi) + qx) in
  l ← (if (idx <? 0)%Z then None else luma !! Z.to_nat idx);
  let '(sum, sum_sq, count) := s in
  Some ((sum + l)%f32, (sum_sq + l * l)%f32, wrap 32 (count + 1)).

Definition confidence_of (sum sum_sq : f32) (count : N) : f32 :=
  let mean := (sum / s_of_N count)%f32 in
  let variance := (sum_sq / s_of_N count - mean * mean)%f32 in
  s_clamp (variance / s_of_Z 8000)%f32 s_zero s_one.

Definition local_variance_confidence (luma : list f32) (width height : N) (nx ny : f32) (radius : nat) : option f32 :=
  let px := s_to_i32 (nx * s_of_N width)%f32 in
  let py := s_to_i32 (ny * s_of_N height)%f32 in
  let wi := i32 (Z.of_N width) in
  let hi := i32 (Z.of_N height) in
  '(sum, sum_sq, count) ← each (variance_step luma wi hi px py) (s_zero, s_zero, 0) (list_prod (window radius) (window radius));
  Some (if count =? 0 then s_zero else confidence_of sum sum_sq count).

Definition extract_keypoint (luma : list f32) (width height : N) (cx cy : f32) (g : f32 * f32) : option Keypoint3D :=
  let scale := s_lit 42 100 in
  let '(gx, gy) := g in
  let nx := s_clamp (cx + (gx - s_half) * scale)%f32 s_zero s_one in
  let ny := s_clamp (cy + (gy - s_half) * scale)%f32 s_zero s_one in
  let dist := s_sqrt ((gx - s_half) * (gx - s_half) + (gy - s_half) * (gy - s_half))%f32 in
  conf ← local_variance_confidence luma width height nx ny 5;
  Some (mkKeypoint nx ny (dist * s_lit 3 10)%f32 conf).

(** The keypoints; the second list that is returned has their confidences. *)
Definition extract_keypoints (luma : list f32) (width height : N) (cx cy : f32) : option (list Keypoint3D * list f32) :=
  keypoints ← mapM (extract_keypoint luma width height cx cy) CANONICAL_GRID;
  Some (keypoints, map confidence keypoints).

(** [&luma[a..b]]. *)
Definition slice (luma : list f32) (a b : nat) : option (list f32) :=
  if decide (a <= b <= length luma)%nat then Some (take (b - a) (drop a luma)) else None.

Definition mean_of (l : list f32) : f32 := (s_sum l / s_of_Z (Z.of_nat (length l)))%f32.

Definition strip_value (luma : list f32) (w h strip_height : nat) (global_mean : f32) (i : nat) : option f32 :=
  let y0 := Nat.min (i * strip_height) (h - 1) in
  let y1 := Nat.min ((i + 1) * strip_height) h in
  if (y1 <=? y0)%nat then Some s_zero
  else
    strip ← slice luma (y0 * w) (y1 * w);
    let strip_mean := match strip with [] => global_mean | _ => mean_of strip end in
    Some (s_clamp ((strip_mean - global_mean) / s_of_Z 128)%f32 (s_of_Z (-1)) s_one).

Definition derive_expression (luma : list f32) (width height : N) (dim : nat) : option ExpressionLatents :=
  match luma, dim with
  | [], _ | _, O => Some (mkExpression (replicate dim s_zero))
  | _, _ =>
      let h := N.to_nat height in
      let strip_height := Nat.max (Nat.max h 1 / dim) 1 in
      values ← mapM (strip_value luma (N.to_nat width) h strip_height (mean_of luma)) (seq 0 dim);
      Some (mkExpression values)
  end.

Definition extract (config : KeypointExtractorConfig) (f : Reference.Frame) :
    option (result ExtractionError ExtractionResult) :=
  if negb (Reference.is_valid f) then Some (Err InvalidFrame)
  else
    let w := Reference.width f in
    let h := Reference.height f in
    luma ← compute_luma f;
    '(cx, cy) ← luminance_centroid luma w h;
    pose ← estimate_pose luma w h cx cy;
    '(keypoints, confs) ← extract_keypoints luma w h cx cy;
    expression ← derive_expression luma w h (expression_dim config);
    Some (Ok (mkResult (mkLatents keypoints pose expression) confs)).

(** ** The synthesis network *)
Definition HEAD_PX_MIN : N := 256.
Definition HEAD_PX_MAX : N := 384.

Inductive HeadResolution := Px256 | Px384.

Definition pixels (r : HeadResolution) : N := match r with Px256 => HEAD_PX_MIN | Px384 => HEAD_PX_MAX end.
Definition buffer_bytes (r : HeadResolution) : N := pixels r * pixels r * 3.

Inductive SynthesisError := NoReferenceFrame | InvalidLatents (why : string) | InvalidReferenceFrame.

Record SynthesisConfig := mkSynthesisConfig { resolution : HeadResolution; expected : nat }.

Definition synthesis_default : SynthesisConfig := mkSynthesisConfig Px256 KEYPOINT_COUNT.

Record SynthesisNetwork := mkNetwork { config : SynthesisConfig; reference_frame : option Reference.Frame }.

Definition network_new (c : SynthesisConfig) : SynthesisNetwork := mkNetwork c None.

Definition load_reference_frame (n : SynthesisNetwork) (f : Reference.Frame) :
    SynthesisNetwork * result SynthesisError unit :=
  if negb (Reference.is_valid f) then (n, Err InvalidReferenceFrame)
  else (mkNetwork (config n) (Some f), Ok tt).

Definition has_reference_frame (n : SynthesisNetwork) : bool :=
  match reference_frame n with Some _ => true | None => false end.

Definition clear_reference_frame (n : SynthesisNetwork) : SynthesisNetwork := mkNetwork (config n) None.

Record ReconstructedFrame := mkReconstructed { out : list byte; out_resolution : HeadResolution }.

(** *** Bilinear sampling *)

(** [idx] is the index as a [usize]; [idx + 2] may wrap. *)
Definition sample (px : list byte) (wi x y : Z) : option (f32 * f32 * f32) :=
  let idx := Z.to_N (i32 (i32 (i32 (y * wi) + x) * 3) mod 2 ^ 64) in
  if wrap 64 (idx + 2) <? lenN px then
    r ← px !! N.to_nat idx; g ← px !! N.to_nat (wrap 64 (idx + 1)); b ← px !! N.to_nat (wrap 64 (idx + 2));
    Some (s_byte r, s_byte g, s_byte b)
  else Some (s_zero, s_zero, s_zero).

(** One channel of the four pixels about a point, weighted. *)
Definition blend (fx fy p00 p10 p01 p11 : f32) : byte :=
  let v := (p00 * (s_one - fx) * (s_one - fy) + p10 * fx * (s_one - fy)
            + p01 * (s_one - fx) * fy + p11 * fx * fy)%f32 in
  s_to_u8 (s_clamp (s_round v) s_zero (s_of_Z 255)).

(** The corner of the cell a clamped coordinate is in, and the next one. *)
Definition cell (x : f32) (width : N) : Z * Z :=
  let x0 := s_to_i32 (s_floor x) in
  (x0, Z.min (i32 (x0 + 1)) (i32 (i32 (Z.of_N width) - 1))).

Definition clamp_coord (x : f32) (n : N) : f32 := s_clamp x s_zero (s_of_N n - s_one)%f32.

Definition bilinear_sample (px : list byte) (width height : N) (x y : f32) : option (list byte) :=
  let wi := i32 (Z.of_N width) in
  let x := clamp_coord x width in
  let y := clamp_coord y height in
  let '(x0, x1) := cell x width in
  let '(y0, y1) := cell y height in
  let fx := (x - s_of_Z x0)%f32 in
  let fy := (y - s_of_Z y0)%f32 in
  '(r00, g00, b00) ← sample px wi x0 y0;
  '(r10, g10, b10) ← sample px wi x1 y0;
  '(r01, g01, b01) ← sample px wi x0 y1;
  '(r11, g11, b11) ← sample px wi x1 y1;
  Some [blend fx fy r00 r10 r01 r11; blend fx fy g00 g10 g01 g11; blend fx fy b00 b10 b01 b11].

Section network.
Context (sinf cosf : f32 -> f32).

(** Where an output pixel is taken from. *)
Definition warp (p : HeadPose) (ref_w ref_h : f32) (size : N) (c : N * N) : f32 * f32 :=
  let sin_yaw := sinf (yaw p) in
  let sin_pitch := sinf (pitch p) in
  let cos_pitch := cosf (pitch p) in
  let sin_roll := sinf (roll p) in
  let cos_roll := cosf (roll p) in
  let u := (centre (snd c) size * s_of_Z 2 - s_one)%f32 in
  let v := (centre (fst c) size * s_of_Z 2 - s_one)%f32 in
  let u_t := (u - tx p)%f32 in
  let v_t := (v - ty p)%f32 in
  let u_r := (cos_roll * u_t + sin_roll * v_t)%f32 in
  let v_r := (SFopp sin_roll * u_t + cos_roll * v_t)%f32 in
  let src_u := (u_r - v_r * sin_yaw * cos_pitch)%f32 in
  let src_v := (v_r / s_max (SFabs cos_pitch) (s_lit 1 10) + u_r * sin_pitch)%f32 in
  ((src_u * s_half + s_half) * ref_w, (src_v * s_half + s_half) * ref_h)%f32.

Definition warp_pixel (f : Reference.Frame) (p : HeadPose) (size : N) (c : N * N) : option (list byte) :=
  let '(src_x, src_y) := warp p (s_of_N (Reference.width f)) (s_of_N (Reference.height f)) size c in
  bilinear_sample (Reference.pixels f) (Reference.width f) (Reference.height f) src_x src_y.

(** [pixels[idx] = r; pixels[idx + 1] = g; pixels[idx + 2] = b]. *)
Definition store (buf : list byte) (idx : nat) (rgb : list byte) : option (list byte) :=
  if decide (idx + 2 < length buf)%nat then Some (take idx buf ++ rgb ++ drop (idx + 3) buf) else None.

Definition paint (f : Reference.Frame) (p : HeadPose) (size : N) (buf : list byte) (c : N * N) : option (list byte) :=
  rgb ← warp_pixel f p size c;
  store buf (N.to_nat ((fst c * size + snd c) * 3)) rgb.

Definition reconstruct (n : SynthesisNetwork) (l : MotionLatents) : option (result SynthesisError ReconstructedFrame) :=
  match reference_frame n with
  | None => Some (Err NoReferenceFrame)
  | Some f =>
      if negb (length (keypoints l) =? expected (config n))%nat
      then Some (Err (InvalidLatents "keypoint count mismatch"%string))
      else
        let size := pixels (resolution (config n)) in
        buf ← each (paint f (pose l) size) (replicate (N.to_nat (size * size * 3)) Byte.x00) (raster size size);
        Some (Ok (mkReconstructed buf (resolution (config n))))
  end.
End network.

(** ** Lemmas: loops *)
Lemma mapM_cons_Some {A B} (g : A -> option B) x l k :
  mapM g (x :: l) = Some k -> exists y ys, k = y :: ys /\ g x = Some y /\ mapM g l = Some ys.
Proof.
  change (mapM g (x :: l)) with (y ← g x; ys ← mapM g l; mret (y :: ys)).
  destruct (g x) as [y|]; [|done]. destruct (mapM g l) as [ys|]; [|done].
  intros [= <-]. by exists y, ys.
Qed.

Lemma mapM_same {A B} (g g' : A -> option B) l : (forall x, x ∈ l -> g x = g' x) -> mapM g l = mapM g' l.
Proof.
  induction l as [|x l IH]; intros H; [done|].
  change (mapM ?k (x :: l)) with (y ← k x; ys ← mapM k l; mret (y :: ys)).
  rewrite (H x) by (by left). destruct (g' x); [|done]. cbn. rewrite IH; [done|]. intros z Hz. apply H. by right.
Qed.

Section loops.
Context {S C : Type} (f : S -> C -> option S).

Lemma each_app s cs1 cs2 : each f s (cs1 ++ cs2) = (s ← each f s cs1; each f s cs2).
Proof. revert s. induction cs1 as [|c cs1 IH]; intros s; [done|]. cbn. destruct (f s c) as [s'|]; [apply IH|done]. Qed.

Lemma each_cons s s' c cs : f s c = Some s' -> each f s (c :: cs) = each f s' cs.
Proof. intros E. cbn. by rewrite E. Qed.

(** An invariant that every turn keeps holds at the end, and no turn panics. *)
Lemma each_inv (I : S -> Prop) s cs :
  I s -> (forall s c, c ∈ cs -> I s -> exists s', f s c = Some s' /\ I s') -> exists s', each f s cs = Some s' /\ I s'.
Proof.
  revert s. induction cs as [|c cs IH]; intros s Hs Hf; [by exists s|].
  destruct (Hf s c ltac:(left) Hs) as (s' & E & Hs'). cbn. rewrite E.
  apply IH; [done|]. intros s'' c' Hc. apply Hf. by right.
Qed.
End loops.

Lemma each_total {S C} (f : S -> C -> option S) s cs :
  (forall s c, c ∈ cs -> is_Some (f s c)) -> is_Some (each f s cs).
Proof.
  intros Hf. destruct (each_inv f (fun _ => True) s cs I) as (s' & E & _); [|by exists s'].
  intros s0 c Hc _. destruct (Hf s0 c Hc) as [s' ?]. by exists s'.
Qed.

Lemma mapM_all {A B} (g : A -> option B) l : (forall x, x ∈ l -> is_Some (g x)) -> is_Some (mapM g l).
Proof. intros Hg. apply mapM_is_Some, Forall_forall. exact Hg. Qed.

Lemma elem_of_upto n i : i ∈ upto n <-> i < n.
Proof.
  unfold upto. rewrite list_elem_of_In, in_map_iff. split.
  - intros (k & <- & Hk). apply in_seq in Hk. lia.
  - intros Hi. exists (N.to_nat i). split; [lia|]. apply in_seq. lia.
Qed.

Lemma elem_of_raster w h c : c ∈ raster w h <-> fst c < h /\ snd c < w.
Proof.
  unfold raster. rewrite list_elem_of_In, in_flat_map. destruct c as [row col]; cbn. split.
  - intros (r & Hr & Hc). apply in_map_iff in Hc as (k & [= -> ->] & Hk).
    apply list_elem_of_In, elem_of_upto in Hr, Hk. done.
  - intros [Hr Hc]. exists row. split; [by apply list_elem_of_In, elem_of_upto|].
    apply in_map_iff. exists col. split; [done|]. by apply list_elem_of_In, elem_of_upto.
Qed.

(** The raster visits the places of a [w]-wide picture in order. *)
Definition place (w : N) (c : N * N) : nat := N.to_nat (fst c * w + snd c).

Lemma upto_S n : upto (N.succ n) = upto n ++ [n].
Proof. unfold upto. rewrite N2Nat.inj_succ, seq_S, map_app. cbn. by rewrite N2Nat.id. Qed.

Lemma raster_succ w h : raster w (N.succ h) = raster w h ++ map (fun col => (h, col)) (upto w).
Proof. unfold raster. rewrite upto_S, flat_map_app. cbn. by rewrite app_nil_r. Qed.

Lemma raster_places w h : map (place w) (raster w h) = seq 0 (N.to_nat (h * w)).
Proof.
  induction h as [|h IH] using N.peano_ind; [done|].
  rewrite raster_succ, map_app, IH, map_map. replace (N.to_nat (N.succ h * w)) with (N.to_nat (h * w) + N.to_nat w)%nat by lia.
  rewrite seq_app. f_equal. unfold upto. rewrite map_map, Nat.add_0_l.
  replace (N.to_nat (h * w)) with (N.to_nat (h * w) + 0)%nat by lia.
  generalize (N.to_nat w) as n, 0%nat as k. intros n.
  induction n as [|n IHn]; intros k; [done|]. cbn [seq map]. rewrite IHn.
  f_equal; [unfold place; cbn; lia|]. by rewrite Nat.add_succ_r.
Qed.

(** ** Lemmas: floats *)

(** At or within the bounds, or not a number. *)
Definition within (lo hi x : f32) : Prop := SFltb x lo = false /\ SFltb hi x = false.

Lemma s_clamp_within lo hi x :
  SFltb lo lo = false -> SFltb hi lo = false -> SFltb hi hi = false -> within lo hi (s_clamp x lo hi).
Proof.
  intros H1 H2 H3. unfold s_clamp, within.
  destruct (SFltb x lo) eqn:E1; [done|]. by destruct (SFltb hi x) eqn:E2.
Qed.

Ltac within_const := apply s_clamp_within; vm_compute; reflexivity.

(** A product has a significand of 24 bits. *)
Definition small (x : f32) : Prop := match x with S754_finite _ m _ => (Zpos m < 2 ^ 24)%Z | _ => True end.

Lemma shr_fexp_small m e l :
  (0 <= m)%Z -> (0 <= shr_m (fst (shr_fexp 24 128 m e l)) < 2 ^ 24)%Z.
Proof.
  intros Hm. unfold shr_fexp. set (n := (fexp 24 128 (Zdigits2 m + e) - e)%Z).
  destruct (Zdigits2_spec m Hm) as (Hd & _ & Hd0).
  assert (Hn : (Zdigits2 m - 24 <= n)%Z) by (unfold n, fexp, emin; lia).
  assert (Hr : shr_m (shr_record_of_loc m l) = m) by apply shr_record_of_loc_spec.
  destruct (Z_lt_le_dec n 0) as [Hlt|Hge].
  - replace (fst (shr (shr_record_of_loc m l) e n)) with (shr_record_of_loc m l) by (by destruct n).
    rewrite Hr. split; [done|]. apply Z.lt_le_trans with (2 ^ Zdigits2 m)%Z; [done|]. apply Z.pow_le_mono_r; lia.
  - destruct (shr_spec (shr_record_of_loc m l) e n) as (_ & -> & _); [lia..|]. rewrite Hr.
    split; [apply Z.div_pos; [done|apply Z.pow_pos_nonneg; lia]|].
    apply Z.div_lt_upper_bound; [apply Z.pow_pos_nonneg; lia|]. rewrite <- Z.pow_add_r by lia.
    apply Z.lt_le_trans with (2 ^ Zdigits2 m)%Z; [done|]. apply Z.pow_le_mono_r; lia.
Qed.

Lemma binary_round_aux_small s m e l : (0 <= m)%Z -> small (binary_round_aux 24 128 s m e l).
Proof.
  intros Hm. unfold binary_round_aux.
  pose proof (shr_fexp_small m e l Hm) as H1. destruct (shr_fexp 24 128 m e l) as [r e']. cbn in H1.
  destruct (round_nearest_even_spec r) as [Hr _]. set (q := round_nearest_even _ _) in *.
  pose proof (shr_fexp_small q e' loc_Exact ltac:(lia)) as H2. destruct (shr_fexp 24 128 q e' _) as [r' e''].
  cbn in H2. destruct (shr_m r'); [done| |lia]. destruct (e'' <=? _)%Z; [exact (proj2 H2)|done].
Qed.

Lemma s_mul_small x y : small (s_mul x y).
Proof. destruct x as [| | |s m e], y as [| | |s' m' e']; try done. by apply binary_round_aux_small. Qed.

(** *** The cell of a clamped coordinate *)

(** What the largest coordinate is for every size up to 4096: the significand is
    full or the value is zero, and its integer part is the last index. *)
Definition edge_ok (n : N) : bool :=
  match (s_of_N n - s_one)%f32 with
  | S754_zero _ => n =? 1
  | S754_finite false m e =>
      ((2 ^ 23 <=? Zpos m) && (e <=? 0) && (Zpos m =? (Z.of_N n - 1) * 2 ^ (- e)))%Z
  | _ => false
  end && (s_to_i32 (s_of_N (n - 1)) =? Z.of_N (n - 1))%Z.

Lemma edges n : 1 <= n <= 4096 -> edge_ok n = true.
Proof.
  intros Hn. assert (H : forallb edge_ok (map N.succ (upto 4096)) = true) by (vm_compute; reflexivity).
  rewrite forallb_forall in H. apply H, in_map_iff. exists (N.pred n). split; [lia|].
  apply list_elem_of_In, elem_of_upto. lia.
Qed.

Lemma int_part k n : (0 <= k < n)%Z -> (n <= 4096)%Z -> s_to_i32 (s_of_Z k) = k.
Proof.
  intros Hk Hn. pose proof (edges (Z.to_N k + 1) ltac:(lia)) as H. unfold edge_ok in H.
  apply andb_true_iff in H as [_ H%Z.eqb_eq]. unfold s_of_N in H.
  replace (Z.of_N (Z.to_N k + 1 - 1)) with k in H by lia. done.
Qed.

Lemma floor_below mh eh m e n :
  (2 ^ 23 <= Zpos mh)%Z -> (eh <= 0)%Z -> (Zpos mh = n * 2 ^ (- eh))%Z -> (Zpos m < 2 ^ 24)%Z ->
  SFltb (S754_finite false mh eh) (S754_finite false m e) = false ->
  (0 <= f_floor_Z (S754_finite false m e) <= n)%Z.
Proof.
  intros Hh He Hn Hm Hlt. unfold SFltb, SFcompare in Hlt. cbn [f_floor_Z].
  change (Pcompare mh m Eq) with (mh ?= m)%positive in Hlt.
  assert (Hq : (Zpos m <= Zpos mh * 2 ^ (eh - e) /\ e <= eh)%Z).
  { destruct (Z.compare_spec eh e) as [->|Hc|Hc]; [|done|].
    - rewrite Z.sub_diag, Z.pow_0_r. destruct (Pos.compare_spec mh m); [lia|done|lia].
    - split; [|lia]. assert (2 ^ 1 <= 2 ^ (eh - e))%Z by (apply Z.pow_le_mono_r; lia). nia. }
  destruct Hq as [Hq Hle]. destruct (Z.leb_spec 0 e) as [H0|H0].
  - assert (eh = 0%Z /\ e = 0%Z) as [-> ->] by lia. cbn in *. lia.
  - pose proof (Z.pow_pos_nonneg 2 (- e) ltac:(lia) ltac:(lia)). split; [apply Z.div_pos; lia|].
    apply Z.div_le_upper_bound; [done|]. rewrite Hn in Hq.
    replace (- e)%Z with (- eh + (eh - e))%Z by lia. rewrite Z.pow_add_r by lia. lia.
Qed.

Lemma clamped_floor x n :
  1 <= n <= 4096 -> small x -> (0 <= s_to_i32 (s_floor (clamp_coord x n)) < Z.of_N n)%Z.
Proof.
  intros Hn Hx. pose proof (edges n Hn) as He. unfold edge_ok in He. apply andb_true_iff in He as [He _].
  unfold clamp_coord, s_clamp. set (hi := (s_of_N n - s_one)%f32) in *.
  destruct (SFltb x s_zero) eqn:E0; [change (0 <= 0 < Z.of_N n)%Z; lia|].
  assert (Hfin : forall m e, (0 <= f_floor_Z (S754_finite false m e) <= Z.of_N n - 1)%Z ->
    (0 <= s_to_i32 (s_floor (S754_finite false m e)) < Z.of_N n)%Z).
  { intros m e Hf. unfold s_floor. rewrite (int_part _ (Z.of_N n)) by lia. lia. }
  destruct (SFltb hi x) eqn:E1.
  - destruct hi as [s|s| |[] mh eh]; try done; [change (0 <= 0 < Z.of_N n)%Z; lia|].
    rewrite !andb_true_iff, !Z.leb_le, Z.eqb_eq in He. destruct He as [[H1 H2] H3]. apply Hfin.
    cbn [f_floor_Z]. destruct (Z.leb_spec 0 eh).
    + assert (eh = 0%Z) as -> by lia. cbn in *. lia.
    + rewrite H3, Z.div_mul by (apply Z.pow_nonzero; lia). lia.
  - destruct x as [s|[]| |[] m e]; try done; try (change (0 <= 0 < Z.of_N n)%Z; lia).
    + by destruct hi as [s|s| |[] mh eh].
    + destruct hi as [s|s| |[] mh eh]; try done.
      rewrite !andb_true_iff, !Z.leb_le, Z.eqb_eq in He. destruct He as [[H1 H2] H3].
      apply Hfin. apply (floor_below mh eh); [exact H1|exact H2|exact H3|exact Hx|exact E1].
Qed.

Lemma cell_inside x n :
  1 <= n <= 4096 -> small x ->
  let '(x0, x1) := cell (clamp_coord x n) n in (0 <= x0 < Z.of_N n /\ 0 <= x1 < Z.of_N n)%Z.
Proof.
  intros Hn Hx. pose proof (clamped_floor x n Hn Hx). unfold cell.
  rewrite (i32_small (Z.of_N n)), !i32_small by lia. lia.
Qed.

(** A sample within a picture reads its pixel. *)
Lemma sample_inside px (w h : N) x y :
  1 <= w <= 4096 -> 1 <= h <= 4096 -> lenN px = w * h * 3 ->
  (0 <= x < Z.of_N w)%Z -> (0 <= y < Z.of_N h)%Z ->
  let i := (Z.to_nat (y * Z.of_N w + x) * 3)%nat in
  sample px (i32 (Z.of_N w)) x y =
    (r ← px !! i; g ← px !! (i + 1)%nat; b ← px !! (i + 2)%nat; Some (s_byte r, s_byte g, s_byte b)) /\
  is_Some (sample px (i32 (Z.of_N w)) x y).
Proof.
  intros Hw Hh Hl Hx Hy i. unfold sample. rewrite (i32_small (Z.of_N w)) by lia.
  set (k := (y * Z.of_N w + x)%Z) in *.
  assert (Hyw : (0 <= y * Z.of_N w <= (Z.of_N h - 1) * Z.of_N w)%Z) by nia.
  assert (Hhw : (Z.of_N h * Z.of_N w <= 4096 * 4096)%Z) by nia.
  assert (Hk : (0 <= k < Z.of_N h * Z.of_N w)%Z) by (unfold k; nia).
  rewrite (i32_small (y * Z.of_N w)) by lia. fold k. rewrite (i32_small k) by lia.
  rewrite (i32_small (k * 3)) by lia. rewrite Z.mod_small by lia.
  assert (Hi : N.to_nat (Z.to_N (k * 3)) = i) by (unfold i; lia).
  rewrite !wrap_small by lia. rewrite !N2Nat.inj_add, Hi.
  assert (Hlen : (i + 2 < length px)%nat) by (unfold lenN in Hl; lia).
  destruct (N.ltb_spec (Z.to_N (k * 3) + 2) (lenN px)) as [_|Hbad]; [|unfold lenN in Hbad; lia].
  split; [done|].
  destruct (lookup_lt_is_Some_2 px i ltac:(lia)) as [r ->], (lookup_lt_is_Some_2 px (i + 1) ltac:(lia)) as [g Hg],
    (lookup_lt_is_Some_2 px (i + 2) ltac:(lia)) as [b Hb].
  change (N.to_nat 1) with 1%nat. change (N.to_nat 2) with 2%nat. rewrite Hg, Hb. by eexists.
Qed.

(** ** The head is drawn *)
Definition sane (f : Reference.Frame) : Prop :=
  Reference.is_valid f = true /\ Reference.width f <= 4096 /\ Reference.height f <= 4096.

Lemma sane_size f :
  sane f -> 1 <= Reference.width f <= 4096 /\ 1 <= Reference.height f <= 4096 /\
    lenN (Reference.pixels f) = Reference.width f * Reference.height f * 3.
Proof.
  intros (Hv & Hw & Hh). unfold Reference.is_valid, Reference.pixel_bytes in Hv.
  rewrite !andb_true_iff, !N.ltb_lt, N.eqb_eq in Hv. destruct Hv as [[H1 H2] ->].
  assert (Reference.width f * Reference.height f <= 4096 * 4096) by (apply N.mul_le_mono; lia).
  rewrite (wrap_small 32 (Reference.width f * Reference.height f)), wrap_small by lia. lia.
Qed.

(** The corners about a point of a picture are pixels of it, so nothing is drawn
    black for want of a pixel. *)
Lemma bilinear_inside px w h x y :
  1 <= w <= 4096 -> 1 <= h <= 4096 -> lenN px = w * h * 3 -> small x -> small y ->
  exists rgb, bilinear_sample px w h x y = Some rgb /\ length rgb = 3%nat.
Proof.
  intros Hw Hh Hl Hx Hy. unfold bilinear_sample.
  pose proof (cell_inside x w Hw Hx) as Hcx. destruct (cell (clamp_coord x w) w) as [x0 x1]. destruct Hcx as [Hx0 Hx1].
  pose proof (cell_inside y h Hh Hy) as Hcy. destruct (cell (clamp_coord y h) h) as [y0 y1]. destruct Hcy as [Hy0 Hy1].
  destruct (proj2 (sample_inside px w h x0 y0 Hw Hh Hl Hx0 Hy0)) as [[[? ?] ?] ->].
  destruct (proj2 (sample_inside px w h x1 y0 Hw Hh Hl Hx1 Hy0)) as [[[? ?] ?] ->].
  destruct (proj2 (sample_inside px w h x0 y1 Hw Hh Hl Hx0 Hy1)) as [[[? ?] ?] ->].
  destruct (proj2 (sample_inside px w h x1 y1 Hw Hh Hl Hx1 Hy1)) as [[[? ?] ?] ->].
  by eexists.
Qed.

Section drawing.
Context (sinf cosf : f32 -> f32).

Lemma warp_small p rw rh size c :
  let '(x, y) := warp sinf cosf p rw rh size c in small x /\ small y.
Proof. unfold warp. split; apply s_mul_small. Qed.

Lemma warp_pixel_total f p size c :
  sane f -> exists rgb, warp_pixel sinf cosf f p size c = Some rgb /\ length rgb = 3%nat.
Proof.
  intros Hs. destruct (sane_size f Hs) as (Hw & Hh & Hl). unfold warp_pixel.
  pose proof (warp_small p (s_of_N (Reference.width f)) (s_of_N (Reference.height f)) size c) as Hc.
  destruct (warp _ _ _ _ _ _ _) as [x y]. destruct Hc. by apply bilinear_inside.
Qed.

(** Stores at consecutive places fill the buffer from where they begin. *)
Lemma painted f p size cs k buf rgbs :
  map (place size) cs = seq k (length cs) ->
  mapM (warp_pixel sinf cosf f p size) cs = Some rgbs ->
  Forall (fun rgb => length rgb = 3%nat) rgbs ->
  ((k + length cs) * 3 <= length buf)%nat ->
  each (paint sinf cosf f p size) buf cs =
    Some (take (k * 3) buf ++ concat rgbs ++ drop ((k + length cs) * 3) buf).
Proof.
  revert k buf rgbs. induction cs as [|c cs IH]; intros k buf rgbs Hp Hm H3 Hlen.
  { cbn in Hm. injection Hm as <-. cbn. rewrite Nat.add_0_r. by rewrite take_drop. }
  cbn [length seq map] in Hp. injection Hp as Hk Hp.
  apply mapM_cons_Some in Hm as (rgb & rest & -> & Ew & Em).
  apply Forall_cons in H3 as [H3 Hrest]. cbn [length] in Hlen.
  set (buf1 := take (k * 3) buf ++ rgb ++ drop (k * 3 + 3) buf).
  assert (El : length buf1 = length buf).
  { unfold buf1. rewrite !length_app, length_take, length_drop, H3. lia. }
  assert (Ep : paint sinf cosf f p size buf c = Some buf1).
  { unfold paint, store. rewrite Ew. cbn [mbind option_bind].
    replace (N.to_nat ((fst c * size + snd c) * 3)) with (k * 3)%nat by (unfold place in Hk; lia).
    by rewrite decide_True by lia. }
  rewrite (each_cons _ _ _ _ _ Ep).
  rewrite (IH (S k) buf1 rest) by (done || lia). f_equal.
  replace (S k * 3)%nat with (k * 3 + 3)%nat by lia.
  replace ((k + length (c :: cs)) * 3)%nat with (k * 3 + 3 + length cs * 3)%nat by (cbn; lia).
  replace ((S k + length cs) * 3)%nat with (k * 3 + 3 + length cs * 3)%nat by lia.
  assert (Eb : buf1 = (take (k * 3) buf ++ rgb) ++ drop (k * 3 + 3) buf) by (unfold buf1; by rewrite app_assoc).
  rewrite Eb. assert (Eh : length (take (k * 3) buf ++ rgb) = (k * 3 + 3)%nat).
  { rewrite length_app, length_take. lia. }
  rewrite (take_app_length' _ _ _ (eq_sym Eh)). rewrite drop_app_ge by lia. rewrite drop_drop, Eh.
  replace (k * 3 + 3 + (k * 3 + 3 + length cs * 3 - (k * 3 + 3)))%nat with (k * 3 + 3 + length cs * 3)%nat by lia.
  cbn [concat]. by rewrite <- !app_assoc.
Qed.

(** A frame is drawn whole. *)
Lemma drawn n f l :
  reference_frame n = Some f -> sane f -> length (keypoints l) = expected (config n) ->
  let size := pixels (resolution (config n)) in
  exists rgbs, mapM (warp_pixel sinf cosf f (pose l) size) (raster size size) = Some rgbs /\
    Forall (fun rgb => length rgb = 3%nat) rgbs /\
    reconstruct sinf cosf n l = Some (Ok (mkReconstructed (concat rgbs) (resolution (config n)))) /\
    lenN (concat rgbs) = buffer_bytes (resolution (config n)).
Proof.
  intros Hf Hs Hk size.
  assert (Ht : forall c, exists rgb, warp_pixel sinf cosf f (pose l) size c = Some rgb /\ length rgb = 3%nat)
    by (intros c; by apply warp_pixel_total).
  destruct (mapM_all (warp_pixel sinf cosf f (pose l) size) (raster size size)) as [rgbs Hr].
  { intros c _. destruct (Ht c) as (rgb & -> & _). by eexists. }
  assert (H3 : Forall (fun rgb => length rgb = 3%nat) rgbs).
  { apply Forall_forall. intros rgb Hin. apply mapM_Some in Hr.
    apply list_elem_of_lookup in Hin as [i Hi]. destruct (Forall2_lookup_r _ _ _ _ _ Hr Hi) as (c & _ & Hc).
    destruct (Ht c) as (rgb' & E & H). congruence. }
  assert (Hlen : length (raster size size) = N.to_nat (size * size)).
  { rewrite <- (length_map (place size)), raster_places. apply length_seq. }
  exists rgbs. split; [done|]. split; [done|].
  unfold reconstruct. rewrite Hf, (proj2 (Nat.eqb_eq _ _) Hk). cbn [negb]. fold size.
  rewrite (painted f (pose l) size (raster size size) 0 _ rgbs).
  - rewrite take_0. cbn [app mbind option_bind]. rewrite drop_ge by (rewrite length_replicate, Hlen; lia).
    rewrite app_nil_r. split; [done|].
    assert (Hc : length (concat rgbs) = (3 * length rgbs)%nat).
    { clear -H3. induction H3 as [|x k Hx _ IH]; [done|]. cbn. rewrite length_app, IH. lia. }
    apply mapM_Some, Forall2_length in Hr. unfold lenN, buffer_bytes. fold size. rewrite Hc. lia.
  - rewrite raster_places, Hlen. by f_equal.
  - done.
  - done.
  - rewrite length_replicate, Hlen. lia.
Qed.

(** Every call that cannot draw says why. *)
Lemma not_drawn n l :
  (reference_frame n = None -> reconstruct sinf cosf n l = Some (Err NoReferenceFrame)) /\
  (reference_frame n <> None -> length (keypoints l) <> expected (config n) ->
   reconstruct sinf cosf n l = Some (Err (InvalidLatents "keypoint count mismatch"%string))).
Proof.
  unfold reconstruct. split; [by intros ->|]. destruct (reference_frame n); [|done].
  intros _ Hk. by rewrite (proj2 (Nat.eqb_neq _ _) Hk).
Qed.
End drawing.

(** ** What the extractor gives *)
Definition bounded (lo hi x : f32) : Prop := within lo hi x /\ small x.

Lemma round_small s m e : small (binary_round 24 128 s m e).
Proof. unfold binary_round. destruct (shl_align _ _ _) as [mz ez]. by apply binary_round_aux_small. Qed.

Lemma normalize_small m e s : small (binary_normalize 24 128 m e s).
Proof. destruct m; [done|apply round_small|apply round_small]. Qed.

Lemma s_add_small x y : small x -> small y -> small (s_add x y).
Proof.
  intros Hx Hy. destruct x as [[]|[]| |s m e], y as [[]|[]| |s' m' e']; try done; apply normalize_small.
Qed.

Lemma s_sub_small x y : small x -> small y -> small (s_sub x y).
Proof.
  intros Hx Hy. destruct x as [[]|[]| |s m e], y as [[]|[]| |s' m' e']; try done; apply normalize_small.
Qed.

Lemma s_div_small x y : small (s_div x y).
Proof.
  destruct x as [| | |s m e], y as [| | |s' m' e']; try done. unfold s_div, SFdiv.
  unfold SFdiv_core_binary. set (k := match _ with Z0 => _ | _ => _ end).
  assert (Hk : (0 <= k)%Z) by (subst k; case_match; [lia|apply Z.shiftl_nonneg; lia|lia]).
  pose proof (Z.div_pos k (Zpos m') Hk ltac:(lia)) as Hq. unfold Z.div in Hq.
  destruct (Z.div_eucl k (Zpos m')) as [q r]. by apply binary_round_aux_small.
Qed.

Lemma s_clamp_small x lo hi : small x -> small lo -> small hi -> small (s_clamp x lo hi).
Proof. intros. unfold s_clamp. by repeat case_match. Qed.

Ltac bounded_const := split; [within_const | apply s_clamp_small; [|reflexivity|reflexivity]].

(** *** Latents cross the wire *)
Lemma digits_lt m d : (0 <= m < 2 ^ d)%Z -> (0 <= d)%Z -> (Zdigits2 m <= d)%Z.
Proof.
  intros Hm Hd. destruct (Zdigits2_spec m) as (_ & H & H0); [lia|].
  destruct (Z.eq_dec m 0%Z) as [->|]; [done|]. specialize (H ltac:(lia)).
  destruct (Z_le_gt_dec (Zdigits2 m) d); [done|].
  assert (2 ^ d <= 2 ^ (Zdigits2 m - 1))%Z by (apply Z.pow_le_mono_r; lia). lia.
Qed.

Lemma shr_fexp_exp m e l d :
  (0 <= m < 2 ^ d)%Z -> (24 <= d)%Z -> (snd (shr_fexp 24 128 m e l) <= Z.max (e + (d - 24)) (-149))%Z.
Proof.
  intros Hm Hd. pose proof (digits_lt m d Hm ltac:(lia)) as Hdig. unfold shr_fexp.
  set (n := (fexp 24 128 (Zdigits2 m + e) - e)%Z).
  assert (Hn : n = (Z.max (Zdigits2 m + e - 24) (-149) - e)%Z) by done.
  destruct n as [|p|p] eqn:E; cbn [shr snd]; lia.
Qed.

(** A product with a number below 2{^24} times 2{^e} does not exceed it much. *)
Lemma s_mul_exp s m e s' m' e' :
  (Zpos m < 2 ^ 24)%Z -> (Zpos m' <= 2 ^ 23)%Z ->
  match s_mul (S754_finite s m e) (S754_finite s' m' e') with
  | S754_finite _ m'' e'' => (Zpos m'' < 2 ^ 24 /\ e'' <= Z.max (e + e' + 24) (-148))%Z
  | S754_infinity _ => (104 < Z.max (e + e' + 24) (-148))%Z
  | S754_zero _ => True
  | S754_nan => False
  end.
Proof.
  intros Hm Hm'. pose proof (s_mul_small (S754_finite s m e) (S754_finite s' m' e')) as Hs.
  unfold s_mul, SFmul in *. set (p := Zpos (m * m')) in *.
  assert (Hp : (0 <= p < 2 ^ 47)%Z).
  { unfold p. rewrite Pos2Z.inj_mul. change (2 ^ 47)%Z with (2 ^ 24 * 2 ^ 23)%Z. nia. }
  unfold binary_round_aux in *. pose proof (shr_fexp_small p (e + e') loc_Exact ltac:(lia)) as H1.
  pose proof (shr_fexp_exp p (e + e') loc_Exact 47 Hp ltac:(lia)) as E1.
  destruct (shr_fexp 24 128 p (e + e') loc_Exact) as [r e1]. cbn [fst snd] in *.
  destruct (round_nearest_even_spec r) as [Hr _]. set (q := round_nearest_even _ _) in *.
  assert (Hq : (0 <= q < 2 ^ 25)%Z) by (change (2 ^ 25)%Z with (2 * 2 ^ 24)%Z; lia).
  pose proof (shr_fexp_small q e1 loc_Exact ltac:(lia)) as H2.
  pose proof (shr_fexp_exp q e1 loc_Exact 25 Hq ltac:(lia)) as E2.
  destruct (shr_fexp 24 128 q e1 loc_Exact) as [r' e2]. cbn [fst snd] in *.
  destruct (shr_m r') as [|m''|]; [done| |lia].
  destruct (Z.leb_spec e2 (128 - 24)); [split; [exact Hs|lia]|lia].
Qed.

(** What is bounded by 1 has no more than 2{^-23} for a unit. *)
Lemma bounded_exp lo hi x :
  (exists m e, lo = S754_finite true m e /\ (e <= -23)%Z) \/ lo = s_zero ->
  (exists m e, hi = S754_finite false m e /\ (e <= -23)%Z) ->
  bounded lo hi x ->
  match x with
  | S754_finite _ m e => (Zpos m < 2 ^ 24 /\ e <= -23)%Z
  | S754_infinity _ => False
  | _ => True
  end.
Proof.
  intros Hlo (mh & eh & -> & Hh) [[H1 H2] Hs]. destruct x as [[]|[]| |[] m e]; try done.
  - by destruct Hlo as [(ml & el & -> & _)| ->].
  - split; [exact Hs|]. destruct Hlo as [(ml & el & -> & Hl)| ->]; [|done].
    unfold SFltb, SFcompare in H1. destruct (Z.compare_spec e el); [lia|lia|done].
  - split; [exact Hs|]. unfold SFltb, SFcompare in H2. destruct (Z.compare_spec eh e); [lia|done|lia].
Qed.

Lemma quant_fits x sc e' :
  match x with
  | S754_finite _ m e => (Zpos m < 2 ^ 24 /\ e <= -23)%Z
  | S754_infinity _ => False
  | _ => True
  end ->
  sc = S754_finite false 8388608 e' -> (e' <= -14)%Z -> i16_ok (quant x sc).
Proof.
  intros Hx -> He. unfold quant. destruct x as [s|s| |s m e]; try done.
  destruct Hx as [Hm Hle]. pose proof (s_mul_exp s m e false 8388608 e' Hm ltac:(lia)) as Hp.
  destruct (s_mul _ _) as [s''|s''| |s'' m'' e'']; try done; [lia|]. destruct Hp as [Hm'' He''].
  unfold round_i32, f_round_Z. rewrite (proj2 (Z.leb_gt 0 e'')) by lia.
  set (a := ((2 * Z.pos m'' + 2 ^ (- e'')) / 2 ^ (- e'' + 1))%Z).
  assert (Ha : (0 <= a <= 2 ^ 12)%Z).
  { assert (Hpow : (2 ^ 13 <= 2 ^ (- e''))%Z) by (apply Z.pow_le_mono_r; lia).
    assert (E2 : (2 ^ (- e'' + 1) = 2 * 2 ^ (- e''))%Z) by (rewrite Z.pow_add_r by lia; lia).
    unfold a. rewrite E2. split; [apply Z.div_pos; lia|]. apply Z.div_le_upper_bound; [lia|].
    change (2 ^ 24)%Z with (2 ^ 11 * 2 ^ 13)%Z in Hm''. lia. }
  assert (Hz : (- 2 ^ 12 <= (if s'' then - a else a) <= 2 ^ 12)%Z) by (destruct s''; lia).
  unfold i16_ok, clampZ. destruct (Z.ltb_spec (if s'' then - a else a)%Z (- 2 ^ 31)); [lia|].
  destruct (Z.ltb_spec (2 ^ 31 - 1) (if s'' then - a else a)%Z); lia.
Qed.

Lemma s_one_eq : s_one = S754_finite false 8388608 (-23).
Proof. by vm_compute. Qed.

Lemma s_minus_one_eq : s_of_Z (-1) = S754_finite true 8388608 (-23).
Proof. by vm_compute. Qed.

(** The scales of the quantiser, and the ranges of the extractor. *)
Definition scales : list f32 := [SCALE_KP_XY; SCALE_KP_Z; SCALE_POSE_ANGLE; SCALE_POSE_TRANS; SCALE_EXPR].
Definition ranges : list (f32 * f32) := [(s_zero, s_one); (SFopp FRAC_PI_4, FRAC_PI_4); (s_of_Z (-1), s_one)].

Lemma bounded_fits lo hi x sc : (lo, hi) ∈ ranges -> sc ∈ scales -> bounded lo hi x -> i16_ok (quant x sc).
Proof.
  intros Hr Hsc Hx.
  assert (Hs : exists e', sc = S754_finite false 8388608 e' /\ (e' <= -14)%Z).
  { unfold scales in Hsc. rewrite !elem_of_cons in Hsc.
    destruct Hsc as [->|[->|[->|[->|[->|[]%elem_of_nil]]]]]; eexists; (split; [vm_compute; reflexivity|lia]). }
  destruct Hs as (e' & Es & He'). refine (quant_fits x sc e' _ Es He').
  unfold ranges in Hr. rewrite !elem_of_cons in Hr.
  destruct Hr as [[= -> ->]|[[= -> ->]|[[= -> ->]|[]%elem_of_nil]]].
  - apply (bounded_exp s_zero s_one); [by right| |done]. rewrite s_one_eq. by do 2 eexists.
  - apply (bounded_exp (SFopp FRAC_PI_4) FRAC_PI_4); [left| |done]; do 2 eexists; (split; [reflexivity|lia]).
  - apply (bounded_exp (s_of_Z (-1)) s_one); [left| |done]; rewrite ?s_one_eq, ?s_minus_one_eq; by do 2 eexists.
Qed.

(** Latents as the extractor gives them. *)
Record extracted (dim : nat) (l : MotionLatents) : Prop := {
  ex_count : length (keypoints l) = KEYPOINT_COUNT;
  ex_points : Forall (fun kp => bounded s_zero s_one (pt_x kp) /\ bounded s_zero s_one (pt_y kp) /\
                       i16_ok (quant (pt_z kp) SCALE_KP_Z) /\ within s_zero s_one (confidence kp)) (keypoints l);
  ex_angles : Forall (bounded (SFopp FRAC_PI_4) FRAC_PI_4) [yaw (pose l); pitch (pose l); roll (pose l)];
  ex_shift : Forall (bounded (s_of_Z (-1)) s_one) [tx (pose l); ty (pose l); tz (pose l)];
  ex_dim : length (values (expression l)) = dim;
  ex_values : Forall (bounded (s_of_Z (-1)) s_one) (values (expression l)) }.

Lemma fill_fits n vs i : Forall i16_ok vs -> i16_ok (fill n vs !!! i).
Proof.
  intros Hv. rewrite list_lookup_total_alt. destruct (fill n vs !! i) as [v|] eqn:E; [|done].
  apply (Forall_lookup_1 i16_ok (fill n vs) i); [|done]. unfold fill. apply Forall_app. split; [by apply Forall_take|].
  apply Forall_forall. intros x Hx. apply list_elem_of_In, repeat_spec in Hx. by subst.
Qed.

Ltac in_list := unfold ranges, scales; rewrite !elem_of_cons; tauto.

Lemma extracted_carried dim l : extracted dim l -> carried (quantise l).
Proof.
  intros [_ Hp Ha Hs _ Hv]. assert (Hin : forall lo hi x sc, bounded lo hi x -> (lo, hi) ∈ ranges -> sc ∈ scales -> i16_ok (quant x sc))
    by (intros lo hi x sc H1 H2 H3; exact (bounded_fits lo hi x sc H2 H3 H1)).
  assert (Hz : forall f : Keypoint3D -> Z, (forall kp, kp ∈ keypoints l -> i16_ok (f kp)) -> Forall i16_ok (map f (keypoints l))).
  { intros f Hf. apply Forall_forall. intros z Hz. apply list_elem_of_In, in_map_iff in Hz as (kp & <- & Hk).
    apply Hf. by apply list_elem_of_In. }
  rewrite Forall_forall in Hp. rewrite !Forall_cons in Ha, Hs. destruct_and! Ha. destruct_and! Hs.
  unfold carried, quantise. cbn [kp_x kp_y kp_z q_yaw q_pitch q_roll q_tx q_ty q_tz expr].
  assert (R0 : (s_zero, s_one) ∈ ranges) by in_list. assert (R1 : (SFopp FRAC_PI_4, FRAC_PI_4) ∈ ranges) by in_list.
  assert (R2 : (s_of_Z (-1), s_one) ∈ ranges) by in_list.
  split; [|split].
  - intros i _. repeat match goal with |- _ /\ _ => split end; apply fill_fits, Hz; intros kp Hk; destruct (Hp kp Hk) as (Hx & Hy & Hzz & _);
      [apply (Hin _ _ _ _ Hx R0); in_list|apply (Hin _ _ _ _ Hy R0); in_list|exact Hzz].
  - repeat match goal with |- _ /\ _ => split end; (eapply Hin; [eassumption|eassumption|in_list]).
  - intros i _. apply fill_fits. apply Forall_forall. intros z Hzz.
    apply list_elem_of_In, in_map_iff in Hzz as (v & <- & Hk). rewrite Forall_forall in Hv.
    assert (Hvv : v ∈ values (expression l)) by (by apply list_elem_of_In). apply (Hin _ _ _ _ (Hv v Hvv) R2). in_list.
Qed.

(** *** The extractor succeeds *)
Section extraction.
Context (luma : list f32) (w h : N).
Hypothesis (Hw : 1 <= w <= 4096) (Hh : 1 <= h <= 4096) (Hl : length luma = N.to_nat (w * h)).

Lemma area_small : w * h <= 4096 * 4096.
Proof. apply N.mul_le_mono; lia. Qed.

Lemma luma_pixel_total c : c ∈ raster w h -> is_Some (luma_pixel luma w c).
Proof.
  intros [Hr Hc]%elem_of_raster. pose proof area_small. unfold luma_pixel.
  assert (fst c * w + snd c < w * h) by nia.
  rewrite (wrap_small 32 (fst c * w)), wrap_small by lia. apply lookup_lt_is_Some. lia.
Qed.

Lemma centroid_total : exists cx cy, luminance_centroid luma w h = Some (cx, cy) /\ small cx /\ small cy.
Proof.
  unfold luminance_centroid.
  destruct (each_total (centroid_step luma w h) (s_zero, s_zero, s_zero) (raster w h)) as [[[sw sx] sy] E].
  { intros [[sw sx] sy] c Hc. unfold centroid_step. destruct (luma_pixel_total c Hc) as [l ->]. by eexists. }
  rewrite E. cbn [mbind option_bind]. destruct (sw <? s_one)%f32; do 2 eexists; (split; [reflexivity|]); [done|].
  split; apply s_div_small.
Qed.

Lemma pose_total cx cy :
  exists p, estimate_pose luma w h cx cy = Some p /\
    Forall (bounded (SFopp FRAC_PI_4) FRAC_PI_4) [yaw p; pitch p; roll p] /\
    Forall (bounded (s_of_Z (-1)) s_one) [tx p; ty p; tz p].
Proof.
  unfold estimate_pose.
  destruct (each_inv (moments_step luma w h cx cy)
    (fun s => small (fst (fst (fst s))) /\ small (snd (fst (fst s))) /\ small (snd (fst s)))
    (s_zero, s_zero, s_zero, s_zero) (raster w h)) as ([[[m20 m02] m11] total] & E & H1 & H2 & H3); [done| |].
  { intros [[[m20 m02] m11] total] c Hc (H1 & H2 & H3). unfold moments_step.
    destruct (luma_pixel_total c Hc) as [l ->]. eexists. split; [reflexivity|].
    repeat split; apply s_add_small; try done; apply s_mul_small. }
  rewrite E. cbn [mbind option_bind]. cbn [fst snd] in H1, H2, H3.
  set (n := if (total >? s_one)%f32 then _ else _).
  assert (Hn : small (fst (fst n)) /\ small (snd (fst n)) /\ small (snd n)).
  { unfold n. destruct (total >? s_one)%f32; [|done]. repeat split; apply s_div_small. }
  destruct n as [[a b] c]. cbn [fst snd] in Hn. destruct Hn as (Ha & Hb & Hc). eexists. split; [reflexivity|].
  cbn [yaw pitch roll tx ty tz]. unfold quarter. rewrite !Forall_cons.
  split; [split; [|split; [|split; [|done]]]|split; [|split; [|split; [|done]]]]; try (bounded_const;
    first [done | apply s_sub_small; done | apply s_mul_small]).
  split; [split; vm_compute; reflexivity|done].
Qed.

Lemma clamp_index x n : (1 <= n <= 4096)%Z -> exists q, clamp_i32 x 0 (i32 (n - 1)) = Some q /\ (0 <= q < n)%Z.
Proof.
  intros Hn. rewrite i32_small by lia. unfold clamp_i32. rewrite (proj2 (Z.leb_le 0 (n - 1))) by lia.
  eexists. split; [reflexivity|]. unfold clampZ.
  destruct (Z.ltb_spec x 0); [lia|]. destruct (Z.ltb_spec (n - 1) x); lia.
Qed.

Lemma confidence_total nx ny radius :
  exists c, local_variance_confidence luma w h nx ny radius = Some c /\ within s_zero s_one c.
Proof.
  pose proof area_small. unfold local_variance_confidence. rewrite (i32_small (Z.of_N w)), (i32_small (Z.of_N h)) by lia.
  destruct (each_total (variance_step luma (Z.of_N w) (Z.of_N h) (s_to_i32 (nx * s_of_N w)%f32) (s_to_i32 (ny * s_of_N h)%f32))
    (s_zero, s_zero, 0) (list_prod (window radius) (window radius))) as [[[sum sq] count] E].
  { intros [[sum sq] count] d _. unfold variance_step.
    destruct (clamp_index (i32 (s_to_i32 (nx * s_of_N w)%f32 + snd d)) (Z.of_N w)) as (qx & -> & Hqx); [lia|].
    destruct (clamp_index (i32 (s_to_i32 (ny * s_of_N h)%f32 + fst d)) (Z.of_N h)) as (qy & -> & Hqy); [lia|].
    cbn [mbind option_bind].
    assert (0 <= qy * Z.of_N w <= (Z.of_N h - 1) * Z.of_N w)%Z by nia.
    assert (Z.of_N h * Z.of_N w <= 4096 * 4096)%Z by nia.
    rewrite (i32_small (qy * Z.of_N w)), i32_small by lia.
    rewrite (proj2 (Z.ltb_ge _ 0)) by lia.
    destruct (lookup_lt_is_Some_2 luma (Z.to_nat (qy * Z.of_N w + qx))) as [l ->]; [lia|]. by eexists. }
  rewrite E. cbn [mbind option_bind]. eexists. split; [reflexivity|].
  destruct (count =? 0); [split; vm_compute; reflexivity|]. unfold confidence_of. within_const.
Qed.

Lemma grid_depths g :
  g ∈ CANONICAL_GRID ->
  let '(gx, gy) := g in
  i16_ok (quant (s_sqrt ((gx - s_half) * (gx - s_half) + (gy - s_half) * (gy - s_half)) * s_lit 3 10)%f32 SCALE_KP_Z).
Proof.
  assert (H : forallb (fun g => let '(gx, gy) := g in
    let q := quant (s_sqrt ((gx - s_half) * (gx - s_half) + (gy - s_half) * (gy - s_half)) * s_lit 3 10)%f32 SCALE_KP_Z in
    (- 2 ^ 15 <=? q) && (q <? 2 ^ 15))%Z CANONICAL_GRID = true) by (vm_compute; reflexivity).
  rewrite forallb_forall in H. intros Hg. specialize (H g ltac:(by apply list_elem_of_In)).
  destruct g as [gx gy]. cbn zeta in H. rewrite andb_true_iff, Z.leb_le, Z.ltb_lt in H. exact H.
Qed.

Lemma keypoints_total cx cy :
  small cx -> small cy ->
  exists kps, extract_keypoints luma w h cx cy = Some (kps, map confidence kps) /\ length kps = KEYPOINT_COUNT /\
    Forall (fun kp => bounded s_zero s_one (pt_x kp) /\ bounded s_zero s_one (pt_y kp) /\
              i16_ok (quant (pt_z kp) SCALE_KP_Z) /\ within s_zero s_one (confidence kp)) kps.
Proof.
  intros Hcx Hcy.
  assert (Ht : forall g, g ∈ CANONICAL_GRID -> exists kp, extract_keypoint luma w h cx cy g = Some kp /\
    bounded s_zero s_one (pt_x kp) /\ bounded s_zero s_one (pt_y kp) /\
    i16_ok (quant (pt_z kp) SCALE_KP_Z) /\ within s_zero s_one (confidence kp)).
  { intros g Hg. pose proof (grid_depths g Hg) as Hz. destruct g as [gx gy]. unfold extract_keypoint.
    destruct (confidence_total (s_clamp (cx + (gx - s_half) * s_lit 42 100)%f32 s_zero s_one)
      (s_clamp (cy + (gy - s_half) * s_lit 42 100)%f32 s_zero s_one) 5) as (c & -> & Hc).
    cbn [mbind option_bind]. eexists. split; [reflexivity|]. cbn [pt_x pt_y pt_z confidence].
    split; [bounded_const; apply s_add_small; [done|apply s_mul_small]|].
    split; [bounded_const; apply s_add_small; [done|apply s_mul_small]|]. by split. }
  unfold extract_keypoints.
  destruct (mapM_all (extract_keypoint luma w h cx cy) CANONICAL_GRID) as [kps E].
  { intros g Hg. destruct (Ht g Hg) as (kp & -> & _). by eexists. }
  rewrite E. exists kps. split; [done|]. apply mapM_Some in E. split; [by apply Forall2_length in E|].
  apply Forall_forall. intros kp Hkp. apply list_elem_of_lookup in Hkp as [i Hi].
  destruct (Forall2_lookup_r _ _ _ _ _ E Hi) as (g & Hg & Eg).
  destruct (Ht g) as (kp' & E' & H); [by apply list_elem_of_lookup_2 in Hg|]. congruence.
Qed.
End extraction.

Lemma luma_total f :
  sane f -> exists luma, compute_luma f = Some luma /\ length luma = N.to_nat (Reference.width f * Reference.height f).
Proof.
  intros Hs. destruct (sane_size f Hs) as (Hw & Hh & Hl).
  assert (Reference.width f * Reference.height f <= 4096 * 4096) by (apply N.mul_le_mono; lia).
  unfold compute_luma. rewrite wrap_small by lia.
  destruct (mapM_all (luma_at (Reference.pixels f)) (seq 0 (N.to_nat (Reference.width f * Reference.height f)))) as [luma E].
  { intros i Hi. apply list_elem_of_In, in_seq in Hi. unfold luma_at, lenN in *.
    destruct (lookup_lt_is_Some_2 (Reference.pixels f) (i * 3)) as [r ->]; [lia|].
    destruct (lookup_lt_is_Some_2 (Reference.pixels f) (i * 3 + 1)) as [g ->]; [lia|].
    destruct (lookup_lt_is_Some_2 (Reference.pixels f) (i * 3 + 2)) as [b ->]; [lia|]. by eexists. }
  exists luma. split; [done|]. apply mapM_Some, Forall2_length in E. by rewrite length_seq in E.
Qed.

Lemma strip_total luma w h sh m i :
  length luma = (w * h)%nat ->
  exists v, strip_value luma w h sh m i = Some v /\ bounded (s_of_Z (-1)) s_one v.
Proof.
  intros Hl. unfold strip_value. set (y0 := Nat.min (i * sh) (h - 1)). set (y1 := Nat.min ((i + 1) * sh) h).
  assert (Hy : (y1 <= h)%nat) by (unfold y1; lia).
  destruct (Nat.leb_spec y1 y0); [eexists; split; [reflexivity|]; split; [split; vm_compute; reflexivity|done]|].
  unfold slice. rewrite decide_True by (rewrite Hl; nia). cbn [mbind option_bind].
  eexists. split; [reflexivity|]. bounded_const. apply s_div_small.
Qed.

Lemma expression_total luma w h dim :
  length luma = N.to_nat (w * h) ->
  exists e, derive_expression luma w h dim = Some e /\ length (values e) = dim /\
    Forall (bounded (s_of_Z (-1)) s_one) (values e).
Proof.
  intros Hl.
  assert (Hzero : exists e, Some (mkExpression (replicate dim s_zero)) = Some e /\ length (values e) = dim /\
    Forall (bounded (s_of_Z (-1)) s_one) (values e)).
  { eexists. split; [reflexivity|]. cbn [values]. split; [apply length_replicate|].
    apply Forall_replicate. split; [split; vm_compute; reflexivity|done]. }
  unfold derive_expression. destruct luma as [|l luma]; [exact Hzero|]. destruct dim as [|dim]; [exact Hzero|].
  set (sh := Nat.max _ _). set (m := mean_of _).
  assert (Hst : forall i, exists v, strip_value (l :: luma) (N.to_nat w) (N.to_nat h) sh m i = Some v /\ bounded (s_of_Z (-1)) s_one v).
  { intros i. apply strip_total. rewrite Hl. lia. }
  destruct (mapM_all (strip_value (l :: luma) (N.to_nat w) (N.to_nat h) sh m) (seq 0 (S dim))) as [vs E].
  { intros i _. destruct (Hst i) as (v & -> & _). by eexists. }
  rewrite E. eexists. split; [reflexivity|]. cbn [values]. apply mapM_Some in E.
  split; [apply Forall2_length in E; by rewrite length_seq in E|].
  apply Forall_forall. intros v Hv. apply list_elem_of_lookup in Hv as [k Hk].
  destruct (Forall2_lookup_r _ _ _ _ _ E Hk) as (i & _ & Ei). destruct (Hst i) as (v' & E' & Hb). congruence.
Qed.

(** A frame of at most 4096 pixels a side gives 20 keypoints within the frame,
    their confidences, angles within a quarter turn and as many expression
    coefficients as asked for. *)
Lemma extract_total c f :
  sane f ->
  exists r, extract c f = Some (Ok r) /\ extracted (expression_dim c) (motion_latents r) /\
    confidences r = map confidence (keypoints (motion_latents r)).
Proof.
  intros Hs. destruct (sane_size f Hs) as (Hw & Hh & _). destruct (luma_total f Hs) as (luma & El & Hl).
  unfold extract. rewrite (proj1 Hs). cbn [negb]. rewrite El. cbn [mbind option_bind].
  destruct (centroid_total luma _ _ Hw Hh Hl) as (cx & cy & -> & Hcx & Hcy). cbn [mbind option_bind].
  destruct (pose_total luma _ _ Hw Hh Hl cx cy) as (p & -> & Ha & Ht). cbn [mbind option_bind].
  destruct (keypoints_total luma _ _ Hw Hh Hl cx cy Hcx Hcy) as (kps & -> & Hk & Hp). cbn [mbind option_bind].
  destruct (expression_total luma (Reference.width f) (Reference.height f) (expression_dim c) Hl) as (e & -> & He & Hv).
  eexists. split; [reflexivity|]. split; [|done]. by constructor.
Qed.

(** ** Properties *)
Section properties.
Context (sinf cosf : f32 -> f32).

(** The sender's side: what is sent for a run of camera frames. *)
Definition extracts (c : KeypointExtractorConfig) (fs : list Reference.Frame) : option (list MotionLatents) :=
  mapM (fun f => match extract c f with Some (Ok r) => Some (motion_latents r) | _ => None end) fs.

(** C11: Gear A end to end.  Camera frames of at most 4096 pixels a side are extracted
    and encoded without a failure; received in order, every payload decodes to the
    quantised latents of its frame; and with a reference held the receiver draws
    each of them, a picture of the resolution's size. *)
Theorem gear_a_draws_every_frame (c : KeypointExtractorConfig) (fs : list Reference.Frame)
    (n : SynthesisNetwork) (ref : Reference.Frame) (d : MotionDecoder) :
  Forall sane fs -> sane ref -> expected (config n) = KEYPOINT_COUNT ->
  exists ls, extracts c fs = Some ls /\ length ls = length fs /\
    decode_all d (encode_all encoder_new (map Latents ls)) = map (fun l => Ok (dequantise (quantise l))) ls /\
    exists n', load_reference_frame n ref = (n', Ok tt) /\
      Forall (fun l => exists r, reconstruct sinf cosf n' (dequantise (quantise l)) = Some (Ok r) /\
                lenN (out r) = buffer_bytes (resolution (config n))) ls.
Proof.
  intros Hfs Href Hexp.
  assert (Hx : exists ls, extracts c fs = Some ls /\ length ls = length fs /\ Forall (extracted (expression_dim c)) ls).
  { induction Hfs as [|f fs Hf _ (ls & E & Hlen & Hls)]; [by exists []|].
    destruct (extract_total c f Hf) as (r & Er & Hr & _). exists (motion_latents r :: ls).
    split; [|split; [cbn; by rewrite Hlen|by constructor]].
    unfold extracts in *. change (mapM ?g (f :: fs)) with (y ← g f; ys ← mapM g fs; mret (y :: ys)).
    cbn beta. rewrite Er. cbn [mbind option_bind]. by rewrite E. }
  destruct Hx as (ls & E & Hlen & Hls). exists ls. split; [done|]. split; [done|].
  assert (Hof : latents_of (map Latents ls) = ls) by (clear; induction ls as [|l ls IH]; [done|exact (f_equal (cons l) IH)]).
  split.
  - assert (Hc : Forall (fun l => carried (quantise l)) (latents_of (map Latents ls))).
    { rewrite Hof. eapply Forall_impl; [exact Hls|]. intros l. apply extracted_carried. }
    rewrite (stream_arrives (map Latents ls) None) by (done || by apply carried_reach).
    rewrite carried_arrives by done. rewrite Hof. by rewrite map_map.
  - unfold load_reference_frame. rewrite (proj1 Href). cbn [negb]. eexists. split; [reflexivity|].
    apply Forall_forall. intros l _.
    destruct (drawn sinf cosf (mkNetwork (config n) (Some ref)) ref (dequantise (quantise l)) eq_refl Href)
      as (rgbs & _ & _ & Er & Hb); [exact (eq_sym Hexp)|].
    eexists. split; [exact Er|]. exact Hb.
Qed.

End properties.

(** *** A head that does not move *)
Definition same (x y : f32) : bool :=
  match x, y with
  | S754_finite s m e, S754_finite s' m' e' => Bool.eqb s s' && (m =? m')%positive && (e =? e')%Z
  | _, _ => false
  end.

Lemma same_eq x y : same x y = true -> x = y.
Proof.
  destruct x as [| | |s m e], y as [| | |s' m' e']; try done. cbn.
  rewrite !andb_true_iff, Bool.eqb_true_iff, Pos.eqb_eq, Z.eqb_eq. by intros [[-> ->] ->].
Qed.

Definition is_finite_nonzero (x : f32) : bool := match x with S754_finite _ _ _ => true | _ => false end.

(** What the check of one row or column of 256 needs: its normalised coordinate,
    times one and over one, is finite, and is half a pixel past its number. *)
Definition axis (i : N) : f32 := (centre i 256 * s_of_Z 2 - s_one)%f32.
Definition axis_y (i : N) : f32 := (s_one * axis i / s_max (SFabs s_one) (s_lit 1 10))%f32.
Definition axis_ok (i : N) : bool :=
  is_finite_nonzero (axis i) && is_finite_nonzero (s_one * axis i)%f32 && is_finite_nonzero (axis_y i) &&
  same ((s_one * axis i * s_half + s_half) * s_of_N 256)%f32 (s_of_N i + s_half)%f32 &&
  same ((axis_y i * s_half + s_half) * s_of_N 256)%f32 (s_of_N i + s_half)%f32.

Lemma axes i : i < 256 -> axis_ok i = true.
Proof.
  intros Hi. assert (H : forallb axis_ok (upto 256) = true) by (vm_compute; reflexivity).
  rewrite forallb_forall in H. apply H. by apply list_elem_of_In, elem_of_upto.
Qed.

Lemma finite_form x : is_finite_nonzero x = true -> exists s m e, x = S754_finite s m e.
Proof. destruct x as [| | |s m e]; try done. by exists s, m, e. Qed.

(** The same pose as the reference's gives every pixel from half a pixel to the
    right of it and below, where the reference's pixels are blurred together. *)
Theorem still_head_shifts_half_a_pixel (sinf cosf : f32 -> f32) (row col : N) :
  sinf s_zero = s_zero -> cosf s_zero = s_one -> row < 256 -> col < 256 ->
  warp sinf cosf (mkPose s_zero s_zero s_zero s_zero s_zero s_zero) (s_of_N 256) (s_of_N 256) 256 (row, col) =
    (s_of_N col + s_half, s_of_N row + s_half)%f32.
Proof.
  intros Hsin Hcos Hr Hc. unfold warp. cbn [yaw pitch roll tx ty fst snd]. rewrite Hsin, Hcos.
  fold (axis row) (axis col). pose proof (axes row Hr) as Hrow. pose proof (axes col Hc) as Hcol.
  unfold axis_ok in Hrow, Hcol. rewrite !andb_true_iff in Hrow, Hcol.
  destruct Hrow as [[[[R1 R2] R3] _] R5], Hcol as [[[[C1 C2] _] C4] _].
  apply same_eq in R5, C4. apply finite_form in R1 as (s1 & m1 & e1 & R1), R2 as (s2 & m2 & e2 & R2),
    R3 as (s3 & m3 & e3 & R3), C1 as (s4 & m4 & e4 & C1), C2 as (s5 & m5 & e5 & C2).
  rewrite <- R5, <- C4. clear R5 C4. unfold axis_y in *.
  assert (Eu : (axis col - s_zero)%f32 = axis col) by (by rewrite C1).
  assert (Ev : (axis row - s_zero)%f32 = axis row) by (by rewrite R1).
  rewrite Eu, Ev.
  assert (Eur : (s_one * axis col + s_zero * axis row)%f32 = (s_one * axis col)%f32) by (by rewrite C2, R1).
  assert (Evr : (SFopp s_zero * axis col + s_one * axis row)%f32 = (s_one * axis row)%f32) by (by rewrite R2, C1).
  rewrite Eur, Evr.
  assert (Esu : (s_one * axis col - s_one * axis row * s_zero * s_one)%f32 = (s_one * axis col)%f32) by (by rewrite C2, R2).
  rewrite Esu.
  assert (Esv : (s_one * axis row / s_max (SFabs s_one) (s_lit 1 10) + s_one * axis col * s_zero)%f32 =
    (s_one * axis row / s_max (SFabs s_one) (s_lit 1 10))%f32) by (by rewrite R3, C2).
  by rewrite Esv.
Qed.

Definition still_sin (x : f32) : f32 := x.
Definition still_cos (x : f32) : f32 := s_one.

Lemma still_head_shifts_half_a_pixel_witness :
  warp still_sin still_cos (mkPose s_zero s_zero s_zero s_zero s_zero s_zero) (s_of_N 256) (s_of_N 256) 256 (7, 200) =
    (s_of_N 200 + s_half, s_of_N 7 + s_half)%f32.
Proof. by apply still_head_shifts_half_a_pixel. Defined.

Definition flat (b : byte) : Reference.Frame := Reference.mkFrame (repeat b 12) 2 2.

Lemma flat_sane b : sane (flat b).
Proof. by repeat split. Qed.

Lemma gear_a_draws_every_frame_witness :
  exists ls, extracts config_default [flat Byte.x10; flat Byte.xf0] = Some ls /\ length ls = 2%nat /\
    decode_all decoder_new (encode_all encoder_new (map Latents ls)) = map (fun l => Ok (dequantise (quantise l))) ls /\
    exists n', load_reference_frame (network_new synthesis_default) (flat Byte.x80) = (n', Ok tt) /\
      Forall (fun l => exists r, reconstruct still_sin still_cos n' (dequantise (quantise l)) = Some (Ok r) /\
                lenN (out r) = buffer_bytes Px256) ls.
Proof.
  refine (gear_a_draws_every_frame still_sin still_cos config_default [flat Byte.x10; flat Byte.xf0]
            (network_new synthesis_default) (flat Byte.x80) decoder_new _ (flat_sane _) eq_refl).
  repeat constructor; vm_compute; discriminate.
Defined.

(** What cannot be extracted: a frame whose buffer does not fit its size is
    refused; one whose size overflows passes for valid, and panics. *)
Theorem overflowing_frame_panics (c : KeypointExtractorConfig) :
  let f := Reference.mkFrame [] 65536 65536 in
  Reference.is_valid f = true /\ extract c f = None.
Proof.
  intros f. split; [by vm_compute|]. unfold extract. change (Reference.is_valid f) with true. cbn [negb].
  change (compute_luma f) with (Some (@nil f32)). cbn [mbind option_bind Reference.width Reference.height f].
  unfold luminance_centroid.
  assert (Hin : (0, 0) ∈ raster 65536 65536) by (apply elem_of_raster; cbn; lia).
  destruct (raster 65536 65536) as [|p cs]; [by apply not_elem_of_nil in Hin|].
  assert (E : each (centroid_step [] 65536 65536) (s_zero, s_zero, s_zero) (p :: cs) = None) by done.
  by rewrite E.
Qed.

Lemma take_slice {A} (l1 l2 : list A) n a b :
  take n l1 = take n l2 -> (b <= n)%nat -> take (b - a) (drop a l1) = take (b - a) (drop a l2).
Proof.
  intros E Hb. destruct (decide (a <= b)%nat) as [Ha|Ha].
  - rewrite !take_drop_commute. replace (a + (b - a))%nat with b by lia.
    replace b with (Nat.min b n) by lia. rewrite <- !take_take, E. done.
  - by replace (b - a)%nat with 0%nat by lia.
Qed.

(** The strips of the expression do not cover the frame: when the coefficients do
    not divide the height, the rows past the last whole strip are in none, and
    reach the coefficients through the overall mean only. *)
Theorem expression_skips_the_last_rows (luma1 luma2 : list f32) (w h : N) (dim : nat) :
  (1 <= dim <= N.to_nat h)%nat -> luma1 <> [] ->
  length luma1 = length luma2 -> mean_of luma1 = mean_of luma2 ->
  take (dim * (N.to_nat h / dim) * N.to_nat w) luma1 = take (dim * (N.to_nat h / dim) * N.to_nat w) luma2 ->
  derive_expression luma1 w h dim = derive_expression luma2 w h dim.
Proof.
  intros Hd Hne Hl Hm Ht. unfold derive_expression.
  destruct luma1 as [|x luma1]; [done|]. destruct luma2 as [|y luma2]; [done|]. destruct dim as [|dim]; [done|].
  rewrite Hm. set (l1 := x :: luma1) in *. set (l2 := y :: luma2) in *. set (hh := N.to_nat h) in *.
  assert (Hq : (1 <= hh / S dim)%nat) by (apply Nat.div_le_lower_bound; lia).
  replace (Nat.max (Nat.max hh 1 / S dim) 1) with (hh / S dim)%nat by (rewrite (Nat.max_l hh 1) by lia; lia).
  set (sh := (hh / S dim)%nat) in *. assert (Hsh : (S dim * sh <= hh)%nat) by apply Nat.Div0.mul_div_le.
  assert (E : mapM (strip_value l1 (N.to_nat w) hh sh (mean_of l2)) (seq 0 (S dim)) =
              mapM (strip_value l2 (N.to_nat w) hh sh (mean_of l2)) (seq 0 (S dim))).
  { apply mapM_same. intros i Hi. apply list_elem_of_In, in_seq in Hi. unfold strip_value, slice. rewrite Hl.
    case_match; [done|]. case_decide; [|done]. cbn [mbind option_bind].
    erewrite (take_slice l1 l2); [done|exact Ht|]. apply Nat.mul_le_mono_r. nia. }
  by rewrite E.
Qed.

Lemma expression_skips_the_last_rows_witness :
  let row := [s_of_Z 1; s_of_Z 1] in
  derive_expression (row ++ row ++ [s_of_Z 2; s_of_Z 3]) 2 3 2 = derive_expression (row ++ row ++ [s_of_Z 3; s_of_Z 2]) 2 3 2.
Proof. cbn zeta. apply expression_skips_the_last_rows; [vm_compute; lia|done|done|by vm_compute|done]. Defined.
