(* ===== verification/Probes.v ===== *)
(** The picture quality probes: [ocr_probe.rs] and [vmaf_sample.rs] of
    [core/obs/src].

    Both score a frame by the variance of the Laplacian of its luma, sampled on
    every fourth row and column; they differ in the pixel format, in the gate on
    the size, and in the scale.  Sizes and offsets ([usize]) are [nat]s; sums are
    [Z]s, with bounds that keep them within the source's integers. *)
From S2P Require Import Prelude F64 ScreenCapture Head.
#[local] Open Scope Z_scope.

Definition OCR_MIN_CHAR_HEIGHT_PX : N := 8.
Definition LINES_PER_SCREEN : N := 25.
Definition SAMPLE_STEP : nat := 4.
Definition REF_LAP_VARIANCE : f32 := s_of_Z 1000.
Definition VMAF_GATE : f32 := s_of_Z 70.
Definition VMAF_CLEAN_CHANNEL_BASELINE : f32 := s_of_Z 80.
Definition REF_CAM_LAP_VARIANCE : f32 := s_of_Z 7500.

Record OcrScore := mkOcr { ocr_score : f32 }.
Record VmafSample := mkVmaf { vmaf_score : f32 }.

(** ** The sampled luma *)
Definition z_byte (b : byte) : Z := Z.of_N (Byte.to_N b).

Definition luma_of (r g b : byte) : Z := Z.shiftr (29 * z_byte b + 150 * z_byte g + 77 * z_byte r) 8.

(** The luma of the pixel at [idx], 0 past the end; [kr], [kg] and [kb] are the
    offsets of its channels. *)
Definition luma_at (px : list byte) (kr kg kb idx : nat) : Z :=
  if (idx + 2 <? length px)%nat
  then luma_of (nth (idx + kr) px Byte.x00) (nth (idx + kg) px Byte.x00) (nth (idx + kb) px Byte.x00)
  else 0.

(** [n_rows] times [n_cols] samples, row by row. *)
Definition grid (n_rows n_cols : nat) (at_ : nat -> nat -> Z) : list Z :=
  flat_map (fun row => map (at_ row) (seq 0 n_cols)) (seq 0 n_rows).

(** ** The Laplacian's variance *)
Definition laplacian (luma : list Z) (n_cols row col : nat) : Z :=
  let c := luma !!! (row * n_cols + col)%nat in
  let t := luma !!! ((row - 1) * n_cols + col)%nat in
  let b := luma !!! ((row + 1) * n_cols + col)%nat in
  let l := luma !!! (row * n_cols + col - 1)%nat in
  let r := luma !!! (row * n_cols + col + 1)%nat in
  t + b + l + r - 4 * c.

Record Sums := mkSums { sum_l : Z; sum_l2 : Z; count : Z }.

Definition add_sample (s : Sums) (lap : Z) : Sums := mkSums (sum_l s + lap) (sum_l2 s + lap * lap) (count s + 1).

(** The Laplacians of the interior points, in the order of the loops. *)
Definition interior (luma : list Z) (n_rows n_cols : nat) : list Z :=
  flat_map (fun row => map (laplacian luma n_cols row) (seq 1 (n_cols - 2))) (seq 1 (n_rows - 2)).

Definition sums (luma : list Z) (n_rows n_cols : nat) : Sums :=
  foldl add_sample (mkSums 0 0 0) (interior luma n_rows n_cols).

(** The variance, with the divisions of [i64], which truncate; [None] when
    nothing was counted. *)
Definition variance (s : Sums) : option Z :=
  if count s =? 0 then None
  else
    let mean_l := Z.quot (sum_l s) (count s) in
    Some (Z.max (Z.quot (sum_l2 s) (count s) - mean_l * mean_l) 0).

(** ** The scores *)
Definition ocr_compute_score (f : CaptureFrame) : f32 :=
  let char_height := (frame_height f / LINES_PER_SCREEN)%N in
  if (char_height <? OCR_MIN_CHAR_HEIGHT_PX)%N then s_zero
  else
    let w := N.to_nat (frame_width f) in
    let h := N.to_nat (frame_height f) in
    let stride := N.to_nat (stride f) in
    let n_cols := (w / SAMPLE_STEP)%nat in
    let n_rows := (h / SAMPLE_STEP)%nat in
    if ((n_cols <? 3) || (n_rows <? 3))%nat then s_zero
    else
      let luma := grid n_rows n_cols (fun row col =>
        luma_at (ScreenCapture.pixels f) 2 1 0 (row * SAMPLE_STEP * stride + col * SAMPLE_STEP * 4)) in
      match variance (sums luma n_rows n_cols) with
      | None => s_zero
      | Some v => s_min (s_of_Z v / REF_LAP_VARIANCE)%f32 s_one
      end.

Definition ocr_score_frame (f : CaptureFrame) : OcrScore := mkOcr (ocr_compute_score f).

Definition vmaf_compute_score (f : ReconstructedFrame) : f32 :=
  let size := N.to_nat (Head.pixels (out_resolution f)) in
  let n_cols := (size / SAMPLE_STEP)%nat in
  let n_rows := (size / SAMPLE_STEP)%nat in
  if ((n_cols <? 3) || (n_rows <? 3))%nat then s_zero
  else
    let luma := grid n_rows n_cols (fun row col =>
      luma_at (out f) 0 1 2 ((row * SAMPLE_STEP * size + col * SAMPLE_STEP) * 3)) in
    match variance (sums luma n_rows n_cols) with
    | None => s_zero
    | Some v => s_min (s_of_Z v / REF_CAM_LAP_VARIANCE * s_of_Z 100)%f32 (s_of_Z 100)
    end.

Definition vmaf_score_frame (f : ReconstructedFrame) : VmafSample := mkVmaf (vmaf_compute_score f).

(** ** Lemmas *)
Lemma z_byte_range b : 0 <= z_byte b <= 255.
Proof. unfold z_byte. pose proof (byte_to_N_lt b). lia. Qed.

Lemma luma_range r g b : 0 <= luma_of r g b <= 255.
Proof.
  unfold luma_of. rewrite Z.shiftr_div_pow2 by lia.
  pose proof (z_byte_range r). pose proof (z_byte_range g). pose proof (z_byte_range b).
  split; [apply Z.div_pos; lia|]. apply Z.lt_succ_r, Z.div_lt_upper_bound; lia.
Qed.

Lemma luma_at_range px kr kg kb idx : 0 <= luma_at px kr kg kb idx <= 255.
Proof. unfold luma_at. destruct (_ <? _)%nat; [apply luma_range|lia]. Qed.

Definition in_luma (z : Z) : Prop := 0 <= z <= 255.

Lemma grid_range n_rows n_cols at_ :
  (forall row col, in_luma (at_ row col)) -> Forall in_luma (grid n_rows n_cols at_).
Proof.
  intros H. apply Forall_forall. intros z Hz. unfold grid in Hz. apply list_elem_of_In, in_flat_map in Hz as (row & _ & Hz).
  apply in_map_iff in Hz as (col & <- & _). apply H.
Qed.

Lemma grid_length n_rows n_cols at_ : length (grid n_rows n_cols at_) = (n_rows * n_cols)%nat.
Proof.
  unfold grid. rewrite length_flat_map. rewrite (map_ext _ (fun _ => n_cols)) by (intros; by rewrite length_map, length_seq).
  generalize 0%nat as k. induction n_rows as [|n IH]; intros k; [done|]. cbn. by rewrite IH.
Qed.

Lemma lookup_luma luma i : Forall in_luma luma -> in_luma (luma !!! i).
Proof.
  intros H. rewrite list_lookup_total_alt. destruct (luma !! i) as [z|] eqn:E; [|cbn; unfold in_luma; lia].
  exact (Forall_lookup_1 _ _ _ _ H E).
Qed.

Lemma laplacian_range luma n row col : Forall in_luma luma -> -1020 <= laplacian luma n row col <= 1020.
Proof.
  intros H. unfold laplacian.
  pose proof (fun i => lookup_luma luma i H) as L. unfold in_luma in L.
  pose proof (L (row * n + col)%nat). pose proof (L ((row - 1) * n + col)%nat). pose proof (L ((row + 1) * n + col)%nat).
  pose proof (L (row * n + col - 1)%nat). pose proof (L (row * n + col + 1)%nat). lia.
Qed.

Lemma interior_range luma n_rows n_cols :
  Forall in_luma luma -> Forall (fun l => -1020 <= l <= 1020) (interior luma n_rows n_cols).
Proof.
  intros H. apply Forall_forall. intros z Hz. apply list_elem_of_In, in_flat_map in Hz as (row & _ & Hz).
  apply in_map_iff in Hz as (col & <- & _). by apply laplacian_range.
Qed.

Definition total (l : list Z) : Z := foldr Z.add 0 l.

Lemma sums_spec l s :
  let s' := foldl add_sample s l in
  sum_l s' = sum_l s + total l /\ sum_l2 s' = sum_l2 s + total (map (fun x => x * x) l) /\
  count s' = count s + Z.of_nat (length l).
Proof.
  revert s. induction l as [|x l IH]; intros s; cbn [foldl map total foldr length]; [lia|].
  destruct (IH (add_sample s x)) as (-> & -> & ->). unfold add_sample, total. cbn [sum_l sum_l2 count]. lia.
Qed.

Lemma total_bounds l : Forall (fun x => -1020 <= x <= 1020) l ->
  Z.abs (total l) <= 1020 * Z.of_nat (length l) /\
  0 <= total (map (fun x => x * x) l) <= 1020 * 1020 * Z.of_nat (length l).
Proof. unfold total. induction 1 as [|x l Hx _ IH]; cbn [map foldr length]; [lia|]. nia. Qed.

(** The square of a sum is at most the number of terms times the sum of squares. *)
Lemma cauchy l : total l * total l <= Z.of_nat (length l) * total (map (fun x => x * x) l).
Proof.
  unfold total. induction l as [|x l IH]; [cbn; lia|]. cbn [map foldr length].
  assert (Hq : 2 * (x * foldr Z.add 0 l) <= Z.of_nat (length l) * (x * x) + foldr Z.add 0 (map (fun x => x * x) l)).
  { clear IH. induction l as [|y l IH]; [cbn; lia|]. cbn [map foldr length].
    rewrite Nat2Z.inj_succ. pose proof (Z.square_nonneg (x - y)). nia. }
  rewrite Nat2Z.inj_succ. nia.
Qed.

(** ** Properties *)

(** The sums of a frame stay within the [i64] they are kept in as long as fewer
    than 2{^43} points are counted, and each Laplacian within its [i32]. *)
Theorem sums_fit (luma : list Z) (n_rows n_cols : nat) :
  Forall in_luma luma -> Z.of_nat (length (interior luma n_rows n_cols)) < 2 ^ 43 ->
  Forall (fun l => -1020 <= l <= 1020) (interior luma n_rows n_cols) /\
  let s := sums luma n_rows n_cols in
  - 2 ^ 63 <= sum_l s < 2 ^ 63 /\ 0 <= sum_l2 s < 2 ^ 63.
Proof.
  intros Hl Hn. pose proof (interior_range luma n_rows n_cols Hl) as Hi. split; [done|].
  destruct (total_bounds _ Hi) as [H1 H2]. destruct (sums_spec (interior luma n_rows n_cols) (mkSums 0 0 0)) as (E1 & E2 & _).
  unfold sums. cbn zeta in *. rewrite E1, E2. cbn [sum_l sum_l2]. lia.
Qed.

(** The truncated mean never exceeds the true one, so the difference the source
    clamps at zero is never negative: the clamp does nothing. *)
Theorem variance_needs_no_clamp (luma : list Z) (n_rows n_cols : nat) :
  let s := sums luma n_rows n_cols in
  count s <> 0 ->
  variance s = Some (Z.quot (sum_l2 s) (count s) - Z.quot (sum_l s) (count s) * Z.quot (sum_l s) (count s)).
Proof.
  intros s Hc. destruct (sums_spec (interior luma n_rows n_cols) (mkSums 0 0 0)) as (E1 & E2 & E3).
  pose proof (cauchy (interior luma n_rows n_cols)) as Hq. fold (sums luma n_rows n_cols) in E1, E2, E3. fold s in E1, E2, E3.
  cbn [sum_l sum_l2 count] in E1, E2, E3. rewrite Z.add_0_l in E1, E2, E3. rewrite <- E1, <- E2, <- E3 in Hq.
  unfold variance. rewrite (proj2 (Z.eqb_neq _ _) Hc). f_equal. apply Z.max_l.
  assert (Hn : 0 < count s) by lia. set (n := count s) in *. set (a := sum_l s) in *. set (q := sum_l2 s) in *.
  assert (Hq0 : 0 <= q) by nia. set (m := Z.quot a n).
  assert (Hm : m * m * n <= q).
  { assert (Z.abs m * n <= Z.abs a).
    { unfold m. pose proof (Z.quot_abs a n ltac:(lia)) as Ha. rewrite (Z.abs_eq n) in Ha by lia. rewrite <- Ha.
      rewrite Z.quot_div_nonneg by lia. rewrite Z.mul_comm. apply Z.mul_div_le. done. }
    assert (H2 : (Z.abs m * n) * (Z.abs m * n) <= Z.abs a * Z.abs a) by (apply Z.mul_le_mono_nonneg; lia).
    rewrite <- Z.abs_mul, (Z.abs_eq (a * a)) in H2 by apply Z.square_nonneg.
    assert (H3 : Z.abs m * Z.abs m = m * m) by (rewrite <- Z.abs_mul; apply Z.abs_eq, Z.square_nonneg).
    apply (Z.mul_le_mono_pos_l _ _ n Hn). nia. }
  rewrite Z.quot_div_nonneg by lia. assert (m * m <= q / n) by (apply Z.div_le_lower_bound; lia). lia.
Qed.

(** *** The score *)

(** Neither negative nor a NaN. *)
Definition non_negative (x : f32) : bool :=
  match x with S754_zero _ | S754_infinity false | S754_finite false _ _ => true | _ => false end.

Lemma binary_round_aux_non_negative m e l : 0 <= m -> non_negative (binary_round_aux 24 128 false m e l) = true.
Proof.
  intros Hm. unfold binary_round_aux. pose proof (shr_fexp_small m e l Hm) as H1.
  destruct (shr_fexp 24 128 m e l) as [r e']. cbn [fst] in H1.
  destruct (round_nearest_even_spec r) as [Hr _]. set (q := round_nearest_even _ _) in *.
  pose proof (shr_fexp_small q e' loc_Exact ltac:(lia)) as H2. destruct (shr_fexp 24 128 q e' _) as [r' e''].
  cbn [fst] in H2. destruct (shr_m r'); [done| |lia]. by destruct (e'' <=? _).
Qed.

Lemma s_of_Z_non_negative z : 0 <= z -> non_negative (s_of_Z z) = true.
Proof.
  intros Hz. destruct z as [|p|p]; [done| |lia]. unfold s_of_Z, binary_normalize, binary_round.
  destruct (shl_align _ _ _) as [mz ez]. by apply binary_round_aux_non_negative.
Qed.

Lemma s_div_non_negative x m e : non_negative x = true -> non_negative (s_div x (S754_finite false m e)) = true.
Proof.
  destruct x as [s|[]| |[] m' e']; try done; intros _. unfold s_div, SFdiv, SFdiv_core_binary.
  set (k := match _ with Z0 => _ | _ => _ end).
  assert (Hk : 0 <= k) by (subst k; case_match; [lia|apply Z.shiftl_nonneg; lia|lia]).
  pose proof (Z.div_pos k (Zpos m) Hk ltac:(lia)) as Hq. unfold Z.div in Hq.
  destruct (Z.div_eucl k (Zpos m)) as [q r]. by apply binary_round_aux_non_negative.
Qed.

Lemma s_mul_non_negative x m e : non_negative x = true -> non_negative (s_mul x (S754_finite false m e)) = true.
Proof. destruct x as [s|[]| |[] m' e']; try done; intros _. by apply binary_round_aux_non_negative. Qed.

Lemma ltb_irrefl m e : SFltb (S754_finite false m e) (S754_finite false m e) = false.
Proof.
  unfold SFltb. cbn [SFcompare]. rewrite Z.compare_refl.
  change (Pos.compare_cont Eq m m) with (m ?= m)%positive. by rewrite Pos.compare_refl.
Qed.

(** The minimum with a positive number is from zero to that number. *)
Lemma s_min_range x m e :
  non_negative x = true ->
  let top := S754_finite false m e in
  non_negative (s_min x top) = true /\ SFltb top (s_min x top) = false.
Proof.
  intros Hx top. unfold s_min. destruct x as [s|[]| |[] m' e']; try done; cbn [s_is_nan].
  all: destruct (SFltb top _) eqn:E; [split; [done|]|by split].
  all: apply ltb_irrefl.
Qed.

Lemma thousand : REF_LAP_VARIANCE = S754_finite false 16384000 (-14). Proof. by vm_compute. Qed.
Lemma cam_reference : REF_CAM_LAP_VARIANCE = S754_finite false 15360000 (-11). Proof. by vm_compute. Qed.
Lemma hundred : s_of_Z 100 = S754_finite false 13107200 (-17). Proof. by vm_compute. Qed.

Lemma variance_nonneg s v : variance s = Some v -> 0 <= v.
Proof. unfold variance. case_match; [done|]. intros [= <-]. lia. Qed.

(** Every frame has a score, a number from 0 to 1 and from 0 to 100. *)
Theorem scores_in_range (f : CaptureFrame) (g : ReconstructedFrame) :
  (non_negative (ocr_score (ocr_score_frame f)) = true /\ SFltb s_one (ocr_score (ocr_score_frame f)) = false) /\
  (non_negative (vmaf_score (vmaf_score_frame g)) = true /\ SFltb (s_of_Z 100) (vmaf_score (vmaf_score_frame g)) = false).
Proof.
  assert (Z1 : non_negative s_zero = true /\ SFltb s_one s_zero = false) by (split; vm_compute; reflexivity).
  assert (Z2 : non_negative s_zero = true /\ SFltb (s_of_Z 100) s_zero = false) by (split; vm_compute; reflexivity).
  split.
  - cbn [ocr_score ocr_score_frame]. unfold ocr_compute_score. cbn zeta.
    destruct (_ <? _)%N; [exact Z1|]. destruct (_ || _); [exact Z1|].
    destruct (variance _) as [v|] eqn:E; [|exact Z1]. apply variance_nonneg in E.
    rewrite thousand, s_one_eq. apply s_min_range, s_div_non_negative. by apply s_of_Z_non_negative.
  - cbn [vmaf_score vmaf_score_frame]. unfold vmaf_compute_score. cbn zeta.
    destruct (_ || _); [exact Z2|]. destruct (variance _) as [v|] eqn:E; [|exact Z2]. apply variance_nonneg in E.
    rewrite hundred, cam_reference. apply s_min_range, s_mul_non_negative, s_div_non_negative. by apply s_of_Z_non_negative.
Qed.

(** *** Blindness between the samples *)
Lemma grid_same n_rows n_cols at1 at2 :
  (forall row col, (row < n_rows)%nat -> (col < n_cols)%nat -> at1 row col = at2 row col) ->
  grid n_rows n_cols at1 = grid n_rows n_cols at2.
Proof.
  intros H. unfold grid. rewrite !flat_map_concat_map. f_equal. apply map_ext_in. intros row Hr.
  apply map_ext_in. intros col Hc. apply in_seq in Hr, Hc. apply H; lia.
Qed.

Lemma grid_constant n_rows n_cols c : grid n_rows n_cols (fun _ _ => c) = replicate (n_rows * n_cols) c.
Proof.
  unfold grid. generalize 0%nat at 2 as k. induction n_rows as [|n IH]; intros k; [done|].
  cbn [seq flat_map Nat.mul]. rewrite IH, replicate_add. f_equal.
  clear IH. generalize 0%nat as j. induction n_cols as [|m IHm]; intros j; [done|]. cbn. by rewrite IHm.
Qed.

Lemma laplacian_constant n_rows n_cols c row col :
  (1 <= row < n_rows - 1)%nat -> (1 <= col < n_cols - 1)%nat -> laplacian (replicate (n_rows * n_cols) c) n_cols row col = 0.
Proof.
  intros Hr Hc. unfold laplacian.
  assert (H : forall i, (i < n_rows * n_cols)%nat -> replicate (n_rows * n_cols) c !!! i = c).
  { intros i Hi. rewrite list_lookup_total_alt. assert (E : replicate (n_rows * n_cols) c !! i = Some c); [|by rewrite E].
    by apply lookup_replicate. }
  rewrite !H by nia. lia.
Qed.

Lemma variance_constant n_rows n_cols c :
  default 0 (variance (sums (replicate (n_rows * n_cols) c) n_rows n_cols)) = 0.
Proof.
  set (l := interior (replicate (n_rows * n_cols) c) n_rows n_cols).
  assert (Hz : Forall (fun x => x = 0) l).
  { apply Forall_forall. intros x Hx. apply list_elem_of_In, in_flat_map in Hx as (row & Hr & Hx).
    apply in_map_iff in Hx as (col & <- & Hc). apply in_seq in Hr, Hc. apply laplacian_constant; lia. }
  assert (Ht : total l = 0 /\ total (map (fun x => x * x) l) = 0).
  { unfold total. induction Hz as [|x k -> _ IH]; [done|]. cbn [map foldr]. lia. }
  destruct (sums_spec l (mkSums 0 0 0)) as (E1 & E2 & _). cbn [sum_l sum_l2] in E1, E2.
  unfold variance, sums. fold l. rewrite E1, E2. destruct Ht as [-> ->]. case_match; [done|]. cbn. by rewrite Z.quot_0_l by lia.
Qed.

(** Only every fourth pixel of every fourth row is looked at: a frame whose
    sampled pixels have one colour is given the score of a blank one, whatever is
    drawn between them, strokes three pixels wide included. *)
Theorem strokes_between_samples_are_not_seen (f : CaptureFrame) (c : Z) :
  (forall row col, (row < N.to_nat (frame_height f) / 4)%nat -> (col < N.to_nat (frame_width f) / 4)%nat ->
    luma_at (ScreenCapture.pixels f) 2 1 0 (row * 4 * N.to_nat (stride f) + col * 4 * 4) = c) ->
  ocr_score (ocr_score_frame f) = s_zero.
Proof.
  intros Hc. cbn [ocr_score ocr_score_frame]. unfold ocr_compute_score, SAMPLE_STEP. cbn zeta.
  destruct (_ <? _)%N; [done|]. destruct (_ || _); [done|].
  rewrite (grid_same _ _ _ (fun _ _ => c)), grid_constant by exact Hc.
  pose proof (variance_constant (N.to_nat (frame_height f) / 4) (N.to_nat (frame_width f) / 4) c) as Hv.
  destruct (variance _) as [v|]; [|done]. cbn in Hv. subst v. by vm_compute.
Qed.

Lemma sums_fit_witness :
  let l := [1; 2; 3; 4; 250; 6; 7; 8; 9] in
  sum_l2 (sums l 3 3) = 960400 /\ 0 <= sum_l2 (sums l 3 3) < 2 ^ 63.
Proof.
  intros l. split; [done|]. apply (sums_fit l 3 3); [repeat constructor; unfold in_luma; lia|done].
Defined.

Lemma variance_needs_no_clamp_witness :
  variance (sums [1; 2; 3; 0; 4; 250; 6; 7; 0; 7; 8; 9] 3 4) = Some (510948 - (-368) * (-368)).
Proof. apply (variance_needs_no_clamp [1; 2; 3; 0; 4; 250; 6; 7; 0; 7; 8; 9] 3 4). done. Defined.

(** White, with black strokes three pixels wide: 12 by 200. *)
Definition ruled : CaptureFrame :=
  let px (v : byte) := repeat v 4 in
  let row := concat (repeat (px Byte.xff ++ px Byte.x00 ++ px Byte.x00 ++ px Byte.x00) 3) in
  mkFrame (concat (repeat row 200)) 12 200 48 [] None.

Lemma strokes_between_samples_are_not_seen_witness : ocr_score (ocr_score_frame ruled) = s_zero.
Proof.
  apply (strokes_between_samples_are_not_seen ruled 255). intros row col Hr Hc.
  assert (H : forallb (fun row => forallb (fun col =>
      luma_at (ScreenCapture.pixels ruled) 2 1 0 (row * 4 * N.to_nat (stride ruled) + col * 4 * 4) =? 255) (seq 0 3)) (seq 0 50) = true)
    by (vm_compute; reflexivity).
  rewrite forallb_forall in H. specialize (H row). rewrite forallb_forall in H.
  apply Z.eqb_eq, H; apply in_seq; [change (N.to_nat (frame_height ruled) / 4)%nat with 50%nat in Hr|
    change (N.to_nat (frame_width ruled) / 4)%nat with 3%nat in Hc]; lia.
Defined.
